(* ===== verification/_CoqProject ===== *)
-Q . S2P
Prelude.v
Win32.v
StdPath.v
PathText.v
PathFacts.v
NtStatus.v
Metadata.v
DiskLaws.v
LayerEntry.v
LayerWalk.v
AncestryFacts.v
DirMerge.v
MergeFacts.v
Cache.v
CacheFacts.v
Resolver.v
Fixture.v
ResolverFacts.v
Agreement.v
Whiteout.v
HandleTable.v
HandleFacts.v
HandleSafety.v
MarkerFacts.v
ProcessTracker.v
TrackerFacts.v
EntryHost.v
Privileges.v
EntryCopy.v
CopyDataFacts.v
MemEntry.v
EntryAttributes.v
EaFacts.v
UpperMoves.v
Engine.v
CopyUp.v
Reservations.v
WorkDirectory.v
RenameAside.v
DirectoryRename.v
EngineFacts.v
MountHost.v
Mount.v
MountOpen.v
MountFiles.v
MountRename.v
Config.v
Descriptor.v
ErrorTls.v
ContextFacts.v
MountFacts.v
AccessFacts.v
ImageHost.v
ImageFormat.v
ImageArchive.v
ImageManager.v
ImageLaws.v
PackFacts.v
ExtractFacts.v
ImageJsonFacts.v
ImageFileFacts.v
Registry.v
RegistryFacts.v
VhdManager.v
VhdFacts.v
HostMountPoint.v
VssManager.v
VssFacts.v
Ledger.v
Abi.v
AbiFile.v
AbiCore.v
AbiImage.v
AbiFacts.v
AbiLifetime.v
AbiContract.v
AbiVhd.v
AbiVss.v
AbiPrimitives.v
AbiHosts.v
