(* ===== verification/Prelude.v ===== *)
(** * LayerMount: a verification of the overlay engine

    LayerMount is a C++ library that shows one writable directory, the upper,
    merged over a list of read-only directories, the lowers, on Windows.  This
    development models [src/LayerMount.dll] as executable definitions and
    proves what makes it correct.

    ** The program's parts

    A caller's path is normalized, checked and parsed ([impl/LayerPath.cpp],
    the text functions of [impl/LayerMount.cpp] and [impl/PathResolver.cpp]).
    [PathResolver] looks a normalized path up: in a bounded cache
    ([impl/Cache.cpp]), then in the upper, then in the lowers, until a marker
    hides them: a whiteout, an opaque directory, a file or a link
    ([impl/LayerPath.cpp], [impl/WhiteoutManager.cpp]).
    [impl/DirectoryMerge.cpp] lists a directory of the merged view with the
    same rules.  [WhiteoutManager] writes the markers, and
    [impl/MetadataStore.cpp] with [impl/SidecarMetadata.cpp] keeps a record
    per entry, on a stream of the entry or in a sidecar file.
    [impl/ProcessTracker.cpp] checks accesses against rules and logs them.

    A change of a lower entry first copies the entry up ([impl/CopyUp.cpp] over
    [impl/EntryCopy.cpp]): the copy is built in the staging area of the work
    directory, with its data, streams, extended attributes, security, times
    and record, and one move puts it into the upper.  A rename moves an upper
    entry with the records of its tree ([impl/LayerPath.cpp],
    [impl/MetadataStore.cpp]), or copies a merged directory
    ([impl/DirectoryRename.cpp]), with the destination moved aside and an undo
    for each step ([impl/RenameRollback.cpp], [impl/FileRename.cpp]).
    [impl/WorkDirectory.cpp] checks the layout and holds the locks of an
    overlay.

    [impl/LayerMount.cpp] is the engine over these parts: the configuration,
    and every operation on a path or on an open file, whose [FileContext] goes
    from a lower to the upper at its first change.  Beside the overlay a mount
    packs a layer, or the difference of two, into an image file
    ([impl/image/LayerImageManager.cpp]), makes virtual disks and imports or
    exports directories with them ([impl/vhd/VHDLayerManager.cpp]), keeps a
    registry of layers under a lock of the machine ([impl/vhd/Manifest.cpp]),
    takes shadow copies of a volume ([impl/vss/VSSManager.cpp]) and prepares
    the directory of a mount point ([impl/host/WindowsMountPoint.cpp]).

    The C interface ([abi/]) stands before all of it: handles out of slot
    tables ([abi/HandleTable.h]), checks of the arguments, a guard that turns
    exceptions into an HRESULT, and an error state for each thread.

    ** The files

    Foundations.
    - [Prelude]: text as lists of UTF-16 code units, results, effects with
      their notation, searches and splits of text, little-endian fields.
    - [Win32]: the operating system.  The class [Win32] holds the calls that
      the source makes, over an abstract [disk]; a call that changes the disk
      is an effect.  [CaseLaws] is the documented behaviour of the case tables
      and [DiskLaws] (file [DiskLaws]) that of the file calls; any open may be
      refused, for some access masks or for all.  [mem_win32]
      is a concrete volume that has the laws; every witness runs on it, or on
      it with a ledger beside it ([Ledger], [AbiHosts]).
    - [EntryHost], [MountHost], [ImageHost]: the further calls of the copies,
      of the engine and of images, as classes over [Win32]; the first file
      also has [run_loop], a loop bounded by a machine integer, with its rule.
      [VhdHost],
      [VssHost], [NamedMutexes], [MountPointHost], [TokenHost] and [AbiHost]
      are those of the files that use them.  The concrete ones that the
      witnesses need are in [MemEntry], [ImageLaws], [MountFacts], [Ledger],
      [AbiContract] and [AbiHosts].
    - [StdPath]: the functions of [std::filesystem::path] that the source uses.
    - [NtStatus]: [NtStatusFromWin32] with its whole table.
    - [Privileges]: [impl/ElevationUtil.cpp]; each privilege is asked for once,
      and the answer that the copies take as a constant is final.

    The merged view.
    - [PathText], [PathFacts]: the path functions, one definition each, and
      their theorems: normal form, confinement of relative paths and of link
      targets, containment, the extended-length prefix, the stream grammar, and
      what it takes for a joined path to stay below its directory.
    - [Metadata]: configuration, the metadata record, both stores.  A written
      record is the record that is read ([DiskLaws]).
    - [LayerEntry], [LayerWalk]: what one layer holds at a path, the walks
      that find links and markers, and what hides the lowers.
    - [AncestryFacts]: the incremental [LayerAncestry] agrees with the walks.
    - [DirMerge], [MergeFacts]: the merge of a directory; the merge of a child
      from its parent's is the merge from the roots.
    - [Cache], [CacheFacts]: the path cache; it refines an unbounded map.
    - [Resolver], [ResolverFacts]: the lookup; it does not depend on the
      cache, finds the first lower that nothing hides, and the walk through
      links stays in the view.
    - [Fixture]: a small overlay for the witnesses.
    - [Agreement]: the listing and the lookup agree on every name.
    - [Whiteout], [MarkerFacts]: the writes and removals of markers, and that
      the next lookup sees them.
    - [ProcessTracker], [TrackerFacts]: process queries and their cache, rules,
      the ring log and its exports.

    Changes of the upper.
    - [EntryCopy], [EntryAttributes]: [impl/EntryCopy.cpp].  [CopyDataFacts]
      states the documented behaviour of file data, [DataLaws], and proves the
      copy of data right, also of a file whose data a provider keeps, whose
      allocated ranges say nothing; [EaFacts] the list of extended attributes.
    - [UpperMoves]: moves of entries with their records, removals, the delete
      of a staged tree.
    - [Engine]: the state of the engine that copies and renames share: the
      disk, the path cache, the events, the counters, the paths in flight.
    - [CopyUp]: [impl/CopyUp.cpp].  [Reservations]: the path reservations of
      several threads as a step relation, its invariant, and that it never
      deadlocks.
    - [WorkDirectory]; [RenameAside], [DirectoryRename]: the layout and the
      locks; the renames and the removal of an entry.
    - [EngineFacts]: the recursion of copy-ups over parents ends, and the
      layout rule keeps the trees apart; runs on the concrete volume.

    The engine of a mount.
    - [Mount], [MountOpen], [MountFiles], [MountRename]: the state of a mount,
      the context of an open file, and the operations of [impl/LayerMount.cpp].
      [Config]: its configuration and its constructor.
    - [ContextFacts]: checks change nothing; a writable context is at the
      upper or below it, neither beside it nor past a parent segment, so that
      a write changes nothing else.  [MountFacts]: bounds of a write, the
      contents of a read, what a rename may replace, the undo of a create.  [AccessFacts]: access masks.

    Images, disks, snapshots.
    - [ImageFormat], [ImageArchive], [ImageManager]: the format, the archive
      and the image file.  [PackFacts], [ExtractFacts], [ImageJsonFacts],
      [ImageFileFacts]: bounds of the reader, the round trips of the archive
      and of the image file, what a differential image carries, and the
      confinement and the end of an unpack.
    - [Registry], [RegistryFacts]: the registry; a save that fails leaves it,
      and one that succeeds replaces it with what the last flush wrote, which
      may be short.
    - [VhdManager], [VhdFacts]: virtual disks; capacities, the walk of an
      export against its recursive reference, and that no handle stays open.
    - [VssManager], [VssFacts]: shadow copies and COM; each snapshot of the
      session keeps its component and nothing else is left; a cleanup tries
      each of them and keeps those that the service refused to delete.
    - [HostMountPoint]: a removal takes only the directory that was made.
    - [Ledger]: concrete disks and shadow copies, and the theorems there.

    The C interface.
    - [HandleTable], [HandleFacts], [HandleSafety]: the slot tables; they
      refine an abstract table that never gives a value out twice; no slot is
      lost; opening a file is all or nothing with other threads between.
    - [ErrorTls]: the error state and the guard.  [Descriptor]: the check of a
      caller's security descriptor reads inside the caller's buffer.
    - [Abi], [AbiFile], [AbiCore], [AbiImage]: the state and the exports on
      mounts, files and images.  [AbiFacts], [AbiLifetime], [AbiContract]: the
      invariant of handles and objects over every sequence of exports, and the
      contracts of opens, closes and destroys.
    - [AbiVhd], [AbiVss]: the exports on disks, the registry, snapshots and
      mount points.  [AbiPrimitives], [AbiHosts]: their theorems, and a whole
      host on which they are applied.

    ** Conventions

    A definition has the name of the function it models.  A pure read of the
    disk takes the disk [d]; a call that changes state is an [eff].  A null
    pointer is [None].  A mutable argument is threaded through.  Where the
    source loops to a condition, the definition recurses on a list or on fuel:
    a parent of a path is shorter than the path, so its length bounds the
    loops over ancestors ([any_directory_up], [ancestor_keys]); a redirect
    chain has the source's own bound [kMaxRedirectDepth], and a walk through
    links the source's [kMaxLinkHops], with the number of components between
    two hops as measure.  A loop over the bytes of a file or over answers of
    the system runs in [run_loop] with a bound that its counter cannot pass
    ([2^63] for a [LONGLONG], [2^32] for a [ULONG]); [NEVER_RETURNS] is the
    status at the end of such a bound, which [CopyFileDataKeepingHoles_copies]
    shows is never returned.  A walk of a tree has fuel for every depth that a
    path of 32767 characters allows ([walk_fuel]), a copy-up of parents the
    length of the path ([CopyUpDirectory_terminates]), a list of streams the
    doublings of a [DWORD] ([read_stream_list]), an archive its length
    ([extract_fuel]).  Integers are [Z] with their width written where it
    matters (handle values, file times, sizes).  A lock held for a whole call
    makes the call one step; [ReserveThenRun], which holds none while the
    engine runs, takes the other threads' calls as an argument.  A
    [shared_ptr] is the number of an object in a heap, so that two holders can
    name one object, and a raw pointer that can dangle is the number of what it
    points to, or [None] when that is gone.

    ** What is not modelled

    The tests, the C# binding over the C interface, the tools and the packaging
    are other programs.  zstd, the JSON library, the case tables, the digests
    and every call of the system are parameters with their documented laws.
    Out-of-memory exceptions of the standard library are left out, but for the
    allocations of an image, whose sizes come from a file.  The mutexes of the
    C interface make each export one step; two exports that change one open
    file at the same time are not modelled, and the source has no lock for
    them.  The exports on disks and snapshots extend the state of those on
    mounts and files ([PrimitiveState] over [AbiState]); the invariant of files
    is stated over the latter.  A handle is closed without a definition where
    the close has no result. *)
From stdpp Require Export base decidable list numbers option strings gmap sets.
From Stdlib Require Export ZArith Lia.
Open Scope Z_scope.

(** ** Text *)

(** A [wchar_t] is a UTF-16 code unit; a [std::wstring] is a list of them. *)
Abbreviation wstring := (list Z).

(** The wide literal [L"..."]. *)
Fixpoint L (s : string) : wstring :=
  match s with
  | EmptyString => []
  | String a s' => Z.of_N (Ascii.N_of_ascii a) :: L s'
  end.

Definition ch_bsl : Z := 92.
Definition ch_slash : Z := 47.
Definition ch_colon : Z := 58.
Definition ch_dot : Z := 46.
Definition ch_star : Z := 42.
Definition ch_space : Z := 32.

(** ** Results

    A Win32 or engine call gives a value or an error code: a Win32 error for
    an operating-system call, an NTSTATUS for an engine call. *)
Inductive res (E A : Type) : Type :=
| Ok (a : A)
| Err (e : E).
Arguments Ok {E A} _.
Arguments Err {E A} _.

#[export] Instance res_eq_dec `{EqDecision E, EqDecision A} : EqDecision (res E A).
Proof. solve_decision. Defined.

(** A Win32 call: a value, or the last error. *)
Abbreviation w32 := (res Z).

Definition is_ok {E A} (r : res E A) : bool :=
  match r with Ok _ => true | Err _ => false end.

Declare Scope res_scope.
Delimit Scope res_scope with res.
Notation "'let?' x ':=' c1 'in' c2" :=
  (match c1 with Ok x => c2 | Err e => Err e end)
  (at level 10, x pattern, c1 at level 100, c2 at level 200) : res_scope.

(** ** Effects

    A call that changes a state: the disk, or the disk and the engine's own
    tables.  [let!] sequences two such calls. *)
Definition eff (S A : Type) : Type := S -> S * A.

Definition eret {S A} (a : A) : eff S A := fun s => (s, a).

Definition ebind {S A B} (m : eff S A) (k : A -> eff S B) : eff S B :=
  fun s => let (s', a) := m s in k a s'.

(** A read of the state. *)
Definition eread {S A} (f : S -> A) : eff S A := fun s => (s, f s).

(** A run is its final state and its reply. *)
Lemma run_reply {S A} (m : eff S A) s a : snd (m s) = a -> m s = (fst (m s), a).
Proof. intros <-. apply surjective_pairing. Qed.

Declare Scope eff_scope.
Delimit Scope eff_scope with eff.
Notation "'let!' x ':=' c1 'in' c2" :=
  (ebind c1 (fun x => c2))
  (at level 10, x pattern, c1 at level 100, c2 at level 200) : eff_scope.
Notation "'do!' c1 'in' c2" :=
  (ebind c1 (fun _ => c2))
  (at level 10, c1 at level 100, c2 at level 200) : eff_scope.

(** ** [std::wstring] searches *)

(** [s.find(c)]: the first index of [c], or [None] for [npos]. *)
Fixpoint wfind (c : Z) (s : wstring) : option nat :=
  match s with
  | [] => None
  | x :: s' => if Z.eqb x c then Some O else S <$> wfind c s'
  end.

(** [s.find_last_of(c)] and [s.rfind(c)]. *)
Fixpoint wrfind (c : Z) (s : wstring) : option nat :=
  match s with
  | [] => None
  | x :: s' =>
      match wrfind c s' with
      | Some i => Some (S i)
      | None => if Z.eqb x c then Some O else None
      end
  end.

(** [s.rfind(p, 0) == 0]: whether [s] starts with [p]. *)
Definition starts_with (p s : wstring) : bool := bool_decide (take (length p) s = p).

(** [std::replace(s.begin(), s.end(), a, b)]. *)
Definition wreplace (a b : Z) (s : wstring) : wstring :=
  (fun c => if Z.eqb c a then b else c) <$> s.

(** The segments of [s] between separators, as a loop over [s.find(sep)]
    meets them; never empty, and empty segments are kept. *)
Fixpoint segments (sep : Z) (s : wstring) : list wstring :=
  match s with
  | [] => [[]]
  | c :: s' =>
      if Z.eqb c sep then [] :: segments sep s'
      else match segments sep s' with
           | [] => [[c]]
           | g :: gs => (c :: g) :: gs
           end
  end.

(** The inverse of [segments]: the parts with [sep] between them. *)
Fixpoint join_with (sep : Z) (parts : list wstring) : wstring :=
  match parts with
  | [] => []
  | [p] => p
  | p :: ps => p ++ sep :: join_with sep ps
  end.

(** ** Little-endian fields of a byte buffer *)

Fixpoint le_decode (bytes : list Z) : Z :=
  match bytes with
  | [] => 0
  | b :: bs => b + 256 * le_decode bs
  end.

Fixpoint le_encode (width : nat) (v : Z) : list Z :=
  match width with
  | O => []
  | S w => v mod 256 :: le_encode w (v / 256)
  end.

(** The unsigned field of [width] bytes at [offset]. *)
Definition le_field (data : list Z) (offset width : nat) : Z :=
  le_decode (take width (drop offset data)).

(** ** Lemmas on text *)

Create HintDb layermount discriminated.

Lemma wfind_Some c s i :
  wfind c s = Some i <-> s !! i = Some c /\ c ∉ take i s.
Proof.
  revert i. induction s as [|x s IH]; intros i; cbn.
  { split; [done|]. intros [H _]. by rewrite lookup_nil in H. }
  destruct (Z.eqb_spec x c) as [->|Hne].
  - split.
    + intros [= <-]. cbn. split; [done|apply not_elem_of_nil].
    + intros [Hi Hn]. destruct i as [|i]; [done|]. cbn in Hn. exfalso. apply Hn. left.
  - rewrite fmap_Some. split.
    + intros (j & Hj & ->). apply IH in Hj as [Hl Hn]. split; [done|].
      cbn. rewrite not_elem_of_cons. split; [congruence|done].
    + intros [Hi Hn]. destruct i as [|i]; cbn in *; [congruence|].
      rewrite not_elem_of_cons in Hn. exists i. split; [|done]. apply IH. naive_solver.
Qed.

Lemma wfind_None c s : wfind c s = None <-> c ∉ s.
Proof.
  induction s as [|x s IH]; cbn.
  { split; [intros _; apply not_elem_of_nil|done]. }
  rewrite not_elem_of_cons.
  destruct (Z.eqb_spec x c) as [->|Hne]; [naive_solver|].
  rewrite fmap_None, IH. naive_solver.
Qed.

Lemma wfind_split c s i :
  wfind c s = Some i -> s = take i s ++ c :: drop (S i) s /\ c ∉ take i s.
Proof.
  intros [Hl Hn]%wfind_Some. split; [|done]. by rewrite take_drop_middle.
Qed.

Lemma wfind_app_r c s t : c ∉ s -> wfind c (s ++ t) = (fun i => (length s + i)%nat) <$> wfind c t.
Proof.
  induction s as [|x s IH]; cbn; intros Hn.
  { by destruct (wfind c t). }
  apply not_elem_of_cons in Hn as [Hx Hn].
  destruct (Z.eqb_spec x c); [congruence|]. rewrite IH by done. by destruct (wfind c t).
Qed.

Lemma wrfind_None c s : wrfind c s = None <-> c ∉ s.
Proof.
  induction s as [|x s IH]; cbn.
  { split; [intros _; apply not_elem_of_nil|done]. }
  rewrite not_elem_of_cons. destruct (wrfind c s).
  - split; [done|]. intros [_ H]. by apply IH in H.
  - destruct (Z.eqb_spec x c); naive_solver.
Qed.

Lemma wrfind_Some c s i :
  wrfind c s = Some i <-> s !! i = Some c /\ c ∉ drop (S i) s.
Proof.
  revert i. induction s as [|x s IH]; intros i; cbn.
  { split; [done|]. intros [H _]. by rewrite lookup_nil in H. }
  destruct (wrfind c s) as [j|] eqn:E.
  - split.
    + intros [= <-]. cbn. by apply IH.
    + intros [Hi Hn]. destruct i as [|i]; cbn in *.
      * rewrite drop_0 in Hn. apply wrfind_None in Hn. congruence.
      * assert (Some j = Some i) by (apply IH; done). congruence.
  - apply wrfind_None in E. destruct (Z.eqb_spec x c) as [->|Hne].
    + split; [intros [= <-]; cbn; by rewrite drop_0|].
      intros [Hi _]. destruct i as [|i]; [done|]. cbn in Hi.
      exfalso. apply E. by eapply list_elem_of_lookup_2.
    + split; [done|]. intros [Hi _]. destruct i as [|i]; cbn in *; [congruence|].
      exfalso. apply E. by eapply list_elem_of_lookup_2.
Qed.

Lemma starts_with_prefix p s : starts_with p s = true <-> p `prefix_of` s.
Proof.
  unfold starts_with. rewrite bool_decide_eq_true. split.
  - intros H. exists (drop (length p) s). rewrite <- H at 1. by rewrite take_drop.
  - intros [k ->]. by rewrite take_app_length.
Qed.

Lemma segments_nonempty sep s : segments sep s <> [].
Proof.
  destruct s as [|c s]; cbn; [done|].
  destruct (Z.eqb c sep); [done|]. by destruct (segments sep s).
Qed.

Lemma join_segments sep s : join_with sep (segments sep s) = s.
Proof.
  induction s as [|c s IH]; cbn; [done|].
  pose proof (segments_nonempty sep s) as Hne.
  destruct (Z.eqb_spec c sep) as [->|Hc];
    destruct (segments sep s) as [|g gs]; try done; cbn in *.
  - f_equal. exact IH.
  - destruct gs; cbn in *; by rewrite IH.
Qed.

Lemma segments_no_sep sep s g : g ∈ segments sep s -> sep ∉ g.
Proof.
  revert g. induction s as [|c s IH]; cbn; intros g Hg.
  { apply list_elem_of_singleton in Hg as ->. apply not_elem_of_nil. }
  pose proof (segments_nonempty sep s) as Hne.
  destruct (Z.eqb_spec c sep) as [->|Hc].
  - apply elem_of_cons in Hg as [->|Hg]; [apply not_elem_of_nil|by apply IH].
  - destruct (segments sep s) as [|h gs] eqn:E; [done|].
    apply elem_of_cons in Hg as [->|Hg].
    + apply not_elem_of_cons. split; [congruence|]. apply IH. left.
    + apply IH. by right.
Qed.

Lemma segments_app_sep sep p s :
  sep ∉ p -> segments sep (p ++ sep :: s) = p :: segments sep s.
Proof.
  induction p as [|c p IH]; cbn; intros Hp.
  - by rewrite Z.eqb_refl.
  - apply not_elem_of_cons in Hp as [Hc Hp].
    destruct (Z.eqb_spec c sep); [congruence|]. by rewrite IH.
Qed.

Lemma segments_app_any sep p q : segments sep (p ++ sep :: q) = segments sep p ++ segments sep q.
Proof.
  induction p as [|c p IH]; cbn [app segments]; [by rewrite Z.eqb_refl|].
  rewrite IH. destruct (Z.eqb_spec c sep); [done|]. pose proof (segments_nonempty sep p).
  by destruct (segments sep p).
Qed.

Lemma segments_single sep p : sep ∉ p -> segments sep p = [p].
Proof.
  induction p as [|c p IH]; cbn; intros Hp; [done|].
  apply not_elem_of_cons in Hp as [Hc Hp].
  destruct (Z.eqb_spec c sep); [congruence|]. by rewrite IH.
Qed.

Lemma segments_join sep parts :
  parts <> [] -> Forall (fun p => sep ∉ p) parts ->
  segments sep (join_with sep parts) = parts.
Proof.
  induction parts as [|p parts IH]; intros Hne HF; [done|].
  apply Forall_cons in HF as [Hp HF]. destruct parts as [|q parts].
  - by apply segments_single.
  - change (join_with sep (p :: q :: parts)) with (p ++ sep :: join_with sep (q :: parts)).
    rewrite segments_app_sep by done. by rewrite IH.
Qed.

Lemma join_with_app sep ps qs :
  ps <> [] -> qs <> [] ->
  join_with sep (ps ++ qs) = join_with sep ps ++ sep :: join_with sep qs.
Proof.
  induction ps as [|p ps IH]; intros Hp Hq; [done|].
  destruct ps as [|p' ps]; cbn [app join_with].
  - by destruct qs.
  - change (p ++ sep :: join_with sep ((p' :: ps) ++ qs) =
            (p ++ sep :: join_with sep (p' :: ps)) ++ sep :: join_with sep qs).
    rewrite IH by done. by rewrite <- app_assoc.
Qed.

Lemma join_with_snoc sep ps q :
  ps <> [] -> join_with sep (ps ++ [q]) = join_with sep ps ++ sep :: q.
Proof. intros. by rewrite join_with_app. Qed.

Lemma join_with_elem sep ps c : c <> sep -> c ∈ join_with sep ps -> exists p, p ∈ ps /\ c ∈ p.
Proof.
  intros Hc. induction ps as [|p ps IH]; cbn; [by intros ?%elem_of_nil|].
  destruct ps as [|q ps].
  - intros. exists p. split; [left|done].
  - rewrite elem_of_app, elem_of_cons. intros [H|[H|H]]; [|by subst|].
    + exists p. split; [left|done].
    + destruct (IH H) as (x & ? & ?). exists x. split; [by right|done].
Qed.

Lemma join_with_nil_inv sep ps :
  Forall (fun p => p <> []) ps -> join_with sep ps = [] -> ps = [].
Proof.
  destruct ps as [|p [|q ps]]; cbn; intros HF H; [done| |].
  - apply Forall_inv in HF. done.
  - by apply app_eq_nil in H as [_ ?].
Qed.

Lemma segments_elem sep s g x : g ∈ segments sep s -> x ∈ g -> x ∈ s.
Proof.
  revert g. induction s as [|c s IH]; cbn; intros g Hg Hx.
  { apply list_elem_of_singleton in Hg as ->. done. }
  destruct (Z.eqb_spec c sep) as [->|Hc].
  - apply elem_of_cons in Hg as [->|Hg]; [by apply not_elem_of_nil in Hx|right; by eapply IH].
  - pose proof (segments_nonempty sep s) as Hne. destruct (segments sep s) as [|h gs]; [done|].
    apply elem_of_cons in Hg as [->|Hg].
    + apply elem_of_cons in Hx as [->|Hx]; [left|right; eapply IH; [left|done]].
    + right. eapply IH; [right; exact Hg|done].
Qed.

(** ** Lemmas on little-endian fields *)

Definition is_byte (b : Z) : Prop := 0 <= b < 256.

Lemma le_encode_length w v : length (le_encode w v) = w.
Proof. revert v. induction w as [|w IH]; intros v; cbn; [done|]. by rewrite IH. Qed.

Lemma le_encode_bytes w v : Forall is_byte (le_encode w v).
Proof.
  revert v. induction w as [|w IH]; intros v; cbn; constructor; [|apply IH].
  unfold is_byte. apply Z.mod_pos_bound. lia.
Qed.

Lemma le_decode_encode w v : 0 <= v < 256 ^ Z.of_nat w -> le_decode (le_encode w v) = v.
Proof.
  revert v. induction w as [|w IH]; intros v Hv; cbn [le_encode le_decode].
  - change (256 ^ Z.of_nat 0) with 1 in Hv. lia.
  - rewrite Nat2Z.inj_succ, Z.pow_succ_r in Hv by lia.
    rewrite IH.
    + pose proof (Z.div_mod v 256). lia.
    + split; [apply Z.div_pos; lia|]. apply Z.div_lt_upper_bound; lia.
Qed.

Lemma le_decode_bound bytes : Forall is_byte bytes -> 0 <= le_decode bytes < 256 ^ Z.of_nat (length bytes).
Proof.
  induction 1 as [|b bs Hb _ IH]; cbn [le_decode length]; [done|].
  rewrite Nat2Z.inj_succ, Z.pow_succ_r by lia. unfold is_byte in Hb. lia.
Qed.

Lemma le_field_app_r l r off w :
  (length l <= off)%nat -> le_field (l ++ r) off w = le_field r (off - length l) w.
Proof. intros H. unfold le_field. by rewrite drop_app_ge. Qed.

Lemma le_field_app_l l r off w :
  (off + w <= length l)%nat -> le_field (l ++ r) off w = le_field l off w.
Proof.
  intros H. unfold le_field. rewrite drop_app_le by lia. rewrite take_app_le; [done|].
  rewrite length_drop. lia.
Qed.

Lemma le_field_here off w v rest :
  off = 0%nat -> 0 <= v < 256 ^ Z.of_nat w -> le_field (le_encode w v ++ rest) off w = v.
Proof.
  intros -> Hv. unfold le_field. rewrite drop_0, take_app_length' by by rewrite le_encode_length.
  by apply le_decode_encode.
Qed.

(** ** Lemmas on bit fields *)

Lemma land_shiftl_low a b n : 0 <= n -> 0 <= b < 2 ^ n -> Z.land (Z.shiftl a n) b = 0.
Proof.
  intros Hn Hb. apply Z.bits_inj'. intros i Hi. rewrite Z.land_spec, Z.bits_0.
  destruct (Z.lt_ge_cases i n).
  - by rewrite Z.shiftl_spec_low.
  - assert (Z.testbit b i = false) as ->.
    { destruct (Z.eq_dec b 0) as [->|]; [apply Z.bits_0|]. apply Z.bits_above_log2; [lia|].
      apply Z.lt_le_trans with n; [|done]. apply Z.log2_lt_pow2; lia. }
    apply andb_false_r.
Qed.

Lemma lor_shiftl_low a b n : 0 <= n -> 0 <= b < 2 ^ n -> Z.lor (Z.shiftl a n) b = a * 2 ^ n + b.
Proof.
  intros Hn Hb. rewrite <- Z.shiftl_mul_pow2 by done.
  pose proof (Z.add_lor_land (Z.shiftl a n) b) as H. rewrite land_shiftl_low in H by done. lia.
Qed.
