(* ===== verification/Win32.v ===== *)
(** * The operating-system boundary

    The engine reaches the disk, the case tables and the digests only through
    Win32, BCrypt and the conversion routines.  None of that is code of the
    repository, so it is one interface: the class [Win32], over which every
    component is defined, with its documented behaviour in classes of laws.
    [MemWin32] at the end of the file is a small concrete instance, an
    in-memory volume, on which the witnesses evaluate. *)
From S2P Require Export Prelude.

(** ** Constants of the Win32 SDK that the sources test *)
Definition FILE_ATTRIBUTE_READONLY : Z := 0x1.
Definition FILE_ATTRIBUTE_HIDDEN : Z := 0x2.
Definition FILE_ATTRIBUTE_SYSTEM : Z := 0x4.
Definition FILE_ATTRIBUTE_DIRECTORY : Z := 0x10.
Definition FILE_ATTRIBUTE_ARCHIVE : Z := 0x20.
Definition FILE_ATTRIBUTE_NORMAL : Z := 0x80.
Definition FILE_ATTRIBUTE_TEMPORARY : Z := 0x100.
Definition FILE_ATTRIBUTE_REPARSE_POINT : Z := 0x400.
Definition FILE_ATTRIBUTE_NOT_CONTENT_INDEXED : Z := 0x2000.
Definition FILE_ATTRIBUTE_NO_SCRUB_DATA : Z := 0x20000.
Definition INVALID_FILE_ATTRIBUTES : Z := 0xFFFFFFFF.

Definition FILE_FLAG_BACKUP_SEMANTICS : Z := 0x2000000.
Definition FILE_FLAG_OPEN_REPARSE_POINT : Z := 0x200000.
Definition GENERIC_READ : Z := 0x80000000.
Definition FILE_READ_ATTRIBUTES : Z := 0x80.
Definition FILE_WRITE_ATTRIBUTES : Z := 0x100.
Definition DELETE : Z := 0x10000.
Definition SYNCHRONIZE : Z := 0x100000.
Definition MOVEFILE_REPLACE_EXISTING : Z := 0x1.
Definition MOVEFILE_WRITE_THROUGH : Z := 0x8.

Definition ERROR_SUCCESS : Z := 0.
Definition ERROR_FILE_NOT_FOUND : Z := 2.
Definition ERROR_PATH_NOT_FOUND : Z := 3.
Definition ERROR_ACCESS_DENIED : Z := 5.
Definition ERROR_INVALID_DATA : Z := 13.
Definition ERROR_NO_MORE_FILES : Z := 18.
Definition ERROR_SEEK : Z := 25.
Definition ERROR_WRITE_FAULT : Z := 29.
Definition ERROR_READ_FAULT : Z := 30.
Definition ERROR_ALREADY_EXISTS : Z := 183.
Definition ERROR_DIRECTORY : Z := 267.

Definition IO_REPARSE_TAG_SYMLINK : Z := 0xA000000C.
Definition IO_REPARSE_TAG_AF_UNIX : Z := 0x80000023.
Definition IO_REPARSE_TAG_APPEXECLINK : Z := 0x8000001B.

(** The SDK macro [IsReparseTagNameSurrogate]. *)
Definition IsReparseTagNameSurrogate (tag : Z) : bool :=
  negb (Z.land tag 0x20000000 =? 0).

(** Whether [attributes & bit] is non-zero. *)
Definition has_attr (attributes bit : Z) : bool := negb (Z.land attributes bit =? 0).

(** A [FILETIME]: two double words. *)
Record FILETIME := FileTime { dwLowDateTime : Z; dwHighDateTime : Z }.

#[export] Instance filetime_eq_dec : EqDecision FILETIME.
Proof. solve_decision. Defined.

(** The creation, access and write times of an entry. *)
Record entry_times := EntryTimes { creation : FILETIME; access : FILETIME; write : FILETIME }.

#[export] Instance entry_times_eq_dec : EqDecision entry_times.
Proof. solve_decision. Defined.

(** The times of a structure that is zero. *)
Definition no_times : entry_times := EntryTimes (FileTime 0 0) (FileTime 0 0) (FileTime 0 0).

(** The fields of [WIN32_FIND_DATAW] that the engine reads. *)
Record find_data := FindData {
  cFileName : wstring;
  dwFileAttributes : Z;
  dwReserved0 : Z;
  nFileSizeHigh : Z;
  nFileSizeLow : Z;
  ftTimes : entry_times
}.

#[export] Instance find_data_eq_dec : EqDecision find_data.
Proof. solve_decision. Defined.

(** ** The interface *)
Class Win32 := {
  disk : Type;
  handle : Type;
  (** [CharLowerBuffW] and the upper-case table of [CompareStringOrdinal]
      work one code unit at a time. *)
  char_lower : Z -> Z;
  char_upper : Z -> Z;
  (** [None] when the call refuses the path. *)
  GetFullPathNameW : wstring -> option wstring;
  (** The attributes of the entry itself, or the last error. *)
  GetFileAttributesW : disk -> wstring -> w32 Z;
  (** [GetFileAttributesExW]: the times. *)
  GetFileTimes : disk -> wstring -> w32 entry_times;
  (** [CreateFileW] with [OPEN_EXISTING] and full sharing: the path, the
      access mask and the flags.  The caller closes the handle in the scope
      that opened it, so the open itself only reads the disk. *)
  OpenExistingW : disk -> wstring -> Z -> Z -> w32 handle;
  (** [GetFileInformationByHandleEx] with [FileAttributeTagInfo]. *)
  GetAttributeTag : disk -> handle -> w32 Z;
  (** [GetFileInformationByHandle]: the attributes. *)
  GetHandleAttributes : disk -> handle -> w32 Z;
  (** [DeviceIoControl] with [FSCTL_GET_REPARSE_POINT]: the bytes returned. *)
  GetReparseData : disk -> handle -> w32 (list Z);
  (** [FindFirstFileW], then [FindNextFileW] until it returns false: the
      entries, and the last error of the call that returned false. *)
  FindFilesW : disk -> wstring -> w32 (list find_data * Z);
  (** [GetFileSizeEx], and [ReadFile] of so many bytes from the start. *)
  GetFileSizeEx : disk -> handle -> w32 Z;
  ReadFileStart : disk -> handle -> Z -> w32 (list Z);
  (** [CreateFileW] with [CREATE_ALWAYS] and the given flags; [WriteFile] of
      the bytes to the new file, and the count it wrote. *)
  CreateAlwaysW : wstring -> Z -> eff disk (w32 handle);
  WriteFile : handle -> list Z -> eff disk (w32 Z);
  (** [SetFileTime] with all three times, and with the access time alone set
      to the mark that keeps it. *)
  SetFileTime : handle -> entry_times -> eff disk (w32 unit);
  DeleteFileW : wstring -> eff disk (w32 unit);
  CreateDirectoryW : wstring -> eff disk (w32 unit);
  RemoveDirectoryW : wstring -> eff disk (w32 unit);
  MoveFileExW : wstring -> wstring -> Z -> eff disk (w32 unit);
  (** [SetFileInformationByHandle] with [FileRenameInfo]: the new path and
      [ReplaceIfExists]. *)
  RenameByHandle : handle -> wstring -> bool -> eff disk (w32 unit);
  (** [std::filesystem::create_directories] and [remove_all] with an error
      code. *)
  create_directories : wstring -> eff disk (w32 unit);
  remove_all : wstring -> eff disk (w32 unit);
  (** [WideCharToMultiByte] and [MultiByteToWideChar] with [CP_UTF8]; [None]
      when the call returns no characters. *)
  WideCharToMultiByte : wstring -> option (list Z);
  MultiByteToWideChar : list Z -> option wstring;
  (** BCrypt's SHA-1, or [None] when a BCrypt call fails. *)
  bcrypt_sha1 : list Z -> option (list Z)
}.

(** ** Documented behaviour of the case tables *)

(** The characters of path syntax, and the terminator of a text. *)
Definition path_punctuation : list Z := [ch_bsl; ch_slash; ch_colon; ch_dot; 0].

Class CaseLaws `{W : Win32} := {
  lower_idem : forall c, char_lower (char_lower c) = char_lower c;
  (** Only a separator folds to a separator, and so for the other
      characters of path syntax and for the terminator. *)
  lower_punct : forall c p, p ∈ path_punctuation -> (char_lower c = p <-> c = p);
  (** The two tables agree on the ASCII characters of the marker names. *)
  upper_marker : forall c m, m ∈ L ".whopq" -> (char_upper c = char_upper m <-> char_lower c = m)
}.

Section CaseFold.
Context `{W : Win32} `{CL : !CaseLaws}.

(** [CharLowerBuffW] over a whole string. *)
Definition CharLowerBuffW (s : wstring) : wstring := char_lower <$> s.

(** [CompareStringOrdinal(a, b, TRUE) == CSTR_EQUAL]. *)
Definition ordinal_eq_ci (a b : wstring) : bool :=
  bool_decide (char_upper <$> a = char_upper <$> b).

Lemma lower_idem_s s : CharLowerBuffW (CharLowerBuffW s) = CharLowerBuffW s.
Proof.
  unfold CharLowerBuffW. rewrite <- list_fmap_compose. apply list_fmap_ext.
  intros i x _. apply lower_idem.
Qed.

Lemma lower_length s : length (CharLowerBuffW s) = length s.
Proof. apply length_fmap. Qed.

Lemma lower_app s t : CharLowerBuffW (s ++ t) = CharLowerBuffW s ++ CharLowerBuffW t.
Proof. apply fmap_app. Qed.

Lemma lower_punct_fix p : p ∈ path_punctuation -> char_lower p = p.
Proof. intros Hp. by apply lower_punct. Qed.

Lemma lower_elem_punct p s :
  p ∈ path_punctuation -> (p ∈ CharLowerBuffW s <-> p ∈ s).
Proof.
  intros Hp. unfold CharLowerBuffW. rewrite list_elem_of_fmap. split.
  - intros (c & Hc & Hs). symmetry in Hc. apply lower_punct in Hc as ->; done.
  - intros Hs. exists p. split; [|done]. symmetry. by apply lower_punct_fix.
Qed.

Lemma lower_segments s :
  segments ch_bsl (CharLowerBuffW s) = CharLowerBuffW <$> segments ch_bsl s.
Proof.
  assert (Hb : ch_bsl ∈ path_punctuation) by (vm_compute; left).
  unfold CharLowerBuffW. induction s as [|c s IH]; cbn; [done|].
  destruct (Z.eqb_spec c ch_bsl) as [->|Hc].
  - rewrite lower_punct_fix, Z.eqb_refl by done. cbn. by rewrite IH.
  - destruct (Z.eqb_spec (char_lower c) ch_bsl) as [E|_].
    + apply (lower_punct c ch_bsl Hb) in E. congruence.
    + rewrite IH. by destruct (segments ch_bsl s).
Qed.

(** Comparing with a marker name case-insensitively is comparing the fold. *)
Lemma ordinal_eq_marker s m :
  Forall (fun c => c ∈ L ".whopq") m ->
  ordinal_eq_ci s m = bool_decide (CharLowerBuffW s = m).
Proof.
  intros Hm. unfold ordinal_eq_ci, CharLowerBuffW. apply bool_decide_ext.
  revert s. induction Hm as [|c m Hc Hm IH]; intros [|x s]; try (split; done).
  pose proof (upper_marker x c Hc) as Hx. specialize (IH s).
  rewrite !fmap_cons. split.
  - intros [= H1 H2]. f_equal; [by apply Hx|by apply IH].
  - intros [= H1 H2]. f_equal; [by apply Hx|by apply IH].
Qed.
End CaseFold.

#[export] Hint Rewrite @lower_length @lower_app : layermount.

(** ** A concrete volume for the witnesses

    Entries are keyed by their full lower-case path; a stream is an entry
    whose name holds a colon.  The tables fold ASCII only, every path is
    already full, and the conversions take code units for bytes.  A handle is
    the path that was opened. *)
Module MemWin32.
Record mem_entry := MemEntry {
  me_attributes : Z;
  me_tag : Z;
  me_data : list Z;
  me_reparse : list Z
}.

Definition volume := list (wstring * mem_entry).

Definition ascii_lower (c : Z) : Z := if (65 <=? c) && (c <=? 90) then c + 32 else c.
Definition ascii_upper (c : Z) : Z := if (97 <=? c) && (c <=? 122) then c - 32 else c.

Definition key (p : wstring) : wstring := ascii_lower <$> p.

Fixpoint find_entry (v : volume) (k : wstring) : option mem_entry :=
  match v with
  | [] => None
  | (p, e) :: v' => if bool_decide (key p = k) then Some e else find_entry v' k
  end.

Definition lookup_entry (v : volume) (p : wstring) : w32 mem_entry :=
  match find_entry v (key p) with
  | Some e => Ok e
  | None => Err ERROR_FILE_NOT_FOUND
  end.

Definition field {A} (f : mem_entry -> A) (v : volume) (p : wstring) : w32 A :=
  match lookup_entry v p with Ok e => Ok (f e) | Err x => Err x end.

(** The name of [p] when it is a direct child of [dir] and no stream. *)
Definition child_name (dir p : wstring) : option wstring :=
  let prefix := dir ++ [ch_bsl] in
  if bool_decide (take (length prefix) (key p) = key prefix) then
    let name := drop (length prefix) p in
    if bool_decide (name = []) || bool_decide (ch_bsl ∈ name) || bool_decide (ch_colon ∈ name)
    then None else Some name
  else None.

Definition list_children (v : volume) (dir : wstring) : list find_data :=
  omap (fun pe => (fun n => FindData n (me_attributes (snd pe)) (me_tag (snd pe)) 0 (Z.of_nat (length (me_data (snd pe)))) no_times)
                    <$> child_name dir (fst pe)) v.

(** [pattern] is [dir\*], or the path of one entry. *)
Definition find_files (v : volume) (pattern : wstring) : w32 (list find_data * Z) :=
  let dir := take (length pattern - 2) pattern in
  if bool_decide (last pattern = Some ch_star) then
    match lookup_entry v dir with
    | Err _ => Err ERROR_PATH_NOT_FOUND
    | Ok e =>
        if has_attr (me_attributes e) FILE_ATTRIBUTE_DIRECTORY then
          match list_children v dir with
          | [] => Err ERROR_FILE_NOT_FOUND
          | l => Ok (l, ERROR_NO_MORE_FILES)
          end
        else Err ERROR_DIRECTORY
    end
  else
    match find (fun pe => bool_decide (key (fst pe) = key pattern)) v with
    | Some (p, e) =>
        let name := match wrfind ch_bsl p with Some i => drop (S i) p | None => p end in
        Ok ([FindData name (me_attributes e) (me_tag e) 0 (Z.of_nat (length (me_data e))) no_times], ERROR_NO_MORE_FILES)
    | None => Err ERROR_FILE_NOT_FOUND
    end.

Definition remove_entry (v : volume) (p : wstring) : volume :=
  filter (fun pe => key (fst pe) <> key p) v.

Definition put_entry (v : volume) (p : wstring) (e : mem_entry) : volume :=
  (p, e) :: remove_entry v p.

Definition create_always (p : wstring) (flags : Z) : eff volume (w32 wstring) := fun v =>
  (put_entry v p (MemEntry (Z.land flags 0xFFFF) 0 [] []), Ok p).

Definition write_file (p : wstring) (data : list Z) : eff volume (w32 Z) := fun v =>
  match lookup_entry v p with
  | Ok e => (put_entry v p (MemEntry (me_attributes e) (me_tag e) data (me_reparse e)),
             Ok (Z.of_nat (length data)))
  | Err x => (v, Err x)
  end.

(** Deletes the entry and its streams. *)
Definition delete_entry (p : wstring) : eff volume (w32 unit) := fun v =>
  match lookup_entry v p with
  | Ok _ => (filter (fun pe => ~ starts_with (key p ++ [ch_colon]) (key (fst pe))) (remove_entry v p),
             Ok tt)
  | Err e => (v, Err e)
  end.

Definition create_directory (p : wstring) : eff volume (w32 unit) := fun v =>
  match lookup_entry v p with
  | Ok _ => (v, Err ERROR_ALREADY_EXISTS)
  | Err _ => (put_entry v p (MemEntry FILE_ATTRIBUTE_DIRECTORY 0 [] []), Ok tt)
  end.

Definition create_dirs (p : wstring) : eff volume (w32 unit) := fun v =>
  match lookup_entry v p with
  | Ok _ => (v, Ok tt)
  | Err _ => (put_entry v p (MemEntry FILE_ATTRIBUTE_DIRECTORY 0 [] []), Ok tt)
  end.

(** Whether [p] is [root], a stream of it, or below it. *)
Definition at_or_below (root p : wstring) : bool :=
  bool_decide (key p = key root) || starts_with (key root ++ [ch_bsl]) (key p) ||
  starts_with (key root ++ [ch_colon]) (key p).

Definition move (from to : wstring) (replace : bool) : eff volume (w32 unit) := fun v =>
  match lookup_entry v from, lookup_entry v to with
  | Err e, _ => (v, Err e)
  | Ok _, Ok _ => if replace then
      ((fun pe => if at_or_below from (fst pe) then (to ++ drop (length from) (fst pe), snd pe) else pe)
         <$> remove_entry v to, Ok tt)
      else (v, Err ERROR_ALREADY_EXISTS)
  | Ok _, Err _ =>
      ((fun pe => if at_or_below from (fst pe) then (to ++ drop (length from) (fst pe), snd pe) else pe)
         <$> v, Ok tt)
  end.

Definition remove_tree (p : wstring) : eff volume (w32 unit) := fun v =>
  (filter (fun pe => ~ at_or_below p (fst pe)) v, Ok tt).
End MemWin32.

#[export] Instance mem_win32 : Win32 := {|
  disk := MemWin32.volume;
  handle := wstring;
  char_lower := MemWin32.ascii_lower;
  char_upper := MemWin32.ascii_upper;
  GetFullPathNameW := Some;
  GetFileAttributesW := MemWin32.field MemWin32.me_attributes;
  GetFileTimes := MemWin32.field (fun _ => EntryTimes (FileTime 0 0) (FileTime 0 0) (FileTime 0 0));
  OpenExistingW := fun v p _ _ => MemWin32.field (fun _ => p) v p;
  GetAttributeTag := MemWin32.field MemWin32.me_tag;
  GetHandleAttributes := MemWin32.field MemWin32.me_attributes;
  GetReparseData := MemWin32.field MemWin32.me_reparse;
  FindFilesW := MemWin32.find_files;
  GetFileSizeEx := MemWin32.field (fun e => Z.of_nat (length (MemWin32.me_data e)));
  ReadFileStart := fun v h n => MemWin32.field (fun e => take (Z.to_nat n) (MemWin32.me_data e)) v h;
  CreateAlwaysW := MemWin32.create_always;
  WriteFile := MemWin32.write_file;
  SetFileTime := fun _ _ => eret (Ok tt);
  DeleteFileW := MemWin32.delete_entry;
  CreateDirectoryW := MemWin32.create_directory;
  RemoveDirectoryW := MemWin32.delete_entry;
  MoveFileExW := fun from to flags => MemWin32.move from to (has_attr flags MOVEFILE_REPLACE_EXISTING);
  RenameByHandle := MemWin32.move;
  create_directories := MemWin32.create_dirs;
  remove_all := MemWin32.remove_tree;
  WideCharToMultiByte := fun s => if bool_decide (s = []) then None else Some s;
  MultiByteToWideChar := fun s => if bool_decide (s = []) then None else Some s;
  bcrypt_sha1 := Some
|}.

Lemma ascii_lower_cases c :
  MemWin32.ascii_lower c = c + 32 /\ 65 <= c <= 90 \/
  MemWin32.ascii_lower c = c /\ ~ 65 <= c <= 90.
Proof.
  unfold MemWin32.ascii_lower.
  destruct (Z.leb_spec 65 c), (Z.leb_spec c 90); cbn; lia.
Qed.

Lemma ascii_upper_cases c :
  MemWin32.ascii_upper c = c - 32 /\ 97 <= c <= 122 \/
  MemWin32.ascii_upper c = c /\ ~ 97 <= c <= 122.
Proof.
  unfold MemWin32.ascii_upper.
  destruct (Z.leb_spec 97 c), (Z.leb_spec c 122); cbn; lia.
Qed.

#[export] Instance mem_case_laws : @CaseLaws mem_win32.
Proof.
  split; cbn.
  - intros c. pose proof (ascii_lower_cases c). pose proof (ascii_lower_cases (MemWin32.ascii_lower c)). lia.
  - intros c p Hp. pose proof (ascii_lower_cases c).
    unfold path_punctuation, ch_bsl, ch_slash, ch_colon, ch_dot in Hp.
    rewrite !elem_of_cons, elem_of_nil in Hp. lia.
  - intros c m Hm. cbn in Hm. rewrite !elem_of_cons, elem_of_nil in Hm.
    pose proof (ascii_lower_cases c). pose proof (ascii_upper_cases c).
    pose proof (ascii_upper_cases m). lia.
Qed.
