(* ===== verification/StdPath.v ===== *)
(** * [std::filesystem::path] on Windows

    The operations of the standard library's path class that the engine
    uses, on the text of a path: the end of the root name, the start of the
    relative path, [parent_path], [filename], iteration and [operator/=].
    A path built from plain components has the expected answers. *)
From S2P Require Export Prelude.

Definition is_slash (c : Z) : bool := (c =? ch_bsl) || (c =? ch_slash).

Definition is_ascii_letter (c : Z) : bool :=
  ((65 <=? c) && (c <=? 90)) || ((97 <=? c) && (c <=? 122)).

Definition slash_at (s : wstring) (i : nat) : bool :=
  match s !! i with Some c => is_slash c | None => false end.

(** [X:] at the start of the text. *)
Definition has_drive_prefix (s : wstring) : bool :=
  match s with
  | c :: d :: _ => is_ascii_letter c && (d =? ch_colon)
  | _ => false
  end.

(** The index of the first slash at or after [i], or the end of the text. *)
Definition next_slash (s : wstring) (i : nat) : nat :=
  match list_find (fun c => is_slash c = true) (drop i s) with
  | Some (j, _) => i + j
  | None => length s
  end%nat.

(** The end of the root name: a drive, a device prefix such as [\\?], a
    server name, or nothing. *)
Definition root_name_end (s : wstring) : nat :=
  if (length s <? 2)%nat then 0%nat
  else if has_drive_prefix s then 2%nat
  else if negb (slash_at s 0) then 0%nat
  else if (4 <=? length s)%nat && slash_at s 3 &&
          (negb (slash_at s 4) || (length s =? 4)%nat) &&
          ((slash_at s 1 && (bool_decide (s !! 2%nat = Some 63) || bool_decide (s !! 2%nat = Some ch_dot)))
           || (bool_decide (s !! 1%nat = Some 63) && bool_decide (s !! 2%nat = Some 63)))
  then 3%nat
  else if (3 <=? length s)%nat && slash_at s 1 && negb (slash_at s 2) then next_slash s 3
  else 0%nat.

(** Drops the slashes at the start of the text. *)
Fixpoint drop_slashes (s : wstring) : wstring :=
  match s with
  | c :: s' => if is_slash c then drop_slashes s' else s
  | [] => []
  end.

(** The start of the relative path: after the root name and the slashes. *)
Definition relative_begin (s : wstring) : nat :=
  length s - length (drop_slashes (drop (root_name_end s) s)).

(** Drops the text after the last slash, when there is one, of a reversed
    text. *)
Fixpoint drop_to_slash (r : wstring) : wstring :=
  match r with
  | c :: r' => if is_slash c then r else drop_to_slash r'
  | [] => []
  end.

(** [path::parent_path]: without the filename and the slashes before it. *)
Definition parent_path (s : wstring) : wstring :=
  let root := take (relative_begin s) s in
  let rel := drop (relative_begin s) s in
  root ++ reverse (drop_slashes (drop_to_slash (reverse rel))).

(** [path::filename]: the text after the last slash of the relative path. *)
Definition filename (s : wstring) : wstring :=
  let rel := drop (relative_begin s) s in
  drop (length (drop_to_slash (reverse rel))) rel.

(** The filenames of a relative path in order: a run of slashes separates
    two, and a trailing run gives a last, empty one. *)
Fixpoint relative_elements (fuel : nat) (rel : wstring) : list wstring :=
  match fuel with
  | O => []
  | S fuel' =>
      match rel with
      | [] => []
      | _ =>
          let n := next_slash rel 0 in
          take n rel ::
          (if (n =? length rel)%nat then []
           else match drop_slashes (drop n rel) with
                | [] => [[]]
                | rest => relative_elements fuel' rest
                end)
      end
  end.

(** Iteration over a path: the root name, the root directory, then the
    filenames. *)
Definition path_elements (s : wstring) : list wstring :=
  let n := root_name_end s in
  let b := relative_begin s in
  (if (n =? 0)%nat then [] else [take n s]) ++
  (if (n <? b)%nat then [take (b - n) (drop n s)] else []) ++
  relative_elements (length s) (drop b s).

Definition is_absolute (s : wstring) : bool :=
  if has_drive_prefix s then slash_at s 2 else negb (root_name_end s =? 0)%nat.

(** [path::operator/=]. *)
Definition append (p q : wstring) : wstring :=
  let pn := root_name_end p in
  let qn := root_name_end q in
  if is_absolute q then q
  else if negb (qn =? 0)%nat && negb (bool_decide (take pn p = take qn q)) then q
  else
    let base :=
      if slash_at q qn then take pn p
      else if (pn =? length p)%nat then (if (3 <=? pn)%nat then p ++ [ch_bsl] else p)
      else if slash_at p (length p - 1) then p else p ++ [ch_bsl]
    in base ++ drop qn q.

(** Drops the common start of two lists. *)
Fixpoint drop_common (a b : list wstring) : list wstring * list wstring :=
  match a, b with
  | x :: a', y :: b' => if bool_decide (x = y) then drop_common a' b' else (a, b)
  | _, _ => (a, b)
  end.

(** The depth of the elements of a base: a name counts one, [..] takes one
    back, an empty element and [.] count nothing. *)
Definition element_depth (elements : list wstring) : Z :=
  foldr (fun e n => if bool_decide (e = L "..") then n - 1
                    else if bool_decide (e = []) || bool_decide (e = L ".") then n else n + 1) 0 elements.

(** [path::lexically_relative]. *)
Definition lexically_relative (p base : wstring) : wstring :=
  let has_root s := (root_name_end s <? relative_begin s)%nat in
  if negb (bool_decide (take (root_name_end p) p = take (root_name_end base) base)) ||
     negb (Bool.eqb (is_absolute p) (is_absolute base)) || (negb (has_root p) && has_root base)
  then []
  else
    let (a, b) := drop_common (path_elements p) (path_elements base) in
    match a, b with
    | [], [] => L "."
    | _, _ =>
        let n := element_depth b in
        if n <? 0 then []
        else if (n =? 0) && match a with [] => true | e :: _ => bool_decide (e = []) end then L "."
        else foldl append [] (replicate (Z.to_nat n) (L "..") ++ a)
    end.

(** ** Plain relative paths *)

(** A name that is one component of a relative path. *)
Definition plain_component (g : wstring) : Prop :=
  g <> [] /\ ch_bsl ∉ g /\ ch_slash ∉ g /\ ch_colon ∉ g.

Definition plain_component_b (g : wstring) : bool :=
  bool_decide (g <> []) && bool_decide (ch_bsl ∉ g) &&
  bool_decide (ch_slash ∉ g) && bool_decide (ch_colon ∉ g).

Lemma plain_component_b_spec g : plain_component_b g = true <-> plain_component g.
Proof.
  unfold plain_component_b, plain_component.
  rewrite !andb_true_iff, !bool_decide_eq_true. tauto.
Qed.

#[export] Instance plain_component_dec g : Decision (plain_component g).
Proof.
  refine (cast_if (decide (plain_component_b g = true))); by rewrite <- plain_component_b_spec.
Defined.

Notation plain := (Forall plain_component).

(** The relative path with the given components. *)
Definition rel (cs : list wstring) : wstring := join_with ch_bsl cs.

Lemma plain_no_slash g c : plain_component g -> c ∈ g -> is_slash c = false.
Proof.
  intros (_ & Hb & Hs & _) Hc. unfold is_slash.
  destruct (Z.eqb_spec c ch_bsl), (Z.eqb_spec c ch_slash); subst; done.
Qed.

Lemma plain_no_bsl cs : plain cs -> Forall (fun g => ch_bsl ∉ g) cs.
Proof. intros H. eapply Forall_impl; [exact H|]. by intros g (_ & ? & _). Qed.

Lemma rel_colon cs : plain cs -> ch_colon ∉ rel cs.
Proof.
  intros H [g [Hg Hc]]%join_with_elem; [|done].
  rewrite Forall_forall in H. by destruct (H g Hg) as (_ & _ & _ & ?).
Qed.

Lemma rel_slash cs : plain cs -> ch_slash ∉ rel cs.
Proof.
  intros H [g [Hg Hc]]%join_with_elem; [|done].
  rewrite Forall_forall in H. by destruct (H g Hg) as (_ & _ & ? & _).
Qed.

Lemma rel_first cs c s : plain cs -> rel cs = c :: s -> is_slash c = false.
Proof.
  destruct cs as [|g cs]; [done|]. intros [Hg _]%Forall_cons.
  destruct g as [|x g]; [by destruct Hg|]. intros E.
  assert (x = c) as <- by (unfold rel in E; destruct cs; cbn in E; congruence).
  eapply plain_no_slash; [exact Hg|left].
Qed.

Lemma rel_nil_inv cs : plain cs -> rel cs = [] -> cs = [].
Proof.
  intros H. apply join_with_nil_inv. eapply Forall_impl; [exact H|]. by intros g (? & _).
Qed.

Lemma rel_snoc cs g : cs <> [] -> rel (cs ++ [g]) = rel cs ++ ch_bsl :: g.
Proof. apply join_with_snoc. Qed.

Lemma rel_inj cs ds : plain cs -> plain ds -> rel cs = rel ds -> cs = ds.
Proof.
  intros Hc Hd E. destruct (decide (cs = [])) as [->|Hcn].
  { symmetry in E. by apply rel_nil_inv in E. }
  destruct (decide (ds = [])) as [->|Hdn]; [by apply rel_nil_inv in E|].
  rewrite <- (segments_join ch_bsl cs), <- (segments_join ch_bsl ds) by auto using plain_no_bsl.
  unfold rel in E. by rewrite E.
Qed.

Lemma root_name_end_rel cs : plain cs -> root_name_end (rel cs) = 0%nat.
Proof.
  intros H. unfold root_name_end. destruct (length (rel cs) <? 2)%nat; [done|].
  assert (Hd : has_drive_prefix (rel cs) = false).
  { pose proof (rel_colon cs H) as Hn. destruct (rel cs) as [|a [|b s]]; try done. cbn.
    rewrite !not_elem_of_cons in Hn. destruct (Z.eqb_spec b ch_colon); [naive_solver|].
    apply andb_false_r. }
  rewrite Hd. assert (Hs : slash_at (rel cs) 0 = false).
  { unfold slash_at. destruct (rel cs) as [|c s] eqn:E; cbn; [done|]. by eapply rel_first. }
  by rewrite Hs.
Qed.

Lemma relative_begin_rel cs : plain cs -> relative_begin (rel cs) = 0%nat.
Proof.
  intros H. unfold relative_begin. rewrite root_name_end_rel, drop_0 by done.
  destruct (rel cs) as [|c s] eqn:E; cbn; [done|].
  rewrite (rel_first cs c s) by done. cbn. lia.
Qed.

Lemma drop_to_slash_app g r :
  Forall (fun c => is_slash c = false) g ->
  drop_to_slash (g ++ r) = drop_to_slash r.
Proof. induction 1 as [|c g Hc Hg IH]; cbn; [done|]. by rewrite Hc. Qed.

Lemma plain_reverse_no_slash g :
  plain_component g -> Forall (fun c => is_slash c = false) (reverse g).
Proof.
  intros H. apply Forall_reverse, Forall_forall. intros c Hc. by eapply plain_no_slash.
Qed.

Lemma drop_to_slash_rel_snoc cs g :
  plain cs -> plain_component g ->
  drop_to_slash (reverse (rel (cs ++ [g]))) =
    match cs with [] => [] | _ => ch_bsl :: reverse (rel cs) end.
Proof.
  intros Hc Hg. destruct (decide (cs = [])) as [->|Hne].
  - change (rel ([] ++ [g])) with g.
    rewrite <- (app_nil_r (reverse g)), drop_to_slash_app by by apply plain_reverse_no_slash.
    done.
  - rewrite rel_snoc, reverse_app, reverse_cons, <- app_assoc by done.
    rewrite drop_to_slash_app by by apply plain_reverse_no_slash.
    by destruct cs.
Qed.

Lemma drop_slashes_reverse_rel cs :
  plain cs -> drop_slashes (reverse (rel cs)) = reverse (rel cs).
Proof.
  intros H. destruct (decide (cs = [])) as [->|Hne]; [done|].
  destruct (exists_last Hne) as (ds & g & ->).
  apply Forall_app in H as [Hd Hg]. rewrite Forall_singleton in Hg.
  destruct (reverse g) as [|x r] eqn:E.
  { apply (f_equal reverse) in E. rewrite reverse_involutive in E. by destruct Hg as [? _]. }
  assert (Hx : is_slash x = false).
  { pose proof (plain_reverse_no_slash g Hg) as HF. rewrite E in HF. by apply Forall_inv in HF. }
  assert (exists t, reverse (rel (ds ++ [g])) = x :: t) as [t ->]; [|cbn; by rewrite Hx].
  destruct (decide (ds = [])) as [->|Hdn].
  - exists r. done.
  - rewrite rel_snoc, reverse_app, reverse_cons, E by done. eexists. reflexivity.
Qed.

Lemma parent_path_rel cs g :
  plain cs -> plain_component g -> parent_path (rel (cs ++ [g])) = rel cs.
Proof.
  intros Hc Hg. assert (H : plain (cs ++ [g])) by (apply Forall_app; auto).
  unfold parent_path. rewrite relative_begin_rel, take_0, drop_0, drop_to_slash_rel_snoc by done.
  cbn [app]. destruct cs as [|c cs]; [done|].
  cbn [drop_slashes]. change (is_slash ch_bsl) with true. cbv iota.
  rewrite drop_slashes_reverse_rel by done. by rewrite reverse_involutive.
Qed.

Lemma parent_path_nil : parent_path [] = [].
Proof. done. Qed.

Lemma filename_rel cs g :
  plain cs -> plain_component g -> filename (rel (cs ++ [g])) = g.
Proof.
  intros Hc Hg. assert (H : plain (cs ++ [g])) by (apply Forall_app; auto).
  unfold filename. rewrite relative_begin_rel, drop_0, drop_to_slash_rel_snoc by done.
  destruct (decide (cs = [])) as [->|Hne]; [done|].
  rewrite rel_snoc by done. destruct cs as [|c cs]; [done|].
  cbn [length]. rewrite length_reverse.
  rewrite cons_middle, app_assoc, drop_app_length'; [done|].
  rewrite length_app. cbn [length]. lia.
Qed.

Lemma next_slash_plain_app g s :
  plain_component g -> next_slash (g ++ ch_bsl :: s) 0 = length g.
Proof.
  intros Hg. unfold next_slash. rewrite drop_0.
  assert (list_find (fun c => is_slash c = true) (g ++ ch_bsl :: s) = Some (length g, ch_bsl)) as ->;
    [|done].
  apply list_find_Some. split; [by rewrite list_lookup_middle|]. split; [done|].
  intros j y Hj Hl. rewrite lookup_app_l in Hj by lia.
  apply list_elem_of_lookup_2 in Hj. by rewrite (plain_no_slash g y).
Qed.

Lemma next_slash_plain g : plain_component g -> next_slash g 0 = length g.
Proof.
  intros Hg. unfold next_slash. rewrite drop_0.
  assert (list_find (fun c => is_slash c = true) g = None) as ->; [|done].
  apply list_find_None, Forall_forall. intros c Hc. by rewrite (plain_no_slash g c).
Qed.

Lemma drop_slashes_rel cs : plain cs -> drop_slashes (rel cs) = rel cs.
Proof.
  intros H. destruct (rel cs) as [|c s] eqn:E; cbn; [done|].
  by rewrite (rel_first cs c s).
Qed.

Lemma rel_length_cons g cs : plain (g :: cs) -> (length (rel cs) < length (rel (g :: cs)))%nat.
Proof.
  intros [Hg Hcs]%Forall_cons. destruct Hg as (Hg & _).
  unfold rel. destruct cs as [|d cs]; cbn.
  - destruct g; [done|]; cbn; lia.
  - rewrite length_app. cbn. destruct g; [done|]; cbn; lia.
Qed.

Lemma relative_elements_rel cs fuel :
  plain cs -> (length (rel cs) <= fuel)%nat -> relative_elements fuel (rel cs) = cs.
Proof.
  revert fuel. induction cs as [|g cs IH]; intros fuel H Hf.
  { by destruct fuel. }
  pose proof (rel_length_cons g cs H) as Hlt.
  destruct fuel as [|fuel]; [lia|]. cbn [relative_elements].
  destruct (rel (g :: cs)) as [|c s] eqn:E; [by apply rel_nil_inv in E|]. rewrite <- E in *. clear c s E.
  pose proof H as [Hg Hcs]%Forall_cons.
  destruct cs as [|d cs].
  - change (rel [g]) with g. rewrite next_slash_plain by done.
    rewrite Nat.eqb_refl. by rewrite firstn_all.
  - change (rel (g :: d :: cs)) with (g ++ ch_bsl :: rel (d :: cs)) in *.
    rewrite next_slash_plain_app by done.
    rewrite take_app_length, drop_app_length.
    destruct (Nat.eqb_spec (length g) (length (g ++ ch_bsl :: rel (d :: cs)))) as [E|_].
    { rewrite length_app in E. cbn [length] in E. lia. }
    cbn [drop_slashes]. change (is_slash ch_bsl) with true. cbv iota.
    rewrite drop_slashes_rel by done.
    destruct (rel (d :: cs)) as [|c s] eqn:E; [by apply rel_nil_inv in E|].
    f_equal. apply IH; [done|]. rewrite length_app in Hf. cbn in *. lia.
Qed.

(** Iterating over a plain relative path gives its components. *)
Lemma path_elements_rel cs : plain cs -> path_elements (rel cs) = cs.
Proof.
  intros H. unfold path_elements. rewrite root_name_end_rel, relative_begin_rel by done.
  cbn [Nat.eqb Nat.ltb Nat.leb app]. rewrite drop_0. by apply relative_elements_rel.
Qed.

Lemma slash_at_last_rel cs :
  plain cs -> cs <> [] -> slash_at (rel cs) (length (rel cs) - 1) = false.
Proof.
  intros H Hne. pose proof (drop_slashes_reverse_rel cs H) as E.
  unfold slash_at. destruct (rel cs !! (length (rel cs) - 1)%nat) as [c|] eqn:Hl; [|done].
  destruct (reverse (rel cs)) as [|x r] eqn:Er.
  { apply (f_equal reverse) in Er. rewrite reverse_involutive in Er. by apply rel_nil_inv in Er. }
  assert (rel cs = reverse r ++ [x]) as Es.
  { rewrite <- (reverse_involutive (rel cs)), Er, reverse_cons. done. }
  rewrite Es in Hl. rewrite length_app in Hl. cbn in Hl.
  rewrite Nat.add_sub in Hl. rewrite list_lookup_middle in Hl by done. injection Hl as <-.
  cbn in E. destruct (is_slash x) eqn:Ex; [|done].
  apply (f_equal length) in E. clear -E.
  assert (forall s, (length (drop_slashes s) <= length s)%nat) as Hlen.
  { induction s as [|y s IH]; cbn; [lia|]. destruct (is_slash y); cbn; lia. }
  specialize (Hlen r). cbn in E. lia.
Qed.

(** [path /= name] on plain relative paths appends a component. *)
Lemma append_rel cs g :
  plain cs -> plain_component g -> append (rel cs) g = rel (cs ++ [g]).
Proof.
  intros Hc Hg. assert (Hp : plain [g]) by by apply Forall_singleton.
  unfold append. change g with (rel [g]).
  assert (Ha : is_absolute (rel [g]) = false).
  { unfold is_absolute. rewrite root_name_end_rel by done.
    destruct (has_drive_prefix (rel [g])) eqn:E; [|done].
    exfalso. pose proof (rel_colon _ Hp) as Hn. destruct (rel [g]) as [|a [|b s]]; try done.
    cbn in E. rewrite !not_elem_of_cons in Hn. destruct (Z.eqb_spec b ch_colon); [naive_solver|].
    by rewrite andb_false_r in E. }
  rewrite Ha, !root_name_end_rel by done. cbn [Nat.eqb negb andb]. rewrite !take_0, drop_0.
  assert (Hs : slash_at (rel [g]) 0 = false).
  { unfold slash_at. destruct (rel [g]) as [|c s] eqn:E; cbn; [done|]. by eapply rel_first. }
  rewrite Hs. destruct (decide (cs = [])) as [->|Hne]; [done|].
  rewrite slash_at_last_rel by done. cbv iota.
  change (rel [g]) with g. rewrite rel_snoc by done.
  destruct (length (rel cs)) eqn:E; [by apply nil_length_inv, rel_nil_inv in E|].
  by rewrite <- app_assoc.
Qed.
