(* ===== verification/PathText.v ===== *)
(** * Path text

    The string functions of [LayerPath.cpp], the path grammar of
    [LayerMount.cpp], the marker names of [WhiteoutManager.cpp] and the
    component lists of [PathResolver.cpp]. *)
From S2P Require Export Win32 StdPath.

Definition kWhiteoutPrefix : wstring := L ".wh.".
Definition kOpaqueMarkerFile : wstring := L ".wh..wh..opq".
Definition kLayerMountADSStream : wstring := L ":overlay".
Definition kOpaqueADSStream : wstring := L ":overlay.opaque".
Definition kSidecarDirName : wstring := L ".overlay".
Definition kWhiteoutPrefixLength : nat := length kWhiteoutPrefix.

Definition kExtended : wstring := L "\\?\".
Definition kExtendedUnc : wstring := L "\\?\UNC\".
Definition kDevice : wstring := L "\\.\".
Definition kUnc : wstring := L "\\".

(** ** Joining and normalizing *)

Definition DirWithSeparator (dirPath : wstring) : wstring :=
  if bool_decide (last dirPath = Some ch_bsl) then dirPath else dirPath ++ [ch_bsl].

Definition JoinDirPath (dirPath relativePath : wstring) : wstring :=
  DirWithSeparator dirPath ++ relativePath.

Fixpoint strip_leading (c : Z) (s : wstring) : wstring :=
  match s with
  | x :: s' => if x =? c then strip_leading c s' else s
  | [] => []
  end.

(** [while (!s.empty() && s.back() == c) s.pop_back()]. *)
Definition strip_trailing (c : Z) (s : wstring) : wstring :=
  reverse (strip_leading c (reverse s)).

Definition NormalizePathPreserveCase (path : wstring) : wstring :=
  strip_trailing ch_bsl (strip_leading ch_bsl (wreplace ch_slash ch_bsl path)).

(** [std::wstring::c_str] ends at the first NUL. *)
Definition c_str (s : wstring) : wstring :=
  match wfind 0 s with Some i => take i s | None => s end.

(** [_wcsicmp(a, b) == 0] in the C locale. *)
Definition wcsicmp_eq (a b : wstring) : bool :=
  bool_decide ((MemWin32.ascii_lower <$> c_str a) = (MemWin32.ascii_lower <$> c_str b)).

Section PathText.
Context `{W : Win32}.

Definition CaseFoldedName (name : wstring) : wstring := CharLowerBuffW name.

Definition NormalizePath (path : wstring) : wstring :=
  CharLowerBuffW (NormalizePathPreserveCase path).

(** ** Extended paths *)

Definition IsFullPathAsWritten (path : wstring) : bool :=
  let check start :=
    negb (bool_decide (ch_slash ∈ path)) &&
    forallb (fun component =>
               negb (bool_decide (component = []) || bool_decide (component = L ".") ||
                     bool_decide (component = L "..")))
            (segments ch_bsl (drop start path)) in
  if (3 <=? length path)%nat && bool_decide (path !! 1%nat = Some ch_colon) &&
     bool_decide (path !! 2%nat = Some ch_bsl) then check 3%nat
  else if starts_with kUnc path && (length kUnc <? length path)%nat &&
          negb (bool_decide (path !! length kUnc = Some ch_bsl)) then check (length kUnc)
  else false.

Definition WithoutExtendedPrefix (path : wstring) : wstring :=
  if starts_with kExtendedUnc path then kUnc ++ drop (length kExtendedUnc) path
  else if starts_with kExtended path && (length kExtended + 2 <=? length path)%nat &&
          bool_decide (path !! (length kExtended + 1)%nat = Some ch_colon)
  then drop (length kExtended) path
  else path.

Definition WithExtendedPrefix (path : wstring) : wstring :=
  if starts_with kExtended path || starts_with kDevice path then path
  else
    let full := if IsFullPathAsWritten path then Some path else GetFullPathNameW path in
    match full with
    | None => path
    | Some full =>
        if starts_with kUnc full then kExtendedUnc ++ drop (length kUnc) full
        else kExtended ++ full
    end.

Definition ExtendedStreamPath (path streamSuffix : wstring) : wstring :=
  WithExtendedPrefix path ++ streamSuffix.

Definition ComparablePath (path : wstring) : wstring :=
  let plain := WithoutExtendedPrefix (wreplace ch_slash ch_bsl path) in
  let plain := match GetFullPathNameW plain with Some full => full | None => plain end in
  CharLowerBuffW (strip_trailing ch_bsl plain).

(** ** Containment *)

Definition ParentOfNormalizedPath (normalizedPath : wstring) : wstring :=
  match wrfind ch_bsl normalizedPath with
  | Some i => take i normalizedPath
  | None => []
  end.

Definition IsInsideDirectory (pathNorm dirNorm : wstring) : bool :=
  (length dirNorm <? length pathNorm)%nat &&
  bool_decide (take (length dirNorm) pathNorm = dirNorm) &&
  bool_decide (pathNorm !! length dirNorm = Some ch_bsl).

Definition BuildUpperPathPreserveCase (upperRoot relativePath : wstring) : wstring :=
  let preserved := NormalizePathPreserveCase relativePath in
  if bool_decide (preserved = []) then upperRoot else JoinDirPath upperRoot preserved.

(** ** The path grammar *)

Definition IsSafeRelativePath (normalized : wstring) : bool :=
  negb (bool_decide (normalized = [])) &&
  negb (bool_decide (ch_colon ∈ normalized)) &&
  forallb (fun segment => negb (bool_decide (segment = L ".."))) (segments ch_bsl normalized).

Definition StreamNamesEqual (a b : wstring) : bool :=
  (length a =? length b)%nat && (Z.of_nat (length a) <=? 0x7FFFFFFF) && ordinal_eq_ci a b.

Definition IsReservedStreamName (streamName : wstring) : bool :=
  let reserved := drop 1 kLayerMountADSStream in
  if (length streamName =? length reserved)%nat then StreamNamesEqual streamName reserved
  else (length reserved <? length streamName)%nat &&
       bool_decide (streamName !! length reserved = Some ch_dot) &&
       StreamNamesEqual (take (length reserved) streamName) reserved.

Definition IsUserAlternateStream (ntfsStreamName : wstring) : bool :=
  match ntfsStreamName with
  | c :: afterColon =>
      if c =? ch_colon then
        let name := match wfind ch_colon afterColon with
                    | Some i => take i afterColon
                    | None => afterColon
                    end in
        negb (bool_decide (name = [])) && negb (IsReservedStreamName name)
      else false
  | [] => false
  end.

(** The host and the stream suffix, or [None] where the source returns
    false. *)
Definition TryParseStreamPath (normalized : wstring) : option (wstring * wstring) :=
  if bool_decide (normalized = []) then None
  else match wfind ch_colon normalized with
  | None => if IsSafeRelativePath normalized then Some (normalized, []) else None
  | Some firstColon =>
      let host := take firstColon normalized in
      if negb (IsSafeRelativePath host) then None
      else
        let after := drop (firstColon + 1) normalized in
        let streamName := match wfind ch_colon after with Some i => take i after | None => after end in
        if bool_decide (streamName = []) then None
        else if bool_decide (ch_bsl ∈ streamName) then None
        else if IsReservedStreamName streamName then None
        else match wfind ch_colon after with
        | None => Some (host, ch_colon :: streamName)
        | Some i =>
            let streamType := drop (i + 1) after in
            if bool_decide (streamType = []) then None
            else if bool_decide (ch_colon ∈ streamType) then None
            else if negb (wcsicmp_eq streamType (L "$DATA")) then None
            else Some (host, ch_colon :: streamName ++ ch_colon :: streamType)
        end
  end.

Record StreamPath := {
  hostNorm : wstring;
  streamSuffix : wstring;
  callerHost : wstring;
  callerStreamSuffix : wstring
}.

Definition ParseStreamPath (relativePath : wstring) : option StreamPath :=
  match TryParseStreamPath (NormalizePathPreserveCase relativePath) with
  | None => None
  | Some (host, suffix) =>
      Some {| hostNorm := CaseFoldedName host; streamSuffix := CaseFoldedName suffix;
              callerHost := host; callerStreamSuffix := suffix |}
  end.

(** ** Marker names *)

Definition IsWhiteoutName (fileName : wstring) : bool :=
  (kWhiteoutPrefixLength <=? length fileName)%nat &&
  ordinal_eq_ci (take kWhiteoutPrefixLength fileName) kWhiteoutPrefix.

Definition GetWhitedOutName (whiteoutName : wstring) : wstring :=
  drop kWhiteoutPrefixLength whiteoutName.

Definition WhitedOutNameOfEntry (entryName : wstring) : option wstring :=
  let isOpaqueMarker := ordinal_eq_ci entryName kOpaqueMarkerFile in
  if negb (IsWhiteoutName entryName) || isOpaqueMarker then None
  else Some (GetWhitedOutName entryName).

Definition GetWhiteoutFileName (relativePath : wstring) : wstring :=
  let parent := parent_path relativePath in
  let whName := kWhiteoutPrefix ++ filename relativePath in
  if bool_decide (parent = []) then whName else append parent whName.

Definition GetWhiteoutFullPath (layerPath relativePath : wstring) : wstring :=
  JoinDirPath layerPath (GetWhiteoutFileName relativePath).

Definition MarkerDirectoryOf (relativePath : wstring) : wstring :=
  NormalizePathPreserveCase (parent_path relativePath).

(** ** Reserved paths *)

Definition IsRootSidecarPath (normalized : wstring) : bool :=
  bool_decide (normalized = kSidecarDirName) || IsInsideDirectory normalized kSidecarDirName.

(** [firstSegment.erase(firstSegment.find_last_not_of(L". ") + 1)]. *)
Definition erase_trailing_dots_spaces (s : wstring) : wstring :=
  let fix go r := match r with
    | c :: r' => if (c =? ch_dot) || (c =? ch_space) then go r' else r
    | [] => []
    end in
  reverse (go (reverse s)).

Definition FirstSegmentAsOpened (relativePath : wstring) : wstring :=
  let firstSegment := NormalizePath relativePath in
  let firstSegment := match wfind ch_bsl firstSegment with
                      | Some separator => take separator firstSegment
                      | None => firstSegment
                      end in
  erase_trailing_dots_spaces firstSegment.

Definition FirstSegmentOpensAsSidecar (relativePath : wstring) : bool :=
  IsRootSidecarPath (FirstSegmentAsOpened relativePath).

(** The loop of [ParentOfFirstMarkerSegment]: [start] is the index of the
    next segment. *)
Fixpoint first_marker_parent (normalized : wstring) (start : nat) (segs : list wstring)
  : option wstring :=
  match segs with
  | [] => None
  | segment :: rest =>
      if IsWhiteoutName segment then
        Some (if (start =? 0)%nat then [] else take (start - 1) normalized)
      else first_marker_parent normalized (start + length segment + 1) rest
  end.

Definition ParentOfFirstMarkerSegment (normalized : wstring) : option wstring :=
  first_marker_parent normalized 0 (segments ch_bsl normalized).

Definition IsReservedRelativePath (normalized : wstring) : bool :=
  IsRootSidecarPath normalized ||
  match ParentOfFirstMarkerSegment normalized with Some _ => true | None => false end.

(** ** Component lists *)

Definition SplitComponents (path : wstring) : list wstring :=
  filter (fun component => component <> []) (segments ch_bsl path).

Definition JoinComponents (components : list wstring) (count : nat) : wstring :=
  join_with ch_bsl (take count components).

Fixpoint resolve_components (parent target : list wstring) : list wstring :=
  match target with
  | [] => parent
  | component :: rest =>
      if bool_decide (component = L "..") then
        resolve_components (removelast parent) rest
      else if bool_decide (component = L ".") then resolve_components parent rest
      else resolve_components (parent ++ [component]) rest
  end.

Definition ResolveRelativeTarget (parent : list wstring) (target : wstring) : list wstring :=
  let target := wreplace ch_slash ch_bsl target in
  let parent := if bool_decide (head target = Some ch_bsl) then [] else parent in
  resolve_components parent (SplitComponents target).

Definition SpliceLinkTarget (components : list wstring) (linkIndex : nat) (target : wstring)
  : list wstring :=
  ResolveRelativeTarget (take linkIndex components) target ++ drop (linkIndex + 1) components.
End PathText.
