(* ===== verification/PathFacts.v ===== *)
(** * What the path text functions guarantee

    Normal forms, the exact grammar of stream paths, confinement of relative
    paths and of link targets, the extended form, marker names, and the texts
    that stay below a directory when they are joined to it. *)
From S2P Require Export PathText.

(** ** Stripping separators *)

Lemma strip_leading_head c s : head (strip_leading c s) <> Some c.
Proof.
  induction s as [|x s IH]; cbn; [done|].
  destruct (Z.eqb_spec x c); [done|]. cbn. congruence.
Qed.

Lemma strip_leading_id c s : head s <> Some c -> strip_leading c s = s.
Proof. destruct s as [|x s]; cbn; [done|]. destruct (Z.eqb_spec x c); congruence. Qed.

Lemma strip_leading_suffix c s : strip_leading c s `suffix_of` s.
Proof.
  induction s as [|x s IH]; cbn; [done|].
  destruct (Z.eqb_spec x c); [|done]. by apply suffix_cons_r.
Qed.

Lemma strip_trailing_last c s : last (strip_trailing c s) <> Some c.
Proof. unfold strip_trailing. rewrite last_reverse. apply strip_leading_head. Qed.

Lemma strip_trailing_id c s : last s <> Some c -> strip_trailing c s = s.
Proof.
  intros H. unfold strip_trailing. rewrite strip_leading_id, reverse_involutive; [done|].
  by rewrite head_reverse.
Qed.

Lemma strip_trailing_prefix c s : strip_trailing c s `prefix_of` s.
Proof.
  unfold strip_trailing. destruct (strip_leading_suffix c (reverse s)) as [k Hk].
  exists (reverse k). rewrite <- (reverse_involutive s), Hk at 1. by rewrite reverse_app.
Qed.

Lemma strip_trailing_head c s d : head s <> Some d -> head (strip_trailing c s) <> Some d.
Proof.
  destruct (strip_trailing_prefix c s) as [k E]. intros H H'. apply H.
  rewrite E. by destruct (strip_trailing c s).
Qed.

Lemma strip_trailing_elem c s x : x ∈ strip_trailing c s -> x ∈ s.
Proof. destruct (strip_trailing_prefix c s) as [k E]. rewrite E at 2. set_solver. Qed.

Lemma strip_leading_elem c s x : x ∈ strip_leading c s -> x ∈ s.
Proof. destruct (strip_leading_suffix c s) as [k E]. rewrite E at 2. set_solver. Qed.

Lemma wreplace_elem a b s : a <> b -> a ∉ wreplace a b s.
Proof.
  intros Hab. unfold wreplace. rewrite list_elem_of_fmap. intros (x & Hx & _).
  destruct (Z.eqb_spec x a); congruence.
Qed.

Lemma wreplace_id a b s : a ∉ s -> wreplace a b s = s.
Proof.
  unfold wreplace. induction s as [|x s IH]; cbn; [done|]. intros [H1 H2]%not_elem_of_cons.
  destruct (Z.eqb_spec x a); [congruence|]. f_equal. by apply IH.
Qed.

(** A text is canonical when normalizing has nothing to do on it. *)
Definition canonical (p : wstring) : Prop :=
  ch_slash ∉ p /\ head p <> Some ch_bsl /\ last p <> Some ch_bsl.

Lemma preserve_canonical p : canonical (NormalizePathPreserveCase p).
Proof.
  unfold NormalizePathPreserveCase. split; [|split].
  - intros H%strip_trailing_elem%strip_leading_elem. by apply wreplace_elem in H.
  - apply strip_trailing_head, strip_leading_head.
  - apply strip_trailing_last.
Qed.

Lemma preserve_id p : canonical p -> NormalizePathPreserveCase p = p.
Proof.
  intros (Hs & Hh & Hl). unfold NormalizePathPreserveCase.
  by rewrite wreplace_id, strip_leading_id, strip_trailing_id.
Qed.

Lemma rel_canonical cs : plain cs -> canonical (rel cs).
Proof.
  intros H. split; [by apply rel_slash|]. split.
  - destruct (rel cs) as [|c s] eqn:E; cbn; [done|]. intros [= ->].
    by apply rel_first in E.
  - destruct (decide (cs = [])) as [->|Hne]; [done|].
    destruct (exists_last Hne) as (ds & g & ->). apply Forall_app in H as [Hd Hg].
    rewrite Forall_singleton in Hg. destruct Hg as (Hg & Hb & _).
    destruct (decide (ds = [])) as [->|Hdn].
    + change (rel ([] ++ [g])) with g. intros Hl. apply last_Some in Hl as [t ->].
      apply Hb, elem_of_app. right. left.
    + rewrite rel_snoc by done. rewrite last_app_cons. destruct g as [|x g]; [done|].
      rewrite last_cons_cons. intros Hl. apply last_Some in Hl as [t Ht].
      apply Hb. rewrite Ht. apply elem_of_app. right. left.
Qed.

Section Normal.
Context `{W : Win32} `{CL : !CaseLaws}.

Lemma elem_bsl : ch_bsl ∈ path_punctuation. Proof. vm_compute. left. Qed.
Lemma elem_slash : ch_slash ∈ path_punctuation. Proof. vm_compute. right. left. Qed.
Lemma elem_colon : ch_colon ∈ path_punctuation. Proof. vm_compute. right. right. left. Qed.
Lemma elem_dot : ch_dot ∈ path_punctuation. Proof. vm_compute. right. right. right. left. Qed.

Lemma lower_head_punct p c : c ∈ path_punctuation -> head (CharLowerBuffW p) = Some c -> head p = Some c.
Proof.
  intros Hc. destruct p as [|x p]; cbn; [done|]. intros [= H].
  by apply lower_punct in H as ->.
Qed.

Lemma lower_last_punct p c : c ∈ path_punctuation -> last (CharLowerBuffW p) = Some c -> last p = Some c.
Proof.
  intros Hc. unfold CharLowerBuffW. rewrite fmap_last.
  destruct (last p) as [x|]; cbn; [|done]. intros [= H]. by apply lower_punct in H as ->.
Qed.

Lemma lower_canonical p : canonical p -> canonical (CharLowerBuffW p).
Proof.
  intros (Hs & Hh & Hl). split; [|split].
  - by rewrite lower_elem_punct by apply elem_slash.
  - intros H%lower_head_punct; auto using elem_bsl.
  - intros H%lower_last_punct; auto using elem_bsl.
Qed.

Lemma normalize_canonical p : canonical (NormalizePath p).
Proof. apply lower_canonical, preserve_canonical. Qed.

(** A normalized path has no forward slash and no separator at either
    end, and normalizing it again changes nothing, so every key the engine
    builds from a caller's path is a fixed point of its normal form. *)
Theorem NormalizePath_normal_form p :
  canonical (NormalizePath p) /\ NormalizePath (NormalizePath p) = NormalizePath p.
Proof.
  split; [apply normalize_canonical|].
  unfold NormalizePath at 1. rewrite preserve_id by apply normalize_canonical.
  apply lower_idem_s.
Qed.

Lemma normalize_id p : canonical p -> CharLowerBuffW p = p -> NormalizePath p = p.
Proof. intros H E. unfold NormalizePath. by rewrite preserve_id. Qed.

(** ** Confinement of relative paths *)

Lemma resolve_components_safe root cs :
  L ".." ∉ cs -> resolve_components root cs = root ++ filter (fun c => c <> L ".") cs.
Proof.
  revert root. induction cs as [|c cs IH]; intros root H.
  { by rewrite app_nil_r. }
  apply not_elem_of_cons in H as [Hc H].
  change (resolve_components root (c :: cs)) with
    (if bool_decide (c = L "..") then resolve_components (removelast root) cs
     else if bool_decide (c = L ".") then resolve_components root cs
     else resolve_components (root ++ [c]) cs).
  rewrite bool_decide_false by congruence.
  destruct (decide (c = L ".")) as [->|Hd].
  - rewrite bool_decide_true by done. rewrite IH by done. by rewrite filter_cons_False by naive_solver.
  - rewrite bool_decide_false by done. rewrite IH by done.
    rewrite filter_cons_True by done. by rewrite <- app_assoc.
Qed.

Lemma safe_spec p :
  IsSafeRelativePath p = true <->
  p <> [] /\ ch_colon ∉ p /\ L ".." ∉ segments ch_bsl p.
Proof.
  unfold IsSafeRelativePath. rewrite !andb_true_iff, !negb_true_iff, !bool_decide_eq_false.
  rewrite forallb_forall. split.
  - intros [[H1 H2] H3]. repeat split; try done. intros Hin.
    apply list_elem_of_In, H3 in Hin. by rewrite bool_decide_true in Hin.
  - intros (H1 & H2 & H3). repeat split; try done. intros x Hx.
    rewrite bool_decide_false; [done|]. intros ->. apply H3. by apply list_elem_of_In.
Qed.

(** A path that [IsSafeRelativePath] accepts names no drive and no
    stream, and following its components from any directory, with [.] and
    [..] read as Windows reads them, stays below that directory. *)
Theorem IsSafeRelativePath_confined p root :
  IsSafeRelativePath p = true ->
  ch_colon ∉ p /\
  resolve_components root (SplitComponents p) =
    root ++ filter (fun c => c <> L ".") (SplitComponents p).
Proof.
  intros (_ & Hc & Hs)%safe_spec. split; [done|]. apply resolve_components_safe.
  unfold SplitComponents. rewrite list_elem_of_filter. naive_solver.
Qed.

Lemma rel_segments cs : plain cs -> cs <> [] -> segments ch_bsl (rel cs) = cs.
Proof. intros H Hne. apply segments_join; [done|]. by apply plain_no_bsl. Qed.

(** ** Symbolic link targets *)

Definition view_components (cs : list wstring) : Prop :=
  Forall (fun c => c <> [] /\ ch_bsl ∉ c /\ c <> L "." /\ c <> L "..") cs.

Lemma resolve_components_view parent target :
  view_components parent -> Forall (fun c => c <> [] /\ ch_bsl ∉ c) target ->
  view_components (resolve_components parent target).
Proof.
  intros Hp HF. revert parent Hp. induction HF as [|c cs [Hc1 Hc2] HF IH]; intros parent Hp; [done|].
  change (resolve_components parent (c :: cs)) with
    (if bool_decide (c = L "..") then resolve_components (removelast parent) cs
     else if bool_decide (c = L ".") then resolve_components parent cs
     else resolve_components (parent ++ [c]) cs).
  case_bool_decide; [|case_bool_decide]; apply IH; [|done|].
  - rewrite removelast_firstn_len. by apply Forall_take.
  - apply Forall_app. split; [done|]. by apply Forall_singleton.
Qed.

Lemma SplitComponents_spec p :
  Forall (fun c => c <> [] /\ ch_bsl ∉ c) (SplitComponents p).
Proof.
  apply Forall_forall. intros c. unfold SplitComponents. rewrite list_elem_of_filter.
  intros [Hc Hin]. split; [done|]. by eapply segments_no_sep.
Qed.

(** Whatever text a relative symbolic link holds, putting its target in
    place of the link gives a list of view components: none is empty, holds
    a separator, or is [.] or [..], so a link target cannot lead a lookup
    above the root of the overlay. *)
Theorem SpliceLinkTarget_confined components linkIndex target :
  view_components components ->
  view_components (SpliceLinkTarget components linkIndex target).
Proof.
  intros H. unfold SpliceLinkTarget, ResolveRelativeTarget. apply Forall_app. split.
  - apply resolve_components_view; [|apply SplitComponents_spec].
    case_bool_decide; [constructor|by apply Forall_take].
  - by apply Forall_drop.
Qed.
End Normal.

Lemma NormalizePath_normal_form_witness :
  @NormalizePath mem_win32 (L "\Dir/Sub\File.TXT\") = L "dir\sub\file.txt" /\
  @NormalizePath mem_win32 (@NormalizePath mem_win32 (L "\Dir/Sub\File.TXT\")) =
    @NormalizePath mem_win32 (L "\Dir/Sub\File.TXT\").
Proof. split; [reflexivity|]. apply NormalizePath_normal_form. Defined.

Lemma IsSafeRelativePath_confined_witness :
  @resolve_components [L "c:"; L "upper"] (SplitComponents (L "a\.\b")) =
    [L "c:"; L "upper"; L "a"; L "b"].
Proof.
  rewrite (proj2 (IsSafeRelativePath_confined (L "a\.\b") [L "c:"; L "upper"] eq_refl)).
  reflexivity.
Defined.

Lemma SpliceLinkTarget_confined_witness :
  SpliceLinkTarget [L "a"; L "link"; L "f"] 1 (L "..\..\../x") = [L "x"; L "f"] /\
  view_components (SpliceLinkTarget [L "a"; L "link"; L "f"] 1 (L "..\..\../x")).
Proof.
  split; [reflexivity|]. apply SpliceLinkTarget_confined.
  unfold view_components. apply (bool_decide_unpack _). vm_compute. exact I.
Defined.

(** ** The extended form *)

Section Extended.
Context `{W : Win32}.

Lemma starts_with_app p s : starts_with p (p ++ s) = true.
Proof. apply starts_with_prefix. by exists s. Qed.

(** [WithExtendedPrefix] is idempotent, and on a full path as written
    [WithoutExtendedPrefix] takes it back to the same text, so comparing and
    storing the plain form loses nothing. *)
Theorem extended_prefix_roundtrip p :
  WithExtendedPrefix (WithExtendedPrefix p) = WithExtendedPrefix p /\
  (IsFullPathAsWritten p = true -> starts_with kExtended p = false ->
   starts_with kDevice p = false ->
   WithoutExtendedPrefix (WithExtendedPrefix p) = p).
Proof.
  split.
  - unfold WithExtendedPrefix at 2 3.
    destruct (starts_with kExtended p || starts_with kDevice p) eqn:E.
    { unfold WithExtendedPrefix. by rewrite E. }
    destruct (if IsFullPathAsWritten p then Some p else GetFullPathNameW p) as [full|] eqn:Ef.
    + destruct (starts_with kUnc full); unfold WithExtendedPrefix.
      * change kExtendedUnc with (kExtended ++ L "UNC\").
        rewrite <- app_assoc, starts_with_app. done.
      * by rewrite starts_with_app.
    + unfold WithExtendedPrefix. by rewrite E, Ef.
  - intros Hf He Hd. unfold WithExtendedPrefix. rewrite He, Hd, Hf. cbn [orb].
    destruct (starts_with kUnc p) eqn:Hu; unfold WithoutExtendedPrefix.
    + rewrite starts_with_app, drop_app_length.
      apply starts_with_prefix in Hu as [k ->]. by rewrite drop_app_length.
    + unfold IsFullPathAsWritten in Hf. rewrite Hu in Hf. cbn [andb] in Hf.
      destruct p as [|x [|y [|z p]]]; try done. cbn [length lookup] in Hf.
      destruct (decide (y = ch_colon)) as [->|Hy]; [|by rewrite (bool_decide_false (_ = Some ch_colon)) in Hf by (cbn; congruence)].
      assert (starts_with kExtendedUnc (kExtended ++ x :: ch_colon :: z :: p) = false) as ->.
      { apply not_true_iff_false. rewrite starts_with_prefix. intros [k E]. cbv in E. congruence. }
      rewrite starts_with_app. reflexivity.
Qed.

Lemma IsInsideDirectory_spec path dir :
  IsInsideDirectory path dir = true <-> exists rest, path = dir ++ ch_bsl :: rest.
Proof.
  unfold IsInsideDirectory. rewrite !andb_true_iff, !bool_decide_eq_true, Nat.ltb_lt. split.
  - intros [[Hl Ht] Hs]. exists (drop (S (length dir)) path).
    rewrite <- Ht at 1. by rewrite take_drop_middle.
  - intros [rest ->]. rewrite length_app, take_app_length, list_lookup_middle by done.
    cbn. repeat split; lia.
Qed.

Lemma IsInsideDirectory_rel cs ds :
  plain cs -> plain ds -> ds <> [] ->
  (IsInsideDirectory (rel cs) (rel ds) = true <-> exists es, es <> [] /\ cs = ds ++ es).
Proof.
  intros Hc Hd Hne. rewrite IsInsideDirectory_spec. split.
  - intros [rest E].
    assert (Hs : segments ch_bsl (rel cs) = segments ch_bsl (rel ds ++ ch_bsl :: rest)) by by rewrite E.
    assert (Hcs : cs <> []).
    { intros ->. by destruct (rel ds). }
    rewrite rel_segments in Hs by done. exists (segments ch_bsl rest).
    split; [apply segments_nonempty|]. rewrite Hs.
    rewrite <- (join_segments ch_bsl rest) at 1. unfold rel.
    rewrite <- join_with_app by auto using segments_nonempty.
    rewrite segments_join; [done| |].
    + destruct ds; done.
    + apply Forall_app. split; [by apply plain_no_bsl|].
      apply Forall_forall. intros g Hg. by eapply segments_no_sep.
  - intros (es & Hes & ->). exists (rel es). by apply join_with_app.
Qed.

(** Containment of normalized paths is strict descent in the component
    tree: irreflexive, transitive, and decided at separator boundaries. *)
Theorem IsInsideDirectory_tree cs ds :
  plain cs -> plain ds -> ds <> [] ->
  (IsInsideDirectory (rel cs) (rel ds) = true <-> exists es, es <> [] /\ cs = ds ++ es) /\
  IsInsideDirectory (rel ds) (rel ds) = false /\
  (forall path, IsInsideDirectory path (rel cs) = true ->
     IsInsideDirectory (rel cs) (rel ds) = true -> IsInsideDirectory path (rel ds) = true).
Proof.
  intros Hc Hd Hne. split; [by apply IsInsideDirectory_rel|]. split.
  - apply not_true_iff_false. rewrite IsInsideDirectory_spec. intros [rest E].
    apply (f_equal length) in E. rewrite length_app in E. cbn in E. lia.
  - intros path. rewrite !IsInsideDirectory_spec. intros [r ->] [r' ->].
    exists (r' ++ ch_bsl :: r). by rewrite <- app_assoc.
Qed.
End Extended.

Lemma extended_prefix_roundtrip_witness :
  @WithExtendedPrefix mem_win32 (L "C:\upper\a. ") = L "\\?\C:\upper\a. " /\
  @WithoutExtendedPrefix (@WithExtendedPrefix mem_win32 (L "\\srv\share\d")) = L "\\srv\share\d".
Proof.
  split; [reflexivity|].
  apply (proj2 (@extended_prefix_roundtrip mem_win32 (L "\\srv\share\d"))); reflexivity.
Defined.

Lemma IsInsideDirectory_tree_witness :
  IsInsideDirectory (L "a\b") (L "a") = true /\ IsInsideDirectory (L "ab") (L "a") = false.
Proof.
  split; [|reflexivity].
  refine (proj2 (proj1 (IsInsideDirectory_tree [L "a"; L "b"] [L "a"] _ _ _)) _).
  - apply (bool_decide_unpack _). vm_compute. exact I.
  - apply (bool_decide_unpack _). vm_compute. exact I.
  - done.
  - exists [L "b"]. done.
Defined.

(** ** The grammar of stream paths *)

Section Streams.
Context `{W : Win32}.

(** What a path with a host and a stream suffix looks like: the host alone,
    the host and a stream name, or both and the type [$DATA]. *)
Inductive stream_path : wstring -> wstring -> wstring -> Prop :=
| host_only host :
    IsSafeRelativePath host = true -> stream_path host host []
| host_stream host name :
    IsSafeRelativePath host = true -> name <> [] -> ch_colon ∉ name -> ch_bsl ∉ name ->
    IsReservedStreamName name = false ->
    stream_path (host ++ ch_colon :: name) host (ch_colon :: name)
| host_stream_type host name type :
    IsSafeRelativePath host = true -> name <> [] -> ch_colon ∉ name -> ch_bsl ∉ name ->
    IsReservedStreamName name = false ->
    type <> [] -> ch_colon ∉ type -> wcsicmp_eq type (L "$DATA") = true ->
    stream_path (host ++ ch_colon :: name ++ ch_colon :: type) host
                (ch_colon :: name ++ ch_colon :: type).

Lemma wfind_colon_app h s : ch_colon ∉ h -> wfind ch_colon (h ++ ch_colon :: s) = Some (length h).
Proof. intros H. rewrite wfind_app_r by done. cbn. f_equal. lia. Qed.

Lemma safe_no_colon h : IsSafeRelativePath h = true -> ch_colon ∉ h /\ h <> [].
Proof. intros (H1 & H2 & _)%safe_spec. done. Qed.

Lemma parse_complete p host suffix :
  stream_path p host suffix -> TryParseStreamPath p = Some (host, suffix).
Proof.
  unfold TryParseStreamPath.
  destruct 1 as [host Hs|host name Hs Hn Hc Hb Hr|host name type Hs Hn Hc Hb Hr Ht Htc Hd];
    destruct (safe_no_colon host Hs) as [Hhc Hhn].
  - rewrite bool_decide_false by done. rewrite (proj2 (wfind_None _ _) Hhc). by rewrite Hs.
  - rewrite bool_decide_false by by destruct host. rewrite wfind_colon_app by done.
    rewrite take_app_length, Hs. cbn [negb]. rewrite Nat.add_1_r.
    rewrite cons_middle, app_assoc, drop_app_length' by (rewrite length_app; cbn; lia).
    rewrite (proj2 (wfind_None _ _) Hc).
    rewrite !bool_decide_false by done. by rewrite Hr.
  - rewrite bool_decide_false by by destruct host. rewrite wfind_colon_app by done.
    rewrite take_app_length, Hs. cbn [negb]. rewrite Nat.add_1_r.
    rewrite (cons_middle _ host), app_assoc, drop_app_length' by (rewrite length_app; cbn; lia).
    rewrite wfind_colon_app by done. rewrite take_app_length.
    rewrite Nat.add_1_r, (cons_middle _ name), (app_assoc name), drop_app_length'
      by (rewrite length_app; cbn; lia).
    rewrite !bool_decide_false by done. rewrite Hr, Hd. by rewrite <- !app_assoc.
Qed.

Lemma parse_sound p host suffix :
  TryParseStreamPath p = Some (host, suffix) -> stream_path p host suffix.
Proof.
  unfold TryParseStreamPath. case_bool_decide; [done|].
  destruct (wfind ch_colon p) as [i|] eqn:Ei.
  2:{ destruct (IsSafeRelativePath p) eqn:Hs; [|done]. intros [= <- <-]. by constructor. }
  apply wfind_split in Ei as [Ep Hi]. rewrite Nat.add_1_r.
  destruct (IsSafeRelativePath (take i p)) eqn:Hs; cbn [negb]; [|done].
  set (after := drop (S i) p) in *.
  destruct (wfind ch_colon after) as [j|] eqn:Ej.
  - apply wfind_split in Ej as [Ea Hj]. rewrite Nat.add_1_r.
    case_bool_decide; [done|]. case_bool_decide; [done|].
    destruct (IsReservedStreamName (take j after)) eqn:Hr; [done|].
    case_bool_decide; [done|]. case_bool_decide; [done|].
    destruct (wcsicmp_eq (drop (S j) after) (L "$DATA")) eqn:Hd; cbn [negb]; [|done].
    intros [= <- <-]. rewrite Ep at 1. rewrite Ea at 1. by constructor.
  - apply wfind_None in Ej.
    case_bool_decide; [done|]. case_bool_decide; [done|].
    destruct (IsReservedStreamName after) eqn:Hr; [done|].
    intros [= <- <-]. rewrite Ep at 1. by constructor.
Qed.

(** [TryParseStreamPath] accepts exactly the grammar of stream paths,
    and the host and the suffix it returns concatenate to its input. *)
Theorem TryParseStreamPath_grammar p host suffix :
  (TryParseStreamPath p = Some (host, suffix) <-> stream_path p host suffix) /\
  (TryParseStreamPath p = Some (host, suffix) -> p = host ++ suffix).
Proof.
  split; [split; [apply parse_sound|apply parse_complete]|].
  intros H%parse_sound. destruct H; [by rewrite app_nil_r|done..].
Qed.
End Streams.

(** ** Paths below a directory *)

(** A text with no slash, no drive or stream, and no segment that is [..]. *)
Definition no_parent (p : wstring) : Prop :=
  ch_slash ∉ p /\ ch_colon ∉ p /\ L ".." ∉ segments ch_bsl p.

(** What can follow a directory and its separator and stay below it. *)
Definition below_root (p : wstring) : Prop := no_parent p /\ head p <> Some ch_bsl.

(** No stream, or a colon and a text that holds no separator before its
    terminator. *)
Definition stream_text (s : wstring) : Prop :=
  s = [] \/ head s = Some ch_colon /\ ch_bsl ∉ c_str s.

Section Below.
Context `{W : Win32} `{CL : !CaseLaws}.

Lemma below_root_nil : below_root [].
Proof.
  split; [|done]. split_and!; [apply not_elem_of_nil..|]. by intros ?%list_elem_of_singleton.
Qed.

Lemma stream_text_nil : stream_text [].
Proof. by left. Qed.

Lemma no_parent_strip_leading p : no_parent p -> no_parent (strip_leading ch_bsl p).
Proof.
  induction p as [|x p IH]; cbn [strip_leading]; [done|]. destruct (Z.eqb_spec x ch_bsl) as [->|_]; [|done].
  intros (Hs & Hc & Hg). apply IH. apply not_elem_of_cons in Hs as [_ Hs], Hc as [_ Hc]. split_and!; [done..|].
  change (ch_bsl :: p) with ([] ++ ch_bsl :: p) in Hg. rewrite segments_app_any in Hg. set_solver.
Qed.

Lemma no_parent_strip_trailing p : no_parent p -> no_parent (strip_trailing ch_bsl p).
Proof.
  induction p as [|x p IH] using rev_ind; [done|]. unfold strip_trailing. rewrite reverse_snoc. cbn [strip_leading].
  destruct (Z.eqb_spec x ch_bsl) as [->|_].
  - intros (Hs & Hc & Hg). apply IH. apply not_elem_of_app in Hs as [Hs _], Hc as [Hc _]. split_and!; [done..|].
    rewrite segments_app_any in Hg. set_solver.
  - by rewrite reverse_cons, reverse_involutive.
Qed.

Lemma no_parent_preserve p : no_parent p -> below_root (NormalizePathPreserveCase p).
Proof.
  intros Hp. split; [|by apply preserve_canonical]. unfold NormalizePathPreserveCase.
  rewrite wreplace_id by apply Hp. by apply no_parent_strip_trailing, no_parent_strip_leading.
Qed.

(** Case folding makes no parent and hides none. *)
Lemma lower_dots : CharLowerBuffW (L "..") = L "..".
Proof. cbn. change 46 with ch_dot. by rewrite !lower_punct_fix by apply elem_dot. Qed.

Lemma lower_dots_inv g : CharLowerBuffW g = L ".." -> g = L "..".
Proof.
  destruct g as [|a [|b [|]]]; cbn; try done. intros [= Ha Hb].
  apply (lower_punct a ch_dot elem_dot) in Ha as ->. by apply (lower_punct b ch_dot elem_dot) in Hb as ->.
Qed.

Lemma no_parent_lower p : no_parent (CharLowerBuffW p) <-> no_parent p.
Proof.
  unfold no_parent. rewrite !lower_elem_punct by auto using elem_slash, elem_colon.
  rewrite lower_segments, list_elem_of_fmap. split; intros (Hs & Hc & Hg); split_and!; try done.
  - intros Hin. apply Hg. exists (L ".."). by rewrite lower_dots.
  - intros (g & Hg2 & Hin). symmetry in Hg2. by apply lower_dots_inv in Hg2 as ->.
Qed.

Lemma no_parent_normalize p : no_parent p -> below_root (NormalizePath p).
Proof.
  intros [Hp _]%no_parent_preserve. split; [by apply no_parent_lower|apply normalize_canonical].
Qed.

(** The stored case of a path whose folded form is below a directory. *)
Lemma normalized_preserve p : no_parent (NormalizePath p) -> below_root (NormalizePathPreserveCase p).
Proof. intros Hp. split; [|apply preserve_canonical]. by apply no_parent_lower. Qed.

Lemma c_str_lower s : c_str (CharLowerBuffW s) = CharLowerBuffW (c_str s).
Proof.
  assert (Hf : wfind 0 (CharLowerBuffW s) = wfind 0 s).
  { induction s as [|x s IH]; cbn; [done|]. change (wfind 0 (char_lower <$> s) = wfind 0 s) in IH. rewrite IH.
    pose proof (lower_punct x 0 ltac:(unfold path_punctuation; set_solver)) as Hx.
    destruct (Z.eqb_spec (char_lower x) 0), (Z.eqb_spec x 0); naive_solver. }
  unfold c_str. rewrite Hf. destruct (wfind 0 s); [|done]. unfold CharLowerBuffW. by rewrite fmap_take.
Qed.

Lemma stream_text_lower s : stream_text s -> stream_text (CharLowerBuffW s).
Proof.
  intros [->|[Hh Hb]]; [by left|right]. split.
  - destruct s as [|x s]; [done|]. injection Hh as ->. cbn. f_equal. by apply lower_punct_fix, elem_colon.
  - rewrite c_str_lower. by rewrite lower_elem_punct by apply elem_bsl.
Qed.

Lemma safe_no_parent p : ch_slash ∉ p -> IsSafeRelativePath p = true -> no_parent p.
Proof. by intros Hs (_ & Hc & Hg)%safe_spec. Qed.

Lemma c_str_prefix s : c_str s `prefix_of` s.
Proof. unfold c_str. destruct (wfind 0 s); [apply prefix_take|done]. Qed.

Lemma c_str_app a b x : x ∈ c_str (a ++ b) -> x ∈ a \/ x ∈ c_str b.
Proof.
  unfold c_str. destruct (wfind 0 a) as [i|] eqn:Ei.
  - apply wfind_Some in Ei as [Hl Hn]. assert (Hf : wfind 0 (a ++ b) = Some i).
    { apply wfind_Some. split; [by apply lookup_app_l_Some|].
      by rewrite take_app_le by (apply lookup_lt_Some in Hl; lia). }
    rewrite Hf, take_app_le by (apply lookup_lt_Some in Hl; lia). intros Hx. left.
    by eapply elem_of_prefix; [|apply prefix_take].
  - apply wfind_None in Ei. rewrite wfind_app_r by done. destruct (wfind 0 b) as [j|]; cbn; [|apply elem_of_app].
    rewrite take_app_add. apply elem_of_app.
Qed.

(** What the grammar of stream paths gives: a host below the root, and a
    stream of it. *)
Lemma parsed_names p host suffix :
  ch_slash ∉ p -> TryParseStreamPath p = Some (host, suffix) -> no_parent host /\ stream_text suffix.
Proof.
  intros Hs Hp%parse_sound. destruct Hp as [host Hh|host name Hh Hn Hc Hb Hr|host name type Hh Hn Hc Hb Hr Ht Htc Hd].
  - split; [by apply safe_no_parent|by left].
  - apply not_elem_of_app in Hs as [Hs _]. split; [by apply safe_no_parent|]. right. split; [done|].
    intros Hx. assert (Hin : ch_bsl ∈ ch_colon :: name) by (eapply elem_of_prefix; [exact Hx|apply c_str_prefix]).
    by apply elem_of_cons in Hin as [|].
  - apply not_elem_of_app in Hs as [Hs _]. split; [by apply safe_no_parent|]. right. split; [done|].
    change (ch_colon :: name ++ ch_colon :: type) with ((ch_colon :: name) ++ [ch_colon] ++ type).
    intros [[Hx|Hx]%elem_of_cons|[Hx%list_elem_of_singleton|Hx]%c_str_app]%c_str_app; try done.
    unfold wcsicmp_eq in Hd. apply bool_decide_eq_true in Hd.
    assert (Hx2 : MemWin32.ascii_lower ch_bsl ∈ MemWin32.ascii_lower <$> c_str type) by (by apply list_elem_of_fmap_2).
    rewrite Hd in Hx2. revert Hx2. apply (bool_decide_unpack _). vm_compute. exact I.
Qed.
End Below.

Lemma TryParseStreamPath_grammar_witness :
  @TryParseStreamPath mem_win32 (L "dir\f.txt:note:$data") = Some (L "dir\f.txt", L ":note:$data") /\
  L "dir\f.txt:note:$data" = L "dir\f.txt" ++ L ":note:$data".
Proof.
  split; [reflexivity|].
  apply (proj2 (@TryParseStreamPath_grammar mem_win32 (L "dir\f.txt:note:$data") _ _)). reflexivity.
Defined.

(** ** Marker names on plain paths *)

Section Markers.
Context `{W : Win32} `{CL : !CaseLaws}.

(** The name of the whiteout marker of [g]. *)
Definition wh (g : wstring) : wstring := kWhiteoutPrefix ++ g.

Lemma wh_plain g : plain_component g -> plain_component (wh g).
Proof.
  intros (_ & Hb & Hs & Hc). unfold wh. repeat split; [done|..];
    apply not_elem_of_app; (split; [apply (bool_decide_unpack _); vm_compute; exact I|done]).
Qed.

Lemma marker_name_rel cs g :
  plain cs -> plain_component g ->
  GetWhiteoutFileName (rel (cs ++ [g])) = rel (cs ++ [wh g]).
Proof.
  intros Hc Hg. unfold GetWhiteoutFileName.
  rewrite parent_path_rel, filename_rel by done. fold (wh g). case_bool_decide as E.
  - apply rel_nil_inv in E as ->; done.
  - apply append_rel; [done|]. by apply wh_plain.
Qed.

Lemma marker_directory_rel cs g :
  plain cs -> plain_component g -> MarkerDirectoryOf (rel (cs ++ [g])) = rel cs.
Proof.
  intros Hc Hg. unfold MarkerDirectoryOf. rewrite parent_path_rel by done.
  by apply preserve_id, rel_canonical.
Qed.

Lemma whiteout_name_lower name :
  IsWhiteoutName name = bool_decide (take kWhiteoutPrefixLength (CharLowerBuffW name) = kWhiteoutPrefix).
Proof.
  unfold IsWhiteoutName.
  rewrite ordinal_eq_marker by (apply (bool_decide_unpack _); vm_compute; exact I).
  unfold CharLowerBuffW. rewrite fmap_take.
  destruct (Nat.leb_spec kWhiteoutPrefixLength (length name)); cbn [andb]; [done|].
  rewrite bool_decide_false; [done|]. intros E. apply (f_equal length) in E.
  rewrite length_take, length_fmap in E. unfold kWhiteoutPrefixLength in *. lia.
Qed.

(** A directory entry's name folds to the marker name of [k] exactly when
    it is a whiteout entry that hides [k]. *)
Lemma hidden_name_spec name k :
  k <> L ".wh..opq" ->
  (CaseFoldedName name = wh k <->
   exists hidden, WhitedOutNameOfEntry name = Some hidden /\ CaseFoldedName hidden = k).
Proof.
  intros Hk. unfold WhitedOutNameOfEntry, CaseFoldedName. rewrite whiteout_name_lower.
  rewrite ordinal_eq_marker by (apply (bool_decide_unpack _); vm_compute; exact I).
  unfold GetWhitedOutName, wh. split.
  - intros E. exists (drop kWhiteoutPrefixLength name). rewrite E.
    rewrite (bool_decide_true (take _ _ = kWhiteoutPrefix)) by apply (take_app_length kWhiteoutPrefix k).
    rewrite (bool_decide_false (_ = kOpaqueMarkerFile)).
    2:{ change kOpaqueMarkerFile with (kWhiteoutPrefix ++ L ".wh..opq").
        intros H%app_inv_head. done. }
    split; [done|]. unfold CharLowerBuffW in *. rewrite fmap_drop, E. apply drop_app_length.
  - intros (hidden & E & <-). case_bool_decide as H1; [|done].
    destruct (bool_decide (CharLowerBuffW name = kOpaqueMarkerFile)); [done|].
    injection E as <-. rewrite <- H1 at 1.
    unfold CharLowerBuffW. rewrite fmap_drop. by rewrite take_drop.
Qed.

Lemma whiteout_name_wh k : CaseFoldedName k = k -> IsWhiteoutName (wh k) = true.
Proof.
  intros Hk. rewrite whiteout_name_lower, bool_decide_eq_true. unfold wh.
  rewrite lower_app. unfold CaseFoldedName in Hk. rewrite Hk.
  assert (CharLowerBuffW kWhiteoutPrefix = kWhiteoutPrefix) as ->.
  { apply (bool_decide_eq_true (CharLowerBuffW kWhiteoutPrefix = kWhiteoutPrefix)).
    rewrite <- ordinal_eq_marker by (apply (bool_decide_unpack _); vm_compute; exact I).
    unfold ordinal_eq_ci. by rewrite bool_decide_true. }
  apply take_app_length.
Qed.
End Markers.
