(* ===== verification/NtStatus.v ===== *)
(** * Status codes

    [NtStatusUtil.cpp]: the table from Win32 errors to NTSTATUS codes.  A
    Win32 error is its number, because the engine tests numbers.  A status
    is kept by its SDK name, because the engine reads nothing of it but its
    identity and its severity. *)
From S2P Require Export Win32.

Record NTSTATUS := ST { status_name : string }.

#[export] Instance NTSTATUS_eq_dec : EqDecision NTSTATUS.
Proof. solve_decision. Defined.

Definition STATUS_SUCCESS := ST "SUCCESS".
Definition STATUS_ILLEGAL_FUNCTION := ST "ILLEGAL_FUNCTION".
Definition STATUS_OBJECT_NAME_NOT_FOUND := ST "OBJECT_NAME_NOT_FOUND".
Definition STATUS_OBJECT_PATH_NOT_FOUND := ST "OBJECT_PATH_NOT_FOUND".
Definition STATUS_TOO_MANY_OPENED_FILES := ST "TOO_MANY_OPENED_FILES".
Definition STATUS_ACCESS_DENIED := ST "ACCESS_DENIED".
Definition STATUS_INVALID_HANDLE := ST "INVALID_HANDLE".
Definition STATUS_NO_MEMORY := ST "NO_MEMORY".
Definition STATUS_INVALID_PARAMETER := ST "INVALID_PARAMETER".
Definition STATUS_INVALID_IMAGE_FORMAT := ST "INVALID_IMAGE_FORMAT".
Definition STATUS_NO_SUCH_DEVICE := ST "NO_SUCH_DEVICE".
Definition STATUS_CANNOT_DELETE := ST "CANNOT_DELETE".
Definition STATUS_NOT_SAME_DEVICE := ST "NOT_SAME_DEVICE".
Definition STATUS_NO_MORE_FILES := ST "NO_MORE_FILES".
Definition STATUS_MEDIA_WRITE_PROTECTED := ST "MEDIA_WRITE_PROTECTED".
Definition STATUS_DEVICE_NOT_READY := ST "DEVICE_NOT_READY".
Definition STATUS_INVALID_DEVICE_REQUEST := ST "INVALID_DEVICE_REQUEST".
Definition STATUS_CRC_ERROR := ST "CRC_ERROR".
Definition STATUS_INVALID_BUFFER_SIZE := ST "INVALID_BUFFER_SIZE".
Definition STATUS_UNSUCCESSFUL := ST "UNSUCCESSFUL".
Definition STATUS_DISK_CORRUPT_ERROR := ST "DISK_CORRUPT_ERROR".
Definition STATUS_NONEXISTENT_SECTOR := ST "NONEXISTENT_SECTOR".
Definition STATUS_IO_DEVICE_ERROR := ST "IO_DEVICE_ERROR".
Definition STATUS_SHARING_VIOLATION := ST "SHARING_VIOLATION".
Definition STATUS_FILE_LOCK_CONFLICT := ST "FILE_LOCK_CONFLICT".
Definition STATUS_WRONG_VOLUME := ST "WRONG_VOLUME".
Definition STATUS_INSUFFICIENT_RESOURCES := ST "INSUFFICIENT_RESOURCES".
Definition STATUS_END_OF_FILE := ST "END_OF_FILE".
Definition STATUS_DISK_FULL := ST "DISK_FULL".
Definition STATUS_NOT_SUPPORTED := ST "NOT_SUPPORTED".
Definition STATUS_REMOTE_NOT_LISTENING := ST "REMOTE_NOT_LISTENING".
Definition STATUS_DUPLICATE_NAME := ST "DUPLICATE_NAME".
Definition STATUS_BAD_NETWORK_PATH := ST "BAD_NETWORK_PATH".
Definition STATUS_NETWORK_BUSY := ST "NETWORK_BUSY".
Definition STATUS_DEVICE_DOES_NOT_EXIST := ST "DEVICE_DOES_NOT_EXIST".
Definition STATUS_OBJECT_NAME_COLLISION := ST "OBJECT_NAME_COLLISION".
Definition STATUS_NET_WRITE_FAULT := ST "NET_WRITE_FAULT".
Definition STATUS_PIPE_BROKEN := ST "PIPE_BROKEN".
Definition STATUS_OBJECT_NAME_INVALID := ST "OBJECT_NAME_INVALID".
Definition STATUS_INVALID_LEVEL := ST "INVALID_LEVEL".
Definition STATUS_NO_SUCH_FILE := ST "NO_SUCH_FILE".
Definition STATUS_DLL_NOT_FOUND := ST "DLL_NOT_FOUND".
Definition STATUS_ENTRYPOINT_NOT_FOUND := ST "ENTRYPOINT_NOT_FOUND".
Definition STATUS_DEVICE_BUSY := ST "DEVICE_BUSY".
Definition STATUS_DIRECTORY_NOT_EMPTY := ST "DIRECTORY_NOT_EMPTY".
Definition STATUS_NAME_TOO_LONG := ST "NAME_TOO_LONG".
Definition STATUS_INVALID_PIPE_STATE := ST "INVALID_PIPE_STATE".
Definition STATUS_PIPE_BUSY := ST "PIPE_BUSY".
Definition STATUS_PIPE_EMPTY := ST "PIPE_EMPTY".
Definition STATUS_PIPE_DISCONNECTED := ST "PIPE_DISCONNECTED".
Definition STATUS_BUFFER_OVERFLOW := ST "BUFFER_OVERFLOW".
Definition STATUS_INVALID_EA_NAME := ST "INVALID_EA_NAME".
Definition STATUS_EA_LIST_INCONSISTENT := ST "EA_LIST_INCONSISTENT".
Definition STATUS_NO_MORE_ENTRIES := ST "NO_MORE_ENTRIES".
Definition STATUS_NOT_A_DIRECTORY := ST "NOT_A_DIRECTORY".
Definition STATUS_EA_TOO_LARGE := ST "EA_TOO_LARGE".
Definition STATUS_EA_CORRUPT_ERROR := ST "EA_CORRUPT_ERROR".
Definition STATUS_EAS_NOT_SUPPORTED := ST "EAS_NOT_SUPPORTED".
Definition STATUS_RESOURCE_NOT_OWNED := ST "RESOURCE_NOT_OWNED".
Definition STATUS_TOO_MANY_COMMANDS := ST "TOO_MANY_COMMANDS".
Definition STATUS_MESSAGE_NOT_FOUND := ST "MESSAGE_NOT_FOUND".
Definition STATUS_CLOUD_FILE_SYNC_ROOT_METADATA_CORRUPT := ST "CLOUD_FILE_SYNC_ROOT_METADATA_CORRUPT".
Definition STATUS_CLOUD_FILE_PROVIDER_NOT_RUNNING := ST "CLOUD_FILE_PROVIDER_NOT_RUNNING".
Definition STATUS_CLOUD_FILE_METADATA_CORRUPT := ST "CLOUD_FILE_METADATA_CORRUPT".
Definition STATUS_CLOUD_FILE_METADATA_TOO_LARGE := ST "CLOUD_FILE_METADATA_TOO_LARGE".
Definition STATUS_CLOUD_FILE_PROPERTY_BLOB_TOO_LARGE := ST "CLOUD_FILE_PROPERTY_BLOB_TOO_LARGE".
Definition STATUS_CLOUD_FILE_PROPERTY_BLOB_CHECKSUM_MISMATCH := ST "CLOUD_FILE_PROPERTY_BLOB_CHECKSUM_MISMATCH".
Definition STATUS_CLOUD_FILE_TOO_MANY_PROPERTY_BLOBS := ST "CLOUD_FILE_TOO_MANY_PROPERTY_BLOBS".
Definition STATUS_CLOUD_FILE_PROPERTY_VERSION_NOT_SUPPORTED := ST "CLOUD_FILE_PROPERTY_VERSION_NOT_SUPPORTED".
Definition STATUS_NOT_A_CLOUD_FILE := ST "NOT_A_CLOUD_FILE".
Definition STATUS_CLOUD_FILE_NOT_IN_SYNC := ST "CLOUD_FILE_NOT_IN_SYNC".
Definition STATUS_CLOUD_FILE_ALREADY_CONNECTED := ST "CLOUD_FILE_ALREADY_CONNECTED".
Definition STATUS_CLOUD_FILE_NOT_SUPPORTED := ST "CLOUD_FILE_NOT_SUPPORTED".
Definition STATUS_CLOUD_FILE_INVALID_REQUEST := ST "CLOUD_FILE_INVALID_REQUEST".
Definition STATUS_CLOUD_FILE_READ_ONLY_VOLUME := ST "CLOUD_FILE_READ_ONLY_VOLUME".
Definition STATUS_CLOUD_FILE_CONNECTED_PROVIDER_ONLY := ST "CLOUD_FILE_CONNECTED_PROVIDER_ONLY".
Definition STATUS_CLOUD_FILE_VALIDATION_FAILED := ST "CLOUD_FILE_VALIDATION_FAILED".
Definition STATUS_CLOUD_FILE_AUTHENTICATION_FAILED := ST "CLOUD_FILE_AUTHENTICATION_FAILED".
Definition STATUS_CLOUD_FILE_INSUFFICIENT_RESOURCES := ST "CLOUD_FILE_INSUFFICIENT_RESOURCES".
Definition STATUS_CLOUD_FILE_NETWORK_UNAVAILABLE := ST "CLOUD_FILE_NETWORK_UNAVAILABLE".
Definition STATUS_CLOUD_FILE_UNSUCCESSFUL := ST "CLOUD_FILE_UNSUCCESSFUL".
Definition STATUS_CLOUD_FILE_NOT_UNDER_SYNC_ROOT := ST "CLOUD_FILE_NOT_UNDER_SYNC_ROOT".
Definition STATUS_CLOUD_FILE_IN_USE := ST "CLOUD_FILE_IN_USE".
Definition STATUS_CLOUD_FILE_PINNED := ST "CLOUD_FILE_PINNED".
Definition STATUS_CLOUD_FILE_REQUEST_ABORTED := ST "CLOUD_FILE_REQUEST_ABORTED".
Definition STATUS_CLOUD_FILE_PROPERTY_CORRUPT := ST "CLOUD_FILE_PROPERTY_CORRUPT".
Definition STATUS_CLOUD_FILE_ACCESS_DENIED := ST "CLOUD_FILE_ACCESS_DENIED".
Definition STATUS_CLOUD_FILE_INCOMPATIBLE_HARDLINKS := ST "CLOUD_FILE_INCOMPATIBLE_HARDLINKS".
Definition STATUS_CLOUD_FILE_PROPERTY_LOCK_CONFLICT := ST "CLOUD_FILE_PROPERTY_LOCK_CONFLICT".
Definition STATUS_CLOUD_FILE_REQUEST_CANCELED := ST "CLOUD_FILE_REQUEST_CANCELED".
Definition STATUS_CLOUD_FILE_PROVIDER_TERMINATED := ST "CLOUD_FILE_PROVIDER_TERMINATED".
Definition STATUS_NOT_A_CLOUD_SYNC_ROOT := ST "NOT_A_CLOUD_SYNC_ROOT".
Definition STATUS_CLOUD_FILE_REQUEST_TIMEOUT := ST "CLOUD_FILE_REQUEST_TIMEOUT".
Definition STATUS_CLOUD_FILE_DEHYDRATION_DISALLOWED := ST "CLOUD_FILE_DEHYDRATION_DISALLOWED".
Definition STATUS_CLOUD_FILE_US_MESSAGE_TIMEOUT := ST "CLOUD_FILE_US_MESSAGE_TIMEOUT".
Definition STATUS_INVALID_ADDRESS := ST "INVALID_ADDRESS".
Definition STATUS_INTEGER_OVERFLOW := ST "INTEGER_OVERFLOW".
Definition STATUS_PIPE_CONNECTED := ST "PIPE_CONNECTED".
Definition STATUS_PIPE_LISTENING := ST "PIPE_LISTENING".
Definition STATUS_CANCELLED := ST "CANCELLED".
Definition STATUS_MORE_PROCESSING_REQUIRED := ST "MORE_PROCESSING_REQUIRED".
Definition STATUS_PENDING := ST "PENDING".
Definition STATUS_ACCESS_VIOLATION := ST "ACCESS_VIOLATION".
Definition STATUS_IN_PAGE_ERROR := ST "IN_PAGE_ERROR".
Definition STATUS_STACK_OVERFLOW := ST "STACK_OVERFLOW".
Definition STATUS_INVALID_SYSTEM_SERVICE := ST "INVALID_SYSTEM_SERVICE".
Definition STATUS_UNRECOGNIZED_VOLUME := ST "UNRECOGNIZED_VOLUME".
Definition STATUS_FILE_INVALID := ST "FILE_INVALID".
Definition STATUS_BUFFER_TOO_SMALL := ST "BUFFER_TOO_SMALL".
Definition STATUS_DEVICE_REMOVED := ST "DEVICE_REMOVED".
Definition STATUS_IO_TIMEOUT := ST "IO_TIMEOUT".
Definition STATUS_NOT_FOUND := ST "NOT_FOUND".
Definition STATUS_DEVICE_NOT_CONNECTED := ST "DEVICE_NOT_CONNECTED".
Definition STATUS_NOT_A_REPARSE_POINT := ST "NOT_A_REPARSE_POINT".
Definition STATUS_IO_REPARSE_DATA_INVALID := ST "IO_REPARSE_DATA_INVALID".
Definition STATUS_IO_REPARSE_TAG_INVALID := ST "IO_REPARSE_TAG_INVALID".
Definition STATUS_IO_REPARSE_TAG_MISMATCH := ST "IO_REPARSE_TAG_MISMATCH".
Definition STATUS_IO_REPARSE_TAG_NOT_HANDLED := ST "IO_REPARSE_TAG_NOT_HANDLED".
Definition STATUS_FILE_IS_A_DIRECTORY := ST "FILE_IS_A_DIRECTORY".
Definition STATUS_REPARSE_POINT_NOT_RESOLVED := ST "REPARSE_POINT_NOT_RESOLVED".

(** The statuses above whose severity is success; the SDK gives every other
    one a warning or an error severity. *)
Definition success_statuses : list NTSTATUS := [STATUS_SUCCESS; STATUS_PENDING].

(** [NT_SUCCESS(status)]. *)
Definition NT_SUCCESS (status : NTSTATUS) : bool := bool_decide (status ∈ success_statuses).

(** The result of an engine call: a value, or the status of the failure. *)
Abbreviation nt := (res NTSTATUS).

(** The cases of the switch. *)
Definition win32_cases : list (Z * NTSTATUS) := [
  (0 (* ERROR_SUCCESS *), STATUS_SUCCESS);
  (1 (* ERROR_INVALID_FUNCTION *), STATUS_ILLEGAL_FUNCTION);
  (2 (* ERROR_FILE_NOT_FOUND *), STATUS_OBJECT_NAME_NOT_FOUND);
  (3 (* ERROR_PATH_NOT_FOUND *), STATUS_OBJECT_PATH_NOT_FOUND);
  (4 (* ERROR_TOO_MANY_OPEN_FILES *), STATUS_TOO_MANY_OPENED_FILES);
  (5 (* ERROR_ACCESS_DENIED *), STATUS_ACCESS_DENIED);
  (6 (* ERROR_INVALID_HANDLE *), STATUS_INVALID_HANDLE);
  (8 (* ERROR_NOT_ENOUGH_MEMORY *), STATUS_NO_MEMORY);
  (9 (* ERROR_INVALID_BLOCK *), STATUS_INVALID_PARAMETER);
  (10 (* ERROR_BAD_ENVIRONMENT *), STATUS_INVALID_PARAMETER);
  (11 (* ERROR_BAD_FORMAT *), STATUS_INVALID_IMAGE_FORMAT);
  (14 (* ERROR_OUTOFMEMORY *), STATUS_NO_MEMORY);
  (15 (* ERROR_INVALID_DRIVE *), STATUS_NO_SUCH_DEVICE);
  (16 (* ERROR_CURRENT_DIRECTORY *), STATUS_CANNOT_DELETE);
  (17 (* ERROR_NOT_SAME_DEVICE *), STATUS_NOT_SAME_DEVICE);
  (18 (* ERROR_NO_MORE_FILES *), STATUS_NO_MORE_FILES);
  (19 (* ERROR_WRITE_PROTECT *), STATUS_MEDIA_WRITE_PROTECTED);
  (20 (* ERROR_BAD_UNIT *), STATUS_NO_SUCH_DEVICE);
  (21 (* ERROR_NOT_READY *), STATUS_DEVICE_NOT_READY);
  (22 (* ERROR_BAD_COMMAND *), STATUS_INVALID_DEVICE_REQUEST);
  (23 (* ERROR_CRC *), STATUS_CRC_ERROR);
  (24 (* ERROR_BAD_LENGTH *), STATUS_INVALID_BUFFER_SIZE);
  (25 (* ERROR_SEEK *), STATUS_UNSUCCESSFUL);
  (26 (* ERROR_NOT_DOS_DISK *), STATUS_DISK_CORRUPT_ERROR);
  (27 (* ERROR_SECTOR_NOT_FOUND *), STATUS_NONEXISTENT_SECTOR);
  (29 (* ERROR_WRITE_FAULT *), STATUS_IO_DEVICE_ERROR);
  (30 (* ERROR_READ_FAULT *), STATUS_IO_DEVICE_ERROR);
  (31 (* ERROR_GEN_FAILURE *), STATUS_UNSUCCESSFUL);
  (32 (* ERROR_SHARING_VIOLATION *), STATUS_SHARING_VIOLATION);
  (33 (* ERROR_LOCK_VIOLATION *), STATUS_FILE_LOCK_CONFLICT);
  (34 (* ERROR_WRONG_DISK *), STATUS_WRONG_VOLUME);
  (36 (* ERROR_SHARING_BUFFER_EXCEEDED *), STATUS_INSUFFICIENT_RESOURCES);
  (38 (* ERROR_HANDLE_EOF *), STATUS_END_OF_FILE);
  (39 (* ERROR_HANDLE_DISK_FULL *), STATUS_DISK_FULL);
  (50 (* ERROR_NOT_SUPPORTED *), STATUS_NOT_SUPPORTED);
  (51 (* ERROR_REM_NOT_LIST *), STATUS_REMOTE_NOT_LISTENING);
  (52 (* ERROR_DUP_NAME *), STATUS_DUPLICATE_NAME);
  (53 (* ERROR_BAD_NETPATH *), STATUS_BAD_NETWORK_PATH);
  (54 (* ERROR_NETWORK_BUSY *), STATUS_NETWORK_BUSY);
  (55 (* ERROR_DEV_NOT_EXIST *), STATUS_DEVICE_DOES_NOT_EXIST);
  (80 (* ERROR_FILE_EXISTS *), STATUS_OBJECT_NAME_COLLISION);
  (82 (* ERROR_CANNOT_MAKE *), STATUS_ACCESS_DENIED);
  (87 (* ERROR_INVALID_PARAMETER *), STATUS_INVALID_PARAMETER);
  (88 (* ERROR_NET_WRITE_FAULT *), STATUS_NET_WRITE_FAULT);
  (108 (* ERROR_DRIVE_LOCKED *), STATUS_ACCESS_DENIED);
  (109 (* ERROR_BROKEN_PIPE *), STATUS_PIPE_BROKEN);
  (110 (* ERROR_OPEN_FAILED *), STATUS_UNSUCCESSFUL);
  (112 (* ERROR_DISK_FULL *), STATUS_DISK_FULL);
  (113 (* ERROR_NO_MORE_SEARCH_HANDLES *), STATUS_INSUFFICIENT_RESOURCES);
  (114 (* ERROR_INVALID_TARGET_HANDLE *), STATUS_INVALID_HANDLE);
  (117 (* ERROR_INVALID_CATEGORY *), STATUS_INVALID_PARAMETER);
  (123 (* ERROR_INVALID_NAME *), STATUS_OBJECT_NAME_INVALID);
  (124 (* ERROR_INVALID_LEVEL *), STATUS_INVALID_LEVEL);
  (125 (* ERROR_NO_VOLUME_LABEL *), STATUS_NO_SUCH_FILE);
  (126 (* ERROR_MOD_NOT_FOUND *), STATUS_DLL_NOT_FOUND);
  (127 (* ERROR_PROC_NOT_FOUND *), STATUS_ENTRYPOINT_NOT_FOUND);
  (128 (* ERROR_WAIT_NO_CHILDREN *), STATUS_UNSUCCESSFUL);
  (129 (* ERROR_CHILD_NOT_COMPLETE *), STATUS_UNSUCCESSFUL);
  (130 (* ERROR_DIRECT_ACCESS_HANDLE *), STATUS_INVALID_HANDLE);
  (131 (* ERROR_NEGATIVE_SEEK *), STATUS_INVALID_PARAMETER);
  (132 (* ERROR_SEEK_ON_DEVICE *), STATUS_INVALID_DEVICE_REQUEST);
  (133 (* ERROR_IS_JOIN_TARGET *), STATUS_UNSUCCESSFUL);
  (134 (* ERROR_IS_JOINED *), STATUS_UNSUCCESSFUL);
  (135 (* ERROR_IS_SUBSTED *), STATUS_UNSUCCESSFUL);
  (136 (* ERROR_NOT_JOINED *), STATUS_UNSUCCESSFUL);
  (137 (* ERROR_NOT_SUBSTED *), STATUS_UNSUCCESSFUL);
  (138 (* ERROR_JOIN_TO_JOIN *), STATUS_UNSUCCESSFUL);
  (139 (* ERROR_SUBST_TO_SUBST *), STATUS_UNSUCCESSFUL);
  (140 (* ERROR_JOIN_TO_SUBST *), STATUS_UNSUCCESSFUL);
  (141 (* ERROR_SUBST_TO_JOIN *), STATUS_UNSUCCESSFUL);
  (142 (* ERROR_BUSY_DRIVE *), STATUS_DEVICE_BUSY);
  (143 (* ERROR_SAME_DRIVE *), STATUS_UNSUCCESSFUL);
  (144 (* ERROR_DIR_NOT_ROOT *), STATUS_UNSUCCESSFUL);
  (145 (* ERROR_DIR_NOT_EMPTY *), STATUS_DIRECTORY_NOT_EMPTY);
  (146 (* ERROR_IS_SUBST_PATH *), STATUS_UNSUCCESSFUL);
  (147 (* ERROR_IS_JOIN_PATH *), STATUS_UNSUCCESSFUL);
  (148 (* ERROR_PATH_BUSY *), STATUS_DEVICE_BUSY);
  (167 (* ERROR_LOCK_FAILED *), STATUS_FILE_LOCK_CONFLICT);
  (170 (* ERROR_BUSY *), STATUS_DEVICE_BUSY);
  (183 (* ERROR_ALREADY_EXISTS *), STATUS_OBJECT_NAME_COLLISION);
  (191 (* ERROR_INVALID_EXE_SIGNATURE *), STATUS_INVALID_IMAGE_FORMAT);
  (192 (* ERROR_EXE_MARKED_INVALID *), STATUS_INVALID_IMAGE_FORMAT);
  (193 (* ERROR_BAD_EXE_FORMAT *), STATUS_INVALID_IMAGE_FORMAT);
  (206 (* ERROR_FILENAME_EXCED_RANGE *), STATUS_NAME_TOO_LONG);
  (208 (* ERROR_META_EXPANSION_TOO_LONG *), STATUS_NAME_TOO_LONG);
  (209 (* ERROR_INVALID_SIGNAL_NUMBER *), STATUS_INVALID_PARAMETER);
  (210 (* ERROR_THREAD_1_INACTIVE *), STATUS_UNSUCCESSFUL);
  (212 (* ERROR_LOCKED *), STATUS_FILE_LOCK_CONFLICT);
  (214 (* ERROR_TOO_MANY_MODULES *), STATUS_INSUFFICIENT_RESOURCES);
  (215 (* ERROR_NESTING_NOT_ALLOWED *), STATUS_UNSUCCESSFUL);
  (230 (* ERROR_BAD_PIPE *), STATUS_INVALID_PIPE_STATE);
  (231 (* ERROR_PIPE_BUSY *), STATUS_PIPE_BUSY);
  (232 (* ERROR_NO_DATA *), STATUS_PIPE_EMPTY);
  (233 (* ERROR_PIPE_NOT_CONNECTED *), STATUS_PIPE_DISCONNECTED);
  (234 (* ERROR_MORE_DATA *), STATUS_BUFFER_OVERFLOW);
  (254 (* ERROR_INVALID_EA_NAME *), STATUS_INVALID_EA_NAME);
  (255 (* ERROR_EA_LIST_INCONSISTENT *), STATUS_EA_LIST_INCONSISTENT);
  (259 (* ERROR_NO_MORE_ITEMS *), STATUS_NO_MORE_ENTRIES);
  (266 (* ERROR_CANNOT_COPY *), STATUS_UNSUCCESSFUL);
  (267 (* ERROR_DIRECTORY *), STATUS_NOT_A_DIRECTORY);
  (275 (* ERROR_EAS_DIDNT_FIT *), STATUS_EA_TOO_LARGE);
  (276 (* ERROR_EA_FILE_CORRUPT *), STATUS_EA_CORRUPT_ERROR);
  (277 (* ERROR_EA_TABLE_FULL *), STATUS_EA_TOO_LARGE);
  (278 (* ERROR_INVALID_EA_HANDLE *), STATUS_INVALID_HANDLE);
  (282 (* ERROR_EAS_NOT_SUPPORTED *), STATUS_EAS_NOT_SUPPORTED);
  (288 (* ERROR_NOT_OWNER *), STATUS_RESOURCE_NOT_OWNED);
  (298 (* ERROR_TOO_MANY_POSTS *), STATUS_TOO_MANY_COMMANDS);
  (317 (* ERROR_MR_MID_NOT_FOUND *), STATUS_MESSAGE_NOT_FOUND);
  (358 (* ERROR_CLOUD_FILE_SYNC_ROOT_METADATA_CORRUPT *), STATUS_CLOUD_FILE_SYNC_ROOT_METADATA_CORRUPT);
  (362 (* ERROR_CLOUD_FILE_PROVIDER_NOT_RUNNING *), STATUS_CLOUD_FILE_PROVIDER_NOT_RUNNING);
  (363 (* ERROR_CLOUD_FILE_METADATA_CORRUPT *), STATUS_CLOUD_FILE_METADATA_CORRUPT);
  (364 (* ERROR_CLOUD_FILE_METADATA_TOO_LARGE *), STATUS_CLOUD_FILE_METADATA_TOO_LARGE);
  (365 (* ERROR_CLOUD_FILE_PROPERTY_BLOB_TOO_LARGE *), STATUS_CLOUD_FILE_PROPERTY_BLOB_TOO_LARGE);
  (366 (* ERROR_CLOUD_FILE_PROPERTY_BLOB_CHECKSUM_MISMATCH *), STATUS_CLOUD_FILE_PROPERTY_BLOB_CHECKSUM_MISMATCH);
  (374 (* ERROR_CLOUD_FILE_TOO_MANY_PROPERTY_BLOBS *), STATUS_CLOUD_FILE_TOO_MANY_PROPERTY_BLOBS);
  (375 (* ERROR_CLOUD_FILE_PROPERTY_VERSION_NOT_SUPPORTED *), STATUS_CLOUD_FILE_PROPERTY_VERSION_NOT_SUPPORTED);
  (376 (* ERROR_NOT_A_CLOUD_FILE *), STATUS_NOT_A_CLOUD_FILE);
  (377 (* ERROR_CLOUD_FILE_NOT_IN_SYNC *), STATUS_CLOUD_FILE_NOT_IN_SYNC);
  (378 (* ERROR_CLOUD_FILE_ALREADY_CONNECTED *), STATUS_CLOUD_FILE_ALREADY_CONNECTED);
  (379 (* ERROR_CLOUD_FILE_NOT_SUPPORTED *), STATUS_CLOUD_FILE_NOT_SUPPORTED);
  (380 (* ERROR_CLOUD_FILE_INVALID_REQUEST *), STATUS_CLOUD_FILE_INVALID_REQUEST);
  (381 (* ERROR_CLOUD_FILE_READ_ONLY_VOLUME *), STATUS_CLOUD_FILE_READ_ONLY_VOLUME);
  (382 (* ERROR_CLOUD_FILE_CONNECTED_PROVIDER_ONLY *), STATUS_CLOUD_FILE_CONNECTED_PROVIDER_ONLY);
  (383 (* ERROR_CLOUD_FILE_VALIDATION_FAILED *), STATUS_CLOUD_FILE_VALIDATION_FAILED);
  (386 (* ERROR_CLOUD_FILE_AUTHENTICATION_FAILED *), STATUS_CLOUD_FILE_AUTHENTICATION_FAILED);
  (387 (* ERROR_CLOUD_FILE_INSUFFICIENT_RESOURCES *), STATUS_CLOUD_FILE_INSUFFICIENT_RESOURCES);
  (388 (* ERROR_CLOUD_FILE_NETWORK_UNAVAILABLE *), STATUS_CLOUD_FILE_NETWORK_UNAVAILABLE);
  (389 (* ERROR_CLOUD_FILE_UNSUCCESSFUL *), STATUS_CLOUD_FILE_UNSUCCESSFUL);
  (390 (* ERROR_CLOUD_FILE_NOT_UNDER_SYNC_ROOT *), STATUS_CLOUD_FILE_NOT_UNDER_SYNC_ROOT);
  (391 (* ERROR_CLOUD_FILE_IN_USE *), STATUS_CLOUD_FILE_IN_USE);
  (392 (* ERROR_CLOUD_FILE_PINNED *), STATUS_CLOUD_FILE_PINNED);
  (393 (* ERROR_CLOUD_FILE_REQUEST_ABORTED *), STATUS_CLOUD_FILE_REQUEST_ABORTED);
  (394 (* ERROR_CLOUD_FILE_PROPERTY_CORRUPT *), STATUS_CLOUD_FILE_PROPERTY_CORRUPT);
  (395 (* ERROR_CLOUD_FILE_ACCESS_DENIED *), STATUS_CLOUD_FILE_ACCESS_DENIED);
  (396 (* ERROR_CLOUD_FILE_INCOMPATIBLE_HARDLINKS *), STATUS_CLOUD_FILE_INCOMPATIBLE_HARDLINKS);
  (397 (* ERROR_CLOUD_FILE_PROPERTY_LOCK_CONFLICT *), STATUS_CLOUD_FILE_PROPERTY_LOCK_CONFLICT);
  (398 (* ERROR_CLOUD_FILE_REQUEST_CANCELED *), STATUS_CLOUD_FILE_REQUEST_CANCELED);
  (404 (* ERROR_CLOUD_FILE_PROVIDER_TERMINATED *), STATUS_CLOUD_FILE_PROVIDER_TERMINATED);
  (405 (* ERROR_NOT_A_CLOUD_SYNC_ROOT *), STATUS_NOT_A_CLOUD_SYNC_ROOT);
  (426 (* ERROR_CLOUD_FILE_REQUEST_TIMEOUT *), STATUS_CLOUD_FILE_REQUEST_TIMEOUT);
  (434 (* ERROR_CLOUD_FILE_DEHYDRATION_DISALLOWED *), STATUS_CLOUD_FILE_DEHYDRATION_DISALLOWED);
  (475 (* ERROR_CLOUD_FILE_US_MESSAGE_TIMEOUT *), STATUS_CLOUD_FILE_US_MESSAGE_TIMEOUT);
  (487 (* ERROR_INVALID_ADDRESS *), STATUS_INVALID_ADDRESS);
  (534 (* ERROR_ARITHMETIC_OVERFLOW *), STATUS_INTEGER_OVERFLOW);
  (535 (* ERROR_PIPE_CONNECTED *), STATUS_PIPE_CONNECTED);
  (536 (* ERROR_PIPE_LISTENING *), STATUS_PIPE_LISTENING);
  (994 (* ERROR_EA_ACCESS_DENIED *), STATUS_ACCESS_DENIED);
  (995 (* ERROR_OPERATION_ABORTED *), STATUS_CANCELLED);
  (996 (* ERROR_IO_INCOMPLETE *), STATUS_MORE_PROCESSING_REQUIRED);
  (997 (* ERROR_IO_PENDING *), STATUS_PENDING);
  (998 (* ERROR_NOACCESS *), STATUS_ACCESS_VIOLATION);
  (999 (* ERROR_SWAPERROR *), STATUS_IN_PAGE_ERROR);
  (1001 (* ERROR_STACK_OVERFLOW *), STATUS_STACK_OVERFLOW);
  (1002 (* ERROR_INVALID_MESSAGE *), STATUS_INVALID_SYSTEM_SERVICE);
  (1003 (* ERROR_CAN_NOT_COMPLETE *), STATUS_UNSUCCESSFUL);
  (1004 (* ERROR_INVALID_FLAGS *), STATUS_INVALID_PARAMETER);
  (1005 (* ERROR_UNRECOGNIZED_VOLUME *), STATUS_UNRECOGNIZED_VOLUME);
  (1006 (* ERROR_FILE_INVALID *), STATUS_FILE_INVALID);
  (122 (* ERROR_INSUFFICIENT_BUFFER *), STATUS_BUFFER_TOO_SMALL);
  (1200 (* ERROR_BAD_DEVICE *), STATUS_DEVICE_DOES_NOT_EXIST);
  (1223 (* ERROR_CANCELLED *), STATUS_CANCELLED);
  (1617 (* ERROR_DEVICE_REMOVED *), STATUS_DEVICE_REMOVED);
  (1460 (* ERROR_TIMEOUT *), STATUS_IO_TIMEOUT);
  (1168 (* ERROR_NOT_FOUND *), STATUS_NOT_FOUND);
  (1167 (* ERROR_DEVICE_NOT_CONNECTED *), STATUS_DEVICE_NOT_CONNECTED);
  (4390 (* ERROR_NOT_A_REPARSE_POINT *), STATUS_NOT_A_REPARSE_POINT);
  (4392 (* ERROR_INVALID_REPARSE_DATA *), STATUS_IO_REPARSE_DATA_INVALID);
  (4393 (* ERROR_REPARSE_TAG_INVALID *), STATUS_IO_REPARSE_TAG_INVALID);
  (4394 (* ERROR_REPARSE_TAG_MISMATCH *), STATUS_IO_REPARSE_TAG_MISMATCH);
  (1920 (* ERROR_CANT_ACCESS_FILE *), STATUS_IO_REPARSE_TAG_NOT_HANDLED)
].

Fixpoint find_case (cases : list (Z * NTSTATUS)) (e : Z) : NTSTATUS :=
  match cases with
  | [] => STATUS_UNSUCCESSFUL
  | (x, s) :: cases' => if e =? x then s else find_case cases' e
  end.

Definition NtStatusFromWin32 (win32Error : Z) : NTSTATUS := find_case win32_cases win32Error.

Definition StatusFromWin32Error (err fallback : Z) : NTSTATUS :=
  NtStatusFromWin32 (if err =? 0 then fallback else err).

(** A Win32 result with its error as a status. *)
Definition nt_of_w32 {A} (r : w32 A) : nt A :=
  match r with Ok a => Ok a | Err e => Err (NtStatusFromWin32 e) end.

Lemma find_case_success cases e :
  NT_SUCCESS (find_case cases e) = true -> exists s, (e, s) ∈ cases /\ NT_SUCCESS s = true.
Proof.
  induction cases as [|[x s] cases IH]; cbn; [done|].
  destruct (Z.eqb_spec e x) as [->|Hne].
  - intros H. exists s. split; [left|done].
  - intros (s' & Hin & Hs)%IH. exists s'. split; [by right|done].
Qed.

Lemma NtStatusFromWin32_success x : NT_SUCCESS (NtStatusFromWin32 x) = true <-> x = 0 \/ x = 997.
Proof.
  split; [|by intros [->| ->]]. intros (s & Hin & Hs)%find_case_success.
  assert (HF : Forall (fun c => NT_SUCCESS (snd c) = true -> fst c = 0 \/ fst c = 997) win32_cases).
  { apply (bool_decide_unpack _). vm_compute. exact I. }
  rewrite Forall_forall in HF. exact (HF _ Hin Hs).
Qed.

Lemma NtStatusFromWin32_SUCCESS x : NtStatusFromWin32 x = STATUS_SUCCESS <-> x = 0.
Proof.
  split; [|by intros ->]. intros H.
  assert (NT_SUCCESS (NtStatusFromWin32 x) = true) as [| ->]%NtStatusFromWin32_success by (by rewrite H); [done|].
  by vm_compute in H.
Qed.

(** An error of a failed call never turns into success, apart from
    [ERROR_IO_PENDING]: every other non-zero Win32 error, mapped or not, gives
    a failure status, and [StatusFromWin32Error] with a failing fallback
    never reports success for a call that left the last error at zero. *)
Theorem NtStatusFromWin32_failure e :
  (NT_SUCCESS (NtStatusFromWin32 e) = true <-> e = 0 \/ e = 997) /\
  (forall fallback, fallback <> 0 -> fallback <> 997 -> e <> 997 ->
     NT_SUCCESS (StatusFromWin32Error e fallback) = false).
Proof.
  split; [apply NtStatusFromWin32_success|]. intros fb Hf0 Hf Hp. unfold StatusFromWin32Error.
  apply not_true_iff_false. rewrite NtStatusFromWin32_success. destruct (Z.eqb_spec e 0); lia.
Qed.

Lemma NtStatusFromWin32_failure_witness :
  NT_SUCCESS (StatusFromWin32Error 0 ERROR_WRITE_FAULT) = false.
Proof. apply (proj2 (NtStatusFromWin32_failure 0)); done. Defined.
