(* ===== verification/Metadata.v ===== *)
(** * The metadata of an entry, and its two stores

    [MetadataStore.cpp] keeps a record on the entry's [:overlay] stream, or,
    on a host without streams, in a sidecar file that [SidecarMetadata.cpp]
    keys by the SHA-1 of the entry's path.  The JSON text of a record is
    nlohmann's; its parser and printer are the class [Json]. *)
From S2P Require Export PathFacts NtStatus.
From stdpp Require Export pretty.
Open Scope Z_scope.

(** [%0<width>u]: a decimal number with at least [width] digits. *)
Definition padded (width : nat) (n : Z) : wstring :=
  let digits := L (pretty n) in replicate (width - length digits) 48 ++ digits.

(** ** Configuration *)

Record LayerConfig := {
  upperPath : wstring;
  lowerPaths : list wstring;
  workDirPath : wstring;
  hostCapabilities : Z
}.

Definition LM_CAP_ADS : Z := 0x1.
Definition LM_CAP_SPARSE_FILES : Z := 0x4.
Definition LM_CAP_MULTIPLE_STREAMS : Z := 0x8.
Definition LM_CAP_NTFS_ACLS : Z := 0x10.
Definition LM_CAP_CASE_SENSITIVE : Z := 0x20.

Definition HasAds (bits : Z) : bool := negb (Z.land bits LM_CAP_ADS =? 0).
Definition HasSparseFiles (bits : Z) : bool := negb (Z.land bits LM_CAP_SPARSE_FILES =? 0).
Definition HasMultipleStreams (bits : Z) : bool := negb (Z.land bits LM_CAP_MULTIPLE_STREAMS =? 0).
Definition HasNtfsAcls (bits : Z) : bool := negb (Z.land bits LM_CAP_NTFS_ACLS =? 0).
Definition IsCaseSensitive (bits : Z) : bool := negb (Z.land bits LM_CAP_CASE_SENSITIVE =? 0).

(** A null config is [None]. *)
Definition UseSidecarFor (config : option LayerConfig) : bool :=
  match config with
  | None => false
  | Some c => negb (HasAds (hostCapabilities c))
  end.

(** ** The record *)

Record LayerMountMetadata := {
  opaque : bool;
  metacopy : bool;
  redirect : wstring;
  copyUpTimestamp : FILETIME;
  originLayer : wstring;
  hasStableIndexNumber : bool;
  stableIndexNumber : Z
}.

#[export] Instance metadata_eq_dec : EqDecision LayerMountMetadata.
Proof. solve_decision. Defined.

Definition default_metadata : LayerMountMetadata := {|
  opaque := false; metacopy := false; redirect := []; copyUpTimestamp := FileTime 0 0;
  originLayer := []; hasStableIndexNumber := false; stableIndexNumber := 0
|}.

Definition IsDefaultMetadata (m : LayerMountMetadata) : bool :=
  negb (opaque m) && negb (metacopy m) && bool_decide (redirect m = []) &&
  (dwLowDateTime (copyUpTimestamp m) =? 0) && (dwHighDateTime (copyUpTimestamp m) =? 0) &&
  bool_decide (originLayer m = []) && negb (hasStableIndexNumber m) && (stableIndexNumber m =? 0).

Definition FileTimeToUint64 (ft : FILETIME) : Z :=
  Z.lor (Z.shiftl (dwHighDateTime ft) 32) (dwLowDateTime ft).

Definition Uint64ToFileTime (val : Z) : FILETIME :=
  FileTime (Z.land val 0xFFFFFFFF) (Z.shiftr val 32).

(** ** JSON values, with a text parser and printer that are the library's

    The library keeps the fields of an object in the order of their keys. *)

Inductive json : Type :=
| JNull
| JBool (b : bool)
| JUnsigned (n : Z)
| JInteger (n : Z)
| JFloat (as_unsigned : Z)
| JString (s : list Z)
| JArray (l : list json)
| JObject (fields : list (string * json)).

Class Json := {
  (** [None] when [parse] throws. *)
  json_parse : list Z -> option json;
  json_dump : json -> list Z
}.

Section Conversions.
Context `{W : Win32}.

Definition WideToUtf8 (wide : wstring) : list Z :=
  if bool_decide (wide = []) then [] else default [] (WideCharToMultiByte wide).

Definition Utf8ToWide (utf8 : list Z) : wstring :=
  if bool_decide (utf8 = []) then [] else default [] (MultiByteToWideChar utf8).

Definition MetadataToJson (m : LayerMountMetadata) : json :=
  JObject [("copyUpTimestamp", JUnsigned (FileTimeToUint64 (copyUpTimestamp m)));
           ("hasStableIndexNumber", JBool (hasStableIndexNumber m));
           ("metacopy", JBool (metacopy m));
           ("opaque", JBool (opaque m));
           ("originLayer", JString (WideToUtf8 (originLayer m)));
           ("redirect", JString (WideToUtf8 (redirect m)));
           ("stableIndexNumber", JUnsigned (stableIndexNumber m))]%string.

(** [j.value(key, default)]: throws on a value that is no object and on a
    field of another type. *)
Definition json_field (j : json) (key : string) : option (option json) :=
  match j with
  | JObject fields => Some (snd <$> find (fun f => String.eqb (fst f) key) fields)
  | _ => None
  end.

Definition value_bool (j : json) (key : string) (dflt : bool) : option bool :=
  match json_field j key with
  | None => None
  | Some None => Some dflt
  | Some (Some (JBool b)) => Some b
  | Some (Some _) => None
  end.

Definition value_string (j : json) (key : string) : option (list Z) :=
  match json_field j key with
  | None => None
  | Some None => Some []
  | Some (Some (JString s)) => Some s
  | Some (Some _) => None
  end.

Definition value_uint64 (j : json) (key : string) : option Z :=
  match json_field j key with
  | None => None
  | Some None => Some 0
  | Some (Some (JUnsigned n)) => Some n
  | Some (Some (JInteger n)) => Some (n mod 2 ^ 64)
  | Some (Some (JFloat n)) => Some n
  | Some (Some _) => None
  end.

(** [None] when a read throws. *)
Definition JsonToMetadata (j : json) : option LayerMountMetadata :=
  match value_bool j "opaque" false with None => None | Some opq =>
  match value_bool j "metacopy" false with None => None | Some meta =>
  match value_string j "redirect" with None => None | Some redir =>
  match value_uint64 j "copyUpTimestamp" with None => None | Some stamp =>
  match value_string j "originLayer" with None => None | Some origin =>
  match value_bool j "hasStableIndexNumber" false with None => None | Some has =>
  match value_uint64 j "stableIndexNumber" with None => None | Some index =>
    Some {| opaque := opq; metacopy := meta; redirect := Utf8ToWide redir;
            copyUpTimestamp := Uint64ToFileTime stamp; originLayer := Utf8ToWide origin;
            hasStableIndexNumber := has; stableIndexNumber := index |}
  end end end end end end end.
End Conversions.

(** ** The sidecar store *)

Definition kMetaSuffix : wstring := L ".meta.json".
Definition kOpaqueSuffix : wstring := L ".opaque".

Definition hex_digit (n : Z) : Z := if n <? 10 then 48 + n else 87 + n.

Definition IsNotFoundError (error : Z) : bool :=
  (error =? ERROR_FILE_NOT_FOUND) || (error =? ERROR_PATH_NOT_FOUND).

Section Sidecar.
Context `{W : Win32} `{J : Json}.

Definition Sha1Hex (data : list Z) : wstring :=
  match bcrypt_sha1 data with
  | None => []
  | Some digest =>
      flat_map (fun b => [hex_digit (Z.land (Z.shiftr b 4) 0xF); hex_digit (Z.land b 0xF)]) digest
  end.

Definition win32Directory (upperRoot : wstring) : wstring :=
  JoinDirPath (WithExtendedPrefix upperRoot) kSidecarDirName.

Definition BaseOf (upperRoot entryPath : wstring) : option wstring :=
  let hash := Sha1Hex (WideToUtf8 (CharLowerBuffW entryPath)) in
  if bool_decide (hash = []) then None else Some (win32Directory upperRoot ++ ch_bsl :: hash).

Definition FileOf (upperRoot entryPath suffix : wstring) : option wstring :=
  match BaseOf upperRoot entryPath with
  | None => None
  | Some base => Some (base ++ suffix)
  end.

Definition EnsureDirectory (upperRoot : wstring) : eff disk bool :=
  (let! r := create_directories (win32Directory upperRoot) in eret (is_ok r))%eff.

Definition SidecarRead (d : disk) (upperRoot filePath : wstring) : LayerMountMetadata :=
  match FileOf upperRoot filePath kMetaSuffix with
  | None => default_metadata
  | Some path =>
      match OpenExistingW d path GENERIC_READ FILE_ATTRIBUTE_NORMAL with
      | Err _ => default_metadata
      | Ok h =>
          match GetFileSizeEx d h with
          | Err _ => default_metadata
          | Ok size =>
              if size =? 0 then default_metadata
              else if 0xFFFFFFFF <? size then default_metadata
              else match ReadFileStart d h size with
              | Err _ => default_metadata
              | Ok [] => default_metadata
              | Ok buffer =>
                  default default_metadata
                    (match json_parse buffer with
                     | Some j => JsonToMetadata j
                     | None => None
                     end)
              end
          end
      end
  end.

(** The suffix of a temporary file: [".tmp." pid "." tid]. *)
Definition temp_suffix (pid tid : Z) : wstring :=
  L ".tmp." ++ L (pretty pid) ++ L "." ++ L (pretty tid).

Definition SidecarWrite (pid tid : Z) (upperRoot filePath : wstring) (metadata : LayerMountMetadata)
  : eff disk bool :=
  (let! made := EnsureDirectory upperRoot in
   if negb made then eret false
   else match FileOf upperRoot filePath kMetaSuffix with
   | None => eret false
   | Some path =>
       let tempPath := path ++ temp_suffix pid tid in
       let! created := CreateAlwaysW tempPath FILE_ATTRIBUTE_NORMAL in
       match created with
       | Err _ => eret false
       | Ok h =>
           let text := json_dump (MetadataToJson metadata) in
           let! written := WriteFile h text in
           if negb (bool_decide (written = Ok (Z.of_nat (length text)))) then
             do! DeleteFileW tempPath in eret false
           else
             let! moved := MoveFileExW tempPath path
                             (Z.lor MOVEFILE_REPLACE_EXISTING MOVEFILE_WRITE_THROUGH) in
             if is_ok moved then eret true
             else do! DeleteFileW tempPath in eret false
       end
   end)%eff.

Definition SidecarRemove (upperRoot filePath : wstring) : eff disk bool :=
  (match FileOf upperRoot filePath kMetaSuffix with
   | None => eret true
   | Some file =>
       let! r := DeleteFileW file in
       eret match r with Ok _ => true | Err e => e =? ERROR_FILE_NOT_FOUND end
   end)%eff.

(** [ERROR_SUCCESS], or the error of the failed move or delete. *)
Definition MoveRecordFile (from to : wstring) : eff disk Z :=
  (let! moved := MoveFileExW from to (Z.lor MOVEFILE_REPLACE_EXISTING MOVEFILE_WRITE_THROUGH) in
   match moved with
   | Ok _ => eret ERROR_SUCCESS
   | Err moveErr =>
       if negb (IsNotFoundError moveErr) then eret moveErr
       else
         let! deleted := DeleteFileW to in
         match deleted with
         | Ok _ => eret ERROR_SUCCESS
         | Err deleteErr => eret (if IsNotFoundError deleteErr then ERROR_SUCCESS else deleteErr)
         end
   end)%eff.

Definition SidecarMove (upperRoot fromPath toPath : wstring) : eff disk NTSTATUS :=
  (match BaseOf upperRoot fromPath, BaseOf upperRoot toPath with
   | Some fromBase, Some toBase =>
       if bool_decide (fromBase = toBase) then eret STATUS_SUCCESS
       else
         let! metaErr := MoveRecordFile (fromBase ++ kMetaSuffix) (toBase ++ kMetaSuffix) in
         if negb (metaErr =? ERROR_SUCCESS) then eret (NtStatusFromWin32 metaErr)
         else
           let! opaqueErr := MoveRecordFile (fromBase ++ kOpaqueSuffix) (toBase ++ kOpaqueSuffix) in
           if negb (opaqueErr =? ERROR_SUCCESS) then
             do! MoveRecordFile (toBase ++ kMetaSuffix) (fromBase ++ kMetaSuffix) in
             eret (NtStatusFromWin32 opaqueErr)
           else eret STATUS_SUCCESS
   | _, _ => eret STATUS_SUCCESS
   end)%eff.

Definition HasFile (d : disk) (file : option wstring) : bool :=
  match file with Some f => is_ok (GetFileAttributesW d f) | None => false end.

Definition SidecarHasRecord (d : disk) (upperRoot filePath : wstring) : bool :=
  HasFile d (FileOf upperRoot filePath kMetaSuffix).

Definition SidecarHasOpaque (d : disk) (upperRoot dirPath : wstring) : bool :=
  HasFile d (FileOf upperRoot dirPath kOpaqueSuffix).

Definition SidecarSetOpaque (upperRoot dirPath : wstring) : eff disk bool :=
  (let! made := EnsureDirectory upperRoot in
   if negb made then eret false
   else match FileOf upperRoot dirPath kOpaqueSuffix with
   | None => eret false
   | Some file => let! r := CreateAlwaysW file FILE_ATTRIBUTE_NORMAL in eret (is_ok r)
   end)%eff.

Definition SidecarRemoveOpaque (upperRoot dirPath : wstring) : eff disk bool :=
  (match FileOf upperRoot dirPath kOpaqueSuffix with
   | None => eret true
   | Some file =>
       let! r := DeleteFileW file in
       eret match r with Ok _ => true | Err e => IsNotFoundError e end
   end)%eff.
End Sidecar.

(** ** The stream store, and the choice between the stores *)

Section Store.
Context `{W : Win32} `{J : Json}.

Definition OpenAdsForRead (d : disk) (adsPath : wstring) (desiredAccess : Z) : w32 handle :=
  OpenExistingW d adsPath desiredAccess
    (Z.lor FILE_ATTRIBUTE_NORMAL (Z.lor FILE_FLAG_BACKUP_SEMANTICS FILE_FLAG_OPEN_REPARSE_POINT)).

(** The access-time mark goes on the handle, so the disk does not change. *)
Definition OpenAdsForReadWithAccessTimeKeptWhereAllowed (d : disk) (adsPath : wstring) : w32 handle :=
  match OpenAdsForRead d adsPath (Z.lor GENERIC_READ FILE_WRITE_ATTRIBUTES) with
  | Ok h => Ok h
  | Err err =>
      if (err =? ERROR_FILE_NOT_FOUND) || (err =? ERROR_PATH_NOT_FOUND) then Err err
      else OpenAdsForRead d adsPath GENERIC_READ
  end.

(** The record, and whether the stream is corrupted. *)
Definition ReadAdsOnly (d : disk) (filePath : wstring) : LayerMountMetadata * bool :=
  let adsPath := ExtendedStreamPath filePath kLayerMountADSStream in
  match OpenAdsForReadWithAccessTimeKeptWhereAllowed d adsPath with
  | Err err =>
      (default_metadata, negb (err =? ERROR_FILE_NOT_FOUND) && negb (err =? ERROR_PATH_NOT_FOUND))
  | Ok h =>
      match GetFileSizeEx d h with
      | Err _ => (default_metadata, true)
      | Ok size =>
          if size =? 0 then (default_metadata, false)
          else if 0xFFFFFFFF <? size then (default_metadata, true)
          else match ReadFileStart d h size with
          | Err _ => (default_metadata, true)
          | Ok [] => (default_metadata, true)
          | Ok buffer =>
              match json_parse buffer with
              | None => (default_metadata, true)
              | Some j =>
                  match JsonToMetadata j with
                  | None => (default_metadata, true)
                  | Some m => (m, false)
                  end
              end
          end
      end
  end.

Definition WriteAdsOnly (filePath : wstring) (metadata : LayerMountMetadata) : eff disk bool :=
  (let adsPath := ExtendedStreamPath filePath kLayerMountADSStream in
   let! created := CreateAlwaysW adsPath
     (Z.lor FILE_ATTRIBUTE_NORMAL (Z.lor FILE_FLAG_BACKUP_SEMANTICS FILE_FLAG_OPEN_REPARSE_POINT)) in
   match created with
   | Err _ => eret false
   | Ok h =>
       let text := json_dump (MetadataToJson metadata) in
       let! written := WriteFile h text in
       eret (bool_decide (written = Ok (Z.of_nat (length text))))
   end)%eff.

Definition RemoveAdsOnly (filePath : wstring) : eff disk bool :=
  (let! r := DeleteFileW (ExtendedStreamPath filePath kLayerMountADSStream) in
   eret match r with Ok _ => true | Err e => e =? ERROR_FILE_NOT_FOUND end)%eff.

Definition HasOpaqueAdsOnly (d : disk) (directoryPath : wstring) : bool :=
  is_ok (GetFileAttributesW d (ExtendedStreamPath directoryPath kOpaqueADSStream)).

Definition SetOpaqueAdsOnly (directoryPath : wstring) : eff disk bool :=
  (let! created := CreateAlwaysW (ExtendedStreamPath directoryPath kOpaqueADSStream)
     (Z.lor FILE_ATTRIBUTE_NORMAL FILE_FLAG_OPEN_REPARSE_POINT) in
   match created with
   | Err _ => eret false
   | Ok h =>
       let! written := WriteFile h (L "y") in
       eret (bool_decide (written = Ok 1))
   end)%eff.

Definition RemoveOpaqueAdsOnly (directoryPath : wstring) : eff disk bool :=
  (let! r := DeleteFileW (ExtendedStreamPath directoryPath kOpaqueADSStream) in
   eret match r with
        | Ok _ => true
        | Err err => (err =? ERROR_FILE_NOT_FOUND) || (err =? ERROR_PATH_NOT_FOUND)
        end)%eff.

Definition ReadLayerMountMetadata (d : disk) (filePath : wstring) (config : option LayerConfig)
  : LayerMountMetadata :=
  let (fromAds, adsCorrupted) := ReadAdsOnly d filePath in
  if adsCorrupted && negb (UseSidecarFor config) then fromAds
  else match config with
  | None => fromAds
  | Some c =>
      if negb (IsDefaultMetadata fromAds) then fromAds
      else SidecarRead d (upperPath c) filePath
  end.

Definition WriteLayerMountMetadata (pid tid : Z) (filePath : wstring) (metadata : LayerMountMetadata)
    (config : option LayerConfig) : eff disk bool :=
  match config with
  | Some c =>
      if UseSidecarFor config then SidecarWrite pid tid (upperPath c) filePath metadata
      else WriteAdsOnly filePath metadata
  | None => WriteAdsOnly filePath metadata
  end.

Definition RemoveLayerMountMetadata (filePath : wstring) (config : option LayerConfig) : eff disk bool :=
  (let! adsOk := RemoveAdsOnly filePath in
   match config with
   | None => eret adsOk
   | Some c =>
       let! sidecarOk := SidecarRemove (upperPath c) filePath in
       eret (adsOk && sidecarOk)
   end)%eff.

Definition HasOpaqueMetadata (d : disk) (directoryPath : wstring) (config : option LayerConfig) : bool :=
  if HasOpaqueAdsOnly d directoryPath then true
  else match config with
  | None => false
  | Some c => SidecarHasOpaque d (upperPath c) directoryPath
  end.

Definition SetOpaqueMetadata (directoryPath : wstring) (config : option LayerConfig) : eff disk bool :=
  match config with
  | Some c =>
      if UseSidecarFor config then SidecarSetOpaque (upperPath c) directoryPath
      else SetOpaqueAdsOnly directoryPath
  | None => SetOpaqueAdsOnly directoryPath
  end.

Definition RemoveOpaqueMetadata (directoryPath : wstring) (config : option LayerConfig) : eff disk bool :=
  (let! adsOk := RemoveOpaqueAdsOnly directoryPath in
   match config with
   | None => eret adsOk
   | Some c =>
       let! sidecarOk := SidecarRemoveOpaque (upperPath c) directoryPath in
       eret (adsOk && sidecarOk)
   end)%eff.
End Store.
