(* ===== verification/DiskLaws.v ===== *)
(** * Documented behaviour of the file calls

    What the engine relies on of the Win32 calls that change a disk, as a law
    class over the interface of [Win32.v], and its instance for the concrete
    volume. *)

From S2P Require Export Metadata.
Open Scope Z_scope.

(** An entry or a stream whose attributes can be read. *)
Definition visible `{W : Win32} (d : disk) (p : wstring) : Prop := is_ok (GetFileAttributesW d p) = true.

(** A call that hides no entry. *)
Definition keeps `{W : Win32} {A} (m : eff disk A) : Prop := forall d q, visible d q -> visible (fst (m d)) q.

(** A file that holds [data]: a handle that an open for a read gives has this
    size and reads this text.  An open can be refused, the more so one that
    asks for more than a read, but never because there is no such file. *)
Definition stored `{W : Win32} (d : disk) (p : wstring) (data : list Z) : Prop :=
  (forall access flags h, has_attr access GENERIC_READ = true -> OpenExistingW d p access flags = Ok h ->
     GetFileSizeEx d h = Ok (Z.of_nat (length data)) /\ ReadFileStart d h (Z.of_nat (length data)) = Ok data) /\
  (forall access flags e, OpenExistingW d p access flags = Err e ->
     e <> ERROR_FILE_NOT_FOUND /\ e <> ERROR_PATH_NOT_FOUND).

Class DiskLaws `{W : Win32} := {
  create_visible p flags d d' h : CreateAlwaysW p flags d = (d', Ok h) -> visible d' p;
  create_error p flags d d' e : CreateAlwaysW p flags d = (d', Err e) -> e <> ERROR_SUCCESS;
  create_keeps p flags : keeps (CreateAlwaysW p flags);
  write_keeps h data : keeps (WriteFile h data);
  set_time_keeps h t : keeps (SetFileTime h t);
  directories_keep p : keeps (create_directories p);
  (** After a write of every byte to a file that [CreateAlwaysW] just opened,
      the file holds these bytes. *)
  write_stored p flags d d1 h data d2 :
    CreateAlwaysW p flags d = (d1, Ok h) ->
    WriteFile h data d1 = (d2, Ok (Z.of_nat (length data))) -> stored d2 p data;
  move_stored from to flags d d' data :
    has_attr flags MOVEFILE_REPLACE_EXISTING = true -> CharLowerBuffW from <> CharLowerBuffW to ->
    MoveFileExW from to flags d = (d', Ok tt) -> stored d from data -> stored d' to data;
  (** A delete that succeeds, or that finds nothing, leaves nothing there; and
      a delete brings nothing back. *)
  delete_gone p d d' r :
    DeleteFileW p d = (d', r) ->
    r = Ok tt \/ r = Err ERROR_FILE_NOT_FOUND \/ r = Err ERROR_PATH_NOT_FOUND -> ~ visible d' p;
  delete_shrinks p d q : visible (fst (DeleteFileW p d)) q -> visible d q
}.

Section Keeps.
Context `{W : Win32}.

Lemma keeps_ret {A} (a : A) : keeps (eret a).
Proof. intros d q H. exact H. Qed.

Lemma keeps_bind {A B} (m : eff disk A) (k : A -> eff disk B) :
  keeps m -> (forall a, keeps (k a)) -> keeps (ebind m k).
Proof. intros Hm Hk d q H. unfold ebind. specialize (Hm d q H). destruct (m d) as [d' a]. by apply Hk. Qed.

Lemma keeps_read {A} (f : disk -> A) : keeps (eread f).
Proof. intros d q H. exact H. Qed.
End Keeps.

#[export] Hint Resolve keeps_ret keeps_read create_keeps write_keeps set_time_keeps directories_keep : layermount.
#[export] Hint Extern 2 (keeps (ebind _ _)) => apply keeps_bind; [|intros ?] : layermount.
#[export] Hint Extern 3 (keeps (match ?x with _ => _ end)) => destruct x : layermount.
#[export] Hint Extern 3 (keeps (let '_ := ?x in _)) => destruct x : layermount.

(** ** The concrete volume *)

Section Mem.
Import MemWin32.

Lemma find_entry_filter (P : wstring -> Prop) `{!forall k, Decision (P k)} (v : list (wstring * mem_entry)) k :
  find_entry (filter (fun pe => P (key (fst pe))) v) k = if decide (P k) then find_entry v k else None.
Proof.
  induction v as [|[p e] v IH]; [by destruct (decide (P k))|]. rewrite filter_cons. cbn [fst find_entry].
  destruct (decide (P (key p))) as [Hp|Hp]; cbn [find_entry]; rewrite IH.
  - case_bool_decide as E; [|done]. rewrite <- E. by rewrite decide_True.
  - case_bool_decide as E; [|done]. rewrite <- E. by rewrite !decide_False.
Qed.

Lemma find_entry_remove (v : volume) p k :
  find_entry (remove_entry v p) k = if decide (k <> key p) then find_entry v k else None.
Proof. exact (find_entry_filter (fun k => k <> key p) v k). Qed.

Lemma find_entry_delete (v : volume) p k :
  find_entry (filter (fun pe => ~ starts_with (key p ++ [ch_colon]) (key (fst pe))) (v : list (wstring * mem_entry))) k =
    if decide (~ starts_with (key p ++ [ch_colon]) k) then find_entry v k else None.
Proof. exact (find_entry_filter (fun k => ~ starts_with (key p ++ [ch_colon]) k) v k). Qed.

Lemma find_entry_put (v : volume) p e k :
  find_entry (put_entry v p e) k = if decide (key p = k) then Some e else find_entry v k.
Proof.
  unfold put_entry. cbn [find_entry]. rewrite find_entry_remove.
  case_bool_decide as E; [by rewrite decide_True|]. rewrite (decide_False (P := key p = k)) by done.
  by rewrite decide_True by congruence.
Qed.

Lemma mem_visible (v : volume) p : visible (W := mem_win32) v p <-> is_Some (find_entry v (key p)).
Proof.
  unfold visible. cbn. unfold field, lookup_entry. destruct (find_entry v (key p)); cbn; by rewrite ?is_Some_alt.
Qed.

(** A volume that refuses the opens with some access masks, as a volume or an
    ACL can; it is [mem_win32] otherwise. *)
Definition refusing_win32 (refuses : Z -> bool) : Win32 := {|
  disk := volume; handle := wstring;
  char_lower := @char_lower mem_win32; char_upper := @char_upper mem_win32;
  GetFullPathNameW := @GetFullPathNameW mem_win32; GetFileAttributesW := @GetFileAttributesW mem_win32;
  GetFileTimes := @GetFileTimes mem_win32;
  OpenExistingW := fun v p access flags =>
    match @OpenExistingW mem_win32 v p access flags with
    | Ok h => if refuses access then Err ERROR_ACCESS_DENIED else Ok h
    | Err e => Err e
    end;
  GetAttributeTag := @GetAttributeTag mem_win32; GetHandleAttributes := @GetHandleAttributes mem_win32;
  GetReparseData := @GetReparseData mem_win32; FindFilesW := @FindFilesW mem_win32;
  GetFileSizeEx := @GetFileSizeEx mem_win32; ReadFileStart := @ReadFileStart mem_win32;
  CreateAlwaysW := @CreateAlwaysW mem_win32; WriteFile := @WriteFile mem_win32;
  SetFileTime := @SetFileTime mem_win32; DeleteFileW := @DeleteFileW mem_win32;
  CreateDirectoryW := @CreateDirectoryW mem_win32; RemoveDirectoryW := @RemoveDirectoryW mem_win32;
  MoveFileExW := @MoveFileExW mem_win32; RenameByHandle := @RenameByHandle mem_win32;
  create_directories := @create_directories mem_win32; remove_all := @remove_all mem_win32;
  WideCharToMultiByte := @WideCharToMultiByte mem_win32; MultiByteToWideChar := @MultiByteToWideChar mem_win32;
  bcrypt_sha1 := @bcrypt_sha1 mem_win32
|}.

Lemma refusing_stored refuses (v : volume) p data :
  stored (W := refusing_win32 refuses) v p data <->
  exists e, find_entry v (key p) = Some e /\
    forall access, has_attr access GENERIC_READ = true -> refuses access = false -> me_data e = data.
Proof.
  unfold stored. cbn. unfold field, lookup_entry. split.
  - intros [Hopen Hfound]. destruct (find_entry v (key p)) as [e|] eqn:E.
    2: { by destruct (Hfound 0 0 ERROR_FILE_NOT_FOUND eq_refl). }
    exists e. split; [done|]. intros access Ha Hr. destruct (Hopen access 0 p Ha) as [Hs Hd]; [by rewrite Hr|].
    rewrite E in Hs, Hd. injection Hs as Hs. injection Hd as Hd.
    rewrite <- Hd. rewrite Nat2Z.id. symmetry. apply take_ge. lia.
  - intros (e & He & Hdata). rewrite He. split.
    + intros access flags h Ha. destruct (refuses access) eqn:Er; [done|]. intros [= <-].
      rewrite He, <- (Hdata access) by done. split; [done|]. f_equal. rewrite Nat2Z.id. by apply take_ge.
    + intros access flags x. case_match; [|done]. by intros [= <-].
Qed.

(** The plain volume refuses nothing. *)
Lemma mem_stored (v : volume) p data :
  stored (W := mem_win32) v p data <-> stored (W := refusing_win32 (fun _ => false)) v p data.
Proof.
  assert (Ho : forall access flags, @OpenExistingW (refusing_win32 (fun _ => false)) v p access flags =
                                    @OpenExistingW mem_win32 v p access flags)
    by (intros access flags; cbn; by destruct (field _ v p)).
  unfold stored. by setoid_rewrite Ho.
Qed.

Lemma delete_entry_sub (v : volume) p k e :
  find_entry (fst (delete_entry p v)) k = Some e -> find_entry v k = Some e.
Proof.
  unfold delete_entry, lookup_entry. destruct (find_entry v (key p)); [|done]. cbn [fst].
  rewrite find_entry_delete. case_decide; [|done]. rewrite find_entry_remove. by case_decide.
Qed.

Lemma find_entry_move (v : volume) from to e :
  key from <> key to -> find_entry v (key from) = Some e ->
  (forall p e', (p, e') ∈ v -> key p <> key to) ->
  find_entry ((fun pe => if at_or_below from (fst pe) then (to ++ drop (length from) (fst pe), snd pe) else pe) <$> v)
    (key to) = Some e.
Proof.
  intros Hne. induction v as [|[p e'] v IH]; cbn [find_entry]; [done|]. rewrite fmap_cons.
  intros He Hto. cbn [fst snd].
  assert (Hrest : forall q e', (q, e') ∈ v -> key q <> key to) by (intros q e2 ?; apply (Hto q e2); by right).
  assert (Hlen : forall a b : wstring, key a = key b -> length a = length b).
  { intros a b E. apply (f_equal length) in E. unfold key in E. by rewrite !length_fmap in E. }
  case_bool_decide as E.
  - injection He as <-. unfold at_or_below. rewrite bool_decide_true by done. cbn [orb find_entry].
    rewrite drop_ge by (rewrite (Hlen _ _ E); lia). rewrite app_nil_r. by rewrite bool_decide_true.
  - specialize (IH He Hrest). destruct (at_or_below from p) eqn:Eb; cbn [find_entry]; rewrite bool_decide_false; try done.
    + intros E2%Hlen. rewrite length_app, length_drop in E2. unfold at_or_below in Eb.
      rewrite (bool_decide_false (key p = key from)) in Eb by done. cbn [orb] in Eb.
      apply orb_true_iff in Eb as [Eb|Eb]; apply starts_with_prefix in Eb as [k Eb];
        apply (f_equal length) in Eb; unfold key in Eb; rewrite !length_app, !length_fmap in Eb; cbn in Eb; lia.
    + apply (Hto p e'). left.
Qed.

Lemma find_entry_None (v : volume) k p e : find_entry v k = None -> (p, e) ∈ v -> key p <> k.
Proof.
  induction v as [|[q f] v IH]; cbn; [by intros _ ?%elem_of_nil|]. case_bool_decide; [done|].
  intros Hn [[= -> ->]|Hin]%elem_of_cons; [done|by apply IH].
Qed.
End Mem.

Lemma refusing_disk_laws refuses : @DiskLaws (refusing_win32 refuses).
Proof.
  split; unfold keeps; intros *; cbn [disk handle CreateAlwaysW WriteFile SetFileTime create_directories
                     MoveFileExW DeleteFileW refusing_win32 mem_win32];
    change (@visible (refusing_win32 refuses)) with (@visible mem_win32).
  - unfold MemWin32.create_always. intros [= <- <-]. apply mem_visible. rewrite find_entry_put. by rewrite decide_True.
  - done.
  - unfold MemWin32.create_always. cbn [fst]. rewrite !mem_visible, find_entry_put. by case_decide.
  - unfold MemWin32.write_file. destruct (MemWin32.lookup_entry d h); cbn [fst]; [|done].
    rewrite !mem_visible, find_entry_put. by case_decide.
  - done.
  - unfold MemWin32.create_dirs. destruct (MemWin32.lookup_entry d p); cbn [fst]; [done|].
    rewrite !mem_visible, find_entry_put. by case_decide.
  - unfold MemWin32.create_always. intros [= <- <-]. unfold MemWin32.write_file, MemWin32.lookup_entry.
    rewrite find_entry_put, decide_True by done. intros [= <-]. apply refusing_stored.
    rewrite find_entry_put, decide_True by done. by eexists.
  - unfold MemWin32.move. intros -> Hne.
    intros Hm (e & He & Hd)%refusing_stored. revert Hm. unfold MemWin32.lookup_entry. rewrite He.
    destruct (MemWin32.find_entry d (MemWin32.key to)) as [e2|] eqn:Eto; intros [= <-];
      apply refusing_stored; exists e; (split; [|done]); apply find_entry_move; try done.
    + by rewrite find_entry_remove, decide_True.
    + intros p e' Hin%list_elem_of_filter. by destruct Hin.
    + intros p e' Hin. by eapply find_entry_None.
  - unfold MemWin32.delete_entry, MemWin32.lookup_entry. destruct (MemWin32.find_entry d (MemWin32.key p)) eqn:E.
    + intros [= <- <-] _. rewrite mem_visible, find_entry_delete, find_entry_remove.
      intros [? H]. case_decide; [|done]. by rewrite decide_False in H by naive_solver.
    + intros [= <- <-] _. by rewrite mem_visible, E.
  - rewrite !mem_visible. intros [e H]. exists e. by apply (delete_entry_sub d p).
Qed.

#[export] Instance mem_disk_laws : @DiskLaws mem_win32.
Proof.
  destruct (refusing_disk_laws (fun _ => false)) as [L1 L2 L3 L4 L5 L6 L7 L8 L9 L10].
  split; try done; intros *; rewrite !mem_stored; [apply L7|apply L8].
Qed.

(** ** What the metadata stores guarantee

    A record survives the JSON text, and a record that was written is the
    record that is read, in either store. *)

Definition is_dword (x : Z) : Prop := 0 <= x < 2 ^ 32.

Definition time_ok (t : FILETIME) : Prop := is_dword (dwLowDateTime t) /\ is_dword (dwHighDateTime t).

Lemma Uint64ToFileTime_ToUint64 t : time_ok t -> Uint64ToFileTime (FileTimeToUint64 t) = t.
Proof.
  intros [Hlo Hhi]. unfold is_dword in *. unfold FileTimeToUint64, Uint64ToFileTime.
  rewrite lor_shiftl_low by lia. change 0xFFFFFFFF with (Z.ones 32).
  rewrite Z.land_ones, Z.shiftr_div_pow2 by lia. destruct t as [lo hi]. cbn [dwLowDateTime dwHighDateTime] in *.
  f_equal.
  - rewrite Z.add_comm, Z.mod_add by lia. apply Z.mod_small. lia.
  - rewrite Z.div_add_l by lia. rewrite (Z.div_small lo) by lia. lia.
Qed.

Section Metadata.
Context `{W : Win32} `{J : Json}.

(** The texts of the record are valid UTF-16, so the conversions to UTF-8 and
    back, documented to be lossless on such text, give them back. *)
Definition utf16_text_ok (s : wstring) : Prop := Utf8ToWide (WideToUtf8 s) = s.

Record record_ok (m : LayerMountMetadata) : Prop := {
  ok_redirect : utf16_text_ok (redirect m);
  ok_origin : utf16_text_ok (originLayer m);
  ok_time : time_ok (copyUpTimestamp m);
  ok_index : 0 <= stableIndexNumber m < 2 ^ 64
}.

Lemma JsonToMetadata_ToJson m : record_ok m -> JsonToMetadata (MetadataToJson m) = Some m.
Proof.
  intros [Hr Ho Ht Hi]. unfold MetadataToJson, JsonToMetadata. unfold value_bool, value_string, value_uint64. cbn.
  rewrite Hr, Ho, Uint64ToFileTime_ToUint64 by done. by destruct m.
Qed.

(** The library parses the text that it printed for the record, which fits
    in a file that the reader accepts. *)
Definition text_ok (m : LayerMountMetadata) : Prop :=
  json_parse (json_dump (MetadataToJson m)) = Some (MetadataToJson m) /\
  0 < Z.of_nat (length (json_dump (MetadataToJson m))) <= 0xFFFFFFFF.

(** The plain read open of a record is not refused: of the stream, with the
    flags of [OpenAdsForRead], and of a sidecar. *)
Definition stream_opens (d : disk) (path : wstring) : Prop :=
  is_ok (OpenAdsForRead d (ExtendedStreamPath path kLayerMountADSStream) GENERIC_READ) = true.

Definition sidecar_opens (d : disk) (root path : wstring) : Prop :=
  forall file, FileOf root path kMetaSuffix = Some file ->
    is_ok (OpenExistingW d file GENERIC_READ FILE_ATTRIBUTE_NORMAL) = true.

(** The open that keeps the access time, or the plain one after its refusal. *)
Lemma stored_stream_open d path data :
  stream_opens d path -> stored d (ExtendedStreamPath path kLayerMountADSStream) data ->
  exists h, OpenAdsForReadWithAccessTimeKeptWhereAllowed d (ExtendedStreamPath path kLayerMountADSStream) = Ok h /\
    GetFileSizeEx d h = Ok (Z.of_nat (length data)) /\ ReadFileStart d h (Z.of_nat (length data)) = Ok data.
Proof.
  unfold stream_opens, OpenAdsForReadWithAccessTimeKeptWhereAllowed, OpenAdsForRead. intros Hplain [Hdata Hfound].
  destruct (OpenExistingW d _ (Z.lor GENERIC_READ FILE_WRITE_ATTRIBUTES) _) as [h|e] eqn:Eo.
  - exists h. split; [done|]. by eapply Hdata; [|exact Eo].
  - destruct (Hfound _ _ _ Eo) as [Hf Hp]. rewrite (proj2 (Z.eqb_neq _ _) Hf), (proj2 (Z.eqb_neq _ _) Hp). cbn [orb].
    destruct (OpenExistingW d _ GENERIC_READ _) as [h|e2] eqn:Er; [|done].
    exists h. split; [done|]. by eapply Hdata; [|exact Er].
Qed.

Lemma ReadAdsOnly_stored d path m :
  record_ok m -> text_ok m -> stream_opens d path ->
  stored d (ExtendedStreamPath path kLayerMountADSStream) (json_dump (MetadataToJson m)) ->
  ReadAdsOnly d path = (m, false).
Proof.
  intros Hm [Hparse Hlen] Ho Hst. unfold ReadAdsOnly.
  destruct (stored_stream_open _ _ _ Ho Hst) as (h & -> & -> & ->).
  rewrite (proj2 (Z.eqb_neq _ _)), (proj2 (Z.ltb_ge _ _)) by lia.
  destruct (json_dump (MetadataToJson m)); [cbn in Hlen; lia|]. by rewrite Hparse, JsonToMetadata_ToJson.
Qed.

Lemma SidecarRead_stored d root path m file :
  record_ok m -> text_ok m -> FileOf root path kMetaSuffix = Some file -> sidecar_opens d root path ->
  stored d file (json_dump (MetadataToJson m)) -> SidecarRead d root path = m.
Proof.
  intros Hm [Hparse Hlen] Hfile Hopen [Hst _]. unfold SidecarRead. rewrite Hfile. specialize (Hopen _ Hfile).
  destruct (OpenExistingW d file GENERIC_READ FILE_ATTRIBUTE_NORMAL) as [h|] eqn:Eo; [|done].
  destruct (Hst GENERIC_READ _ h eq_refl Eo) as [-> ->].
  rewrite (proj2 (Z.eqb_neq _ _)), (proj2 (Z.ltb_ge _ _)) by lia.
  destruct (json_dump (MetadataToJson m)); [cbn in Hlen; lia|]. by rewrite Hparse, JsonToMetadata_ToJson.
Qed.

Context `{DL : !DiskLaws}.

Lemma WriteAdsOnly_stored d path m d' :
  WriteAdsOnly path m d = (d', true) ->
  stored d' (ExtendedStreamPath path kLayerMountADSStream) (json_dump (MetadataToJson m)).
Proof.
  unfold WriteAdsOnly, ebind, eret. destruct (CreateAlwaysW _ _ d) as [d1 [h|e]] eqn:Ec; [|done].
  destruct (WriteFile h _ d1) as [d2 r] eqn:Ew. intros [<- Hr%bool_decide_eq_true]%pair_equal_spec. subst r.
  by eapply write_stored.
Qed.

Lemma temp_path_differs path pid tid : CharLowerBuffW (path ++ temp_suffix pid tid) <> CharLowerBuffW path.
Proof.
  intros H%(f_equal length). unfold CharLowerBuffW in H. rewrite !length_fmap, length_app in H.
  unfold temp_suffix in H. cbn in H. lia.
Qed.

Lemma SidecarWrite_stored pid tid root path m d d' :
  SidecarWrite pid tid root path m d = (d', true) ->
  exists file, FileOf root path kMetaSuffix = Some file /\ stored d' file (json_dump (MetadataToJson m)).
Proof.
  unfold SidecarWrite, ebind, eret. destruct (EnsureDirectory root d) as [d1 [|]]; [|done]. cbn [negb].
  destruct (FileOf root path kMetaSuffix) as [file|]; [|done]. set (temp := file ++ temp_suffix pid tid).
  destruct (CreateAlwaysW temp _ d1) as [d2 [h|e]] eqn:Ec; [|done].
  destruct (WriteFile h _ d2) as [d3 r] eqn:Ew. case_bool_decide as Hr; cbn [negb].
  2: { by destruct (DeleteFileW temp d3). }
  subst r. destruct (MoveFileExW temp file _ d3) as [d4 [[]|e]] eqn:Em; cbn [is_ok].
  2: { by destruct (DeleteFileW temp d4). }
  intros [<- _]%pair_equal_spec. exists file. split; [done|].
  eapply move_stored; [|apply temp_path_differs|exact Em|]; [done|]. by eapply write_stored.
Qed.

(** C40: A record that is not the default one, and that
    [WriteLayerMountMetadata] reports as written, is the record that the next
    read of the entry gives.  On a host with streams it comes from the stream,
    whatever an old sidecar says; the open that keeps the access time may be
    refused, as long as the plain one is not.  On a host without streams it
    comes from the sidecar, as long as that opens for a read and no stream
    holds another record. *)
Theorem metadata_write_then_read pid tid path m c d d' :
  record_ok m -> text_ok m -> IsDefaultMetadata m = false ->
  WriteLayerMountMetadata pid tid path m (Some c) d = (d', true) ->
  (if UseSidecarFor (Some c)
   then IsDefaultMetadata (fst (ReadAdsOnly d' path)) = true /\ sidecar_opens d' (upperPath c) path
   else stream_opens d' path) ->
  ReadLayerMountMetadata d' path (Some c) = m.
Proof.
  intros Hm Ht Hnd Hw Hads. unfold WriteLayerMountMetadata in Hw. unfold ReadLayerMountMetadata.
  destruct (UseSidecarFor (Some c)) eqn:Eu.
  - destruct (SidecarWrite_stored _ _ _ _ _ _ _ Hw) as (file & Hfile & Hst). destruct Hads as [Hads Hopen].
    destruct (ReadAdsOnly d' path) as [fromAds corrupted]. cbn [fst negb] in *. rewrite andb_false_r, Hads. cbn [negb].
    by eapply SidecarRead_stored.
  - apply WriteAdsOnly_stored in Hw. rewrite (ReadAdsOnly_stored d' path m) by done. cbn [andb]. by rewrite Hnd.
Qed.
End Metadata.

(** ** A witness *)

Definition sample_record : LayerMountMetadata := {|
  opaque := false; metacopy := true; redirect := []; copyUpTimestamp := FileTime 0xD53E8000 0x01D00000;
  originLayer := L "C:\a"; hasStableIndexNumber := true; stableIndexNumber := 0x10000000000C1
|}.

Definition sample_config (capabilities : Z) : LayerConfig := {|
  upperPath := L "C:\u"; lowerPaths := [L "C:\a"]; workDirPath := L "C:\w"; hostCapabilities := capabilities
|}.

(** A library that knows the text of one record. *)
Definition one_record : Json := {|
  json_parse := fun text => if bool_decide (text = [123; 125]) then Some (@MetadataToJson mem_win32 sample_record) else None;
  json_dump := fun _ => [123; 125]
|}.

(** A volume that lets no one change attributes, nor keep an access time. *)
Definition no_attribute_writes : Win32 := refusing_win32 (fun access => has_attr access FILE_WRITE_ATTRIBUTES).

Definition sample_write (capabilities : Z) : MemWin32.volume :=
  fst (@WriteLayerMountMetadata no_attribute_writes one_record 7 8 (L "C:\u\f") sample_record
         (Some (sample_config capabilities)) []).

Lemma sample_record_ok : @record_ok no_attribute_writes sample_record /\ @text_ok no_attribute_writes one_record sample_record.
Proof.
  split; [|by split; [vm_compute|vm_compute; split; congruence]].
  split; try (vm_compute; reflexivity); vm_compute; repeat split; congruence.
Qed.

(** The stream opens only after the fallback. *)
Lemma metadata_write_then_read_witness :
  is_ok (@OpenAdsForRead no_attribute_writes (sample_write LM_CAP_ADS) (L "\\?\C:\u\f:overlay")
           (Z.lor GENERIC_READ FILE_WRITE_ATTRIBUTES)) = false /\
  @ReadLayerMountMetadata no_attribute_writes one_record (sample_write LM_CAP_ADS) (L "C:\u\f")
    (Some (sample_config LM_CAP_ADS)) = sample_record /\
  @ReadLayerMountMetadata no_attribute_writes one_record (sample_write 0) (L "C:\u\f") (Some (sample_config 0)) = sample_record.
Proof.
  destruct sample_record_ok as [Hok Htext]. split; [vm_compute; reflexivity|]. split.
  - apply (@metadata_write_then_read no_attribute_writes one_record (refusing_disk_laws _) 7 8 (L "C:\u\f") sample_record
             (sample_config LM_CAP_ADS) [] _ Hok Htext); vm_compute; reflexivity.
  - apply (@metadata_write_then_read no_attribute_writes one_record (refusing_disk_laws _) 7 8 (L "C:\u\f") sample_record
             (sample_config 0) [] _ Hok Htext); [vm_compute; reflexivity..|].
    split; [vm_compute; reflexivity|]. intros file [= <-]. vm_compute. reflexivity.
Defined.
