(* ===== verification/LayerEntry.v ===== *)
(** * The entries of one layer

    What [LayerPath.cpp] reads of a single entry: whether it is a link, its
    kind, the relative target its reparse data holds, and what a directory
    link leads to. *)
From S2P Require Export Metadata.
Open Scope Z_scope.

Inductive LayerSource := SourceNone | Upper | Lower.

#[export] Instance layer_source_eq_dec : EqDecision LayerSource.
Proof. solve_decision. Defined.

Record ResolvedPath := {
  absolutePath : wstring;
  source : LayerSource;
  lowerIndex : Z;
  isWhiteout : bool;
  attributes : Z
}.

#[export] Instance resolved_path_eq_dec : EqDecision ResolvedPath.
Proof. solve_decision. Defined.

(** A default-constructed [ResolvedPath]. *)
Definition not_found : ResolvedPath := {|
  absolutePath := []; source := SourceNone; lowerIndex := -1; isWhiteout := false;
  attributes := INVALID_FILE_ATTRIBUTES
|}.

Definition Found (r : ResolvedPath) : bool :=
  negb (bool_decide (absolutePath r = [])) && negb (bool_decide (source r = SourceNone)).

Inductive EntryKind := KFile | KDirectory | KLink.

#[export] Instance entry_kind_eq_dec : EqDecision EntryKind.
Proof. solve_decision. Defined.

Inductive LinkTarget := TargetDirectory | TargetNoDirectory | TargetFailed (failure : NTSTATUS).

Inductive ReparseLink := RNone | RelativeSymlink (target : wstring) | OtherLink.

#[export] Instance reparse_link_eq_dec : EqDecision ReparseLink.
Proof. solve_decision. Defined.

Definition kReparseTagLxFifo : Z := 0x80000024.
Definition kReparseTagLxChr : Z := 0x80000025.
Definition kReparseTagLxBlk : Z := 0x80000026.

Definition IsLinkReparseTag (tag : Z) : bool := IsReparseTagNameSurrogate tag.

Definition IsSelfContainedFileReparseTag (tag : Z) : bool :=
  (tag =? IO_REPARSE_TAG_AF_UNIX) || (tag =? kReparseTagLxFifo) ||
  (tag =? kReparseTagLxChr) || (tag =? kReparseTagLxBlk) ||
  (tag =? IO_REPARSE_TAG_APPEXECLINK).

(** [sizeof(SymbolicLinkReparseHeader)] under [#pragma pack(1)], and the
    offsets of the fields that are read. *)
Definition kSymlinkHeaderSize : nat := 20.
Definition kSubstituteNameOffsetField : nat := 8.
Definition kSubstituteNameLengthField : nat := 10.
Definition kSymlinkFlagsField : nat := 16.
Definition kSymlinkFlagRelative : Z := 0x1.

(** The UTF-16 text of a byte string; a last odd byte is left out. *)
Fixpoint utf16_text (bytes : list Z) : wstring :=
  match bytes with
  | lo :: hi :: rest => (lo + 256 * hi) :: utf16_text rest
  | _ => []
  end.

Section Entry.
Context `{W : Win32} (d : disk).

Definition IsDirectory (attrs : Z) : bool := has_attr attrs FILE_ATTRIBUTE_DIRECTORY.

Definition LinkTargetOf (path : wstring) : LinkTarget :=
  match OpenExistingW d (WithExtendedPrefix path) FILE_READ_ATTRIBUTES FILE_FLAG_BACKUP_SEMANTICS with
  | Err error =>
      let leadsToNoDirectory := (error =? ERROR_FILE_NOT_FOUND) || (error =? ERROR_PATH_NOT_FOUND) ||
                                (error =? ERROR_DIRECTORY) in
      if leadsToNoDirectory then TargetNoDirectory else TargetFailed (NtStatusFromWin32 error)
  | Ok h =>
      match GetHandleAttributes d h with
      | Err error => TargetFailed (NtStatusFromWin32 error)
      | Ok attrs => if IsDirectory attrs then TargetDirectory else TargetNoDirectory
      end
  end.

Definition ShownLinkTarget (shown : ResolvedPath) : LinkTarget :=
  if negb (Found shown) || negb (IsDirectory (attributes shown)) then TargetNoDirectory
  else if has_attr (attributes shown) FILE_ATTRIBUTE_REPARSE_POINT then LinkTargetOf (absolutePath shown)
  else TargetDirectory.

Definition WithStoredLeafName (targetPath entryPath : wstring) : wstring :=
  match FindFilesW d (WithExtendedPrefix entryPath) with
  | Ok (fd :: _, _) =>
      let keep := match wrfind ch_bsl targetPath with Some i => S i | None => O end in
      take keep targetPath ++ cFileName fd
  | _ => targetPath
  end.

Definition OpenReparseEntry (path : wstring) (access : Z) : w32 handle :=
  OpenExistingW d (WithExtendedPrefix path) access
    (Z.lor FILE_FLAG_OPEN_REPARSE_POINT FILE_FLAG_BACKUP_SEMANTICS).

Definition ReadReparseTag (path : wstring) : nt Z :=
  match OpenReparseEntry path FILE_READ_ATTRIBUTES with
  | Err e => Err (NtStatusFromWin32 e)
  | Ok entry => nt_of_w32 (GetAttributeTag d entry)
  end.

Definition IsDirectoryLink (path : wstring) (attrs : Z) : nt bool :=
  let kDirectoryReparsePoint := Z.lor FILE_ATTRIBUTE_DIRECTORY FILE_ATTRIBUTE_REPARSE_POINT in
  if attrs =? INVALID_FILE_ATTRIBUTES then Err STATUS_INVALID_PARAMETER
  else if negb (Z.land attrs kDirectoryReparsePoint =? kDirectoryReparsePoint) then Ok false
  else match ReadReparseTag path with
  | Err status => Err status
  | Ok tag => Ok (IsLinkReparseTag tag)
  end.

Definition EntryKindOf (path : wstring) (attrs : Z) : nt EntryKind :=
  if negb (IsDirectory attrs) then Ok KFile
  else match IsDirectoryLink path attrs with
  | Err status => Err status
  | Ok isLink => Ok (if isLink then KLink else KDirectory)
  end.

Definition ClonesReparsePoint (path : wstring) (attrs : Z) : nt bool :=
  if attrs =? INVALID_FILE_ATTRIBUTES then Err STATUS_INVALID_PARAMETER
  else if negb (has_attr attrs FILE_ATTRIBUTE_REPARSE_POINT) then Ok false
  else match ReadReparseTag path with
  | Err status => Err status
  | Ok tag =>
      Ok (IsLinkReparseTag tag || (negb (IsDirectory attrs) && IsSelfContainedFileReparseTag tag))
  end.

Definition ReadReparseLink (path : wstring) : ReparseLink :=
  match OpenReparseEntry path FILE_READ_ATTRIBUTES with
  | Err _ => OtherLink
  | Ok entry =>
      match GetReparseData d entry with
      | Err _ => OtherLink
      | Ok data =>
          let returned := length data in
          if (returned <? 4)%nat then OtherLink
          else
            let tag := le_field data 0 4 in
            if negb (IsLinkReparseTag tag) then RNone
            else if negb (tag =? IO_REPARSE_TAG_SYMLINK) || (returned <? kSymlinkHeaderSize)%nat
            then OtherLink
            else
              let nameStart := (kSymlinkHeaderSize + Z.to_nat (le_field data kSubstituteNameOffsetField 2))%nat in
              let nameLength := Z.to_nat (le_field data kSubstituteNameLengthField 2) in
              if (Z.land (le_field data kSymlinkFlagsField 4) kSymlinkFlagRelative =? 0) ||
                 (returned <? nameStart + nameLength)%nat
              then OtherLink
              else
                let target := utf16_text (take nameLength (drop nameStart data)) in
                if bool_decide (ch_colon ∈ target) then OtherLink else RelativeSymlink target
      end
  end.

(** [None] when there is no entry at the path. *)
Definition ProbeUpperEntry (path : wstring) : nt (option EntryKind) :=
  match GetFileAttributesW d (WithExtendedPrefix path) with
  | Err probeErr =>
      if (probeErr =? ERROR_FILE_NOT_FOUND) || (probeErr =? ERROR_PATH_NOT_FOUND) then Ok None
      else Err (NtStatusFromWin32 probeErr)
  | Ok attrs =>
      match EntryKindOf path attrs with
      | Err kindStatus =>
          if bool_decide (kindStatus = STATUS_OBJECT_NAME_NOT_FOUND) ||
             bool_decide (kindStatus = STATUS_OBJECT_PATH_NOT_FOUND) then Ok None
          else Err kindStatus
      | Ok kind => Ok (Some kind)
      end
  end.
End Entry.

(** The calls that make a directory. *)
Section Make.
Context `{W : Win32}.

Definition EnsureDirectoryExists (path : wstring) : eff disk bool :=
  (let! r := create_directories (WithExtendedPrefix path) in eret (is_ok r))%eff.

Definition CreateDirectoryOrUseExisting (path : wstring) : eff disk NTSTATUS :=
  (let extendedPath := WithExtendedPrefix path in
   let! made := CreateDirectoryW extendedPath in
   match made with
   | Ok _ => eret STATUS_SUCCESS
   | Err createErr =>
       if negb (createErr =? ERROR_ALREADY_EXISTS) then eret (NtStatusFromWin32 createErr)
       else
         let! existing := eread (fun d => GetFileAttributesW d extendedPath) in
         match existing with
         | Err e => eret (NtStatusFromWin32 e)
         | Ok attrs =>
             eret (if IsDirectory attrs then STATUS_SUCCESS else STATUS_OBJECT_NAME_COLLISION)
         end
   end)%eff.
End Make.
