(* ===== verification/LayerWalk.v ===== *)
(** * Walks of one layer, whiteouts and opaque markers

    The walks of [LayerPath.cpp], the marker queries of
    [WhiteoutManager.cpp], and the ancestry of a directory in one layer that
    the directory merge and the link search share. *)
From S2P Require Export LayerEntry.
Open Scope Z_scope.

Inductive ComponentKind := CMissing | CDirectory | CFile | CLink | CUnreadable.
Inductive WalkStop := StopNone | StopFile | StopLink | StopUnreadable.
Inductive LinkStop := LinkStopNone | LinkStopLink | LinkStopUnreadable.
Inductive LinkOnPath := LinkNone | LinkSelf | LinkAncestor | LinkUnreadable.
Inductive LowerVisibility := LVisible | HiddenByOpaqueMarker | HiddenByNonDirectoryOrLink.

#[export] Instance component_kind_eq_dec : EqDecision ComponentKind.
Proof. solve_decision. Defined.
#[export] Instance walk_stop_eq_dec : EqDecision WalkStop.
Proof. solve_decision. Defined.
#[export] Instance link_stop_eq_dec : EqDecision LinkStop.
Proof. solve_decision. Defined.
#[export] Instance link_on_path_eq_dec : EqDecision LinkOnPath.
Proof. solve_decision. Defined.
#[export] Instance lower_visibility_eq_dec : EqDecision LowerVisibility.
Proof. solve_decision. Defined.

Record LayerWalk := { stop : WalkStop; component : wstring }.

Record LayerAncestry := {
  whitedOut : bool;
  opaqueAbove : bool;
  firstNonDirectory : WalkStop;
  linkUnderHigherEntry : bool;
  absent : bool
}.

Record LinkInView := { linkStop : LinkStop; linkSource : LayerSource; linkPath : wstring }.

Definition WalkStopAt (kind : ComponentKind) : WalkStop :=
  match kind with
  | CFile => StopFile
  | CLink => StopLink
  | CUnreadable => StopUnreadable
  | CMissing | CDirectory => StopNone
  end.

Definition LinkStopOf (s : WalkStop) : LinkStop :=
  match s with
  | StopLink => LinkStopLink
  | StopUnreadable => LinkStopUnreadable
  | StopNone | StopFile => LinkStopNone
  end.

Definition EndsAtLinkOrUnreadable (s : WalkStop) : bool := negb (bool_decide (LinkStopOf s = LinkStopNone)).

Definition no_stop : LayerWalk := {| stop := StopNone; component := [] |}.

Definition JoinLayerScanPath (layerPath dirRelativePath : wstring) : wstring :=
  JoinDirPath layerPath (if bool_decide (dirRelativePath = []) then L "*" else dirRelativePath ++ L "\*").

(** [AnyDirectoryUpToRoot], without the probe of the root itself:
    [hasMarker] on [dir] and on each of its ancestors below the root.  The
    parent of a relative path is shorter than the path, so the path's length
    bounds the loop. *)
Fixpoint any_directory_up (fuel : nat) (dir : wstring) (hasMarker : wstring -> bool) : bool :=
  match fuel with
  | O => false
  | S fuel' =>
      if bool_decide (dir = []) then false
      else if hasMarker dir then true
      else any_directory_up fuel' (parent_path dir) hasMarker
  end.

Inductive LayerRoot := Probed | Skipped.

Definition AnyDirectoryUpToRoot (dir : wstring) (root : LayerRoot) (hasMarker : wstring -> bool) : bool :=
  any_directory_up (S (length dir)) dir hasMarker ||
  match root with Probed => hasMarker [] | Skipped => false end.

Section Walk.
Context `{W : Win32} (d : disk).

Definition ComponentKindInLayer (layerPath relativePath : wstring) : ComponentKind :=
  let componentPath := JoinDirPath layerPath relativePath in
  match GetFileAttributesW d (WithExtendedPrefix componentPath) with
  | Err error =>
      if (error =? ERROR_FILE_NOT_FOUND) || (error =? ERROR_PATH_NOT_FOUND) then CMissing
      else CUnreadable
  | Ok attrs =>
      match EntryKindOf d componentPath attrs with
      | Err _ => CUnreadable
      | Ok KFile => CFile
      | Ok KLink => CLink
      | Ok KDirectory => CDirectory
      end
  end.

Fixpoint walk_components (layerPath walked : wstring) (cs : list wstring) : LayerWalk :=
  match cs with
  | [] => no_stop
  | c :: cs' =>
      let walked := append walked c in
      match ComponentKindInLayer layerPath walked with
      | CMissing => no_stop
      | CUnreadable => {| stop := StopUnreadable; component := walked |}
      | CFile => {| stop := StopFile; component := walked |}
      | CLink => {| stop := StopLink; component := walked |}
      | CDirectory => walk_components layerPath walked cs'
      end
  end.

Definition WalkToFirstNonDirectory (layerPath dirRelativePath : wstring) : LayerWalk :=
  walk_components layerPath [] (path_elements dirRelativePath).

Definition HoldsEntryInLayer (layerPath relativePath : wstring) : bool :=
  match GetFileAttributesW d (WithExtendedPrefix (JoinDirPath layerPath relativePath)) with
  | Ok _ => true
  | Err error => negb (error =? ERROR_FILE_NOT_FOUND) && negb (error =? ERROR_PATH_NOT_FOUND)
  end.

Definition HasNonDirectoryOrLinkSelfOrAncestorInLayer (layerPath dirRelativePath : wstring) : bool :=
  negb (bool_decide (stop (WalkToFirstNonDirectory layerPath dirRelativePath) = StopNone)).

Definition FindLinkOnPath (layerPath dirRelativePath : wstring) : LinkOnPath :=
  let walk := WalkToFirstNonDirectory layerPath dirRelativePath in
  match LinkStopOf (stop walk) with
  | LinkStopLink => if bool_decide (component walk = dirRelativePath) then LinkSelf else LinkAncestor
  | LinkStopUnreadable => LinkUnreadable
  | LinkStopNone => LinkNone
  end.

(** ** Marker queries *)

Definition MarkerFileExists (path : wstring) : bool :=
  is_ok (GetFileAttributesW d (WithExtendedPrefix path)).

Definition HasWhiteoutUnderWalkedDirectoryInLayer (relativePath layerPath : wstring) : bool :=
  MarkerFileExists (GetWhiteoutFullPath layerPath relativePath).

Definition HasWhiteout (relativePath layerPath : wstring) : bool :=
  HasWhiteoutUnderWalkedDirectoryInLayer relativePath layerPath &&
  bool_decide (FindLinkOnPath layerPath (MarkerDirectoryOf relativePath) = LinkNone).

Definition HasWhitedOutAncestorInLayer (relativePath layerPath : wstring) : bool :=
  AnyDirectoryUpToRoot (parent_path relativePath) Skipped (fun dir => HasWhiteout dir layerPath).

Context (config : LayerConfig).

Definition HasWhiteoutInAnyLayer (relativePath : wstring) : bool :=
  HasWhiteout relativePath (upperPath config) ||
  existsb (HasWhiteout relativePath) (lowerPaths config).

Definition HoldsOpaqueMarker (dirFullPath : wstring) : bool :=
  HasOpaqueMetadata d dirFullPath (Some config) ||
  MarkerFileExists (JoinDirPath dirFullPath kOpaqueMarkerFile).

Definition IsOpaqueInLayer (dirRelativePath layerPath : wstring) : bool :=
  HoldsOpaqueMarker (JoinDirPath layerPath dirRelativePath) &&
  bool_decide (FindLinkOnPath layerPath (NormalizePathPreserveCase dirRelativePath) = LinkNone).

Definition IsOpaque (dirRelativePath : wstring) : bool := IsOpaqueInLayer dirRelativePath (upperPath config).

Definition IsOpaqueWalkedDirectoryInLayer (dirRelativePath layerPath : wstring) : bool :=
  HoldsOpaqueMarker (JoinDirPath layerPath dirRelativePath).

Definition HasOpaqueSelfOrAncestorInLayer (dirRelativePath layerPath : wstring) : bool :=
  AnyDirectoryUpToRoot dirRelativePath Probed (fun dir => IsOpaqueInLayer dir layerPath).

Definition LowersBelow (layerPath dirNorm : wstring) : LowerVisibility :=
  if HasOpaqueSelfOrAncestorInLayer dirNorm layerPath then HiddenByOpaqueMarker
  else if HasNonDirectoryOrLinkSelfOrAncestorInLayer layerPath dirNorm then HiddenByNonDirectoryOrLink
  else LVisible.

(** ** Several layers *)

Definition lower_at (index : nat) : wstring := default [] (lowerPaths config !! index).

Definition HigherLayerHoldsEntry (lowerIndex : nat) (relativePath : wstring) : bool :=
  HoldsEntryInLayer (upperPath config) relativePath ||
  existsb (fun higher => HoldsEntryInLayer higher relativePath) (take lowerIndex (lowerPaths config)).

Definition HasLinkUnderHigherLayerEntry (lowerIndex : nat) (dirRelativePath : wstring) : bool :=
  let walk := WalkToFirstNonDirectory (lower_at lowerIndex) dirRelativePath in
  bool_decide (stop walk = StopLink) && HigherLayerHoldsEntry lowerIndex (component walk).

(** [lowerIndex] is -1 for the upper. *)
Definition StepLayerAncestry (layerPath dirNorm : wstring) (lowerIndex : Z) (parent : LayerAncestry)
  : LayerAncestry :=
  if absent parent then parent
  else if negb (bool_decide (firstNonDirectory parent = StopNone)) then parent
  else
    let kind := ComponentKindInLayer layerPath dirNorm in
    {| whitedOut := whitedOut parent || HasWhiteoutUnderWalkedDirectoryInLayer dirNorm layerPath;
       opaqueAbove := opaqueAbove parent ||
         (bool_decide (kind = CDirectory) && IsOpaqueWalkedDirectoryInLayer dirNorm layerPath);
       absent := bool_decide (kind = CMissing);
       firstNonDirectory := WalkStopAt kind;
       linkUnderHigherEntry := bool_decide (kind = CLink) && (0 <=? lowerIndex) &&
         HigherLayerHoldsEntry (Z.to_nat lowerIndex) dirNorm |}.

Definition root_ancestry (layerPath : wstring) : LayerAncestry := {|
  whitedOut := false;
  opaqueAbove := IsOpaqueInLayer [] layerPath;
  firstNonDirectory := StopNone;
  linkUnderHigherEntry := false;
  absent := false
|}.

Fixpoint ancestry_loop (layerPath : wstring) (lowerIndex : Z) (walked : wstring) (cs : list wstring)
    (ancestry : LayerAncestry) : LayerAncestry :=
  match cs with
  | [] => ancestry
  | c :: cs' =>
      let walked := append walked c in
      ancestry_loop layerPath lowerIndex walked cs' (StepLayerAncestry layerPath walked lowerIndex ancestry)
  end.

Definition LayerAncestryOf (layerPath dirNorm : wstring) (lowerIndex : Z) : LayerAncestry :=
  ancestry_loop layerPath lowerIndex [] (path_elements dirNorm) (root_ancestry layerPath).

Definition no_link : LinkInView := {| linkStop := LinkStopNone; linkSource := SourceNone; linkPath := [] |}.

Definition WalkLowers (dirNorm : wstring) : list LayerWalk :=
  (fun lowerPath => WalkToFirstNonDirectory lowerPath dirNorm) <$> lowerPaths config.

(** The loop of [FindLinkInView] over the lowers from index [i]. *)
Fixpoint find_link_in_lowers (dirNorm : wstring) (i : nat) (walks : list LayerWalk) : LinkInView :=
  match walks with
  | [] => no_link
  | walk :: walks' =>
      let lower := LayerAncestryOf (lower_at i) dirNorm (Z.of_nat i) in
      if whitedOut lower || linkUnderHigherEntry lower then no_link
      else if EndsAtLinkOrUnreadable (stop walk) then
        {| linkStop := LinkStopOf (stop walk); linkSource := Lower; linkPath := component walk |}
      else if opaqueAbove lower || bool_decide (stop walk = StopFile) then no_link
      else find_link_in_lowers dirNorm (S i) walks'
  end.

Definition FindLinkInView (dirNorm : wstring) : LinkInView :=
  let upperWalk := WalkToFirstNonDirectory (upperPath config) dirNorm in
  if EndsAtLinkOrUnreadable (stop upperWalk) then
    {| linkStop := LinkStopOf (stop upperWalk); linkSource := Upper; linkPath := component upperWalk |}
  else if bool_decide (stop upperWalk = StopFile) then no_link
  else
    let lowerWalks := WalkLowers dirNorm in
    if negb (existsb (fun walk => EndsAtLinkOrUnreadable (stop walk)) lowerWalks) then no_link
    else
      let upper := LayerAncestryOf (upperPath config) dirNorm (-1) in
      if whitedOut upper || opaqueAbove upper then no_link
      else find_link_in_lowers dirNorm 0 lowerWalks.

Definition FindLinkAbove (normalizedPath : wstring) : LinkInView :=
  FindLinkInView (parent_path normalizedPath).

(** ** Paths that the overlay reserves *)

Definition IsInLinkTarget (dirNorm : wstring) : bool :=
  negb (bool_decide (linkStop (FindLinkInView dirNorm) = LinkStopNone)).

Definition IsReservedOverlayPath (normalized : wstring) : bool :=
  if IsRootSidecarPath normalized then true
  else match ParentOfFirstMarkerSegment normalized with
  | None => false
  | Some markerParent => bool_decide (markerParent = []) || negb (IsInLinkTarget markerParent)
  end.
End Walk.
