(* ===== verification/AncestryFacts.v ===== *)
(** * The ancestry of a directory and the walks of a lookup agree

    A directory merge reads one [LayerAncestry] per layer, component by
    component; a lookup walks the path again for every question.  On a layer
    whose tree is consistent both read the same thing. *)
From S2P Require Export LayerWalk.
Open Scope Z_scope.

Section Ancestry.
Context `{W : Win32} `{CL : !CaseLaws} (d : disk) (config : LayerConfig) (layer : wstring).

Abbreviation kind cs := (ComponentKindInLayer d layer (rel cs)).

(** ** The walk, component by component *)

(** Whether the walk of [cs] from [walked] meets directories only. *)
Fixpoint reaches (walked : wstring) (cs : list wstring) : bool :=
  match cs with
  | [] => true
  | c :: cs' =>
      bool_decide (ComponentKindInLayer d layer (append walked c) = CDirectory) &&
      reaches (append walked c) cs'
  end.

Lemma walk_components_app walked cs g :
  walk_components d layer walked (cs ++ [g]) =
    if reaches walked cs then walk_components d layer (foldl append walked cs) [g]
    else walk_components d layer walked cs.
Proof.
  revert walked. induction cs as [|c cs IH]; intros walked; [done|].
  cbn [app walk_components reaches foldl].
  destruct (ComponentKindInLayer d layer (append walked c)) eqn:Hk; done.
Qed.

Lemma reaches_walk walked cs : reaches walked cs = true -> walk_components d layer walked cs = no_stop.
Proof.
  revert walked. induction cs as [|c cs IH]; intros walked; [done|].
  cbn [walk_components reaches]. intros [Hk Hr]%andb_true_iff. apply bool_decide_eq_true in Hk.
  rewrite Hk. by apply IH.
Qed.

Lemma foldl_append_rel ds cs : plain (ds ++ cs) -> foldl append (rel ds) cs = rel (ds ++ cs).
Proof.
  revert ds. induction cs as [|c cs IH]; intros ds Hp; cbn; [by rewrite app_nil_r|].
  rewrite cons_middle, app_assoc in Hp. rewrite cons_middle, app_assoc.
  pose proof Hp as [Hp1 _]%Forall_app. pose proof Hp1 as [Hd Hc]%Forall_app.
  rewrite Forall_singleton in Hc. rewrite append_rel by done. by apply IH.
Qed.

(** Every directory on the path is a plain directory of the layer. *)
Definition all_directories (cs : list wstring) : Prop :=
  forall q q', cs = q ++ q' -> q <> [] -> kind q = CDirectory.

Lemma all_directories_nil : all_directories [].
Proof. by intros [|? ?] ? ?. Qed.

Lemma all_directories_snoc cs g :
  all_directories (cs ++ [g]) <-> all_directories cs /\ kind (cs ++ [g]) = CDirectory.
Proof.
  split.
  - intros H. split.
    + intros q q' -> Hq. apply (H q (q' ++ [g])); [by rewrite app_assoc|done].
    + apply (H _ []); [by rewrite app_nil_r|by destruct cs].
  - intros [H Hg] q q' Ec Hq. destruct (decide (q' = [])) as [->|Hne].
    + rewrite app_nil_r in Ec. by subst.
    + destruct (exists_last Hne) as (q'' & g' & ->). rewrite app_assoc in Ec.
      apply app_inj_tail in Ec as [-> _]. by apply (H q q'').
Qed.

Lemma reaches_all_directories cs : plain cs -> (reaches [] cs = true <-> all_directories cs).
Proof.
  intros Hp. assert (H : forall ds, plain (ds ++ cs) ->
    (reaches (rel ds) cs = true <-> forall q q', cs = q ++ q' -> q <> [] -> kind (ds ++ q) = CDirectory)).
  2:{ exact (H [] Hp). }
  clear Hp. induction cs as [|c cs IH]; intros ds Hp; cbn [reaches].
  { split; [|done]. by intros _ [|? ?] ? ?. }
  rewrite cons_middle, app_assoc in Hp. pose proof Hp as [Hp1 _]%Forall_app.
  pose proof Hp1 as [Hd Hc]%Forall_app. rewrite Forall_singleton in Hc.
  rewrite append_rel, andb_true_iff, bool_decide_eq_true, IH by done. split.
  - intros [Hk H] [|x q] q' Ec Hq; [done|]. injection Ec as <- Ec.
    destruct (decide (q = [])) as [->|Hq']; [done|]. specialize (H q q' Ec Hq').
    by rewrite <- app_assoc in H.
  - intros H. split; [by apply (H [c] cs)|]. intros q q' -> Hq. rewrite <- app_assoc.
    by apply (H (c :: q) q').
Qed.

Lemma all_directories_dec cs : plain cs -> all_directories cs \/ ~ all_directories cs.
Proof.
  intros Hp. rewrite <- reaches_all_directories by done. destruct (reaches [] cs); auto.
Qed.

Abbreviation walk cs := (WalkToFirstNonDirectory d layer (rel cs)).

(** The walk of one more component. *)
Lemma walk_through cs g :
  plain (cs ++ [g]) -> all_directories cs ->
  walk (cs ++ [g]) = match kind (cs ++ [g]) with
                     | CMissing | CDirectory => no_stop
                     | k => {| stop := WalkStopAt k; component := rel (cs ++ [g]) |}
                     end.
Proof.
  intros Hp H. pose proof Hp as [Hc Hg]%Forall_app. rewrite Forall_singleton in Hg.
  unfold WalkToFirstNonDirectory. rewrite path_elements_rel by done.
  rewrite walk_components_app. rewrite (proj2 (reaches_all_directories cs Hc) H).
  change (foldl append [] cs) with (foldl append (rel []) cs).
  rewrite foldl_append_rel by done. cbn [app walk_components]. rewrite append_rel by done.
  by destruct (kind (cs ++ [g])).
Qed.

Lemma walk_stuck cs g : plain (cs ++ [g]) -> ~ all_directories cs -> walk (cs ++ [g]) = walk cs.
Proof.
  intros Hp H. pose proof Hp as [Hc Hg]%Forall_app. unfold WalkToFirstNonDirectory.
  rewrite !path_elements_rel by done. rewrite walk_components_app.
  destruct (reaches [] cs) eqn:Hr; [|done]. by apply reaches_all_directories in Hr.
Qed.

Lemma walk_directories cs : plain cs -> all_directories cs -> walk cs = no_stop.
Proof.
  intros Hp H. unfold WalkToFirstNonDirectory. rewrite path_elements_rel by done.
  by apply reaches_walk, reaches_all_directories.
Qed.

(** ** Consistent trees *)

(** What a tree guarantees along one path: an entry, or a marker, is only
    below something that is there and is no file, and an opaque record is
    only at a path that is there. *)
Record tree_consistent (cs : list wstring) (k : wstring) : Prop := {
  tree_entry : forall q g q', cs = q ++ g :: q' -> q <> [] ->
    kind (q ++ [g]) <> CMissing -> kind q <> CMissing /\ kind q <> CFile;
  tree_marker : forall q g q', cs ++ [k] = q ++ g :: q' -> q <> [] ->
    HasWhiteoutUnderWalkedDirectoryInLayer d (rel (q ++ [g])) layer = true ->
    kind q <> CMissing /\ kind q <> CFile;
  tree_opaque : forall q q', cs = q ++ q' -> q <> [] ->
    HoldsOpaqueMarker d config (JoinDirPath layer (rel q)) = true -> kind q <> CMissing
}.

Lemma FindLinkOnPath_none p :
  FindLinkOnPath d layer p = LinkNone <-> LinkStopOf (stop (WalkToFirstNonDirectory d layer p)) = LinkStopNone.
Proof. unfold FindLinkOnPath. destruct (LinkStopOf _); try done. case_bool_decide; done. Qed.

(** Below an entry that is there, the walk ends at no file. *)
Lemma walk_above_present cs k q q' :
  tree_consistent cs k -> plain cs -> cs = q ++ q' -> q <> [] ->
  kind q <> CMissing -> kind q <> CFile ->
  LinkStopOf (stop (walk q)) = LinkStopNone -> all_directories q.
Proof.
  intros Hcons Hp. revert q'. induction q as [|g q IH] using rev_ind; intros q' Ec _ Hm Hf Hl.
  { apply all_directories_nil. }
  rewrite <- app_assoc in Ec. cbn [app] in Ec.
  assert (Hpq : plain (q ++ [g])).
  { rewrite Ec, cons_middle, app_assoc in Hp. by apply Forall_app in Hp as [? _]. }
  assert (Hall : all_directories q).
  { destruct (decide (q = [])) as [->|Hq]; [apply all_directories_nil|].
    destruct (all_directories_dec q) as [H|H]; [by apply Forall_app in Hpq as [? _]|done|].
    destruct (tree_entry _ _ Hcons q g q' Ec Hq Hm) as [Hqm Hqf].
    apply (IH (g :: q') Ec Hq Hqm Hqf). by rewrite <- (walk_stuck q g). }
  apply all_directories_snoc. split; [done|]. rewrite walk_through in Hl by done.
  by destruct (kind (q ++ [g])).
Qed.

(** ** The ancestry, component by component *)

Lemma ancestry_loop_app idx walked cs g a :
  ancestry_loop d config layer idx walked (cs ++ [g]) a =
    StepLayerAncestry d config layer (append (foldl append walked cs) g) idx
      (ancestry_loop d config layer idx walked cs a).
Proof. revert walked a. induction cs as [|c cs IH]; intros walked a; cbn; [done|]. by rewrite IH. Qed.

Lemma LayerAncestryOf_snoc cs g idx :
  plain (cs ++ [g]) ->
  LayerAncestryOf d config layer (rel (cs ++ [g])) idx =
    StepLayerAncestry d config layer (rel (cs ++ [g])) idx (LayerAncestryOf d config layer (rel cs) idx).
Proof.
  intros Hp. pose proof Hp as [Hc Hg]%Forall_app. rewrite Forall_singleton in Hg.
  unfold LayerAncestryOf. rewrite !path_elements_rel by done. rewrite ancestry_loop_app.
  change (foldl append [] cs) with (foldl append (rel []) cs).
  rewrite foldl_append_rel by done. cbn [app]. by rewrite append_rel.
Qed.

Lemma LayerAncestryOf_nil idx : LayerAncestryOf d config layer (rel []) idx = root_ancestry d config layer.
Proof. unfold LayerAncestryOf. by rewrite path_elements_rel. Qed.

Lemma snoc_split {A} (cs : list A) g q x q' :
  cs ++ [g] = q ++ x :: q' <-> q = cs /\ x = g /\ q' = [] \/ exists q'', q' = q'' ++ [g] /\ cs = q ++ x :: q''.
Proof.
  split.
  - intros H. destruct (decide (q' = [])) as [->|Hne].
    + apply app_inj_tail in H as [-> ->]. by left.
    + destruct (exists_last Hne) as (q'' & g' & ->).
      rewrite app_comm_cons, app_assoc in H. apply app_inj_tail in H as [-> ->]. right. eauto.
  - intros [(-> & -> & ->)|(q'' & -> & ->)]; [done|]. by rewrite <- app_assoc.
Qed.

(** A marker below plain directories. *)
Definition walked_whiteout (cs : list wstring) : Prop :=
  exists q g q', cs = q ++ g :: q' /\ all_directories q /\
    HasWhiteoutUnderWalkedDirectoryInLayer d (rel (q ++ [g])) layer = true.

Definition walked_opaque (cs : list wstring) : Prop :=
  exists q q', cs = q ++ q' /\ q <> [] /\ all_directories q /\
    HoldsOpaqueMarker d config (JoinDirPath layer (rel q)) = true.

Lemma walked_whiteout_snoc cs g :
  walked_whiteout (cs ++ [g]) <->
    walked_whiteout cs \/
    all_directories cs /\ HasWhiteoutUnderWalkedDirectoryInLayer d (rel (cs ++ [g])) layer = true.
Proof.
  unfold walked_whiteout. split.
  - intros (q & x & q' & [(-> & -> & ->)|(q'' & -> & ->)]%snoc_split & Ha & Hw); [by right|left; eauto 6].
  - intros [(q & x & q' & -> & Ha & Hw)|[Ha Hw]].
    + exists q, x, (q' ++ [g]). by rewrite <- app_assoc.
    + exists cs, g, []. done.
Qed.

Lemma walked_opaque_snoc cs g :
  walked_opaque (cs ++ [g]) <->
    walked_opaque cs \/
    all_directories (cs ++ [g]) /\ HoldsOpaqueMarker d config (JoinDirPath layer (rel (cs ++ [g]))) = true.
Proof.
  unfold walked_opaque. split.
  - intros (q & q' & Ec & Hq & Ha & Hw). destruct (decide (q' = [])) as [->|Hne].
    + rewrite app_nil_r in Ec. subst q. by right.
    + destruct (exists_last Hne) as (q'' & g' & ->). rewrite app_assoc in Ec.
      apply app_inj_tail in Ec as [-> _]. left. eauto 6.
  - intros [(q & q' & -> & Hq & Ha & Hw)|[Ha Hw]].
    + exists q, (q' ++ [g]). by rewrite <- app_assoc.
    + exists (cs ++ [g]), []. rewrite app_nil_r. split; [done|]. split; [by destruct cs|done].
Qed.

(** What the fields of an ancestry say. *)
Record ancestry_reads (cs : list wstring) (idx : Z) (a : LayerAncestry) : Prop := {
  reads_stop : firstNonDirectory a = stop (walk cs);
  reads_plain : absent a = false /\ firstNonDirectory a = StopNone <-> all_directories cs;
  reads_whiteout : whitedOut a = true <-> walked_whiteout cs;
  reads_opaque : opaqueAbove a = true <-> IsOpaqueInLayer d config [] layer = true \/ walked_opaque cs;
  reads_link : linkUnderHigherEntry a = true <->
    0 <= idx /\ stop (walk cs) = StopLink /\
    HigherLayerHoldsEntry d config (Z.to_nat idx) (component (walk cs)) = true
}.

Lemma ancestry_reads_nil idx : ancestry_reads [] idx (root_ancestry d config layer).
Proof.
  split; rewrite ?(walk_directories []) by (constructor || apply all_directories_nil); cbn.
  - done.
  - split; [intros _; apply all_directories_nil|done].
  - split; [done|]. by intros ([|? ?] & g & q' & ? & _).
  - split; [by left|]. intros [H|([|? ?] & q' & ? & ? & _)]; done.
  - split; [done|]. by intros (_ & ? & _).
Qed.

Lemma ancestry_reads_snoc cs g idx a :
  plain (cs ++ [g]) -> ancestry_reads cs idx a ->
  ancestry_reads (cs ++ [g]) idx (StepLayerAncestry d config layer (rel (cs ++ [g])) idx a).
Proof.
  intros Hp [Hs Hpl Hw Ho Hl]. pose proof Hp as [Hc _]%Forall_app.
  destruct (all_directories_dec cs Hc) as [Ha|Ha].
  - pose proof Ha as Hpl'. apply Hpl in Hpl' as [Habs Hst]. unfold StepLayerAncestry.
    rewrite Habs, Hst, bool_decide_true by done. cbn [negb].
    rewrite (walk_directories cs Hc Ha) in Hl. cbn in Hl.
    split; rewrite ?walk_through by done; cbn.
    + by destruct (kind (cs ++ [g])).
    + rewrite bool_decide_eq_false, all_directories_snoc. destruct (kind (cs ++ [g])); naive_solver.
    + rewrite orb_true_iff, Hw, walked_whiteout_snoc. naive_solver.
    + rewrite orb_true_iff, andb_true_iff, bool_decide_eq_true, Ho, walked_opaque_snoc, all_directories_snoc.
      unfold IsOpaqueWalkedDirectoryInLayer. naive_solver.
    + rewrite !andb_true_iff, bool_decide_eq_true, Z.leb_le.
      destruct (kind (cs ++ [g])); cbn; naive_solver.
  - assert (StepLayerAncestry d config layer (rel (cs ++ [g])) idx a = a) as ->.
    { unfold StepLayerAncestry. destruct (absent a) eqn:Habs; [done|].
      case_bool_decide as Hst; [|done]. exfalso. by apply Ha, Hpl. }
    split; rewrite ?walk_stuck by done.
    + done.
    + rewrite Hpl, all_directories_snoc. naive_solver.
    + rewrite Hw, walked_whiteout_snoc. naive_solver.
    + rewrite Ho, walked_opaque_snoc, all_directories_snoc. naive_solver.
    + done.
Qed.

Lemma LayerAncestryOf_reads cs idx :
  plain cs -> ancestry_reads cs idx (LayerAncestryOf d config layer (rel cs) idx).
Proof.
  induction cs as [|g cs IH] using rev_ind; intros Hp.
  - rewrite LayerAncestryOf_nil. apply ancestry_reads_nil.
  - pose proof Hp as [Hc _]%Forall_app. rewrite LayerAncestryOf_snoc by done.
    apply ancestry_reads_snoc; auto.
Qed.

(** ** Agreement with the questions of a lookup *)

(** The loop over the ancestors of a relative path. *)
Lemma any_directory_up_rel fuel cs f :
  plain cs -> (length (rel cs) < fuel)%nat ->
  (any_directory_up fuel (rel cs) f = true <-> exists q q', cs = q ++ q' /\ q <> [] /\ f (rel q) = true).
Proof.
  revert cs. induction fuel as [|fuel IH]; intros cs Hp Hf; [lia|]. cbn [any_directory_up].
  destruct (decide (cs = [])) as [->|Hne].
  { cbn. split; [done|]. by intros ([|? ?] & q' & ? & ? & _). }
  rewrite bool_decide_false by (intros H%rel_nil_inv; done).
  destruct (exists_last Hne) as (ds & g & ->). pose proof Hp as [Hd Hg]%Forall_app.
  rewrite Forall_singleton in Hg. rewrite parent_path_rel by done.
  destruct (f (rel (ds ++ [g]))) eqn:Hfx.
  { split; [|done]. intros _. exists (ds ++ [g]), []. by rewrite app_nil_r. }
  rewrite IH; [|done|].
  - split.
    + intros (q & q' & -> & Hq & Hfq). exists q, (q' ++ [g]). by rewrite app_assoc.
    + intros (q & q' & Ec & Hq & Hfq). destruct (decide (q' = [])) as [->|Hn'].
      * rewrite app_nil_r in Ec. subst q. congruence.
      * destruct (exists_last Hn') as (q'' & g' & ->). rewrite app_assoc in Ec.
        apply app_inj_tail in Ec as [-> _]. eauto.
  - destruct (decide (ds = [])) as [->|]; [|rewrite rel_snoc, length_app in Hf by done; cbn in Hf; lia].
    destruct Hg as [Hg _]. destruct g; [done|]. cbn in *. lia.
Qed.

Lemma HasWhiteout_rel q g :
  plain (q ++ [g]) ->
  (HasWhiteout d (rel (q ++ [g])) layer = true <->
   HasWhiteoutUnderWalkedDirectoryInLayer d (rel (q ++ [g])) layer = true /\
   LinkStopOf (stop (walk q)) = LinkStopNone).
Proof.
  intros [Hq Hg]%Forall_app. rewrite Forall_singleton in Hg. unfold HasWhiteout.
  by rewrite andb_true_iff, bool_decide_eq_true, marker_directory_rel, FindLinkOnPath_none by done.
Qed.

Context (cs : list wstring) (k : wstring) (Hplain : plain (cs ++ [k])) (Hcons : tree_consistent cs k).

Lemma plain_prefix q q' : cs = q ++ q' -> plain q.
Proof. intros ->. apply Forall_app in Hplain as [[? _]%Forall_app _]. done. Qed.

Lemma plain_cs : plain cs.
Proof. by apply Forall_app in Hplain as [? _]. Qed.

Lemma whited_out_ancestor_agrees idx :
  whitedOut (LayerAncestryOf d config layer (rel cs) idx) =
  HasWhitedOutAncestorInLayer d (rel (cs ++ [k])) layer.
Proof.
  pose proof plain_cs as Hc. pose proof Hplain as [_ Hk]%Forall_app. rewrite Forall_singleton in Hk.
  apply eq_bool_prop_intro. rewrite !Is_true_true.
  rewrite (reads_whiteout _ _ _ (LayerAncestryOf_reads cs idx Hc)).
  unfold HasWhitedOutAncestorInLayer, AnyDirectoryUpToRoot. rewrite orb_false_r, parent_path_rel by done.
  rewrite any_directory_up_rel by (done || lia). split.
  - intros (q & g & q' & Ec & Ha & Hw). exists (q ++ [g]), q'. rewrite <- app_assoc.
    split; [done|]. split; [by destruct q|].
    assert (Hq : plain q) by by eapply plain_prefix.
    apply HasWhiteout_rel; [eapply (plain_prefix _ q'); by rewrite <- app_assoc|].
    by rewrite (walk_directories q Hq Ha).
  - intros (p & q' & Ec & Hp & Hw). destruct (exists_last Hp) as (q & g & ->).
    rewrite <- app_assoc in Ec. cbn in Ec.
    assert (Hqg : plain (q ++ [g])) by (eapply (plain_prefix _ q'); by rewrite <- app_assoc).
    apply HasWhiteout_rel in Hw as [Hw Hl]; [|done]. exists q, g, q'. split; [done|]. split; [|done].
    destruct (decide (q = [])) as [->|Hq]; [apply all_directories_nil|].
    destruct (tree_marker _ _ Hcons q g (q' ++ [k])) as [Hm Hf]; [|done|done|].
    { by rewrite Ec, <- app_assoc. }
    by eapply walk_above_present.
Qed.

Lemma link_under_higher_agrees i :
  layer = lower_at config i ->
  linkUnderHigherEntry (LayerAncestryOf d config layer (rel cs) (Z.of_nat i)) =
  HasLinkUnderHigherLayerEntry d config i (rel cs).
Proof.
  intros Hl. apply eq_bool_prop_intro. rewrite !Is_true_true.
  rewrite (reads_link _ _ _ (LayerAncestryOf_reads cs (Z.of_nat i) plain_cs)).
  unfold HasLinkUnderHigherLayerEntry. rewrite <- Hl, andb_true_iff, bool_decide_eq_true, Nat2Z.id.
  intuition lia.
Qed.

Lemma opaque_here q q' :
  cs = q ++ q' -> q <> [] ->
  (IsOpaqueInLayer d config (rel q) layer = true <->
   HoldsOpaqueMarker d config (JoinDirPath layer (rel q)) = true /\
   LinkStopOf (stop (walk q)) = LinkStopNone).
Proof.
  intros Ec Hq. unfold IsOpaqueInLayer. rewrite andb_true_iff, bool_decide_eq_true, FindLinkOnPath_none.
  rewrite preserve_id; [done|]. apply rel_canonical. by eapply plain_prefix.
Qed.

Lemma walk_prefix_none q q' :
  plain (q ++ q') -> stop (walk (q ++ q')) = StopNone -> stop (walk q) = StopNone.
Proof.
  induction q' as [|g q' IH] using rev_ind; intros Hp Hs; [by rewrite app_nil_r in Hs|].
  rewrite app_assoc in Hp, Hs. pose proof Hp as [Hp' _]%Forall_app.
  destruct (all_directories_dec (q ++ q') Hp') as [Ha|Ha].
  - apply IH; [done|]. by rewrite walk_directories.
  - rewrite walk_stuck in Hs by done. by apply IH.
Qed.

Lemma walk_none_present q q' :
  cs = q ++ q' -> q <> [] -> kind q <> CMissing -> stop (walk q) = StopNone -> all_directories q.
Proof.
  revert q'. induction q as [|g q IH] using rev_ind; intros q' Ec _ Hm Hs; [apply all_directories_nil|].
  rewrite <- app_assoc in Ec. cbn [app] in Ec.
  assert (Hp : plain (q ++ [g])) by (eapply (plain_prefix _ q'); by rewrite <- app_assoc).
  pose proof Hp as [Hq _]%Forall_app.
  assert (Ha : all_directories q).
  { destruct (decide (q = [])) as [->|Hn]; [apply all_directories_nil|].
    destruct (tree_entry _ _ Hcons q g q' Ec Hn Hm) as [Hqm _].
    apply (IH (g :: q') Ec Hn Hqm). by eapply walk_prefix_none. }
  apply all_directories_snoc. split; [done|]. rewrite walk_through in Hs by done.
  by destruct (kind (q ++ [g])).
Qed.

Lemma lowers_below_agrees idx :
  let a := LayerAncestryOf d config layer (rel cs) idx in
  opaqueAbove a || negb (bool_decide (firstNonDirectory a = StopNone)) =
  negb (bool_decide (LowersBelow d config layer (rel cs) = LVisible)).
Proof.
  intros a. pose proof plain_cs as Hc.
  pose proof (LayerAncestryOf_reads cs idx Hc) as R. fold a in R.
  assert (Hb : LowersBelow d config layer (rel cs) = LVisible <->
    HasOpaqueSelfOrAncestorInLayer d config (rel cs) layer = false /\ stop (walk cs) = StopNone).
  { unfold LowersBelow, HasNonDirectoryOrLinkSelfOrAncestorInLayer.
    destruct (HasOpaqueSelfOrAncestorInLayer _ _ _ _); [naive_solver|].
    case_bool_decide; cbn; naive_solver. }
  assert (Hop : stop (walk cs) = StopNone ->
    opaqueAbove a = HasOpaqueSelfOrAncestorInLayer d config (rel cs) layer).
  { intros Hst. apply eq_bool_prop_intro. rewrite !Is_true_true, (reads_opaque _ _ _ R).
    unfold HasOpaqueSelfOrAncestorInLayer, AnyDirectoryUpToRoot.
    rewrite orb_true_iff, any_directory_up_rel by (done || lia).
    assert (walked_opaque cs <-> exists q q', cs = q ++ q' /\ q <> [] /\
              IsOpaqueInLayer d config (rel q) layer = true) as ->; [|tauto].
    split.
    - intros (q & q' & Ec & Hq & Ha & Hh). exists q, q'. split; [done|]. split; [done|].
      apply (opaque_here q q' Ec Hq). split; [done|]. by rewrite walk_directories by (by eapply plain_prefix || done).
    - intros (q & q' & Ec & Hq & [Hh Hl]%(opaque_here q q' Ec Hq)). exists q, q'.
      split; [done|]. split; [done|]. split; [|done].
      apply (walk_none_present q q' Ec Hq (tree_opaque _ _ Hcons q q' Ec Hq Hh)).
      apply (walk_prefix_none q q'); by rewrite <- Ec. }
  rewrite (reads_stop _ _ _ R). destruct (decide (stop (walk cs) = StopNone)) as [Hs|Hs].
  - rewrite (bool_decide_true (stop _ = _)), orb_false_r, Hop by done.
    destruct (HasOpaqueSelfOrAncestorInLayer d config (rel cs) layer) eqn:Ho.
    + rewrite bool_decide_false; [done|]. rewrite Hb. by intros [? _].
    + by rewrite bool_decide_true by by rewrite Hb.
  - rewrite (bool_decide_false (stop _ = _)), orb_true_r by done.
    rewrite bool_decide_false; [done|]. rewrite Hb. by intros [_ ?].
Qed.

End Ancestry.
