(* ===== verification/DirMerge.v ===== *)
(** * The merged listing of a directory

    All of [DirectoryMerge.cpp]: the scan of one layer, the loop over the
    layers in priority order, and the two entry points, from the root of the
    overlay and from the merge of the parent directory. *)
From S2P Require Export LayerWalk.
Open Scope Z_scope.

Inductive WhiteoutNames := AreMarkers | AreOrdinary.

#[export] Instance whiteout_names_eq_dec : EqDecision WhiteoutNames.
Proof. solve_decision. Defined.

Record MergedEntry := {
  findData : find_data;
  entrySource : LayerSource;
  entryLowerIndex : Z
}.

#[export] Instance merged_entry_eq_dec : EqDecision MergedEntry.
Proof. solve_decision. Defined.

Record MergedDirectory := {
  mergedStatus : NTSTATUS;
  entries : gmap wstring MergedEntry
}.

Record DirectoryMerge := {
  mergeEntries : gmap wstring MergedEntry;
  whitedOutNames : gset wstring
}.

Record LayerDirectoryScan := {
  scanStatus : NTSTATUS;
  scanWhitedOut : list wstring;
  scanEntries : list (wstring * find_data)
}.

Record MergeLayer := {
  layerPathOf : wstring;
  layerSource : LayerSource;
  layerIndex : Z
}.

Record MergedDirectoryWithAncestry := {
  merged : MergedDirectory;
  dirPath : wstring;
  layers : list LayerAncestry
}.

Definition WhiteoutNamesIn (ancestry : LayerAncestry) : WhiteoutNames :=
  if EndsAtLinkOrUnreadable (firstNonDirectory ancestry) then AreOrdinary else AreMarkers.

Definition IsDirectoryAbsentError (error : Z) : bool :=
  (error =? ERROR_FILE_NOT_FOUND) || (error =? ERROR_PATH_NOT_FOUND) || (error =? ERROR_DIRECTORY).

Definition ScanFailureStatus (error : Z) : NTSTATUS :=
  let status := NtStatusFromWin32 error in
  if NT_SUCCESS status then STATUS_UNSUCCESSFUL else status.

Definition HidesLayerAndBelow (layer : MergeLayer) (ancestry : LayerAncestry) : bool :=
  bool_decide (layerSource layer = Lower) && (whitedOut ancestry || linkUnderHigherEntry ancestry).

Definition HidesLayersBelow (layer : MergeLayer) (ancestry : LayerAncestry) : bool :=
  opaqueAbove ancestry || negb (bool_decide (firstNonDirectory ancestry = StopNone)) ||
  (bool_decide (layerSource layer = Upper) && whitedOut ancestry).

(** Slot 0 is the upper, and slot [i + 1] is lower [i]. *)
Definition MergeLayerAt (config : LayerConfig) (slot : nat) : MergeLayer :=
  match slot with
  | O => {| layerPathOf := upperPath config; layerSource := Upper; layerIndex := -1 |}
  | S i => {| layerPathOf := lower_at config i; layerSource := Lower; layerIndex := Z.of_nat i |}
  end.

Definition AddLayerWhiteouts (scan : LayerDirectoryScan) (merge : DirectoryMerge) : DirectoryMerge := {|
  mergeEntries := mergeEntries merge;
  whitedOutNames := whitedOutNames merge ∪ list_to_set (scanWhitedOut scan)
|}.

(** One turn of the loop over a scan's entries. *)
Definition add_scanned_entry (layer : MergeLayer) (merge : DirectoryMerge) (entry : wstring * find_data)
  : DirectoryMerge :=
  let (key, data) := entry in
  if bool_decide (is_Some (mergeEntries merge !! key)) || bool_decide (key ∈ whitedOutNames merge)
  then merge
  else {| mergeEntries := <[key := {| findData := data; entrySource := layerSource layer;
                                      entryLowerIndex := layerIndex layer |}]> (mergeEntries merge);
          whitedOutNames := whitedOutNames merge |}.

(** [ForEachScannedLayer] over the given slots, with the caller's two
    callbacks over a state of its own. *)
Fixpoint ForEachScannedLayer {St} (config : LayerConfig)
    (ancestryAt : nat -> MergeLayer -> eff St LayerAncestry)
    (scanLayer : MergeLayer -> LayerAncestry -> eff St bool) (slots : list nat) : eff St unit :=
  (match slots with
   | [] => eret tt
   | slot :: rest =>
       let layer := MergeLayerAt config slot in
       let! ancestry := ancestryAt slot layer in
       if HidesLayerAndBelow layer ancestry then eret tt
       else
         let! go := scanLayer layer ancestry in
         if negb go then eret tt
         else if HidesLayersBelow layer ancestry then eret tt
         else ForEachScannedLayer config ancestryAt scanLayer rest
   end)%eff.

Section Merge.
Context `{W : Win32} (d : disk).

Definition VisibleEntryKey (dirNorm name : wstring) : option wstring :=
  if bool_decide (name = L ".") || bool_decide (name = L "..") then None
  else
    let key := CaseFoldedName name in
    if bool_decide (dirNorm = []) && IsReservedRelativePath key then None else Some key.

Definition AddOrdinaryEntry (dirNorm : wstring) (fd : find_data) (scan : LayerDirectoryScan)
  : LayerDirectoryScan :=
  match VisibleEntryKey dirNorm (cFileName fd) with
  | Some key => {| scanStatus := scanStatus scan; scanWhitedOut := scanWhitedOut scan;
                   scanEntries := scanEntries scan ++ [(key, fd)] |}
  | None => scan
  end.

Definition AddMarkerOrEntry (dirNorm : wstring) (fd : find_data) (scan : LayerDirectoryScan)
  : LayerDirectoryScan :=
  let name := cFileName fd in
  match WhitedOutNameOfEntry name with
  | Some hidden => {| scanStatus := scanStatus scan;
                      scanWhitedOut := scanWhitedOut scan ++ [CaseFoldedName hidden];
                      scanEntries := scanEntries scan |}
  | None => if IsWhiteoutName name then scan else AddOrdinaryEntry dirNorm fd scan
  end.

Definition empty_scan : LayerDirectoryScan :=
  {| scanStatus := STATUS_SUCCESS; scanWhitedOut := []; scanEntries := [] |}.

Definition with_status (status : NTSTATUS) (scan : LayerDirectoryScan) : LayerDirectoryScan :=
  {| scanStatus := status; scanWhitedOut := scanWhitedOut scan; scanEntries := scanEntries scan |}.

Definition ScanLayerDirectory (layerPath dirNorm : wstring) (whiteoutNames : WhiteoutNames)
  : LayerDirectoryScan :=
  let addEntry := match whiteoutNames with
                  | AreMarkers => AddMarkerOrEntry
                  | AreOrdinary => AddOrdinaryEntry
                  end in
  let searchPath := JoinLayerScanPath layerPath dirNorm in
  match FindFilesW d (WithExtendedPrefix searchPath) with
  | Err openError =>
      if negb (IsDirectoryAbsentError openError) then with_status (ScanFailureStatus openError) empty_scan
      else empty_scan
  | Ok (found, scanEndError) =>
      let scan := foldl (fun scan fd => addEntry dirNorm fd scan) empty_scan found in
      if negb (scanEndError =? ERROR_NO_MORE_FILES)
      then with_status (ScanFailureStatus scanEndError) scan
      else scan
  end.

(** The merge after the layer, and the status of its scan. *)
Definition MergeLayerEntries (layer : MergeLayer) (dir : wstring) (whiteoutNames : WhiteoutNames)
    (merge : DirectoryMerge) : DirectoryMerge * NTSTATUS :=
  let scan := ScanLayerDirectory (layerPathOf layer) dir whiteoutNames in
  if negb (NT_SUCCESS (scanStatus scan)) then (merge, scanStatus scan)
  else
    let merge := match layerSource layer with Lower => AddLayerWhiteouts scan merge | _ => merge end in
    let merge := foldl (add_scanned_entry layer) merge (scanEntries scan) in
    let merge := match layerSource layer with Upper => AddLayerWhiteouts scan merge | _ => merge end in
    (merge, STATUS_SUCCESS).

(** The locals of [MergeLayers]: the ancestries, the status and the merge. *)
Record merge_state := {
  stLayers : list LayerAncestry;
  stStatus : NTSTATUS;
  stMerge : DirectoryMerge
}.

Context (config : LayerConfig).

Definition MergeLayers (dir : wstring) (slotLimit : nat)
    (ancestryAt : nat -> MergeLayer -> LayerAncestry) : MergedDirectoryWithAncestry :=
  let slotCount := Nat.min slotLimit (length (lowerPaths config) + 1) in
  let record slot layer : eff merge_state LayerAncestry := fun s =>
    let ancestry := ancestryAt slot layer in
    ({| stLayers := stLayers s ++ [ancestry]; stStatus := stStatus s; stMerge := stMerge s |}, ancestry) in
  let scan layer ancestry : eff merge_state bool := fun s =>
    let (merge, status) := MergeLayerEntries layer dir (WhiteoutNamesIn ancestry) (stMerge s) in
    ({| stLayers := stLayers s; stStatus := status; stMerge := merge |}, NT_SUCCESS status) in
  let start := {| stLayers := []; stStatus := STATUS_SUCCESS;
                  stMerge := {| mergeEntries := ∅; whitedOutNames := ∅ |} |} in
  let s := fst (ForEachScannedLayer config record scan (seq 0 slotCount) start) in
  {| merged := {| mergedStatus := stStatus s;
                  entries := if NT_SUCCESS (stStatus s) then mergeEntries (stMerge s) else ∅ |};
     dirPath := dir;
     layers := stLayers s |}.

Definition nothing_merged (dirNorm : wstring) : MergedDirectoryWithAncestry :=
  {| merged := {| mergedStatus := STATUS_SUCCESS; entries := ∅ |}; dirPath := dirNorm; layers := [] |}.

Definition MergeDirectoryWithAncestry (dirRelativePath : wstring) : MergedDirectoryWithAncestry :=
  let dirNorm := NormalizePath dirRelativePath in
  if (negb (bool_decide (dirNorm = [])) && negb (IsSafeRelativePath dirNorm)) ||
     IsReservedOverlayPath d config dirNorm
  then nothing_merged dirNorm
  else MergeLayers dirNorm (length (lowerPaths config) + 1)
         (fun _ layer => LayerAncestryOf d config (layerPathOf layer) dirNorm (layerIndex layer)).

Definition MergeChildDirectory (parent : MergedDirectoryWithAncestry) (childName : wstring)
  : MergedDirectoryWithAncestry :=
  let childPath := dirPath parent ++ L "\" ++ childName in
  MergeLayers childPath (length (layers parent))
    (fun slot layer =>
       StepLayerAncestry d config (layerPathOf layer) childPath (layerIndex layer)
         (default (root_ancestry d config (layerPathOf layer)) (layers parent !! slot))).

Definition MergeDirectoryAcrossLayers (dirRelativePath : wstring) : MergedDirectory :=
  merged (MergeDirectoryWithAncestry dirRelativePath).
End Merge.
