(* ===== verification/MergeFacts.v ===== *)
(** * What a merged listing guarantees

    The loop over the layers as a plain recursion, the effect of one layer on
    one name, and the merge of a child directory from the merge of its
    parent. *)
From S2P Require Export DirMerge AncestryFacts.
Open Scope Z_scope.

Section Loop.
Context `{W : Win32} (d : disk) (config : LayerConfig) (dir : wstring)
  (anc : nat -> MergeLayer -> LayerAncestry).

(** The state when the ancestry of a layer is recorded, and when the layer is
    scanned too. *)
Definition recorded (slot : nat) (s : merge_state) : merge_state :=
  {| stLayers := stLayers s ++ [anc slot (MergeLayerAt config slot)];
     stStatus := stStatus s; stMerge := stMerge s |}.

Definition scanned (slot : nat) (s : merge_state) : merge_state :=
  let layer := MergeLayerAt config slot in
  let out := MergeLayerEntries d layer dir (WhiteoutNamesIn (anc slot layer)) (stMerge s) in
  {| stLayers := stLayers s ++ [anc slot layer]; stStatus := snd out; stMerge := fst out |}.

Fixpoint merge_loop (slots : list nat) (s : merge_state) : merge_state :=
  match slots with
  | [] => s
  | slot :: rest =>
      let layer := MergeLayerAt config slot in
      if HidesLayerAndBelow layer (anc slot layer) then recorded slot s
      else if negb (NT_SUCCESS (stStatus (scanned slot s))) then scanned slot s
      else if HidesLayersBelow layer (anc slot layer) then scanned slot s
      else merge_loop rest (scanned slot s)
  end.

Definition merge_start : merge_state :=
  {| stLayers := []; stStatus := STATUS_SUCCESS; stMerge := {| mergeEntries := ∅; whitedOutNames := ∅ |} |}.

Definition merge_result (s : merge_state) : MergedDirectoryWithAncestry :=
  {| merged := {| mergedStatus := stStatus s;
                  entries := if NT_SUCCESS (stStatus s) then mergeEntries (stMerge s) else ∅ |};
     dirPath := dir; layers := stLayers s |}.

Lemma MergeLayers_loop limit :
  MergeLayers d config dir limit anc =
    merge_result (merge_loop (seq 0 (Nat.min limit (length (lowerPaths config) + 1))) merge_start).
Proof.
  unfold MergeLayers, merge_result.
  match goal with |- context [ForEachScannedLayer config ?f ?g ?l ?s] =>
    assert (H : forall slots st, fst (ForEachScannedLayer config f g slots st) = merge_loop slots st) end.
  { induction slots as [|slot rest IH]; intros st; [done|].
    cbn [ForEachScannedLayer merge_loop]. unfold ebind at 1. cbn [stMerge stLayers].
    destruct (HidesLayerAndBelow _ _); [done|]. unfold ebind, scanned. cbn [stMerge stLayers].
    destruct (MergeLayerEntries _ _ _ _ _) as [mg status] eqn:Em. cbn [fst snd stStatus].
    destruct (NT_SUCCESS status); cbn [negb]; [|done].
    destruct (HidesLayersBelow _ _); [done|apply IH]. }
  by rewrite H.
Qed.
End Loop.

(** ** What a scan finds *)

Section Scan.
Context `{W : Win32} `{CL : !CaseLaws} (d : disk).

Lemma ordinary_entries dir found scan :
  let s := foldl (fun scan fd => AddOrdinaryEntry dir fd scan) scan found in
  scanEntries s = scanEntries scan ++
    omap (fun fd => (fun key => (key, fd)) <$> VisibleEntryKey dir (cFileName fd)) found /\
  scanWhitedOut s = scanWhitedOut scan /\ scanStatus s = scanStatus scan.
Proof.
  revert scan. induction found as [|fd found IH]; intros scan; cbn; [by rewrite app_nil_r|].
  destruct (IH (AddOrdinaryEntry dir fd scan)) as (H1 & H2 & H3). rewrite H1, H2, H3.
  unfold AddOrdinaryEntry. destruct (VisibleEntryKey dir (cFileName fd)); cbn; [|done].
  by rewrite <- app_assoc.
Qed.

Definition marker_entry (fd : find_data) : bool :=
  bool_decide (is_Some (WhitedOutNameOfEntry (cFileName fd))) || IsWhiteoutName (cFileName fd).

Lemma marker_entries dir found scan :
  let s := foldl (fun scan fd => AddMarkerOrEntry dir fd scan) scan found in
  scanEntries s = scanEntries scan ++
    omap (fun fd => if marker_entry fd then None
                    else (fun key => (key, fd)) <$> VisibleEntryKey dir (cFileName fd)) found /\
  scanWhitedOut s = scanWhitedOut scan ++
    omap (fun fd => CaseFoldedName <$> WhitedOutNameOfEntry (cFileName fd)) found /\
  scanStatus s = scanStatus scan.
Proof.
  revert scan. induction found as [|fd found IH]; intros scan; cbn; [by rewrite !app_nil_r|].
  destruct (IH (AddMarkerOrEntry dir fd scan)) as (H1 & H2 & H3). rewrite H1, H2, H3.
  unfold AddMarkerOrEntry, marker_entry. destruct (WhitedOutNameOfEntry (cFileName fd)) as [h|]; cbn.
  - by rewrite <- app_assoc.
  - destruct (IsWhiteoutName (cFileName fd)); cbn; [done|].
    unfold AddOrdinaryEntry. destruct (VisibleEntryKey dir (cFileName fd)); cbn; [|done].
    by rewrite <- app_assoc.
Qed.

(** The names that a scan of the directory lists, case-folded. *)
Definition listed (layer dir : wstring) : list wstring :=
  match FindFilesW d (WithExtendedPrefix (JoinLayerScanPath layer dir)) with
  | Ok (found, _) => (fun fd => CaseFoldedName (cFileName fd)) <$> found
  | Err _ => []
  end.

(** A name that is a plain entry name and no marker. *)
Definition entry_name (dir k : wstring) : Prop :=
  CaseFoldedName k = k /\ k <> L "." /\ k <> L ".." /\ IsWhiteoutName k = false /\
  (dir = [] -> IsReservedRelativePath k = false).

Lemma lower_dot_name name s :
  Forall (fun c => c = ch_dot) s -> CharLowerBuffW name = s -> name = s.
Proof.
  revert name. induction s as [|c s IH]; intros [|x name] HF Hl; try done.
  inversion HF; subst. injection Hl as Hx Hl. f_equal; [|by apply IH].
  apply (lower_punct x ch_dot) in Hx; [done|apply elem_dot].
Qed.

Lemma VisibleEntryKey_entry dir k name :
  entry_name dir k -> (VisibleEntryKey dir name = Some k <-> CaseFoldedName name = k).
Proof.
  intros (_ & H1 & H2 & _ & Hr). unfold VisibleEntryKey, CaseFoldedName.
  destruct (decide (name = L ".")) as [->|Hn1].
  { split; [done|]. change (L ".") with [ch_dot] in *. cbn.
    rewrite lower_punct_fix by apply elem_dot. intros <-. done. }
  destruct (decide (name = L "..")) as [->|Hn2].
  { split; [done|]. change (L "..") with [ch_dot; ch_dot] in *. cbn.
    rewrite !lower_punct_fix by apply elem_dot. intros <-. done. }
  rewrite !bool_decide_false by done. cbn [orb].
  destruct (decide (CharLowerBuffW name = k)) as [<-|Hne].
  - split; [done|]. intros _. destruct (decide (dir = [])) as [->|Hd].
    + by rewrite Hr, andb_false_r by done.
    + by rewrite bool_decide_false by done.
  - split; [|done]. case_match; [done|]. by intros [= ->].
Qed.

Lemma marker_entry_folds fd k :
  CaseFoldedName (cFileName fd) = k -> CaseFoldedName k = k -> IsWhiteoutName k = false ->
  marker_entry fd = false.
Proof.
  intros Hf Hk Hw. unfold marker_entry.
  assert (Hn : IsWhiteoutName (cFileName fd) = false).
  { revert Hw. rewrite !whiteout_name_lower. unfold CaseFoldedName in *. by rewrite Hf, Hk. }
  rewrite Hn, orb_false_r. unfold WhitedOutNameOfEntry. rewrite Hn. cbn.
  done.
Qed.

Lemma scan_success layer dir names :
  NT_SUCCESS (scanStatus (ScanLayerDirectory d layer dir names)) = true ->
  (exists found, FindFilesW d (WithExtendedPrefix (JoinLayerScanPath layer dir)) =
     Ok (found, ERROR_NO_MORE_FILES)) \/
  (exists e, FindFilesW d (WithExtendedPrefix (JoinLayerScanPath layer dir)) = Err e /\
     IsDirectoryAbsentError e = true).
Proof.
  assert (Hf : forall e, NT_SUCCESS (ScanFailureStatus e) = false).
  { intros e. unfold ScanFailureStatus. by destruct (NT_SUCCESS (NtStatusFromWin32 e)) eqn:?. }
  unfold ScanLayerDirectory. destruct (FindFilesW d _) as [[found e]|e].
  - destruct (Z.eqb_spec e ERROR_NO_MORE_FILES) as [->|Hne]; cbn; [eauto|]. by rewrite Hf.
  - destruct (IsDirectoryAbsentError e) eqn:Ha; cbn; [eauto|]. by rewrite Hf.
Qed.

(** A successful scan shows exactly the listed entry names, and its whiteouts
    hide exactly the names whose markers are listed. *)
Lemma scan_names layer dir names k :
  entry_name dir k ->
  NT_SUCCESS (scanStatus (ScanLayerDirectory d layer dir names)) = true ->
  let scan := ScanLayerDirectory d layer dir names in
  (k ∈ (scanEntries scan).*1 <-> k ∈ listed layer dir) /\
  (k ∈ scanWhitedOut scan <-> names = AreMarkers /\ wh k ∈ listed layer dir).
Proof.
  intros Hk Hs scan. destruct Hk as (Hkf & Hk'). assert (Hk : entry_name dir k) by by split.
  assert (Hopq : k <> L ".wh..opq").
  { intros ->. destruct Hk as (_ & _ & _ & Hw & _). rewrite whiteout_name_lower in Hw.
    unfold CaseFoldedName in Hkf. rewrite Hkf in Hw. by vm_compute in Hw. }
  apply scan_success in Hs as [[found Hfound]|[e [Hfound He]]].
  2:{ unfold scan, ScanLayerDirectory, listed. rewrite Hfound, He. cbn. set_solver. }
  unfold scan, ScanLayerDirectory, listed. rewrite Hfound. cbn [Z.eqb ERROR_NO_MORE_FILES negb].
  cbn -[AddMarkerOrEntry AddOrdinaryEntry]. destruct names.
  - destruct (marker_entries dir found empty_scan) as (-> & -> & _). cbn. split.
    + rewrite list_elem_of_fmap. split.
      * intros ([key fd] & -> & (fd' & Hin & Hv)%list_elem_of_omap). cbn.
        destruct (marker_entry fd'); [done|].
        apply fmap_Some in Hv as (key' & Hv & [= -> ->]).
        apply list_elem_of_fmap. exists fd'. split; [|done]. symmetry.
        by apply (VisibleEntryKey_entry dir key').
      * intros (fd & Hkfd & Hin)%list_elem_of_fmap. exists (k, fd). split; [done|].
        apply list_elem_of_omap. exists fd. split; [done|].
        rewrite (marker_entry_folds fd k) by (done || by apply Hk).
        by rewrite (proj2 (VisibleEntryKey_entry dir k (cFileName fd) Hk)).
    + rewrite list_elem_of_omap, list_elem_of_fmap. split.
      * intros (fd & Hin & (h & Hh & Hf)%fmap_Some). split; [done|]. exists fd. split; [|done].
        symmetry. apply hidden_name_spec; [done|]. by exists h.
      * intros (_ & fd & Hf & Hin). symmetry in Hf. apply hidden_name_spec in Hf as (h & Hh & Hf); [|done].
        exists fd. split; [done|]. by rewrite Hh, <- Hf.
  - destruct (ordinary_entries dir found empty_scan) as (-> & -> & _). cbn. split; [|set_solver].
    rewrite list_elem_of_fmap. split.
    + intros ([key fd] & -> & (fd' & Hin & Hv)%list_elem_of_omap). cbn.
      apply fmap_Some in Hv as (key' & Hv & [= -> ->]).
      apply list_elem_of_fmap. exists fd'. split; [|done]. symmetry.
      by apply (VisibleEntryKey_entry dir key').
    + intros (fd & Hkfd & Hin)%list_elem_of_fmap. exists (k, fd). split; [done|].
      apply list_elem_of_omap. exists fd. split; [done|].
      by rewrite (proj2 (VisibleEntryKey_entry dir k (cFileName fd) Hk)).
Qed.
End Scan.

(** ** One layer's effect on one name *)

(** Where a merged entry comes from. *)
Definition origin (e : MergedEntry) : LayerSource * Z := (entrySource e, entryLowerIndex e).

Lemma add_scanned_entries_lookup layer found merge k :
  let merge' := foldl (add_scanned_entry layer) merge found in
  whitedOutNames merge' = whitedOutNames merge /\
  origin <$> mergeEntries merge' !! k =
    match origin <$> mergeEntries merge !! k with
    | Some o => Some o
    | None => if bool_decide (k ∈ whitedOutNames merge) then None
              else if bool_decide (k ∈ found.*1) then Some (layerSource layer, layerIndex layer) else None
    end.
Proof.
  revert merge. induction found as [|[key fd] found IH]; intros merge; cbn [foldl].
  { split; [done|]. cbn. destruct (mergeEntries merge !! k); cbn; [done|].
    rewrite (bool_decide_false (k ∈ [])) by apply not_elem_of_nil. by case_match. }
  destruct (IH (add_scanned_entry layer merge (key, fd))) as [H1 H2]. rewrite H1, H2. clear IH H1 H2.
  cbn [fmap list_fmap fst]. unfold add_scanned_entry.
  destruct (bool_decide (is_Some (mergeEntries merge !! key)) || bool_decide (key ∈ whitedOutNames merge)) eqn:Hskip.
  - split; [done|]. destruct (mergeEntries merge !! k) eqn:Hm; cbn; [done|].
    destruct (decide (k ∈ whitedOutNames merge)) as [Hw|Hw]; [by rewrite !bool_decide_true by done|].
    rewrite !(bool_decide_false (k ∈ whitedOutNames merge)) by done.
    destruct (decide (k = key)) as [->|Hne].
    + apply orb_true_iff in Hskip as [Hs%bool_decide_eq_true|Hs%bool_decide_eq_true]; [|done].
      rewrite Hm in Hs. by destruct Hs.
    + erewrite bool_decide_ext; [done|]. rewrite elem_of_cons. naive_solver.
  - apply orb_false_iff in Hskip as [Hs1 Hs2]. apply bool_decide_eq_false in Hs1, Hs2. cbn.
    split; [done|]. destruct (decide (k = key)) as [->|Hne].
    + rewrite lookup_insert_eq. cbn. destruct (mergeEntries merge !! key); [by destruct Hs1|]. cbn.
      rewrite bool_decide_false by done. by rewrite bool_decide_true by set_solver.
    + rewrite lookup_insert_ne by done. destruct (mergeEntries merge !! k); cbn; [done|].
      case_bool_decide; [done|]. erewrite bool_decide_ext; [done|]. rewrite elem_of_cons. naive_solver.
Qed.

Section One.
Context `{W : Win32} (d : disk).

Lemma MergeLayerEntries_lookup layer dir names merge k :
  let scan := ScanLayerDirectory d (layerPathOf layer) dir names in
  layerSource layer = Upper \/ layerSource layer = Lower ->
  NT_SUCCESS (scanStatus scan) = true ->
  let merge' := fst (MergeLayerEntries d layer dir names merge) in
  snd (MergeLayerEntries d layer dir names merge) = STATUS_SUCCESS /\
  (k ∈ whitedOutNames merge' <-> k ∈ whitedOutNames merge \/ k ∈ scanWhitedOut scan) /\
  origin <$> mergeEntries merge' !! k =
    match origin <$> mergeEntries merge !! k with
    | Some o => Some o
    | None =>
        if bool_decide (k ∈ whitedOutNames merge) then None
        else if bool_decide (layerSource layer = Lower) && bool_decide (k ∈ scanWhitedOut scan) then None
        else if bool_decide (k ∈ (scanEntries scan).*1) then Some (layerSource layer, layerIndex layer)
        else None
    end.
Proof.
  intros scan Hsrc Hs. unfold MergeLayerEntries. fold scan. rewrite Hs. cbn [negb fst snd].
  destruct Hsrc as [Hsrc|Hsrc]; rewrite Hsrc.
  - destruct (add_scanned_entries_lookup layer (scanEntries scan) merge k) as [H1 H2].
    split; [done|]. split.
    + cbn. rewrite H1. set_solver.
    + cbn [mergeEntries AddLayerWhiteouts]. rewrite H2, Hsrc. done.
  - destruct (add_scanned_entries_lookup layer (scanEntries scan) (AddLayerWhiteouts scan merge) k) as [H1 H2].
    split; [done|]. split.
    + rewrite H1. cbn. set_solver.
    + rewrite H2, Hsrc. cbn [mergeEntries whitedOutNames AddLayerWhiteouts].
      destruct (origin <$> mergeEntries merge !! k); [done|]. rewrite (bool_decide_true (Lower = Lower)) by done.
      destruct (decide (k ∈ whitedOutNames merge)) as [Hi|Hi].
      * by rewrite !bool_decide_true by set_solver.
      * rewrite (bool_decide_false (k ∈ whitedOutNames merge)) by done. cbn.
        erewrite bool_decide_ext; [done|]. set_solver.
Qed.

Lemma MergeLayerEntries_failed layer dir names merge :
  NT_SUCCESS (snd (MergeLayerEntries d layer dir names merge)) = true ->
  NT_SUCCESS (scanStatus (ScanLayerDirectory d (layerPathOf layer) dir names)) = true.
Proof.
  unfold MergeLayerEntries. destruct (NT_SUCCESS (scanStatus _)) eqn:Hs; cbn; [done|congruence].
Qed.
End One.

(** ** The merge of a child directory *)

Section Reach.
Context `{W : Win32} (d : disk) (config : LayerConfig) (dir : wstring)
  (anc : nat -> MergeLayer -> LayerAncestry).

(** The walk goes no further than the layer in the slot. *)
Definition stops (slot : nat) : bool :=
  let layer := MergeLayerAt config slot in
  HidesLayerAndBelow layer (anc slot layer) || HidesLayersBelow layer (anc slot layer).

(** The ancestries that a merge keeps are those of the first slots, and a
    successful merge that kept fewer than all stopped at the last of them. *)
Lemma merge_loop_layers slots s :
  exists m, (m <= length slots)%nat /\
    stLayers (merge_loop d config dir anc slots s) =
      stLayers s ++ ((fun x => anc x (MergeLayerAt config x)) <$> take m slots) /\
    (NT_SUCCESS (stStatus (merge_loop d config dir anc slots s)) = true -> (m < length slots)%nat ->
       exists m' x, m = S m' /\ slots !! m' = Some x /\ stops x = true).
Proof.
  revert s. induction slots as [|slot rest IH]; intros s; cbn [merge_loop].
  { exists 0%nat. cbn. rewrite app_nil_r. split; [lia|]. split; [done|lia]. }
  destruct (HidesLayerAndBelow _ _) eqn:H1.
  { exists 1%nat. cbn. split; [lia|]. split; [by rewrite take_0|]. intros _ _. exists 0%nat, slot.
    unfold stops. by rewrite H1. }
  destruct (NT_SUCCESS (stStatus (scanned d config dir anc slot s))) eqn:Hst; cbn [negb].
  2:{ exists 1%nat. cbn [length take fmap list_fmap]. rewrite take_0. split; [lia|]. split; [done|congruence]. }
  destruct (HidesLayersBelow _ _) eqn:H2.
  { exists 1%nat. cbn [length take fmap list_fmap]. rewrite take_0. split; [lia|]. split; [done|].
    intros _ _. exists 0%nat, slot. unfold stops. by rewrite H1, H2. }
  destruct (IH (scanned d config dir anc slot s)) as (m & Hm & Hl & Hs). exists (S m).
  cbn [length take fmap list_fmap]. split; [lia|]. split.
  - rewrite Hl. cbn. by rewrite <- app_assoc.
  - intros Hok Hlt. destruct (Hs Hok ltac:(lia)) as (m' & x & -> & Hx & Hstop). by exists (S m'), x.
Qed.

Lemma merge_loop_cut l1 l2 m x s :
  length l1 = S m -> l1 !! m = Some x -> stops x = true ->
  merge_loop d config dir anc (l1 ++ l2) s = merge_loop d config dir anc l1 s.
Proof.
  revert m s. induction l1 as [|slot rest IH]; intros m s Hl Hx Hstop; [done|].
  cbn [app merge_loop]. destruct (HidesLayerAndBelow _ _) eqn:H1; [done|].
  destruct (negb _); [done|]. destruct (HidesLayersBelow _ _) eqn:H2; [done|].
  destruct m as [|m]; cbn in Hl, Hx.
  - injection Hx as ->. unfold stops in Hstop. by rewrite H1, H2 in Hstop.
  - apply (IH m); [congruence|done|done].
Qed.
End Reach.

Lemma merge_loop_ext `{W : Win32} d config dir anc anc' slots s :
  (forall x, x ∈ slots -> anc x (MergeLayerAt config x) = anc' x (MergeLayerAt config x)) ->
  merge_loop d config dir anc slots s = merge_loop d config dir anc' slots s.
Proof.
  revert s. induction slots as [|slot rest IH]; intros s Hx; cbn [merge_loop]; [done|].
  unfold recorded, scanned. rewrite (Hx slot) by left. by rewrite !IH by (intros; apply Hx; by right).
Qed.

Section Child.
Context `{W : Win32} `{CL : !CaseLaws} (d : disk) (config : LayerConfig).

(** What a layer hides from a directory it hides from every directory below. *)
Lemma stops_inherited cs k layer idx a (c := StepLayerAncestry d config (layerPathOf layer) (rel (cs ++ [k])) idx a) :
  ancestry_reads d config (layerPathOf layer) cs idx a ->
  HidesLayerAndBelow layer a || HidesLayersBelow layer a = true ->
  HidesLayerAndBelow layer c || HidesLayersBelow layer c = true.
Proof.
  intros R. subst c. unfold StepLayerAncestry.
  destruct (absent a); [done|]. case_bool_decide as Hst; [|done].
  assert (Hl : linkUnderHigherEntry a = false).
  { apply not_true_iff_false. rewrite (reads_link _ _ _ _ _ _ R), <- (reads_stop _ _ _ _ _ _ R), Hst.
    by intros (_ & ? & _). }
  unfold HidesLayerAndBelow, HidesLayersBelow. cbn. rewrite Hl, Hst.
  rewrite (bool_decide_true (StopNone = StopNone)) by done.
  destruct (whitedOut a), (opaqueAbove a), (layerSource layer); cbn; rewrite ?orb_true_r; done.
Qed.

(** C16: The merge of a child directory from the merge of its parent, which reads
    only the child's own path in each layer that the parent's merge reached,
    gives exactly what the merge from the overlay's root gives: the same
    status, the same entries and the same ancestries. *)
Theorem MergeChildDirectory_correct cs k :
  let parent := MergeDirectoryWithAncestry d config (rel cs) in
  plain (cs ++ [k]) -> cs <> [] -> CharLowerBuffW (rel (cs ++ [k])) = rel (cs ++ [k]) ->
  IsSafeRelativePath (rel cs) && negb (IsReservedOverlayPath d config (rel cs)) = true ->
  IsSafeRelativePath (rel (cs ++ [k])) && negb (IsReservedOverlayPath d config (rel (cs ++ [k]))) = true ->
  NT_SUCCESS (mergedStatus (merged parent)) = true ->
  MergeChildDirectory d config parent k = MergeDirectoryWithAncestry d config (rel (cs ++ [k])).
Proof.
  intros parent Hp Hcs Hlow Hg1 Hg2 Hok. pose proof Hp as [Hc _]%Forall_app.
  assert (Hlow1 : CharLowerBuffW (rel cs) = rel cs).
  { rewrite rel_snoc, lower_app in Hlow by done. apply app_inj_1 in Hlow as [? _]; [done|apply lower_length]. }
  apply andb_true_iff in Hg1 as [Hs1 Hr1%negb_true_iff], Hg2 as [Hs2 Hr2%negb_true_iff].
  set (n := length (lowerPaths config)).
  pose (P := fun (_ : nat) layer => LayerAncestryOf d config (layerPathOf layer) (rel cs) (layerIndex layer)).
  pose (C := fun (_ : nat) layer => LayerAncestryOf d config (layerPathOf layer) (rel (cs ++ [k])) (layerIndex layer)).
  assert (Hparent : parent = merge_result (rel cs) (merge_loop d config (rel cs) P (seq 0 (n + 1)) merge_start)).
  { unfold parent, MergeDirectoryWithAncestry. rewrite normalize_id by auto using rel_canonical.
    rewrite Hs1, Hr1, andb_false_r. cbn [orb]. by rewrite MergeLayers_loop, Nat.min_id. }
  assert (Hdirect : MergeDirectoryWithAncestry d config (rel (cs ++ [k])) =
    merge_result (rel (cs ++ [k])) (merge_loop d config (rel (cs ++ [k])) C (seq 0 (n + 1)) merge_start)).
  { unfold MergeDirectoryWithAncestry. rewrite normalize_id by auto using rel_canonical.
    rewrite Hs2, Hr2, andb_false_r. cbn [orb]. by rewrite MergeLayers_loop, Nat.min_id. }
  rewrite Hdirect. unfold MergeChildDirectory. rewrite MergeLayers_loop.
  destruct (merge_loop_layers d config (rel cs) P (seq 0 (n + 1)) merge_start) as (m & Hm & Hl & Hstop).
  rewrite length_seq in Hm, Hstop. rewrite Hparent in Hok |- *. cbn [layers dirPath merge_result] in *.
  rewrite Hl. cbn [stLayers merge_start app]. rewrite length_fmap, length_take, length_seq.
  change (L "\" ++ k) with (ch_bsl :: k). rewrite <- rel_snoc by done. f_equal.
  replace (Nat.min (Nat.min m (n + 1)) (length (lowerPaths config) + 1)) with m by (subst n; lia).
  transitivity (merge_loop d config (rel (cs ++ [k])) C (seq 0 m) merge_start).
  - apply merge_loop_ext. intros x Hx%elem_of_seq. unfold C.
    rewrite list_lookup_fmap, lookup_take_lt, lookup_seq_lt by lia. cbn. symmetry. by apply LayerAncestryOf_snoc.
  - destruct (decide (m = (n + 1)%nat)) as [->|Hne]; [done|].
    destruct (Hstop Hok ltac:(lia)) as (m' & x & -> & Hx & Hst).
    replace (n + 1)%nat with (S m' + (n - m'))%nat by lia. rewrite seq_app. symmetry.
    apply lookup_seq in Hx as [-> _]. apply (merge_loop_cut _ _ _ _ _ _ m' (0 + m')%nat).
    + by rewrite length_seq.
    + apply lookup_seq. lia.
    + unfold stops, C. rewrite LayerAncestryOf_snoc by done.
      eapply stops_inherited; [by apply LayerAncestryOf_reads|exact Hst].
Qed.
End Child.
