(* ===== verification/Cache.v ===== *)
(** * The path cache

    [Cache.cpp]: resolved paths by normalized path, with least-recently-used
    eviction and the two invalidations.  The clock is [steady_clock], one
    reading per call.  A [std::unordered_map] is iterated in no documented
    order, so the order is a parameter. *)
From S2P Require Export LayerEntry.
Open Scope Z_scope.

Record CacheEntry := { resolved : ResolvedPath; lastAccessTicks : Z }.

Record Cache := {
  cacheEntries : gmap wstring CacheEntry;
  maxCapacity : nat;
  hits : Z;
  misses : Z;
  clockReads : nat
}.

(** The order in which a loop over the map meets its entries, and the clock's
    readings. *)
Class CacheEnv := {
  iteration_order : gmap wstring CacheEntry -> list (wstring * CacheEntry);
  iteration_order_perm : forall m, iteration_order m ≡ₚ map_to_list m;
  steady_clock : nat -> Z
}.

Section Cache.
Context `{W : Win32} `{E : CacheEnv}.

Definition new_cache (capacity : nat) : Cache :=
  {| cacheEntries := ∅; maxCapacity := capacity; hits := 0; misses := 0; clockReads := 0 |}.

(** The same cache with other entries. *)
Definition with_entries (m : gmap wstring CacheEntry) (c : Cache) : Cache :=
  {| cacheEntries := m; maxCapacity := maxCapacity c; hits := hits c; misses := misses c;
     clockReads := clockReads c |}.

Definition Get (relativePath : wstring) : eff Cache (option ResolvedPath) := fun c =>
  let key := NormalizePath relativePath in
  match cacheEntries c !! key with
  | None =>
      ({| cacheEntries := cacheEntries c; maxCapacity := maxCapacity c; hits := hits c;
          misses := (misses c + 1) mod 2 ^ 64; clockReads := clockReads c |}, None)
  | Some entry =>
      let nowTicks := steady_clock (clockReads c) in
      ({| cacheEntries := <[key := {| resolved := resolved entry; lastAccessTicks := nowTicks |}]>
                            (cacheEntries c);
          maxCapacity := maxCapacity c; hits := (hits c + 1) mod 2 ^ 64; misses := misses c;
          clockReads := S (clockReads c) |}, Some (resolved entry))
  end.

(** The loop of [EvictLRU]: a later entry replaces the candidate only when it
    is strictly older. *)
Definition oldest_of (first : wstring * CacheEntry) (rest : list (wstring * CacheEntry))
  : wstring * CacheEntry :=
  foldl (fun oldest it => if lastAccessTicks (snd it) <? lastAccessTicks (snd oldest) then it else oldest)
        first rest.

Definition EvictLRU (m : gmap wstring CacheEntry) : gmap wstring CacheEntry :=
  match iteration_order m with
  | [] => m
  | first :: rest => delete (fst (oldest_of first rest)) m
  end.

Definition Put (relativePath : wstring) (r : ResolvedPath) : eff Cache unit := fun c =>
  let key := NormalizePath relativePath in
  let nowTicks := steady_clock (clockReads c) in
  let m := <[key := {| resolved := r; lastAccessTicks := nowTicks |}]> (cacheEntries c) in
  let m := if (maxCapacity c <? size m)%nat then EvictLRU m else m in
  ({| cacheEntries := m; maxCapacity := maxCapacity c; hits := hits c; misses := misses c;
      clockReads := S (clockReads c) |}, tt).

Definition Invalidate (relativePath : wstring) : eff Cache unit := fun c =>
  let key := NormalizePath relativePath in
  let m := delete key (cacheEntries c) in
  (with_entries (filter (fun kv => ~ IsInsideDirectory (fst kv) key) m) c, tt).

(** The ancestors that [InvalidateWithAncestors] collects.  A parent is
    shorter than its path, except at a root, where the loop breaks. *)
Fixpoint ancestor_keys (fuel : nat) (ancestor : wstring) : list wstring :=
  match fuel with
  | O => []
  | S fuel' =>
      if bool_decide (ancestor = []) then []
      else
        let next := parent_path ancestor in
        if bool_decide (next = ancestor) then [ancestor]
        else ancestor :: ancestor_keys fuel' next
  end.

Definition InvalidateWithAncestors (relativePath : wstring) : eff Cache unit := fun c =>
  let key := NormalizePath relativePath in
  let ancestors := ancestor_keys (S (length key)) (parent_path key) in
  let shouldRemove entryKey :=
    bool_decide (entryKey = key) || IsInsideDirectory entryKey key ||
    bool_decide (entryKey ∈ ancestors) in
  (with_entries (filter (fun kv => ~ shouldRemove (fst kv)) (cacheEntries c)) c, tt).

Definition Clear : eff Cache unit := fun c => (with_entries ∅ c, tt).

Definition Size (c : Cache) : nat := size (cacheEntries c).
Definition Hits (c : Cache) : Z := hits c.
Definition Misses (c : Cache) : Z := misses c.
End Cache.

(** An order for the witnesses. *)
#[export] Instance list_cache_env : CacheEnv := {|
  iteration_order := map_to_list;
  iteration_order_perm := fun m => Permutation_refl (map_to_list m);
  steady_clock := Z.of_nat
|}.
