(* ===== verification/CacheFacts.v ===== *)
(** * What the path cache guarantees

    The cache implements a partial map that may forget: it never holds more
    than its capacity, never answers with anything but the last value put at
    the path since its last invalidation, evicts only a least recently used
    entry, and its two invalidations remove exactly the related paths. *)
From S2P Require Export Cache.
Open Scope Z_scope.

#[local] Arguments Nat.ltb : simpl never.
#[local] Arguments ancestor_keys : simpl never.

(** ** The abstract map *)

Inductive cache_op :=
| OpGet (path : wstring)
| OpPut (path : wstring) (r : ResolvedPath)
| OpInvalidate (path : wstring)
| OpInvalidateWithAncestors (path : wstring)
| OpClear.

Section Cache.
Context `{W : Win32} `{E : CacheEnv}.

(** An operation on the cache, with the answer of a [Get]. *)
Definition run_cache_op (op : cache_op) : eff Cache (option ResolvedPath) :=
  (match op with
   | OpGet p => Get p
   | OpPut p r => do! Put p r in eret None
   | OpInvalidate p => do! Invalidate p in eret None
   | OpInvalidateWithAncestors p => do! InvalidateWithAncestors p in eret None
   | OpClear => do! Clear in eret None
   end)%eff.

Fixpoint run_cache_ops (ops : list cache_op) : eff Cache (list (option ResolvedPath)) :=
  (match ops with
   | [] => eret []
   | op :: ops' => let! a := run_cache_op op in let! answers := run_cache_ops ops' in eret (a :: answers)
   end)%eff.

(** The related paths of an invalidation: at or below the path, and, for
    [InvalidateWithAncestors], the paths above it. *)
Definition at_or_below (key k : wstring) : bool := bool_decide (k = key) || IsInsideDirectory k key.

Definition related (key k : wstring) : bool :=
  at_or_below key k || bool_decide (k ∈ ancestor_keys (S (length key)) (parent_path key)).

(** The map that a cache without a capacity would be. *)
Definition spec_op (m : gmap wstring ResolvedPath) (op : cache_op)
  : gmap wstring ResolvedPath * option ResolvedPath :=
  match op with
  | OpGet p => (m, m !! NormalizePath p)
  | OpPut p r => (<[NormalizePath p := r]> m, None)
  | OpInvalidate p => (filter (fun kv => ~ at_or_below (NormalizePath p) (fst kv)) m, None)
  | OpInvalidateWithAncestors p =>
      (filter (fun kv => ~ related (NormalizePath p) (fst kv)) m, None)
  | OpClear => (∅, None)
  end.

Fixpoint spec_ops (m : gmap wstring ResolvedPath) (ops : list cache_op) : list (option ResolvedPath) :=
  match ops with
  | [] => []
  | op :: ops' => let (m', a) := spec_op m op in a :: spec_ops m' ops'
  end.

(** The cache holds a part of the map, within its capacity. *)
Record cache_represents (c : Cache) (m : gmap wstring ResolvedPath) : Prop := {
  rep_sub : forall k e, cacheEntries c !! k = Some e -> m !! k = Some (resolved e);
  rep_size : (Size c <= maxCapacity c)%nat
}.

(** ** Eviction *)

Lemma oldest_of_spec first rest :
  oldest_of first rest ∈ first :: rest /\
  Forall (fun it => lastAccessTicks (snd (oldest_of first rest)) <= lastAccessTicks (snd it)) (first :: rest).
Proof.
  revert first. induction rest as [|x rest IH]; intros first; cbn.
  { split; [left|]. constructor; [lia|constructor]. }
  destruct (Z.ltb_spec (lastAccessTicks (snd x)) (lastAccessTicks (snd first))) as [H|H].
  - destruct (IH x) as [Hin Hall]. split; [set_solver|].
    inversion Hall; subst. constructor; [|done]. unfold oldest_of in *. lia.
  - destruct (IH first) as [Hin Hall]. split; [set_solver|].
    inversion Hall; subst. constructor; [done|]. constructor; [|done]. unfold oldest_of in *. lia.
Qed.

Lemma EvictLRU_spec m :
  m <> ∅ ->
  exists k e, m !! k = Some e /\ EvictLRU m = delete k m /\
    forall k' e', m !! k' = Some e' -> lastAccessTicks e <= lastAccessTicks e'.
Proof.
  intros Hm. pose proof (iteration_order_perm m) as Hp. unfold EvictLRU.
  destruct (iteration_order m) as [|first rest] eqn:Ho.
  { apply Permutation_nil, map_to_list_empty_iff in Hp. done. }
  destruct (oldest_of_spec first rest) as [Hin Hall].
  destruct (oldest_of first rest) as [k e] eqn:Eo. exists k, e.
  rewrite Forall_forall in Hall. split; [|split; [done|]].
  - apply elem_of_map_to_list. by rewrite <- Hp.
  - intros k' e' H'. apply (Hall (k', e')). rewrite Hp. by apply elem_of_map_to_list.
Qed.

Lemma EvictLRU_sub m k e : EvictLRU m !! k = Some e -> m !! k = Some e.
Proof.
  destruct (decide (m = ∅)) as [->|Hm].
  - unfold EvictLRU. destruct (iteration_order ∅); [done|]. by rewrite delete_empty.
  - destruct (EvictLRU_spec m Hm) as (k' & e' & _ & -> & _). rewrite lookup_delete_Some. tauto.
Qed.

Lemma EvictLRU_size m : size (EvictLRU m) = (size m - 1)%nat.
Proof.
  destruct (decide (m = ∅)) as [->|Hm].
  - unfold EvictLRU. destruct (iteration_order ∅); rewrite ?delete_empty; by rewrite map_size_empty.
  - destruct (EvictLRU_spec m Hm) as (k & e & Hk & -> & _). rewrite map_size_delete, Hk. cbn. lia.
Qed.

(** Putting into a full cache forgets at most one entry, and it is one that
    no other entry is older than; a cache with room forgets nothing. *)
Theorem Put_evicts_lru p r c :
  let m := <[NormalizePath p := {| resolved := r; lastAccessTicks := steady_clock (clockReads c) |}]>
             (cacheEntries c) in
  let after := cacheEntries (fst (Put p r c)) in
  ((size m <= maxCapacity c)%nat -> after = m) /\
  ((maxCapacity c < size m)%nat ->
     exists k e, m !! k = Some e /\ after = delete k m /\
       forall k' e', m !! k' = Some e' -> lastAccessTicks e <= lastAccessTicks e').
Proof.
  intros m after. unfold after, Put. cbn [fst cacheEntries]. fold m. split; intros H.
  - by rewrite (proj2 (Nat.ltb_ge _ _)).
  - rewrite (proj2 (Nat.ltb_lt _ _)) by done. apply EvictLRU_spec. apply insert_non_empty.
Qed.

(** ** The refinement *)

Lemma represents_filter c m (P : wstring -> bool) :
  cache_represents c m ->
  cache_represents (with_entries (filter (fun kv => ~ P (fst kv)) (cacheEntries c)) c)
             (filter (fun kv => ~ P (fst kv)) m).
Proof.
  intros [Hs Hc]. split; cbn.
  - intros k e. rewrite !map_lookup_filter_Some. cbn. intros [H1 H2]. auto.
  - etransitivity; [|exact Hc]. apply map_subseteq_size, map_filter_subseteq.
Qed.

Lemma size_insert_le (m : gmap wstring CacheEntry) k e : (size (<[k := e]> m) <= S (size m))%nat.
Proof. rewrite map_size_insert. destruct (m !! k); cbn -[size]; lia. Qed.

Lemma filter_delete_at_or_below (m : gmap wstring CacheEntry) key :
  filter (fun kv => ~ IsInsideDirectory (fst kv) key) (delete key m) =
  filter (fun kv => ~ at_or_below key (fst kv)) m.
Proof.
  apply map_eq. intros k. apply option_eq. intros e.
  rewrite !map_lookup_filter_Some, lookup_delete_Some. cbn. unfold at_or_below.
  rewrite orb_True, bool_decide_spec. intuition congruence.
Qed.

Lemma run_op_represents c m op :
  cache_represents c m ->
  let (c', a) := run_cache_op op c in
  let (m', b) := spec_op m op in
  cache_represents c' m' /\ (a = None \/ a = b) /\ maxCapacity c' = maxCapacity c.
Proof.
  intros R. pose proof R as [Hs Hc]. unfold Size in Hc. destruct op as [p|p r|p|p|]; cbn.
  - unfold Get. destruct (cacheEntries c !! NormalizePath p) as [e|] eqn:Ek.
    + split; [|split; [right; symmetry; by apply Hs|done]].
      split; unfold Size; cbn.
      * intros k e'. rewrite lookup_insert_Some. intros [[<- <-]|[_ H]]; [by apply (Hs _ e)|auto].
      * by rewrite map_size_insert_Some by done.
    + split; [|auto]. by split.
  - split; [|auto]. split; unfold Size; cbn.
    + intros k e H. assert (H' : <[NormalizePath p := {| resolved := r;
          lastAccessTicks := steady_clock (clockReads c) |}]> (cacheEntries c) !! k = Some e).
      { case_match; [by apply EvictLRU_sub|done]. }
      apply lookup_insert_Some in H' as [[<- <-]|[Hne H']]; [by rewrite lookup_insert_eq|].
      rewrite lookup_insert_ne by done. auto.
    + pose proof (size_insert_le (cacheEntries c) (NormalizePath p)
        {| resolved := r; lastAccessTicks := steady_clock (clockReads c) |}).
      destruct (Nat.ltb_spec (maxCapacity c) (size (<[NormalizePath p := {| resolved := r;
          lastAccessTicks := steady_clock (clockReads c) |}]> (cacheEntries c)))); [rewrite EvictLRU_size|]; lia.
  - rewrite filter_delete_at_or_below. split; [|auto].
    exact (represents_filter c m (at_or_below (NormalizePath p)) R).
  - split; [|auto]. exact (represents_filter c m (related (NormalizePath p)) R).
  - split; [|auto]. split; cbn; [done|]. unfold Size; cbn. rewrite map_size_empty. lia.
Qed.

Lemma cache_ops_represent ops c m :
  cache_represents c m ->
  (exists m', cache_represents (fst (run_cache_ops ops c)) m') /\
  Forall2 (fun a b => a = None \/ a = b) (snd (run_cache_ops ops c)) (spec_ops m ops) /\
  maxCapacity (fst (run_cache_ops ops c)) = maxCapacity c.
Proof.
  revert c m. induction ops as [|op ops IH]; intros c m R; cbn; [eauto|].
  pose proof (run_op_represents c m op R) as H. unfold ebind.
  destruct (run_cache_op op c) as [c1 a], (spec_op m op) as [m1 b]. destruct H as (R1 & Ha & Hc).
  destruct (IH c1 m1 R1) as ((m' & R') & HF & Hc').
  destruct (run_cache_ops ops c1) as [c2 answers]; cbn in *. split; [eauto|]. split; [by constructor|congruence].
Qed.

(** Whatever the sequence of operations on a new cache, the cache stays
    within its capacity, and each lookup answers either nothing or exactly
    what an unbounded map with the same puts and invalidations holds: an
    eviction loses an answer and never invents or revives one. *)
Theorem Cache_refines_map capacity ops :
  let (c, answers) := run_cache_ops ops (new_cache capacity) in
  (Size c <= capacity)%nat /\
  Forall2 (fun a b => a = None \/ a = b) answers (spec_ops ∅ ops).
Proof.
  assert (R : cache_represents (new_cache capacity) ∅).
  { split; cbn; [done|]. unfold Size; cbn. rewrite map_size_empty. lia. }
  destruct (cache_ops_represent ops _ _ R) as ((m' & R') & HF & Hc).
  destruct (run_cache_ops ops (new_cache capacity)) as [c answers]. split; [|done].
  rewrite <- (Hc : maxCapacity c = capacity). apply R'.
Qed.

End Cache.

(** ** Exact invalidation *)

Section Exact.
Context `{W : Win32} `{CL : !CaseLaws} `{E : CacheEnv}.

Lemma ancestor_keys_rel fuel cs k :
  plain cs -> (length (rel cs) < fuel)%nat ->
  (k ∈ ancestor_keys fuel (rel cs) <-> exists ds es, ds <> [] /\ cs = ds ++ es /\ k = rel ds).
Proof.
  revert cs. induction fuel as [|fuel IH]; intros cs Hp Hf; [lia|].
  change (ancestor_keys (S fuel) (rel cs)) with
    (if bool_decide (rel cs = []) then []
     else if bool_decide (parent_path (rel cs) = rel cs) then [rel cs]
          else rel cs :: ancestor_keys fuel (parent_path (rel cs))).
  destruct (decide (cs = [])) as [->|Hne].
  { split; [by intros ?%not_elem_of_nil|]. intros (ds & es & Hd & Ed & _).
    symmetry in Ed. apply app_eq_nil in Ed as [-> _]. done. }
  rewrite bool_decide_false by (intros H%rel_nil_inv; done).
  destruct (exists_last Hne) as (ds & g & ->). apply Forall_app in Hp as [Hd Hg].
  rewrite Forall_singleton in Hg. rewrite parent_path_rel by done.
  assert (Hl : (length (rel ds) < length (rel (ds ++ [g])))%nat).
  { destruct (decide (ds = [])) as [->|Hdn].
    - destruct Hg as [Hg _]. destruct g; cbn; [done|lia].
    - rewrite rel_snoc, length_app by done. cbn. lia. }
  rewrite bool_decide_false by (intros H; rewrite H in Hl; lia).
  rewrite elem_of_cons, IH by (done || lia). split.
  - intros [->|(ds' & es & Hd' & -> & ->)].
    + exists (ds ++ [g]), []. rewrite app_nil_r. split; [by destruct ds|done].
    + exists ds', (es ++ [g]). by rewrite app_assoc.
  - intros (ds' & es & Hd' & Ed & ->). destruct (decide (es = [])) as [->|Hes].
    + rewrite app_nil_r in Ed. subst. by left.
    + right. destruct (exists_last Hes) as (es' & g' & ->). rewrite app_assoc in Ed.
      apply app_inj_tail in Ed as [-> _]. eauto.
Qed.

(** A key of the cache: the normal form of a path with these components. *)
Definition cache_key (cs : list wstring) : Prop :=
  plain cs /\ cs <> [] /\ CharLowerBuffW (rel cs) = rel cs.

Lemma normalize_key cs : cache_key cs -> NormalizePath (rel cs) = rel cs.
Proof. intros (Hp & _ & Hl). apply normalize_id; [by apply rel_canonical|done]. Qed.

Lemma at_or_below_rel cs ds :
  plain cs -> plain ds -> cs <> [] -> (at_or_below (rel cs) (rel ds) = true <-> cs `prefix_of` ds).
Proof.
  intros Hc Hd Hne. unfold at_or_below. rewrite orb_true_iff, bool_decide_eq_true.
  rewrite IsInsideDirectory_rel by done. split.
  - intros [Ek|(es & _ & ->)]; [|by exists es]. apply rel_inj in Ek as ->; done.
  - intros [es ->]. destruct (decide (es = [])) as [->|He]; [left; by rewrite app_nil_r|right; eauto].
Qed.

Lemma not_Is_true b : (~ Is_true b) <-> b = false.
Proof. destruct b; cbn; intuition congruence. Qed.

(** After [Invalidate] of a path, the cache has lost exactly the entries at
    the path and below it; after [InvalidateWithAncestors], exactly those and
    the entries above it.  A sibling such as [ab] of [a\b], whose key shares
    a prefix of characters only, stays. *)
Theorem Invalidate_exact cs ds c :
  cache_key cs -> cache_key ds ->
  (cs `prefix_of` ds -> cacheEntries (fst (Invalidate (rel cs) c)) !! rel ds = None) /\
  (~ cs `prefix_of` ds ->
     cacheEntries (fst (Invalidate (rel cs) c)) !! rel ds = cacheEntries c !! rel ds) /\
  (cs `prefix_of` ds \/ ds `prefix_of` cs ->
     cacheEntries (fst (InvalidateWithAncestors (rel cs) c)) !! rel ds = None) /\
  (~ cs `prefix_of` ds -> ~ ds `prefix_of` cs ->
     cacheEntries (fst (InvalidateWithAncestors (rel cs) c)) !! rel ds = cacheEntries c !! rel ds).
Proof.
  intros Hc Hd. pose proof Hc as (Hcp & Hcn & _). pose proof Hd as (Hdp & Hdn & _).
  pose proof (at_or_below_rel cs ds Hcp Hdp Hcn) as Hab.
  assert (Hanc : rel ds ∈ ancestor_keys (S (length (rel cs))) (parent_path (rel cs)) <->
                 exists es, es <> [] /\ cs = ds ++ es).
  { destruct (exists_last Hcn) as (cs' & g & ->). apply Forall_app in Hcp as [Hcp Hg].
    rewrite Forall_singleton in Hg. rewrite parent_path_rel by done.
    rewrite ancestor_keys_rel; [|done|].
    - split.
      + intros (ds' & es & Hn & -> & Ek%rel_inj); [|done|by apply Forall_app in Hcp as [? _]].
        subst. exists (es ++ [g]). rewrite <- app_assoc. split; [by destruct es|done].
      + intros (es & He & Ek). destruct (exists_last He) as (es' & g' & ->).
        rewrite app_assoc in Ek. apply app_inj_tail in Ek as [-> _]. by exists ds, es'.
    - destruct (decide (cs' = [])) as [->|]; [cbn; lia|]. rewrite rel_snoc, length_app by done. cbn. lia. }
  assert (Hf : forall P (m : gmap wstring CacheEntry),
     (P (rel ds) = true -> filter (fun kv => ~ Is_true (P (fst kv))) m !! rel ds = None) /\
     (P (rel ds) = false -> filter (fun kv => ~ Is_true (P (fst kv))) m !! rel ds = m !! rel ds)).
  { intros P m. split; intros HP.
    - apply map_lookup_filter_None. right. intros e _. cbn. rewrite HP. cbn. tauto.
    - apply option_eq. intros e. rewrite map_lookup_filter_Some. cbn. rewrite HP. cbn. tauto. }
  cbn. rewrite normalize_key, filter_delete_at_or_below by done.
  repeat split; intros.
  - apply (Hf (at_or_below (rel cs))). by apply Hab.
  - apply (Hf (at_or_below (rel cs))). apply not_true_iff_false. by rewrite Hab.
  - apply (Hf (related (rel cs))). unfold related. rewrite orb_true_iff, Hab, bool_decide_eq_true, Hanc. destruct H as [H|[es ->]]; [by left|].
    destruct (decide (es = [])) as [->|He]; [left; by rewrite app_nil_r|right; eauto].
  - apply (Hf (related (rel cs))). unfold related. rewrite orb_false_iff, <- not_true_iff_false, Hab, bool_decide_eq_false, Hanc. split; [done|].
    intros (es & _ & ->). apply H0. by exists es.
Qed.
End Exact.

Lemma Invalidate_exact_witness :
  let c := fst (@Put mem_win32 list_cache_env (L "ab") not_found
             (fst (@Put mem_win32 list_cache_env (L "a\b") not_found (@new_cache 5)))) in
  cacheEntries (fst (@Invalidate mem_win32 (L "a") c)) !! L "a\b" = None /\
  cacheEntries (fst (@Invalidate mem_win32 (L "a") c)) !! L "ab" = cacheEntries c !! L "ab" /\
  cacheEntries c !! L "ab" <> None.
Proof.
  intros c.
  assert (Hk : @cache_key mem_win32 [L "a"] /\ @cache_key mem_win32 [L "a"; L "b"] /\
               @cache_key mem_win32 [L "ab"]).
  { repeat split; try done; apply (bool_decide_unpack _); vm_compute; exact I. }
  destruct Hk as (Ha & Hab & Hc).
  split; [|split; [|vm_compute; done]].
  - refine (proj1 (Invalidate_exact [L "a"] [L "a"; L "b"] c Ha Hab) _). by exists [L "b"].
  - refine (proj1 (proj2 (Invalidate_exact [L "a"] [L "ab"] c Ha Hc)) _). by intros [k E].
Defined.

Lemma Put_evicts_lru_witness :
  let c := fst (@Put mem_win32 list_cache_env (L "a") not_found (@new_cache 1)) in
  let m := <[L "b" := {| resolved := not_found; lastAccessTicks := @steady_clock list_cache_env (clockReads c) |}]>
             (cacheEntries c) in
  (maxCapacity c < size m)%nat /\
  exists k e, m !! k = Some e /\ cacheEntries (fst (@Put mem_win32 list_cache_env (L "b") not_found c)) = delete k m /\
    forall k' e', m !! k' = Some e' -> lastAccessTicks e <= lastAccessTicks e'.
Proof.
  intros c m. assert (H : (maxCapacity c < size m)%nat) by (vm_compute; lia). split; [exact H|].
  exact (proj2 (@Put_evicts_lru mem_win32 list_cache_env (L "b") not_found c) H).
Defined.
