(* ===== verification/Resolver.v ===== *)
(** * The path resolver

    All of [PathResolver.cpp]: a lookup through the upper and the lowers with
    the cache, the search of the lowers alone, the walk of a caller's path
    through the relative links of the merged view, and the upper paths of new
    entries. *)
From S2P Require Export DirMerge Cache.
Open Scope Z_scope.

Definition kMaxRedirectDepth : nat := 40.
Definition kMaxLinkHops : nat := 40.

Inductive UpperHiding := HideNone | HideWhiteout | HideOpaqueMarker | HideNonDirectoryOrLink.
Inductive FinalLink := Follow | Keep.

Record ViewPath := { viewPath : wstring; viewNormalized : wstring }.
Record ViewLookup := { viewStatus : NTSTATUS; view : ViewPath }.

Record CreateResolution := {
  overlayHit : ResolvedPath;
  whiteoutAtPath : bool;
  lower : ResolvedPath
}.

(** The state a lookup changes: the cache, and the debugger output. *)
Record ResolverState := { cache : Cache; debugOutput : list wstring }.

#[export] Instance upper_hiding_eq_dec : EqDecision UpperHiding.
Proof. solve_decision. Defined.

Definition ParentDir (normalized : wstring) : wstring := parent_path normalized.

Definition attributes_or_invalid (r : w32 Z) : Z :=
  match r with Ok a => a | Err _ => INVALID_FILE_ATTRIBUTES end.

(** A call on the cache, and a line to the debugger. *)
Definition on_cache {A} (m : eff Cache A) : eff ResolverState A := fun s =>
  let (c, a) := m (cache s) in ({| cache := c; debugOutput := debugOutput s |}, a).

Definition OutputDebugStringW (line : option wstring) : eff ResolverState unit := fun s =>
  ({| cache := cache s; debugOutput := debugOutput s ++ option_list line |}, tt).

Section Resolver.
Context `{W : Win32} `{J : Json} `{E : CacheEnv} (d : disk) (config : LayerConfig).

Definition IsReservedPath (normalized : wstring) : bool := IsReservedOverlayPath d config normalized.

Definition IsResolvablePath (normalized : wstring) : bool :=
  IsSafeRelativePath normalized && negb (IsReservedPath normalized).

Definition ResolvableNormalized (relativePath : wstring) : option wstring :=
  let normalized := NormalizePath relativePath in
  if bool_decide (normalized = []) || negb (IsResolvablePath normalized) then None else Some normalized.

Definition LowersBelowParentOf (layerPath normalized : wstring) : LowerVisibility :=
  LowersBelow d config layerPath (ParentDir normalized).

(** ** The search of the lowers *)

(** The loop of [FindInLowers]: [i] is the index of the head of [lowers]. *)
Fixpoint find_in_lowers (normalized : wstring) (i : nat) (lowers : list wstring) : ResolvedPath :=
  match lowers with
  | [] => not_found
  | lowerPath :: lowers' =>
      if HasWhiteout d normalized lowerPath then not_found
      else if HasWhitedOutAncestorInLayer d normalized lowerPath then not_found
      else if HasLinkUnderHigherLayerEntry d config i (ParentDir normalized) then not_found
      else
        let fullPath := JoinDirPath lowerPath normalized in
        match GetFileAttributesW d (WithExtendedPrefix fullPath) with
        | Ok attrs => {| absolutePath := fullPath; source := Lower; lowerIndex := Z.of_nat i;
                         isWhiteout := false; attributes := attrs |}
        | Err _ =>
            if negb (bool_decide (LowersBelowParentOf lowerPath normalized = LVisible)) then not_found
            else find_in_lowers normalized (S i) lowers'
        end
  end.

Definition FindInLowers (normalized : wstring) (firstLower : nat) : ResolvedPath :=
  find_in_lowers normalized firstLower (drop firstLower (lowerPaths config)).

Definition ResolveRoot : ResolvedPath := {|
  absolutePath := upperPath config; source := Upper; lowerIndex := -1; isWhiteout := false;
  attributes := attributes_or_invalid (GetFileAttributesW d (WithExtendedPrefix (upperPath config)))
|}.

Definition UpperAncestorHiding (normalized : wstring) : UpperHiding :=
  if HasWhitedOutAncestorInLayer d normalized (upperPath config) then HideWhiteout
  else match LowersBelowParentOf (upperPath config) normalized with
  | HiddenByOpaqueMarker => HideOpaqueMarker
  | HiddenByNonDirectoryOrLink => HideNonDirectoryOrLink
  | LVisible => HideNone
  end.

Definition HidingInUpper (normalized : wstring) : UpperHiding :=
  if HasWhiteout d normalized (upperPath config) then HideWhiteout else UpperAncestorHiding normalized.

(** The message of [LogTypeConflictInDeeperLowers].  [fuel] bounds the turns
    of its loop, each of which moves to a deeper lower. *)
Fixpoint type_conflict_message (fuel : nat) (normalized : wstring) (hit visible : ResolvedPath)
  : option wstring :=
  match fuel with
  | O => None
  | S fuel' =>
      let index := Z.to_nat (lowerIndex visible) in
      if negb (bool_decide (LowersBelow d config (lower_at config index) (ParentDir normalized) = LVisible))
      then None
      else
        let visible := FindInLowers normalized (S index) in
        if negb (Found visible) then None
        else
          let hitIsDir := IsDirectory (attributes hit) in
          let otherIsDir := IsDirectory (attributes visible) in
          if negb (Bool.eqb hitIsDir otherIsDir) then
            Some (L "[LayerMount] Type conflict for path '" ++ normalized ++ L "': " ++
                  (if hitIsDir then L "directory" else L "file") ++
                  L " in layer " ++ L (pretty (lowerIndex hit)) ++
                  L " vs " ++ (if otherIsDir then L "directory" else L "file") ++
                  L " in layer " ++ L (pretty (lowerIndex visible)) ++ [10])
          else type_conflict_message fuel' normalized hit visible
  end.

Definition LogTypeConflictInDeeperLowers (normalized : wstring) (hit : ResolvedPath)
  : eff ResolverState unit :=
  OutputDebugStringW (type_conflict_message (length (lowerPaths config)) normalized hit hit).

(** ** The lookup *)

Definition whiteout_hit : ResolvedPath := {|
  absolutePath := []; source := SourceNone; lowerIndex := -1; isWhiteout := true;
  attributes := INVALID_FILE_ATTRIBUTES
|}.

(** The lookup below the upper: the result, and the out parameter
    [lowerWalk] when the call sets it. *)
Definition resolve_below_upper (normalized : wstring)
  : eff ResolverState (ResolvedPath * option ResolvedPath) :=
  (match HidingInUpper normalized with
   | HideWhiteout =>
       do! on_cache (Put normalized whiteout_hit) in eret (whiteout_hit, None)
   | HideNonDirectoryOrLink | HideOpaqueMarker =>
       do! on_cache (Put normalized not_found) in eret (not_found, Some not_found)
   | HideNone =>
       let lowerResult := FindInLowers normalized 0 in
       if negb (Found lowerResult) then eret (not_found, Some lowerResult)
       else
         do! LogTypeConflictInDeeperLowers normalized lowerResult in
         do! on_cache (Put normalized lowerResult) in
         eret (lowerResult, Some lowerResult)
   end)%eff.

(** [ResolveInUpper], with the call it makes at a redirect. *)
Definition resolve_in_upper (redirected : wstring -> eff ResolverState ResolvedPath)
    (normalized : wstring) : eff ResolverState (option ResolvedPath) :=
  (let upperFullPath := JoinDirPath (upperPath config) normalized in
   match GetFileAttributesW d (WithExtendedPrefix upperFullPath) with
   | Err _ => eret None
   | Ok upperAttrs =>
       let metadata := ReadLayerMountMetadata d upperFullPath (Some config) in
       if negb (bool_decide (redirect metadata = [])) then
         let! r := redirected (redirect metadata) in eret (Some r)
       else
         let result := {| absolutePath := upperFullPath; source := Upper; lowerIndex := -1;
                          isWhiteout := false; attributes := upperAttrs |} in
         do! on_cache (Put normalized result) in eret (Some result)
   end)%eff.

(** [depthLeft] is [kMaxRedirectDepth + 1 - redirectDepth]. *)
Fixpoint ResolvePathInternal (depthLeft : nat) (relativePath : wstring)
  : eff ResolverState (ResolvedPath * option ResolvedPath) :=
  (match depthLeft with
   | O => eret (not_found, None)
   | S less =>
       let normalized := NormalizePath relativePath in
       if bool_decide (normalized = []) then eret (ResolveRoot, None)
       else if negb (IsResolvablePath normalized) then eret (not_found, None)
       else
         let! cached := on_cache (Get normalized) in
         match cached with
         | Some r => eret (r, None)
         | None =>
             let! inUpper := resolve_in_upper
               (fun target => let! r := ResolvePathInternal less target in eret (fst r)) normalized in
             match inUpper with
             | Some r => eret (r, None)
             | None => resolve_below_upper normalized
             end
         end
   end)%eff.

Definition ResolvePath (relativePath : wstring) : eff ResolverState ResolvedPath :=
  (let! r := ResolvePathInternal (S kMaxRedirectDepth) relativePath in eret (fst r))%eff.

Definition ResolveLowerPath (relativePath : wstring) : ResolvedPath :=
  match ResolvableNormalized relativePath with
  | None => not_found
  | Some normalized =>
      if negb (bool_decide (UpperAncestorHiding normalized = HideNone)) then not_found
      else FindInLowers normalized 0
  end.

Definition ResolveForCreate (relativePath : wstring) : eff ResolverState CreateResolution :=
  (let normalized := NormalizePath relativePath in
   let! (hit, lowerWalk) := ResolvePathInternal (S kMaxRedirectDepth) normalized in
   eret {| overlayHit := hit;
           whiteoutAtPath := HasWhiteout d normalized (upperPath config);
           lower := match lowerWalk with Some r => r | None => ResolveLowerPath normalized end |})%eff.

(** ** The walk through the links of the view *)

(** The loop of [ViewPathThroughLinks] up to the next link: [n] components
    are still to be walked.  [follow] goes on at a relative link, and the
    result is the final component list, or [None] at one link too many. *)
Fixpoint walk_from (finalLink : FinalLink) (components : list wstring)
    (follow : nat -> wstring -> eff ResolverState (option (list wstring))) (n : nat)
  : eff ResolverState (option (list wstring)) :=
  (match n with
   | O => eret (Some components)
   | S n' =>
       let walked := (length components - n)%nat in
       if (walked + 1 =? length components)%nat && match finalLink with Keep => true | Follow => false end
       then eret (Some components)
       else
         let! shown := ResolvePath (JoinComponents components (walked + 1)) in
         if negb (Found shown) then eret (Some components)
         else
           let link := if has_attr (attributes shown) FILE_ATTRIBUTE_REPARSE_POINT
                       then ReadReparseLink d (absolutePath shown) else RNone in
           match link with
           | OtherLink => eret (Some components)
           | RelativeSymlink target => follow walked target
           | RNone =>
               if negb (IsDirectory (attributes shown)) then eret (Some components)
               else walk_from finalLink components follow n'
           end
   end)%eff.

(** The whole loop: [hopsLeft] more links may be followed, and after each the
    walk starts again at the root. *)
Fixpoint walk_view (hopsLeft : nat) (finalLink : FinalLink) (components : list wstring)
  : eff ResolverState (option (list wstring)) :=
  walk_from finalLink components
    (fun walked target =>
       match hopsLeft with
       | O => eret None
       | S less => walk_view less finalLink (SpliceLinkTarget components walked target)
       end) (length components).

Definition ViewPathThroughLinks (path : wstring) (finalLink : FinalLink) : eff ResolverState ViewLookup :=
  (let callerPath := NormalizePathPreserveCase path in
   let colon := wfind ch_colon callerPath in
   let streamSuffix := match colon with Some i => drop i callerPath | None => [] end in
   let host := match colon with Some i => take i callerPath | None => callerPath end in
   let components := SplitComponents host in
   if bool_decide (L ".." ∈ components) then
     eret {| viewStatus := STATUS_SUCCESS;
             view := {| viewPath := callerPath; viewNormalized := NormalizePath callerPath |} |}
   else
     let components := filter (fun c => c <> L ".") components in
     let! final := walk_view kMaxLinkHops finalLink components in
     match final with
     | None => eret {| viewStatus := STATUS_REPARSE_POINT_NOT_RESOLVED;
                       view := {| viewPath := []; viewNormalized := [] |} |}
     | Some components =>
         let viewPath := JoinComponents components (length components) ++ streamSuffix in
         eret {| viewStatus := STATUS_SUCCESS;
                 view := {| viewPath := viewPath; viewNormalized := NormalizePath viewPath |} |}
     end)%eff.

(** ** Upper paths *)

Definition GetUpperPath (relativePath : wstring) : wstring :=
  let normalized := NormalizePath relativePath in
  if bool_decide (normalized = []) then upperPath config else JoinDirPath (upperPath config) normalized.

Definition UpperAttributes (relativePath : wstring) : Z :=
  attributes_or_invalid (GetFileAttributesW d (WithExtendedPrefix (GetUpperPath relativePath))).

Definition ExistsInUpper (relativePath : wstring) : bool :=
  negb (UpperAttributes relativePath =? INVALID_FILE_ATTRIBUTES).

Definition GetUpperPathForNewEntry (path : wstring) : wstring :=
  BuildUpperPathPreserveCase (upperPath config) path.

Definition GetUpperPathForCopyUp (relativePath : wstring) (lowerSource : ResolvedPath) : wstring :=
  WithStoredLeafName d (GetUpperPath relativePath) (absolutePath lowerSource).

Definition GetStoredUpperPath (relativePath : wstring) : wstring :=
  let upper := BuildUpperPathPreserveCase (upperPath config) relativePath in
  WithStoredLeafName d upper upper.

Definition GetUpperPathForRenameSource (relativePath : wstring) : wstring :=
  let normalized := NormalizePath relativePath in
  if ExistsInUpper normalized then GetStoredUpperPath relativePath
  else GetUpperPathForCopyUp normalized (ResolveLowerPath normalized).

Definition HasTypeConflict (relativePath : wstring) : bool :=
  let normalized := NormalizePath relativePath in
  let found root := match GetFileAttributesW d (JoinDirPath (WithExtendedPrefix root) normalized) with
                    | Ok attrs => Some attrs
                    | Err _ => None
                    end in
  match omap found (upperPath config :: lowerPaths config) with
  | first :: rest =>
      existsb (fun attrs => negb (Bool.eqb (IsDirectory attrs) (IsDirectory first))) rest
  | [] => false
  end.
End Resolver.
