(* ===== verification/Fixture.v ===== *)
(** * A small overlay on the in-memory volume

    One upper and two lowers, with a shared directory, a whiteout, an opaque
    directory and a relative link; the witnesses evaluate on it. *)
From S2P Require Export Resolver.
Open Scope Z_scope.

Module Fixture.
Definition config : LayerConfig := {|
  upperPath := L "C:\u";
  lowerPaths := [L "C:\a"; L "C:\b"];
  workDirPath := L "C:\w";
  hostCapabilities := LM_CAP_ADS
|}.

Definition dir (p : string) : wstring * MemWin32.mem_entry :=
  (kExtended ++ L p, MemWin32.MemEntry FILE_ATTRIBUTE_DIRECTORY 0 [] []).
Definition file (p : string) : wstring * MemWin32.mem_entry :=
  (kExtended ++ L p, MemWin32.MemEntry FILE_ATTRIBUTE_ARCHIVE 0 [1] []).

(** The reparse data of a relative symbolic link. *)
Definition symlink_data (target : string) : list Z :=
  let bytes := flat_map (fun c => [c; 0]) (L target) in
  le_encode 4 IO_REPARSE_TAG_SYMLINK ++ le_encode 2 (12 + Z.of_nat (length bytes)) ++ le_encode 2 0 ++
  le_encode 2 0 ++ le_encode 2 (Z.of_nat (length bytes)) ++ le_encode 2 0 ++ le_encode 2 0 ++
  le_encode 4 kSymlinkFlagRelative ++ bytes.

Definition dir_link (p target : string) : wstring * MemWin32.mem_entry :=
  (kExtended ++ L p,
   MemWin32.MemEntry (Z.lor FILE_ATTRIBUTE_DIRECTORY FILE_ATTRIBUTE_REPARSE_POINT)
     IO_REPARSE_TAG_SYMLINK [] (symlink_data target)).

Definition volume : MemWin32.volume := [
  dir "C:\u"; dir "C:\a"; dir "C:\b";
  dir "C:\u\d"; file "C:\u\d\F.txt"; file "C:\u\d\.wh.gone"; dir_link "C:\u\link" "d";
  dir "C:\a\d"; file "C:\a\d\gone"; file "C:\a\d\g"; dir "C:\a\o"; file "C:\a\o\.wh..wh..opq";
  file "C:\a\o\x";
  dir "C:\b\d"; file "C:\b\d\f.txt"; file "C:\b\h"; dir "C:\b\o"; file "C:\b\o\y" ].

(** A host whose JSON library knows no text. *)
#[export] Instance no_json : Json := {| json_parse := fun _ => None; json_dump := fun _ => [] |}.

Definition start : ResolverState := {| cache := new_cache 100; debugOutput := [] |}.

Definition resolve (p : string) : ResolvedPath :=
  snd (@ResolvePath mem_win32 no_json list_cache_env volume config (L p) start).
End Fixture.
Import Fixture.

(** The lookup on each kind of path of the fixture. *)
Example resolve_upper : (absolutePath (resolve "D\f.TXT"), source (resolve "D\f.TXT")) =
  (L "C:\u\d\f.txt", Upper).
Proof. vm_compute. reflexivity. Qed.

Example resolve_lower : (absolutePath (resolve "\d/g\"), lowerIndex (resolve "\d/g\")) =
  (L "C:\a\d\g", 0).
Proof. vm_compute. reflexivity. Qed.

Example resolve_whited_out : isWhiteout (resolve "d\gone") = true.
Proof. vm_compute. reflexivity. Qed.

Example resolve_behind_opaque : resolve "o\y" = not_found.
Proof. vm_compute. reflexivity. Qed.

Example walk_link :
  viewPath (view (snd (@ViewPathThroughLinks mem_win32 no_json list_cache_env volume config
    (L "Link\F.txt:s") Follow start))) = L "d\F.txt:s".
Proof. vm_compute. reflexivity. Qed.

Example merged_listing :
  (fun k => entryLowerIndex <$> entries (@MergeDirectoryAcrossLayers mem_win32 volume config (L "d")) !! k)
    <$> [L "f.txt"; L "gone"; L "g"; L ".wh.gone"] = [Some (-1); None; Some 0; None].
Proof. vm_compute. reflexivity. Qed.
