(* ===== verification/ResolverFacts.v ===== *)
(** * What a lookup guarantees

    The lookup through the cache is the lookup without one; the search of the
    lowers finds exactly the first lower that no layer above hides; the walk
    through links ends and stays in the view. *)
From S2P Require Export Resolver CacheFacts Fixture.
Open Scope Z_scope.

#[local] Arguments Nat.ltb : simpl never.

Section Lookup.
Context `{W : Win32} `{CL : !CaseLaws} `{J : Json} `{E : CacheEnv} (d : disk) (config : LayerConfig).

(** ** The lookup without a cache *)

Definition upper_attributes (normalized : wstring) : w32 Z :=
  GetFileAttributesW d (WithExtendedPrefix (JoinDirPath (upperPath config) normalized)).

(** The redirect of the upper entry at a path; empty when there is none. *)
Definition upper_redirect (normalized : wstring) : wstring :=
  match upper_attributes normalized with
  | Ok _ => redirect (ReadLayerMountMetadata d (JoinDirPath (upperPath config) normalized) (Some config))
  | Err _ => []
  end.

(** What the layers show at a path whose upper entry redirects nowhere. *)
Definition layers_show (normalized : wstring) : ResolvedPath :=
  match upper_attributes normalized with
  | Ok attrs => {| absolutePath := JoinDirPath (upperPath config) normalized; source := Upper;
                   lowerIndex := -1; isWhiteout := false; attributes := attrs |}
  | Err _ =>
      match HidingInUpper d config normalized with
      | HideWhiteout => whiteout_hit
      | HideOpaqueMarker | HideNonDirectoryOrLink => not_found
      | HideNone => FindInLowers d config normalized 0
      end
  end.

Fixpoint lookup_spec (depthLeft : nat) (relativePath : wstring) : ResolvedPath :=
  match depthLeft with
  | O => not_found
  | S less =>
      let normalized := NormalizePath relativePath in
      if bool_decide (normalized = []) then ResolveRoot d config
      else if negb (IsResolvablePath d config normalized) then not_found
      else if bool_decide (upper_redirect normalized = []) then layers_show normalized
      else lookup_spec less (upper_redirect normalized)
  end.

(** Every entry of the cache is what the layers show. *)
Definition coherent (c : Cache) : Prop :=
  forall k e, cacheEntries c !! k = Some e -> upper_redirect k = [] /\ resolved e = layers_show k.

Lemma coherent_new capacity : coherent (new_cache capacity).
Proof. intros k e. cbn. by rewrite lookup_empty. Qed.

Lemma coherent_get p c :
  coherent c ->
  coherent (fst (Get p c)) /\
  (forall r, snd (Get p c) = Some r -> upper_redirect (NormalizePath p) = [] /\ r = layers_show (NormalizePath p)).
Proof.
  intros H. unfold Get. destruct (cacheEntries c !! NormalizePath p) as [e|] eqn:Ek; cbn.
  - apply H in Ek as [Hr He]. split.
    + intros k e'. cbn. rewrite lookup_insert_Some. intros [[<- <-]|[_ Hk]]; [done|by apply H].
    + intros r [= <-]. done.
  - split; [exact H|done].
Qed.

Lemma coherent_put p r c :
  coherent c -> upper_redirect (NormalizePath p) = [] -> r = layers_show (NormalizePath p) ->
  coherent (fst (Put p r c)).
Proof.
  intros H Hr Hs k e. cbn. set (m := <[_ := _]> _). intros Hk.
  assert (Hm : m !! k = Some e).
  { destruct (maxCapacity c <? size m)%nat; [by apply EvictLRU_sub|done]. }
  apply lookup_insert_Some in Hm as [[<- <-]|[_ Hm]]; [done|by apply H].
Qed.

Lemma normalize_twice p : NormalizePath (NormalizePath p) = NormalizePath p.
Proof.
  unfold NormalizePath at 1. rewrite preserve_id by apply normalize_canonical. apply lower_idem_s.
Qed.

Lemma find_in_lowers_unfound n i ls r :
  find_in_lowers d config n i ls = r -> Found r = false -> r = not_found.
Proof.
  revert i. induction ls as [|l ls IH]; intros i; cbn; [by intros <-|].
  repeat case_match; try (by intros <-); [|by apply IH].
  intros <-. unfold Found; cbn. rewrite bool_decide_false; [done|].
  unfold JoinDirPath, DirWithSeparator. case_bool_decide as Hl.
  - intros [-> _]%app_eq_nil. done.
  - rewrite <- app_assoc. by intros [_ [=]]%app_eq_nil.
Qed.

Lemma resolve_below_upper_spec n s :
  NormalizePath n = n -> coherent (cache s) ->
  (exists x, upper_attributes n = Err x) ->
  let (s', r) := resolve_below_upper d config n s in
  coherent (cache s') /\ fst r = layers_show n /\ upper_redirect n = [].
Proof.
  intros Hn Hc [x Hx].
  assert (Hr : upper_redirect n = []) by (unfold upper_redirect; by rewrite Hx).
  assert (Hput : forall c r, coherent c -> r = layers_show n -> coherent (fst (Put n r c))).
  { intros c r H ->. apply coherent_put; by rewrite ?Hn. }
  unfold resolve_below_upper. revert Hput. unfold layers_show. rewrite Hx.
  destruct (HidingInUpper d config n); intros Hput; cbn -[Put]; try (by auto).
  all: try (split; [apply Hput; done|done]).
  destruct (Found (FindInLowers d config n 0)) eqn:Hf; cbn -[Put].
  - split; [|done]. apply Hput; done.
  - split; [done|]. split; [|done]. symmetry. by eapply find_in_lowers_unfound.
Qed.

Lemma ResolvePathInternal_spec depth p s :
  coherent (cache s) ->
  let (s', r) := ResolvePathInternal d config depth p s in
  coherent (cache s') /\ fst r = lookup_spec depth p.
Proof.
  revert p s. induction depth as [|depth IH]; intros p s Hc; [done|].
  cbn [ResolvePathInternal lookup_spec]. case_bool_decide; [done|].
  destruct (IsResolvablePath d config (NormalizePath p)) eqn:Hok; cbn [negb]; [|done].
  pose proof (normalize_twice p) as Hn. set (n := NormalizePath p) in *.
  pose proof (coherent_get n (cache s) Hc) as [Hg Hhit]. rewrite Hn in Hhit.
  unfold ebind at 1, on_cache at 1. destruct (Get n (cache s)) as [c [r|]]; cbn in Hg, Hhit.
  { destruct (Hhit r eq_refl) as [Hr ->]. rewrite bool_decide_true by done. done. }
  unfold ebind at 1, resolve_in_upper. fold (upper_attributes n).
  destruct (upper_attributes n) as [attrs|x] eqn:Ha.
  - assert (Hr : upper_redirect n =
      redirect (ReadLayerMountMetadata d (JoinDirPath (upperPath config) n) (Some config)))
      by (unfold upper_redirect; by rewrite Ha).
    rewrite <- Hr. case_bool_decide as Hz; cbn [negb].
    + cbn -[Put]. split; [|unfold layers_show; by rewrite Ha].
      apply coherent_put; rewrite ?Hn; try done. unfold layers_show. by rewrite Ha.
    + unfold ebind. specialize (IH (upper_redirect n)
        {| cache := c; debugOutput := debugOutput s |} Hg).
      destruct (ResolvePathInternal d config depth _ _) as [s' [r w]]. cbn. tauto.
  - pose proof (resolve_below_upper_spec n {| cache := c; debugOutput := debugOutput s |} Hn Hg
      (ex_intro _ x Ha)) as Hb.
    cbn. destruct (resolve_below_upper d config n _) as [s' r].
    destruct Hb as (H1 & H2 & H3). rewrite bool_decide_true by done. done.
Qed.

Lemma ResolvePath_lookup_spec p s :
  coherent (cache s) ->
  let (s', r) := ResolvePath d config p s in
  coherent (cache s') /\ r = lookup_spec (S kMaxRedirectDepth) p.
Proof.
  intros Hc. pose proof (ResolvePathInternal_spec (S kMaxRedirectDepth) p s Hc) as H.
  unfold ResolvePath, ebind.
  destruct (ResolvePathInternal d config (S kMaxRedirectDepth) p s) as [s' [r w]]. exact H.
Qed.

(** C2: A lookup through a coherent cache gives what the lookup without a cache
    gives, on every path, redirects included, and leaves the cache coherent;
    so the answers do not depend on what was looked up, or evicted, before. *)
Theorem ResolvePath_cache_transparent p s :
  coherent (cache s) ->
  let (s', r) := ResolvePath d config p s in
  coherent (cache s') /\ r = lookup_spec (S kMaxRedirectDepth) p.
Proof. apply ResolvePath_lookup_spec. Qed.

(** ** The search of the lowers *)

(** The layer hides the path from itself and from the layers below it. *)
Definition hidden_from (n : wstring) (i : nat) : bool :=
  HasWhiteout d n (lower_at config i) ||
  HasWhitedOutAncestorInLayer d n (lower_at config i) ||
  HasLinkUnderHigherLayerEntry d config i (ParentDir n).

Definition lower_attributes (n : wstring) (i : nat) : w32 Z :=
  GetFileAttributesW d (WithExtendedPrefix (JoinDirPath (lower_at config i) n)).

(** The path is not in lower [i], and the lower hides nothing below it. *)
Definition passes (n : wstring) (i : nat) : Prop :=
  hidden_from n i = false /\ is_ok (lower_attributes n i) = false /\
  LowersBelowParentOf d config (lower_at config i) n = LVisible.

(** Lower [i] is the first at or after [first] that shows the path. *)
Definition first_shown (n : wstring) (first i : nat) : Prop :=
  (first <= i < length (lowerPaths config))%nat /\
  (forall j, (first <= j < i)%nat -> passes n j) /\
  hidden_from n i = false /\ is_ok (lower_attributes n i) = true.

Lemma find_in_lowers_step n i l ls :
  lower_at config i = l ->
  find_in_lowers d config n i (l :: ls) =
    if hidden_from n i then not_found
    else match lower_attributes n i with
    | Ok attrs => {| absolutePath := JoinDirPath l n; source := Lower; lowerIndex := Z.of_nat i;
                     isWhiteout := false; attributes := attrs |}
    | Err _ => if bool_decide (LowersBelowParentOf d config l n = LVisible)
               then find_in_lowers d config n (S i) ls else not_found
    end.
Proof.
  intros <-. unfold hidden_from, lower_attributes. cbn.
  repeat (case_match; cbn in *; try done).
Qed.

Lemma drop_lowers i :
  drop i (lowerPaths config) =
    if decide (i < length (lowerPaths config))%nat then lower_at config i :: drop (S i) (lowerPaths config)
    else [].
Proof.
  case_decide as H; [|by apply drop_ge; lia].
  apply lookup_lt_is_Some in H as [l Hl]. unfold lower_at. rewrite Hl. cbn.
  by apply drop_S.
Qed.

Lemma join_nonempty l n : JoinDirPath l n <> [].
Proof.
  unfold JoinDirPath, DirWithSeparator. case_bool_decide as Hl.
  - by intros [-> _]%app_eq_nil.
  - rewrite <- app_assoc. by intros [_ [=]]%app_eq_nil.
Qed.

Lemma Found_join r l n : absolutePath r = JoinDirPath l n -> source r <> SourceNone -> Found r = true.
Proof.
  intros Ha Hs. unfold Found. rewrite Ha, !bool_decide_false; [done|done|apply join_nonempty].
Qed.

Lemma first_shown_here n first i attrs :
  (first < length (lowerPaths config))%nat -> hidden_from n first = false ->
  lower_attributes n first = Ok attrs -> (first_shown n first i <-> i = first).
Proof.
  intros Hl Hh Ha. unfold first_shown. split.
  - intros (Hi & Hp & _). destruct (decide (first = i)) as [->|]; [done|].
    destruct (Hp first ltac:(lia)) as (_ & H' & _). by rewrite Ha in H'.
  - intros ->. rewrite Hh, Ha. split; [lia|]. split; [lia|done].
Qed.

Lemma first_shown_next n first i :
  (first < length (lowerPaths config))%nat -> passes n first ->
  (first_shown n first i <-> first_shown n (S first) i).
Proof.
  intros Hl Hps. unfold first_shown. split; intros (Hi & Hp & Hr).
  - destruct (decide (i = first)) as [->|].
    + destruct Hps as (_ & Ha & _), Hr as [_ Hr]. congruence.
    + split; [lia|]. split; [|done]. intros j Hj. apply Hp. lia.
  - split; [lia|]. split; [|done]. intros j Hj. destruct (decide (j = first)) as [->|]; [done|].
    apply Hp. lia.
Qed.

Lemma first_shown_blocked n first i :
  hidden_from n first = true \/ ~ passes n first /\ is_ok (lower_attributes n first) = false ->
  ~ first_shown n first i.
Proof.
  intros Hb (Hi & Hp & Hh & Hok). destruct (decide (first = i)) as [->|].
  - destruct Hb as [Hb|[_ Hb]]; congruence.
  - pose proof (Hp first ltac:(lia)) as Hf. destruct Hb as [Hb|[Hb _]]; [|done].
    destruct Hf. congruence.
Qed.

(** C3: [FindInLowers] finds the path in lower [i] exactly when [i] is the first
    lower that shows it: every lower before it lacks the path and hides
    nothing below, and neither they nor [i] hold a whiteout or a link that
    hides it.  The hit names that lower, its path and its attributes. *)
Theorem FindInLowers_first n first i :
  (Found (FindInLowers d config n first) = true /\ lowerIndex (FindInLowers d config n first) = Z.of_nat i
   <-> first_shown n first i) /\
  (first_shown n first i ->
     exists attrs, lower_attributes n i = Ok attrs /\
       FindInLowers d config n first =
         {| absolutePath := JoinDirPath (lower_at config i) n; source := Lower;
            lowerIndex := Z.of_nat i; isWhiteout := false; attributes := attrs |}).
Proof.
  unfold FindInLowers.
  remember (length (lowerPaths config) - first)%nat as k eqn:Hk. revert first Hk.
  induction k as [|k IH]; intros first Hk; rewrite drop_lowers; case_decide as Hlt; try lia.
  { unfold first_shown. cbn. split; [split; [by intros [? _]|lia]|lia]. }
  specialize (IH (S first) ltac:(lia)). rewrite find_in_lowers_step by done.
  assert (Hno : ~ first_shown n first i ->
    (Found not_found = true /\ lowerIndex not_found = Z.of_nat i <-> first_shown n first i)).
  { intros H. split; [by intros [? _]|done]. }
  destruct (hidden_from n first) eqn:Hh.
  { assert (H : ~ first_shown n first i) by (apply first_shown_blocked; by left). by split; [apply Hno|]. }
  destruct (lower_attributes n first) as [attrs|x] eqn:Ha.
  { rewrite (first_shown_here n first i attrs) by done. split; [split|].
    - intros [_ Hi]. cbn in Hi. lia.
    - intros ->. split; [by eapply Found_join|done].
    - intros ->. by eauto. }
  case_bool_decide as Hv.
  - rewrite first_shown_next; [exact IH|done|]. unfold passes. by rewrite Ha.
  - assert (H : ~ first_shown n first i).
    { apply first_shown_blocked. right. rewrite Ha. split; [|done]. by intros (_ & _ & ?). }
    by split; [apply Hno|].
Qed.
End Lookup.

(** ** The walk through links *)

(** A component of a path in the view: plain text, and neither [.] nor [..]. *)
Definition view_component (c : wstring) : Prop :=
  plain_component c /\ c <> L "." /\ c <> L "..".

Lemma resolve_components_forall (P : wstring -> Prop) parent target :
  Forall P parent -> Forall (fun c => c <> L "." -> c <> L ".." -> P c) target ->
  Forall P (resolve_components parent target).
Proof.
  intros Hp HF. revert parent Hp. induction HF as [|c cs Hc HF IH]; intros parent Hp; [done|].
  change (resolve_components parent (c :: cs)) with
    (if bool_decide (c = L "..") then resolve_components (removelast parent) cs
     else if bool_decide (c = L ".") then resolve_components parent cs
     else resolve_components (parent ++ [c]) cs).
  case_bool_decide; [|case_bool_decide]; apply IH; [|done|].
  - rewrite removelast_firstn_len. by apply Forall_take.
  - apply Forall_app. split; [done|]. apply Forall_singleton. by apply Hc.
Qed.

Lemma split_components_plain p :
  ch_slash ∉ p -> ch_colon ∉ p -> Forall plain_component (SplitComponents p).
Proof.
  intros Hs Hc. apply Forall_forall. intros c. unfold SplitComponents. rewrite list_elem_of_filter.
  intros [Hne Hin]. split; [done|]. split; [by eapply segments_no_sep|].
  split; intros H; [apply Hs|apply Hc]; by eapply segments_elem.
Qed.

Section View.
Context `{W : Win32} `{CL : !CaseLaws} `{J : Json} `{E : CacheEnv} (d : disk) (config : LayerConfig).

Lemma relative_target_no_colon path target :
  ReadReparseLink d path = RelativeSymlink target -> ch_colon ∉ target.
Proof.
  unfold ReadReparseLink. repeat (case_match; try done). intros [= <-].
  by match goal with H : bool_decide (ch_colon ∈ _) = false |- _ => apply bool_decide_eq_false in H end.
Qed.

Lemma splice_view components linkIndex target :
  Forall view_component components -> ch_colon ∉ target ->
  Forall view_component (SpliceLinkTarget components linkIndex target).
Proof.
  intros H Ht. unfold SpliceLinkTarget, ResolveRelativeTarget. apply Forall_app.
  split; [|by apply Forall_drop]. apply resolve_components_forall.
  - case_bool_decide; [constructor|by apply Forall_take].
  - eapply Forall_impl; [apply split_components_plain|].
    + by apply wreplace_elem.
    + unfold wreplace. rewrite list_elem_of_fmap. intros (x & Hx & Hin).
      destruct (x =? ch_slash); [done|]. by subst.
    + intros c Hc H1 H2. by split.
Qed.

(** What a walk keeps: a coherent cache, and a result in the view. *)
Definition walk_ok (out : ResolverState * option (list wstring)) : Prop :=
  coherent d config (cache (fst out)) /\
  forall cs, snd out = Some cs -> Forall view_component cs.

Lemma walk_from_ok finalLink components follow n s :
  Forall view_component components -> coherent d config (cache s) ->
  (forall walked target s', ch_colon ∉ target -> coherent d config (cache s') ->
     walk_ok (follow walked target s')) ->
  walk_ok (walk_from d config finalLink components follow n s).
Proof.
  intros Hv Hc Hf. revert s Hc.
  assert (Hend : forall s, coherent d config (cache s) -> walk_ok (eret (Some components) s)).
  { intros s Hc. split; [done|]. by intros cs [= <-]. }
  induction n as [|n IH]; intros s Hc; cbn [walk_from]; [by apply Hend|].
  destruct (_ && _); [by apply Hend|]. unfold ebind.
  pose proof (ResolvePath_lookup_spec d config
    (JoinComponents components (length components - S n + 1)) s Hc) as Hr.
  destruct (ResolvePath d config _ s) as [s' shown]. destruct Hr as [Hc' _].
  destruct (Found shown); cbn [negb]; [|by apply Hend].
  destruct (has_attr (attributes shown) FILE_ATTRIBUTE_REPARSE_POINT).
  - destruct (ReadReparseLink d (absolutePath shown)) as [|target|] eqn:Hl.
    + destruct (IsDirectory (attributes shown)); [by apply IH|by apply Hend].
    + apply Hf; [by eapply relative_target_no_colon|done].
    + by apply Hend.
  - destruct (IsDirectory (attributes shown)); [by apply IH|by apply Hend].
Qed.

Lemma walk_view_ok hops finalLink components s :
  Forall view_component components -> coherent d config (cache s) ->
  walk_ok (walk_view d config hops finalLink components s).
Proof.
  revert components s. induction hops as [|hops IH]; intros components s Hv Hc;
    cbn [walk_view]; apply walk_from_ok; try done.
  intros walked target s' Ht Hc'. apply IH; [by apply splice_view|done].
Qed.

(** Following the relative links of a caller's path ends after at most
    [kMaxLinkHops] links: with success, or with
    [STATUS_REPARSE_POINT_NOT_RESOLVED].  On success the view path of a path
    without [..] is made of plain components, none of them [.] or [..], and
    ends in the caller's stream suffix: whatever the links in the layers
    hold, the walk stays in the overlay and names no stream of its own. *)
Theorem ViewPathThroughLinks_confined path finalLink s :
  let callerPath := NormalizePathPreserveCase path in
  let host := match wfind ch_colon callerPath with Some i => take i callerPath | None => callerPath end in
  let suffix := match wfind ch_colon callerPath with Some i => drop i callerPath | None => [] end in
  coherent d config (cache s) ->
  let (s', v) := ViewPathThroughLinks d config path finalLink s in
  coherent d config (cache s') /\
  (viewStatus v = STATUS_SUCCESS \/ viewStatus v = STATUS_REPARSE_POINT_NOT_RESOLVED) /\
  (viewStatus v = STATUS_SUCCESS -> viewNormalized (view v) = NormalizePath (viewPath (view v))) /\
  (viewStatus v = STATUS_SUCCESS -> L ".." ∉ SplitComponents host ->
     exists cs, Forall view_component cs /\ viewPath (view v) = rel cs ++ suffix).
Proof.
  intros callerPath host suffix Hc. unfold ViewPathThroughLinks. fold callerPath host suffix.
  case_bool_decide as Hdd.
  { cbn. split; [done|]. split; [by left|]. split; [done|]. by intros _ []. }
  assert (Hv : Forall view_component (filter (fun c => c <> L ".") (SplitComponents host))).
  { assert (Hp : Forall plain_component (SplitComponents host)).
    { destruct (preserve_canonical path) as [Hs _]. fold callerPath in Hs. unfold host.
      destruct (wfind ch_colon callerPath) as [i|] eqn:Hi.
      - apply split_components_plain; [|by apply wfind_Some in Hi as [_ ?]].
        intros H. apply Hs. rewrite <- (take_drop i). apply elem_of_app. by left.
      - apply split_components_plain; [done|]. by apply wfind_None. }
    apply Forall_forall. intros c. rewrite list_elem_of_filter. intros [H1 H2].
    rewrite Forall_forall in Hp. split; [by apply Hp|]. split; [done|]. intros ->. done. }
  pose proof (walk_view_ok kMaxLinkHops finalLink _ s Hv Hc) as [Hc' Hw].
  unfold ebind. destruct (walk_view d config kMaxLinkHops finalLink _ s) as [s' [cs|]]; cbn in *.
  - split; [done|]. split; [by left|]. split; [done|]. intros _ _. exists cs.
    split; [by apply Hw|]. unfold JoinComponents. by rewrite take_ge.
  - split; [done|]. split; [by right|]. by split.
Qed.
End View.

(** ** On the fixture *)

Import Fixture.

Lemma ResolvePath_cache_transparent_witness :
  let (s', r) := @ResolvePath mem_win32 no_json list_cache_env volume config (L "d\g") start in
  @coherent mem_win32 no_json volume config (cache s') /\
  r = @lookup_spec mem_win32 no_json volume config (S kMaxRedirectDepth) (L "d\g").
Proof. apply ResolvePath_cache_transparent, coherent_new. Defined.

Lemma FindInLowers_first_witness :
  exists attrs, @lower_attributes mem_win32 volume config (L "h") 1 = Ok attrs /\
    absolutePath (@FindInLowers mem_win32 volume config (L "h") 0) = L "C:\b\h".
Proof.
  assert (H : @first_shown mem_win32 volume config (L "h") 0 1).
  { split; [cbn; lia|]. split; [|by vm_compute].
    intros j Hj. assert (j = 0%nat) as -> by lia. unfold passes. vm_compute. done. }
  destruct (proj2 (@FindInLowers_first mem_win32 volume config (L "h") 0 1) H) as (attrs & Ha & E).
  exists attrs. split; [exact Ha|]. rewrite E. reflexivity.
Defined.

Lemma ViewPathThroughLinks_confined_witness :
  let v := snd (@ViewPathThroughLinks mem_win32 no_json list_cache_env volume config
                  (L "link\F.txt:s") Follow start) in
  exists cs, Forall view_component cs /\ viewPath (view v) = rel cs ++ L ":s".
Proof.
  pose proof (@ViewPathThroughLinks_confined mem_win32 mem_case_laws no_json list_cache_env volume config
                (L "link\F.txt:s") Follow start (coherent_new _ _ _)) as H.
  destruct (ViewPathThroughLinks _ _ _ _ _) as [s' v] eqn:Ev in H |- *. cbn [snd].
  destruct H as (_ & _ & _ & H). apply H.
  - apply (f_equal (fun p => viewStatus (snd p))) in Ev. cbn [snd] in Ev. rewrite <- Ev. by vm_compute.
  - apply (bool_decide_unpack _). vm_compute. exact I.
Defined.
