(* ===== verification/Agreement.v ===== *)
(** * The listing and the lookup agree

    A directory listing and a lookup of one of its names read the layers by
    different code: the merge reads an ancestry per layer and one scan, the
    lookup probes and walks.  On consistent layers they show the same names,
    from the same layers. *)
From S2P Require Export MergeFacts ResolverFacts.
Open Scope Z_scope.

Section Agreement.
Context `{W : Win32} `{CL : !CaseLaws} `{J : Json} `{E : CacheEnv} (d : disk) (config : LayerConfig).
Context (cs : list wstring) (k : wstring).

Abbreviation child := (rel (cs ++ [k])).

Definition entry_present (layer : wstring) (g : wstring) : bool :=
  is_ok (GetFileAttributesW d (WithExtendedPrefix (JoinDirPath layer (rel (cs ++ [g]))))).

(** A layer whose tree is consistent along the path, and whose successful
    listing of the directory names the entry, and its marker, exactly when a
    probe finds it. *)
Record layer_consistent (layer : wstring) : Prop := {
  lc_tree : tree_consistent d config layer cs k;
  lc_listing : forall names g, g = k \/ g = wh k ->
    NT_SUCCESS (scanStatus (ScanLayerDirectory d layer (rel cs) names)) = true ->
    (g ∈ listed d layer (rel cs) <-> entry_present layer g = true)
}.

Context (Hplain : plain (cs ++ [k])) (Hname : entry_name (rel cs) k).

(** What the merge of the directory reads of a layer. *)
Definition dir_ancestry (layer : MergeLayer) : LayerAncestry :=
  LayerAncestryOf d config (layerPathOf layer) (rel cs) (layerIndex layer).

Lemma marker_probe layer :
  HasWhiteoutUnderWalkedDirectoryInLayer d child layer = entry_present layer (wh k).
Proof.
  pose proof Hplain as [Hc Hk]%Forall_app. rewrite Forall_singleton in Hk.
  unfold HasWhiteoutUnderWalkedDirectoryInLayer, MarkerFileExists, GetWhiteoutFullPath, entry_present.
  by rewrite marker_name_rel.
Qed.

Lemma scan_agrees layer :
  layer_consistent (layerPathOf layer) ->
  let names := WhiteoutNamesIn (dir_ancestry layer) in
  let scan := ScanLayerDirectory d (layerPathOf layer) (rel cs) names in
  NT_SUCCESS (scanStatus scan) = true ->
  (k ∈ (scanEntries scan).*1 <-> entry_present (layerPathOf layer) k = true) /\
  (k ∈ scanWhitedOut scan <-> HasWhiteout d child (layerPathOf layer) = true).
Proof.
  intros [_ Hlist] names scan Hs. pose proof Hplain as [Hc _]%Forall_app.
  destruct (scan_names d (layerPathOf layer) (rel cs) names k Hname Hs) as [H1 H2].
  fold scan in H1, H2. rewrite H1, H2. split; [apply (Hlist names); [by left|done]|].
  rewrite HasWhiteout_rel, marker_probe by done.
  rewrite (Hlist names (wh k)) by (by right || done).
  assert (names = AreMarkers <->
    LinkStopOf (stop (WalkToFirstNonDirectory d (layerPathOf layer) (rel cs))) = LinkStopNone) as ->.
  { unfold names, WhiteoutNamesIn, EndsAtLinkOrUnreadable, dir_ancestry.
    rewrite (reads_stop _ _ _ _ _ _ (LayerAncestryOf_reads d config (layerPathOf layer) cs _ Hc)).
    by case_bool_decide. }
  tauto.
Qed.

(** ** The lowers *)

(** The origin of a name after the layers, from what it was before them. *)
Definition later_origin (before : option (LayerSource * Z)) (hidden : bool) (hit : ResolvedPath)
  : option (LayerSource * Z) :=
  match before with
  | Some o => Some o
  | None => if hidden then None else if Found hit then Some (source hit, lowerIndex hit) else None
  end.

Definition name_origin (s : merge_state) : option (LayerSource * Z) := origin <$> mergeEntries (stMerge s) !! k.
Definition name_hidden (s : merge_state) : bool := bool_decide (k ∈ whitedOutNames (stMerge s)).

Abbreviation loop slots s := (merge_loop d config (rel cs) (fun _ => dir_ancestry) slots s).

Lemma scanned_lookup slot s :
  layer_consistent (layerPathOf (MergeLayerAt config slot)) ->
  NT_SUCCESS (stStatus (scanned d config (rel cs) (fun _ => dir_ancestry) slot s)) = true ->
  let layer := MergeLayerAt config slot in
  let s' := scanned d config (rel cs) (fun _ => dir_ancestry) slot s in
  name_hidden s' = name_hidden s || HasWhiteout d child (layerPathOf layer) /\
  name_origin s' =
    match name_origin s with
    | Some o => Some o
    | None =>
        if name_hidden s || (bool_decide (layerSource layer = Lower) && HasWhiteout d child (layerPathOf layer))
        then None
        else if entry_present (layerPathOf layer) k then Some (layerSource layer, layerIndex layer) else None
    end.
Proof.
  intros Hcons Hok layer s'. unfold scanned in Hok. cbn [stStatus] in Hok. fold layer in Hok.
  apply MergeLayerEntries_failed in Hok.
  assert (Hsrc : layerSource layer = Upper \/ layerSource layer = Lower) by (destruct slot; auto).
  destruct (MergeLayerEntries_lookup d layer (rel cs) _ (stMerge s) k Hsrc Hok) as (_ & Hh & Ho).
  destruct (scan_agrees layer Hcons Hok) as [Hshow Hhide].
  unfold name_hidden, name_origin. unfold s', scanned. cbn [stMerge]. fold layer. rewrite Ho. split.
  - apply eq_bool_prop_intro. rewrite !Is_true_true, orb_true_iff, !bool_decide_eq_true, Hh, Hhide. tauto.
  - destruct (origin <$> mergeEntries (stMerge s) !! k); [done|]. case_bool_decide; [done|]. cbn [orb].
    rewrite (bool_decide_ext _ _ Hhide), (bool_decide_ext _ _ Hshow), !bool_decide_decide.
    destruct (HasWhiteout d child (layerPathOf layer)), (entry_present (layerPathOf layer) k); done.
Qed.

Lemma find_in_lowers_parent layer : plain cs ->
  LowersBelowParentOf d config layer child = LowersBelow d config layer (rel cs) /\ ParentDir child = rel cs.
Proof.
  intros Hc. unfold LowersBelowParentOf, ParentDir. pose proof Hplain as [_ Hk]%Forall_app.
  rewrite Forall_singleton in Hk. by rewrite parent_path_rel.
Qed.

(** A state that already knows the name, or hides it, keeps its answer. *)
Lemma loop_settled slots s :
  Forall (fun slot => layer_consistent (layerPathOf (MergeLayerAt config slot))) slots ->
  NT_SUCCESS (stStatus (loop slots s)) = true ->
  is_Some (name_origin s) \/ name_hidden s = true ->
  name_origin (loop slots s) = name_origin s.
Proof.
  intros HF. revert s. induction HF as [|slot rest Hcons HF IH]; intros s Hok Hset; cbn [merge_loop] in *; [done|].
  destruct (HidesLayerAndBelow _ _); [done|].
  destruct (NT_SUCCESS (stStatus (scanned _ _ _ _ slot s))) eqn:Hst; cbn [negb] in *; [|congruence].
  destruct (scanned_lookup slot s Hcons Hst) as [Hh Ho].
  assert (Hkeep : name_origin (scanned d config (rel cs) (fun _ => dir_ancestry) slot s) = name_origin s).
  { rewrite Ho. destruct (name_origin s); [done|]. destruct Hset as [[? ?]|Hset]; [done|]. by rewrite Hset. }
  destruct (HidesLayersBelow _ _); [done|]. rewrite IH; [done|done|].
  rewrite Hkeep, Hh. destruct Hset as [Hset|Hset]; [by left|right]. by rewrite Hset.
Qed.

Definition lowers_consistent : Prop :=
  forall j, (j < length (lowerPaths config))%nat -> layer_consistent (lower_at config j).

Lemma slots_consistent a m :
  lowers_consistent -> (a + m <= length (lowerPaths config))%nat ->
  Forall (fun slot => layer_consistent (layerPathOf (MergeLayerAt config slot))) (seq (S a) m).
Proof. intros H Hl. apply Forall_forall. intros [|j] Hj%elem_of_seq; [lia|]. apply H. lia. Qed.

Lemma lower_hides_self i :
  layer_consistent (lower_at config i) ->
  HidesLayerAndBelow (MergeLayerAt config (S i)) (dir_ancestry (MergeLayerAt config (S i))) =
    HasWhitedOutAncestorInLayer d child (lower_at config i) ||
    HasLinkUnderHigherLayerEntry d config i (rel cs).
Proof.
  intros [Htree _]. unfold HidesLayerAndBelow. cbn [layerSource MergeLayerAt].
  rewrite bool_decide_true by done. unfold dir_ancestry. cbn [layerPathOf layerIndex andb].
  by rewrite (whited_out_ancestor_agrees _ _ _ cs k Hplain Htree), (link_under_higher_agrees _ _ _ cs k Hplain).
Qed.

Lemma lower_hides_below i :
  layer_consistent (lower_at config i) ->
  HidesLayersBelow (MergeLayerAt config (S i)) (dir_ancestry (MergeLayerAt config (S i))) =
    negb (bool_decide (LowersBelow d config (lower_at config i) (rel cs) = LVisible)).
Proof.
  intros [Htree _]. unfold HidesLayersBelow. cbn [layerSource MergeLayerAt].
  rewrite (bool_decide_false (Lower = Upper)) by done. cbn [andb]. rewrite orb_false_r.
  unfold dir_ancestry. cbn [layerPathOf layerIndex]. by apply (lowers_below_agrees _ _ _ cs k Hplain Htree).
Qed.

Lemma lowers_agree i n s :
  (i + n = length (lowerPaths config))%nat ->
  lowers_consistent ->
  NT_SUCCESS (stStatus (loop (seq (S i) n) s)) = true ->
  name_origin (loop (seq (S i) n) s) = later_origin (name_origin s) (name_hidden s) (FindInLowers d config child i).
Proof.
  intros Hn Hcons. revert i s Hn. induction n as [|n IH]; intros i s Hn Hok.
  { cbn. unfold FindInLowers. rewrite drop_ge by lia. unfold later_origin. cbn.
    destruct (name_origin s); [done|]. by destruct (name_hidden s). }
  pose proof (slots_consistent i (S n) Hcons ltac:(lia)) as HF.
  pose proof (slots_consistent (S i) n Hcons ltac:(lia)) as HF'.
  destruct (name_origin s) as [o|] eqn:Ho; [rewrite loop_settled, Ho by (rewrite ?Ho; eauto); done|].
  destruct (name_hidden s) eqn:Hh; [rewrite loop_settled, Ho by auto; done|].
  cbn [later_origin]. unfold FindInLowers. rewrite drop_lowers, decide_True by lia.
  rewrite find_in_lowers_step by done. cbn [seq merge_loop] in *.
  pose proof Hplain as [Hc _]%Forall_app. pose proof (Hcons i ltac:(lia)) as Hci.
  destruct (find_in_lowers_parent (lower_at config i) Hc) as [Hpar Hpd].
  unfold hidden_from. rewrite Hpd, Hpar, <- orb_assoc, <- lower_hides_self by done.
  destruct (HidesLayerAndBelow _ _) eqn:Hhide.
  { rewrite orb_true_r. unfold name_origin in *. cbn. by rewrite Ho. }
  rewrite orb_false_r. set (s' := scanned _ _ _ _ (S i) s) in *.
  destruct (NT_SUCCESS (stStatus s')) eqn:Hst; cbn [negb] in *; [|congruence].
  destruct (scanned_lookup (S i) s Hci Hst) as [Hh' Ho']. fold s' in Hh', Ho'.
  rewrite Hh in Hh', Ho'. rewrite Ho in Ho'. cbn [orb layerPathOf layerSource layerIndex MergeLayerAt] in Hh', Ho'.
  rewrite (bool_decide_true (Lower = Lower)) in Ho' by done. cbn [andb] in Ho'.
  rewrite lower_hides_below in Hok |- * by done.
  assert (Hend : is_Some (name_origin s') \/ name_hidden s' = true ->
    forall b : bool, NT_SUCCESS (stStatus (if b then s' else loop (seq (S (S i)) n) s')) = true ->
    name_origin (if b then s' else loop (seq (S (S i)) n) s') = name_origin s').
  { intros Hset [] Hok'; [done|]. by apply loop_settled. }
  destruct (HasWhiteout d child (lower_at config i)) eqn:Hw; [rewrite Hend by auto; done|].
  unfold entry_present in Ho'. fold (lower_attributes d config child i) in Ho'.
  destruct (lower_attributes d config child i) as [attrs|x] eqn:Ha; cbn [is_ok] in Ho'.
  - rewrite Hend by (rewrite ?Ho'; eauto). erewrite Found_join by done. by rewrite Ho'.
  - case_bool_decide as Hv; cbn [negb] in *; [|done]. rewrite IH, Ho', Hh' by (done || lia). done.
Qed.

(** ** The theorem *)

Lemma upper_hides_below :
  layer_consistent (upperPath config) ->
  HidesLayersBelow (MergeLayerAt config 0) (dir_ancestry (MergeLayerAt config 0)) =
    negb (bool_decide (UpperAncestorHiding d config child = HideNone)).
Proof.
  intros [Htree _]. pose proof Hplain as [Hc _]%Forall_app.
  destruct (find_in_lowers_parent (upperPath config) Hc) as [Hpar _].
  unfold HidesLayersBelow, UpperAncestorHiding. cbn [layerSource MergeLayerAt].
  rewrite (bool_decide_true (Upper = Upper)) by done. unfold dir_ancestry. cbn [layerPathOf layerIndex andb].
  rewrite (lowers_below_agrees _ _ _ cs k Hplain Htree), (whited_out_ancestor_agrees _ _ _ cs k Hplain Htree), Hpar.
  destruct (HasWhitedOutAncestorInLayer d child (upperPath config)); [by rewrite orb_true_r|].
  rewrite orb_false_r. by destruct (LowersBelow d config (upperPath config) (rel cs)).
Qed.

Lemma layers_agree :
  layer_consistent (upperPath config) -> lowers_consistent ->
  let s := loop (seq 0 (S (length (lowerPaths config)))) merge_start in
  NT_SUCCESS (stStatus s) = true ->
  name_origin s = later_origin None false (layers_show d config child).
Proof.
  intros Hup Hcons. cbn [seq merge_loop]. intros Hok.
  assert (Hself : HidesLayerAndBelow (MergeLayerAt config 0) (dir_ancestry (MergeLayerAt config 0)) = false) by done.
  rewrite Hself in Hok |- *. set (s' := scanned _ _ _ _ 0 merge_start) in *.
  destruct (NT_SUCCESS (stStatus s')) eqn:Hst; cbn [negb] in *; [|congruence].
  destruct (scanned_lookup 0 merge_start Hup Hst) as [Hh' Ho']. fold s' in Hh', Ho'.
  assert (Hh0 : name_hidden merge_start = false) by (apply bool_decide_eq_false; cbn; set_solver).
  rewrite Hh0 in Hh', Ho'. cbn [orb layerPathOf layerSource layerIndex MergeLayerAt] in Hh', Ho'.
  change (name_origin merge_start) with (@None (LayerSource * Z)) in Ho'. cbn in Ho'.
  rewrite (bool_decide_false (Upper = Lower)) in Ho' by done. cbn in Ho'.
  rewrite upper_hides_below in Hok |- * by done.
  unfold entry_present in Ho'. unfold layers_show. fold (upper_attributes d config child) in Ho'.
  destruct (upper_attributes d config child) as [attrs|x] eqn:Ha; cbn [is_ok] in Ho'.
  - cbn [later_origin]. erewrite Found_join by done. cbn [source lowerIndex]. rewrite <- Ho'.
    destruct (bool_decide _) in Hok |- *; cbn [negb] in *; [|done].
    apply loop_settled; [by apply slots_consistent|done|rewrite Ho'; eauto].
  - unfold HidingInUpper. destruct (HasWhiteout d child (upperPath config)) eqn:Hw.
    + transitivity (name_origin s'); [|by rewrite Ho'].
      destruct (bool_decide _) in Hok |- *; cbn [negb] in *; [|done].
      apply loop_settled; [by apply slots_consistent|done|by right].
    + destruct (UpperAncestorHiding d config child) eqn:Hhide;
        rewrite ?(bool_decide_true (HideNone = HideNone)) in Hok |- * by done; cbn in Hok |- *; try done.
      rewrite lowers_agree by done. by rewrite Ho', Hh'.
Qed.

(** C1: For a name of a directory whose layers are consistent, and whose merge
    reads every layer it needs, the listing holds the name exactly when a
    lookup of the path finds it, and the entry comes from the same layer:
    what a directory shows is what opens, and nothing else opens.  The upper
    entry of the path redirects nowhere. *)
Theorem listing_agrees_with_lookup s :
  let listing := MergeDirectoryWithAncestry d config (rel cs) in
  let hit := snd (ResolvePath d config child s) in
  coherent d config (cache s) ->
  CharLowerBuffW child = child ->
  (cs = [] \/ IsSafeRelativePath (rel cs) = true) ->
  IsReservedOverlayPath d config (rel cs) = false ->
  IsResolvablePath d config child = true -> upper_redirect d config child = [] ->
  layer_consistent (upperPath config) -> lowers_consistent ->
  NT_SUCCESS (mergedStatus (merged listing)) = true ->
  origin <$> entries (merged listing) !! k =
    if Found hit then Some (source hit, lowerIndex hit) else None.
Proof.
  intros listing hit Hco Hlow Hsafe Hres Hok' Hred Hup Hcons Hok.
  pose proof Hplain as [Hc _]%Forall_app.
  assert (Hhit : hit = layers_show d config child).
  { pose proof (ResolvePath_lookup_spec d config child s Hco) as H. unfold hit.
    destruct (ResolvePath d config child s) as [s' r]. destruct H as [_ ->]. cbn [snd lookup_spec].
    rewrite normalize_id by auto using rel_canonical. rewrite Hok', Hred.
    rewrite bool_decide_false; [by rewrite bool_decide_true|]. intros H%rel_nil_inv; [|done]. by destruct cs. }
  assert (Hlow1 : CharLowerBuffW (rel cs) = rel cs).
  { destruct (decide (cs = [])) as [->|Hne]; [done|].
    rewrite rel_snoc, lower_app in Hlow by done. apply app_inj_1 in Hlow as [? _]; [done|apply lower_length]. }
  assert (Hl : listing = merge_result (rel cs) (loop (seq 0 (S (length (lowerPaths config)))) merge_start)).
  { unfold listing, MergeDirectoryWithAncestry. rewrite normalize_id by auto using rel_canonical.
    rewrite Hres, orb_false_r. rewrite MergeLayers_loop, Nat.min_id, Nat.add_1_r.
    destruct Hsafe as [Hn|Hsafe]; [|by rewrite Hsafe, andb_false_r].
    by rewrite (bool_decide_true (rel cs = [])) by by rewrite Hn. }
  rewrite Hl in Hok |- *. cbn [merged mergedStatus entries merge_result] in Hok |- *. rewrite Hok, Hhit.
  exact (layers_agree Hup Hcons Hok).
Qed.
End Agreement.

(** ** On the fixture *)

Import Fixture.

(** Probes of the fixture along [d\g] are consistent. *)
Lemma fixture_consistent layer :
  layer ∈ [L "C:\u"; L "C:\a"; L "C:\b"] ->
  @layer_consistent mem_win32 volume config [L "d"] (L "g") layer.
Proof.
  intros Hl. split; [split|].
  - intros [|c [|c' q]] g q' Ec Hq; [done|discriminate Ec..].
  - intros [|c [|c' [|c'' q]]] g q' Ec Hq; [done| |discriminate Ec..].
    cbn in Ec. injection Ec as <- <- <-. intros _. rewrite !elem_of_cons in Hl.
    destruct Hl as [->|[->|[->|Hl]]]; [vm_compute; done..|by apply not_elem_of_nil in Hl].
  - intros [|c [|c' q]] q' Ec Hq; [done| |discriminate Ec]. cbn in Ec. injection Ec as <- <-.
    rewrite !elem_of_cons in Hl.
    destruct Hl as [->|[->|[->|Hl]]]; [vm_compute; done..|by apply not_elem_of_nil in Hl].
  - intros names g Hg _. rewrite !elem_of_cons in Hl.
    assert (Hd : forall (P : Prop) (dec : Decision P) b, bool_decide P = b -> (P <-> b = true)).
    { intros P dec b <-. by rewrite bool_decide_eq_true. }
    destruct Hl as [->|[->|[->|Hl]]]; [..|by apply not_elem_of_nil in Hl];
      destruct Hg as [->| ->]; refine (Hd _ _ _ _); vm_compute; reflexivity.
Qed.

Lemma listing_agrees_with_lookup_witness :
  origin <$> entries (merged (@MergeDirectoryWithAncestry mem_win32 volume config (rel [L "d"]))) !! (L "g") =
    Some (Lower, 0).
Proof.
  pose proof (@listing_agrees_with_lookup mem_win32 mem_case_laws no_json list_cache_env volume config
    [L "d"] (L "g")) as H.
  etrans; [apply (H ltac:(apply (bool_decide_unpack _); vm_compute; exact I)
    ltac:(repeat split; try (by vm_compute); done) start)|by vm_compute].
  - apply coherent_new.
  - by vm_compute.
  - right. by vm_compute.
  - by vm_compute.
  - by vm_compute.
  - by vm_compute.
  - apply fixture_consistent. left.
  - intros [|[|j]] Hj; cbn in Hj; [..|lia]; apply fixture_consistent; [right; left|right; right; left].
  - by vm_compute.
Defined.

Lemma MergeChildDirectory_correct_witness :
  let parent := @MergeDirectoryWithAncestry mem_win32 volume config (L "d") in
  @MergeChildDirectory mem_win32 volume config parent (L "g") =
    @MergeDirectoryWithAncestry mem_win32 volume config (L "d\g").
Proof.
  apply (@MergeChildDirectory_correct mem_win32 volume config [L "d"] (L "g")).
  - apply (bool_decide_unpack _). vm_compute. exact I.
  - done.
  - by vm_compute.
  - by vm_compute.
  - by vm_compute.
  - by vm_compute.
Defined.
