(* ===== verification/Whiteout.v ===== *)
(** * Writing and removing whiteouts and opaque markers

    The operations of [WhiteoutManager.cpp] that change the upper.  Each
    changes the disk, invalidates the cache when there is one, and may emit
    an event. *)
From S2P Require Export DirMerge Cache.
Open Scope Z_scope.

Inductive WhiteoutType := WhiteoutNone | WhiteoutFile | WhiteoutDirectory | WhiteoutOpaque.

Inductive event_kind := LM_EVT_WARNING | LM_EVT_COPY_UP | LM_EVT_WHITEOUT_CREATED | LM_EVT_ACCESS_DENIED.

(** An event of the host's callback: its kind, its [HRESULT], its path and
    its message.  The emitter is the host's; a null one drops the event. *)
Record engine_event := Event {
  eventKind : event_kind;
  eventResult : Z;
  eventPath : wstring;
  eventMessage : option wstring
}.

Definition S_OK : Z := 0.

(** What an operation on the upper changes.  A null cache is [None]; the
    events are oldest first. *)
Record UpperState `{W : Win32} := {
  volumes : disk;
  pathCache : option Cache;
  emitted : list engine_event
}.

Section Whiteout.
Context `{W : Win32} `{J : Json} `{E : CacheEnv} (config : LayerConfig).

Definition on_disk {A} (m : eff disk A) : eff UpperState A := fun s =>
  let (d, a) := m (volumes s) in
  ({| volumes := d; pathCache := pathCache s; emitted := emitted s |}, a).

(** [if (cache_) cache_->op(...)]. *)
Definition on_path_cache (m : eff Cache unit) : eff UpperState unit := fun s =>
  ({| volumes := volumes s; pathCache := (fun c => fst (m c)) <$> pathCache s; emitted := emitted s |}, tt).

Definition Emit (e : engine_event) : eff UpperState unit := fun s =>
  ({| volumes := volumes s; pathCache := pathCache s; emitted := emitted s ++ [e] |}, tt).

Definition query {A} (f : disk -> A) : eff UpperState A := fun s => (s, f (volumes s)).

(** ** Marker files *)

(** [ERROR_SUCCESS], or the error of the failed create. *)
Definition CreateHiddenMarkerFile (path : wstring) : eff disk Z :=
  (let! r := CreateAlwaysW (WithExtendedPrefix path)
     (Z.lor FILE_ATTRIBUTE_HIDDEN (Z.lor FILE_ATTRIBUTE_SYSTEM FILE_FLAG_BACKUP_SEMANTICS)) in
   eret match r with Ok _ => ERROR_SUCCESS | Err e => e end)%eff.

Definition DeleteMarkerFile (path : wstring) : eff disk bool :=
  (let! r := DeleteFileW (WithExtendedPrefix path) in
   eret match r with Ok _ => true | Err e => e =? ERROR_FILE_NOT_FOUND end)%eff.

Definition MarkerDirectoryStatus (link : LinkInView) : NTSTATUS :=
  match linkStop link with
  | LinkStopLink => STATUS_NOT_A_DIRECTORY
  | LinkStopUnreadable => STATUS_ACCESS_DENIED
  | LinkStopNone => STATUS_SUCCESS
  end.

(** ** Entry times *)

Definition ReadEntryTimes (d : disk) (path : wstring) : option entry_times :=
  match GetFileTimes d (WithExtendedPrefix path) with Ok t => Some t | Err _ => None end.

(** [WriteEntryTimes] with no attributes. *)
Definition WriteEntryTimes (path : wstring) (times : entry_times) : eff disk bool :=
  (let! opened := eread (fun d => OpenExistingW d (WithExtendedPrefix path) FILE_WRITE_ATTRIBUTES
                                    FILE_FLAG_BACKUP_SEMANTICS) in
   match opened with
   | Err _ => eret false
   | Ok h => let! r := SetFileTime h times in eret (is_ok r)
   end)%eff.

(** ** The operations *)

Definition WriteOpaqueMarkers (dirFullPath : wstring) : eff disk NTSTATUS :=
  (let! before := eread (fun d => ReadEntryTimes d dirFullPath) in
   let! metadataOk := SetOpaqueMetadata dirFullPath (Some config) in
   let! markerError := CreateHiddenMarkerFile (JoinDirPath dirFullPath kOpaqueMarkerFile) in
   do! (match before with
        | Some times => WriteEntryTimes dirFullPath times
        | None => eret true
        end) in
   eret (if metadataOk || (markerError =? ERROR_SUCCESS) then STATUS_SUCCESS
         else NtStatusFromWin32 markerError))%eff.

Definition SetOpaque (dirRelativePath : wstring) : eff UpperState NTSTATUS :=
  (let normalized := NormalizePathPreserveCase dirRelativePath in
   let! directoryStatus := query (fun d => MarkerDirectoryStatus (FindLinkInView d config normalized)) in
   if negb (NT_SUCCESS directoryStatus) then eret directoryStatus
   else
     let dirFullPath := JoinDirPath (upperPath config) normalized in
     do! on_disk (EnsureDirectoryExists dirFullPath) in
     let! status := on_disk (WriteOpaqueMarkers dirFullPath) in
     do! on_path_cache (Invalidate (NormalizePath dirRelativePath)) in
     eret status)%eff.

Definition SetOpaqueAtPath (dirFullPath : wstring) : eff disk NTSTATUS :=
  (let! attributes := eread (fun d => GetFileAttributesW d (WithExtendedPrefix dirFullPath)) in
   match attributes with
   | Ok attrs =>
       let! probe := eread (fun d => IsDirectoryLink d dirFullPath attrs) in
       match probe with
       | Err status => eret status
       | Ok true => eret STATUS_NOT_A_DIRECTORY
       | Ok false => WriteOpaqueMarkers dirFullPath
       end
   | Err _ => WriteOpaqueMarkers dirFullPath
   end)%eff.

Definition CreateWhiteout (relativePath : wstring) (type : WhiteoutType) : eff UpperState NTSTATUS :=
  (match type with
   | WhiteoutOpaque => SetOpaque relativePath
   | _ =>
       let! directoryStatus := query (fun d =>
         MarkerDirectoryStatus (FindLinkInView d config (MarkerDirectoryOf relativePath))) in
       if negb (NT_SUCCESS directoryStatus) then eret directoryStatus
       else
         let whPath := GetWhiteoutFullPath (upperPath config) relativePath in
         let parentDir := parent_path whPath in
         do! (if bool_decide (parentDir = []) then eret true
              else on_disk (EnsureDirectoryExists parentDir)) in
         let! markerError := on_disk (CreateHiddenMarkerFile whPath) in
         if negb (markerError =? ERROR_SUCCESS) then eret (NtStatusFromWin32 markerError)
         else
           do! on_path_cache (InvalidateWithAncestors (NormalizePath relativePath)) in
           do! Emit (Event LM_EVT_WHITEOUT_CREATED S_OK (c_str relativePath) None) in
           eret STATUS_SUCCESS
   end)%eff.

Definition RemoveWhiteout (relativePath : wstring) : eff UpperState NTSTATUS :=
  (let! link := query (fun d => FindLinkOnPath d (upperPath config) (MarkerDirectoryOf relativePath)) in
   match link with
   | LinkSelf | LinkAncestor => eret STATUS_SUCCESS
   | LinkUnreadable => eret STATUS_ACCESS_DENIED
   | LinkNone =>
       let whPath := GetWhiteoutFullPath (upperPath config) relativePath in
       let! deleted := on_disk (DeleteFileW (WithExtendedPrefix whPath)) in
       match deleted with
       | Err deleteErr =>
           if negb (deleteErr =? ERROR_FILE_NOT_FOUND)
           then eret (StatusFromWin32Error deleteErr ERROR_WRITE_FAULT)
           else
             do! on_path_cache (InvalidateWithAncestors (NormalizePath relativePath)) in
             eret STATUS_SUCCESS
       | Ok _ =>
           do! on_path_cache (InvalidateWithAncestors (NormalizePath relativePath)) in
           eret STATUS_SUCCESS
       end
   end)%eff.

Definition RemoveOpaque (dirRelativePath : wstring) : eff UpperState bool :=
  (let normalized := NormalizePathPreserveCase dirRelativePath in
   let! link := query (fun d => FindLinkOnPath d (upperPath config) normalized) in
   match link with
   | LinkAncestor => eret true
   | LinkUnreadable => eret false
   | _ =>
       let dirFullPath := JoinDirPath (upperPath config) normalized in
       let! metadataOk := on_disk (RemoveOpaqueMetadata dirFullPath (Some config)) in
       let! fileOk := (match link with
                       | LinkSelf => eret true
                       | _ => on_disk (DeleteMarkerFile (JoinDirPath dirFullPath kOpaqueMarkerFile))
                       end) in
       do! on_path_cache (Invalidate (NormalizePath dirRelativePath)) in
       eret (metadataOk && fileOk)
   end)%eff.
End Whiteout.
