(* ===== verification/HandleTable.v ===== *)
(** * The handle table

    [HandleTable.h]: the encoding of a handle value, and the table that maps
    handle values to payloads with generations, reservations and a free list;
    and [ReserveThenRun] of [FileHandleOpen.cpp], which opens a file under a
    reserved slot.  Each call holds the table's lock throughout, so a call is
    one step. *)
From S2P Require Export NtStatus.
Open Scope Z_scope.

(** ** Encoding *)

Definition kSlotBits : Z := 24.
Definition kGenerationBits : Z := 24.
Definition kMagicBits : Z := 16.
Definition kSlotMask : Z := Z.shiftl 1 kSlotBits - 1.
Definition kGenerationMask : Z := Z.shiftl 1 kGenerationBits - 1.
Definition kMagicMask : Z := Z.shiftl 1 kMagicBits - 1.
Definition kMaxSlot : Z := kSlotMask.
Definition kMaxGeneration : Z := kGenerationMask.

Definition kMagicLayerMount : Z := 0xFE01.
Definition kMagicFile : Z := 0xFE02.
Definition kMagicVhd : Z := 0xFE03.
Definition kMagicVssSnapshot : Z := 0xFE04.
Definition kMagicImage : Z := 0xFE05.

(** The shifts are on [uint64_t]. *)
Definition Encode (magic generation slot : Z) : Z :=
  Z.lor (Z.lor (Z.shiftl magic (kSlotBits + kGenerationBits) mod 2 ^ 64)
               (Z.shiftl generation kSlotBits mod 2 ^ 64)) slot.

Definition DecodeMagic (value : Z) : Z := Z.land (Z.shiftr value (kSlotBits + kGenerationBits)) kMagicMask.
Definition DecodeGeneration (value : Z) : Z := Z.land (Z.shiftr value kSlotBits) kGenerationMask.
Definition DecodeSlot (value : Z) : Z := Z.land value kSlotMask.

(** ** The table *)

Record Slot (T : Type) := {
  payload : option T;
  generation : Z;
  live : bool;
  reserved : bool
}.
Arguments payload {T} _.
Arguments generation {T} _.
Arguments live {T} _.
Arguments reserved {T} _.

Record HandleTable (T : Type) := {
  maxSlot : Z;
  slots : list (Slot T);
  freeSlots : list nat
}.
Arguments maxSlot {T} _.
Arguments slots {T} _.
Arguments freeSlots {T} _.

Section Table.
Context {T : Type} (Magic : Z).
Implicit Types (t : HandleTable T).

Definition new_table (max : Z) : HandleTable T :=
  {| maxSlot := Z.min max kMaxSlot; slots := []; freeSlots := [] |}.

Definition empty_slot : Slot T := {| payload := None; generation := 1; live := false; reserved := false |}.

Definition with_slots (s : list (Slot T)) t : HandleTable T :=
  {| maxSlot := maxSlot t; slots := s; freeSlots := freeSlots t |}.

Definition update_slot (i : nat) (f : Slot T -> Slot T) t : HandleTable T := with_slots (alter f i (slots t)) t.

Definition generation_at (i : nat) t : Z := generation (default empty_slot (slots t !! i)).

(** 0 when the table is full. *)
Definition TakeSlot : eff (HandleTable T) nat := fun t =>
  match last (freeSlots t) with
  | Some slotIndex =>
      ({| maxSlot := maxSlot t; slots := slots t; freeSlots := removelast (freeSlots t) |}, slotIndex)
  | None =>
      let s := if bool_decide (slots t = []) then [empty_slot] else slots t in
      let nextSlot := length s in
      if maxSlot t <? Z.of_nat nextSlot then (with_slots s t, O)
      else (with_slots (s ++ [empty_slot]) t, nextSlot)
  end.

Definition AllocateShared (p : T) : eff (HandleTable T) Z := fun t =>
  let (t, slotIndex) := TakeSlot t in
  if (slotIndex =? 0)%nat then (t, 0)
  else
    let t := update_slot slotIndex (fun s =>
      {| payload := Some p; generation := generation s; live := true; reserved := reserved s |}) t in
    (t, Encode Magic (generation_at slotIndex t) (Z.of_nat slotIndex)).

(** A null payload is [None]. *)
Definition Allocate (p : option T) : eff (HandleTable T) Z := fun t =>
  match p with None => (t, 0) | Some p => AllocateShared p t end.

Definition Reserve : eff (HandleTable T) Z := fun t =>
  let (t, slotIndex) := TakeSlot t in
  if (slotIndex =? 0)%nat then (t, 0)
  else
    let t := update_slot slotIndex (fun s =>
      {| payload := payload s; generation := generation s; live := live s; reserved := true |}) t in
    (t, Encode Magic (generation_at slotIndex t) (Z.of_nat slotIndex)).

(** The slot that a value names, when it is the slot's current value. *)
Definition FindSlot (handleValue : Z) t : option (nat * Slot T) :=
  if (handleValue =? 0) || negb (DecodeMagic handleValue =? Magic) then None
  else
    let slotIndex := Z.to_nat (DecodeSlot handleValue) in
    if (slotIndex =? 0)%nat then None
    else match slots t !! slotIndex with
    | None => None
    | Some slot =>
        if generation slot =? DecodeGeneration handleValue then Some (slotIndex, slot) else None
    end.

Definition with_generation (g : Z) (s : Slot T) : Slot T :=
  {| payload := payload s; generation := g; live := live s; reserved := reserved s |}.

(** [pushFails] says whether growing the free list throws. *)
Definition Recycle (pushFails : bool) (slotIndex : nat) t : HandleTable T :=
  if kMaxGeneration <=? generation_at slotIndex t then update_slot slotIndex (with_generation kMaxGeneration) t
  else if pushFails then update_slot slotIndex (with_generation kMaxGeneration) t
  else
    let t := update_slot slotIndex (with_generation (generation_at slotIndex t + 1)) t in
    {| maxSlot := maxSlot t; slots := slots t; freeSlots := freeSlots t ++ [slotIndex] |}.

Definition Install (reservedValue : Z) (p : option T) : eff (HandleTable T) bool := fun t =>
  match p with
  | None => (t, false)
  | Some p =>
      match FindSlot reservedValue t with
      | Some (i, slot) =>
          if negb (reserved slot) then (t, false)
          else (update_slot i (fun s =>
                  {| payload := Some p; generation := generation s; live := true; reserved := false |}) t, true)
      | None => (t, false)
      end
  end.

Definition Release (pushFails : bool) (reservedValue : Z) : eff (HandleTable T) unit := fun t =>
  match FindSlot reservedValue t with
  | Some (i, slot) =>
      if negb (reserved slot) then (t, tt)
      else (Recycle pushFails i (update_slot i (fun s =>
              {| payload := payload s; generation := generation s; live := live s; reserved := false |}) t), tt)
  | None => (t, tt)
  end.

Definition Resolve (handleValue : Z) t : option T :=
  if handleValue =? 0 then None
  else if negb (DecodeMagic handleValue =? Magic) then None
  else
    let slotIndex := Z.to_nat (DecodeSlot handleValue) in
    if (slotIndex =? 0)%nat then None
    else match slots t !! slotIndex with
    | None => None
    | Some slot =>
        if negb (live slot) || negb (generation slot =? DecodeGeneration handleValue) then None
        else payload slot
    end.

Definition Free (pushFails : bool) (handleValue : Z) : eff (HandleTable T) (option T) := fun t =>
  if (handleValue =? 0) || negb (DecodeMagic handleValue =? Magic) then (t, None)
  else
    let slotIndex := Z.to_nat (DecodeSlot handleValue) in
    if (slotIndex =? 0)%nat then (t, None)
    else match slots t !! slotIndex with
    | None => (t, None)
    | Some slot =>
        if negb (live slot) || negb (generation slot =? DecodeGeneration handleValue) then (t, None)
        else
          let t := update_slot slotIndex (fun s =>
            {| payload := None; generation := generation s; live := false; reserved := reserved s |}) t in
          (Recycle pushFails slotIndex t, payload slot)
    end.
End Table.

(** ** Opening a file under a reserved slot *)

(** What an engine call gives: it throws, or returns a status with or without
    a context. *)
Inductive engine_result (Ctx : Type) :=
| EngineThrows
| EngineReturns (status : NTSTATUS) (ctx : option Ctx).
Arguments EngineThrows {Ctx}.
Arguments EngineReturns {Ctx} _ _.

(** What the call gives its caller. *)
Inductive abi_result :=
| AbiThrows
| AbiFailed (status : NTSTATUS)
| AbiOutOfMemory
| AbiUnexpected
| AbiHandle (encoded : Z).

Section ReserveThenRun.
Context {Ctx Eng : Type} (engineCall : eff Eng (engine_result Ctx)).

(** The file table, the mount's [childCount] and the engine's own state.  The
    engine runs without the table's lock: [others] is what the other threads'
    calls do to the table meanwhile. *)
Record open_state := { files : HandleTable Ctx; childCount : Z; engine : Eng }.

Definition ReserveThenRun (pushFails : bool) (others : HandleTable Ctx -> HandleTable Ctx) :
    eff open_state abi_result := fun s =>
  let (t, reservedValue) := Reserve kMagicFile (files s) in
  if reservedValue =? 0 then ({| files := t; childCount := childCount s; engine := engine s |}, AbiOutOfMemory)
  else
    let (e, result) := engineCall (engine s) in
    let t := others t in
    let release r :=
      ({| files := fst (Release kMagicFile pushFails reservedValue t); childCount := childCount s; engine := e |}, r) in
    match result with
    | EngineThrows => release AbiThrows
    | EngineReturns status ctx =>
        if negb (NT_SUCCESS status) then release (AbiFailed status)
        else match ctx with
        | None => release AbiUnexpected
        | Some _ =>
            ({| files := fst (Install kMagicFile reservedValue ctx t); childCount := childCount s + 1; engine := e |},
             AbiHandle reservedValue)
        end
    end.
End ReserveThenRun.
Arguments open_state : clear implicits.
Arguments files {Ctx Eng} _.
Arguments childCount {Ctx Eng} _.
Arguments engine {Ctx Eng} _.
