(* ===== verification/HandleFacts.v ===== *)
(** * What the handle table promises

    An abstract table gives every handle value out once, keeps the payloads
    of the live values and the pending reservations, and forgets a value for
    good when it is freed or released.  The slot table of [HandleTable.v]
    refines it. *)
From S2P Require Export HandleTable.
Open Scope Z_scope.

(** ** Encoding *)

Definition field_ok (magic generation slot : Z) : Prop :=
  0 <= magic < 2 ^ 16 /\ 0 <= generation < 2 ^ 24 /\ 0 <= slot < 2 ^ 24.

Lemma Encode_sum magic generation slot :
  field_ok magic generation slot -> Encode magic generation slot = (magic * 2 ^ 24 + generation) * 2 ^ 24 + slot.
Proof.
  intros (Hm & Hg & Hs). unfold Encode, kSlotBits, kGenerationBits.
  assert (Em : Z.shiftl magic (24 + 24) mod 2 ^ 64 = Z.shiftl magic (24 + 24))
    by (rewrite Z.shiftl_mul_pow2 by lia; apply Z.mod_small; lia).
  assert (Eg : Z.shiftl generation 24 mod 2 ^ 64 = Z.shiftl generation 24)
    by (rewrite Z.shiftl_mul_pow2 by lia; apply Z.mod_small; lia).
  rewrite Em, Eg, <- Z.lor_assoc, (lor_shiftl_low generation slot 24) by lia.
  rewrite lor_shiftl_low by lia. lia.
Qed.

Lemma DecodeMagic_sum v : 0 <= v < 2 ^ 64 -> DecodeMagic v = v / 2 ^ 48.
Proof.
  intros Hv. unfold DecodeMagic. change (kMagicMask) with (Z.ones 16).
  change (kSlotBits + kGenerationBits) with 48.
  rewrite Z.land_ones, Z.shiftr_div_pow2 by lia. apply Z.mod_small.
  split; [apply Z.div_pos; lia|]. apply Z.div_lt_upper_bound; lia.
Qed.

Lemma DecodeGeneration_sum v : DecodeGeneration v = (v / 2 ^ 24) mod 2 ^ 24.
Proof.
  unfold DecodeGeneration. change kGenerationMask with (Z.ones 24). change kSlotBits with 24.
  by rewrite Z.land_ones, Z.shiftr_div_pow2 by lia.
Qed.

Lemma DecodeSlot_sum v : DecodeSlot v = v mod 2 ^ 24.
Proof. unfold DecodeSlot. change kSlotMask with (Z.ones 24). by rewrite Z.land_ones by lia. Qed.

Lemma Encode_range magic generation slot :
  field_ok magic generation slot -> 0 <= Encode magic generation slot < 2 ^ 64.
Proof. intros H. rewrite Encode_sum by done. destruct H as (? & ? & ?). lia. Qed.

Lemma Decode_Encode magic generation slot :
  field_ok magic generation slot ->
  DecodeMagic (Encode magic generation slot) = magic /\
  DecodeGeneration (Encode magic generation slot) = generation /\
  DecodeSlot (Encode magic generation slot) = slot.
Proof.
  intros H. pose proof (Encode_range _ _ _ H) as R.
  rewrite DecodeMagic_sum, DecodeGeneration_sum, DecodeSlot_sum by done.
  rewrite Encode_sum by done. destruct H as (Hm & Hg & Hs).
  assert (E : ((magic * 2 ^ 24 + generation) * 2 ^ 24 + slot) / 2 ^ 24 = magic * 2 ^ 24 + generation).
  { rewrite Z.div_add_l by lia. rewrite (Z.div_small slot) by lia. lia. }
  split; [|split].
  - change (2 ^ 48) with (2 ^ 24 * 2 ^ 24). rewrite <- Z.div_div by lia. rewrite E.
    rewrite Z.div_add_l by lia. rewrite (Z.div_small generation) by lia. lia.
  - rewrite E, Z.add_comm, Z.mod_add by lia. apply Z.mod_small. lia.
  - rewrite Z.add_comm, Z.mod_add by lia. apply Z.mod_small. lia.
Qed.

Lemma Encode_Decode v : 0 <= v < 2 ^ 64 -> Encode (DecodeMagic v) (DecodeGeneration v) (DecodeSlot v) = v.
Proof.
  intros Hv. rewrite Encode_sum.
  - rewrite DecodeMagic_sum, DecodeGeneration_sum, DecodeSlot_sum by done.
    change (2 ^ 48) with (2 ^ 24 * 2 ^ 24). rewrite <- Z.div_div by lia.
    pose proof (Z.div_mod v (2 ^ 24)). pose proof (Z.div_mod (v / 2 ^ 24) (2 ^ 24)). lia.
  - rewrite DecodeMagic_sum, DecodeGeneration_sum, DecodeSlot_sum by done. unfold field_ok.
    repeat split; try (apply Z.mod_pos_bound; lia); [apply Z.div_pos; lia|apply Z.div_lt_upper_bound; lia].
Qed.

(** ** The abstract table *)

Section Promise.
Context {T : Type} (Magic : Z).
Implicit Types (t : HandleTable T).

Inductive op :=
| OpAllocate (p : option T)
| OpReserve
| OpInstall (v : Z) (p : option T)
| OpRelease (pushFails : bool) (v : Z)
| OpResolve (v : Z)
| OpFree (pushFails : bool) (v : Z).

Inductive reply :=
| ReplyValue (v : Z)
| ReplyDone (b : bool)
| ReplyNothing
| ReplyPayload (p : option T).

Definition run_op (o : op) : eff (HandleTable T) reply := fun t =>
  match o with
  | OpAllocate p => let (t', v) := Allocate Magic p t in (t', ReplyValue v)
  | OpReserve => let (t', v) := Reserve Magic t in (t', ReplyValue v)
  | OpInstall v p => let (t', b) := Install Magic v p t in (t', ReplyDone b)
  | OpRelease pf v => (fst (Release Magic pf v t), ReplyNothing)
  | OpResolve v => (t, ReplyPayload (Resolve Magic v t))
  | OpFree pf v => let (t', p) := Free Magic pf v t in (t', ReplyPayload p)
  end.

Fixpoint run_ops (os : list op) : eff (HandleTable T) (list reply) :=
  match os with
  | [] => eret []
  | o :: os => (let! r := run_op o in let! rs := run_ops os in eret (r :: rs))%eff
  end.

(** A value is a [uint64_t]. *)
Definition is_uint64 (v : Z) : Prop := 0 <= v < 2 ^ 64.

Definition op_ok (o : op) : Prop :=
  match o with
  | OpInstall v _ | OpRelease _ v | OpResolve v | OpFree _ v => is_uint64 v
  | _ => True
  end.

(** The live values with their payloads, the reserved values that are not
    filled yet, and every value handed out so far. *)
Record promise := { liveValues : gmap Z T; pending : gset Z; issued : gset Z }.

Inductive promise_step : promise -> op -> reply -> promise -> Prop :=
| promise_null P : promise_step P (OpAllocate None) (ReplyValue 0) P
| promise_full P o : o = OpReserve \/ (exists p, o = OpAllocate (Some p)) -> promise_step P o (ReplyValue 0) P
| promise_allocate P p v :
    v <> 0 -> v ∉ issued P ->
    promise_step P (OpAllocate (Some p)) (ReplyValue v)
      {| liveValues := <[v := p]> (liveValues P); pending := pending P; issued := {[v]} ∪ issued P |}
| promise_reserve P v :
    v <> 0 -> v ∉ issued P ->
    promise_step P OpReserve (ReplyValue v)
      {| liveValues := liveValues P; pending := {[v]} ∪ pending P; issued := {[v]} ∪ issued P |}
| promise_install P v p :
    v ∈ pending P ->
    promise_step P (OpInstall v (Some p)) (ReplyDone true)
      {| liveValues := <[v := p]> (liveValues P); pending := pending P ∖ {[v]}; issued := issued P |}
| promise_install_refused P v p :
    p = None \/ v ∉ pending P -> promise_step P (OpInstall v p) (ReplyDone false) P
| promise_release P pf v :
    promise_step P (OpRelease pf v) ReplyNothing
      {| liveValues := liveValues P; pending := pending P ∖ {[v]}; issued := issued P |}
| promise_resolve P v : promise_step P (OpResolve v) (ReplyPayload (liveValues P !! v)) P
| promise_free P pf v :
    promise_step P (OpFree pf v) (ReplyPayload (liveValues P !! v))
      {| liveValues := delete v (liveValues P); pending := pending P; issued := issued P |}.

Inductive promise_run : promise -> list op -> list reply -> promise -> Prop :=
| run_nil P : promise_run P [] [] P
| run_cons P o r P' os rs P'' :
    promise_step P o r P' -> promise_run P' os rs P'' -> promise_run P (o :: os) (r :: rs) P''.

Definition empty_promise : promise := {| liveValues := ∅; pending := ∅; issued := ∅ |}.

(** ** The representation *)

Definition slot_ok (s : Slot T) : Prop :=
  1 <= generation s <= kMaxGeneration /\ (live s = true -> is_Some (payload s) /\ reserved s = false).

Definition idle (s : Slot T) : Prop := live s = false /\ reserved s = false.

Record table_ok t : Prop := {
  ok_max : 0 <= maxSlot t <= kMaxSlot;
  ok_length : Z.of_nat (length (slots t)) <= maxSlot t + 1;
  ok_nodup : NoDup (freeSlots t);
  ok_free i : i ∈ freeSlots t -> i <> O /\ exists s, slots t !! i = Some s /\ idle s;
  ok_slots i s : slots t !! i = Some s -> slot_ok s
}.

(** What a value means to the table: its payload, and whether it is a
    pending reservation. *)
Definition meaning (v : Z) t : option T * bool :=
  match FindSlot Magic v t with
  | Some (_, s) => (if live s then payload s else None, reserved s)
  | None => (None, false)
  end.

(** A value that was handed out for slot [i] with generation [g]. *)
Definition spent t (v : Z) : Prop :=
  exists i s g, i <> O /\ slots t !! i = Some s /\ v = Encode Magic g (Z.of_nat i) /\
    1 <= g <= generation s /\ (i ∈ freeSlots t -> g < generation s).

Record represents t (P : promise) : Prop := {
  rep_ok : table_ok t;
  rep_live v : is_uint64 v -> liveValues P !! v = fst (meaning v t);
  rep_pending v : is_uint64 v -> v ∈ pending P <-> snd (meaning v t) = true;
  rep_issued v : v ∈ issued P -> spent t v
}.
End Promise.
Arguments op : clear implicits.
Arguments reply : clear implicits.
Arguments promise : clear implicits.

(** ** Slots and values *)

Section Slots.
Context {T : Type} (Magic : Z).
Hypothesis magic_ok : 0 < Magic < 2 ^ 16.
Implicit Types (t : HandleTable T) (P : promise T).

Lemma slot_fields t i s :
  table_ok t -> slots t !! i = Some s -> field_ok Magic (generation s) (Z.of_nat i).
Proof.
  intros Ht Hi. pose proof (ok_slots t Ht i s Hi) as [Hg _].
  pose proof (ok_max t Ht). pose proof (ok_length t Ht).
  apply lookup_lt_Some in Hi. unfold field_ok.
  change kMaxGeneration with (2 ^ 24 - 1) in *. change kMaxSlot with (2 ^ 24 - 1) in *. lia.
Qed.

Lemma Encode_nonzero g i : field_ok Magic g i -> Encode Magic g i <> 0.
Proof. intros H. rewrite Encode_sum by done. destruct H as (? & ? & ?). lia. Qed.

Lemma Encode_inj g i g' i' :
  field_ok Magic g i -> field_ok Magic g' i' -> Encode Magic g i = Encode Magic g' i' -> g = g' /\ i = i'.
Proof.
  intros H H' E. destruct (Decode_Encode _ _ _ H) as (_ & Hg & Hi).
  destruct (Decode_Encode _ _ _ H') as (_ & Hg' & Hi'). rewrite E in Hg, Hi. split; congruence.
Qed.

Lemma FindSlot_Some t v i s :
  is_uint64 v -> FindSlot Magic v t = Some (i, s) ->
  i <> O /\ slots t !! i = Some s /\ v = Encode Magic (generation s) (Z.of_nat i).
Proof.
  unfold FindSlot. intros Hv. destruct (Z.eqb_spec v 0); cbn [orb]; [done|].
  destruct (Z.eqb_spec (DecodeMagic v) Magic) as [Em|]; cbn [negb]; [|done].
  destruct (Nat.eqb_spec (Z.to_nat (DecodeSlot v)) 0); [done|].
  destruct (slots t !! _) as [slot|] eqn:El; [|done].
  destruct (Z.eqb_spec (generation slot) (DecodeGeneration v)) as [Eg|]; [|done].
  intros [= <- <-]. split; [done|]. split; [done|]. rewrite Eg, <- Em, Z2Nat.id.
  - by rewrite Encode_Decode.
  - rewrite DecodeSlot_sum. apply Z.mod_pos_bound. lia.
Qed.

Lemma FindSlot_Encode t i s :
  table_ok t -> i <> O -> slots t !! i = Some s ->
  FindSlot Magic (Encode Magic (generation s) (Z.of_nat i)) t = Some (i, s).
Proof.
  intros Ht Hi Hs. pose proof (slot_fields t i s Ht Hs) as Hf.
  destruct (Decode_Encode _ _ _ Hf) as (Hm & Hg & Hd). unfold FindSlot.
  destruct (Z.eqb_spec (Encode Magic (generation s) (Z.of_nat i)) 0) as [E|_]; [by apply Encode_nonzero in E|].
  rewrite Hm, Hg, Hd, Nat2Z.id, !Z.eqb_refl. cbn [orb negb].
  destruct (Nat.eqb_spec i 0); [done|]. rewrite Hs. by rewrite Z.eqb_refl.
Qed.

Lemma Resolve_meaning t v : Resolve Magic v t = fst (meaning Magic v t).
Proof.
  unfold Resolve, meaning, FindSlot. destruct (v =? 0); [done|].
  destruct (negb (DecodeMagic v =? Magic)); [done|]. cbn [orb].
  destruct (Z.to_nat (DecodeSlot v) =? 0)%nat; [done|].
  destruct (slots t !! _) as [s|]; [|done].
  destruct (live s) eqn:El; cbn [negb orb]; destruct (generation s =? DecodeGeneration v); cbn [negb fst];
    by rewrite ?El.
Qed.

(** [FindSlot] after one slot is changed with its generation kept. *)
Lemma FindSlot_update t i f v :
  (forall s, generation (f s) = generation s) ->
  FindSlot Magic v (update_slot i f t) =
    (fun js => (fst js, if decide (fst js = i) then f (snd js) else snd js)) <$> FindSlot Magic v t.
Proof.
  intros Hf. unfold FindSlot, update_slot, with_slots. cbn [slots].
  destruct ((v =? 0) || negb (DecodeMagic v =? Magic)); [done|].
  destruct (Nat.eqb_spec (Z.to_nat (DecodeSlot v)) 0); [done|].
  destruct (decide (i = Z.to_nat (DecodeSlot v))) as [->|Hne].
  - rewrite list_lookup_alter_eq.
    destruct (slots t !! _) as [s|]; cbn; [|done]. rewrite Hf.
    destruct (generation s =? DecodeGeneration v); cbn; [|done]. by rewrite decide_True.
  - rewrite list_lookup_alter_ne by done. destruct (slots t !! _) as [s|]; cbn; [|done].
    destruct (generation s =? DecodeGeneration v); cbn; [|done]. by rewrite decide_False by congruence.
Qed.

(** ** Slot updates *)

Definition set_meaning (v : Z) (s : Slot T) P : promise T :=
  {| liveValues := match (if live s then payload s else None) with
                   | Some p => <[v := p]> (liveValues P)
                   | None => delete v (liveValues P)
                   end;
     pending := if reserved s then {[v]} ∪ pending P else pending P ∖ {[v]};
     issued := {[v]} ∪ issued P |}.

Lemma update_table_ok t i s f :
  table_ok t -> slots t !! i = Some s -> i ∉ freeSlots t ->
  (forall s, generation (f s) = generation s) ->
  (live (f s) = true -> is_Some (payload (f s)) /\ reserved (f s) = false) ->
  table_ok (update_slot i f t).
Proof.
  intros [Hmax Hlen Hnd Hfree Hslots] Hi Hni Hgen Hlive.
  split; unfold update_slot, with_slots; cbn [maxSlot slots freeSlots]; try done.
  - by rewrite length_alter.
  - intros j Hj. destruct (Hfree j Hj) as (H0 & s' & Hs' & Hidle). split; [done|].
    exists s'. rewrite list_lookup_alter_ne by congruence. done.
  - intros j s' Hs'. destruct (decide (i = j)) as [<-|].
    + rewrite list_lookup_alter_eq, Hi in Hs'. injection Hs' as <-. split; [|done].
      rewrite Hgen. by apply (Hslots i).
    + rewrite list_lookup_alter_ne in Hs' by done. by apply (Hslots j).
Qed.

Lemma spent_update t i f v :
  (forall s, generation (f s) = generation s) -> spent Magic t v -> spent Magic (update_slot i f t) v.
Proof.
  intros Hgen (j & s & g & H0 & Hj & Hv & Hg & Hf). exists j.
  unfold update_slot, with_slots. cbn [slots freeSlots].
  destruct (decide (i = j)) as [<-|].
  - exists (f s), g. rewrite list_lookup_alter_eq, Hj, Hgen. done.
  - exists s, g. rewrite list_lookup_alter_ne by done. done.
Qed.

Lemma update_represents t P i s f :
  represents Magic t P -> i <> O -> slots t !! i = Some s -> i ∉ freeSlots t ->
  (forall s, generation (f s) = generation s) ->
  (live (f s) = true -> is_Some (payload (f s)) /\ reserved (f s) = false) ->
  represents Magic (update_slot i f t) (set_meaning (Encode Magic (generation s) (Z.of_nat i)) (f s) P).
Proof.
  intros [Ht Hl Hp His] H0 Hi Hni Hgen Hlive. set (v := Encode _ _ _).
  assert (Hv : FindSlot Magic v t = Some (i, s)) by by apply FindSlot_Encode.
  assert (Hm : forall v', is_uint64 v' -> meaning Magic v' (update_slot i f t) =
    if decide (v' = v) then (if live (f s) then payload (f s) else None, reserved (f s)) else meaning Magic v' t).
  { intros v' Hv'. unfold meaning. rewrite FindSlot_update by done. case_decide as E.
    - rewrite E, Hv. cbn. by rewrite decide_True.
    - destruct (FindSlot Magic v' t) as [[j s']|] eqn:E'; cbn; [|done].
      apply FindSlot_Some in E' as (_ & Hj & ->); [|done].
      rewrite decide_False; [done|]. intros ->. apply E. unfold v. congruence. }
  split.
  - by eapply update_table_ok.
  - intros v' Hv'. rewrite Hm by done. cbn [set_meaning liveValues]. case_decide as E.
    + subst v'. cbn [fst]. destruct (if live (f s) then payload (f s) else None);
        [by rewrite lookup_insert_eq|by rewrite lookup_delete_eq].
    + destruct (if live (f s) then payload (f s) else None);
        [rewrite lookup_insert_ne by done|rewrite lookup_delete_ne by done]; by apply Hl.
  - intros v' Hv'. rewrite Hm by done. cbn [set_meaning pending]. case_decide as E.
    + subst v'. cbn [snd]. destruct (reserved (f s)); set_solver.
    + rewrite <- (Hp v') by done. destruct (reserved (f s)); set_solver.
  - intros v'. cbn [set_meaning issued]. rewrite elem_of_union, elem_of_singleton. intros [->|Hv'].
    + apply spent_update; [done|]. exists i, s, (generation s).
      pose proof (ok_slots t Ht i s Hi) as [? _]. repeat split; try done; lia.
    + apply spent_update; [done|]. by apply His.
Qed.

Lemma represents_eq t P P' :
  represents Magic t P -> (forall v, is_uint64 v -> liveValues P' !! v = liveValues P !! v) ->
  (forall v, is_uint64 v -> v ∈ pending P' <-> v ∈ pending P) -> (forall v, v ∈ issued P' -> v ∈ issued P) ->
  represents Magic t P'.
Proof.
  intros [Ht Hl Hp Hi] El Ep Ei. split; [done| | |].
  - intros v Hv. rewrite El by done. by apply Hl.
  - intros v Hv. rewrite Ep by done. by apply Hp.
  - intros v Hv. apply Hi. by apply Ei.
Qed.

(** ** Taking and recycling a slot *)

Definition takes t (r : HandleTable T * nat) P : Prop :=
  represents Magic (fst r) P /\
  (snd r <> O -> snd r ∉ freeSlots (fst r) /\ exists s, slots (fst r) !! snd r = Some s /\ idle s /\
    Encode Magic (generation s) (Z.of_nat (snd r)) ∉ issued P).

Lemma take_free_slot t P fs i :
  represents Magic t P -> freeSlots t = fs ++ [i] ->
  takes t ({| maxSlot := maxSlot t; slots := slots t; freeSlots := fs |}, i) P.
Proof.
  intros [Ht Hl Hp His] Efree.
  pose proof (ok_nodup t Ht) as Hnd. rewrite Efree in Hnd.
  apply NoDup_app in Hnd as (Hnd & Hni & _).
  assert (Hi : i ∈ freeSlots t) by (rewrite Efree; apply elem_of_app; right; left).
  destruct (ok_free t Ht i Hi) as (H0 & s & Hs & Hidle).
  split; cbn [fst snd freeSlots slots].
  - split; [|done|done|].
    + destruct Ht as [? ? ? Hfree ?]. split; cbn; try done. intros j Hj. apply Hfree. rewrite Efree. set_solver.
    + intros v Hv. destruct (His v Hv) as (j & s' & g & Hj & Hs' & -> & Hg & Hlt).
      exists j, s', g. cbn. repeat split; try done; try lia. intros Hj'. apply Hlt. rewrite Efree. set_solver.
  - intros _. split; [intros Hin; by apply (Hni i Hin), list_elem_of_singleton|].
    exists s. split; [done|]. split; [done|]. intros Hv.
    destruct (His _ Hv) as (j & s' & g & Hj & Hs' & E & Hg & Hlt).
    pose proof (ok_slots t Ht j s' Hs') as [Hgen _]. pose proof (slot_fields t j s' Ht Hs') as F.
    apply Encode_inj in E as [<- E]; [|by eapply slot_fields|unfold field_ok in *; lia].
    apply Nat2Z.inj in E as <-. rewrite Hs in Hs'. injection Hs' as <-. specialize (Hlt Hi). lia.
Qed.

(** Growing the table by idle slots changes no meaning. *)
Lemma meaning_grow t more v :
  Forall idle more -> meaning Magic v (with_slots (slots t ++ more) t) = meaning Magic v t.
Proof.
  intros Hidle. unfold meaning, FindSlot, with_slots. cbn [slots].
  destruct ((v =? 0) || negb (DecodeMagic v =? Magic)); [done|].
  destruct (Nat.eqb_spec (Z.to_nat (DecodeSlot v)) 0) as [|_]; [done|].
  rewrite lookup_app. destruct (slots t !! _) as [s|]; [done|].
  destruct (more !! _) as [s|] eqn:E; [|done].
  pose proof (Forall_lookup_1 _ _ _ _ Hidle E) as [Hl Hr].
  destruct (generation s =? DecodeGeneration v); [|done]. by rewrite Hl, Hr.
Qed.

Lemma grow_represents t P more :
  represents Magic t P -> Forall (fun s => s = empty_slot) more ->
  Z.of_nat (length (slots t) + length more) <= maxSlot t + 1 ->
  represents Magic (with_slots (slots t ++ more) t) P.
Proof.
  intros [Ht Hl Hp His] Hmore Hlen.
  assert (Hidle : Forall idle more) by (eapply Forall_impl; [done|]; by intros ? ->).
  split.
  - destruct Ht as [Hmax _ Hnd Hfree Hslots]. split; unfold with_slots; cbn; try done.
    + rewrite length_app. lia.
    + intros i Hi. destruct (Hfree i Hi) as (H0 & s & Hs & ?). split; [done|]. exists s.
      by rewrite (lookup_app_l_Some _ _ _ _ Hs).
    + intros i s [Hs|[_ Hs]]%lookup_app_Some; [by apply (Hslots i)|].
      rewrite (Forall_lookup_1 _ _ _ _ Hmore Hs). split; cbn; [|done]. change kMaxGeneration with (2 ^ 24 - 1). lia.
  - intros v Hv. rewrite meaning_grow by done. by apply Hl.
  - intros v Hv. rewrite meaning_grow by done. by apply Hp.
  - intros v Hv. destruct (His v Hv) as (i & s & g & H0 & Hs & Hrest). exists i, s, g.
    cbn. by rewrite (lookup_app_l_Some _ _ _ _ Hs).
Qed.

Lemma TakeSlot_takes t P : represents Magic t P -> takes t (TakeSlot t) P.
Proof.
  intros Hr. pose proof (rep_ok _ _ _ Hr) as Ht. unfold TakeSlot.
  destruct (last (freeSlots t)) as [i|] eqn:El.
  { apply last_Some in El as [fs Efree]. rewrite Efree, removelast_last. by apply take_free_slot. }
  apply last_None in El.
  pose (more := if bool_decide (slots t = []) then [@empty_slot T] else []).
  assert (Es : (if bool_decide (slots t = []) then [empty_slot] else slots t) = slots t ++ more).
  { unfold more. case_bool_decide as E; [by rewrite E|by rewrite app_nil_r]. }
  pose proof (ok_max t Ht) as Hmax. pose proof (ok_length t Ht) as Hlen.
  assert (Hmore : Forall (fun s => s = @empty_slot T) more /\ (length more + length (slots t) >= 1)%nat /\
                  Z.of_nat (length (slots t) + length more) <= maxSlot t + 1).
  { unfold more. case_bool_decide as E; [rewrite E in *|]; cbn in *.
    - split; [by repeat constructor|]. lia.
    - split; [done|]. destruct (slots t); cbn in *; [done|lia]. }
  destruct Hmore as (Hmore & Hpos & Hmlen). rewrite Es. rewrite length_app.
  destruct (Z.ltb_spec (maxSlot t) (Z.of_nat (length (slots t) + length more))) as [Hfull|Hroom].
  { split; cbn [fst snd]; [by apply grow_represents|done]. }
  rewrite <- app_assoc. split; cbn [fst snd].
  - apply grow_represents; [done| |].
    + apply Forall_app. split; [done|by constructor].
    + rewrite length_app. cbn. lia.
  - intros _. unfold with_slots. cbn [freeSlots slots]. rewrite El.
    split; [apply not_elem_of_nil|]. exists empty_slot. split; [|split; [done|]].
    + rewrite app_assoc, lookup_app_r, length_app by (rewrite length_app; lia).
      by replace (length (slots t) + length more - (length (slots t) + length more))%nat with O by lia.
    + intros Hv. destruct (rep_issued _ _ _ Hr _ Hv) as (j & s & g & Hj & Hs & E & Hg & _).
      pose proof (slot_fields t j s Ht Hs) as F. pose proof (lookup_lt_Some _ _ _ Hs).
      apply Encode_inj in E as [_ E]; [lia| |unfold field_ok in *; lia].
      unfold field_ok. cbn. change kMaxSlot with (2 ^ 24 - 1) in *. lia.
Qed.

(** A new generation for an idle slot changes no meaning. *)
Lemma meaning_regenerate t i s g v :
  slots t !! i = Some s -> idle s -> meaning Magic v (update_slot i (with_generation g) t) = meaning Magic v t.
Proof.
  intros Hi [Hl Hr]. unfold meaning, FindSlot, update_slot, with_slots. cbn [slots].
  destruct ((v =? 0) || negb (DecodeMagic v =? Magic)); [done|].
  destruct (Nat.eqb_spec (Z.to_nat (DecodeSlot v)) 0) as [|_]; [done|].
  destruct (decide (i = Z.to_nat (DecodeSlot v))) as [E|]; [|by rewrite list_lookup_alter_ne].
  rewrite <- E, list_lookup_alter_eq, Hi. cbn.
  by destruct (g =? DecodeGeneration v), (generation s =? DecodeGeneration v); cbn; rewrite ?Hl, ?Hr.
Qed.

Lemma regenerate_represents t P i s g :
  represents Magic t P -> slots t !! i = Some s -> idle s -> i ∉ freeSlots t ->
  generation s <= g <= kMaxGeneration ->
  represents Magic (update_slot i (with_generation g) t) P.
Proof.
  intros [Ht Hl Hp His] Hi Hidle Hni Hg. split.
  - destruct Ht as [Hmax Hlen Hnd Hfree Hslots].
    split; unfold update_slot, with_slots; cbn [maxSlot slots freeSlots]; try done.
    + by rewrite length_alter.
    + intros j Hj. destruct (Hfree j Hj) as (H0 & s' & Hs' & ?). split; [done|].
      exists s'. rewrite list_lookup_alter_ne by congruence. done.
    + intros j s' Hs'. destruct (decide (i = j)) as [<-|].
      * rewrite list_lookup_alter_eq, Hi in Hs'. injection Hs' as <-.
        destruct (Hslots i s Hi) as [? ?]. split; cbn; [lia|done].
      * rewrite list_lookup_alter_ne in Hs' by done. by apply (Hslots j).
  - intros v Hv. rewrite (meaning_regenerate t i s) by done. by apply Hl.
  - intros v Hv. rewrite (meaning_regenerate t i s) by done. by apply Hp.
  - intros v Hv. destruct (His v Hv) as (j & s' & g' & H0 & Hs' & -> & Hg' & Hlt).
    unfold spent, update_slot, with_slots. cbn [slots freeSlots].
    destruct (decide (i = j)) as [<-|].
    + exists i, (with_generation g s), g'. rewrite list_lookup_alter_eq, Hi. rewrite Hi in Hs'. injection Hs' as <-.
      cbn. repeat split; try done; lia.
    + exists j, s', g'. by rewrite list_lookup_alter_ne.
Qed.

Lemma free_list_represents t P i s :
  represents Magic t P -> i <> O -> slots t !! i = Some s -> idle s -> i ∉ freeSlots t ->
  (forall g, 1 <= g <= generation s -> Encode Magic g (Z.of_nat i) ∈ issued P -> g < generation s) ->
  represents Magic {| maxSlot := maxSlot t; slots := slots t; freeSlots := freeSlots t ++ [i] |} P.
Proof.
  intros [Ht Hl Hp His] H0 Hi Hidle Hni Hlt. split; [|done|done|].
  - destruct Ht as [Hmax Hlen Hnd Hfree Hslots]. split; cbn; try done.
    + apply NoDup_app. split; [done|]. split; [|by apply NoDup_singleton].
      intros j Hj ->%list_elem_of_singleton. done.
    + intros j [Hj|Hj]%elem_of_app; [by apply Hfree|]. apply list_elem_of_singleton in Hj as ->. eauto.
  - intros v Hv. destruct (His v Hv) as (j & s' & g & Hj & Hs' & -> & Hg & Hlt').
    exists j, s', g. cbn. repeat split; try done; try lia.
    intros [Hin|Hin]%elem_of_app; [by apply Hlt'|]. apply list_elem_of_singleton in Hin as ->.
    rewrite Hi in Hs'. injection Hs' as <-. by apply Hlt.
Qed.

Lemma generation_at_lookup t i s : slots t !! i = Some s -> generation_at i t = generation s.
Proof. intros H. unfold generation_at. by rewrite H. Qed.

Lemma Recycle_represents t P i s pf :
  represents Magic t P -> i <> O -> slots t !! i = Some s -> idle s -> i ∉ freeSlots t ->
  represents Magic (Recycle pf i t) P.
Proof.
  intros Hr H0 Hi Hidle Hni. pose proof (rep_ok _ _ _ Hr) as Ht.
  destruct (ok_slots t Ht i s Hi) as [Hgen _].
  unfold Recycle. rewrite (generation_at_lookup t i s) by done.
  destruct (Z.leb_spec kMaxGeneration (generation s)).
  { apply (regenerate_represents t P i s); [done..|lia]. }
  destruct pf.
  { apply (regenerate_represents t P i s); [done..|lia]. }
  assert (Hr' : represents Magic (update_slot i (with_generation (generation s + 1)) t) P)
    by (apply (regenerate_represents t P i s); [done..|lia]).
  apply (free_list_represents _ P i (with_generation (generation s + 1) s)); try done.
  - unfold update_slot, with_slots. cbn. by rewrite list_lookup_alter_eq, Hi.
  - cbn. intros g Hg Hv.
    destruct (rep_issued _ _ _ Hr _ Hv) as (j & s' & g' & Hj & Hs' & E & Hg' & _).
    pose proof (slot_fields t j s' Ht Hs') as F. pose proof (slot_fields t i s Ht Hi) as F'.
    change kMaxGeneration with (2 ^ 24 - 1) in *. unfold field_ok in *.
    apply Encode_inj in E as [<- E%Nat2Z.inj]; [|unfold field_ok; lia|unfold field_ok; lia].
    subst j. rewrite Hi in Hs'. injection Hs' as <-. lia.
Qed.

(** ** Each operation takes a step of the promise *)

Definition steps (o : op T) t P : Prop :=
  exists P', promise_step P o (snd (run_op Magic o t)) P' /\ represents Magic (fst (run_op Magic o t)) P'.

Lemma meaning_Some t v i s :
  FindSlot Magic v t = Some (i, s) -> meaning Magic v t = (if live s then payload s else None, reserved s).
Proof. unfold meaning. by intros ->. Qed.

(** A slot in use is not on the free list. *)
Lemma busy_not_free t i s : table_ok t -> slots t !! i = Some s -> ~ idle s -> i ∉ freeSlots t.
Proof.
  intros Ht Hi Hbusy Hin. destruct (ok_free t Ht i Hin) as (_ & s' & Hs' & ?).
  rewrite Hi in Hs'. by injection Hs' as <-.
Qed.

Lemma allocate_steps p t P : represents Magic t P -> steps (OpAllocate p) t P.
Proof.
  intros Hr. unfold steps. cbn [run_op]. destruct p as [p|]; cbn [Allocate].
  2: { exists P. split; [constructor|done]. }
  unfold AllocateShared. pose proof (TakeSlot_takes t P Hr) as [Hr' Hi].
  destruct (TakeSlot t) as [t' i]. cbn [fst snd] in *.
  destruct (Nat.eqb_spec i 0) as [->|H0]; cbn [fst snd].
  { exists P. split; [|done]. apply promise_full. right. by exists p. }
  destruct (Hi H0) as (Hni & s & Hs & [_ Hres] & Hfresh).
  set (f := fun s0 : Slot T => {| payload := Some p; generation := generation s0; live := true; reserved := reserved s0 |}).
  assert (Eg : generation_at i (update_slot i f t') = generation s).
  { rewrite (generation_at_lookup _ i (f s)); [done|]. cbn. by rewrite list_lookup_alter_eq, Hs. }
  rewrite Eg. eexists. split.
  - apply promise_allocate; [|exact Hfresh].
    apply Encode_nonzero. by apply (slot_fields t' i s (rep_ok _ _ _ Hr')).
  - eapply represents_eq; [apply (update_represents t' P i s f Hr' H0 Hs Hni)| | |]; cbn.
    + done.
    + intros _. split; [by eexists|]. by destruct s; cbn in *.
    + done.
    + rewrite Hres. intros v Hv. pose proof (rep_pending _ _ _ Hr' v Hv).
      destruct (decide (v = Encode Magic (generation s) (Z.of_nat i))) as [->|]; [|set_solver].
      unfold meaning in *. rewrite FindSlot_Encode in H by (done || apply (rep_ok _ _ _ Hr')).
      cbn in H. rewrite Hres in H. set_solver.
    + done.
Qed.

Lemma reserve_steps t P : represents Magic t P -> steps OpReserve t P.
Proof.
  intros Hr. unfold steps. cbn [run_op]. unfold Reserve.
  pose proof (TakeSlot_takes t P Hr) as [Hr' Hi].
  destruct (TakeSlot t) as [t' i]. cbn [fst snd] in *.
  destruct (Nat.eqb_spec i 0) as [->|H0]; cbn [fst snd].
  { exists P. split; [|done]. apply promise_full. by left. }
  destruct (Hi H0) as (Hni & s & Hs & [Hlive _] & Hfresh).
  set (f := fun s0 : Slot T => {| payload := payload s0; generation := generation s0; live := live s0; reserved := true |}).
  assert (Eg : generation_at i (update_slot i f t') = generation s).
  { rewrite (generation_at_lookup _ i (f s)); [done|]. cbn. by rewrite list_lookup_alter_eq, Hs. }
  rewrite Eg. eexists. split.
  - apply promise_reserve; [|exact Hfresh].
    apply Encode_nonzero. by apply (slot_fields t' i s (rep_ok _ _ _ Hr')).
  - eapply represents_eq; [apply (update_represents t' P i s f Hr' H0 Hs Hni)| | |]; cbn.
    + done.
    + by rewrite Hlive.
    + rewrite Hlive. intros v Hv. pose proof (rep_live _ _ _ Hr' v Hv) as Hl.
      destruct (decide (v = Encode Magic (generation s) (Z.of_nat i))) as [->|];
        [|by rewrite lookup_delete_ne].
      rewrite lookup_delete_eq, Hl, (meaning_Some _ _ i s) by (apply FindSlot_Encode; [apply (rep_ok _ _ _ Hr')|done..]).
      by rewrite Hlive.
    + done.
    + done.
Qed.

Lemma install_steps v p t P : represents Magic t P -> is_uint64 v -> steps (OpInstall v p) t P.
Proof.
  intros Hr Hv. unfold steps. cbn [run_op]. unfold Install.
  assert (Hno : v ∉ pending P -> exists P', promise_step P (OpInstall v p) (ReplyDone false) P' /\ represents Magic t P').
  { intros Hnp. exists P. split; [|done]. apply promise_install_refused. by right. }
  destruct p as [p|].
  2: { exists P. split; [|done]. apply promise_install_refused. by left. }
  pose proof (rep_pending _ _ _ Hr v Hv) as Hp. unfold meaning in Hp.
  destruct (FindSlot Magic v t) as [[i s]|] eqn:E; cbn [snd] in Hp.
  2: { apply Hno. by rewrite Hp. }
  destruct (reserved s) eqn:Er; cbn [negb].
  2: { apply Hno. by rewrite Hp. }
  pose proof (rep_ok _ _ _ Hr) as Ht.
  apply FindSlot_Some in E as (H0 & Hs & ->); [|done]. cbn [fst snd].
  eexists. split; [apply promise_install; by apply Hp|].
  eapply represents_eq;
    [apply (update_represents t P i s (fun s0 => {| payload := Some p; generation := generation s0;
                                                     live := true; reserved := false |}) Hr H0 Hs)| | |]; cbn; try done.
  - apply (busy_not_free t i s Ht Hs). intros [_ ?]. congruence.
  - set_solver.
Qed.

Lemma release_steps pf v t P : represents Magic t P -> is_uint64 v -> steps (OpRelease pf v) t P.
Proof.
  intros Hr Hv. unfold steps. cbn [run_op fst snd]. unfold Release.
  eexists. split; [constructor|].
  assert (Hno : v ∉ pending P -> represents Magic t
            {| liveValues := liveValues P; pending := pending P ∖ {[v]}; issued := issued P |}).
  { intros Hnp. eapply represents_eq; [exact Hr|done|cbn; set_solver|done]. }
  pose proof (rep_pending _ _ _ Hr v Hv) as Hp. pose proof (rep_live _ _ _ Hr v Hv) as Hl.
  unfold meaning in Hp, Hl.
  destruct (FindSlot Magic v t) as [[i s]|] eqn:E; cbn [fst snd] in *.
  2: { apply Hno. by rewrite Hp. }
  destruct (reserved s) eqn:Er; cbn [negb fst].
  2: { apply Hno. by rewrite Hp. }
  pose proof (rep_ok _ _ _ Hr) as Ht.
  apply FindSlot_Some in E as (H0 & Hs & ->); [|done].
  destruct (ok_slots t Ht i s Hs) as [_ Hlive].
  destruct (live s) eqn:El; [destruct (Hlive eq_refl); congruence|].
  set (f := fun s0 : Slot T => {| payload := payload s0; generation := generation s0; live := live s0; reserved := false |}).
  assert (Hni : i ∉ freeSlots t) by (apply (busy_not_free t i s Ht Hs); intros [_ ?]; congruence).
  apply (Recycle_represents _ _ i (f s)); [|done| |done|done].
  - eapply represents_eq; [apply (update_represents t P i s f Hr H0 Hs Hni)| | |]; cbn; try done.
    + by rewrite El.
    + rewrite El. intros v' _. destruct (decide (v' = Encode Magic (generation s) (Z.of_nat i))) as [->|];
        [by rewrite lookup_delete_eq|by rewrite lookup_delete_ne].
    + set_solver.
  - cbn. by rewrite list_lookup_alter_eq, Hs.
Qed.

Lemma Free_FindSlot pf v t :
  Free Magic pf v t =
    match FindSlot Magic v t with
    | Some (i, s) =>
        if live s then
          (Recycle pf i (update_slot i (fun s0 =>
             {| payload := None; generation := generation s0; live := false; reserved := reserved s0 |}) t), payload s)
        else (t, None)
    | None => (t, None)
    end.
Proof.
  unfold Free, FindSlot. destruct ((v =? 0) || negb (DecodeMagic v =? Magic)); [done|].
  destruct (Z.to_nat (DecodeSlot v) =? 0)%nat; [done|].
  destruct (slots t !! _) as [s|]; [|done].
  by destruct (live s) eqn:El, (generation s =? DecodeGeneration v); cbn; rewrite ?El.
Qed.

Lemma free_steps pf v t P : represents Magic t P -> is_uint64 v -> steps (OpFree pf v) t P.
Proof.
  intros Hr Hv. unfold steps. cbn [run_op]. rewrite Free_FindSlot.
  pose proof (rep_live _ _ _ Hr v Hv) as Hl. unfold meaning in Hl.
  assert (Hno : liveValues P !! v = None ->
    exists P', promise_step P (OpFree pf v) (ReplyPayload None) P' /\ represents Magic t P').
  { intros Hn. eexists. split; [rewrite <- Hn; constructor|].
    eapply represents_eq; [exact Hr| |done|done]. intros v' _. cbn. by rewrite delete_id. }
  destruct (FindSlot Magic v t) as [[i s]|] eqn:E; cbn [fst snd] in *; [|by apply Hno].
  destruct (live s) eqn:El; cbn [fst snd]; [|by apply Hno].
  pose proof (rep_ok _ _ _ Hr) as Ht.
  apply FindSlot_Some in E as (H0 & Hs & ->); [|done].
  destruct (ok_slots t Ht i s Hs) as [_ Hlive]. destruct (Hlive El) as [_ Hres].
  eexists. split; [rewrite <- Hl; constructor|].
  set (f := fun s0 : Slot T => {| payload := None; generation := generation s0; live := false; reserved := reserved s0 |}).
  assert (Hni : i ∉ freeSlots t) by (apply (busy_not_free t i s Ht Hs); intros [? _]; congruence).
  apply (Recycle_represents _ _ i (f s)); [|done| |done|done].
  - eapply represents_eq; [apply (update_represents t P i s f Hr H0 Hs Hni)| | |]; cbn; try done.
    + rewrite Hres. intros v' Hv'. destruct (decide (v' = Encode Magic (generation s) (Z.of_nat i))) as [->|]; [|set_solver].
      rewrite (rep_pending _ _ _ Hr) by done.
      rewrite (meaning_Some _ _ i s) by (by apply FindSlot_Encode). cbn. rewrite Hres. set_solver.
    + set_solver.
  - cbn. by rewrite list_lookup_alter_eq, Hs.
Qed.

Lemma run_op_steps o t P : represents Magic t P -> op_ok o -> steps o t P.
Proof.
  intros Hr Ho. destruct o as [| | | |v|]; cbn in Ho.
  - by apply allocate_steps.
  - by apply reserve_steps.
  - by apply install_steps.
  - by apply release_steps.
  - exists P. cbn. split; [|done]. rewrite Resolve_meaning, <- (rep_live _ _ _ Hr) by done. constructor.
  - by apply free_steps.
Qed.

Lemma run_ops_represents os t P :
  represents Magic t P -> Forall op_ok os ->
  exists P', promise_run P os (snd (run_ops Magic os t)) P' /\ represents Magic (fst (run_ops Magic os t)) P'.
Proof.
  revert t P. induction os as [|o os IH]; intros t P Hr Hos.
  { exists P. split; [constructor|done]. }
  apply Forall_cons in Hos as [Ho Hos]. destruct (run_op_steps o t P Hr Ho) as (P1 & Hstep & Hr1).
  cbn [run_ops]. unfold ebind, eret. destruct (run_op Magic o t) as [t1 r]. cbn [fst snd] in *.
  destruct (IH t1 P1 Hr1 Hos) as (P2 & Hrun & Hr2).
  destruct (run_ops Magic os t1) as [t2 rs]. cbn [fst snd] in *.
  exists P2. split; [by econstructor|done].
Qed.

Lemma new_table_represents max : 0 <= max -> represents Magic (new_table (T := T) max) empty_promise.
Proof.
  intros Hmax. split.
  - split; cbn; try done.
    + change kMaxSlot with (2 ^ 24 - 1). lia.
    + change kMaxSlot with (2 ^ 24 - 1). lia.
    + constructor.
    + by intros i ?%elem_of_nil.
  - intros v _. unfold meaning, FindSlot. cbn. rewrite lookup_nil.
    by destruct ((v =? 0) || _), (Z.to_nat (DecodeSlot v) =? 0)%nat; rewrite lookup_empty.
  - intros v _. unfold meaning, FindSlot. cbn. rewrite lookup_nil.
    destruct ((v =? 0) || _), (Z.to_nat (DecodeSlot v) =? 0)%nat; cbn; set_solver.
  - set_solver.
Qed.

End Slots.

(** ** The promise's own invariant *)

Section PromiseFacts.
Context {T : Type}.
Implicit Types (P : promise T).

Record promise_ok P : Prop := {
  live_issued v : is_Some (liveValues P !! v) -> v ∈ issued P;
  pending_issued v : v ∈ pending P -> v ∈ issued P;
  pending_not_live v : v ∈ pending P -> liveValues P !! v = None
}.

Lemma promise_step_ok P o r P' : promise_step P o r P' -> promise_ok P -> promise_ok P'.
Proof.
  intros Hs [H1 H2 H3]. destruct Hs as [P|P o Ho|P p v H0 Hf|P v H0 Hf|P v p Hv|P v p Hv|P pf v|P v|P pf v]; try done.
  - split; cbn.
    + intros v'. destruct (decide (v = v')) as [->|]; [set_solver|]. rewrite lookup_insert_ne by done. set_solver.
    + set_solver.
    + intros v' Hv'. rewrite lookup_insert_ne; [by apply H3|]. intros ->. by apply Hf, H2.
  - split; cbn; [set_solver..|]. intros v' [->%elem_of_singleton|Hv']%elem_of_union; [|by apply H3].
    apply eq_None_not_Some. intros Hl. by apply Hf, H1.
  - split; cbn.
    + intros v'. destruct (decide (v = v')) as [->|]; [intros _; by apply H2|]. rewrite lookup_insert_ne by done. apply H1.
    + set_solver.
    + intros v' Hv'. rewrite lookup_insert_ne by set_solver. apply H3. set_solver.
  - split; cbn; [done|set_solver|]. intros v' Hv'. apply H3. set_solver.
  - split; cbn; [|done|].
    + intros v' Hv'. apply H1. destruct (decide (v = v')) as [->|]; [by rewrite lookup_delete_eq in Hv'; destruct Hv'|].
      by rewrite lookup_delete_ne in Hv'.
    + intros v' Hv'. rewrite lookup_delete_None. right. by apply H3.
Qed.

(** The values that a run hands out. *)
Definition handed_out (rs : list (reply T)) : list Z :=
  omap (fun r => match r with ReplyValue v => if v =? 0 then None else Some v | _ => None end) rs.

(** A value that the promise has forgotten: it was handed out, and names
    neither a payload nor a reservation. *)
Definition forgotten P (v : Z) : Prop := v ∈ issued P /\ v ∉ pending P /\ liveValues P !! v = None.

Lemma promise_step_forgotten P o r P' v :
  promise_step P o r P' -> forgotten P v -> forgotten P' v.
Proof.
  intros Hs (Hi & Hp & Hl).
  destruct Hs as [P|P o Ho|P p v' H0 Hf|P v' H0 Hf|P v' p Hv|P v' p Hv|P pf v'|P v'|P pf v']; try done;
    unfold forgotten; cbn; (split; [set_solver|split; [set_solver|]]); try done.
  - rewrite lookup_insert_ne; [done|congruence].
  - rewrite lookup_insert_ne; [done|congruence].
  - rewrite lookup_delete_None. by right.
Qed.

Lemma promise_run_ok P os rs P' : promise_run P os rs P' -> promise_ok P -> promise_ok P'.
Proof. induction 1; [done|]. intros. eauto using promise_step_ok. Qed.

Lemma promise_run_forgotten P os rs P' v : promise_run P os rs P' -> forgotten P v -> forgotten P' v.
Proof. induction 1; [done|]. intros. eauto using promise_step_forgotten. Qed.

Lemma promise_run_handed_out P os rs P' :
  promise_run P os rs P' ->
  issued P ⊆ issued P' /\ NoDup (handed_out rs) /\
  Forall (fun v => v ∉ issued P /\ v ∈ issued P') (handed_out rs).
Proof.
  assert (Hone : forall (r : reply T) rs, handed_out (r :: rs) = handed_out [r] ++ handed_out rs)
    by (intros r rs'; unfold handed_out; cbn; by destruct (match r with ReplyValue _ => _ | _ => _ end)).
  induction 1 as [P|P o r P1 os rs P2 Hs Hrun (Hsub & Hnd & HF)].
  { split; [done|]. split; constructor. }
  assert (Hfirst : issued P ⊆ issued P1 /\ NoDup (handed_out [r]) /\
                   Forall (fun v => v ∉ issued P /\ v ∈ issued P1) (handed_out [r])).
  { destruct Hs as [P|P o Ho|P p v H0 Hf|P v H0 Hf|P v p Hv|P v p Hv|P pf v|P v|P pf v];
      try (split; [done|split; constructor]);
      unfold handed_out; cbn; destruct (Z.eqb_spec v 0); try done;
      (split; [set_solver|split; [by apply NoDup_singleton|]]); repeat constructor; set_solver. }
  destruct Hfirst as (Hsub1 & Hnd1 & HF1). rewrite Hone. split; [set_solver|]. split.
  - apply NoDup_app. split; [done|]. split; [|done]. intros v Hv Hv'.
    rewrite Forall_forall in HF, HF1. destruct (HF v Hv'). by destruct (HF1 v Hv).
  - apply Forall_app. split; (eapply Forall_impl; [done|]); set_solver.
Qed.
End PromiseFacts.
