(* ===== verification/HandleSafety.v ===== *)
(** * Handle table theorems

    The slot table refines its promise; values are never handed out twice and
    never come back; no slot is lost; and opening a file under a reserved
    slot is all or nothing, whatever other threads do meanwhile. *)

From S2P Require Export HandleFacts.
Open Scope Z_scope.

Section NoLeak.
Context {T : Type} (Magic : Z).
Implicit Types (t : HandleTable T).

(** Every idle slot but [i] is on the free list or retired. *)
Definition accounted (i : nat) t : Prop :=
  forall j s, j <> O -> j <> i -> slots t !! j = Some s -> idle s ->
    j ∈ freeSlots t \/ generation s = kMaxGeneration.

Lemma accounted_take t : accounted O t -> accounted (snd (TakeSlot t)) (fst (TakeSlot t)).
Proof.
  intros Ha. unfold TakeSlot. destruct (last (freeSlots t)) as [i|] eqn:El.
  { apply last_Some in El as [fs E]. cbn. intros j s Hj Hji Hs Hidle.
    destruct (Ha j s Hj Hj Hs Hidle) as [Hin|]; [left|by right].
    rewrite E, removelast_last. rewrite E in Hin. apply elem_of_app in Hin as [|Hin]; [done|].
    by apply list_elem_of_singleton in Hin. }
  set (s0 := if bool_decide (slots t = []) then [empty_slot] else slots t).
  assert (Hs0 : accounted O (with_slots s0 t)).
  { unfold s0. case_bool_decide; [|by destruct t]. intros j s Hj _ Hs. cbn in Hs.
    by destruct j as [|[|]]. }
  destruct (maxSlot t <? Z.of_nat (length s0)); cbn [fst snd]; [done|].
  intros j s Hj Hji [Hs|[Hlt Hs]]%lookup_app_Some; [by apply (Hs0 j s)|].
  apply list_lookup_singleton_Some in Hs as [Hj' _]. lia.
Qed.

Lemma accounted_update t i k f :
  accounted k t -> (forall s, slots t !! i = Some s -> generation (f s) = generation s) ->
  (forall s, slots t !! i = Some s -> ~ idle (f s)) -> k = i \/ k = O ->
  accounted O (update_slot i f t).
Proof.
  intros Ha Hg Hbusy Hk j s Hj _ Hs Hidle. unfold update_slot, with_slots in *. cbn [slots freeSlots] in *.
  destruct (decide (i = j)) as [<-|Hne].
  - rewrite list_lookup_alter_eq in Hs. destruct (slots t !! i) as [s1|] eqn:E; [|done].
    injection Hs as <-. by destruct (Hbusy s1 eq_refl).
  - rewrite list_lookup_alter_ne in Hs by done. apply (Ha j s); try done. destruct Hk as [->| ->]; done.
Qed.

Lemma accounted_except t i f : accounted O t -> accounted i (update_slot i f t).
Proof.
  intros Ha j s Hj Hji Hs. unfold update_slot, with_slots in *. cbn [slots freeSlots] in *.
  rewrite list_lookup_alter_ne in Hs by done. by apply (Ha j s).
Qed.

Lemma accounted_recycle t i pf : accounted i t -> accounted O (Recycle pf i t).
Proof.
  intros Ha. unfold Recycle.
  assert (Hret : accounted O (update_slot i (with_generation kMaxGeneration) t)).
  { intros j s Hj _ Hs Hidle. unfold update_slot, with_slots in *. cbn [slots freeSlots] in *.
    destruct (decide (i = j)) as [<-|Hne].
    - right. rewrite list_lookup_alter_eq in Hs. destruct (slots t !! i); [|done]. by injection Hs as <-.
    - rewrite list_lookup_alter_ne in Hs by done. by apply (Ha j s). }
  destruct (kMaxGeneration <=? generation_at i t); [done|]. destruct pf; [done|].
  intros j s Hj _ Hs Hidle. unfold update_slot, with_slots in *. cbn [slots freeSlots] in *.
  destruct (decide (i = j)) as [<-|Hne].
  - left. apply elem_of_app. right. left.
  - rewrite list_lookup_alter_ne in Hs by done.
    destruct (Ha j s Hj (not_eq_sym Hne) Hs Hidle); [left; apply elem_of_app; by left|by right].
Qed.

Lemma accounted_run_op o t : accounted O t -> accounted O (fst (run_op Magic o t)).
Proof.
  intros Ha. destruct o as [[p|]| |v [p|]|pf v|v|pf v]; cbn [run_op]; try done.
  - unfold Allocate, AllocateShared. pose proof (accounted_take t Ha) as Ht.
    destruct (TakeSlot t) as [t' i]. cbn [fst snd] in *.
    destruct (Nat.eqb_spec i 0) as [->|]; [done|]. cbn [fst].
    apply (accounted_update t' i i); try done; [by intros ? _ [? _]|by left].
  - unfold Reserve. pose proof (accounted_take t Ha) as Ht.
    destruct (TakeSlot t) as [t' i]. cbn [fst snd] in *.
    destruct (Nat.eqb_spec i 0) as [->|]; [done|]. cbn [fst].
    apply (accounted_update t' i i); try done; [by intros ? _ [_ ?]|by left].
  - unfold Install. destruct (FindSlot Magic v t) as [[i s]|]; [|done].
    destruct (negb (reserved s)); [done|]. cbn [fst].
    apply (accounted_update t i O); try done; [by intros ? _ [? _]|by right].
  - unfold Release. destruct (FindSlot Magic v t) as [[i s]|]; [|done].
    destruct (negb (reserved s)); [done|]. cbn [fst]. by apply accounted_recycle, accounted_except.
  - rewrite Free_FindSlot. destruct (FindSlot Magic v t) as [[i s]|]; [|done].
    destruct (live s); [|done]. cbn [fst]. by apply accounted_recycle, accounted_except.
Qed.

Lemma accounted_run_ops os t : accounted O t -> accounted O (fst (run_ops Magic os t)).
Proof.
  revert t. induction os as [|o os IH]; intros t Ha; [done|]. cbn [run_ops]. unfold ebind, eret.
  pose proof (accounted_run_op o t Ha) as Ho. destruct (run_op Magic o t) as [t1 r]. cbn [fst] in Ho.
  pose proof (IH t1 Ho) as IHt. by destruct (run_ops Magic os t1).
Qed.

Lemma Recycle_maxSlot pf i t : maxSlot (Recycle pf i t) = maxSlot t.
Proof. unfold Recycle. by destruct (kMaxGeneration <=? generation_at i t), pf. Qed.

Lemma TakeSlot_maxSlot t : maxSlot (fst (TakeSlot t)) = maxSlot t.
Proof.
  unfold TakeSlot. destruct (last (freeSlots t)); [done|].
  by destruct (maxSlot t <? Z.of_nat (length (if bool_decide (slots t = []) then [empty_slot] else slots t))).
Qed.

Lemma run_op_maxSlot o t : maxSlot (fst (run_op Magic o t)) = maxSlot t.
Proof.
  pose proof (TakeSlot_maxSlot t) as Htake.
  destruct o as [[p|]| |v [p|]|pf v|v|pf v]; cbn [run_op]; try done.
  - unfold Allocate, AllocateShared. destruct (TakeSlot t) as [t' i]. by destruct (i =? 0)%nat.
  - unfold Reserve. destruct (TakeSlot t) as [t' i]. by destruct (i =? 0)%nat.
  - unfold Install. destruct (FindSlot Magic v t) as [[i s]|]; [|done]. by destruct (reserved s).
  - unfold Release. destruct (FindSlot Magic v t) as [[i s]|]; [|done].
    destruct (reserved s); cbn [negb fst]; by rewrite ?Recycle_maxSlot.
  - rewrite Free_FindSlot. destruct (FindSlot Magic v t) as [[i s]|]; [|done].
    destruct (live s); cbn [fst]; by rewrite ?Recycle_maxSlot.
Qed.

Lemma run_ops_maxSlot os t : maxSlot (fst (run_ops Magic os t)) = maxSlot t.
Proof.
  revert t. induction os as [|o os IH]; intros t; [done|]. cbn [run_ops]. unfold ebind, eret.
  pose proof (run_op_maxSlot o t) as Ho. destruct (run_op Magic o t) as [t1 r].
  specialize (IH t1). destruct (run_ops Magic os t1). cbn [fst] in *. congruence.
Qed.

Lemma TakeSlot_full t :
  table_ok t -> snd (TakeSlot t) = O ->
  freeSlots t = [] /\ (forall i, 1 <= Z.of_nat i <= maxSlot t -> exists s, slots t !! i = Some s).
Proof.
  intros Ht. unfold TakeSlot. destruct (last (freeSlots t)) as [i|] eqn:El.
  { intros E. cbn in E. subst i. apply last_Some in El as [fs E].
    destruct (ok_free t Ht O) as [? _]; [rewrite E; apply elem_of_app; right; left|done]. }
  apply last_None in El. case_bool_decide as Es; cbn [length].
  - destruct (Z.ltb_spec (maxSlot t) (Z.of_nat 1)); cbn [snd]; [|done].
    intros _. split; [done|]. intros i Hi. lia.
  - destruct (Z.ltb_spec (maxSlot t) (Z.of_nat (length (slots t)))); cbn [snd];
      [|intros E; by destruct (slots t)].
    intros _. split; [done|]. intros i Hi. apply lookup_lt_is_Some. lia.
Qed.
End NoLeak.

(** ** The theorems *)

Section Theorems.
Context {T : Type} (Magic : Z).
Hypothesis magic_ok : 0 < Magic < 2 ^ 16.

(** The table of a run from the empty table. *)
Definition table_after (max : Z) (os : list (op T)) : HandleTable T := fst (run_ops Magic os (new_table max)).

Lemma run_ops_app os1 os2 t :
  fst (run_ops Magic (os1 ++ os2) t) = fst (run_ops (T := T) Magic os2 (fst (run_ops Magic os1 t))).
Proof.
  revert t. induction os1 as [|o os IH]; intros t; [done|]. cbn [app run_ops]. unfold ebind, eret.
  destruct (run_op Magic o t) as [t1 r]. specialize (IH t1).
  destruct (run_ops Magic (os ++ os2) t1), (run_ops Magic os t1). exact IH.
Qed.

Lemma run_op_snoc os o max : fst (run_op Magic o (table_after max os)) = table_after max (os ++ [o]).
Proof. unfold table_after. rewrite run_ops_app. cbn. unfold ebind, eret. by destruct (run_op Magic o _). Qed.

Lemma table_after_promise max os :
  0 <= max -> Forall op_ok os ->
  exists P, promise_run empty_promise os (snd (run_ops Magic os (new_table max))) P /\
            represents Magic (table_after max os) P /\ promise_ok P.
Proof.
  intros Hmax Hos. destruct (run_ops_represents Magic magic_ok os (new_table max) empty_promise) as (P & Hrun & Hr);
    [by apply new_table_represents|done|].
  exists P. split; [done|]. split; [done|]. eapply promise_run_ok; [done|].
  split; cbn; [intros v [? H]; by rewrite lookup_empty in H|set_solver..].
Qed.

Lemma forgotten_Resolve (t : HandleTable T) P os v :
  represents Magic t P -> is_uint64 v -> Forall op_ok os -> forgotten P v ->
  Resolve Magic v (fst (run_ops Magic os t)) = None.
Proof.
  intros Hr Hv Hos Hf. destruct (run_ops_represents Magic magic_ok os t P Hr Hos) as (P' & Hrun & Hr').
  rewrite Resolve_meaning, <- (rep_live _ _ _ Hr') by done.
  by destruct (promise_run_forgotten _ _ _ _ _ Hrun Hf) as (_ & _ & ?).
Qed.

(** C8: Every sequence of calls on the slot table gives replies that the abstract
    table allows, and leaves a table that represents the abstract one: a
    handle value resolves to its payload exactly while the abstract table
    holds it. *)
Theorem HandleTable_refines max os :
  0 <= max -> Forall op_ok os ->
  exists P, promise_run empty_promise os (snd (run_ops Magic os (new_table max))) P /\
    forall v, is_uint64 v -> Resolve Magic v (table_after max os) = liveValues P !! v.
Proof.
  intros Hmax Hos. destruct (table_after_promise max os Hmax Hos) as (P & Hrun & Hr & _).
  exists P. split; [done|]. intros v Hv. by rewrite Resolve_meaning, (rep_live _ _ _ Hr).
Qed.

(** No handle value is handed out twice; and a value that was freed never
    resolves again, whatever calls follow. *)
Theorem handle_values_unique_and_final max os1 pf v p os2 :
  0 <= max -> Forall op_ok os1 -> Forall op_ok os2 -> is_uint64 v ->
  snd (Free Magic pf v (table_after max os1)) = Some p ->
  NoDup (handed_out (snd (run_ops Magic (os1 ++ [OpFree pf v] ++ os2) (new_table max)))) /\
  Resolve Magic v (table_after max (os1 ++ [OpFree pf v] ++ os2)) = None.
Proof.
  intros Hmax Hos1 Hos2 Hv Hfree.
  assert (Hall : Forall op_ok (os1 ++ [OpFree pf v] ++ os2)) by (apply Forall_app; split; [done|by constructor]).
  split.
  { destruct (table_after_promise max _ Hmax Hall) as (P & Hrun & _).
    by destruct (promise_run_handed_out _ _ _ _ Hrun) as (_ & ? & _). }
  destruct (table_after_promise max os1 Hmax Hos1) as (P & _ & Hr & Hok).
  unfold table_after at 1. rewrite app_assoc, run_ops_app.
  change (fst (run_ops Magic (os1 ++ [OpFree pf v]) (new_table max))) with (table_after max (os1 ++ [OpFree pf v])).
  rewrite <- run_op_snoc.
  destruct (run_op_steps Magic magic_ok (OpFree pf v) _ P Hr Hv) as (P' & Hstep & Hr').
  apply (forgotten_Resolve _ P'); try done.
  cbn [run_op] in Hstep. destruct (Free Magic pf v (table_after max os1)) as [t' q]. cbn [snd] in *. subst q.
  inversion Hstep as [| | | | | | | |P0 pf0 v0 E0 E1 E2]; subst.
  split; cbn; [apply (live_issued P Hok); by rewrite E2|].
  split; [|apply lookup_delete_eq]. intros Hp. apply (pending_not_live P Hok) in Hp. congruence.
Qed.

(** A call that asks for a handle is refused only by a full table: every slot
    from 1 to [maxSlot] is then live, reserved, or retired at the last
    generation.  So freed slots are never lost. *)
Theorem Reserve_refuses_only_when_full max os :
  0 <= max -> Forall op_ok os ->
  snd (Reserve Magic (table_after max os)) = 0 ->
  forall i, 1 <= Z.of_nat i <= Z.min max kMaxSlot ->
    exists s, slots (table_after max os) !! i = Some s /\
      (live s = true \/ reserved s = true \/ generation s = kMaxGeneration).
Proof.
  intros Hmax Hos Hfull i Hi.
  destruct (table_after_promise max os Hmax Hos) as (P & _ & Hr & _). set (t := table_after max os) in *.
  assert (Hms : maxSlot t = Z.min max kMaxSlot) by apply run_ops_maxSlot.
  assert (Ha : accounted O t).
  { apply accounted_run_ops. intros j s _ _ Hs. cbn in Hs. by rewrite lookup_nil in Hs. }
  pose proof (TakeSlot_takes Magic magic_ok t P Hr) as [Hr' Htake].
  unfold Reserve in Hfull. destruct (TakeSlot t) as [t' k] eqn:E. cbn [fst snd] in *.
  destruct (Nat.eqb_spec k 0) as [->|Hk]; cbn [snd] in Hfull.
  - destruct (TakeSlot_full t (rep_ok _ _ _ Hr)) as [Hnil Hslots]; [by rewrite E|].
    destruct (Hslots i) as [s Hs]; [lia|]. exists s. split; [done|].
    destruct (live s) eqn:El; [by left|]. destruct (reserved s) eqn:Er; [by right; left|].
    right; right. destruct (Ha i s) as [Hin|?]; try done; try lia.
    rewrite Hnil in Hin. by apply elem_of_nil in Hin.
  - destruct (Htake Hk) as (_ & s & Hs & _). exfalso. revert Hfull.
    rewrite (generation_at_lookup _ k {| payload := payload s; generation := generation s; live := live s; reserved := true |})
      by (cbn; by rewrite list_lookup_alter_eq, Hs).
    cbn. apply Encode_nonzero; [done|]. by apply (slot_fields Magic magic_ok t' k s (rep_ok _ _ _ Hr')).
Qed.
End Theorems.

(** ** Opening a file *)

Section Opening.
Context {Ctx Eng : Type}.

(** A call that can name the reservation [v] of another thread only to read it. *)
Definition leaves (v : Z) (o : op Ctx) : Prop :=
  match o with OpInstall v' _ | OpRelease _ v' => v' <> v | _ => True end.

Lemma promise_run_keeps_pending (P P' : promise Ctx) os rs v :
  promise_run P os rs P' -> Forall (leaves v) os -> v ∈ pending P -> v ∈ pending P'.
Proof.
  induction 1 as [|P o r P1 os rs P2 Hs _ IH]; intros Hos Hv; [done|].
  apply Forall_cons in Hos as [Ho Hos]. apply IH; [done|].
  destruct Hs; cbn in *; set_solver.
Qed.

Lemma magic_file_ok : 0 < kMagicFile < 2 ^ 16.
Proof. unfold kMagicFile. lia. Qed.

Lemma represents_Resolve (t t' : HandleTable Ctx) P P' v :
  represents kMagicFile t P -> represents kMagicFile t' P' -> is_uint64 v ->
  liveValues P' !! v = liveValues P !! v -> Resolve kMagicFile v t' = Resolve kMagicFile v t.
Proof. intros Hr Hr' Hv E. by rewrite !Resolve_meaning, <- (rep_live _ _ _ Hr'), <- (rep_live _ _ _ Hr). Qed.

(** Filling a pending reservation makes it resolve, and touches no other value. *)
Lemma install_outcome (t : HandleTable Ctx) P v (ctx : Ctx) :
  represents kMagicFile t P -> is_uint64 v -> v ∈ pending P ->
  let t' := fst (Install kMagicFile v (Some ctx) t) in
  Resolve kMagicFile v t' = Some ctx /\
  forall v', is_uint64 v' -> v' <> v -> Resolve kMagicFile v' t' = Resolve kMagicFile v' t.
Proof.
  intros Hr Hv Hp. cbn zeta.
  destruct (run_op_steps kMagicFile magic_file_ok (OpInstall v (Some ctx)) t P Hr Hv) as (P' & Hs & Hr').
  cbn [run_op] in Hs, Hr'. destruct (Install kMagicFile v (Some ctx) t) as [t' b]. cbn [fst snd] in *.
  inversion Hs as [| | | |P0 v0 p0 Hv0|P0 v0 p0 [?|?]| | |]; subst; try done. split.
  - rewrite Resolve_meaning, <- (rep_live _ _ _ Hr') by done. apply lookup_insert_eq.
  - intros v' Hv' Hne. apply (represents_Resolve t t' P _ v' Hr Hr' Hv'). cbn. by rewrite lookup_insert_ne.
Qed.

(** Giving a pending reservation back kills it for good, and touches no other
    value. *)
Lemma release_outcome (t : HandleTable Ctx) P pf v :
  represents kMagicFile t P -> promise_ok P -> is_uint64 v -> v ∈ pending P ->
  let t' := fst (Release kMagicFile pf v t) in
  (forall later, Forall op_ok later -> Resolve kMagicFile v (fst (run_ops kMagicFile later t')) = None) /\
  forall v', is_uint64 v' -> v' <> v -> Resolve kMagicFile v' t' = Resolve kMagicFile v' t.
Proof.
  intros Hr Hok Hv Hp. cbn zeta.
  destruct (run_op_steps kMagicFile magic_file_ok (OpRelease pf v) t P Hr Hv) as (P' & Hs & Hr').
  cbn [run_op fst snd] in *.
  inversion Hs as [|P0 o0 [?|[? ?]]| | | | |P0 pf0 v0| |]; subst; try done. split.
  - intros later Hlater. apply (forgotten_Resolve kMagicFile magic_file_ok _ _ later v Hr' Hv Hlater).
    split; cbn; [by apply (pending_issued P Hok)|]. split; [set_solver|by apply (pending_not_live P Hok)].
  - intros v' Hv' _. by apply (represents_Resolve t _ P _ v' Hr Hr' Hv').
Qed.

(** Opening a file under a reserved slot is all or nothing, whatever calls
    other threads make on the table while the engine runs.  A full table gives
    no handle and the engine never runs.  A successful engine call gives a new
    handle that resolves to the opened context, and counts one child.  A
    failed one counts none, and its reserved value never resolves, even after
    later calls.  No other handle is affected either way. *)
Theorem ReserveThenRun_all_or_nothing (engineCall : eff Eng (engine_result Ctx)) pf os s P :
  represents kMagicFile (files s) P -> promise_ok P -> Forall op_ok os ->
  Forall (leaves (snd (Reserve kMagicFile (files s)))) os ->
  let t := fst (run_ops kMagicFile os (fst (Reserve kMagicFile (files s)))) in
  let v := snd (Reserve kMagicFile (files s)) in
  let s' := fst (ReserveThenRun engineCall pf (fun t => fst (run_ops kMagicFile os t)) s) in
  let others_kept := forall v', is_uint64 v' -> v' <> v -> Resolve kMagicFile v' (files s') = Resolve kMagicFile v' t in
  match snd (ReserveThenRun engineCall pf (fun t => fst (run_ops kMagicFile os t)) s) with
  | AbiOutOfMemory =>
      v = 0 /\ engine s' = engine s /\ childCount s' = childCount s /\
      (forall v', is_uint64 v' -> Resolve kMagicFile v' (files s') = Resolve kMagicFile v' (files s))
  | AbiHandle h =>
      h = v /\ v ∉ issued P /\ engine s' = fst (engineCall (engine s)) /\
      (exists status ctx, snd (engineCall (engine s)) = EngineReturns status (Some ctx) /\
        NT_SUCCESS status = true /\ Resolve kMagicFile v (files s') = Some ctx) /\
      childCount s' = childCount s + 1 /\ others_kept
  | _ =>
      v <> 0 /\ engine s' = fst (engineCall (engine s)) /\ childCount s' = childCount s /\
      (forall later, Forall op_ok later -> Resolve kMagicFile v (fst (run_ops kMagicFile later (files s'))) = None) /\
      others_kept
  end.
Proof.
  intros Hr Hok Hos Hleave. unfold ReserveThenRun.
  destruct (run_op_steps kMagicFile magic_file_ok OpReserve (files s) P Hr I) as (P1 & Hs1 & Hr1).
  cbn [run_op] in Hs1, Hr1. destruct (Reserve kMagicFile (files s)) as [t1 v]. cbn [fst snd] in *.
  pose proof (promise_step_ok _ _ _ _ Hs1 Hok) as Hok1.
  destruct (run_ops_represents kMagicFile magic_file_ok os t1 P1 Hr1 Hos) as (P2 & Hrun & Hr2).
  pose proof (promise_run_ok _ _ _ _ Hrun Hok1) as Hok2.
  destruct (Z.eqb_spec v 0) as [->|Hv0]; cbn [fst snd files engine childCount].
  { repeat split. intros v' Hv'. rewrite !Resolve_meaning, <- (rep_live _ _ _ Hr1), <- (rep_live _ _ _ Hr) by done.
    by inversion Hs1; subst. }
  inversion Hs1 as [| | |P0 v0 _ Hfresh E0 E1 E2| | | | |]; subst; [done|].
  assert (Hp2 : v ∈ pending P2) by (apply (promise_run_keeps_pending _ _ _ _ _ Hrun Hleave); cbn; set_solver).
  assert (Hv : is_uint64 v).
  { destruct (rep_issued _ _ _ Hr1 v) as (i & si & g & _ & Hi & -> & Hg & _); [cbn; set_solver|].
    apply Encode_range. pose proof (slot_fields kMagicFile magic_file_ok _ _ _ (rep_ok _ _ _ Hr1) Hi).
    unfold field_ok in *. lia. }
  pose proof (release_outcome _ _ pf v Hr2 Hok2 Hv Hp2) as [Hdead Hothers].
  destruct (engineCall (engine s)) as [e [|status [ctx|]]]; cbn [fst snd files engine childCount].
  - done.
  - destruct (NT_SUCCESS status) eqn:Est; cbn [negb fst snd files engine childCount]; [|done].
    destruct (install_outcome _ _ v ctx Hr2 Hv Hp2) as [Hlive Hkept]. repeat split; try done. by exists status, ctx.
  - destruct (NT_SUCCESS status); cbn [negb fst snd files engine childCount]; done.
Qed.
End Opening.

(** ** Witnesses *)

(** A short life of a table: one payload allocated, one reservation filled,
    the first value freed and its slot used again. *)
Definition sample_calls : list (op Z) :=
  [OpAllocate (Some 7); OpReserve; OpInstall (Encode kMagicFile 1 2) (Some 8); OpResolve (Encode kMagicFile 1 2);
   OpFree false (Encode kMagicFile 1 1); OpAllocate (Some 9); OpResolve (Encode kMagicFile 1 1)].

Example sample_replies :
  snd (run_ops kMagicFile sample_calls (new_table 2)) =
    [ReplyValue (Encode kMagicFile 1 1); ReplyValue (Encode kMagicFile 1 2); ReplyDone true; ReplyPayload (Some 8);
     ReplyPayload (Some 7); ReplyValue (Encode kMagicFile 2 1); ReplyPayload None].
Proof. vm_compute. reflexivity. Qed.

Lemma sample_ok : Forall op_ok sample_calls.
Proof. unfold sample_calls. repeat constructor; vm_compute; congruence. Qed.

Lemma HandleTable_refines_witness :
  (0 <= 2 /\ Forall op_ok sample_calls) /\
  exists P, promise_run empty_promise sample_calls (snd (run_ops kMagicFile sample_calls (new_table 2))) P /\
    forall v, is_uint64 v -> Resolve kMagicFile v (table_after kMagicFile 2 sample_calls) = liveValues P !! v.
Proof.
  split; [split; [lia|exact sample_ok]|].
  apply (HandleTable_refines kMagicFile magic_file_ok 2 sample_calls); [lia|exact sample_ok].
Defined.

Lemma handle_values_unique_and_final_witness :
  snd (Free kMagicFile false (Encode kMagicFile 1 1) (table_after kMagicFile 2 (take 4 sample_calls))) = Some 7 /\
  Resolve kMagicFile (Encode kMagicFile 1 1)
    (table_after kMagicFile 2 (take 4 sample_calls ++ [OpFree false (Encode kMagicFile 1 1)] ++ [OpAllocate (Some 9)])) = None.
Proof.
  split; [vm_compute; reflexivity|].
  apply (handle_values_unique_and_final kMagicFile magic_file_ok 2 (take 4 sample_calls) false
           (Encode kMagicFile 1 1) 7 [OpAllocate (Some 9)]).
  - lia.
  - apply Forall_take, sample_ok.
  - repeat constructor.
  - vm_compute. split; congruence.
  - vm_compute. reflexivity.
Defined.

Lemma Reserve_refuses_only_when_full_witness :
  snd (Reserve kMagicFile (table_after kMagicFile 2 (sample_calls : list (op Z)))) = 0 /\
  exists s, slots (table_after kMagicFile 2 sample_calls) !! 2%nat = Some s /\
    (live s = true \/ reserved s = true \/ generation s = kMaxGeneration).
Proof.
  split; [vm_compute; reflexivity|].
  apply (Reserve_refuses_only_when_full kMagicFile magic_file_ok 2 sample_calls); [lia|exact sample_ok| |].
  - vm_compute. reflexivity.
  - vm_compute. split; congruence.
Defined.

(** An engine that opens, and another thread that frees an older handle
    meanwhile. *)
Definition opening_state : open_state Z Z :=
  {| files := table_after kMagicFile 4 [OpAllocate (Some 7)]; childCount := 1; engine := 0 |}.

Definition opening_engine : eff Z (engine_result Z) := fun e => (e + 1, EngineReturns STATUS_SUCCESS (Some 5)).

Lemma ReserveThenRun_all_or_nothing_witness :
  let r := ReserveThenRun opening_engine false
             (fun t => fst (run_ops kMagicFile [OpFree false (Encode kMagicFile 1 1)] t)) opening_state in
  snd r = AbiHandle (Encode kMagicFile 1 2) /\
  Resolve kMagicFile (Encode kMagicFile 1 2) (files (fst r)) = Some 5 /\ childCount (fst r) = 2.
Proof.
  destruct (table_after_promise (T := Z) kMagicFile magic_file_ok 4 [OpAllocate (Some 7)]) as (P & _ & Hr & Hok);
    [lia|by repeat constructor|].
  pose proof (ReserveThenRun_all_or_nothing opening_engine false [OpFree false (Encode kMagicFile 1 1)]
                opening_state P Hr Hok) as H.
  assert (H1 : Forall op_ok [OpFree (T := Z) false (Encode kMagicFile 1 1)]).
  { repeat constructor; vm_compute; congruence. }
  specialize (H H1). assert (H2 : Forall (leaves (snd (Reserve kMagicFile (files opening_state))))
    [OpFree (T := Z) false (Encode kMagicFile 1 1)]) by by repeat constructor.
  specialize (H H2). cbn zeta in H |- *.
  assert (E : snd (ReserveThenRun opening_engine false
             (fun t => fst (run_ops kMagicFile [OpFree false (Encode kMagicFile 1 1)] t)) opening_state) =
             AbiHandle (Encode kMagicFile 1 2)) by (vm_compute; reflexivity).
  rewrite E in H. destruct H as (_ & _ & _ & (st & ctx & Ec & _ & Hres) & Hcount & _).
  split; [exact E|]. split; [|exact Hcount].
  injection Ec as _ <-. exact Hres.
Defined.

(** ** What a handle table holds

    [table_holds t m]: the live values of the table are those of the map [m],
    and no slot keeps a payload that no value names.  The calls of the table
    as updates of that map, for the objects that the C interface keeps behind
    its handles. *)

Section Holds.
Context {T : Type} (Magic : Z) (magic_ok : 0 < Magic < 2 ^ 16).
Implicit Types (t : HandleTable T) (m : gmap Z T).

(** A slot that is not live has no payload, and the first slot is never
    live. *)
Definition tidy t : Prop :=
  forall i s, slots t !! i = Some s -> (i = O -> live s = false) /\ (live s = false -> payload s = None).

Lemma tidy_update t i f :
  tidy t -> (forall s, slots t !! i = Some s -> (i = O -> live (f s) = false) /\ (live (f s) = false -> payload (f s) = None)) ->
  tidy (update_slot i f t).
Proof.
  intros Ht Hf j s. unfold update_slot, with_slots. cbn [slots]. destruct (decide (i = j)) as [<-|Hne].
  - rewrite list_lookup_alter_eq. destruct (slots t !! i) as [s0|] eqn:E; [|done]. intros [= <-]. by apply Hf.
  - rewrite list_lookup_alter_ne by done. apply Ht.
Qed.

Lemma tidy_generation t i g : tidy t -> tidy (update_slot i (with_generation g) t).
Proof. intros Ht. apply tidy_update; [done|]. intros s Hs. exact (Ht i s Hs). Qed.

Lemma tidy_recycle t i pf : tidy t -> tidy (Recycle pf i t).
Proof.
  intros Ht. unfold Recycle. destruct (kMaxGeneration <=? generation_at i t); [by apply tidy_generation|].
  destruct pf; [by apply tidy_generation|]. exact (tidy_generation _ _ _ Ht).
Qed.

Lemma tidy_take t : tidy t -> tidy (fst (TakeSlot t)).
Proof.
  intros Ht. unfold TakeSlot. destruct (last (freeSlots t)); [exact Ht|].
  set (s0 := if bool_decide (slots t = []) then [empty_slot] else slots t).
  assert (Hs0 : tidy (with_slots s0 t)).
  { unfold s0. case_bool_decide; [|by destruct t]. intros [|[|]] s Hs; [by injection Hs as <-|done..]. }
  destruct (maxSlot t <? Z.of_nat (length s0)); cbn [fst]; [done|]. intros i s Hs. cbn in Hs.
  apply lookup_app_Some in Hs as [Hs|[Hlt Hs]]; [by apply Hs0|].
  apply list_lookup_singleton_Some in Hs as [Hi <-]. done.
Qed.

Lemma FindSlot_index v t i s : FindSlot Magic v t = Some (i, s) -> i <> O.
Proof.
  unfold FindSlot. destruct (_ || _); [done|]. destruct (Nat.eqb_spec (Z.to_nat (DecodeSlot v)) 0) as [|Hne]; [done|].
  destruct (slots t !! _); [|done]. destruct (_ =? _); [|done]. by intros [= <- <-].
Qed.

Lemma tidy_run_op o t : table_ok t -> tidy t -> tidy (fst (run_op Magic o t)).
Proof.
  intros Hok Ht. destruct o as [[p|]| |v [p|]|pf v|v|pf v]; cbn [run_op]; try done.
  - unfold Allocate, AllocateShared. pose proof (tidy_take t Ht) as Hs.
    destruct (TakeSlot t) as [t' i]. cbn [fst] in *. destruct (Nat.eqb_spec i 0); [done|]. cbn [fst].
    by apply tidy_update.
  - unfold Reserve. pose proof (tidy_take t Ht) as Hs.
    destruct (TakeSlot t) as [t' i]. cbn [fst] in *. destruct (Nat.eqb_spec i 0); [done|]. cbn [fst].
    apply tidy_update; [done|]. intros s E. exact (Hs i s E).
  - unfold Install. destruct (FindSlot Magic v t) as [[i s]|] eqn:E; [|done].
    destruct (negb (reserved s)); [done|]. cbn [fst]. apply tidy_update; [done|].
    intros s0 _. split; [|done]. intros ->. by apply FindSlot_index in E.
  - unfold Release. destruct (FindSlot Magic v t) as [[i s]|]; [|done].
    destruct (negb (reserved s)); [done|]. cbn [fst]. apply tidy_recycle, tidy_update; [done|].
    intros s0 E. exact (Ht i s0 E).
  - rewrite Free_FindSlot. destruct (FindSlot Magic v t) as [[i s]|]; [|done].
    destruct (live s); [|done]. cbn [fst]. by apply tidy_recycle, tidy_update.
Qed.

(** ** The map of a table *)

Definition table_holds t m : Prop :=
  tidy t /\ exists P, represents Magic t P /\ promise_ok P /\ liveValues P = m.

Lemma holds_uint64 t m v : table_holds t m -> is_Some (m !! v) -> is_uint64 v.
Proof.
  intros (_ & P & Hr & Hok & <-) Hv. apply (live_issued _ Hok) in Hv.
  destruct (rep_issued _ _ _ Hr v Hv) as (i & s & g & _ & Hs & -> & Hg & _). apply Encode_range.
  pose proof (slot_fields Magic magic_ok t i s (rep_ok _ _ _ Hr) Hs). unfold field_ok in *. lia.
Qed.

Lemma holds_Resolve t m v : table_holds t m -> is_uint64 v -> Resolve Magic v t = m !! v.
Proof. intros (_ & P & Hr & _ & <-) Hv. by rewrite Resolve_meaning, <- (rep_live _ _ _ Hr). Qed.

(** A live slot is named by one value. *)
Lemma holds_slot t m i s p :
  table_holds t m -> slots t !! i = Some s -> payload s = Some p ->
  live s = true /\ i <> O /\ m !! Encode Magic (generation s) (Z.of_nat i) = Some p.
Proof.
  intros (Ht & P & Hr & _ & <-) Hs Hp. destruct (Ht i s Hs) as [H0 Hd].
  destruct (live s) eqn:El; [|by rewrite Hd in Hp]. split; [done|].
  assert (Hi : i <> O) by (intros Hi; by specialize (H0 Hi)). split; [done|].
  pose proof (slot_fields Magic magic_ok t i s (rep_ok _ _ _ Hr) Hs) as Hf.
  rewrite (rep_live _ _ _ Hr) by (apply Encode_range; unfold field_ok in *; lia).
  rewrite (meaning_Some Magic t _ i s) by (exact (FindSlot_Encode Magic magic_ok t i s (rep_ok _ _ _ Hr) Hi Hs)). cbn [fst]. by rewrite El.
Qed.

Lemma holds_value t m v p :
  table_holds t m -> m !! v = Some p ->
  exists i s, slots t !! i = Some s /\ payload s = Some p /\ live s = true /\
              v = Encode Magic (generation s) (Z.of_nat i).
Proof.
  intros Hh Hv. assert (Hu : is_uint64 v) by (eapply holds_uint64; [done|by exists p]).
  destruct Hh as (_ & P & Hr & _ & <-). rewrite (rep_live _ _ _ Hr) in Hv by done. unfold meaning in Hv.
  destruct (FindSlot Magic v t) as [[i s]|] eqn:E; [|done]. apply (FindSlot_Some Magic) in E as (_ & Hs & He); [|done].
  cbn [fst] in Hv. destruct (live s) eqn:El; [|done]. by exists i, s.
Qed.

(** A payload is in some slot exactly when some value names it. *)
Lemma holds_payload `{EqDecision T} t m p :
  table_holds t m ->
  existsb (fun slot => bool_decide (payload slot = Some p)) (slots t) = true <-> exists v, m !! v = Some p.
Proof.
  intros Hh. rewrite existsb_exists. split.
  - intros (s & Hin & Hp%bool_decide_eq_true). apply list_elem_of_In, list_elem_of_lookup in Hin as [i Hs].
    eexists. by apply (holds_slot t m i s p Hh Hs Hp).
  - intros (v & Hv). destruct (holds_value t m v p Hh Hv) as (i & s & Hs & Hp & _). exists s. split.
    + apply list_elem_of_In, list_elem_of_lookup. by exists i.
    + by apply bool_decide_eq_true.
Qed.

(** ** The calls *)

Lemma holds_step o t m :
  table_holds t m -> op_ok o ->
  exists P P', liveValues P = m /\ promise_ok P /\ promise_step P o (snd (run_op Magic o t)) P' /\
    table_holds (fst (run_op Magic o t)) (liveValues P') /\ represents Magic (fst (run_op Magic o t)) P' /\ promise_ok P'.
Proof.
  intros (Ht & P & Hr & Hok & Hm) Ho. destruct (run_op_steps Magic magic_ok o t P Hr Ho) as (P' & Hs & Hr').
  exists P, P'. pose proof (promise_step_ok _ _ _ _ Hs Hok) as Hok'. split_and!; try done.
  split; [by apply tidy_run_op; [apply (rep_ok _ _ _ Hr)|]|]. by exists P'.
Qed.

Lemma holds_new max : 0 <= max -> table_holds (new_table max) ∅.
Proof.
  intros Hmax. split; [by intros i s Hs|]. exists empty_promise. split; [by apply new_table_represents|].
  split; [|done]. split; cbn; [|set_solver..]. intros v [? Hv]. by rewrite lookup_empty in Hv.
Qed.

Lemma fresh_value P v : promise_ok P -> v ∉ issued P -> liveValues (T := T) P !! v = None.
Proof. intros Hok Hv. apply eq_None_not_Some. intros Hl. by apply Hv, Hok. Qed.

Lemma holds_Allocate t m p :
  table_holds t m ->
  let (t', v) := Allocate Magic (Some p) t in
  (v = 0 /\ table_holds t' m) \/ (v <> 0 /\ m !! v = None /\ table_holds t' (<[v := p]> m)).
Proof.
  intros Hh. destruct (holds_step (OpAllocate (Some p)) t m Hh I) as (P & P' & <- & Hok & Hs & Hh' & _ & _).
  cbn [run_op] in *. destruct (Allocate Magic (Some p) t) as [t' v]. cbn [fst snd] in *.
  inversion Hs; subst; [by left|right]. split_and!; [done|by apply fresh_value|done].
Qed.

Lemma holds_Free t m pf v :
  table_holds t m -> is_uint64 v ->
  let (t', p) := Free Magic pf v t in p = m !! v /\ table_holds t' (delete v m).
Proof.
  intros Hh Hv. destruct (holds_step (OpFree pf v) t m Hh Hv) as (P & P' & <- & Hok & Hs & Hh' & _ & _).
  cbn [run_op] in *. destruct (Free Magic pf v t) as [t' p]. cbn [fst snd] in *. by inversion Hs; subst.
Qed.

(** The payloads of the live values are fewer than the slots. *)
Lemma holds_size t m :
  table_holds t m -> Z.of_nat (size m) < 2 ^ 24.
Proof.
  intros Hh.
  set (l := (fun v => Z.to_nat (DecodeSlot v)) <$> (map_to_list m).*1).
  assert (Hl : forall n, n ∈ l -> (1 <= n < length (slots t))%nat /\
                 exists s, slots t !! n = Some s /\ Encode Magic (generation s) (Z.of_nat n) ∈ (map_to_list m).*1).
  { intros n (v & -> & Hv)%list_elem_of_fmap. pose proof Hv as ((v' & p) & -> & Hp)%list_elem_of_fmap.
    apply elem_of_map_to_list in Hp. cbn [fst] in *. destruct (holds_value t m v' p Hh Hp) as (i & s & Hs & Hpay & _ & E).
    destruct (holds_slot t m i s p Hh Hs Hpay) as (_ & Hi & _).
    pose proof Hh as (_ & P & Hr & _ & _). pose proof (slot_fields Magic magic_ok t i s (rep_ok _ _ _ Hr) Hs) as Hf.
    destruct (Decode_Encode _ _ _ Hf) as (_ & _ & Hd). rewrite E, Hd, Nat2Z.id.
    split; [apply lookup_lt_Some in Hs; lia|]. exists s. by rewrite <- E. }
  assert (Hnd : NoDup l).
  { unfold l. apply NoDup_fmap_2_strong; [|apply NoDup_fst_map_to_list].
    intros v1 v2 ((? & p1) & -> & H1)%list_elem_of_fmap ((? & p2) & -> & H2)%list_elem_of_fmap E.
    apply elem_of_map_to_list in H1, H2. cbn [fst] in *.
    destruct (holds_value _ _ _ _ Hh H1) as (i1 & s1 & Hs1 & _ & _ & E1).
    destruct (holds_value _ _ _ _ Hh H2) as (i2 & s2 & Hs2 & _ & _ & E2).
    pose proof Hh as (_ & P & Hr & _ & _).
    pose proof (slot_fields Magic magic_ok t i1 s1 (rep_ok _ _ _ Hr) Hs1) as Hf1.
    pose proof (slot_fields Magic magic_ok t i2 s2 (rep_ok _ _ _ Hr) Hs2) as Hf2.
    destruct (Decode_Encode _ _ _ Hf1) as (_ & _ & Hd1). destruct (Decode_Encode _ _ _ Hf2) as (_ & _ & Hd2).
    rewrite E1, E2, Hd1, Hd2, !Nat2Z.id in E. subst i2. congruence. }
  assert (Hlen : (length l <= length (seq 1 (length (slots t) - 1)))%nat).
  { apply NoDup_incl_length; [by apply NoDup_ListNoDup|]. intros n Hn%list_elem_of_In. apply in_seq.
    destruct (Hl n Hn) as [? _]. lia. }
  rewrite length_seq in Hlen. unfold l in Hlen. rewrite !length_fmap, length_map_to_list in Hlen.
  pose proof Hh as (_ & P & Hr & _ & _). pose proof (ok_length _ (rep_ok _ _ _ Hr)). pose proof (ok_max _ (rep_ok _ _ _ Hr)).
  change kMaxSlot with (2 ^ 24 - 1) in *. lia.
Qed.
End Holds.

(** ** An open under a reserved slot *)
Section Opening.
Context {Ctx Eng : Type} (engineCall : eff Eng (engine_result Ctx)).

(** Without other threads between: the handle holds the new context, or the
    table holds what it held. *)
Lemma holds_ReserveThenRun pf (s : open_state Ctx Eng) m :
  table_holds kMagicFile (files s) m ->
  let '(s', r) := ReserveThenRun engineCall pf (fun t => t) s in
  match r with
  | AbiHandle v =>
      v <> 0 /\ m !! v = None /\
      exists status ctx, engineCall (HandleTable.engine s) = (HandleTable.engine s', EngineReturns status (Some ctx)) /\
        NT_SUCCESS status = true /\ childCount s' = childCount s + 1 /\ table_holds kMagicFile (files s') (<[v := ctx]> m)
  | AbiOutOfMemory => HandleTable.engine s' = HandleTable.engine s /\ childCount s' = childCount s /\ table_holds kMagicFile (files s') m
  | _ =>
      childCount s' = childCount s /\ table_holds kMagicFile (files s') m /\
      exists r, engineCall (HandleTable.engine s) = (HandleTable.engine s', r) /\
        forall status ctx, NT_SUCCESS status = true -> r <> EngineReturns status (Some ctx)
  end.
Proof.
  intros Hh. unfold ReserveThenRun.
  destruct (holds_step kMagicFile magic_file_ok OpReserve (files s) m Hh I) as (P & P1 & <- & Hok & Hs1 & Hh1 & Hr1 & Hok1).
  cbn [run_op] in *. destruct (Reserve kMagicFile (files s)) as [t1 v]. cbn [fst snd] in *.
  destruct (Z.eqb_spec v 0) as [->|Hv0].
  { cbn. split_and!; try done. by inversion Hs1; subst. }
  inversion Hs1 as [| | |P0 v0 _ Hfresh E0 E1 E2| | | | |]; subst; [done|]. cbn [liveValues] in *.
  assert (Hv : is_uint64 v).
  { destruct (rep_issued _ _ _ Hr1 v) as (i & si & g & _ & Hi & -> & Hg & _); [cbn; set_solver|].
    apply Encode_range. pose proof (slot_fields kMagicFile magic_file_ok _ _ _ (rep_ok _ _ _ Hr1) Hi).
    unfold field_ok in *. lia. }
  assert (Hrel : table_holds kMagicFile (fst (Release kMagicFile pf v t1)) (liveValues P)).
  { destruct (run_op_steps kMagicFile magic_file_ok (OpRelease pf v) t1 _ Hr1 Hv) as (P2 & Hs2 & Hr2).
    pose proof (promise_step_ok _ _ _ _ Hs2 Hok1) as Hok2. cbn [run_op fst snd] in *.
    split; [apply (tidy_run_op kMagicFile (OpRelease pf v)); [apply (rep_ok _ _ _ Hr1)|apply Hh1]|].
    exists P2. split_and!; [done|done|]. by inversion Hs2 as [|? ? [?|[? ?]]| | | | | | |]; subst. }
  assert (Hins : forall ctx, table_holds kMagicFile (fst (Install kMagicFile v (Some ctx) t1)) (<[v := ctx]> (liveValues P))).
  { intros ctx. destruct (run_op_steps kMagicFile magic_file_ok (OpInstall v (Some ctx)) t1 _ Hr1 Hv) as (P2 & Hs2 & Hr2).
    pose proof (promise_step_ok _ _ _ _ Hs2 Hok1) as Hok2.
    pose proof (tidy_run_op kMagicFile (OpInstall v (Some ctx)) t1 (rep_ok _ _ _ Hr1) (proj1 Hh1)) as Ht.
    cbn [run_op] in *. destruct (Install kMagicFile v (Some ctx) t1) as [t2 b]. cbn [fst snd] in *.
    split; [done|]. exists P2. split_and!; [done|done|].
    inversion Hs2 as [| | | |? ? ? ?|? ? ? [?|Hn]| | |]; subst; try done. exfalso. apply Hn. cbn. set_solver. }
  destruct (engineCall (HandleTable.engine s)) as [e [|status [ctx|]]] eqn:Ee;
    cbn [fst snd files HandleTable.engine childCount].
  - split; [done|]. split; [exact Hrel|]. eexists. by split.
  - destruct (NT_SUCCESS status) eqn:Est; cbn [negb fst snd files HandleTable.engine childCount].
    + split; [done|]. split; [by apply fresh_value|]. exists status, ctx. split; [done|]. split; [done|]. by split.
    + split; [done|]. split; [exact Hrel|]. eexists. split; [done|]. intros ? ? ? [= -> ->]. congruence.
  - destruct (NT_SUCCESS status); cbn [negb fst snd files HandleTable.engine childCount];
      (split; [done|]; split; [exact Hrel|]; eexists; split; [done|by intros ? ? ? ?]).
Qed.
End Opening.
