(* ===== verification/MarkerFacts.v ===== *)
(** * What the marker operations guarantee

    A whiteout that was created hides the lowers from the next lookup, one
    that was removed hides nothing, and likewise for opaque markers.  A
    refused operation changes neither the cache nor the events. *)
From S2P Require Export DiskLaws Whiteout Resolver CacheFacts Fixture.
Open Scope Z_scope.

Lemma is_ok_visible `{W : Win32} d p : is_ok (GetFileAttributesW d p) = true <-> visible d p.
Proof. done. Qed.

(** ** Effects on visibility *)

Section Visibility.
Context `{W : Win32} `{DL : !DiskLaws} `{J : Json} (config : LayerConfig).

Lemma keeps_run {A} (m : eff disk A) d d' a q : keeps m -> m d = (d', a) -> visible d q -> visible d' q.
Proof. intros Hm E Hv. specialize (Hm d q Hv). by rewrite E in Hm. Qed.

Lemma EnsureDirectoryExists_keeps p : keeps (EnsureDirectoryExists p).
Proof. unfold EnsureDirectoryExists. auto 10 with layermount. Qed.

Lemma CreateHiddenMarkerFile_keeps p : keeps (CreateHiddenMarkerFile p).
Proof. unfold CreateHiddenMarkerFile. auto 10 with layermount. Qed.

Lemma WriteEntryTimes_keeps p t : keeps (WriteEntryTimes p t).
Proof. unfold WriteEntryTimes. auto 10 with layermount. Qed.

Lemma CreateHiddenMarkerFile_visible p d d' :
  CreateHiddenMarkerFile p d = (d', ERROR_SUCCESS) -> visible d' (WithExtendedPrefix p).
Proof.
  unfold CreateHiddenMarkerFile, ebind, eret.
  destruct (CreateAlwaysW _ _ d) as [d1 [h|e]] eqn:Ec.
  - intros [= <-]. by eapply create_visible.
  - intros [= <- Ee]. by apply create_error in Ec.
Qed.

(** Where the opaque mark of a directory can be: its stream, its sidecar
    file, or its marker file. *)
Definition opaque_places (dir : wstring) : list wstring :=
  ExtendedStreamPath dir kOpaqueADSStream ::
  match FileOf (upperPath config) dir kOpaqueSuffix with Some f => [f] | None => [] end ++
  [WithExtendedPrefix (JoinDirPath dir kOpaqueMarkerFile)].

Lemma HoldsOpaqueMarker_places d dir :
  HoldsOpaqueMarker d config dir = true <-> Exists (visible d) (opaque_places dir).
Proof.
  unfold HoldsOpaqueMarker, HasOpaqueMetadata, HasOpaqueAdsOnly, SidecarHasOpaque, HasFile, MarkerFileExists, opaque_places.
  rewrite Exists_cons, Exists_app, Exists_cons, Exists_nil. unfold visible.
  destruct (is_ok (GetFileAttributesW d (ExtendedStreamPath dir kOpaqueADSStream))); [naive_solver|].
  destruct (FileOf (upperPath config) dir kOpaqueSuffix); cbn [orb];
    rewrite ?Exists_cons, ?Exists_nil, ?orb_true_iff; naive_solver.
Qed.

Lemma keeps_opaque {A} (m : eff disk A) d d' a dir :
  keeps m -> m d = (d', a) -> HoldsOpaqueMarker d config dir = true -> HoldsOpaqueMarker d' config dir = true.
Proof.
  rewrite !HoldsOpaqueMarker_places. intros Hm E H. eapply Exists_impl; [exact H|].
  intros q. by apply (keeps_run m d d' a).
Qed.

Lemma SetOpaqueMetadata_holds dir d d' :
  SetOpaqueMetadata dir (Some config) d = (d', true) -> HoldsOpaqueMarker d' config dir = true.
Proof.
  rewrite HoldsOpaqueMarker_places. unfold opaque_places. rewrite Exists_cons, Exists_app.
  unfold SetOpaqueMetadata. destruct (UseSidecarFor (Some config)).
  - unfold SidecarSetOpaque, ebind, eret. destruct (EnsureDirectory (upperPath config) d) as [d1 [|]]; [|done].
    cbn [negb]. destruct (FileOf (upperPath config) dir kOpaqueSuffix) as [f|]; [|done].
    destruct (CreateAlwaysW f FILE_ATTRIBUTE_NORMAL d1) as [d2 [h|e]] eqn:Ec; intros [= <-].
    right; left. apply Exists_cons. left. by eapply create_visible.
  - unfold SetOpaqueAdsOnly, ebind, eret. destruct (CreateAlwaysW _ _ d) as [d1 [h|e]] eqn:Ec; [|done].
    destruct (WriteFile h (L "y") d1) as [d2 r] eqn:Ew. intros [= <- _]. left.
    eapply keeps_run; [apply write_keeps|exact Ew|]. by eapply create_visible.
Qed.

Lemma WriteOpaqueMarkers_holds dir d d' :
  WriteOpaqueMarkers config dir d = (d', STATUS_SUCCESS) -> HoldsOpaqueMarker d' config dir = true.
Proof.
  unfold WriteOpaqueMarkers. unfold ebind at 1, eread. cbn [fst snd].
  unfold ebind at 1. destruct (SetOpaqueMetadata dir (Some config) d) as [d1 ok] eqn:Em.
  unfold ebind at 1. destruct (CreateHiddenMarkerFile (JoinDirPath dir kOpaqueMarkerFile) d1) as [d2 err] eqn:Ec.
  unfold ebind at 1. set (times := match ReadEntryTimes d dir with Some _ => _ | None => _ end).
  assert (Ht : keeps times).
  { unfold times. destruct (ReadEntryTimes d dir); [apply WriteEntryTimes_keeps|apply keeps_ret]. }
  destruct (times d2) as [d3 u] eqn:Et. intros [= <- Hs].
  eapply keeps_opaque; [exact Ht|exact Et|].
  assert (ok = true \/ err = ERROR_SUCCESS) as [->| ->].
  { destruct ok; [by left|]. destruct (Z.eqb_spec err ERROR_SUCCESS); [by right|]. cbn in Hs.
    by apply NtStatusFromWin32_SUCCESS in Hs. }
  - eapply keeps_opaque; [apply CreateHiddenMarkerFile_keeps|exact Ec|]. by apply SetOpaqueMetadata_holds in Em.
  - rewrite HoldsOpaqueMarker_places. unfold opaque_places. rewrite Exists_cons, Exists_app, Exists_cons.
    right; right; left. by apply CreateHiddenMarkerFile_visible in Ec.
Qed.

(** ** Deletes *)

(** A call that shows no entry. *)
Definition shrinks {A} (m : eff disk A) : Prop := forall d q, visible (fst (m d)) q -> visible d q.

Lemma delete_then_gone {A} (k : w32 unit -> A) p d d' a :
  (let! r := DeleteFileW p in eret (k r))%eff d = (d', a) ->
  (forall e, k (Err e) = a -> e = ERROR_FILE_NOT_FOUND \/ e = ERROR_PATH_NOT_FOUND) ->
  ~ visible d' p /\ (forall q, visible d' q -> visible d q).
Proof.
  unfold ebind, eret. destruct (DeleteFileW p d) as [d1 r] eqn:Ed. intros [= <- Hk] Herr. split.
  - apply (delete_gone p d d1 r Ed). destruct r as [[]|e]; [by left|]. right.
    destruct (Herr e Hk) as [->| ->]; [by left|by right].
  - intros q. pose proof (delete_shrinks p d q) as H. by rewrite Ed in H.
Qed.

Lemma RemoveOpaqueAdsOnly_gone dir d d' :
  RemoveOpaqueAdsOnly dir d = (d', true) ->
  HasOpaqueAdsOnly d' dir = false /\ (forall q, visible d' q -> visible d q).
Proof.
  intros H. apply delete_then_gone in H as [Hads Hsub].
  - split; [|done]. by apply not_true_iff_false.
  - intros e He. apply orb_true_iff in He as [?%Z.eqb_eq|?%Z.eqb_eq]; auto.
Qed.

Lemma SidecarRemoveOpaque_gone dir d d' :
  SidecarRemoveOpaque (upperPath config) dir d = (d', true) ->
  SidecarHasOpaque d' (upperPath config) dir = false /\ (forall q, visible d' q -> visible d q).
Proof.
  unfold SidecarRemoveOpaque, SidecarHasOpaque, HasFile.
  destruct (FileOf (upperPath config) dir kOpaqueSuffix) as [f|]; [|by intros [= <-]].
  intros H. apply delete_then_gone in H as [Hf Hsub].
  - split; [|done]. by apply not_true_iff_false.
  - intros e He. unfold IsNotFoundError in He. apply orb_true_iff in He as [?%Z.eqb_eq|?%Z.eqb_eq]; auto.
Qed.

Lemma RemoveOpaqueMetadata_gone dir d d' :
  RemoveOpaqueMetadata dir (Some config) d = (d', true) ->
  HasOpaqueMetadata d' dir (Some config) = false /\ (forall q, visible d' q -> visible d q).
Proof.
  unfold RemoveOpaqueMetadata, ebind, eret.
  destruct (RemoveOpaqueAdsOnly dir d) as [d1 adsOk] eqn:Ea.
  destruct (SidecarRemoveOpaque (upperPath config) dir d1) as [d2 sideOk] eqn:Es.
  intros [= <- H]. apply andb_true_iff in H as [-> ->].
  apply RemoveOpaqueAdsOnly_gone in Ea as [Hads Hsub1]. apply SidecarRemoveOpaque_gone in Es as [Hside Hsub2].
  split; [|auto]. unfold HasOpaqueMetadata. rewrite Hside.
  destruct (HasOpaqueAdsOnly d2 dir) eqn:E2; [|done]. apply Hsub2 in E2.
  unfold HasOpaqueAdsOnly, visible in *. congruence.
Qed.
End Visibility.

(** ** The operations *)

Section Operations.
Context `{W : Win32} `{CL : !CaseLaws} `{DL : !DiskLaws} `{J : Json} `{E : CacheEnv} (config : LayerConfig).

Lemma invalidated_entry p c : cacheEntries (fst (Invalidate p c)) !! NormalizePath p = None.
Proof.
  cbn. apply map_lookup_filter_None. left. apply lookup_delete_eq.
Qed.

Lemma invalidated_with_ancestors_entry p c :
  cacheEntries (fst (InvalidateWithAncestors p c)) !! NormalizePath p = None.
Proof.
  cbn -[ancestor_keys]. apply map_lookup_filter_None. right. intros e _ H. apply H. cbn [fst].
  by rewrite bool_decide_true.
Qed.

(** The lookup of a path that the upper does not hold but whites out. *)
Lemma lookup_of_whiteout d p s :
  NormalizePath p = p -> p <> [] -> IsResolvablePath d config p = true ->
  cacheEntries (cache s) !! p = None ->
  is_ok (GetFileAttributesW d (WithExtendedPrefix (JoinDirPath (upperPath config) p))) = false ->
  HasWhiteout d p (upperPath config) = true ->
  snd (ResolvePath d config p s) = whiteout_hit.
Proof.
  intros Hp Hne Hok Hc Hu Hw. unfold ResolvePath. cbn [ResolvePathInternal]. unfold ebind at 1.
  rewrite Hp, bool_decide_false, Hok by done. cbn [negb]. unfold ebind at 1, on_cache at 1, Get at 1.
  rewrite Hp, Hc. cbn [fst snd]. unfold ebind at 1, resolve_in_upper.
  destruct (GetFileAttributesW d _); [done|]. unfold eret at 1. unfold resolve_below_upper, HidingInUpper.
  rewrite Hw. done.
Qed.

Lemma CreateWhiteout_effect p type s s' status :
  type <> WhiteoutOpaque -> CreateWhiteout config p type s = (s', status) ->
  if decide (status = STATUS_SUCCESS) then
    visible (volumes s') (WithExtendedPrefix (GetWhiteoutFullPath (upperPath config) p)) /\
    pathCache s' = (fun c => fst (InvalidateWithAncestors (NormalizePath p) c)) <$> pathCache s /\
    emitted s' = emitted s ++ [Event LM_EVT_WHITEOUT_CREATED S_OK (c_str p) None]
  else pathCache s' = pathCache s /\ emitted s' = emitted s.
Proof.
  intros Ht. assert (CreateWhiteout config p type = CreateWhiteout config p WhiteoutFile) as -> by (by destruct type).
  unfold CreateWhiteout, ebind, query, eret.
  destruct (NT_SUCCESS (MarkerDirectoryStatus _)) eqn:El; cbn [negb].
  2: { intros [= <- <-]. rewrite decide_False; [done|]. intros Hl. by rewrite Hl in El. }
  set (made := if bool_decide (parent_path _ = []) then _ else _).
  assert (Hmade : pathCache (fst (made s)) = pathCache s /\ emitted (fst (made s)) = emitted s).
  { unfold made, on_disk. case_bool_decide; [done|]. by destruct (EnsureDirectoryExists _ (volumes s)). }
  destruct (made s) as [s1 u]. cbn [fst] in Hmade. destruct Hmade as [Hc He]. unfold on_disk at 1.
  destruct (CreateHiddenMarkerFile _ (volumes s1)) as [d2 err] eqn:Em.
  destruct (Z.eqb_spec err ERROR_SUCCESS) as [->|Herr]; cbn [negb].
  - intros [<- <-]%pair_equal_spec. rewrite decide_True by done. apply CreateHiddenMarkerFile_visible in Em.
    cbn -[InvalidateWithAncestors]. by rewrite Hc, He.
  - intros [= <- <-]. rewrite decide_False by (by intros ?%NtStatusFromWin32_SUCCESS). done.
Qed.

(** C39: A whiteout that [CreateWhiteout] reports as created hides the path from
    the next lookup: if the upper shows nothing at the path itself, and the
    directory of the marker is reached without a link, then the lookup, cache
    and all, finds the whiteout.  On any other status the cache and the events
    are as before. *)
Theorem CreateWhiteout_hides p type s s' status c out :
  type <> WhiteoutOpaque -> NormalizePath p = p -> p <> [] ->
  CreateWhiteout config p type s = (s', status) ->
  (status <> STATUS_SUCCESS -> pathCache s' = pathCache s /\ emitted s' = emitted s) /\
  (status = STATUS_SUCCESS -> pathCache s' = Some c ->
     IsResolvablePath (volumes s') config p = true ->
     is_ok (GetFileAttributesW (volumes s') (WithExtendedPrefix (JoinDirPath (upperPath config) p))) = false ->
     FindLinkOnPath (volumes s') (upperPath config) (MarkerDirectoryOf p) = LinkNone ->
     snd (ResolvePath (volumes s') config p {| cache := c; debugOutput := out |}) = whiteout_hit).
Proof.
  intros Ht Hp Hne Hrun. apply CreateWhiteout_effect in Hrun; [|done]. split; intros Hs.
  - by rewrite decide_False in Hrun.
  - rewrite decide_True in Hrun by done. destruct Hrun as (Hv & Hc & _). intros Ec Hok Hu Hl.
    apply lookup_of_whiteout; try done; cbn [cache].
    + rewrite Ec in Hc. destruct (pathCache s) as [c0|]; [|done]. apply (inj Some) in Hc as ->.
      pose proof (invalidated_with_ancestors_entry (NormalizePath p) c0) as H. by rewrite !Hp in *.
    + unfold HasWhiteout. rewrite Hl, bool_decide_true by done. by rewrite andb_true_r.
Qed.

(** A path whose whiteout [RemoveWhiteout] reports as removed is not whited
    out in the upper, whatever its marker's directory is by then. *)
Theorem RemoveWhiteout_clears p s s' :
  RemoveWhiteout config p s = (s', STATUS_SUCCESS) -> HasWhiteout (volumes s') p (upperPath config) = false.
Proof.
  unfold RemoveWhiteout, ebind, query. unfold HasWhiteout, HasWhiteoutUnderWalkedDirectoryInLayer, MarkerFileExists.
  destruct (FindLinkOnPath (volumes s) (upperPath config) (MarkerDirectoryOf p)) eqn:El.
  2, 3: intros [<- _]%pair_equal_spec; rewrite El, bool_decide_false by done; apply andb_false_r.
  2: by intros [_ ?]%pair_equal_spec.
  unfold on_disk at 1. set (marker := WithExtendedPrefix (GetWhiteoutFullPath (upperPath config) p)).
  destruct (DeleteFileW marker (volumes s)) as [d' r] eqn:Ed. intros Hrun.
  assert (Hr : r = Ok tt \/ r = Err ERROR_FILE_NOT_FOUND \/ r = Err ERROR_PATH_NOT_FOUND).
  { destruct r as [[]|e]; [by left|right; left]. destruct (Z.eqb_spec e ERROR_FILE_NOT_FOUND) as [->|Hne]; [done|].
    cbn [negb] in Hrun. apply pair_equal_spec in Hrun as [_ Hst]. unfold StatusFromWin32Error in Hst.
    apply NtStatusFromWin32_SUCCESS in Hst. destruct (Z.eqb_spec e 0); [done|lia]. }
  pose proof (delete_gone marker (volumes s) d' r Ed Hr) as Hgone.
  assert (volumes s' = d') as ->.
  { destruct r as [u|e]; [|destruct (negb (e =? ERROR_FILE_NOT_FOUND))];
      by apply pair_equal_spec in Hrun as [<- _]. }
  apply not_true_is_false in Hgone. by rewrite Hgone.
Qed.

(** The lookup below a directory that the upper makes opaque. *)
Lemma lookup_below_opaque d p s :
  NormalizePath p = p -> p <> [] -> IsResolvablePath d config p = true ->
  cacheEntries (cache s) !! p = None ->
  is_ok (GetFileAttributesW d (WithExtendedPrefix (JoinDirPath (upperPath config) p))) = false ->
  IsOpaqueInLayer d config (ParentDir p) (upperPath config) = true ->
  Found (snd (ResolvePath d config p s)) = false.
Proof.
  intros Hp Hne Hok Hc Hu Ho. unfold ResolvePath. cbn [ResolvePathInternal]. unfold ebind at 1.
  rewrite Hp, bool_decide_false, Hok by done. cbn [negb]. unfold ebind at 1, on_cache at 1, Get at 1.
  rewrite Hp, Hc. cbn [fst snd]. unfold ebind at 1, resolve_in_upper.
  destruct (GetFileAttributesW d _); [done|]. unfold eret at 1. unfold resolve_below_upper.
  assert (HidingInUpper d config p <> HideNone).
  { unfold HidingInUpper, UpperAncestorHiding, LowersBelowParentOf, LowersBelow, HasOpaqueSelfOrAncestorInLayer.
    assert (AnyDirectoryUpToRoot (ParentDir p) Probed
              (fun dir => IsOpaqueInLayer d config dir (upperPath config)) = true) as ->.
    { unfold AnyDirectoryUpToRoot. cbn [any_directory_up]. case_bool_decide as Ep.
      - rewrite Ep in Ho. by rewrite Ho.
      - by rewrite Ho. }
    by destruct (HasWhiteout d p (upperPath config)), (HasWhitedOutAncestorInLayer d p (upperPath config)). }
  by destruct (HidingInUpper d config p).
Qed.

Lemma Invalidate_below cs k c :
  plain (cs ++ [k]) -> cs <> [] -> NormalizePath (rel cs) = rel cs ->
  cacheEntries (fst (Invalidate (rel cs) c)) !! rel (cs ++ [k]) = None.
Proof.
  intros Hp Hn Hcs. pose proof Hp as [Hc _]%Forall_app. cbn. rewrite Hcs.
  apply map_lookup_filter_None. right. intros e _ H. apply H. cbn [fst].
  replace (IsInsideDirectory (rel (cs ++ [k])) (rel cs)) with true; [done|]. symmetry.
  apply IsInsideDirectory_rel; try done. by exists [k].
Qed.

(** A directory that [SetOpaque] reports as opaque hides every lower entry
    below it from the next lookup: if the directory is reached in the upper
    without a link, then a child that the upper does not hold is not found,
    whatever the cache and the lowers hold. *)
Theorem SetOpaque_hides_lowers cs k s s' c out :
  let dir := rel cs in let child := rel (cs ++ [k]) in
  plain (cs ++ [k]) -> cs <> [] -> CharLowerBuffW child = child ->
  SetOpaque config dir s = (s', STATUS_SUCCESS) -> pathCache s' = Some c ->
  FindLinkOnPath (volumes s') (upperPath config) dir = LinkNone ->
  IsResolvablePath (volumes s') config child = true ->
  is_ok (GetFileAttributesW (volumes s') (WithExtendedPrefix (JoinDirPath (upperPath config) child))) = false ->
  Found (snd (ResolvePath (volumes s') config child {| cache := c; debugOutput := out |})) = false.
Proof.
  intros dir child Hp Hn Hlow Hrun Hc Hl Hok Hu. pose proof Hp as [Hcs [Hk _]%Forall_cons]%Forall_app.
  assert (Hlowd : CharLowerBuffW dir = dir).
  { unfold child, dir in *. rewrite rel_snoc, lower_app in Hlow by done.
    apply app_inj_1 in Hlow as [? _]; [done|apply lower_length]. }
  assert (Hpd : NormalizePathPreserveCase dir = dir) by (apply preserve_id, rel_canonical; done).
  assert (Hnd : NormalizePath dir = dir) by (unfold NormalizePath; by rewrite Hpd).
  assert (Hnc : NormalizePath child = child).
  { unfold NormalizePath. rewrite preserve_id; [done|]. apply rel_canonical. done. }
  revert Hrun. unfold SetOpaque, ebind, query. rewrite Hpd.
  destruct (NT_SUCCESS (MarkerDirectoryStatus _)) eqn:Est; cbn [negb].
  2: { intros [_ Hst]%pair_equal_spec. by rewrite Hst in Est. }
  unfold on_disk at 1. destruct (EnsureDirectoryExists (JoinDirPath (upperPath config) dir) (volumes s)) as [d1 u].
  unfold on_disk at 1. cbn [volumes pathCache emitted].
  destruct (WriteOpaqueMarkers config (JoinDirPath (upperPath config) dir) d1) as [d2 st] eqn:Ew.
  intros [<- ->]%pair_equal_spec. apply WriteOpaqueMarkers_holds in Ew.
  unfold on_path_cache, eret in *. cbn -[Invalidate ResolvePath] in *. rewrite Hnd in Hc.
  apply lookup_below_opaque; try done.
  - unfold child. intros Hnil%rel_nil_inv; [|done]. by destruct cs.
  - destruct (pathCache s) as [c0|]; [|done]. apply (inj Some) in Hc as <-. cbn [cache].
    by apply Invalidate_below.
  - unfold child, ParentDir. rewrite parent_path_rel by done. fold dir.
    unfold IsOpaqueInLayer. rewrite Ew, Hpd, Hl. done.
Qed.

(** When [RemoveOpaque] reports success on a directory that is no link, its
    opaque mark is gone in every place that a lookup reads: the stream, the
    sidecar and the marker file. *)
Theorem RemoveOpaque_clears dir s s' :
  NormalizePathPreserveCase dir = dir -> FindLinkOnPath (volumes s) (upperPath config) dir <> LinkSelf ->
  RemoveOpaque config dir s = (s', true) -> IsOpaque (volumes s') config dir = false.
Proof.
  intros Hd Hself. unfold RemoveOpaque, ebind, query, eret, IsOpaque, IsOpaqueInLayer. rewrite Hd.
  destruct (FindLinkOnPath (volumes s) (upperPath config) dir) eqn:El; [|done| |by intros [_ ?]%pair_equal_spec].
  2: { intros [<- _]%pair_equal_spec. rewrite El. apply andb_false_r. }
  set (full := JoinDirPath (upperPath config) dir). unfold on_disk.
  destruct (RemoveOpaqueMetadata full (Some config) (volumes s)) as [d1 metaOk] eqn:Em. cbn [volumes].
  destruct (DeleteMarkerFile (JoinDirPath full kOpaqueMarkerFile) d1) as [d2 fileOk] eqn:Ef.
  intros [<- H]%pair_equal_spec. apply andb_true_iff in H as [-> ->].
  apply RemoveOpaqueMetadata_gone in Em as [Hmeta _].
  apply delete_then_gone in Ef as [Hmark Hsub].
  2: { intros e He. apply Z.eqb_eq in He. by left. }
  change (volumes _) with d2. unfold HoldsOpaqueMarker, MarkerFileExists.
  apply not_true_is_false in Hmark. rewrite Hmark, orb_false_r.
  replace (HasOpaqueMetadata d2 full (Some config)) with false; [done|]. symmetry.
  revert Hmeta. unfold HasOpaqueMetadata, HasOpaqueAdsOnly, SidecarHasOpaque, HasFile, visible in *.
  destruct (is_ok (GetFileAttributesW d1 (ExtendedStreamPath full kOpaqueADSStream))) eqn:E1; [done|].
  destruct (is_ok (GetFileAttributesW d2 (ExtendedStreamPath full kOpaqueADSStream))) eqn:E2;
    [apply Hsub in E2; congruence|].
  destruct (FileOf (upperPath config) full kOpaqueSuffix); [|done]. intros H1.
  apply not_true_is_false. intros H2. apply Hsub in H2. congruence.
Qed.
End Operations.

(** ** Witnesses *)

Section Witnesses.
Import Fixture.Fixture.
#[local] Existing Instances mem_win32 no_json list_cache_env.

(** The fixture with a cache that has seen a lower file. *)
Definition marker_start : UpperState := {|
  volumes := volume;
  pathCache := Some (cache (fst (ResolvePath volume config (L "d\g") start)));
  emitted := []
|}.

Definition cache_of (s : UpperState) : Cache := default (new_cache 1) (pathCache s).

(** The states after each operation. *)
Definition whited : UpperState :=
  fst (CreateWhiteout config (L "d\g") WhiteoutFile marker_start).
Definition revealed : UpperState :=
  fst (RemoveWhiteout config (L "d\gone") marker_start).
Definition opaqued : UpperState := fst (SetOpaque config (L "d") marker_start).
Definition cleared : UpperState := fst (RemoveOpaque config (L "d") opaqued).

Lemma whited_run : CreateWhiteout config (L "d\g") WhiteoutFile marker_start = (whited, STATUS_SUCCESS).
Proof. apply run_reply. vm_compute. reflexivity. Qed.

Lemma revealed_run : RemoveWhiteout config (L "d\gone") marker_start = (revealed, STATUS_SUCCESS).
Proof. apply run_reply. vm_compute. reflexivity. Qed.

Lemma opaqued_run : SetOpaque config (L "d") marker_start = (opaqued, STATUS_SUCCESS).
Proof. apply run_reply. vm_compute. reflexivity. Qed.

Lemma cleared_run : RemoveOpaque config (L "d") opaqued = (cleared, true).
Proof. apply run_reply. vm_compute. reflexivity. Qed.

Lemma CreateWhiteout_hides_witness :
  Found (resolve "d\g") = true /\
  snd (ResolvePath (volumes whited) config (L "d\g") {| cache := cache_of whited; debugOutput := [] |}) = whiteout_hit.
Proof.
  split; [vm_compute; reflexivity|].
  destruct (CreateWhiteout_hides config (L "d\g") WhiteoutFile marker_start whited STATUS_SUCCESS (cache_of whited) []
              ltac:(done) ltac:(vm_compute; reflexivity) ltac:(done) whited_run) as [_ H].
  apply H; vm_compute; reflexivity.
Defined.

Lemma RemoveWhiteout_clears_witness :
  HasWhiteout volume (L "d\gone") (upperPath config) = true /\
  HasWhiteout (volumes revealed) (L "d\gone") (upperPath config) = false.
Proof.
  split; [vm_compute; reflexivity|].
  exact (RemoveWhiteout_clears config (L "d\gone") marker_start revealed revealed_run).
Defined.

Lemma SetOpaque_hides_lowers_witness :
  Found (resolve "d\g") = true /\
  Found (snd (ResolvePath (volumes opaqued) config (rel ([L "d"] ++ [L "g"]))
                {| cache := cache_of opaqued; debugOutput := [] |})) = false.
Proof.
  split; [vm_compute; reflexivity|].
  apply (SetOpaque_hides_lowers config [L "d"] (L "g") marker_start opaqued (cache_of opaqued) []);
    [apply (bool_decide_unpack _); vm_compute; exact I|done|vm_compute; reflexivity|exact opaqued_run|..];
    vm_compute; reflexivity.
Defined.

Lemma RemoveOpaque_clears_witness :
  IsOpaque (volumes opaqued) config (L "d") = true /\ IsOpaque (volumes cleared) config (L "d") = false.
Proof.
  split; [vm_compute; reflexivity|].
  apply (RemoveOpaque_clears config (L "d") opaqued cleared);
    [vm_compute; reflexivity|vm_compute; discriminate|exact cleared_run].
Defined.
End Witnesses.
