(* ===== verification/ProcessTracker.v ===== *)
(** * The process tracker

    [ProcessTracker.cpp]: the rules that allow or deny an access, the access
    log, a ring buffer, the cache of process information, and the two exports
    of the log.  Each call takes the locks one after the other and holds none
    between two of its parts, so the parts are the steps: the process lookup,
    the rule evaluation, the log entry.  What the operating system knows of a
    process is the class [Processes]. *)
From S2P Require Export Metadata.
Open Scope Z_scope.

Inductive OperationType :=
| OpCreate | OpOpen | OpRead | OpWrite | OpOverwrite | OpDelete | OpRename | OpGetInfo | OpSetInfo | OpSetSize
| OpGetSecurity | OpSetSecurity | OpReadDirectory | OpFlush | OpCleanup | OpClose.

Record ProcessInfo := {
  pid : Z;
  name : wstring;
  exePath : wstring;
  commandLine : wstring;
  user : wstring;
  elevated : bool
}.

(** A time point of the system clock is a count of 100-nanosecond ticks since
    1970; one of the steady clock is in the same unit. *)
Record AccessLogEntry := {
  entryPid : Z;
  processName : wstring;
  filePath : wstring;
  operation : OperationType;
  timestamp : Z;
  allowed : bool;
  reason : wstring
}.

Record AccessRule := {
  processNamePattern : wstring;
  pathPattern : wstring;
  allowRead : bool;
  allowWrite : bool;
  allowExecute : bool;
  allowDelete : bool
}.

Definition ticks_per_second : Z := 10000000.
Definition kProcessInfoTTL : Z := 30 * ticks_per_second.

Definition IsReadOp (op : OperationType) : bool :=
  match op with OpOpen | OpRead | OpGetInfo | OpGetSecurity | OpReadDirectory => true | _ => false end.

Definition IsWriteOp (op : OperationType) : bool :=
  match op with
  | OpCreate | OpWrite | OpOverwrite | OpSetInfo | OpSetSize | OpSetSecurity | OpFlush | OpRename => true
  | _ => false
  end.

Definition IsDeleteOp (op : OperationType) : bool :=
  match op with OpDelete => true | _ => false end.

Definition IsExecuteOp (op : OperationType) : bool := false.

Definition OperationName (op : OperationType) : wstring :=
  match op with
  | OpCreate => L "Create" | OpOpen => L "Open" | OpRead => L "Read" | OpWrite => L "Write"
  | OpOverwrite => L "Overwrite" | OpDelete => L "Delete" | OpRename => L "Rename" | OpGetInfo => L "GetInfo"
  | OpSetInfo => L "SetInfo" | OpSetSize => L "SetSize" | OpGetSecurity => L "GetSecurity"
  | OpSetSecurity => L "SetSecurity" | OpReadDirectory => L "ReadDirectory" | OpFlush => L "Flush"
  | OpCleanup => L "Cleanup" | OpClose => L "Close"
  end.

(** ** Wildcards *)

(** [text.find(part)]: whether [part] occurs in [text]. *)
Fixpoint contains (part text : wstring) : bool :=
  starts_with part text || match text with [] => false | _ :: text' => contains part text' end.

Section Wildcard.
Context `{W : Win32}.

Definition WildcardMatch (pattern text : wstring) : bool :=
  if bool_decide (pattern = [ch_star]) then true
  else if bool_decide (pattern = []) then bool_decide (text = [])
  else
    let lowerPattern := CharLowerBuffW pattern in
    let lowerText := CharLowerBuffW text in
    match wfind ch_star lowerPattern with
    | None => bool_decide (lowerPattern = lowerText)
    | Some starPos =>
        let starAtStart := (starPos =? 0)%nat in
        let starAtEnd := (starPos =? length lowerPattern - 1)%nat in
        if starAtStart && starAtEnd && (length lowerPattern =? 1)%nat then true
        else if starAtStart && starAtEnd then
          let middle := take (length lowerPattern - 2) (drop 1 lowerPattern) in
          contains middle lowerText
        else if starAtStart then
          let suffix := drop 1 lowerPattern in
          if (length lowerText <? length suffix)%nat then false
          else bool_decide (take (length suffix) (drop (length lowerText - length suffix) lowerText) = suffix)
        else if starAtEnd then
          let prefix := take starPos lowerPattern in
          if (length lowerText <? length prefix)%nat then false
          else bool_decide (take (length prefix) lowerText = prefix)
        else false
    end.
End Wildcard.

(** ** The log *)

Record AccessLog := {
  logBuffer : list AccessLogEntry;
  logHead : nat;
  logCount : nat;
  logCapacity : nat
}.

(** [AccessLogEntry{}], which fills a new buffer. *)
Definition default_entry : AccessLogEntry := {|
  entryPid := 0; processName := []; filePath := []; operation := OpOpen; timestamp := 0;
  allowed := true; reason := []
|}.

Definition new_log (capacity : nat) : AccessLog := {|
  logBuffer := replicate capacity default_entry; logHead := 0; logCount := 0; logCapacity := capacity
|}.

Definition AddLogEntry (entry : AccessLogEntry) (log : AccessLog) : AccessLog := {|
  logBuffer := <[logHead log := entry]> (logBuffer log);
  logHead := Nat.modulo (logHead log + 1) (logCapacity log);
  logCount := if (logCount log <? logCapacity log)%nat then S (logCount log) else logCount log;
  logCapacity := logCapacity log
|}.

Definition GetRecentEntries (count : nat) (log : AccessLog) : list AccessLogEntry :=
  let actual := Nat.min count (logCount log) in
  if (actual =? 0)%nat then []
  else
    let start := Nat.modulo (logHead log + logCapacity log - actual) (logCapacity log) in
    (fun i => default default_entry (logBuffer log !! Nat.modulo (start + i) (logCapacity log))) <$> seq 0 actual.

(** ** Processes *)

(** What the operating system says of the processes at one moment.  [None] is
    a call that fails. *)
Class Processes := {
  process_handle : Type;
  token : Type;
  sid : Type;
  OpenProcess : Z -> Z -> option process_handle;
  QueryFullProcessImageNameW : process_handle -> option wstring;
  (** Whether ntdll exports [NtQueryInformationProcess], and the PEB address
      that it gives. *)
  has_NtQueryInformationProcess : bool;
  NtQueryPebBaseAddress : process_handle -> option Z;
  (** The bytes at an address, all of them or none. *)
  ReadProcessMemory : process_handle -> Z -> nat -> option (list Z);
  OpenProcessToken : process_handle -> option token;
  (** [GetTokenInformation] with [TokenUser] and with [TokenElevation]. *)
  TokenUser : token -> option sid;
  TokenIsElevated : token -> option Z;
  (** The domain and the name. *)
  LookupAccountSidW : sid -> option (wstring * wstring);
  ConvertSidToStringSidW : sid -> option wstring
}.

Definition PROCESS_VM_READ : Z := 0x10.
Definition PROCESS_QUERY_INFORMATION : Z := 0x400.
Definition PROCESS_QUERY_LIMITED_INFORMATION : Z := 0x1000.

Definition orelse {A} (a b : option A) : option A := match a with Some x => Some x | None => b end.

(** A buffer of [n] UTF-16 code units. *)
Fixpoint wide_chars (n : nat) (bytes : list Z) : wstring :=
  match n with
  | O => []
  | S n' => le_field bytes 0 2 :: wide_chars n' (drop 2 bytes)
  end.

Section Query.
Context `{P : Processes}.

Definition process_image (processId : Z) : option (option wstring) :=
  QueryFullProcessImageNameW <$> OpenProcess PROCESS_QUERY_LIMITED_INFORMATION processId.

(** [ProcessParameters] is at offset 0x20 of the PEB, and its [CommandLine],
    a [UNICODE_STRING], at offset 0x70. *)
Definition process_command_line (processId : Z) : wstring :=
  default [] (
    if negb has_NtQueryInformationProcess then None
    else
      h ← OpenProcess (Z.lor PROCESS_QUERY_INFORMATION PROCESS_VM_READ) processId;
      peb ← NtQueryPebBaseAddress h;
      if peb =? 0 then None
      else
        paramsBytes ← ReadProcessMemory h (peb + 0x20) 8;
        let paramsPtr := le_field paramsBytes 0 8 in
        if paramsPtr =? 0 then None
        else
          us ← ReadProcessMemory h (paramsPtr + 0x70) 16;
          let length := le_field us 0 2 in
          let buffer := le_field us 8 8 in
          if (buffer =? 0) || (length =? 0) then None
          else
            bytes ← ReadProcessMemory h buffer (Z.to_nat length);
            Some (wide_chars (Z.to_nat (length / 2)) bytes)).

Definition process_token (processId : Z) : option token :=
  h ← orelse (OpenProcess PROCESS_QUERY_INFORMATION processId)
             (OpenProcess PROCESS_QUERY_LIMITED_INFORMATION processId);
  OpenProcessToken h.

Definition token_user (t : token) : wstring :=
  match TokenUser t with
  | None => []
  | Some s =>
      match LookupAccountSidW s with
      | Some (domain, accountName) => domain ++ ch_bsl :: accountName
      | None => default [] (ConvertSidToStringSidW s)
      end
  end.

Definition ResolveProcessUncached (processId : Z) : ProcessInfo :=
  match process_image processId with
  | None => {| pid := processId; name := L "<unknown>"; exePath := []; commandLine := []; user := []; elevated := false |}
  | Some image =>
      let imageName := match image with
                  | None => L "<unknown>"
                  | Some path => match wrfind ch_bsl path with Some i => drop (S i) path | None => path end
                  end in
      let t := process_token processId in
      {| pid := processId; name := imageName; exePath := default [] image;
         commandLine := process_command_line processId;
         user := match t with Some t => token_user t | None => [] end;
         elevated := match t with
                     | Some t => match TokenIsElevated t with Some e => negb (e =? 0) | None => false end
                     | None => false
                     end |}
  end.
End Query.

(** ** The tracker *)

Record ProcessTracker := {
  processInfoCache : gmap Z (ProcessInfo * Z);
  accessLog : AccessLog;
  rules : list AccessRule
}.

Definition new_tracker (capacity : nat) : ProcessTracker :=
  {| processInfoCache := ∅; accessLog := new_log capacity; rules := [] |}.

(** An event of the tracker: [LM_EVT_ACCESS_DENIED] with [E_ACCESSDENIED]. *)
Record denied_event := { deniedPath : wstring; deniedReason : option wstring; deniedPid : Z }.

Section Tracker.
Context `{W : Win32}.

(** [now] is the steady clock at the call, and [P] the operating system then. *)
Definition ResolveProcess `{P : Processes} (now processId : Z) : eff ProcessTracker ProcessInfo := fun s =>
  match processInfoCache s !! processId with
  | Some (info, expiresAt) =>
      if now <? expiresAt then (s, info)
      else
        let info := ResolveProcessUncached processId in
        ({| processInfoCache := <[processId := (info, now + kProcessInfoTTL)]> (processInfoCache s);
            accessLog := accessLog s; rules := rules s |}, info)
  | None =>
      let info := ResolveProcessUncached processId in
      ({| processInfoCache := <[processId := (info, now + kProcessInfoTTL)]> (processInfoCache s);
          accessLog := accessLog s; rules := rules s |}, info)
  end.

Definition add_entry (entry : AccessLogEntry) (s : ProcessTracker) : ProcessTracker :=
  {| processInfoCache := processInfoCache s; accessLog := AddLogEntry entry (accessLog s); rules := rules s |}.

Definition LogAccess `{P : Processes} (now systemNow processId : Z) (relativePath : wstring) (op : OperationType)
  : eff ProcessTracker unit := fun s =>
  let (s, info) := ResolveProcess now processId s in
  (add_entry {| entryPid := processId; processName := name info; filePath := relativePath; operation := op;
                timestamp := systemNow; allowed := true; reason := [] |} s, tt).

Definition rule_denies (rule : AccessRule) (op : OperationType) : bool :=
  if IsReadOp op && negb (allowRead rule) then true
  else if IsWriteOp op && negb (allowWrite rule) then true
  else if IsDeleteOp op && negb (allowDelete rule) then true
  else IsExecuteOp op && negb (allowExecute rule).

Definition deny_reason (rule : AccessRule) : wstring :=
  L "Denied by rule: " ++ processNamePattern rule ++ L " / " ++ pathPattern rule.

(** The loop over the rules: whether the access is allowed, and the reason. *)
Fixpoint evaluate_rules (rs : list AccessRule) (procName relativePath : wstring) (op : OperationType) : bool * wstring :=
  match rs with
  | [] => (true, [])
  | rule :: rs' =>
      if negb (WildcardMatch (processNamePattern rule) procName) then evaluate_rules rs' procName relativePath op
      else if negb (WildcardMatch (pathPattern rule) relativePath) then evaluate_rules rs' procName relativePath op
      else if rule_denies rule op then (false, deny_reason rule) else (true, [])
  end.

(** The decision, and the event that goes to a set emitter. *)
Definition CheckAccess `{P : Processes} (now systemNow processId : Z) (relativePath : wstring) (op : OperationType)
    (hasEmitter : bool) : eff ProcessTracker (bool * option denied_event) := fun s =>
  let (s, info) := ResolveProcess now processId s in
  let (isAllowed, why) := evaluate_rules (rules s) (name info) relativePath op in
  let s := add_entry {| entryPid := processId; processName := name info; filePath := relativePath; operation := op;
                        timestamp := systemNow; allowed := isAllowed; reason := why |} s in
  (s, (isAllowed,
       if negb isAllowed && hasEmitter then
         Some {| deniedPath := c_str relativePath;
                 deniedReason := if bool_decide (why = []) then None else Some (c_str why);
                 deniedPid := processId |}
       else None)).

(** ** Rules from a file *)

(** [ruleJson.value(key, fallback)] with a text default. *)
Definition text_or (fallback : list Z) (j : json) (key : string) : option (list Z) :=
  match json_field j key with
  | None => None
  | Some None => Some fallback
  | Some (Some (JString s)) => Some s
  | Some (Some _) => None
  end.

(** [None] when a read throws. *)
Definition rule_of_json (j : json) : option AccessRule :=
  proc ← text_or [ch_star] j "processName";
  path ← text_or [ch_star] j "pathPattern";
  r ← value_bool j "allowRead" true;
  w ← value_bool j "allowWrite" true;
  x ← value_bool j "allowExecute" true;
  del ← value_bool j "allowDelete" true;
  Some {| processNamePattern := Utf8ToWide proc; pathPattern := Utf8ToWide path;
          allowRead := r; allowWrite := w; allowExecute := x; allowDelete := del |}.

Inductive load_result := LoadThrows | LoadReturns (b : bool).

(** [file] is what opening the file and reading a JSON value from it give:
    [None] when it does not open, [Some None] when the parse throws. *)
Definition LoadRules (file : option (option json)) : eff ProcessTracker load_result := fun s =>
  match file with
  | None | Some None => (s, LoadReturns false)
  | Some (Some j) =>
      match j with
      | JObject fields =>
          match snd <$> find (fun f => String.eqb (fst f) "rules") fields with
          | Some (JArray l) =>
              match mapM rule_of_json l with
              | None => (s, LoadThrows)
              | Some newRules =>
                  ({| processInfoCache := processInfoCache s; accessLog := accessLog s; rules := newRules |},
                   LoadReturns true)
              end
          | _ => (s, LoadReturns false)
          end
      | _ => (s, LoadReturns false)
      end
  end.

(** ** Exports *)

(** The proleptic Gregorian date of a day since 1970-01-01, as [gmtime_s]
    gives it, with the months from March in a year that starts there. *)
Definition civil_from_days (days : Z) : Z * Z * Z :=
  let z := days + 719468 in
  let era := z / 146097 in
  let doe := z - era * 146097 in
  let yoe := (doe - doe / 1460 + doe / 36524 - doe / 146096) / 365 in
  let doy := doe - (365 * yoe + yoe / 4 - yoe / 100) in
  let mp := (5 * doy + 2) / 153 in
  let d := doy - (153 * mp + 2) / 5 + 1 in
  let m := if mp <? 10 then mp + 3 else mp - 9 in
  (yoe + era * 400 + (if m <=? 2 then 1 else 0), m, d).

(** [%Y-%m-%dT%H:%M:%S], the milliseconds, and [Z], for a time from 1970 on. *)
Definition FormatTimestamp (ticks : Z) : list Z :=
  let seconds := ticks / ticks_per_second in
  let ms := (ticks / 10000) mod 1000 in
  let '(y, m, d) := civil_from_days (seconds / 86400) in
  let s := seconds mod 86400 in
  padded 4 y ++ L "-" ++ padded 2 m ++ L "-" ++ padded 2 d ++ L "T" ++ padded 2 (s / 3600) ++ L ":" ++
  padded 2 ((s / 60) mod 60) ++ L ":" ++ padded 2 (s mod 60) ++ L "." ++ padded 3 ms ++ L "Z".

Definition ch_quote : Z := 34.
Definition ch_comma : Z := 44.
Definition ch_apostrophe : Z := 39.
Definition ch_lf : Z := 10.
Definition ch_cr : Z := 13.
Definition ch_tab : Z := 9.

Definition is_formula_lead (c : Z) : bool :=
  (c =? 61) || (c =? 43) || (c =? 45) || (c =? 64) || (c =? ch_tab) || (c =? ch_cr).

Definition needsFormulaEscape (field : list Z) : bool :=
  match field with [] => false | f :: _ => is_formula_lead f end.

Definition needsQuoting (field : list Z) : bool :=
  needsFormulaEscape field ||
  existsb (fun c => (c =? ch_comma) || (c =? ch_quote) || (c =? ch_lf) || (c =? ch_cr)) field.

Definition CsvEscape (field : list Z) : list Z :=
  if negb (needsQuoting field) then field
  else
    ch_quote :: (if needsFormulaEscape field then [ch_apostrophe] else []) ++
    flat_map (fun c => if c =? ch_quote then [ch_quote; ch_quote] else [c]) field ++ [ch_quote].

Definition csv_header : list Z := L "Timestamp,PID,ProcessName,FilePath,Operation,Allowed,Reason" ++ [ch_lf].

Definition csv_row (e : AccessLogEntry) : list Z :=
  CsvEscape (FormatTimestamp (timestamp e)) ++ [ch_comma] ++
  L (pretty (entryPid e)) ++ [ch_comma] ++
  CsvEscape (WideToUtf8 (processName e)) ++ [ch_comma] ++
  CsvEscape (WideToUtf8 (filePath e)) ++ [ch_comma] ++
  CsvEscape (WideToUtf8 (OperationName (operation e))) ++ [ch_comma] ++
  (if allowed e then L "true" else L "false") ++ [ch_comma] ++
  CsvEscape (WideToUtf8 (reason e)) ++ [ch_lf].

Definition ExportLogAsCsv (s : ProcessTracker) : list Z :=
  csv_header ++ concat (csv_row <$> GetRecentEntries (logCapacity (accessLog s)) (accessLog s)).

Definition json_of_entry (e : AccessLogEntry) : json :=
  JObject [("allowed", JBool (allowed e));
           ("filePath", JString (WideToUtf8 (filePath e)));
           ("operation", JString (WideToUtf8 (OperationName (operation e))));
           ("pid", JUnsigned (entryPid e));
           ("processName", JString (WideToUtf8 (processName e)));
           ("reason", JString (WideToUtf8 (reason e)));
           ("timestamp", JString (FormatTimestamp (timestamp e)))]%string.

(** The value that [dump(2)] prints. *)
Definition ExportLogAsJson (systemNow : Z) (s : ProcessTracker) : json :=
  let entries := GetRecentEntries (logCapacity (accessLog s)) (accessLog s) in
  JObject [("entries", JArray (json_of_entry <$> entries));
           ("entryCount", JUnsigned (Z.of_nat (length entries)));
           ("exportedAt", JString (FormatTimestamp systemNow))]%string.
End Tracker.

Example FormatTimestamp_example :
  FormatTimestamp ((1709164800 + 3723) * ticks_per_second + 70000) = L "2024-02-29T01:02:03.007Z".
Proof. vm_compute. reflexivity. Qed.
