(* ===== verification/TrackerFacts.v ===== *)
(** * What the process tracker guarantees

    The log keeps the newest entries in order; a decision is that of the first
    rule that matches, and is logged once; the exported CSV reads back; and
    what the wildcards and the process cache really do. *)

From S2P Require Export ProcessTracker.
Open Scope Z_scope.

#[local] Arguments Nat.modulo : simpl never.

(** ** The log *)

(** The log after the entries [es], oldest first. *)
Definition log_of (capacity : nat) (es : list AccessLogEntry) : AccessLog :=
  foldl (fun log e => AddLogEntry e log) (new_log capacity) es.

Record log_holds (capacity : nat) (log : AccessLog) (es : list AccessLogEntry) : Prop := {
  log_cap : logCapacity log = capacity;
  log_length : length (logBuffer log) = capacity;
  log_count : logCount log = Nat.min (length es) capacity;
  log_head : logHead log = Nat.modulo (length es) capacity;
  log_entries k : (length es - capacity <= k < length es)%nat ->
    logBuffer log !! Nat.modulo k capacity = es !! k
}.

Lemma mod_ne a b c : (a < b < a + c)%nat -> Nat.modulo a c <> Nat.modulo b c.
Proof.
  intros H E. pose proof (Nat.div_mod_eq a c). pose proof (Nat.div_mod_eq b c).
  assert ((b - a) = c * (b / c - a / c))%nat by nia. nia.
Qed.

Lemma log_holds_add capacity log es e :
  (0 < capacity)%nat -> log_holds capacity log es -> log_holds capacity (AddLogEntry e log) (es ++ [e]).
Proof.
  intros Hc [Hcap Hlen Hcount Hhead Hes].
  assert (Hlt : (logHead log < capacity)%nat) by (rewrite Hhead; apply Nat.mod_upper_bound; lia).
  split; unfold AddLogEntry; cbn [logCapacity logBuffer logCount logHead].
  - done.
  - by rewrite length_insert.
  - rewrite Hcount, Hcap, length_app. cbn [length]. destruct (Nat.ltb_spec (Nat.min (length es) capacity) capacity); lia.
  - rewrite Hhead, Hcap, length_app. cbn [length]. by rewrite Nat.Div0.add_mod_idemp_l.
  - intros k. rewrite length_app. cbn [length]. intros Hk. rewrite Hhead.
    destruct (decide (k = length es)) as [->|Hne].
    + rewrite list_lookup_insert_eq by (rewrite Hlen, <- Hhead; done).
      rewrite lookup_app_r, Nat.sub_diag by lia. done.
    + rewrite list_lookup_insert_ne by (apply not_eq_sym, mod_ne; lia).
      rewrite lookup_app_l by lia. apply Hes. lia.
Qed.

Lemma log_of_holds capacity es : (0 < capacity)%nat -> log_holds capacity (log_of capacity es) es.
Proof.
  intros Hc. unfold log_of. induction es as [|e es IH] using rev_ind.
  - split; cbn; [done|by rewrite length_replicate|done| |lia]. by rewrite Nat.Div0.mod_0_l.
  - rewrite foldl_snoc. by apply log_holds_add.
Qed.

(** The log of a tracker with room for [capacity] entries gives, asked for
    [count], the newest [min count capacity] entries that were ever logged,
    in the order they were logged, however often the ring has wrapped. *)
Theorem GetRecentEntries_newest capacity es count :
  (0 < capacity)%nat ->
  GetRecentEntries count (log_of capacity es) = drop (length es - Nat.min count capacity) es.
Proof.
  intros Hc. destruct (log_of_holds capacity es Hc) as [Hcap Hlen Hcount Hhead Hes].
  unfold GetRecentEntries. rewrite Hcap, Hcount, Hhead. set (n := length es) in *.
  set (actual := Nat.min count (Nat.min n capacity)).
  replace (n - Nat.min count capacity)%nat with (n - actual)%nat by lia.
  destruct (Nat.eqb_spec actual 0) as [H0|H0].
  { rewrite H0, Nat.sub_0_r. symmetry. by apply drop_ge. }
  apply list_eq. intros i. rewrite list_lookup_fmap, lookup_drop.
  destruct (decide (i < actual)%nat) as [Hi|Hi].
  - rewrite lookup_seq_lt by done. cbn [fmap option_fmap option_map].
    assert (E : Nat.modulo (Nat.modulo (Nat.modulo n capacity + capacity - actual) capacity + (0 + i)) capacity =
                Nat.modulo (n - actual + i) capacity).
    { rewrite Nat.Div0.add_mod_idemp_l.
      replace (Nat.modulo n capacity + capacity - actual + (0 + i))%nat
        with (Nat.modulo n capacity + (capacity - actual + i))%nat by lia.
      rewrite Nat.Div0.add_mod_idemp_l.
      replace (n + (capacity - actual + i))%nat with (n - actual + i + 1 * capacity)%nat by lia.
      by rewrite Nat.Div0.mod_add. }
    rewrite E, Hes by lia. destruct (lookup_lt_is_Some_2 es (n - actual + i)) as [x ->]; [lia|done].
  - rewrite (lookup_ge_None_2 (seq 0 actual)) by (rewrite length_seq; lia).
    rewrite lookup_ge_None_2; [done|]. lia.
Qed.

(** ** Wildcards *)

Section Wildcards.
Context `{W : Win32}.

Lemma suffix_spec (suffix text : wstring) :
  (if (length text <? length suffix)%nat then false
   else bool_decide (take (length suffix) (drop (length text - length suffix) text) = suffix)) = true <->
  suffix `suffix_of` text.
Proof.
  destruct (Nat.ltb_spec (length text) (length suffix)) as [Hlt|Hge].
  - split; [done|]. intros [k ->]. rewrite length_app in Hlt. lia.
  - rewrite bool_decide_eq_true, take_ge by (rewrite length_drop; lia). split.
    + intros E. exists (take (length text - length suffix) text). rewrite <- E at 2. by rewrite take_drop.
    + intros [k ->]. rewrite length_app. replace (length k + length suffix - length suffix)%nat with (length k) by lia.
      apply drop_app_length.
Qed.

Lemma prefix_spec (prefix text : wstring) :
  (if (length text <? length prefix)%nat then false else bool_decide (take (length prefix) text = prefix)) = true <->
  prefix `prefix_of` text.
Proof.
  destruct (Nat.ltb_spec (length text) (length prefix)) as [Hlt|Hge].
  - split; [done|]. intros [k ->]. rewrite length_app in Hlt. lia.
  - rewrite bool_decide_eq_true. rewrite <- starts_with_prefix. unfold starts_with. by rewrite bool_decide_eq_true.
Qed.

(** The characters of patterns fold to themselves. *)
Hypothesis lower_star : char_lower ch_star = ch_star.

Lemma lower_nil (s : wstring) : CharLowerBuffW s = [] <-> s = [].
Proof. destruct s; split; done. Qed.

(** What [WildcardMatch] accepts, on every pattern.  Without a star, the same
    text but for case; with a star in front, a text that ends with the rest of
    the pattern, further stars being ordinary characters; with the only star at
    the end, a text that starts with the rest; and with a star elsewhere,
    nothing.  So the pattern "*secret*", which the code means to match a text
    that contains "secret", matches only a text that ends with "secret*". *)
Theorem WildcardMatch_meaning pattern text :
  let p := CharLowerBuffW pattern in let t := CharLowerBuffW text in
  (ch_star ∉ p -> WildcardMatch pattern text = true <-> p = t) /\
  (forall suffix, p = ch_star :: suffix -> WildcardMatch pattern text = true <-> suffix `suffix_of` t) /\
  (forall prefix, p = prefix ++ [ch_star] -> prefix <> [] -> ch_star ∉ prefix ->
     WildcardMatch pattern text = true <-> prefix `prefix_of` t) /\
  (forall prefix rest, p = prefix ++ ch_star :: rest -> prefix <> [] -> rest <> [] -> ch_star ∉ prefix ->
     WildcardMatch pattern text = false).
Proof.
  intros p t. unfold WildcardMatch.
  assert (Hstar : bool_decide (pattern = [ch_star]) = true -> p = [ch_star]).
  { intros ->%bool_decide_eq_true. unfold p, CharLowerBuffW. cbn. by rewrite lower_star. }
  assert (Hnil : bool_decide (pattern = []) = true -> p = []) by (by intros ->%bool_decide_eq_true).
  fold p t. split; [|split; [|split]].
  - intros Hno. destruct (bool_decide (pattern = [ch_star])) eqn:Es.
    { exfalso. apply Hno. rewrite (Hstar eq_refl). left. }
    destruct (bool_decide (pattern = [])) eqn:En.
    { rewrite (Hnil eq_refl), bool_decide_eq_true. unfold t. rewrite <- (lower_nil text). naive_solver. }
    apply wfind_None in Hno. rewrite Hno. apply bool_decide_eq_true.
  - intros suffix Hp. destruct (bool_decide (pattern = [ch_star])) eqn:Es.
    { rewrite (Hstar eq_refl) in Hp. injection Hp as <-. split; [intros _; apply suffix_nil|done]. }
    destruct (bool_decide (pattern = [])) eqn:En; [by rewrite (Hnil eq_refl) in Hp|].
    rewrite Hp. cbn [wfind]. rewrite Z.eqb_refl. cbn [Nat.eqb andb length].
    destruct suffix as [|c suffix]; cbn [length Nat.sub Nat.eqb andb].
    { split; [intros _; apply suffix_nil|done]. }
    cbn [drop]. apply (suffix_spec (c :: suffix) t).
  - intros prefix Hp Hne Hno. destruct (bool_decide (pattern = [ch_star])) eqn:Es.
    { rewrite (Hstar eq_refl) in Hp. destruct prefix as [|? [|]]; [done| |]; by injection Hp. }
    destruct (bool_decide (pattern = [])) eqn:En; [rewrite (Hnil eq_refl) in Hp; by destruct prefix|].
    rewrite Hp, wfind_app_r by done. cbn [wfind]. rewrite Z.eqb_refl. cbn [fmap option_fmap option_map].
    rewrite length_app. cbn [length]. rewrite Nat.add_0_r.
    replace (length prefix + 1 - 1)%nat with (length prefix) by lia. rewrite Nat.eqb_refl.
    destruct (Nat.eqb_spec (length prefix) 0) as [E0|_]; [by destruct prefix|]. cbn [andb].
    rewrite take_app_length. apply prefix_spec.
  - intros prefix rest Hp Hne Hrest Hno. destruct (bool_decide (pattern = [ch_star])) eqn:Es.
    { rewrite (Hstar eq_refl) in Hp. destruct prefix as [|? [|]]; [done| |]; by injection Hp. }
    destruct (bool_decide (pattern = [])) eqn:En; [rewrite (Hnil eq_refl) in Hp; by destruct prefix|].
    rewrite Hp, wfind_app_r by done. cbn [wfind]. rewrite Z.eqb_refl. cbn [fmap option_fmap option_map].
    rewrite length_app. cbn [length]. rewrite Nat.add_0_r.
    destruct (Nat.eqb_spec (length prefix) 0) as [E0|_]; [by destruct prefix|]. cbn [andb].
    destruct (Nat.eqb_spec (length prefix) (length prefix + S (length rest) - 1)) as [E1|_]; [|done].
    destruct rest; [done|]. cbn in E1. lia.
Qed.
End Wildcards.

(** ** Decisions *)

Section Decisions.
Context `{W : Win32} `{P : Processes}.

Definition rule_matches (procName path : wstring) (rule : AccessRule) : bool :=
  WildcardMatch (processNamePattern rule) procName && WildcardMatch (pathPattern rule) path.

(** Rule [i] is the first that matches. *)
Definition first_match (rs : list AccessRule) (procName path : wstring) (i : nat) (rule : AccessRule) : Prop :=
  rs !! i = Some rule /\ rule_matches procName path rule = true /\
  forall j r, (j < i)%nat -> rs !! j = Some r -> rule_matches procName path r = false.

Lemma first_match_cons r rs procName path i rule :
  first_match (r :: rs) procName path i rule <->
  if rule_matches procName path r then i = O /\ rule = r
  else exists i', i = S i' /\ first_match rs procName path i' rule.
Proof.
  unfold first_match. destruct (rule_matches procName path r) eqn:Er.
  - split.
    + intros (Hi & Hm & Hno). destruct i as [|i]; [by injection Hi as ->|].
      specialize (Hno O r ltac:(lia) eq_refl). congruence.
    + intros [-> ->]. split; [done|]. split; [done|]. intros j. lia.
  - split.
    + intros (Hi & Hm & Hno). destruct i as [|i]; [cbn in Hi; congruence|]. exists i. split; [done|].
      split; [done|]. split; [done|]. intros j r' Hj. apply (Hno (S j) r'). lia.
    + intros (i' & -> & Hi & Hm & Hno). split; [done|]. split; [done|].
      intros [|j] r' Hj; [by intros [= <-]|]. apply Hno. lia.
Qed.

Lemma evaluate_rules_first rs procName path op :
  (fst (evaluate_rules rs procName path op) = false <->
   exists i rule, first_match rs procName path i rule /\ rule_denies rule op = true) /\
  (fst (evaluate_rules rs procName path op) = true -> snd (evaluate_rules rs procName path op) = []) /\
  (forall i rule, first_match rs procName path i rule -> rule_denies rule op = true ->
     snd (evaluate_rules rs procName path op) = deny_reason rule).
Proof.
  induction rs as [|r rs IH]; cbn [evaluate_rules].
  - split; [|split; [done|]].
    + split; [done|]. by intros (i & rule & (Hi & _) & _).
    + by intros i rule (Hi & _).
  - assert (Hskip : rule_matches procName path r = false ->
      (exists i rule, first_match (r :: rs) procName path i rule /\ rule_denies rule op = true) <->
      (exists i rule, first_match rs procName path i rule /\ rule_denies rule op = true)).
    { intros Er. split.
      - intros (i & rule & Hf & Hd). apply first_match_cons in Hf. rewrite Er in Hf. destruct Hf as (i' & _ & Hf). eauto.
      - intros (i & rule & Hf & Hd). exists (S i), rule. split; [|done]. apply first_match_cons. rewrite Er. eauto. }
    assert (Hskip' : rule_matches procName path r = false -> forall i rule,
      first_match (r :: rs) procName path i rule -> exists i', first_match rs procName path i' rule).
    { intros Er i rule Hf. apply first_match_cons in Hf. rewrite Er in Hf. destruct Hf as (i' & _ & Hf). eauto. }
    destruct IH as (IH1 & IH2 & IH3).
    destruct (WildcardMatch (processNamePattern r) procName) eqn:E1; cbn [negb].
    2: { assert (Er : rule_matches procName path r = false) by (unfold rule_matches; by rewrite E1).
         rewrite (Hskip Er). split; [done|]. split; [done|]. intros i rule Hf.
         destruct (Hskip' Er i rule Hf) as [i' Hf']. by apply (IH3 i'). }
    destruct (WildcardMatch (pathPattern r) path) eqn:E2; cbn [negb].
    2: { assert (Er : rule_matches procName path r = false) by (unfold rule_matches; by rewrite E1, E2).
         rewrite (Hskip Er). split; [done|]. split; [done|]. intros i rule Hf.
         destruct (Hskip' Er i rule Hf) as [i' Hf']. by apply (IH3 i'). }
    assert (Er : rule_matches procName path r = true) by (unfold rule_matches; by rewrite E1, E2).
    assert (Hf : forall i rule, first_match (r :: rs) procName path i rule <-> i = O /\ rule = r).
    { intros i rule. rewrite first_match_cons. by rewrite Er. }
    destruct (rule_denies r op) eqn:Ed; cbn [fst snd]; (split; [|split; [done|]]).
    + split; [|done]. intros _. exists O, r. by rewrite Hf.
    + by intros i rule [_ ->]%Hf.
    + split; [done|]. intros (i & rule & [_ ->]%Hf & ?). congruence.
    + intros i rule [_ ->]%Hf. congruence.
Qed.

Lemma ResolveProcess_frame now processId s :
  rules (fst (ResolveProcess now processId s)) = rules s /\
  accessLog (fst (ResolveProcess now processId s)) = accessLog s.
Proof. unfold ResolveProcess. by destruct (processInfoCache s !! processId) as [[info e]|]; [destruct (now <? e)|]. Qed.

(** An access is denied exactly when the first rule that matches the process
    and the path denies the kind of the operation; it is allowed when no rule
    matches.  Each check adds one entry to the log, with the decision in it, a
    reason only when it is a denial, and tells the host exactly of the
    denials.  No rule denies a cleanup or a close. *)
Theorem CheckAccess_first_match now systemNow processId path op hasEmitter s :
  let info := snd (ResolveProcess now processId s) in
  let '(s', (ok, event)) := CheckAccess now systemNow processId path op hasEmitter s in
  (ok = false <-> exists i rule, first_match (rules s) (name info) path i rule /\ rule_denies rule op = true) /\
  (exists why, accessLog s' = AddLogEntry {| entryPid := processId; processName := name info; filePath := path;
       operation := op; timestamp := systemNow; allowed := ok; reason := why |} (accessLog s) /\
     (ok = true -> why = []) /\
     (forall i rule, first_match (rules s) (name info) path i rule -> rule_denies rule op = true ->
        why = deny_reason rule)) /\
  rules s' = rules s /\
  (is_Some event <-> ok = false /\ hasEmitter = true) /\
  (op = OpCleanup \/ op = OpClose -> ok = true).
Proof.
  intros info. unfold CheckAccess. destruct (ResolveProcess_frame now processId s) as [Hr Hl].
  unfold info. destruct (ResolveProcess now processId s) as [s1 i1]. cbn [fst snd] in *.
  pose proof (evaluate_rules_first (rules s1) (name i1) path op) as (H1 & H2 & H3).
  destruct (evaluate_rules (rules s1) (name i1) path op) as [ok why]. cbn [fst snd] in *. rewrite Hr in *.
  split; [done|]. split; [exists why; by rewrite <- Hl|]. split; [done|]. split.
  - destruct ok, hasEmitter; cbn; split; try done; try naive_solver; by intros [].
  - intros Hop. destruct ok; [done|]. destruct H1 as [H1 _]. destruct (H1 eq_refl) as (i & rule & _ & Hd).
    by destruct Hop as [-> | ->].
Qed.
End Decisions.

(** ** The exported log reads back

    A reader of RFC 4180 text, and the proof that it reads the fields of every
    exported row, with no field that a spreadsheet takes for a formula; and
    what the process cache answers. *)

(** ** A reader *)

(** The rest of a quoted field, and what follows its closing quote. *)
Fixpoint read_quoted (s : list Z) : option (list Z * list Z) :=
  match s with
  | [] => None
  | c :: s' =>
      if c =? ch_quote then
        match s' with
        | c2 :: s'' =>
            if c2 =? ch_quote then (fun fr => (ch_quote :: fst fr, snd fr)) <$> read_quoted s''
            else Some ([], s')
        | [] => Some ([], [])
        end
      else (fun fr => (c :: fst fr, snd fr)) <$> read_quoted s'
  end.

Fixpoint read_plain (s : list Z) : list Z * list Z :=
  match s with
  | [] => ([], [])
  | c :: s' =>
      if (c =? ch_comma) || (c =? ch_lf) then ([], s)
      else let (f, r) := read_plain s' in (c :: f, r)
  end.

Definition read_field (s : list Z) : option (list Z * list Z) :=
  match s with
  | c :: s' => if c =? ch_quote then read_quoted s' else Some (read_plain s)
  | [] => Some ([], [])
  end.

Fixpoint read_row (fuel : nat) (s : list Z) : option (list (list Z) * list Z) :=
  match fuel with
  | O => None
  | S fuel' =>
      match read_field s with
      | Some (f, c :: r) =>
          if c =? ch_comma then (fun fr => (f :: fst fr, snd fr)) <$> read_row fuel' r
          else if c =? ch_lf then Some ([f], r)
          else None
      | _ => None
      end
  end.

Fixpoint read_rows (fuel : nat) (s : list Z) : option (list (list (list Z))) :=
  match fuel with
  | O => None
  | S fuel' =>
      match s with
      | [] => Some []
      | _ => match read_row (S (length s)) s with
             | Some (row, r) => cons row <$> read_rows fuel' r
             | None => None
             end
      end
  end.

Definition csv_read (s : list Z) : option (list (list (list Z))) := read_rows (S (length s)) s.

(** ** Fields *)

(** The text of a field that the reader sees. *)
Definition shown (field : list Z) : list Z :=
  (if needsFormulaEscape field then [ch_apostrophe] else []) ++ field.

Definition ends_field (c : Z) : Prop := c = ch_comma \/ c = ch_lf.

Lemma ends_field_not_quote c : ends_field c -> (c =? ch_quote) = false.
Proof. intros [->| ->]; done. Qed.

Lemma read_quoted_escaped f c rest :
  ends_field c ->
  read_quoted (flat_map (fun x => if x =? ch_quote then [ch_quote; ch_quote] else [x]) f ++ ch_quote :: c :: rest) =
    Some (f, c :: rest).
Proof.
  intros Hc. induction f as [|x f IH]; cbn [flat_map app].
  - cbn. by rewrite ends_field_not_quote.
  - destruct (Z.eqb_spec x ch_quote) as [->|Hx]; cbn [app].
    + cbn [read_quoted]. rewrite !Z.eqb_refl. by rewrite IH.
    + cbn [read_quoted]. rewrite (proj2 (Z.eqb_neq _ _)) by done. by rewrite IH.
Qed.

Lemma read_plain_field f c rest :
  Forall (fun x => x <> ch_comma /\ x <> ch_lf) f -> ends_field c -> read_plain (f ++ c :: rest) = (f, c :: rest).
Proof.
  intros Hf Hc. induction Hf as [|x f [H1 H2] _ IH]; cbn [app read_plain].
  - by destruct Hc as [->| ->].
  - rewrite !(proj2 (Z.eqb_neq _ _)) by done. cbn [orb]. by rewrite IH.
Qed.

Lemma needsQuoting_false f :
  needsQuoting f = false ->
  needsFormulaEscape f = false /\ Forall (fun x => x <> ch_comma /\ x <> ch_quote /\ x <> ch_lf /\ x <> ch_cr) f.
Proof.
  unfold needsQuoting. intros [-> H]%orb_false_iff. split; [done|]. apply Forall_forall. intros x Hx.
  apply not_true_iff_false in H. repeat split; intros ->; apply H; apply existsb_exists; eexists;
    (split; [by apply list_elem_of_In|done]).
Qed.

Lemma read_field_escaped f c rest :
  ends_field c -> read_field (CsvEscape f ++ c :: rest) = Some (shown f, c :: rest).
Proof.
  intros Hc. unfold CsvEscape, shown. destruct (needsQuoting f) eqn:Eq; cbn [negb].
  - cbn [app read_field]. rewrite Z.eqb_refl, <- app_assoc, <- app_assoc. cbn [app].
    destruct (needsFormulaEscape f); cbn [app]; [|by apply read_quoted_escaped].
    cbn [read_quoted]. change (ch_apostrophe =? ch_quote) with false. cbn iota.
    by rewrite read_quoted_escaped.
  - destruct (needsQuoting_false f Eq) as [-> Hf]. cbn [app].
    assert (Hp : read_plain (f ++ c :: rest) = (f, c :: rest)).
    { apply read_plain_field; [|done]. eapply Forall_impl; [done|]. naive_solver. }
    destruct f as [|x f]; cbn [app read_field] in *; [by rewrite ends_field_not_quote, Hp|].
    apply Forall_cons in Hf as [(_ & Hx & _) _]. by rewrite (proj2 (Z.eqb_neq _ _)), Hp.
Qed.

(** ** Rows *)

Fixpoint row_text (fields : list (list Z)) : list Z :=
  match fields with
  | [] => [ch_lf]
  | [f] => CsvEscape f ++ [ch_lf]
  | f :: fs => CsvEscape f ++ ch_comma :: row_text fs
  end.

Lemma read_row_text fields fuel rest :
  fields <> [] -> (length fields <= fuel)%nat ->
  read_row fuel (row_text fields ++ rest) = Some (shown <$> fields, rest).
Proof.
  revert fuel. induction fields as [|f fs IH]; intros fuel Hne Hfuel; [done|].
  destruct fuel as [|fuel]; [cbn in Hfuel; lia|]. cbn [read_row].
  destruct fs as [|g fs].
  - cbn [row_text]. rewrite <- app_assoc. cbn [app]. rewrite read_field_escaped by by right. done.
  - cbn [row_text]. rewrite <- app_assoc. cbn [app]. rewrite read_field_escaped by by left.
    change (ch_comma =? ch_comma) with true. cbn iota. rewrite IH; [done|done|]. cbn in *. lia.
Qed.

Lemma row_text_length fields : (length fields <= length (row_text fields))%nat /\ row_text fields <> [].
Proof.
  induction fields as [|f fs IH]; [split; [cbn; lia|done]|]. destruct fs as [|g fs].
  - cbn [row_text]. rewrite length_app. cbn [length]. split; [lia|]. by destruct (CsvEscape f).
  - cbn [row_text] in *. rewrite length_app. cbn [length] in *. split; [lia|]. by destruct (CsvEscape f).
Qed.

Lemma read_rows_text (rows : list (list (list Z))) fuel :
  Forall (fun r => r <> []) rows -> (length rows < fuel)%nat ->
  read_rows fuel (concat (fmap (M:=list) row_text rows)) = Some (fmap (M:=list) (fmap (M:=list) shown) rows).
Proof.
  intros Hne. revert fuel. induction Hne as [|r rows Hr _ IH]; intros fuel Hfuel;
    (destruct fuel as [|fuel]; [cbn in Hfuel; lia|]); [done|].
  cbn [fmap list_fmap concat read_rows]. pose proof (row_text_length r) as [Hl Hn].
  destruct (row_text r ++ concat (fmap (M:=list) row_text rows)) as [|x s] eqn:E; [by apply app_eq_nil in E as [? _]|].
  rewrite <- E. rewrite read_row_text; [|done|].
  - change (list_fmap _ _ row_text rows) with (fmap (M:=list) row_text rows). rewrite IH; [done|]. cbn in Hfuel. lia.
  - rewrite length_app. lia.
Qed.

(** ** Decimal numbers *)

Definition is_digit (c : Z) : Prop := 48 <= c <= 57.

Lemma pretty_N_go_digits x s : Forall is_digit (L s) -> Forall is_digit (L (pretty_N_go x s)).
Proof.
  revert s. induction (N.lt_wf_0 x) as [x _ IH]. intros s Hs.
  destruct (decide (x = 0)%N) as [->|Hx]; [by rewrite pretty_N_go_0|].
  rewrite pretty_N_go_step by lia. apply IH; [by apply N.div_lt; lia|]. cbn. constructor; [|done].
  assert (Hm : (x mod 10 < 10)%N) by (by apply N.mod_lt).
  unfold is_digit. set (m := (x mod 10)%N) in *.
  assert (m = 0 \/ m = 1 \/ m = 2 \/ m = 3 \/ m = 4 \/ m = 5 \/ m = 6 \/ m = 7 \/ m = 8 \/ m = 9)%N as Hcase by lia.
  repeat (destruct Hcase as [->|Hcase]; [vm_compute; split; discriminate|]). rewrite Hcase. vm_compute. split; discriminate.
Qed.

Lemma pretty_digits n : 0 <= n -> Forall is_digit (L (pretty n)).
Proof.
  intros Hn. destruct n as [|p|p]; [| |lia].
  - repeat constructor; vm_compute; discriminate.
  - change (pretty (Z.pos p)) with (pretty_N_go (N.pos p) ""). by apply pretty_N_go_digits.
Qed.

Lemma digits_need_no_quoting f : Forall is_digit f -> needsQuoting f = false.
Proof.
  intros Hf. unfold needsQuoting. apply orb_false_iff. split.
  - destruct Hf as [|x f Hx _]; [done|]. unfold needsFormulaEscape, is_formula_lead, is_digit, ch_tab, ch_cr in *.
    rewrite !orb_false_iff, !Z.eqb_neq. lia.
  - apply not_true_iff_false. intros (x & Hin & Hx)%existsb_exists.
    rewrite Forall_forall in Hf. apply list_elem_of_In, Hf in Hin. unfold is_digit, ch_comma, ch_quote, ch_lf, ch_cr in *.
    rewrite !orb_true_iff, !Z.eqb_eq in Hx. lia.
Qed.

Lemma CsvEscape_plain f : needsQuoting f = false -> CsvEscape f = f /\ shown f = f.
Proof.
  intros H. unfold CsvEscape, shown. rewrite H. by destruct (needsQuoting_false f H) as [-> _].
Qed.

(** ** The export *)

Section ExportedLog.
Context `{W : Win32}.

Definition bool_text (b : bool) : list Z := if b then L "true" else L "false".

(** The fields of an entry's row. *)
Definition row_fields (e : AccessLogEntry) : list (list Z) :=
  [FormatTimestamp (timestamp e); L (pretty (entryPid e)); WideToUtf8 (processName e); WideToUtf8 (filePath e);
   WideToUtf8 (OperationName (operation e)); bool_text (allowed e); WideToUtf8 (reason e)].

Definition header_fields : list (list Z) :=
  [L "Timestamp"; L "PID"; L "ProcessName"; L "FilePath"; L "Operation"; L "Allowed"; L "Reason"].

Lemma csv_row_text e : 0 <= entryPid e -> csv_row e = row_text (row_fields e).
Proof.
  intros Hp. unfold csv_row, row_fields. cbn [row_text].
  destruct (CsvEscape_plain (L (pretty (entryPid e)))) as [-> _]; [by apply digits_need_no_quoting, pretty_digits|].
  assert (CsvEscape (bool_text (allowed e)) = bool_text (allowed e)) as -> by by destruct (allowed e).
  by unfold bool_text.
Qed.

(** A reader of RFC 4180 text reads the exported CSV back: the header, then one
    row of seven fields per entry of the log, oldest first, each field the
    entry's value, with an apostrophe in front where a spreadsheet would take
    it for a formula.  No field of a row starts like a formula. *)
Theorem ExportLogAsCsv_reads_back s :
  let entries := GetRecentEntries (logCapacity (accessLog s)) (accessLog s) in
  Forall (fun e => 0 <= entryPid e) entries ->
  csv_read (ExportLogAsCsv s) = Some (header_fields :: ((fun e => shown <$> row_fields e) <$> entries)) /\
  Forall (fun e => Forall (fun f => needsFormulaEscape f = false) (shown <$> row_fields e)) entries.
Proof.
  intros entries Hpids.
  assert (E : ExportLogAsCsv s = concat (fmap (M:=list) row_text (header_fields :: (row_fields <$> entries)))).
  { unfold ExportLogAsCsv. fold entries. rewrite fmap_cons. cbn [concat].
    change (row_text header_fields) with csv_header. f_equal. f_equal. rewrite <- list_fmap_compose.
    apply list_fmap_ext. intros i e He. cbn. apply csv_row_text.
    rewrite Forall_forall in Hpids. apply Hpids. by eapply list_elem_of_lookup_2. }
  split.
  - unfold csv_read. rewrite E, read_rows_text.
    + rewrite fmap_cons, <- list_fmap_compose. done.
    + constructor; [done|]. apply Forall_fmap. apply Forall_forall. by intros e _.
    + assert (H : forall rows : list (list (list Z)), (length rows <= length (concat (fmap (M:=list) row_text rows)))%nat).
      { induction rows as [|r rows IH]; cbn; [lia|]. rewrite length_app.
        pose proof (row_text_length r) as [_ Hn]. change (list_fmap _ _ row_text rows) with (row_text <$> rows).
        destruct (row_text r); [done|cbn; lia]. }
      specialize (H (header_fields :: (row_fields <$> entries))). lia.
  - apply Forall_forall. intros e _. apply Forall_fmap, Forall_forall. intros f _. cbn. unfold shown.
    by destruct (needsFormulaEscape f) eqn:Ef.
Qed.
End ExportedLog.

(** ** The process cache *)

Section Staleness.
(** The operating system at each moment of the steady clock. *)
Context (os : Z -> Processes).

(** Every cached answer is one that the system gave at a moment not after
    [now], [kProcessInfoTTL] before it expires. *)
Definition answers_of_system (now : Z) (s : ProcessTracker) : Prop :=
  forall processId info expiresAt, processInfoCache s !! processId = Some (info, expiresAt) ->
    exists t, t <= now /\ expiresAt = t + kProcessInfoTTL /\ info = @ResolveProcessUncached (os t) processId.

(** The tracker's answer for a process is what the system said within the last
    [kProcessInfoTTL], and the cache stays so.  The cache knows a process by
    its id alone: an answer that has not expired is given again whatever the
    id names by then, so a new process that got the id within that time is
    checked as the old one. *)
Theorem ResolveProcess_staleness now before processId s :
  before <= now -> answers_of_system before s ->
  let (s', info) := @ResolveProcess (os now) now processId s in
  answers_of_system now s' /\
  (exists t, now - kProcessInfoTTL < t <= now /\ info = @ResolveProcessUncached (os t) processId) /\
  (forall cached expiresAt, processInfoCache s !! processId = Some (cached, expiresAt) -> now < expiresAt ->
     info = cached /\ s' = s).
Proof.
  intros Hb Hs. assert (Hs' : answers_of_system now s).
  { intros p i e Hp. destruct (Hs p i e Hp) as (t & ? & ?). exists t. split; [lia|done]. }
  assert (Httl : 0 < kProcessInfoTTL) by (unfold kProcessInfoTTL, ticks_per_second; lia).
  assert (Hfresh : answers_of_system now {|
    processInfoCache := <[processId := (@ResolveProcessUncached (os now) processId, now + kProcessInfoTTL)]> (processInfoCache s);
    accessLog := accessLog s; rules := rules s |}).
  { intros p i e. cbn. rewrite lookup_insert_Some. intros [[<- [= <- <-]]|[_ Hp]]; [|by apply Hs'].
    exists now. split; [lia|done]. }
  unfold ResolveProcess. destruct (processInfoCache s !! processId) as [[info e]|] eqn:E.
  - destruct (Z.ltb_spec now e) as [Hlt|Hge].
    + split; [done|]. destruct (Hs _ _ _ E) as (t & Ht & -> & ->). split; [exists t; split; [lia|done]|].
      by intros ? ? [= <- <-].
    + split; [done|]. split; [exists now; split; [lia|done]|]. intros ? ? [= <- <-]. lia.
  - split; [done|]. split; [exists now; split; [lia|done]|]. done.
Qed.
End Staleness.

(** ** Witnesses *)

Definition sample_entry (processId : Z) (path : string) : AccessLogEntry := {|
  entryPid := processId; processName := L "a.exe"; filePath := L path; operation := OpWrite;
  timestamp := 1709164800 * ticks_per_second; allowed := true; reason := []
|}.

Definition sample_entries : list AccessLogEntry :=
  [sample_entry 4 "x"; sample_entry 5 "=1+1,2"; sample_entry 6 "y"].

Lemma GetRecentEntries_newest_witness :
  (0 < 2)%nat /\ GetRecentEntries 10 (log_of 2 sample_entries) = [sample_entry 5 "=1+1,2"; sample_entry 6 "y"].
Proof. split; [lia|]. apply (GetRecentEntries_newest 2 sample_entries 10). lia. Defined.

(** The pattern that means "contains" does not match a text that contains. *)
Lemma WildcardMatch_meaning_witness :
  contains (L "secret") (L "a secret file") = true /\
  ~ WildcardMatch (W := mem_win32) (L "*secret*") (L "a secret file") = true /\
  WildcardMatch (W := mem_win32) (L "*file") (L "a secret FILE") = true.
Proof.
  split; [vm_compute; reflexivity|]. split.
  - intros H.
    apply (proj1 (proj2 (WildcardMatch_meaning (W := mem_win32) ltac:(vm_compute; reflexivity) (L "*secret*") (L "a secret file")))
             (L "secret*") ltac:(vm_compute; reflexivity)) in H.
    apply suffix_spec in H. vm_compute in H. discriminate.
  - apply (proj1 (proj2 (WildcardMatch_meaning (W := mem_win32) ltac:(vm_compute; reflexivity) (L "*file") (L "a secret FILE")))
             (L "file") ltac:(vm_compute; reflexivity)).
    apply suffix_spec. vm_compute. reflexivity.
Defined.

Definition sample_tracker : ProcessTracker :=
  {| processInfoCache := ∅; accessLog := log_of 2 sample_entries; rules := [] |}.

Lemma ExportLogAsCsv_reads_back_witness :
  csv_read (ExportLogAsCsv (W := mem_win32) sample_tracker) =
    Some [header_fields;
          shown <$> row_fields (W := mem_win32) (sample_entry 5 "=1+1,2");
          shown <$> row_fields (W := mem_win32) (sample_entry 6 "y")].
Proof.
  apply (proj1 (ExportLogAsCsv_reads_back (W := mem_win32) sample_tracker
    ltac:(apply (bool_decide_unpack _); vm_compute; exact I))).
Defined.

(** A system where process 9 is one program at first, and another later. *)
Definition reusing_system (t : Z) : Processes := {|
  process_handle := Z; token := unit; sid := unit;
  OpenProcess := fun _ p => Some p;
  QueryFullProcessImageNameW := fun _ => Some (if t <? 100 then L "C:\good.exe" else L "C:\bad.exe");
  has_NtQueryInformationProcess := false;
  NtQueryPebBaseAddress := fun _ => None;
  ReadProcessMemory := fun _ _ _ => None;
  OpenProcessToken := fun _ => None;
  TokenUser := fun _ => None;
  TokenIsElevated := fun _ => None;
  LookupAccountSidW := fun _ => None;
  ConvertSidToStringSidW := fun _ => None
|}.

Lemma ResolveProcess_staleness_witness :
  let s := fst (@ResolveProcess (reusing_system 50) 50 9 (new_tracker 4)) in
  answers_of_system reusing_system 50 s /\
  name (snd (@ResolveProcess (reusing_system 200) 200 9 s)) = L "good.exe".
Proof.
  intros s.
  assert (H0 : answers_of_system reusing_system 50 (new_tracker 4)) by (intros p i e H; unfold new_tracker in H; cbn [processInfoCache] in H; by rewrite lookup_empty in H).
  pose proof (ResolveProcess_staleness reusing_system 50 50 9 (new_tracker 4) ltac:(lia) H0) as H1.
  assert (Hs : answers_of_system reusing_system 50 s).
  { unfold s. revert H1. by destruct (@ResolveProcess (reusing_system 50) 50 9 (new_tracker 4)); intros [? _]. }
  split; [exact Hs|].
  pose proof (ResolveProcess_staleness reusing_system 200 50 9 s ltac:(lia) Hs) as H2.
  destruct (@ResolveProcess (reusing_system 200) 200 9 s) as [s2 info].
  destruct H2 as (_ & _ & H2). destruct (H2 (@ResolveProcessUncached (reusing_system 50) 9) (50 + kProcessInfoTTL)) as [-> _];
    vm_compute; reflexivity.
Defined.
