(* ===== verification/EntryHost.v ===== *)
(** * What the copies of entries need of the host

    The calls that [EntryCopy.cpp], [LayerPath.cpp], [CopyUp.cpp] and
    [DirectoryRename.cpp] make beyond those of [Win32]: file data at a
    position, sparse and compressed state, streams, extended attributes,
    security, and deletes by handle.  As in [Win32], an open of an existing
    entry only reads the disk.  A handle that a call created is closed by a
    call of its own where the source orders it before another step.  First the
    loops that a machine integer bounds, [run_loop]. *)

From S2P Require Export Prelude Metadata LayerEntry.
Open Scope Z_scope.

(** ** Loops with a bound on a machine integer

    A loop of the source that runs until a call says so has no structural
    measure, and its bound is a 64-bit number.  [eloop] runs a step at most
    [fuel] times, by recursion on the binary form of [fuel], so a bound of
    [2^63] costs nothing.  [eloop_rule] is the rule of such a loop: an
    invariant and a measure below the fuel give the end of the loop. *)

(** A step goes on with a new loop state, or ends the loop with its result. *)
Fixpoint eloop {S A B} (fuel : positive) (step : A -> eff S (A + B)) (a : A) : eff S (A + B) :=
  (let after (r : A + B) (k : A -> eff S (A + B)) : eff S (A + B) :=
     match r with inl a' => k a' | inr b => eret (inr b) end in
   match fuel with
   | xH => step a
   | xO p => let! r := eloop p step a in after r (eloop p step)
   | xI p => let! r0 := step a in
             after r0 (fun a' => let! r := eloop p step a' in after r (eloop p step))
   end)%eff.

(** The result of a loop that ends within its bound; [never] stands for a loop
    that does not. *)
Definition run_loop {S A B} (fuel : positive) (step : A -> eff S (A + B)) (never : B) (a : A) : eff S B :=
  (let! r := eloop fuel step a in
   eret match r with inl _ => never | inr b => b end)%eff.

Section Rule.
Context {S A B : Type} (step : A -> eff S (A + B)).
Context (I : A -> S -> Prop) (m : A -> Z) (Q : S -> B -> Prop).
Hypothesis step_ok : forall a s, I a s ->
  match step a s with
  | (s', inl a') => I a' s' /\ 0 <= m a' < m a
  | (s', inr b) => Q s' b
  end.

(** With any fuel, the loop ends, or its measure is [fuel] lower. *)
Lemma eloop_progress fuel a s :
  I a s ->
  match eloop fuel step a s with
  | (s', inl a') => I a' s' /\ 0 <= m a' <= m a - Zpos fuel
  | (s', inr b) => Q s' b
  end.
Proof using step_ok.
  revert a s. induction fuel as [p IH|p IH|]; intros a s Hi; cbn [eloop]; unfold ebind, eret.
  - pose proof (step_ok a s Hi) as H0. destruct (step a s) as [s1 [a1|b]]; [|exact H0].
    destruct H0 as [Hi1 Hm1]. pose proof (IH a1 s1 Hi1) as H1.
    destruct (eloop p step a1 s1) as [s2 [a2|b]]; [|exact H1]. destruct H1 as [Hi2 Hm2].
    pose proof (IH a2 s2 Hi2) as H2. destruct (eloop p step a2 s2) as [s3 [a3|b]]; [|exact H2].
    destruct H2. split; [done|lia].
  - pose proof (IH a s Hi) as H1. destruct (eloop p step a s) as [s2 [a2|b]]; [|exact H1].
    destruct H1 as [Hi2 Hm2]. pose proof (IH a2 s2 Hi2) as H2.
    destruct (eloop p step a2 s2) as [s3 [a3|b]]; [|exact H2]. destruct H2. split; [done|lia].
  - pose proof (step_ok a s Hi) as H0. destruct (step a s) as [s1 [a1|b]]; [|exact H0].
    destruct H0. split; [done|lia].
Qed.

Lemma eloop_rule fuel a s :
  I a s -> m a < Zpos fuel -> exists s' b, eloop fuel step a s = (s', inr b) /\ Q s' b.
Proof using step_ok.
  intros Hi Hm. pose proof (eloop_progress fuel a s Hi) as H.
  destruct (eloop fuel step a s) as [s' [a'|b]].
  - destruct H as [_ H]. lia.
  - by exists s', b.
Qed.

Lemma run_loop_rule fuel never a s :
  I a s -> m a < Zpos fuel -> exists s' b, run_loop fuel step never a s = (s', b) /\ Q s' b.
Proof using step_ok.
  intros Hi Hm. destruct (eloop_rule fuel a s Hi Hm) as (s' & b & Hr & Hq).
  exists s', b. split; [|done]. unfold run_loop, ebind, eret. by rewrite Hr.
Qed.
End Rule.

(** An invariant of the state alone, kept by every step, is kept by the loop. *)
Lemma run_loop_keeps {S A B} (P : S -> Prop) (step : A -> eff S (A + B)) fuel never a s :
  (forall a s, P s -> P (fst (step a s))) -> P s -> P (fst (run_loop fuel step never a s)).
Proof.
  intros Hstep. assert (He : forall fuel a s, P s -> P (fst (eloop fuel step a s))).
  { induction fuel0 as [p IH|p IH|]; intros a' s' Hs; cbn [eloop]; unfold ebind, eret; cbn beta iota.
    - pose proof (Hstep a' s' Hs) as H0. destruct (step a' s') as [s1 [a1|b]]; [|exact H0].
      pose proof (IH a1 s1 H0) as H1. destruct (eloop p step a1 s1) as [s2 [a2|b]]; [|exact H1].
      exact (IH a2 s2 H1).
    - pose proof (IH a' s' Hs) as H1. destruct (eloop p step a' s') as [s2 [a2|b]]; [|exact H1].
      exact (IH a2 s2 H1).
    - by apply Hstep. }
  intros Hs. unfold run_loop, ebind, eret. pose proof (He fuel a s Hs) as H.
  by destruct (eloop fuel step a s).
Qed.

(** A part [f] of the state that a computation leaves alone. *)
Definition preserves {S X} (f : S -> X) {A} (m : eff S A) : Prop := forall s, f (fst (m s)) = f s.

Section Preserves.
Context {S X : Type} (f : S -> X).

Lemma preserves_ret {A} (a : A) : preserves f (eret a).
Proof. done. Qed.

Lemma preserves_read {A} (g : S -> A) : preserves f (eread g).
Proof. done. Qed.

Lemma preserves_bind {A B} (m : eff S A) (k : A -> eff S B) :
  preserves f m -> (forall a, preserves f (k a)) -> preserves f (ebind m k).
Proof. intros Hm Hk s. unfold ebind. specialize (Hm s). destruct (m s) as [s' a]. by rewrite Hk. Qed.

Lemma preserves_loop {A B} (step : A -> eff S (A + B)) fuel never a :
  (forall a, preserves f (step a)) -> preserves f (run_loop fuel step never a).
Proof.
  intros Hs s. apply (run_loop_keeps (fun s' => f s' = f s)); [|done]. intros a' s' Hf. rewrite <- Hf. apply Hs.
Qed.
End Preserves.

Definition FILE_ATTRIBUTE_SPARSE_FILE : Z := 0x200.
Definition FILE_ATTRIBUTE_COMPRESSED : Z := 0x800.
Definition FILE_ATTRIBUTE_OFFLINE : Z := 0x1000.
Definition FILE_ATTRIBUTE_ENCRYPTED : Z := 0x4000.
Definition FILE_ATTRIBUTE_RECALL_ON_OPEN : Z := 0x40000.
Definition FILE_ATTRIBUTE_PINNED : Z := 0x80000.
Definition FILE_ATTRIBUTE_UNPINNED : Z := 0x100000.
Definition FILE_ATTRIBUTE_RECALL_ON_DATA_ACCESS : Z := 0x400000.

Definition FILE_FLAG_SEQUENTIAL_SCAN : Z := 0x8000000.
Definition FILE_FLAG_DELETE_ON_CLOSE : Z := 0x4000000.
Definition GENERIC_WRITE : Z := 0x40000000.
Definition FILE_LIST_DIRECTORY : Z := 0x1.
Definition FILE_READ_EA : Z := 0x8.
Definition FILE_WRITE_EA : Z := 0x10.
Definition WRITE_DAC : Z := 0x40000.
Definition FILE_SHARE_READ : Z := 0x1.
Definition FILE_SHARE_WRITE : Z := 0x2.
Definition FILE_SHARE_DELETE : Z := 0x4.
Definition share_all : Z := Z.lor FILE_SHARE_READ (Z.lor FILE_SHARE_WRITE FILE_SHARE_DELETE).

Definition ERROR_GEN_FAILURE : Z := 31.
Definition ERROR_SHARING_VIOLATION : Z := 32.
Definition ERROR_HANDLE_EOF : Z := 38.
Definition ERROR_BUSY : Z := 170.
Definition ERROR_MORE_DATA : Z := 234.
Definition ERROR_IO_PENDING : Z := 997.
Definition MAXDWORD : Z := 0xFFFFFFFF.
Definition LLONG_MAX : Z := 2 ^ 63 - 1.

Definition OWNER_SECURITY_INFORMATION : Z := 0x1.
Definition GROUP_SECURITY_INFORMATION : Z := 0x2.
Definition DACL_SECURITY_INFORMATION : Z := 0x4.
Definition SACL_SECURITY_INFORMATION : Z := 0x8.
Definition UNPROTECTED_SACL_SECURITY_INFORMATION : Z := 0x10000000.
Definition UNPROTECTED_DACL_SECURITY_INFORMATION : Z := 0x20000000.
Definition PROTECTED_SACL_SECURITY_INFORMATION : Z := 0x40000000.
Definition PROTECTED_DACL_SECURITY_INFORMATION : Z := 0x80000000.

Definition STATUS_PROCEDURE_NOT_FOUND := ST "PROCEDURE_NOT_FOUND".
Definition STATUS_NO_EAS_ON_FILE := ST "NO_EAS_ON_FILE".
Definition STATUS_NO_MORE_EAS := ST "NO_MORE_EAS".

(** No status of the SDK: the result of a model of a loop or a walk that would
    not end on a host outside its documented behaviour. *)
Definition NEVER_RETURNS := ST "".

Inductive disposition := CREATE_NEW | CREATE_ALWAYS | OPEN_ALWAYS.

(** [WIN32_FILE_ATTRIBUTE_DATA]. *)
Record entry_data := EntryData {
  ed_attributes : Z;
  ed_times : entry_times;
  ed_size_high : Z;
  ed_size_low : Z
}.

Class EntryHost `{W : Win32} := {
  (** The last error, where the source reads it after a function of its own
      that returned false. *)
  GetLastError : disk -> Z;
  GetSystemTimeAsFileTime : disk -> FILETIME;
  (** The number that the SDK gives a status. *)
  nt_code : NTSTATUS -> Z;
  GetCurrentProcessId : Z;
  GetCurrentThreadId : Z;
  (** [CreateFileW] with [OPEN_EXISTING]: path, access, share mode, flags; and
      with another disposition. *)
  OpenSharedW : disk -> wstring -> Z -> Z -> Z -> w32 handle;
  CreateFileW : wstring -> Z -> Z -> disposition -> Z -> eff disk (w32 handle);
  CloseHandle : handle -> eff disk unit;
  (** [ReadFile] and [WriteFile] at the file pointer, which the model passes:
      the bytes read, at most so many, and the count written. *)
  ReadFileAt : disk -> handle -> Z -> Z -> w32 (list Z);
  WriteFileAt : handle -> Z -> list Z -> eff disk (w32 Z);
  (** [SetFilePointerEx] from the start; [SetEndOfFile] at a position. *)
  SetFilePointerEx : disk -> handle -> Z -> w32 unit;
  SetEndOfFile : handle -> Z -> eff disk (w32 unit);
  (** [FSCTL_QUERY_ALLOCATED_RANGES] of an offset and a length with room for
      so many ranges: the ranges returned, and the result. *)
  QueryRanges : disk -> handle -> Z -> Z -> nat -> list (Z * Z) * w32 unit;
  (** [FSCTL_SET_SPARSE], [FSCTL_SET_COMPRESSION], [FileAllocationInfo]. *)
  SetSparseState : handle -> bool -> eff disk (w32 unit);
  SetCompressionState : handle -> eff disk (w32 unit);
  SetAllocationSize : handle -> Z -> eff disk (w32 unit);
  (** [FileStreamInfo] with a buffer of so many bytes: the bytes returned. *)
  GetStreamInformation : disk -> handle -> Z -> w32 (list Z);
  EncryptFileW : wstring -> eff disk (w32 unit);
  (** [GetFileInformationByHandle]: [nFileIndexHigh] and [nFileIndexLow]. *)
  GetFileIndex : disk -> handle -> w32 (Z * Z);
  GetFileTime : disk -> handle -> w32 entry_times;
  GetFileAttributesExW : disk -> wstring -> w32 entry_data;
  (** [FileBasicInfo]: a read of the attributes; a write of the times, the
      change time and the attributes. *)
  GetBasicAttributes : disk -> handle -> w32 Z;
  SetBasicInfo : handle -> entry_times -> Z -> Z -> eff disk (w32 unit);
  (** [FSCTL_SET_REPARSE_POINT]. *)
  SetReparsePoint : handle -> list Z -> eff disk (w32 unit);
  (** Whether ntdll exports both calls; [NtQueryEaFile] from an index or the
      start, and the bytes returned; [NtSetEaFile]. *)
  has_ea_calls : bool;
  NtQueryEaFile : disk -> handle -> option Z -> NTSTATUS * list Z;
  NtSetEaFile : handle -> list Z -> eff disk NTSTATUS;
  (** [FileFullDirectoryInfo] until it fails: the names, and the error. *)
  ListDirectoryNames : disk -> handle -> list wstring * Z;
  (** [FileDispositionInfoEx] with POSIX semantics, [FileDispositionInfo]. *)
  SetDispositionEx : handle -> eff disk (w32 unit);
  SetDisposition : handle -> eff disk (w32 unit);
  (** [GetFinalPathNameByHandleW] with the size it asks for; [None] when a
      call fails. *)
  GetFinalPathNameByHandleW : disk -> handle -> option wstring;
  (** Security descriptors and access lists.  A descriptor's list is [None]
      when it is absent or null. *)
  security : Type;
  access_list : Type;
  is_security_privilege_held : bool;
  GetFileSecuritySize : disk -> wstring -> Z -> Z;
  GetFileSecurityW : disk -> wstring -> Z -> Z -> w32 security;
  SetFileSecurityW : wstring -> Z -> security -> eff disk (w32 unit);
  GetSecurityDescriptorDacl : security -> option access_list;
  GetSecurityDescriptorSacl : security -> option access_list;
  GetNamedSecurityInfoW : disk -> wstring -> Z -> w32 (option access_list * option access_list);
  SetNamedSecurityInfoW : wstring -> Z -> option access_list -> option access_list -> eff disk Z;
  (** The SID of the thread's user; a descriptor with a protected DACL of one
      entry that allows a mask to a SID; its write through a handle. *)
  GetTokenUser : disk -> w32 (list Z);
  MakeProtectedDacl : Z -> list Z -> w32 security;
  SetKernelObjectSecurity : handle -> security -> eff disk (w32 unit)
}.

Section Status.
Context `{W : Win32} `{H : !EntryHost}.

(** [StatusOfFailedCall(fallback)] after a call that failed with [e]. *)
Definition failed_status (e fallback : Z) : NTSTATUS := StatusFromWin32Error e fallback.

(** [StatusOfFailedCall(fallback)] after a function of the engine that
    returned false. *)
Definition StatusOfFailedCall (d : disk) (fallback : Z) : NTSTATUS :=
  StatusFromWin32Error (GetLastError d) fallback.

(** [if (!NT_SUCCESS(status)) return status;] *)
Definition then_status {St} (m : eff St NTSTATUS) (k : eff St NTSTATUS) : eff St NTSTATUS :=
  (let! status := m in if NT_SUCCESS status then k else eret status)%eff.

Definition last_error {A} (r : w32 A) : Z := match r with Ok _ => 0 | Err e => e end.

(** [DropSaclWithoutPrivilege]. *)
Definition IsSecurityPrivilegeHeld : bool := is_security_privilege_held.

Definition DropSaclWithoutPrivilege (securityInformation : Z) : Z :=
  if IsSecurityPrivilegeHeld then securityInformation
  else Z.ldiff securityInformation SACL_SECURITY_INFORMATION.
End Status.

Notation "'step!' c1 'in' c2" := (then_status c1 c2)
  (at level 10, c1 at level 100, c2 at level 200) : eff_scope.
