(* ===== verification/Privileges.v ===== *)
(** * Privileges of the process

    [impl/ElevationUtil.cpp]: the privileges that the engine enables in the
    token of its process, each of them once, and the answer on the security
    privilege, which [EntryHost] has as one constant.  [call_once] makes each
    first call one step; the calls of several threads come in some order. *)
From S2P Require Export EntryHost.
Open Scope Z_scope.

Definition SE_CREATE_SYMBOLIC_LINK_NAME : wstring := L "SeCreateSymbolicLinkPrivilege".
Definition SE_RESTORE_NAME : wstring := L "SeRestorePrivilege".
Definition SE_BACKUP_NAME : wstring := L "SeBackupPrivilege".
Definition SE_SECURITY_NAME : wstring := L "SeSecurityPrivilege".

(** The token opened to adjust it, [None] when that fails; the number of a
    privilege; the result of [AdjustTokenPrivileges] and the last error after
    it; the close of the token. *)
Class TokenHost `{W : Win32} := {
  OpenTokenToAdjust : eff disk (option Z);
  LookupPrivilegeValueW : disk -> wstring -> option Z;
  AdjustTokenPrivileges : Z -> Z -> eff disk (bool * Z);
  CloseToken : Z -> eff disk unit
}.

(** The statics of [EnableFileSystemPrivileges] and [IsSecurityPrivilegeHeld]:
    the first call of each has run, and [held]. *)
Record OnceFlags := { enabledOnce : bool; askedOnce : bool; securityHeld : bool }.

Definition no_calls : OnceFlags := {| enabledOnce := false; askedOnce := false; securityHeld := false |}.

Section Privileges.
Context `{W : Win32} `{K : !TokenHost}.

Definition EnablePrivilege (privName : wstring) : eff disk bool :=
  (let! token := OpenTokenToAdjust in
   match token with
   | None => eret false
   | Some token =>
       let! luid := eread (fun d => LookupPrivilegeValueW d privName) in
       match luid with
       | None => do! CloseToken token in eret false
       | Some luid =>
           let! (ok, err) := AdjustTokenPrivileges token luid in
           do! CloseToken token in
           eret (ok && (err =? ERROR_SUCCESS))
       end
   end)%eff.

Definition on_token {B} (m : eff disk B) : eff (disk * OnceFlags) B := fun s =>
  let (d, b) := m (fst s) in ((d, snd s), b).

Definition IsSecurityPrivilegeHeld : eff (disk * OnceFlags) bool := fun s =>
  if askedOnce (snd s) then (s, securityHeld (snd s))
  else
    (let! held := on_token (EnablePrivilege SE_SECURITY_NAME) in
     fun s => ((fst s, {| enabledOnce := enabledOnce (snd s); askedOnce := true; securityHeld := held |}), held))%eff s.

Definition EnableFileSystemPrivileges : eff (disk * OnceFlags) unit := fun s =>
  if enabledOnce (snd s) then (s, tt)
  else
    (do! on_token (EnablePrivilege SE_CREATE_SYMBOLIC_LINK_NAME) in
     do! on_token (EnablePrivilege SE_RESTORE_NAME) in
     do! on_token (EnablePrivilege SE_BACKUP_NAME) in
     do! IsSecurityPrivilegeHeld in
     fun s => ((fst s, {| enabledOnce := true; askedOnce := askedOnce (snd s); securityHeld := securityHeld (snd s) |}), tt))%eff s.

Definition DropSaclWithoutPrivilege (securityInformation : Z) : eff (disk * OnceFlags) Z :=
  (let! held := IsSecurityPrivilegeHeld in
   eret (if held : bool then securityInformation else Z.ldiff securityInformation SACL_SECURITY_INFORMATION))%eff.

(** ** Sequences *)

Inductive privilege_op := OpEnable | OpAsk | OpDropSacl (securityInformation : Z).

(** An ask, [None] for a call that is none. *)
Definition run_privilege_op (op : privilege_op) : eff (disk * OnceFlags) (option bool) :=
  match op with
  | OpEnable => do! EnableFileSystemPrivileges in eret None
  | OpAsk => let! held := IsSecurityPrivilegeHeld in eret (Some held)
  | OpDropSacl info =>
      let! kept := DropSaclWithoutPrivilege info in
      eret (if has_attr info SACL_SECURITY_INFORMATION then Some (has_attr kept SACL_SECURITY_INFORMATION) else None)
  end%eff.

Fixpoint run_privileges (ops : list privilege_op) : eff (disk * OnceFlags) (list bool) :=
  match ops with
  | [] => eret []
  | op :: rest =>
      let! answer := run_privilege_op op in
      let! answers := run_privileges rest in
      eret (option_list answer ++ answers)
  end%eff.
End Privileges.

(** ** Once *)
Section Once.
Context `{W : Win32} `{K : !TokenHost}.

(** The privileges that a sequence still asks for, in order. *)
Fixpoint still_asked (enabled asked : bool) (ops : list privilege_op) : list wstring :=
  match ops with
  | [] => []
  | OpEnable :: rest =>
      (if enabled then []
       else [SE_CREATE_SYMBOLIC_LINK_NAME; SE_RESTORE_NAME; SE_BACKUP_NAME] ++ (if asked then [] else [SE_SECURITY_NAME]))
      ++ still_asked true true rest
  | _ :: rest => (if asked then [] else [SE_SECURITY_NAME]) ++ still_asked enabled true rest
  end.

Definition enable_all (names : list wstring) (d : disk) : disk := foldl (fun d name => fst (EnablePrivilege name d)) d names.

Lemma still_asked_done ops : still_asked true true ops = [].
Proof. by induction ops as [|[| |] ops IH]. Qed.

(** The privileges of the first call to enable, and the security privilege. *)
Lemma still_asked_files asked ops : asked = true ->
  still_asked false asked ops = [] \/
  still_asked false asked ops = [SE_CREATE_SYMBOLIC_LINK_NAME; SE_RESTORE_NAME; SE_BACKUP_NAME].
Proof.
  intros ->. induction ops as [|[| |] ops IH]; cbn; [by left| |exact IH|exact IH]. right. by rewrite still_asked_done.
Qed.

Lemma still_asked_once ops : NoDup (still_asked false false ops).
Proof.
  destruct ops as [|[| |] ops]; cbn [still_asked app]; [constructor| | |].
  - rewrite still_asked_done. apply (bool_decide_unpack (NoDup _)). by vm_compute.
  - destruct (still_asked_files true ops eq_refl) as [->| ->]; apply (bool_decide_unpack (NoDup _)); by vm_compute.
  - destruct (still_asked_files true ops eq_refl) as [->| ->]; apply (bool_decide_unpack (NoDup _)); by vm_compute.
Qed.

Lemma sacl_of_kept (held : bool) info : has_attr info SACL_SECURITY_INFORMATION = true ->
  has_attr (if held then info else Z.ldiff info SACL_SECURITY_INFORMATION) SACL_SECURITY_INFORMATION = held.
Proof.
  intros Hi. destruct held; [done|]. unfold has_attr. replace (Z.land _ _) with 0; [done|].
  apply Z.bits_inj'. intros n Hn. rewrite Z.land_spec, Z.ldiff_spec, Z.bits_0. by destruct (Z.testbit _ n), (Z.testbit _ n).
Qed.

(** An ask, whatever was asked before. *)
Lemma ask_once d flags :
  let '((d', flags'), held) := IsSecurityPrivilegeHeld (d, flags) in
  d' = enable_all (if askedOnce flags then [] else [SE_SECURITY_NAME]) d /\
  flags' = {| enabledOnce := enabledOnce flags; askedOnce := true; securityHeld := held |} /\
  (askedOnce flags = true -> held = securityHeld flags).
Proof.
  unfold IsSecurityPrivilegeHeld. cbn [fst snd]. destruct flags as [enabled [|] held0]; cbn [askedOnce enabledOnce securityHeld]; [done|].
  unfold ebind, on_token, enable_all. cbn [fst snd foldl]. by destruct (EnablePrivilege SE_SECURITY_NAME d).
Qed.

Lemma enable_once d flags : (enabledOnce flags = true -> askedOnce flags = true) ->
  let '((d', flags'), _) := EnableFileSystemPrivileges (d, flags) in
  d' = enable_all (still_asked (enabledOnce flags) (askedOnce flags) [OpEnable]) d /\
  enabledOnce flags' = true /\ askedOnce flags' = true /\
  (askedOnce flags = true -> securityHeld flags' = securityHeld flags).
Proof.
  intros Hf. unfold EnableFileSystemPrivileges. cbn [fst snd]. destruct (enabledOnce flags) eqn:He; [by auto|].
  unfold ebind, on_token. cbn [fst snd].
  destruct (EnablePrivilege SE_CREATE_SYMBOLIC_LINK_NAME d) as [d1 b1] eqn:E1. cbn [fst snd].
  destruct (EnablePrivilege SE_RESTORE_NAME d1) as [d2 b2] eqn:E2. cbn [fst snd].
  destruct (EnablePrivilege SE_BACKUP_NAME d2) as [d3 b3] eqn:E3. cbn [fst snd].
  pose proof (ask_once d3 flags) as Ha. destruct (IsSecurityPrivilegeHeld (d3, flags)) as [[d4 flags4] held].
  destruct Ha as (-> & -> & Hheld). cbn [fst snd askedOnce enabledOnce securityHeld still_asked]. rewrite app_nil_r.
  split; [|by auto]. unfold enable_all. cbn [foldl app]. by rewrite E1; cbn [fst]; rewrite E2; cbn [fst]; rewrite E3.
Qed.

Lemma enable_all_app l1 l2 d : enable_all (l1 ++ l2) d = enable_all l2 (enable_all l1 d).
Proof. apply foldl_app. Qed.

Lemma run_once ops d flags : (enabledOnce flags = true -> askedOnce flags = true) ->
  let '((d', flags'), answers) := run_privileges ops (d, flags) in
  d' = enable_all (still_asked (enabledOnce flags) (askedOnce flags) ops) d /\
  Forall (fun answer => answer = securityHeld flags') answers /\
  (askedOnce flags = true -> securityHeld flags' = securityHeld flags).
Proof.
  revert d flags. induction ops as [|op ops IH]; intros d flags Hf; [by cbn|]. cbn [run_privileges]. unfold ebind at 1.
  assert (Hop : let '((d1, flags1), answer) := run_privilege_op op (d, flags) in
    d1 = enable_all (still_asked (enabledOnce flags) (askedOnce flags) [op]) d /\
    askedOnce flags1 = true /\ enabledOnce flags1 = (match op with OpEnable => true | _ => enabledOnce flags end) /\
    (forall a, answer = Some a -> a = securityHeld flags1) /\ (askedOnce flags = true -> securityHeld flags1 = securityHeld flags)).
  { destruct op as [| |info]; cbn [run_privilege_op]; unfold DropSaclWithoutPrivilege, ebind, eret.
    - pose proof (enable_once d flags Hf) as He. destruct (EnableFileSystemPrivileges (d, flags)) as [[d1 flags1] u].
      destruct He as (-> & He & Ha & Hh). by split_and!.
    - pose proof (ask_once d flags) as Ha. destruct (IsSecurityPrivilegeHeld (d, flags)) as [[d1 flags1] held].
      destruct Ha as (-> & -> & Hh). cbn [still_asked]. rewrite app_nil_r. split_and!; try done. by intros a [= <-].
    - pose proof (ask_once d flags) as Ha. destruct (IsSecurityPrivilegeHeld (d, flags)) as [[d1 flags1] held].
      destruct Ha as (-> & -> & Hh). cbn [still_asked]. rewrite app_nil_r. split_and!; try done.
      intros a. destruct (has_attr info _) eqn:Ei; [|done]. intros [= <-]. by apply sacl_of_kept. }
  destruct (run_privilege_op op (d, flags)) as [[d1 flags1] answer]. destruct Hop as (-> & Ha & He & Hans & Hh).
  unfold ebind. specialize (IH (enable_all (still_asked (enabledOnce flags) (askedOnce flags) [op]) d) flags1 ltac:(done)).
  destruct (run_privileges ops _) as [[d2 flags2] answers]. destruct IH as (-> & Hall & Hheld). specialize (Hheld Ha).
  rewrite Ha, He in *. cbn [eret]. split; [|split].
  - rewrite <- enable_all_app. f_equal. destruct op; cbn [still_asked]; rewrite ?app_nil_r; done.
  - apply Forall_app. split; [|done]. destruct answer as [a|]; [|constructor]. repeat constructor. rewrite Hheld. by apply Hans.
  - intros Hasked. rewrite Hheld. by apply Hh.
Qed.

(** Whatever is called in any order, each privilege is asked for at most once,
    and every answer on the security privilege, of a question or of a drop of
    the SACL, is the same. *)
Theorem privileges_are_asked_once ops d :
  let '((d', flags), answers) := run_privileges ops (d, no_calls) in
  d' = enable_all (still_asked false false ops) d /\ NoDup (still_asked false false ops) /\
  Forall (fun answer => answer = securityHeld flags) answers.
Proof.
  pose proof (run_once ops d no_calls ltac:(done)) as Hr. destruct (run_privileges ops (d, no_calls)) as [[d' flags] answers].
  destruct Hr as (-> & Hall & _). split_and!; [done|apply still_asked_once|done].
Qed.
End Once.
