(* ===== verification/EntryCopy.v ===== *)
(** * Copies of one entry between layers

    [EntryCopy.cpp]: the data of a file with its holes, its streams, its
    extended attributes, reparse points, times and attributes, and the record
    that a copy gets. *)
From S2P Require Export EntryHost.
Open Scope Z_scope.

Inductive CopiedEntryRecord := NewFromSource | CarriedFromSource.
Inductive NewUpperEntryKind := NewFile | NewDirectory.
Inductive RangeQuery := Complete | More | Refused.

Record EntryCopyPolicy := { record : CopiedEntryRecord; policyConfig : LayerConfig }.
Record SourceEntry := { sourcePath : wstring; sourceAttributes : Z }.

Definition kInitialStreamListSize : Z := 64 * 1024.
Definition kCopyBufferSize : Z := 64 * 1024.
Definition kExtendedAttributeBufferSize : Z := 64 * 1024.

(** [for (x : l) { status = visit(x); if (!NT_SUCCESS(status)) return status; }] *)
Fixpoint visit_all {St A} (visit : A -> eff St NTSTATUS) (l : list A) : eff St NTSTATUS :=
  (match l with
   | [] => eret STATUS_SUCCESS
   | a :: l' => step! visit a in visit_all visit l'
   end)%eff.

(** ** Attributes *)

Definition HasFileAttribute (attrs flag : Z) : bool :=
  negb (attrs =? INVALID_FILE_ATTRIBUTES) && has_attr attrs flag.

Definition AttributesOrNone (attributes : Z) : option Z :=
  if attributes =? INVALID_FILE_ATTRIBUTES then None else Some attributes.

Definition MayHoldRemoteData (attributes : Z) : bool :=
  has_attr attributes
    (Z.lor FILE_ATTRIBUTE_REPARSE_POINT (Z.lor FILE_ATTRIBUTE_OFFLINE
       (Z.lor FILE_ATTRIBUTE_RECALL_ON_DATA_ACCESS FILE_ATTRIBUTE_RECALL_ON_OPEN))).

Definition AttributesFileBasicInfoCanSet (attributes : Z) : Z :=
  let settable :=
    Z.lor FILE_ATTRIBUTE_READONLY (Z.lor FILE_ATTRIBUTE_HIDDEN (Z.lor FILE_ATTRIBUTE_SYSTEM
      (Z.lor FILE_ATTRIBUTE_ARCHIVE (Z.lor FILE_ATTRIBUTE_TEMPORARY
        (Z.lor FILE_ATTRIBUTE_NOT_CONTENT_INDEXED FILE_ATTRIBUTE_NO_SCRUB_DATA))))) in
  let kept := Z.land attributes settable in
  if has_attr attributes FILE_ATTRIBUTE_DIRECTORY then Z.lor kept FILE_ATTRIBUTE_DIRECTORY
  else if kept =? 0 then FILE_ATTRIBUTE_NORMAL else kept.

(** The bits that [WriteOwnAttributes] lets through. *)
Definition own_settable : Z :=
  Z.lor FILE_ATTRIBUTE_READONLY (Z.lor FILE_ATTRIBUTE_HIDDEN (Z.lor FILE_ATTRIBUTE_SYSTEM
    (Z.lor FILE_ATTRIBUTE_ARCHIVE (Z.lor FILE_ATTRIBUTE_TEMPORARY (Z.lor FILE_ATTRIBUTE_OFFLINE
      (Z.lor FILE_ATTRIBUTE_NOT_CONTENT_INDEXED (Z.lor FILE_ATTRIBUTE_NO_SCRUB_DATA
        (Z.lor FILE_ATTRIBUTE_PINNED (Z.lor FILE_ATTRIBUTE_UNPINNED FILE_ATTRIBUTE_DIRECTORY))))))))).

Definition NewUpperEntryKindOf (attributes : Z) : NewUpperEntryKind :=
  if has_attr attributes FILE_ATTRIBUTE_DIRECTORY then NewDirectory else NewFile.

Section Copy.
Context `{W : Win32} `{J : Json} `{H : !EntryHost}.

(** ** The record of a copy *)

Definition MakeIndexNumber (high low : Z) : Z := Z.lor (Z.shiftl high 32) low.

Definition TryGetStableIndexNumberFromHandle (d : disk) (h : handle) : option Z :=
  match GetFileIndex d h with Ok (high, low) => Some (MakeIndexNumber high low) | Err _ => None end.

Definition TryGetStableIndexNumberFromPath (d : disk) (path : wstring) : option Z :=
  let extendedPath := WithExtendedPrefix path in
  match GetFileAttributesW d extendedPath with
  | Err _ => None
  | Ok attrs =>
      let flags := Z.lor (if has_attr attrs FILE_ATTRIBUTE_DIRECTORY then FILE_FLAG_BACKUP_SEMANTICS else 0)
                         (if has_attr attrs FILE_ATTRIBUTE_REPARSE_POINT then FILE_FLAG_OPEN_REPARSE_POINT else 0) in
      match OpenExistingW d extendedPath FILE_READ_ATTRIBUTES flags with
      | Err _ => None
      | Ok h => TryGetStableIndexNumberFromHandle d h
      end
  end.

Definition AddSourceFileId (d : disk) (metadata : LayerMountMetadata) (path : wstring) : LayerMountMetadata :=
  match TryGetStableIndexNumberFromPath d path with
  | None => metadata
  | Some index =>
      {| opaque := opaque metadata; metacopy := metacopy metadata; redirect := redirect metadata;
         copyUpTimestamp := copyUpTimestamp metadata; originLayer := originLayer metadata;
         hasStableIndexNumber := true; stableIndexNumber := index |}
  end.

Definition CarriedCopyUpMetadata (d : disk) (path : wstring) (config : LayerConfig) : LayerMountMetadata :=
  let metadata := ReadLayerMountMetadata d path (Some config) in
  if hasStableIndexNumber metadata then metadata else AddSourceFileId d metadata path.

Definition MakeCopyUpMetadata (d : disk) (path : wstring) : LayerMountMetadata :=
  AddSourceFileId d
    {| opaque := false; metacopy := false; redirect := [];
       copyUpTimestamp := GetSystemTimeAsFileTime d; originLayer := path;
       hasStableIndexNumber := false; stableIndexNumber := 0 |} path.

Definition CopiedEntryMetadata (d : disk) (path : wstring) (r : CopiedEntryRecord) (config : LayerConfig)
  : LayerMountMetadata :=
  match r with
  | CarriedFromSource => CarriedCopyUpMetadata d path config
  | NewFromSource => MakeCopyUpMetadata d path
  end.

(** [MetadataStore::WriteLayerMountMetadata] under the engine's own process. *)
Definition write_record (path : wstring) (metadata : LayerMountMetadata) (config : LayerConfig) : eff disk bool :=
  WriteLayerMountMetadata GetCurrentProcessId GetCurrentThreadId path metadata (Some config).

Definition RemoveNewUpperEntry (upperPath : wstring) (kind : NewUpperEntryKind) : eff disk unit :=
  (let extendedPath := WithExtendedPrefix upperPath in
   match kind with
   | NewDirectory => do! RemoveDirectoryW extendedPath in eret tt
   | NewFile => do! DeleteFileW extendedPath in eret tt
   end)%eff.

Definition WriteCopyUpRecordOrRemoveEntry (upperPath : wstring) (metadata : LayerMountMetadata)
    (kind : NewUpperEntryKind) (config : LayerConfig) : eff disk NTSTATUS :=
  (let! written := write_record upperPath metadata config in
   if written then eret STATUS_SUCCESS
   else
     let! err := eread GetLastError in
     do! RemoveNewUpperEntry upperPath kind in
     eret (StatusFromWin32Error err ERROR_WRITE_FAULT))%eff.

(** ** File data *)

(** The file pointer of a handle is passed as a position. *)
Definition WriteChunk (dst : handle) (position : Z) (data : list Z) : eff disk NTSTATUS :=
  (let! written := WriteFileAt dst position data in
   eret match written with
        | Err e => failed_status e ERROR_WRITE_FAULT
        | Ok n => if n =? Z.of_nat (length data) then STATUS_SUCCESS
                  else NtStatusFromWin32 ERROR_WRITE_FAULT
        end)%eff.

(** One pass of the loop of [CopyBytes]; the loop state is [bytesCopied]. *)
Definition copy_chunk (src dst : handle) (from to limit bytesCopied : Z)
  : eff disk (Z + (NTSTATUS * Z)) :=
  (if negb (bytesCopied <? limit) then eret (inr (STATUS_SUCCESS, bytesCopied))
   else
     let left := limit - bytesCopied in
     let chunk := if left <? kCopyBufferSize then left else kCopyBufferSize in
     let! read := eread (fun d => ReadFileAt d src (from + bytesCopied) chunk) in
     match read with
     | Err e => eret (inr (failed_status e ERROR_READ_FAULT, bytesCopied))
     | Ok [] => eret (inr (STATUS_SUCCESS, bytesCopied))
     | Ok buffer =>
         let! status := WriteChunk dst (to + bytesCopied) buffer in
         if negb (NT_SUCCESS status) then eret (inr (status, bytesCopied))
         else eret (inl (bytesCopied + Z.of_nat (length buffer)))
     end)%eff.

(** The status and [bytesCopied].  Every pass copies a byte at least, so
    [2^63] passes are enough for a [LONGLONG] limit. *)
Definition CopyBytes (src dst : handle) (from to limit : Z) : eff disk (NTSTATUS * Z) :=
  run_loop (2 ^ 63) (copy_chunk src dst from to limit) (NEVER_RETURNS, 0) 0.

Definition CopyBytesToEnd (src dst : handle) : eff disk NTSTATUS :=
  (let! r := CopyBytes src dst 0 0 LLONG_MAX in eret (fst r))%eff.

Definition CopyBytesFromStart (src dst : handle) : eff disk NTSTATUS :=
  (let! sought := eread (fun d => (SetFilePointerEx d src 0, SetFilePointerEx d dst 0)) in
   match sought with
   | (Err e, _) | (Ok _, Err e) => eret (failed_status e ERROR_SEEK)
   | (Ok _, Ok _) => CopyBytesToEnd src dst
   end)%eff.

Definition CopyAllocatedRange (src dst : handle) (range : Z * Z) : eff disk (NTSTATUS * Z) :=
  (let! sought := eread (fun d => (SetFilePointerEx d src (fst range), SetFilePointerEx d dst (fst range))) in
   match sought with
   | (Err e, _) | (Ok _, Err e) => eret (failed_status e ERROR_SEEK, 0)
   | (Ok _, Ok _) => CopyBytes src dst (fst range) (fst range) (snd range)
   end)%eff.

Definition QueryAllocatedRanges (d : disk) (src : handle) (offset length : Z) (capacity : nat)
  : RangeQuery * list (Z * Z) :=
  let (ranges, result) := QueryRanges d src offset length capacity in
  (match result with
   | Ok _ => Complete
   | Err e => if e =? ERROR_MORE_DATA then More else Refused
   end, ranges).

(** The loop over the ranges of one answer: [Some] when the copy is over. *)
Fixpoint copy_ranges (src dst : handle) (ranges : list (Z * Z)) : eff disk (option NTSTATUS) :=
  (match ranges with
   | [] => eret None
   | range :: ranges' =>
       let! (status, bytesCopied) := CopyAllocatedRange src dst range in
       if negb (NT_SUCCESS status) then eret (Some status)
       else if bytesCopied <? snd range then eret (Some STATUS_SUCCESS)
       else copy_ranges src dst ranges'
   end)%eff.

Definition kRangeCapacity : nat := 64.

(** One pass of the loop of [CopyAllocatedRanges]; the loop state is
    [query.FileOffset], the result the status and [rangesRefused]. *)
Definition copy_range_query (src dst : handle) (srcSize offset : Z) : eff disk (Z + (NTSTATUS * bool)) :=
  (if negb (offset <? srcSize) then eret (inr (STATUS_SUCCESS, false))
   else
     let! (result, ranges) := eread (fun d => QueryAllocatedRanges d src offset (srcSize - offset) kRangeCapacity) in
     match result with
     | Refused => eret (inr (STATUS_SUCCESS, true))
     | _ =>
         let! over := copy_ranges src dst ranges in
         match over with
         | Some status => eret (inr (status, false))
         | None =>
             match result, last ranges with
             | Complete, _ | _, None => eret (inr (STATUS_SUCCESS, false))
             | _, Some (lastOffset, lastLength) => eret (inl (lastOffset + lastLength))
             end
         end
     end)%eff.

Definition CopyAllocatedRanges (src dst : handle) (srcSize : Z) : eff disk (NTSTATUS * bool) :=
  run_loop (2 ^ 63) (copy_range_query src dst srcSize) (NEVER_RETURNS, false) 0.

Definition SetEndOfFileIfSizeDiffers (dst : handle) (size : Z) : eff disk NTSTATUS :=
  (let! dstSize := eread (fun d => GetFileSizeEx d dst) in
   match dstSize with
   | Err e => eret (failed_status e ERROR_READ_FAULT)
   | Ok n =>
       if n =? size then eret STATUS_SUCCESS
       else
         let! sought := eread (fun d => SetFilePointerEx d dst size) in
         match sought with
         | Err e => eret (failed_status e ERROR_WRITE_FAULT)
         | Ok _ =>
             let! ended := SetEndOfFile dst size in
             eret match ended with Err e => failed_status e ERROR_WRITE_FAULT | Ok _ => STATUS_SUCCESS end
         end
   end)%eff.

Definition IsSparseHandle (d : disk) (h : handle) : bool :=
  match GetHandleAttributes d h with
  | Ok attrs => HasFileAttribute attrs FILE_ATTRIBUTE_SPARSE_FILE
  | Err _ => false
  end.

(** Both file pointers are at the start, as every caller leaves them. *)
Definition CopyFileDataKeepingHoles (src dst : handle) : eff disk NTSTATUS :=
  (let! keepsHoles := eread (fun d =>
     match GetHandleAttributes d src with
     | Err _ => false
     | Ok attrs => HasFileAttribute attrs FILE_ATTRIBUTE_SPARSE_FILE && negb (MayHoldRemoteData attrs) &&
                   IsSparseHandle d dst
     end) in
   if negb keepsHoles then CopyBytesToEnd src dst
   else
     let! size := eread (fun d => GetFileSizeEx d src) in
     match size with
     | Err e => eret (failed_status e ERROR_READ_FAULT)
     | Ok srcSize =>
         let! (status, rangesRefused) := CopyAllocatedRanges src dst srcSize in
         if negb (NT_SUCCESS status) then eret status
         else if (rangesRefused : bool) then CopyBytesFromStart src dst
         else SetEndOfFileIfSizeDiffers dst srcSize
     end)%eff.

Definition OpenSourceFileForCopy (d : disk) (path : wstring) : w32 handle :=
  OpenSharedW d (WithExtendedPrefix path) GENERIC_READ FILE_SHARE_READ
    (Z.lor FILE_FLAG_SEQUENTIAL_SCAN FILE_FLAG_BACKUP_SEMANTICS).

(** ** Sparse, compressed and encrypted state *)

Definition SetSparse (h : handle) : eff disk (w32 unit) := SetSparseState h true.

Definition SparseRefusalStatus (e : Z) : NTSTATUS := failed_status e ERROR_ACCESS_DENIED.

Definition SetCompressed (h : handle) : eff disk unit :=
  (do! SetCompressionState h in eret tt)%eff.

Definition SetCompressedIfSource (h : handle) (srcAttrs : Z) : eff disk unit :=
  if HasFileAttribute srcAttrs FILE_ATTRIBUTE_COMPRESSED then SetCompressed h else eret tt.

Definition SetCompressedDirectory (path : wstring) : eff disk unit :=
  (let! opened := eread (fun d => OpenSharedW d (WithExtendedPrefix path) (Z.lor GENERIC_READ GENERIC_WRITE)
                                    (Z.lor FILE_SHARE_READ FILE_SHARE_WRITE) FILE_FLAG_BACKUP_SEMANTICS) in
   match opened with
   | Err _ => eret tt
   | Ok h => do! SetCompressed h in CloseHandle h
   end)%eff.

(** The error is the last error of a call that returns false. *)
Definition ApplyEncryptedStateIfNeeded (path : wstring) (attrs : Z) : eff disk (w32 unit) :=
  (if (attrs =? INVALID_FILE_ATTRIBUTES) || negb (has_attr attrs FILE_ATTRIBUTE_ENCRYPTED) then eret (Ok tt)
   else
     let extendedPath := WithExtendedPrefix path in
     let! encrypted := EncryptFileW extendedPath in
     match encrypted with
     | Ok _ => eret (Ok tt)
     | Err encryptErr =>
         let! after := eread (fun d => GetFileAttributesW d extendedPath) in
         match after with
         | Ok encryptedAttrs =>
             if has_attr encryptedAttrs FILE_ATTRIBUTE_ENCRYPTED then eret (Ok tt)
             else eret (Err (if encryptErr =? 0 then ERROR_ACCESS_DENIED else encryptErr))
         | Err _ => eret (Err (if encryptErr =? 0 then ERROR_ACCESS_DENIED else encryptErr))
         end
     end)%eff.
End Copy.
