(* ===== verification/CopyDataFacts.v ===== *)
(** * The copy of file data keeps every byte

    [CopyFileDataKeepingHoles] copies the bytes of a file whether it goes
    through them all or only through the allocated ranges, and always ends.
    The ranges cover the data only of a file that is all local. *)
From S2P Require Export EntryCopy.
Open Scope Z_scope.

(** The byte of a file at a position; there is none past its end. *)
Definition byte_at (c : list Z) (i : nat) : Z := default 0 (c !! i).

(** [c] cut or filled with zeros to [n] bytes; and [data] written over [c] at
    [pos]. *)
Definition resized (n : nat) (c : list Z) : list Z := resize n 0 c.

Definition overwritten (pos : nat) (data c : list Z) : list Z :=
  resized pos c ++ data ++ drop (pos + length data) c.

(** Ranges in ascending order from a position, none of them empty. *)
Fixpoint ascending (from : Z) (ranges : list (Z * Z)) : Prop :=
  match ranges with
  | [] => True
  | (o, l) :: ranges' => from <= o /\ 0 < l <= LLONG_MAX /\ ascending (o + l) ranges'
  end.

Definition in_range (i : Z) (r : Z * Z) : Prop := fst r <= i < fst r + snd r.

#[export] Instance in_range_dec i r : Decision (in_range i r).
Proof. unfold in_range. apply _. Defined.

(** Where the ranges of an answer end: at the end of the query, or with the
    last range when there are more. *)
Definition answer_end (offset length : Z) (ranges : list (Z * Z)) (r : w32 unit) : Z :=
  match r, last ranges with
  | Err _, Some (o, l) => o + l
  | Err _, None => offset
  | Ok _, _ => offset + length
  end.

(** The attributes of a file whose data a provider or a storage manager may
    keep elsewhere: a reparse point, an offline file, and the two recalls. *)
Definition remote_attributes : list Z :=
  [FILE_ATTRIBUTE_REPARSE_POINT; FILE_ATTRIBUTE_OFFLINE; FILE_ATTRIBUTE_RECALL_ON_DATA_ACCESS;
   FILE_ATTRIBUTE_RECALL_ON_OPEN].

(** All the data of the file is on its volume. *)
Definition all_local (attributes : w32 Z) : Prop :=
  match attributes with
  | Ok attrs => Forall (fun bit => has_attr attrs bit = false) remote_attributes
  | Err _ => False
  end.

(** Documented behaviour of file data.  [apart] says that two handles are on
    different files.  The ranges of a file that is not all local show holes
    where a provider keeps data, so what they leave out is zero only for a
    local file. *)
Class DataLaws `{W : Win32} `{H : !EntryHost} := {
  content : disk -> handle -> list Z;
  apart : handle -> handle -> Prop;
  size_content d h n : GetFileSizeEx d h = Ok n -> n = Z.of_nat (length (content d h));
  read_content d h pos n data :
    0 <= pos -> 0 < n -> ReadFileAt d h pos n = Ok data ->
    data `prefix_of` drop (Z.to_nat pos) (content d h) /\ Z.of_nat (length data) <= n /\
    (data = [] -> Z.of_nat (length (content d h)) <= pos);
  write_content h pos data d d' :
    0 <= pos -> data <> [] -> WriteFileAt h pos data d = (d', Ok (Z.of_nat (length data))) ->
    content d' h = overwritten (Z.to_nat pos) data (content d h);
  write_apart h pos data d h' :
    apart h h' -> content (fst (WriteFileAt h pos data d)) h' = content d h';
  end_content h n d d' : 0 <= n -> SetEndOfFile h n d = (d', Ok tt) -> content d' h = resized (Z.to_nat n) (content d h);
  end_apart h n d h' : apart h h' -> content (fst (SetEndOfFile h n d)) h' = content d h';
  ranges_ascend d h offset len capacity ranges r :
    0 <= offset -> 0 < len -> QueryRanges d h offset len capacity = (ranges, r) ->
    r = Ok tt \/ r = Err ERROR_MORE_DATA -> ascending offset ranges;
  write_attributes_apart h pos data d h' :
    apart h h' -> GetHandleAttributes (fst (WriteFileAt h pos data d)) h' = GetHandleAttributes d h';
  ranges_cover d h offset len capacity ranges r i :
    all_local (GetHandleAttributes d h) -> 0 <= offset -> 0 < len -> QueryRanges d h offset len capacity = (ranges, r) ->
    r = Ok tt \/ r = Err ERROR_MORE_DATA ->
    offset <= Z.of_nat i < answer_end offset len ranges r ->
    (forall g, g ∈ ranges -> ~ in_range (Z.of_nat i) g) -> byte_at (content d h) i = 0;
  ranges_more d h offset len capacity r : QueryRanges d h offset len capacity = ([], r) -> r <> Err ERROR_MORE_DATA;
  (** A synchronous call does not fail as pending. *)
  write_error h pos data d d' e : WriteFileAt h pos data d = (d', Err e) -> e <> ERROR_IO_PENDING;
  read_error d h pos n e : ReadFileAt d h pos n = Err e -> e <> ERROR_IO_PENDING;
  seek_error d h n e : SetFilePointerEx d h n = Err e -> e <> ERROR_IO_PENDING;
  size_error d h e : GetFileSizeEx d h = Err e -> e <> ERROR_IO_PENDING;
  end_error h n d d' e : SetEndOfFile h n d = (d', Err e) -> e <> ERROR_IO_PENDING
}.

(** ** Bytes of lists *)

Lemma byte_at_ge c i : (length c <= i)%nat -> byte_at c i = 0.
Proof. intros H. unfold byte_at. by rewrite lookup_ge_None_2. Qed.

Lemma byte_at_resized n c i : byte_at (resized n c) i = if decide (i < n)%nat then byte_at c i else 0.
Proof.
  unfold byte_at, resized. destruct (decide (i < n)%nat) as [Hi|Hi].
  - destruct (decide (i < length c)%nat).
    + by rewrite lookup_resize.
    + rewrite lookup_resize_new by lia. by rewrite (lookup_ge_None_2 c) by lia.
  - by rewrite lookup_resize_old by lia.
Qed.

Lemma byte_at_overwritten pos data c i :
  byte_at (overwritten pos data c) i =
    if decide (pos <= i < pos + length data)%nat then byte_at data (i - pos) else byte_at c i.
Proof.
  unfold overwritten. destruct (decide (i < pos)%nat) as [Hi|Hi].
  - rewrite decide_False by lia. transitivity (byte_at (resized pos c) i).
    + unfold byte_at. rewrite lookup_app_l; [done|]. unfold resized. by rewrite length_resize.
    + by rewrite byte_at_resized, decide_True.
  - unfold byte_at. rewrite lookup_app_r by (unfold resized; rewrite length_resize; lia).
    unfold resized. rewrite length_resize. case_decide as Hd.
    + by rewrite lookup_app_l by lia.
    + rewrite lookup_app_r by lia. rewrite lookup_drop. do 2 f_equal. lia.
Qed.

Lemma length_overwritten pos data c :
  data <> [] -> length (overwritten pos data c) = Nat.max (length c) (pos + length data).
Proof.
  intros Hd. unfold overwritten, resized. rewrite !length_app, length_resize, length_drop. lia.
Qed.

Lemma list_eq_bytes c1 c2 :
  length c1 = length c2 -> (forall i, byte_at c1 i = byte_at c2 i) -> c1 = c2.
Proof.
  intros Hl Hb. apply list_eq. intros i. specialize (Hb i). unfold byte_at in Hb.
  destruct (c1 !! i) as [x|] eqn:E1, (c2 !! i) as [y|] eqn:E2; cbn in Hb; try congruence.
  - apply lookup_lt_Some in E1. apply lookup_ge_None in E2. lia.
  - apply lookup_lt_Some in E2. apply lookup_ge_None in E1. lia.
Qed.

Lemma byte_at_prefix data c pos i :
  data `prefix_of` drop pos c -> (i < length data)%nat -> byte_at data i = byte_at c (pos + i).
Proof.
  intros [rest Hp] Hi. unfold byte_at. rewrite <- lookup_drop, Hp. by rewrite lookup_app_l.
Qed.

Lemma failed_status_fails e fallback :
  e <> ERROR_IO_PENDING -> fallback <> 0 -> fallback <> ERROR_IO_PENDING ->
  NT_SUCCESS (failed_status e fallback) = false.
Proof.
  intros He Hf Hp. apply not_true_iff_false. unfold failed_status, StatusFromWin32Error.
  rewrite NtStatusFromWin32_success. unfold ERROR_IO_PENDING in *. destruct (Z.eqb_spec e 0); lia.
Qed.

(** The table gives named statuses only. *)
Lemma NtStatusFromWin32_named e : NtStatusFromWin32 e <> NEVER_RETURNS.
Proof.
  unfold NtStatusFromWin32. assert (HF : Forall (fun c => snd c <> NEVER_RETURNS) win32_cases).
  { apply (bool_decide_unpack _). vm_compute. exact I. }
  induction HF as [|[x s] l Hs HF IH]; cbn [find_case]; [done|]. by destruct (e =? x).
Qed.

Section Data.
Context `{W : Win32} `{J : Json} `{H : !EntryHost} `{DL : !DataLaws} (src dst : handle).
Hypothesis files_apart : apart dst src.

(** What a copy from [a] has done after [k] bytes, from [d0] to [d]. *)
Record copied_from (a : Z) (d0 : disk) (k : Z) (d : disk) : Prop := {
  cf_nonneg : 0 <= k;
  cf_source : content d src = content d0 src;
  cf_attributes : GetHandleAttributes d src = GetHandleAttributes d0 src;
  cf_within : k = 0 \/ a + k <= Z.of_nat (length (content d0 src));
  cf_bytes : forall i, byte_at (content d dst) i =
    if decide (a <= Z.of_nat i < a + k) then byte_at (content d0 src) i else byte_at (content d0 dst) i;
  cf_length : Z.of_nat (length (content d dst)) =
    if decide (k = 0) then Z.of_nat (length (content d0 dst))
    else Z.max (Z.of_nat (length (content d0 dst))) (a + k)
}.

Lemma copied_none a d : copied_from a d 0 d.
Proof.
  split; try done.
  - by left.
  - intros i. by rewrite decide_False by lia.
Qed.

(** A failed chunk leaves the source alone. *)
Lemma WriteChunk_source pos data d : content (fst (WriteChunk dst pos data d)) src = content d src.
Proof using files_apart.
  unfold WriteChunk, ebind, eret. pose proof (write_apart dst pos data d src files_apart) as Hw.
  destruct (WriteFileAt dst pos data d) as [d' r]. exact Hw.
Qed.

Lemma WriteChunk_attributes pos data d :
  GetHandleAttributes (fst (WriteChunk dst pos data d)) src = GetHandleAttributes d src.
Proof using files_apart.
  unfold WriteChunk, ebind, eret. pose proof (write_attributes_apart dst pos data d src files_apart) as Hw.
  destruct (WriteFileAt dst pos data d) as [d' r]. exact Hw.
Qed.

Lemma WriteChunk_ok pos data d d' status :
  data <> [] -> 0 <= pos -> WriteChunk dst pos data d = (d', status) -> NT_SUCCESS status = true ->
  content d' dst = overwritten (Z.to_nat pos) data (content d dst).
Proof.
  intros Hd Hp. unfold WriteChunk, ebind, eret.
  destruct (WriteFileAt dst pos data d) as [d1 [n|e]] eqn:E; intros [= -> <-] Hs.
  - destruct (Z.eqb_spec n (Z.of_nat (length data))) as [->|_]; [|by vm_compute in Hs]. by apply write_content.
  - rewrite failed_status_fails in Hs; [done| |done|done]. by apply (write_error dst pos data d d').
Qed.

(** One more chunk of the copy. *)
Lemma copied_chunk a d0 k d data d' :
  0 <= a -> copied_from a d0 k d -> data <> [] ->
  data `prefix_of` drop (Z.to_nat (a + k)) (content d src) ->
  content d' src = content d src -> GetHandleAttributes d' src = GetHandleAttributes d src ->
  content d' dst = overwritten (Z.to_nat (a + k)) data (content d dst) ->
  copied_from a d0 (k + Z.of_nat (length data)) d'.
Proof.
  intros Ha [Hk Hsrc Hattr Hin Hb Hl] Hne Hp Hs' Hattr' Hd'.
  assert (Hlen : (0 < length data)%nat) by (destruct data; [done|cbn; lia]).
  assert (Hfit : a + k + Z.of_nat (length data) <= Z.of_nat (length (content d0 src))).
  { destruct Hp as [rest Hp]. apply (f_equal length) in Hp. rewrite length_drop, length_app, Hsrc in Hp. lia. }
  split; [lia|congruence|congruence|right; lia| |].
  - intros i. rewrite Hd', byte_at_overwritten. destruct (decide (Z.to_nat (a + k) <= i < Z.to_nat (a + k) + length data)%nat).
    + rewrite decide_True by lia. rewrite (byte_at_prefix _ _ _ _ Hp) by lia. rewrite Hsrc. f_equal. lia.
    + rewrite Hb. destruct (decide (a <= Z.of_nat i < a + k)).
      * by rewrite decide_True by lia.
      * by rewrite decide_False by lia.
  - rewrite Hd', length_overwritten by done. rewrite decide_False by lia.
    destruct (decide (k = 0)); lia.
Qed.

(** ** [CopyBytes] *)

Definition copy_outcome (a limit : Z) (d0 d : disk) (r : NTSTATUS * Z) : Prop :=
  content d src = content d0 src /\ fst r <> NEVER_RETURNS /\
  (NT_SUCCESS (fst r) = true ->
     copied_from a d0 (snd r) d /\ snd r <= limit /\
     (snd r = limit \/ Z.of_nat (length (content d0 src)) <= a + snd r)).

Lemma failed_status_returns e fallback : failed_status e fallback <> NEVER_RETURNS.
Proof. unfold failed_status, StatusFromWin32Error. apply NtStatusFromWin32_named. Qed.

Lemma copy_chunk_ok a limit d0 k d :
  0 <= a -> copied_from a d0 k d /\ k <= limit ->
  match copy_chunk src dst a a limit k d with
  | (d', inl k') => (copied_from a d0 k' d' /\ k' <= limit) /\ 0 <= limit - k' < limit - k
  | (d', inr r) => copy_outcome a limit d0 d' r
  end.
Proof using files_apart DL.
  intros Ha [Hc Hkl]. unfold copy_chunk, ebind, eread, eret. destruct Hc as [Hk Hsrc Hattr Hin Hb Hl] eqn:Ec. clear Ec.
  destruct (Z.ltb_spec k limit) as [Hlt|Hge]; cbn [negb].
  2: { split; [done|]. split; [done|]. intros _. split; [done|]. split; cbn; lia. }
  set (chunk := if limit - k <? kCopyBufferSize then limit - k else kCopyBufferSize).
  assert (Hch : 0 < chunk <= limit - k) by (unfold chunk, kCopyBufferSize; destruct (Z.ltb_spec (limit - k) (64 * 1024)); lia).
  destruct (ReadFileAt d src (a + k) chunk) as [data|e] eqn:Er.
  2: { split; [done|]. split; [apply failed_status_returns|]. cbn [fst]. intros Hs.
       rewrite failed_status_fails in Hs; [done| |done|done]. by eapply read_error. }
  destruct (read_content d src (a + k) chunk data) as (Hp & Hn & He); [lia|lia|done|].
  destruct data as [|b data'].
  { split; [done|]. split; [done|]. intros _. split; [done|]. split; [cbn; lia|]. right. cbn.
    rewrite <- Hsrc. by apply He. }
  set (data := b :: data') in *.
  destruct (WriteChunk dst (a + k) data d) as [d1 status] eqn:Ew.
  pose proof (WriteChunk_source (a + k) data d) as Hsrc1. rewrite Ew in Hsrc1. cbn [fst] in Hsrc1.
  pose proof (WriteChunk_attributes (a + k) data d) as Hattr1. rewrite Ew in Hattr1. cbn [fst] in Hattr1.
  destruct (NT_SUCCESS status) eqn:Es; cbn [negb].
  - assert (Hd1 := WriteChunk_ok (a + k) data d d1 status ltac:(done) ltac:(lia) Ew Es).
    pose proof (copied_chunk a d0 k d data d1 Ha ltac:(done) ltac:(done) Hp Hsrc1 Hattr1 Hd1) as Hc1.
    assert (0 < Z.of_nat (length data)) by (cbn; lia). split; [split; [done|lia]|lia].
  - split; [cbn; congruence|]. split; [|by cbn [fst]; rewrite Es]. cbn. intros ->. unfold WriteChunk, ebind, eret in Ew.
    destruct (WriteFileAt dst (a + k) data d) as [d2 [n|e]]; injection Ew as _ Ew.
    + case_match; by vm_compute in Ew.
    + by apply failed_status_returns in Ew.
Qed.

Lemma CopyBytes_ok a limit d0 :
  0 <= a -> 0 <= limit <= LLONG_MAX ->
  exists d r, CopyBytes src dst a a limit d0 = (d, r) /\ copy_outcome a limit d0 d r.
Proof using files_apart DL.
  intros Ha Hlim. unfold CopyBytes.
  apply (run_loop_rule _ (fun k d => copied_from a d0 k d /\ k <= limit) (fun k => limit - k)
           (copy_outcome a limit d0)).
  - intros k d Hc. by apply copy_chunk_ok.
  - split; [apply copied_none|lia].
  - unfold LLONG_MAX in Hlim. lia.
Qed.

(** ** The copy of the allocated ranges *)

(** The destination holds bytes of the source, and zeros elsewhere. *)
Record partly (source : list Z) (d : disk) : Prop := {
  pt_source : content d src = source;
  pt_length : (length (content d dst) <= length source)%nat;
  pt_bytes : forall i, byte_at (content d dst) i = byte_at source i \/ byte_at (content d dst) i = 0
}.

Definition agrees (source : list Z) (d : disk) (i : nat) : Prop := byte_at (content d dst) i = byte_at source i.

(** What one step of the copy promises when it succeeds. *)
Definition goes_on (source : list Z) (d d' : disk) : Prop :=
  partly source d' /\ (forall i, agrees source d i -> agrees source d' i) /\
  GetHandleAttributes d' src = GetHandleAttributes d src.

Lemma partly_past source d i : partly source d -> (length source <= i)%nat -> agrees source d i.
Proof. intros [_ Hl _] Hi. unfold agrees. rewrite !byte_at_ge by lia. done. Qed.

Lemma partly_hole source d i : partly source d -> byte_at source i = 0 -> agrees source d i.
Proof. intros [_ _ Hb] Hi. unfold agrees. destruct (Hb i); congruence. Qed.

Lemma copied_partly source a d0 k d :
  partly source d0 -> copied_from a d0 k d ->
  goes_on source d0 d /\ forall i, a <= Z.of_nat i < a + k -> agrees source d i.
Proof.
  intros [Hs Hl Hb] [Hk Hs' Hattr Hin Hb' Hl']. unfold goes_on, agrees. rewrite Hs in *.
  assert (Hagree : forall i, a <= Z.of_nat i < a + k -> byte_at (content d dst) i = byte_at source i).
  { intros i Hi. by rewrite Hb', decide_True. }
  split; [|exact Hagree]. split_and!; [| |done].
  - split; [done| |].
    + destruct (decide (k = 0)); lia.
    + intros i. rewrite Hb'. destruct (decide (a <= Z.of_nat i < a + k)); [by left|apply Hb].
  - intros i Hi. rewrite Hb'. by destruct (decide (a <= Z.of_nat i < a + k)).
Qed.

Lemma CopyAllocatedRange_ok source o l d :
  partly source d -> 0 <= o -> 0 < l <= LLONG_MAX ->
  let '(d', (status, n)) := CopyAllocatedRange src dst (o, l) d in
  content d' src = source /\ status <> NEVER_RETURNS /\
  (NT_SUCCESS status = true ->
     goes_on source d d' /\ (forall i, o <= Z.of_nat i < o + n -> agrees source d' i) /\
     n <= l /\ (n = l \/ Z.of_nat (length source) <= o + n)).
Proof using files_apart DL.
  intros Hp Ho Hl. unfold CopyAllocatedRange, ebind, eread, eret. cbn [fst snd].
  assert (Hfail : forall h e, SetFilePointerEx d h o = Err e ->
            content d src = source /\ failed_status e ERROR_SEEK <> NEVER_RETURNS /\
            (NT_SUCCESS (failed_status e ERROR_SEEK) = true -> False)).
  { intros h e He. split; [apply Hp|]. split; [apply failed_status_returns|].
    rewrite failed_status_fails; [done| |done|done]. by eapply seek_error. }
  destruct (SetFilePointerEx d src o) as [[]|e] eqn:E1.
  2: { destruct (Hfail src e E1) as (? & ? & Hno). split; [done|]. split; [done|]. by intros ?%Hno. }
  destruct (SetFilePointerEx d dst o) as [[]|e] eqn:E2.
  2: { destruct (Hfail dst e E2) as (? & ? & Hno). split; [done|]. split; [done|]. by intros ?%Hno. }
  destruct (CopyBytes_ok o l d Ho) as (d' & [status n] & Hr & Hs & Hn & Hok); [lia|]. rewrite Hr.
  rewrite (pt_source _ _ Hp) in Hs, Hok. split; [done|]. split; [done|]. intros Hsucc.
  destruct (Hok Hsucc) as (Hc & Hle & Hend). destruct (copied_partly source o d n d' Hp Hc) as [Hg Ha].
  by split_and!.
Qed.

(** The end of the last of some ranges that follow [from]. *)
Definition ranges_end (from : Z) (ranges : list (Z * Z)) : Z :=
  match last ranges with Some (o, l) => o + l | None => from end.

Lemma ranges_end_cons from o l ranges : ranges_end from ((o, l) :: ranges) = ranges_end (o + l) ranges.
Proof. unfold ranges_end. rewrite last_cons. by destruct (last ranges) as [[]|]. Qed.

Lemma ascending_end from ranges : ascending from ranges -> from <= ranges_end from ranges.
Proof.
  revert from. induction ranges as [|[o l] ranges IH]; intros from; cbn [ascending].
  - unfold ranges_end. cbn. lia.
  - intros (Ho & Hl & Ha). rewrite ranges_end_cons. specialize (IH _ Ha). lia.
Qed.

Lemma ascending_in from ranges r i : ascending from ranges -> r ∈ ranges -> in_range i r -> from <= i.
Proof.
  revert from. induction ranges as [|[o l] ranges IH]; intros from; cbn [ascending]; [by intros _ ?%elem_of_nil|].
  intros (Ho & Hl & Ha) [->|Hr]%elem_of_cons Hi; [unfold in_range in Hi; cbn in Hi; lia|].
  specialize (IH _ Ha Hr Hi). lia.
Qed.

Lemma copy_ranges_ok source ranges from d :
  partly source d -> 0 <= from -> ascending from ranges ->
  let (d', over) := copy_ranges src dst ranges d in
  content d' src = source /\
  match over with
  | Some status => status <> NEVER_RETURNS /\
      (NT_SUCCESS status = true ->
         Z.of_nat (length source) <= ranges_end from ranges /\
         goes_on source d d' /\ forall r i, r ∈ ranges -> in_range (Z.of_nat i) r -> agrees source d' i)
  | None => goes_on source d d' /\ forall r i, r ∈ ranges -> in_range (Z.of_nat i) r -> agrees source d' i
  end.
Proof using files_apart DL.
  revert from d. induction ranges as [|[o l] ranges IH]; intros from d Hp Hf; cbn [copy_ranges ascending].
  { unfold eret. split; [apply Hp|]. split; [by split|]. by intros r i ?%elem_of_nil. }
  intros (Ho & Hl & Ha). unfold ebind.
  pose proof (CopyAllocatedRange_ok source o l d Hp ltac:(lia) Hl) as Hrange.
  destruct (CopyAllocatedRange src dst (o, l) d) as [d1 [status n]]. destruct Hrange as (Hs & Hn & Hok).
  destruct (NT_SUCCESS status) eqn:Es; cbn [negb].
  2: { unfold eret. split; [done|]. split; [done|]. by rewrite Es. }
  destruct (Hok eq_refl) as (Hg & Hagree & Hle & Hend). clear Hok. cbn [snd]. rewrite ranges_end_cons.
  destruct (Z.ltb_spec n l) as [Hlt|Hge].
  - unfold eret. split; [done|]. split; [done|]. intros _. pose proof (ascending_end _ _ Ha).
    split; [lia|]. split; [done|].
    intros r i [->|Hr]%elem_of_cons Hi.
    + destruct (decide (Z.of_nat i < o + n)); [apply Hagree; unfold in_range in Hi; cbn in Hi; lia|].
      apply partly_past; [apply Hg|lia].
    + apply partly_past; [apply Hg|]. pose proof (ascending_in _ _ _ _ Ha Hr Hi). lia.
  - assert (n = l) as -> by lia. specialize (IH (o + l) d1 (proj1 Hg) ltac:(lia) Ha).
    destruct (copy_ranges src dst ranges d1) as [d2 over]. destruct IH as [Hs2 IH]. split; [done|].
    assert (Hjoin : goes_on source d1 d2 /\ (forall r i, r ∈ ranges -> in_range (Z.of_nat i) r -> agrees source d2 i) ->
                    goes_on source d d2 /\ forall r i, r ∈ (o, l) :: ranges -> in_range (Z.of_nat i) r -> agrees source d2 i).
    { intros [(Hp2 & Hk2 & Ha2) Hr2]. destruct Hg as (Hp1 & Hk1 & Ha1).
      split; [split; [done|]; split; [intros i Hi; by apply Hk2, Hk1|congruence]|].
      intros r i [->|Hr]%elem_of_cons Hi; [apply Hk2, Hagree; exact Hi|by eapply Hr2]. }
    destruct over as [status2|]; [|by apply Hjoin].
    destruct IH as [Hn2 IH]. split; [done|]. intros Hs3. destruct (IH Hs3) as (Hend2 & Hrest). split; [done|by apply Hjoin].
Qed.

Definition ranges_outcome (source : list Z) (d : disk) (r : NTSTATUS * bool) : Prop :=
  content d src = source /\ fst r <> NEVER_RETURNS /\
  (NT_SUCCESS (fst r) = true -> partly source d /\ (snd r = false -> forall i, agrees source d i)).

(** What is before [offset] is copied. *)
Definition copied_before (source : list Z) (offset : Z) (d : disk) : Prop :=
  0 <= offset /\ (partly source d /\ all_local (GetHandleAttributes d src)) /\
  forall i, Z.of_nat i < offset -> agrees source d i.

(** An answer that is copied is copied up to its end. *)
Lemma answer_copied source offset ranges r d d' :
  0 < Z.of_nat (length source) - offset ->
  copied_before source offset d ->
  QueryRanges d src offset (Z.of_nat (length source) - offset) kRangeCapacity = (ranges, r) ->
  r = Ok tt \/ r = Err ERROR_MORE_DATA ->
  goes_on source d d' -> (forall g i, g ∈ ranges -> in_range (Z.of_nat i) g -> agrees source d' i) ->
  forall i, Z.of_nat i < answer_end offset (Z.of_nat (length source) - offset) ranges r -> agrees source d' i.
Proof using DL.
  intros Hlen (Ho & [Hp Hlocal] & Hb) Hq Hr (Hp' & Hk & _) Hin i Hi.
  destruct (decide (Z.of_nat i < offset)); [by apply Hk, Hb|].
  destruct (decide (Exists (in_range (Z.of_nat i)) ranges)) as [(g & Hg & Hi')%Exists_exists|Hno]; [by eapply Hin|].
  apply partly_hole; [done|]. rewrite <- (pt_source _ _ Hp).
  eapply ranges_cover; [exact Hlocal|exact Ho|exact Hlen|exact Hq|exact Hr|lia|]. intros g Hg Hi'. apply Hno, Exists_exists. by exists g.
Qed.

(** The part of a query that has ranges. *)
Lemma copy_ranges_answer source offset ranges r d :
  copied_before source offset d -> offset < Z.of_nat (length source) ->
  QueryRanges d src offset (Z.of_nat (length source) - offset) kRangeCapacity = (ranges, r) ->
  r = Ok tt \/ r = Err ERROR_MORE_DATA ->
  match (let! over := copy_ranges src dst ranges in
         match over with
         | Some status => eret (inr (status, false))
         | None => match (match r with Ok _ => Complete | Err e => if e =? ERROR_MORE_DATA then More else Refused end),
                         last ranges with
                   | Complete, _ | _, None => eret (inr (STATUS_SUCCESS, false))
                   | _, Some (o, l) => eret (inl (o + l))
                   end
         end)%eff d with
  | (d', inl offset') => copied_before source offset' d' /\
      0 <= Z.max 0 (Z.of_nat (length source) - offset') < Z.max 0 (Z.of_nat (length source) - offset)
  | (d', inr out) => ranges_outcome source d' out
  end.
Proof using files_apart DL.
  intros Hc Hlt Hq. pose proof Hc as (Ho & [Hp Hlocal] & Hb). set (size := Z.of_nat (length source)) in *.
  assert (Hpast : forall d' i, partly source d' -> size <= Z.of_nat i -> agrees source d' i).
  { intros d' i Hp' Hi. apply partly_past; [done|]. unfold size in Hi. lia. }
  intros Hr. unfold ebind, eret.
  assert (Ha : ascending offset ranges) by (eapply ranges_ascend; [exact Ho| |exact Hq|exact Hr]; lia).
  pose proof (copy_ranges_ok source ranges offset d Hp Ho Ha) as Hrun.
  destruct (copy_ranges src dst ranges d) as [d1 over]. destruct Hrun as [Hs Hrun].
  assert (Hans : goes_on source d d1 /\ (forall g i, g ∈ ranges -> in_range (Z.of_nat i) g -> agrees source d1 i) ->
                 forall i, Z.of_nat i < answer_end offset (size - offset) ranges r -> agrees source d1 i).
  { intros [Hg Hin]. eapply answer_copied; [|exact Hc|exact Hq|done|done|done]. fold size. lia. }
  assert (Hmore : r = Err ERROR_MORE_DATA -> answer_end offset (size - offset) ranges r = ranges_end offset ranges /\
                  exists o l, last ranges = Some (o, l) /\ ranges_end offset ranges = o + l /\ offset < o + l).
  { intros Hr'. assert (Hne : ranges <> []) by (intros ->; by apply ranges_more in Hq).
    destruct ranges as [|[o0 l0] ranges]; [done|]. unfold answer_end, ranges_end. rewrite Hr'.
    destruct (last ((o0, l0) :: ranges)) as [[o l]|] eqn:El; [|by apply last_None in El].
    split; [done|]. exists o, l. split; [done|]. split; [done|].
    pose proof (ranges_end_cons offset o0 l0 ranges) as He. unfold ranges_end at 1 in He. rewrite El in He.
    destruct Ha as (? & ? & Ha). pose proof (ascending_end _ _ Ha). lia. }
  destruct over as [status|].
  - destruct Hrun as [Hn Hok]. split; [done|]. split; [done|]. intros Hsucc.
    destruct (Hok Hsucc) as (Hend & Hg & Hin). split; [apply Hg|]. intros _ i.
    destruct (decide (size <= Z.of_nat i)) as [|Hi]; [by apply Hpast; [apply Hg|]|].
    apply Hans; [by split|]. destruct Hr as [Hr|Hr].
    + rewrite Hr. cbn [answer_end]. lia.
    + destruct (Hmore Hr) as [-> _]. lia.
  - destruct Hr as [Hr|Hr]; rewrite Hr in *.
    + split; [done|]. split; [done|]. intros _. split; [apply Hrun|]. intros _ i.
      destruct (decide (size <= Z.of_nat i)); [by apply Hpast; [apply Hrun|]|].
      apply Hans; [done|]. cbn [answer_end]. lia.
    + destruct (Hmore eq_refl) as (Hae & o & l & Hl & Hre & Hgt). rewrite Z.eqb_refl, Hl.
      split; [|lia]. split; [lia|]. destruct Hrun as [(Hp1 & Hk1 & Hattr) Hin].
      split; [split; [done|by rewrite Hattr]|]. intros i Hi. apply Hans; [by split; [split_and!|]|]. lia.
Qed.

Lemma copy_range_query_ok source offset d :
  copied_before source offset d ->
  match copy_range_query src dst (Z.of_nat (length source)) offset d with
  | (d', inl offset') => copied_before source offset' d' /\
      0 <= Z.max 0 (Z.of_nat (length source) - offset') < Z.max 0 (Z.of_nat (length source) - offset)
  | (d', inr r) => ranges_outcome source d' r
  end.
Proof using files_apart DL.
  intros Hc. pose proof Hc as (Ho & [Hp _] & Hb). unfold copy_range_query, ebind, eread, eret.
  set (size := Z.of_nat (length source)) in *.
  assert (Hpast : forall d' i, partly source d' -> size <= Z.of_nat i -> agrees source d' i).
  { intros d' i Hp' Hi. apply partly_past; [done|]. unfold size in Hi. lia. }
  destruct (Z.ltb_spec offset size) as [Hlt|Hge]; cbn [negb].
  2: { split; [apply Hp|]. split; [done|]. intros _. split; [done|]. intros _ i.
       destruct (decide (Z.of_nat i < offset)); [by apply Hb|apply Hpast; [done|lia]]. }
  unfold QueryAllocatedRanges. destruct (QueryRanges d src offset (size - offset) kRangeCapacity) as [ranges r] eqn:Hq.
  pose proof (copy_ranges_answer source offset ranges r d Hc Hlt Hq) as Hrest.
  destruct r as [[]|e]; [apply Hrest; by left|].
  destruct (Z.eqb_spec e ERROR_MORE_DATA) as [->|Hne]; [apply Hrest; by right|].
  split; [apply Hp|]. split; [done|]. intros _. by split.
Qed.

Lemma CopyAllocatedRanges_ok source d :
  partly source d -> all_local (GetHandleAttributes d src) -> Z.of_nat (length source) <= LLONG_MAX ->
  exists d' r, CopyAllocatedRanges src dst (Z.of_nat (length source)) d = (d', r) /\ ranges_outcome source d' r.
Proof using files_apart DL.
  intros Hp Hlocal Hl. unfold CopyAllocatedRanges.
  apply (run_loop_rule _ (copied_before source) (fun offset => Z.max 0 (Z.of_nat (length source) - offset))
           (ranges_outcome source)).
  - intros offset d0 Hc. by apply copy_range_query_ok.
  - split; [done|]. split; [done|]. intros i Hi. lia.
  - unfold LLONG_MAX in Hl. lia.
Qed.

(** ** The whole copy *)

Definition copied (source : list Z) (d : disk) (status : NTSTATUS) : Prop :=
  content d src = source /\ status <> NEVER_RETURNS /\
  (NT_SUCCESS status = true -> content d dst = source).

Lemma copied_failed source d e fallback :
  content d src = source -> e <> ERROR_IO_PENDING -> fallback <> 0 -> fallback <> ERROR_IO_PENDING ->
  copied source d (failed_status e fallback).
Proof.
  intros Hs He Hf Hp. split; [done|]. split; [apply failed_status_returns|]. by rewrite failed_status_fails.
Qed.

Lemma CopyBytesToEnd_ok source d :
  Z.of_nat (length source) <= LLONG_MAX -> partly source d -> let (d', status) := CopyBytesToEnd src dst d in copied source d' status.
Proof using files_apart DL.
  intros Hsz Hp. unfold CopyBytesToEnd, ebind, eret.
  destruct (CopyBytes_ok 0 LLONG_MAX d) as (d' & [status n] & Hr & Hs & Hn & Hok); [done|done|]. rewrite Hr.
  rewrite (pt_source _ _ Hp) in Hs, Hok. cbn [fst snd] in *. split; [done|]. split; [done|]. intros Hsucc.
  destruct (Hok Hsucc) as (Hc & Hle & Hend). destruct (copied_partly source 0 d n d' Hp Hc) as [[Hp' _] Hagree].
  pose proof (cf_within _ _ _ _ Hc) as Hin. pose proof (cf_length _ _ _ _ Hc) as Hl.
  rewrite (pt_source _ _ Hp) in Hin. pose proof (pt_length _ _ Hp) as Hlen.
  assert (0 <= n) by apply (cf_nonneg _ _ _ _ Hc). assert (0 < LLONG_MAX) by done.
  apply list_eq_bytes.
  - destruct (decide (n = 0)); lia.
  - intros i. destruct (decide (Z.of_nat i < n)); [by apply Hagree; lia|]. apply partly_past; [done|]. lia.
Qed.

Lemma CopyBytesFromStart_ok source d :
  Z.of_nat (length source) <= LLONG_MAX -> partly source d -> let (d', status) := CopyBytesFromStart src dst d in copied source d' status.
Proof using files_apart DL.
  intros Hsz Hp. unfold CopyBytesFromStart, ebind, eread, eret.
  destruct (SetFilePointerEx d src 0) as [[]|e] eqn:E1.
  2: { apply copied_failed; [apply Hp| |done|done]. by eapply seek_error. }
  destruct (SetFilePointerEx d dst 0) as [[]|e] eqn:E2.
  - by apply CopyBytesToEnd_ok.
  - apply copied_failed; [apply Hp| |done|done]. by eapply seek_error.
Qed.

Lemma SetEndOfFileIfSizeDiffers_ok source d :
  partly source d -> (forall i, agrees source d i) ->
  let (d', status) := SetEndOfFileIfSizeDiffers dst (Z.of_nat (length source)) d in copied source d' status.
Proof using files_apart DL.
  intros Hp Hall. unfold SetEndOfFileIfSizeDiffers, ebind, eread, eret.
  destruct (GetFileSizeEx d dst) as [n|e] eqn:Eg.
  2: { apply copied_failed; [apply Hp| |done|done]. by eapply size_error. }
  apply size_content in Eg as ->. destruct (Z.eqb_spec (Z.of_nat (length (content d dst))) (Z.of_nat (length source))) as [Hl|Hl].
  { split; [apply Hp|]. split; [done|]. intros _. apply list_eq_bytes; [lia|exact Hall]. }
  destruct (SetFilePointerEx d dst (Z.of_nat (length source))) as [[]|e] eqn:Es.
  2: { apply copied_failed; [apply Hp| |done|done]. by eapply seek_error. }
  destruct (SetEndOfFile dst (Z.of_nat (length source)) d) as [d' r] eqn:Ee.
  pose proof (end_apart dst (Z.of_nat (length source)) d src files_apart) as Hs. rewrite Ee in Hs. cbn [fst] in Hs.
  rewrite (pt_source _ _ Hp) in Hs. destruct r as [[]|e].
  - apply end_content in Ee; [|lia]. rewrite Nat2Z.id in Ee. split; [done|]. split; [done|]. intros _.
    rewrite Ee. apply list_eq_bytes; [unfold resized; by rewrite length_resize|].
    intros i. rewrite byte_at_resized. case_decide; [apply Hall|]. by rewrite byte_at_ge by lia.
  - apply copied_failed; [done| |done|done]. by eapply end_error.
Qed.

(** What [MayHoldRemoteData] lets through is local. *)
Lemma MayHoldRemoteData_local attrs : MayHoldRemoteData attrs = false -> all_local (Ok attrs).
Proof.
  unfold MayHoldRemoteData, has_attr, all_local, remote_attributes, has_attr.
  rewrite !Z.land_lor_distr_r, negb_false_iff, Z.eqb_eq, !Z.lor_eq_0_iff. intros (H1 & H2 & H3 & H4).
  repeat constructor; by rewrite negb_false_iff, Z.eqb_eq.
Qed.

(** C7: whatever handles it gets, sparse ones, dense ones, or ones whose data a
    provider may keep elsewhere, [CopyFileDataKeepingHoles] ends and leaves the
    source as it was; and when it reports success, the destination, which held
    no byte but zeros and was no longer than the source, holds exactly the
    bytes of the source.  So skipping the holes gives what copying every byte
    gives; the allocated ranges say nothing of a hole of a file that is not all
    local, and such a file is copied byte by byte. *)
Theorem CopyFileDataKeepingHoles_copies d :
  Z.of_nat (length (content d src)) <= LLONG_MAX ->
  (forall i, byte_at (content d dst) i = 0) ->
  (length (content d dst) <= length (content d src))%nat ->
  let (d', status) := CopyFileDataKeepingHoles src dst d in
  content d' src = content d src /\ status <> NEVER_RETURNS /\
  (NT_SUCCESS status = true -> content d' dst = content d src).
Proof using files_apart DL.
  intros Hsz Hz Hl. change (let (d', status) := CopyFileDataKeepingHoles src dst d in copied (content d src) d' status).
  assert (Hp : partly (content d src) d) by (split; [done|done|]; intros i; by right).
  unfold CopyFileDataKeepingHoles. unfold ebind at 1, eread at 1.
  destruct (GetHandleAttributes d src) as [attrs|] eqn:Ea; cbn [negb]; [|by apply CopyBytesToEnd_ok].
  destruct (_ && _ && _) eqn:Ek; cbn [negb]; [|by apply CopyBytesToEnd_ok].
  apply andb_true_iff in Ek as [[_ Hlocal%negb_true_iff%MayHoldRemoteData_local]%andb_true_iff _].
  rewrite <- Ea in Hlocal. unfold ebind, eread, eret. destruct (GetFileSizeEx d src) as [n|e] eqn:Eg.
  2: { apply copied_failed; [done| |done|done]. by eapply size_error. }
  apply size_content in Eg as ->.
  destruct (CopyAllocatedRanges_ok (content d src) d Hp Hlocal Hsz) as (d1 & [status refused] & Hr & Hs & Hn & Hok).
  rewrite Hr. cbn [fst snd] in *. destruct (NT_SUCCESS status) eqn:Es; cbn [negb].
  - destruct (Hok eq_refl) as [Hp1 Hall]. destruct refused; [by apply CopyBytesFromStart_ok|].
    apply SetEndOfFileIfSizeDiffers_ok; [done|by apply Hall].
  - split; [done|]. split; [done|]. by rewrite Es.
Qed.
End Data.
