(* ===== verification/MemEntry.v ===== *)
(** * The concrete volume as a host of copies

    [EntryHost] over [mem_win32], for the witnesses: file data at positions,
    a range query that reports the bytes that are not zero, and none of an
    offline file, attributes and
    reparse points.  It has no streams and no extended attributes, and its
    security is trivial. *)

From S2P Require Export DiskLaws CopyDataFacts.
Open Scope Z_scope.

Module MemFiles.
Import MemWin32.

Definition ERROR_FILE_EXISTS : Z := 80.

Definition with_data (e : mem_entry) (data : list Z) : mem_entry :=
  MemEntry (me_attributes e) (me_tag e) data (me_reparse e).

Definition with_attributes (e : mem_entry) (attrs : Z) : mem_entry :=
  MemEntry attrs (me_tag e) (me_data e) (me_reparse e).

(** A change of the entry at a path. *)
Definition change (p : wstring) (f : mem_entry -> mem_entry) : eff volume (w32 unit) := fun v =>
  match lookup_entry v p with
  | Ok e => (put_entry v p (f e), Ok tt)
  | Err x => (v, Err x)
  end.

Definition data_of (v : volume) (p : wstring) : list Z :=
  match find_entry v (key p) with Some e => me_data e | None => [] end.

Definition write_at (p : wstring) (pos : Z) (data : list Z) : eff volume (w32 Z) := fun v =>
  if bool_decide (data = []) then (v, Ok 0)
  else match change p (fun e => with_data e (overwritten (Z.to_nat pos) data (me_data e))) v with
       | (v', Ok _) => (v', Ok (Z.of_nat (length data)))
       | (v', Err x) => (v', Err x)
       end.

Definition set_end (p : wstring) (n : Z) : eff volume (w32 unit) :=
  change p (fun e => with_data e (resized (Z.to_nat n) (me_data e))).

(** The ranges of one byte that hold no zero, from [i] on. *)
Fixpoint used_bytes (i : Z) (data : list Z) : list (Z * Z) :=
  match data with
  | [] => []
  | b :: data' => if b =? 0 then used_bytes (i + 1) data' else (i, 1) :: used_bytes (i + 1) data'
  end.

(** What the volume itself holds: nothing of an offline file. *)
Definition allocated (v : volume) (p : wstring) : list Z :=
  match find_entry v (key p) with
  | Some e => if has_attr (me_attributes e) FILE_ATTRIBUTE_OFFLINE then [] else me_data e
  | None => []
  end.

Definition query_ranges (v : volume) (p : wstring) (offset len : Z) (capacity : nat) : list (Z * Z) * w32 unit :=
  let ranges := used_bytes offset (take (Z.to_nat len) (drop (Z.to_nat offset) (allocated v p))) in
  if (length ranges <=? S capacity)%nat then (ranges, Ok tt) else (take (S capacity) ranges, Err ERROR_MORE_DATA).

Definition create_file (p : wstring) (disp : disposition) (flags : Z) : eff volume (w32 wstring) := fun v =>
  match disp, lookup_entry v p with
  | CREATE_NEW, Ok _ => (v, Err ERROR_FILE_EXISTS)
  | OPEN_ALWAYS, Ok _ => (v, Ok p)
  | _, _ => create_always p flags v
  end.

(** The bits that a write of [FileBasicInfo] does not touch. *)
Definition state_bits : Z :=
  Z.lor FILE_ATTRIBUTE_DIRECTORY (Z.lor FILE_ATTRIBUTE_REPARSE_POINT FILE_ATTRIBUTE_SPARSE_FILE).

Definition set_attributes (p : wstring) (attrs : Z) : eff volume (w32 unit) :=
  change p (fun e => if attrs =? 0 then e
                     else with_attributes e (Z.lor (Z.land (me_attributes e) state_bits) (Z.ldiff attrs state_bits))).

Definition set_sparse (p : wstring) (on : bool) : eff volume (w32 unit) :=
  change p (fun e => with_attributes e
    (if on then Z.lor (me_attributes e) FILE_ATTRIBUTE_SPARSE_FILE
     else Z.ldiff (me_attributes e) FILE_ATTRIBUTE_SPARSE_FILE)).

Definition set_reparse (p : wstring) (data : list Z) : eff volume (w32 unit) :=
  change p (fun e => MemEntry (Z.lor (me_attributes e) FILE_ATTRIBUTE_REPARSE_POINT) (le_field data 0 4)
                              (me_data e) data).
End MemFiles.

#[export] Instance mem_entry_host : EntryHost (W := mem_win32) := {|
  GetLastError := fun _ => ERROR_GEN_FAILURE : Z;
  GetSystemTimeAsFileTime := fun _ => FileTime 5 7;
  nt_code := fun s => if bool_decide (s = STATUS_SUCCESS) then 0 else 0xC0000001;
  GetCurrentProcessId := 10;
  GetCurrentThreadId := 11;
  OpenSharedW := fun v p _ _ _ => MemWin32.field (fun _ => p) v p;
  CreateFileW := fun p _ _ disp flags => MemFiles.create_file p disp flags;
  CloseHandle := fun _ => eret tt;
  ReadFileAt := fun v h pos n =>
    MemWin32.field (fun e => take (Z.to_nat n) (drop (Z.to_nat pos) (MemWin32.me_data e))) v h;
  WriteFileAt := MemFiles.write_at;
  SetFilePointerEx := fun _ _ _ => Ok tt;
  SetEndOfFile := MemFiles.set_end;
  QueryRanges := MemFiles.query_ranges;
  SetSparseState := MemFiles.set_sparse;
  SetCompressionState := fun _ => eret (Ok tt);
  SetAllocationSize := fun _ _ => eret (Ok tt);
  GetStreamInformation := fun _ _ _ => Err ERROR_HANDLE_EOF;
  EncryptFileW := fun _ => eret (Ok tt);
  GetFileIndex := fun _ _ => Ok (0, 42);
  GetFileTime := fun _ _ => Ok no_times;
  GetFileAttributesExW := MemWin32.field (fun e =>
    EntryData (MemWin32.me_attributes e) no_times 0 (Z.of_nat (length (MemWin32.me_data e))));
  GetBasicAttributes := MemWin32.field MemWin32.me_attributes;
  SetBasicInfo := fun h _ _ attrs => MemFiles.set_attributes h attrs;
  SetReparsePoint := MemFiles.set_reparse;
  has_ea_calls := true;
  NtQueryEaFile := fun _ _ _ => (STATUS_NO_EAS_ON_FILE, []);
  NtSetEaFile := fun _ _ => eret STATUS_SUCCESS;
  ListDirectoryNames := fun v h => (cFileName <$> MemWin32.list_children v h, ERROR_NO_MORE_FILES);
  SetDispositionEx := MemWin32.delete_entry;
  SetDisposition := MemWin32.delete_entry;
  GetFinalPathNameByHandleW := fun _ h => Some h;
  security := unit;
  access_list := unit;
  is_security_privilege_held := false;
  GetFileSecuritySize := fun _ _ _ => 1;
  GetFileSecurityW := fun _ _ _ _ => Ok tt;
  SetFileSecurityW := fun _ _ _ => eret (Ok tt);
  GetSecurityDescriptorDacl := fun _ => Some tt;
  GetSecurityDescriptorSacl := fun _ => None;
  GetNamedSecurityInfoW := fun _ _ _ => Ok (Some tt, None);
  SetNamedSecurityInfoW := fun _ _ _ _ => eret ERROR_SUCCESS;
  GetTokenUser := fun _ => Ok [];
  MakeProtectedDacl := fun _ _ => Ok tt;
  SetKernelObjectSecurity := fun _ _ => eret (Ok tt)
|}.

(** ** It has the documented behaviour of file data *)
Section Laws.
Import MemWin32 MemFiles.

Lemma data_of_put v p e q :
  data_of (put_entry v p e) q = if decide (key p = key q) then me_data e else data_of v q.
Proof. unfold data_of. rewrite find_entry_put. by case_decide. Qed.

Lemma change_ok v p f v' :
  change p f v = (v', Ok tt) -> exists e, find_entry v (key p) = Some e /\ v' = put_entry v p (f e).
Proof.
  unfold change, lookup_entry. destruct (find_entry v (key p)) as [e|]; [|done]. intros [= <-]. by exists e.
Qed.

Lemma change_apart v p f q : key p <> key q -> data_of (fst (change p f v)) q = data_of v q.
Proof.
  intros Hne. unfold change, lookup_entry. destruct (find_entry v (key p)); [|done]. cbn [fst].
  rewrite data_of_put. by rewrite decide_False.
Qed.

Lemma attributes_apart v p f q :
  key p <> key q -> field me_attributes (fst (change p f v)) q = field me_attributes v q.
Proof.
  intros Hne. unfold change, field, lookup_entry. destruct (find_entry v (key p)); [|done]. cbn [fst].
  by rewrite find_entry_put, decide_False.
Qed.

Lemma change_error v p f v' e : change p f v = (v', Err e) -> e = ERROR_FILE_NOT_FOUND.
Proof. unfold change, lookup_entry. destruct (find_entry v (key p)); [done|]. by intros [= _ <-]. Qed.

Lemma data_of_found v p e : find_entry v (key p) = Some e -> data_of v p = me_data e.
Proof. unfold data_of. by intros ->. Qed.

Lemma used_bytes_ascending i data : ascending i (used_bytes i data).
Proof.
  assert (Hw : forall data i j, j <= i -> ascending j (used_bytes i data)).
  { induction data0 as [|b data0 IH]; intros a j Hj; cbn; [done|].
    case_match; [apply IH; lia|]. split; [lia|]. split; [done|]. apply IH. lia. }
  apply Hw. lia.
Qed.

Lemma ascending_take n i ranges : ascending i ranges -> ascending i (take n ranges).
Proof.
  revert n i. induction ranges as [|[o l] ranges IH]; intros [|n] i; cbn; try done.
  intros (? & ? & Ha). split_and!; try done; try lia. by apply IH.
Qed.

Lemma used_bytes_in a data k :
  byte_at data k <> 0 -> (a + Z.of_nat k, 1) ∈ used_bytes a data.
Proof.
  revert a k. induction data as [|b data IH]; intros a k Hk; [by rewrite byte_at_ge in Hk by (cbn; lia)|].
  cbn. destruct k as [|k].
  - cbn in Hk. destruct (Z.eqb_spec b 0); [done|]. rewrite Z.add_0_r. left.
  - specialize (IH (a + 1) k Hk). replace (a + 1 + Z.of_nat k) with (a + Z.of_nat (S k)) in IH by lia.
    case_match; [done|by right].
Qed.

(** A range past the first [n] starts where these end, or later. *)
Lemma ascending_drop from n ranges g :
  ascending from ranges -> g ∈ drop n ranges -> ranges_end from (take n ranges) <= fst g.
Proof.
  revert from n. induction ranges as [|[o l] ranges IH]; intros from n; [by rewrite drop_nil; intros _ ?%elem_of_nil|].
  intros (Ho & Hl & Ha). destruct n as [|n].
  - cbn [drop take]. unfold ranges_end. cbn. intros [->|Hg]%elem_of_cons; [cbn; lia|].
    specialize (IH (o + l) 0%nat Ha Hg). rewrite take_0 in IH. unfold ranges_end in IH. cbn in IH. lia.
  - cbn [drop take]. intros Hg. rewrite ranges_end_cons. by apply IH.
Qed.

Lemma byte_at_window data o n k :
  byte_at (take n (drop o data)) k = if decide (k < n)%nat then byte_at data (o + k) else 0.
Proof.
  unfold byte_at. case_decide.
  - by rewrite lookup_take_lt, lookup_drop by lia.
  - by rewrite lookup_take_ge by lia.
Qed.

(** Both answers of a range query, in one form. *)
Lemma query_ranges_answer v p offset len capacity ranges r :
  query_ranges v p offset len capacity = (ranges, r) ->
  exists all, all = used_bytes offset (take (Z.to_nat len) (drop (Z.to_nat offset) (allocated v p))) /\
    ((ranges = all /\ r = Ok tt) \/
     (ranges = take (S capacity) all /\ r = Err ERROR_MORE_DATA /\ (S capacity < length all)%nat)).
Proof.
  unfold query_ranges. intros Hq. eexists. split; [done|]. revert Hq. case_match eqn:E; intros [= <- <-].
  - by left.
  - right. apply Nat.leb_gt in E. done.
Qed.

Lemma local_allocated v p : all_local (field me_attributes v p) -> allocated v p = data_of v p.
Proof.
  unfold field, lookup_entry, allocated, data_of. destruct (find_entry v (key p)) as [e|]; [|done].
  intros Hl. cbn in Hl. rewrite Forall_forall in Hl. by rewrite (Hl FILE_ATTRIBUTE_OFFLINE) by (vm_compute; set_solver).
Qed.

Lemma query_ranges_cover v p offset len capacity ranges r i :
  all_local (field me_attributes v p) -> 0 <= offset -> 0 < len -> query_ranges v p offset len capacity = (ranges, r) ->
  offset <= Z.of_nat i < answer_end offset len ranges r ->
  (forall g, g ∈ ranges -> ~ in_range (Z.of_nat i) g) -> byte_at (data_of v p) i = 0.
Proof.
  intros Hlocal%local_allocated Ho Hl Hq Hi Hno. destruct (query_ranges_answer _ _ _ _ _ _ _ Hq) as (all & Hall & Hcase).
  destruct (decide (byte_at (data_of v p) i = 0)) as [|Hne]; [done|exfalso].
  assert (Ha : ascending offset all) by (subst all; apply used_bytes_ascending).
  assert (Hin : Z.of_nat i < offset + len -> (Z.of_nat i, 1) ∈ all).
  { intros Hlt. pose proof (used_bytes_in offset (take (Z.to_nat len) (drop (Z.to_nat offset) (data_of v p)))
                              (i - Z.to_nat offset)) as Hu.
    rewrite Hlocal in Hall.
    rewrite byte_at_window, decide_True in Hu by lia.
    replace (Z.to_nat offset + (i - Z.to_nat offset))%nat with i in Hu by lia. specialize (Hu Hne).
    rewrite <- Hall in Hu. replace (offset + Z.of_nat (i - Z.to_nat offset)) with (Z.of_nat i) in Hu by lia. done. }
  assert (Hself : in_range (Z.of_nat i) (Z.of_nat i, 1)) by (unfold in_range; cbn; lia).
  destruct Hcase as [[-> ->]|(-> & -> & Hlen)].
  - cbn [answer_end] in Hi. apply (Hno (Z.of_nat i, 1)); [apply Hin; lia|done].
  - change (answer_end offset len (take (S capacity) all) (Err ERROR_MORE_DATA)) with (ranges_end offset (take (S capacity) all)) in Hi.
    assert (Hend : ranges_end offset (take (S capacity) all) <= offset + len).
    { destruct (drop (S capacity) all) as [|g rest] eqn:Ed.
      { apply (f_equal length) in Ed. rewrite length_drop in Ed. cbn in Ed. lia. }
      pose proof (ascending_drop offset (S capacity) all g Ha) as Hd. rewrite Ed in Hd. specialize (Hd ltac:(left)).
      assert (Hg : g ∈ all) by (rewrite <- (take_drop (S capacity) all), Ed; apply elem_of_app; right; left).
      assert (Hb : fst g < offset + len).
      { subst all. clear -Hg Hl. revert Hg.
        assert (Hu : forall data a, g ∈ used_bytes a data -> a <= fst g < a + Z.of_nat (length data)).
        { induction data as [|b data IH]; intros a; cbn; [by intros ?%elem_of_nil|].
          case_match; [intros Hg%IH; lia|]. intros [->|Hg%IH]%elem_of_cons; cbn; lia. }
        intros Hg%Hu. rewrite length_take in Hg. lia. }
      lia. }
    assert (Hg : (Z.of_nat i, 1) ∈ all) by (apply Hin; lia).
    rewrite <- (take_drop (S capacity) all) in Hg. apply elem_of_app in Hg as [Hg|Hg]; [by apply (Hno _ Hg)|].
    pose proof (ascending_drop offset (S capacity) all _ Ha Hg) as Hd. cbn in Hd. lia.
Qed.
End Laws.

#[export] Instance mem_data_laws : DataLaws (W := mem_win32) (H := mem_entry_host).
Proof.
  refine {| content := MemFiles.data_of; apart := fun a b => MemWin32.key a <> MemWin32.key b |};
    intros *; cbn [disk handle GetHandleAttributes GetFileSizeEx ReadFileAt WriteFileAt SetEndOfFile SetFilePointerEx QueryRanges
                   mem_win32 mem_entry_host].
  - unfold MemWin32.field, MemWin32.lookup_entry, MemFiles.data_of.
    destruct (MemWin32.find_entry d (MemWin32.key h)); [|done]. by intros [= <-].
  - unfold MemWin32.field, MemWin32.lookup_entry, MemFiles.data_of. intros Hp Hn.
    destruct (MemWin32.find_entry d (MemWin32.key h)) as [e|]; [|done]. intros [= <-].
    split; [apply prefix_take|]. rewrite length_take, length_drop. split; [lia|].
    intros Hnil. apply (f_equal length) in Hnil. rewrite length_take, length_drop in Hnil. cbn in Hnil. lia.
  - intros Hp Hd. unfold MemFiles.write_at. rewrite bool_decide_false by done.
    destruct (MemFiles.change _ _ d) as [v' [[]|x]] eqn:E; [|done]. intros [= <-].
    apply change_ok in E as (e & He & ->). rewrite data_of_put, decide_True by done. by rewrite (data_of_found _ _ _ He).
  - intros Hne. unfold MemFiles.write_at. case_bool_decide; [done|].
    pose proof (change_apart d h (fun e => MemFiles.with_data e (overwritten (Z.to_nat pos) data (MemWin32.me_data e))) h' Hne) as Hc.
    destruct (MemFiles.change _ _ d) as [v' [[]|x]]; exact Hc.
  - intros Hn. unfold MemFiles.set_end. intros E. apply change_ok in E as (e & He & ->).
    rewrite data_of_put, decide_True by done. by rewrite (data_of_found _ _ _ He).
  - intros Hne. by apply change_apart.
  - intros Ho Hl Hq _. destruct (query_ranges_answer _ _ _ _ _ _ _ Hq) as (all & -> & [[-> _]|[-> _]]);
      [|apply ascending_take]; apply used_bytes_ascending.
  - intros Hne. unfold MemFiles.write_at. case_bool_decide; [done|].
    pose proof (attributes_apart d h (fun e => MemFiles.with_data e (overwritten (Z.to_nat pos) data (MemWin32.me_data e))) h' Hne) as Hc.
    destruct (MemFiles.change _ _ d) as [v' [[]|x]]; exact Hc.
  - intros Hlocal Ho Hl Hq _. by apply (query_ranges_cover _ _ _ _ capacity).
  - intros Hq. destruct (query_ranges_answer _ _ _ _ _ _ _ Hq) as (all & Hall & [[_ ->]|(He & _ & Hlen)]); [done|].
    destruct all; [cbn in Hlen; lia|done].
  - unfold MemFiles.write_at. case_bool_decide; [done|].
    destruct (MemFiles.change _ _ d) as [v' [[]|x]] eqn:E; [done|]. intros [= _ <-].
    apply change_error in E as ->. done.
  - unfold MemWin32.field, MemWin32.lookup_entry. destruct (MemWin32.find_entry d (MemWin32.key h)); [done|]. by intros [= <-].
  - done.
  - unfold MemWin32.field, MemWin32.lookup_entry. destruct (MemWin32.find_entry d (MemWin32.key h)); [done|]. by intros [= <-].
  - intros E. by apply change_error in E as ->.
Defined.

(** ** Copies of entries on the concrete volume

    A sparse file with a hole, copied to an empty sparse file, with the
    witness of [CopyFileDataKeepingHoles_copies]. *)

Module SparseCopy.
Definition sparse (data : list Z) : MemWin32.mem_entry :=
  MemWin32.MemEntry (Z.lor FILE_ATTRIBUTE_ARCHIVE FILE_ATTRIBUTE_SPARSE_FILE) 0 data [].

Definition src : wstring := L "C:\a\f".
Definition dst : wstring := L "C:\u\f".
Definition volume : MemWin32.volume := [(src, sparse [1; 0; 0; 2; 0]); (dst, sparse [])].

Definition copy : MemWin32.volume * NTSTATUS :=
  @CopyFileDataKeepingHoles mem_win32 mem_entry_host src dst volume.

(** The same file, offline: its ranges show one hole. *)
Definition offline_volume : MemWin32.volume :=
  [(src, MemFiles.with_attributes (sparse [1; 0; 0; 2; 0])
           (Z.lor FILE_ATTRIBUTE_OFFLINE (Z.lor FILE_ATTRIBUTE_ARCHIVE FILE_ATTRIBUTE_SPARSE_FILE))); (dst, sparse [])].

Definition offline_copy : MemWin32.volume * NTSTATUS :=
  @CopyFileDataKeepingHoles mem_win32 mem_entry_host src dst offline_volume.
End SparseCopy.

(** The copy goes through the allocated ranges, and the last hole is made by
    the end of the file. *)
Example sparse_copy_done :
  snd SparseCopy.copy = STATUS_SUCCESS /\
  MemFiles.data_of (fst SparseCopy.copy) SparseCopy.dst = [1; 0; 0; 2; 0].
Proof. vm_compute. done. Qed.

(** The copy through the ranges, and the copy of a file whose ranges say
    nothing. *)
Lemma CopyFileDataKeepingHoles_copies_witness :
  (snd SparseCopy.copy = STATUS_SUCCESS /\
   content (fst SparseCopy.copy) SparseCopy.dst = content SparseCopy.volume SparseCopy.src) /\
  (MemFiles.query_ranges SparseCopy.offline_volume SparseCopy.src 0 5 3 = ([], Ok tt) /\
   snd SparseCopy.offline_copy = STATUS_SUCCESS /\
   content (fst SparseCopy.offline_copy) SparseCopy.dst = content SparseCopy.offline_volume SparseCopy.src).
Proof.
  assert (Hs : snd SparseCopy.copy = STATUS_SUCCESS /\ snd SparseCopy.offline_copy = STATUS_SUCCESS)
    by (split; vm_compute; reflexivity).
  destruct Hs as [Hs Ho].
  pose proof (CopyFileDataKeepingHoles_copies (W := mem_win32) (H := mem_entry_host) SparseCopy.src SparseCopy.dst) as Hc.
  specialize (Hc ltac:(vm_compute; discriminate)).
  split; [split; [exact Hs|]|split; [vm_compute; reflexivity|split; [exact Ho|]]].
  - specialize (Hc SparseCopy.volume ltac:(vm_compute; discriminate) ltac:(intros [|i]; vm_compute; reflexivity)
                  ltac:(vm_compute; lia)).
    change (@CopyFileDataKeepingHoles mem_win32 mem_entry_host SparseCopy.src SparseCopy.dst SparseCopy.volume)
      with SparseCopy.copy in Hc.
    destruct SparseCopy.copy as [d' status]. cbn [snd] in Hs. destruct Hc as (_ & _ & Hc). apply Hc. by rewrite Hs.
  - specialize (Hc SparseCopy.offline_volume ltac:(vm_compute; discriminate) ltac:(intros [|i]; vm_compute; reflexivity)
                  ltac:(vm_compute; lia)).
    change (@CopyFileDataKeepingHoles mem_win32 mem_entry_host SparseCopy.src SparseCopy.dst SparseCopy.offline_volume)
      with SparseCopy.offline_copy in Hc.
    destruct SparseCopy.offline_copy as [d' status]. cbn [snd] in Ho. destruct Hc as (_ & _ & Hc). apply Hc. by rewrite Ho.
Defined.
