(* ===== verification/EntryAttributes.v ===== *)
(** * Streams, extended attributes, reparse points and times of a copy

    The second half of [EntryCopy.cpp].  The lists of streams and of extended
    attributes are parsed from their bytes, as the source parses them. *)
From S2P Require Export EntryCopy.
Open Scope Z_scope.

(** ** The list of streams: [FILE_STREAM_INFO] records

    [NextEntryOffset] at 0, [StreamNameLength] at 4, the name at 24.  A read
    past the bytes that the call returned meets the zeros of the buffer. *)
Definition stream_name_offset : nat := 24.

Fixpoint stream_names (fuel : nat) (data : list Z) (entry : nat) : list wstring :=
  let nextEntryOffset := Z.to_nat (le_field data entry 4) in
  let nameLength := Z.to_nat (le_field data (entry + 4) 4) in
  let name := utf16_text (take (2 * (nameLength / 2)) (drop (entry + stream_name_offset) data)) in
  match fuel with
  | O => [name]
  | S fuel' => if (nextEntryOffset =? 0)%nat then [name]
               else name :: stream_names fuel' data (entry + nextEntryOffset)
  end.

(** The names that [ForEachUserStream] visits. *)
Definition user_streams (data : list Z) : list wstring :=
  if bool_decide (data = []) then []
  else filter (fun name => IsUserAlternateStream name) (stream_names (length data) data 0).

(** ** The list of extended attributes: [FILE_FULL_EA_INFORMATION] records *)

Definition sizeof_FullEaHeader : nat := 8.

Record FullEaHeader := {
  nextEntryOffset : nat;
  eaFlags : Z;
  nameLength : nat;
  valueLength : nat
}.

Definition ea_header (data : list Z) (offset : nat) : FullEaHeader := {|
  nextEntryOffset := Z.to_nat (le_field data offset 4);
  eaFlags := le_field data (offset + 4) 1;
  nameLength := Z.to_nat (le_field data (offset + 5) 1);
  valueLength := Z.to_nat (le_field data (offset + 6) 2)
|}.

Definition AlignedToUlong (offset : nat) : nat := (offset + 3) / 4 * 4.

(** [_strnicmp] in the C locale folds ASCII letters. *)
Definition ascii_fold (c : Z) : Z := if (65 <=? c) && (c <=? 90) then c + 32 else c.

Definition IsKernelExtendedAttributeName (name : list Z) : bool :=
  let prefix := L "$KERNEL." in
  (length prefix <=? length name)%nat &&
  bool_decide (ascii_fold <$> take (length prefix) name = ascii_fold <$> prefix).

(** [nextEntryOffset] of the entry at [offset] becomes [v]. *)
Definition set_next_offset (data : list Z) (offset v : nat) : list Z :=
  take offset data ++ le_encode 4 (Z.of_nat v) ++ drop (offset + 4) data.

Fixpoint ea_count (fuel : nat) (data : list Z) (offset : nat) : nat :=
  if (offset + sizeof_FullEaHeader <=? length data)%nat then
    let header := ea_header data offset in
    if (nextEntryOffset header =? 0)%nat then 1
    else match fuel with
         | O => 1
         | S fuel' => S (ea_count fuel' data (offset + nextEntryOffset header))
         end
  else 0.

(** Every pass moves on by a byte at least, so the length bounds the loop. *)
Definition FullEaEntryCount (data : list Z) : nat := ea_count (length data) data 0.

(** The loop of [ExtendedAttributesUserModeCanSet]. *)
Fixpoint ea_settable (fuel : nat) (data : list Z) (offset lastKept : nat) (settable : list Z) : list Z :=
  match fuel with
  | O => settable
  | S fuel' =>
      if negb (offset + sizeof_FullEaHeader <=? length data)%nat then settable
      else
        let header := ea_header data offset in
        let entrySize := (sizeof_FullEaHeader + nameLength header + 1 + valueLength header)%nat in
        if (length data <? offset + entrySize)%nat then settable
        else
          let name := take (nameLength header) (drop (offset + sizeof_FullEaHeader) data) in
          let '(lastKept, settable) :=
            if IsKernelExtendedAttributeName name then (lastKept, settable)
            else
              let aligned :=
                if bool_decide (settable = []) then []
                else
                  let resized := settable ++ replicate (AlignedToUlong (length settable) - length settable) 0 in
                  set_next_offset resized lastKept (length resized - lastKept) in
              (length aligned,
               set_next_offset (aligned ++ take entrySize (drop offset data)) (length aligned) 0) in
          if (nextEntryOffset header =? 0)%nat then settable
          else ea_settable fuel' data (offset + nextEntryOffset header) lastKept settable
  end.

Definition ExtendedAttributesUserModeCanSet (data : list Z) : list Z :=
  ea_settable (S (length data)) data 0 0 [].

Definition RefusesExtendedAttributes (status : NTSTATUS) : bool :=
  bool_decide (status ∈ [STATUS_EAS_NOT_SUPPORTED; STATUS_NOT_SUPPORTED; STATUS_INVALID_DEVICE_REQUEST]).

Section Attributes.
Context `{W : Win32} `{J : Json} `{H : !EntryHost}.

(** ** Streams *)

Definition CopyAlternateStream (src dst streamName : wstring) : eff disk NTSTATUS :=
  (let srcFull := WithExtendedPrefix src ++ streamName in
   let dstFull := WithExtendedPrefix dst ++ streamName in
   let! opened := eread (fun d => OpenSharedW d srcFull GENERIC_READ share_all
                                    (Z.lor FILE_FLAG_SEQUENTIAL_SCAN FILE_FLAG_BACKUP_SEMANTICS)) in
   match opened with
   | Err e => eret (failed_status e ERROR_READ_FAULT)
   | Ok srcHandle =>
       let! created := CreateFileW dstFull GENERIC_WRITE share_all CREATE_ALWAYS
                         (Z.lor FILE_ATTRIBUTE_NORMAL FILE_FLAG_BACKUP_SEMANTICS) in
       match created with
       | Err e => eret (failed_status e ERROR_WRITE_FAULT)
       | Ok dstHandle =>
           let! status := CopyBytesToEnd srcHandle dstHandle in
           do! CloseHandle dstHandle in
           if NT_SUCCESS status then eret status
           else do! DeleteFileW dstFull in eret status
       end
   end)%eff.

(** The buffer doubles until the list fits; 16 doublings pass the limit. *)
Fixpoint read_stream_list (fuel : nat) (d : disk) (h : handle) (size : Z) : nt (list Z) :=
  match fuel with
  | O => Err STATUS_INSUFFICIENT_RESOURCES
  | S fuel' =>
      match GetStreamInformation d h size with
      | Ok data => Ok data
      | Err err =>
          if err =? ERROR_HANDLE_EOF then Ok []
          else if negb (err =? ERROR_MORE_DATA) then Err (StatusFromWin32Error err ERROR_READ_FAULT)
          else if MAXDWORD / 2 <? size then Err STATUS_INSUFFICIENT_RESOURCES
          else read_stream_list fuel' d h (size * 2)
      end
  end.

Definition ReadStreamList (d : disk) (h : handle) : nt (list Z) := read_stream_list 16 d h kInitialStreamListSize.

Definition ReadStreamListOfPath (d : disk) (path : wstring) : nt (list Z) :=
  match OpenSharedW d (WithExtendedPrefix path) FILE_READ_ATTRIBUTES share_all FILE_FLAG_BACKUP_SEMANTICS with
  | Err e => Err (failed_status e ERROR_READ_FAULT)
  | Ok h => ReadStreamList d h
  end.

Definition ForEachUserStream (data : list Z) (visit : wstring -> eff disk NTSTATUS) : eff disk NTSTATUS :=
  visit_all visit (user_streams data).

Definition CopyUserAlternateDataStreams (src dst : wstring) : eff disk NTSTATUS :=
  (let! listed := eread (fun d => ReadStreamListOfPath d src) in
   match listed with
   | Err status => eret status
   | Ok data => ForEachUserStream data (CopyAlternateStream src dst)
   end)%eff.

Definition HasUserAlternateDataStream (d : disk) (path : wstring) : nt bool :=
  match ReadStreamListOfPath d path with
  | Err status => Err status
  | Ok data => Ok (negb (bool_decide (user_streams data = [])))
  end.

(** ** Extended attributes *)

(** One pass of the loop of [CopyExtendedAttributes]; the loop state is
    [nextIndex] and [dstHandle]. *)
Definition copy_ea_batch (src : handle) (dstPath : wstring) (st : Z * option handle)
  : eff disk ((Z * option handle) + NTSTATUS) :=
  (let (nextIndex, dstHandle) := st in
   let! (readStatus, bytes) := eread (fun d =>
     NtQueryEaFile d src (if nextIndex =? 1 then None else Some nextIndex)) in
   if bool_decide (readStatus = STATUS_NO_EAS_ON_FILE) || bool_decide (readStatus = STATUS_NO_MORE_EAS) ||
      RefusesExtendedAttributes readStatus then eret (inr STATUS_SUCCESS)
   else if negb (NT_SUCCESS readStatus) && negb (bool_decide (readStatus = STATUS_BUFFER_OVERFLOW))
   then eret (inr readStatus)
   else if bool_decide (bytes = []) then eret (inr STATUS_SUCCESS)
   else
     let nextIndex := (nextIndex + Z.of_nat (FullEaEntryCount bytes)) mod 2 ^ 32 in
     let settable := ExtendedAttributesUserModeCanSet bytes in
     if bool_decide (settable = []) then eret (inl (nextIndex, dstHandle))
     else
       let! opened := (match dstHandle with
                       | Some h => eret (Ok h)
                       | None => eread (fun d => OpenSharedW d (WithExtendedPrefix dstPath) FILE_WRITE_EA share_all
                                                   (Z.lor FILE_FLAG_OPEN_REPARSE_POINT FILE_FLAG_BACKUP_SEMANTICS))
                       end) in
       match opened with
       | Err e => eret (inr (failed_status e ERROR_WRITE_FAULT))
       | Ok h =>
           let! writeStatus := NtSetEaFile h settable in
           if RefusesExtendedAttributes writeStatus then eret (inr STATUS_SUCCESS)
           else if negb (NT_SUCCESS writeStatus) then eret (inr writeStatus)
           else eret (inl (nextIndex, Some h))
       end)%eff.

Definition CopyExtendedAttributes (srcPath dstPath : wstring) : eff disk NTSTATUS :=
  (if negb has_ea_calls then eret STATUS_PROCEDURE_NOT_FOUND
   else
     let! opened := eread (fun d => OpenSharedW d (WithExtendedPrefix srcPath) FILE_READ_EA share_all
                                      (Z.lor FILE_FLAG_OPEN_REPARSE_POINT FILE_FLAG_BACKUP_SEMANTICS)) in
     match opened with
     | Err e => eret (failed_status e ERROR_READ_FAULT)
     | Ok src => run_loop (2 ^ 32) (copy_ea_batch src dstPath) NEVER_RETURNS (1, None)
     end)%eff.

Definition CopyDirectoryOwnMetadata (srcAbs dstAbs : wstring) : eff disk NTSTATUS :=
  (let! srcAttrs := eread (fun d => GetFileAttributesW d (WithExtendedPrefix srcAbs)) in
   let copyRest := step! CopyUserAlternateDataStreams srcAbs dstAbs in CopyExtendedAttributes srcAbs dstAbs in
   match srcAttrs with
   | Err _ => copyRest
   | Ok attrs =>
       do! (if HasFileAttribute attrs FILE_ATTRIBUTE_COMPRESSED then SetCompressedDirectory dstAbs else eret tt) in
       let! encrypted := ApplyEncryptedStateIfNeeded dstAbs attrs in
       match encrypted with
       | Err e => eret (failed_status e ERROR_ACCESS_DENIED)
       | Ok _ => copyRest
       end
   end)%eff.

(** ** Reparse points *)

Definition open_for_reparse (d : disk) (path : wstring) (access : Z) : w32 handle :=
  OpenSharedW d (WithExtendedPrefix path) access share_all
    (Z.lor FILE_FLAG_OPEN_REPARSE_POINT FILE_FLAG_BACKUP_SEMANTICS).

(** The empty file or directory that takes the reparse point. *)
Definition create_reparse_host (dstAbsolute : wstring) (srcAttrs : Z) : eff disk NTSTATUS :=
  (if has_attr srcAttrs FILE_ATTRIBUTE_DIRECTORY then CreateDirectoryOrUseExisting dstAbsolute
   else
     let! created := CreateFileW (WithExtendedPrefix dstAbsolute) GENERIC_WRITE 0 CREATE_ALWAYS
                       FILE_ATTRIBUTE_NORMAL in
     match created with
     | Err e => eret (failed_status e ERROR_WRITE_FAULT)
     | Ok h => do! CloseHandle h in eret STATUS_SUCCESS
     end)%eff.

Definition CopyUpReparsePointEntry (srcAbsolute dstAbsolute : wstring) (srcAttrs : Z) : eff disk NTSTATUS :=
  (let! opened := eread (fun d => open_for_reparse d srcAbsolute FILE_READ_ATTRIBUTES) in
   match opened with
   | Err e => eret (failed_status e ERROR_READ_FAULT)
   | Ok srcH =>
       let! data := eread (fun d => GetReparseData d srcH) in
       match data with
       | Err e => eret (StatusFromWin32Error e ERROR_READ_FAULT)
       | Ok reparseBuf =>
           step! create_reparse_host dstAbsolute srcAttrs in
           let! dst := eread (fun d => open_for_reparse d dstAbsolute FILE_WRITE_ATTRIBUTES) in
           match dst with
           | Err e => eret (failed_status e ERROR_WRITE_FAULT)
           | Ok dstH =>
               let! set := SetReparsePoint dstH reparseBuf in
               eret match set with
                    | Err e => StatusFromWin32Error e ERROR_WRITE_FAULT
                    | Ok _ => STATUS_SUCCESS
                    end
           end
       end
   end)%eff.

Definition CloneReparsePointWithCopyUpRecord (source : SourceEntry) (dstAbsolute : wstring)
    (policy : EntryCopyPolicy) : eff disk NTSTATUS :=
  (let kind := NewUpperEntryKindOf (sourceAttributes source) in
   let! status := (step! CopyUpReparsePointEntry (sourcePath source) dstAbsolute (sourceAttributes source) in
                   CopyExtendedAttributes (sourcePath source) dstAbsolute) in
   if negb (NT_SUCCESS status) then do! RemoveNewUpperEntry dstAbsolute kind in eret status
   else
     let! metadata := eread (fun d => CopiedEntryMetadata d (sourcePath source) (record policy) (policyConfig policy)) in
     WriteCopyUpRecordOrRemoveEntry dstAbsolute metadata kind (policyConfig policy))%eff.

(** ** Times and attributes *)

Definition EntryTimesOf (data : entry_data) : entry_times := ed_times data.

(** A change time of -1 keeps the stored one; zero times keep the stored ones. *)
Definition ClearReadOnly (entry : handle) (attributes : Z) : eff disk (w32 unit) :=
  if negb (has_attr attributes FILE_ATTRIBUTE_READONLY) then eret (Ok tt)
  else SetBasicInfo entry no_times (-1)
         (AttributesFileBasicInfoCanSet (Z.ldiff attributes FILE_ATTRIBUTE_READONLY)).

Definition WriteEntryTimes (path : wstring) (times : entry_times) (attributes : option Z) : eff disk (w32 unit) :=
  (let! opened := eread (fun d => OpenExistingW d (WithExtendedPrefix path) FILE_WRITE_ATTRIBUTES
                                    FILE_FLAG_BACKUP_SEMANTICS) in
   match opened with
   | Err e => eret (Err e)
   | Ok h =>
       match attributes with
       | Some attrs => SetBasicInfo h times (-1) (AttributesFileBasicInfoCanSet attrs)
       | None => SetFileTime h times
       end
   end)%eff.

Definition WriteOwnAttributes (path : wstring) (attributes : Z) : eff disk (w32 unit) :=
  (let! opened := eread (fun d => OpenExistingW d (WithExtendedPrefix path) FILE_WRITE_ATTRIBUTES
                                    (Z.lor FILE_FLAG_BACKUP_SEMANTICS FILE_FLAG_OPEN_REPARSE_POINT)) in
   match opened with
   | Err e => eret (Err e)
   | Ok h =>
       let kept := Z.land attributes own_settable in
       SetBasicInfo h no_times 0 (if kept =? 0 then FILE_ATTRIBUTE_NORMAL else kept)
   end)%eff.

(** ** Security *)

Definition WriteSecurityToInheritAs (dirAbs parentAbs : wstring) : eff disk NTSTATUS :=
  (let lists := DropSaclWithoutPrivilege (Z.lor DACL_SECURITY_INFORMATION SACL_SECURITY_INFORMATION) in
   let! parent := eread (fun d => GetNamedSecurityInfoW d (WithExtendedPrefix parentAbs) lists) in
   match parent with
   | Err readError => eret (NtStatusFromWin32 readError)
   | Ok (parentDacl, parentSacl) =>
       let protection :=
         if has_attr lists SACL_SECURITY_INFORMATION
         then Z.lor PROTECTED_DACL_SECURITY_INFORMATION PROTECTED_SACL_SECURITY_INFORMATION
         else PROTECTED_DACL_SECURITY_INFORMATION in
       let! writeError := SetNamedSecurityInfoW (WithExtendedPrefix dirAbs) (Z.lor lists protection)
                            parentDacl parentSacl in
       eret (if writeError =? ERROR_SUCCESS then STATUS_SUCCESS else NtStatusFromWin32 writeError)
   end)%eff.
End Attributes.
