(* ===== verification/EaFacts.v ===== *)
(** * The list of extended attributes that a copy writes

    [ExtendedAttributesUserModeCanSet] against a reader of the documented list
    format: the copy holds the entries that a user-mode write may set, in
    order, each at a boundary of four bytes. *)
From S2P Require Export EntryAttributes.
Open Scope Z_scope.

(** An extended attribute. *)
Record ea := Ea { ea_flags : Z; ea_name : list Z; ea_value : list Z }.

Definition entry_size (h : FullEaHeader) : nat := (sizeof_FullEaHeader + nameLength h + 1 + valueLength h)%nat.

(** The whole entry at [offset], if the list holds it. *)
Definition ea_here (data : list Z) (offset : nat) : option ea :=
  let h := ea_header data offset in
  if (offset + sizeof_FullEaHeader <=? length data)%nat && (offset + entry_size h <=? length data)%nat then
    Some (Ea (eaFlags h) (take (nameLength h) (drop (offset + sizeof_FullEaHeader) data))
             (take (valueLength h) (drop (offset + sizeof_FullEaHeader + nameLength h + 1) data)))
  else None.

(** The entries of a list with their offsets, up to the first that runs past
    its end. *)
Fixpoint ea_walk (fuel : nat) (data : list Z) (offset : nat) : list (nat * ea) :=
  match fuel with
  | O => []
  | S fuel' =>
      match ea_here data offset with
      | None => []
      | Some e => (offset, e) ::
          (if (nextEntryOffset (ea_header data offset) =? 0)%nat then []
           else ea_walk fuel' data (offset + nextEntryOffset (ea_header data offset)))
      end
  end.

Definition ea_list (data : list Z) : list (nat * ea) := ea_walk (S (length data)) data 0.

Definition user_settable (e : ea) : bool := negb (IsKernelExtendedAttributeName (ea_name e)).

(** ** An entry without its first field *)

Definition raw_name_length (r : list Z) : nat := Z.to_nat (le_field r 1 1).
Definition raw_value_length (r : list Z) : nat := Z.to_nat (le_field r 2 2).

Definition decode (r : list Z) : ea :=
  Ea (le_field r 0 1) (take (raw_name_length r) (drop 4 r))
     (take (raw_value_length r) (drop (4 + raw_name_length r + 1) r)).

Definition raw_ok (r : list Z) : Prop :=
  length r = (4 + raw_name_length r + 1 + raw_value_length r)%nat /\ Z.of_nat (length r) < 131072.

Lemma le_field_byte_bound r off w :
  Forall is_byte r -> 0 <= le_field r off w < 256 ^ Z.of_nat w.
Proof.
  intros Hr. unfold le_field.
  pose proof (le_decode_bound (take w (drop off r)) ltac:(by apply Forall_take, Forall_drop)) as Hb.
  rewrite length_take, length_drop in Hb.
  assert (256 ^ Z.of_nat (w `min` (length r - off)) <= 256 ^ Z.of_nat w) by (apply Z.pow_le_mono_r; lia). lia.
Qed.

Lemma ea_here_raw data offset e :
  Forall is_byte data -> ea_here data offset = Some e ->
  exists first r, take (entry_size (ea_header data offset)) (drop offset data) = first ++ r /\
    length first = 4%nat /\ raw_ok r /\ decode r = e /\
    (offset + sizeof_FullEaHeader <= length data)%nat /\ (offset + entry_size (ea_header data offset) <= length data)%nat.
Proof.
  intros Hby. unfold ea_here. destruct (andb _ _) eqn:Eb; [|done].
  apply andb_true_iff in Eb as [H1%Nat.leb_le H2%Nat.leb_le]. intros [= <-].
  set (n := entry_size (ea_header data offset)) in *.
  set (all := take n (drop offset data)).
  assert (Hn : (8 < n)%nat) by (unfold n, entry_size, sizeof_FullEaHeader; lia).
  assert (Hall : length all = n) by (unfold all; rewrite length_take, length_drop; lia).
  assert (Hf : forall o w, (4 <= o)%nat -> (o + w <= n)%nat -> le_field (drop 4 all) (o - 4) w = le_field data (offset + o) w).
  { intros o w Ho Hw. unfold le_field. rewrite drop_drop. replace (4 + (o - 4))%nat with o by lia. f_equal.
    unfold all. rewrite skipn_firstn_comm, drop_drop, take_take. f_equal. lia. }
  assert (Hnl : raw_name_length (drop 4 all) = nameLength (ea_header data offset)).
  { exact (f_equal Z.to_nat (Hf 5%nat 1%nat ltac:(lia) ltac:(lia))). }
  assert (Hvl : raw_value_length (drop 4 all) = valueLength (ea_header data offset)).
  { exact (f_equal Z.to_nat (Hf 6%nat 2%nat ltac:(lia) ltac:(lia))). }
  exists (take 4 all), (drop 4 all). rewrite take_drop. split; [done|]. split; [rewrite length_take; lia|].
  split.
  - unfold raw_ok. rewrite Hnl, Hvl, length_drop, Hall. split; [unfold n, entry_size, sizeof_FullEaHeader; lia|].
    pose proof (le_field_byte_bound data (offset + 5) 1 Hby) as Hb1.
    pose proof (le_field_byte_bound data (offset + 6) 2 Hby) as Hb2.
    unfold n, entry_size, sizeof_FullEaHeader, ea_header. cbn [nameLength valueLength].
    change (256 ^ Z.of_nat 1) with 256 in Hb1. change (256 ^ Z.of_nat 2) with 65536 in Hb2.
    lia.
  - split; [|done]. unfold decode. rewrite Hnl, Hvl.
    replace (le_field (drop 4 all) 0 1) with (eaFlags (ea_header data offset))
      by (symmetry; apply (Hf 4%nat 1%nat); lia).
    assert (Hcut : forall o w, (4 <= o)%nat -> (o + w <= n)%nat ->
              take w (drop (o - 4) (drop 4 all)) = take w (drop (offset + o) data)).
    { intros o w Ho Hw. rewrite drop_drop. replace (4 + (o - 4))%nat with o by lia.
      unfold all. rewrite skipn_firstn_comm, drop_drop, take_take. f_equal. lia. }
    f_equal.
    + apply (Hcut 8%nat (nameLength (ea_header data offset))); unfold n, entry_size, sizeof_FullEaHeader; lia.
    + replace (4 + nameLength (ea_header data offset) + 1)%nat with (9 + nameLength (ea_header data offset) - 4)%nat by lia.
      rewrite (Hcut _ (valueLength (ea_header data offset))) by (unfold n, entry_size, sizeof_FullEaHeader; lia).
      do 2 f_equal. unfold sizeof_FullEaHeader. cbn [ea_header nameLength]. lia.
Qed.

Lemma ea_here_at pre v r rest :
  raw_ok r -> 0 <= v < 2 ^ 32 ->
  let data := pre ++ le_encode 4 v ++ r ++ rest in
  ea_here data (length pre) = Some (decode r) /\ nextEntryOffset (ea_header data (length pre)) = Z.to_nat v.
Proof.
  intros [Hr _] Hv data.
  assert (Hf : forall o w, (4 <= o)%nat -> (o + w <= 4 + length r)%nat ->
            le_field data (length pre + o) w = le_field r (o - 4) w).
  { intros o w Ho Hw. unfold data. rewrite le_field_app_r by lia. rewrite le_field_app_r by (rewrite le_encode_length; lia).
    rewrite le_encode_length, le_field_app_l by lia. f_equal. lia. }
  assert (Hnl : nameLength (ea_header data (length pre)) = raw_name_length r).
  { unfold ea_header. cbn [nameLength]. rewrite (Hf 5%nat 1%nat) by lia. done. }
  assert (Hvl : valueLength (ea_header data (length pre)) = raw_value_length r).
  { unfold ea_header. cbn [valueLength]. rewrite (Hf 6%nat 2%nat) by lia. done. }
  assert (Hlen : length data = (length pre + (4 + length r) + length rest)%nat).
  { unfold data. rewrite !length_app, le_encode_length. lia. }
  assert (Hcut : forall o w, (4 <= o)%nat -> (o + w <= 4 + length r)%nat ->
            take w (drop (length pre + o) data) = take w (drop (o - 4) r)).
  { intros o w Ho Hw. unfold data. rewrite drop_app_ge by lia.
    rewrite drop_app_ge by (rewrite le_encode_length; lia). rewrite le_encode_length.
    replace (length pre + o - length pre - 4)%nat with (o - 4)%nat by lia.
    rewrite drop_app_le by lia. by rewrite take_app_le by (rewrite length_drop; lia). }
  split.
  - unfold ea_here, entry_size, sizeof_FullEaHeader. rewrite Hnl, Hvl.
    destruct (Nat.leb_spec (length pre + 8) (length data)); [|lia].
    destruct (Nat.leb_spec (length pre + (8 + raw_name_length r + 1 + raw_value_length r)) (length data)); [|lia].
    cbn [andb]. unfold decode. do 2 f_equal.
    + unfold ea_header. cbn [eaFlags]. by rewrite (Hf 4%nat 1%nat) by lia.
    + by rewrite (Hcut 8%nat) by lia.
    + replace (length pre + 8 + raw_name_length r + 1)%nat with (length pre + (9 + raw_name_length r))%nat by lia.
      rewrite Hcut by lia. do 2 f_equal. lia.
  - unfold ea_header. cbn [nextEntryOffset]. f_equal. unfold data.
    rewrite le_field_app_r by lia. rewrite Nat.sub_diag. apply le_field_here; [done|].
    change (256 ^ Z.of_nat 4) with (2 ^ 32). done.
Qed.

(** ** The list that the source builds *)

Definition slot_size (r : list Z) : nat := AlignedToUlong (4 + length r).

(** An entry that another one follows, and the last one. *)
Definition padded (r : list Z) : list Z :=
  le_encode 4 (Z.of_nat (slot_size r)) ++ r ++ replicate (slot_size r - (4 + length r)) 0.
Definition final (r : list Z) : list Z := le_encode 4 0 ++ r.

Definition laid_out (rs : list (list Z)) (lastKept : nat) (settable : list Z) : Prop :=
  Forall raw_ok rs /\
  ((rs = [] /\ lastKept = 0%nat /\ settable = []) \/
   (exists init r, rs = init ++ [r] /\ lastKept = length (flat_map padded init) /\
                   settable = flat_map padded init ++ final r)).

Lemma aligned_ge n : (n <= AlignedToUlong n < n + 4)%nat.
Proof. unfold AlignedToUlong. pose proof (Nat.div_mod_eq (n + 3) 4). pose proof (Nat.mod_upper_bound (n + 3) 4). lia. Qed.

Lemma aligned_multiple n : Nat.divide 4 (AlignedToUlong n).
Proof. unfold AlignedToUlong. by exists ((n + 3) / 4)%nat. Qed.

Lemma aligned_add p n : Nat.divide 4 p -> AlignedToUlong (p + n) = (p + AlignedToUlong n)%nat.
Proof.
  intros [k ->]. unfold AlignedToUlong. replace (k * 4 + n + 3)%nat with (n + 3 + k * 4)%nat by lia.
  rewrite Nat.div_add by lia. lia.
Qed.

Lemma length_padded r : length (padded r) = slot_size r.
Proof.
  unfold padded. rewrite !length_app, le_encode_length, length_replicate. unfold slot_size.
  pose proof (aligned_ge (4 + length r)). lia.
Qed.

Lemma padded_multiple rs : Nat.divide 4 (length (flat_map padded rs)).
Proof.
  induction rs as [|r rs IH]; cbn [flat_map]; [by exists 0%nat|].
  rewrite length_app, length_padded. apply Nat.divide_add_r; [apply aligned_multiple|done].
Qed.

Lemma set_next_offset_at pre q rest v :
  length q = 4%nat -> set_next_offset (pre ++ q ++ rest) (length pre) v = pre ++ le_encode 4 (Z.of_nat v) ++ rest.
Proof.
  intros Hq. unfold set_next_offset. rewrite take_app_length. f_equal. f_equal.
  rewrite drop_app_ge by lia. replace (length pre + 4 - length pre)%nat with (length q) by lia. apply drop_app_length.
Qed.

(** The last entry gets its padding and its offset. *)
Lemma close_entry init r :
  let settable := flat_map padded init ++ final r in
  let resized := settable ++ replicate (AlignedToUlong (length settable) - length settable) 0 in
  set_next_offset resized (length (flat_map padded init)) (length resized - length (flat_map padded init)) =
    flat_map padded (init ++ [r]).
Proof.
  intros settable resized. set (front := flat_map padded init) in *.
  assert (Hl : length settable = (length front + (4 + length r))%nat)
    by (unfold settable, final; rewrite !length_app, le_encode_length; lia).
  assert (Ha : AlignedToUlong (length settable) = (length front + slot_size r)%nat)
    by (rewrite Hl; apply aligned_add, padded_multiple).
  pose proof (aligned_ge (4 + length r)) as Hge. fold (slot_size r) in Hge.
  assert (Hr : length resized = (length front + slot_size r)%nat)
    by (unfold resized; rewrite length_app, length_replicate, Ha; lia).
  replace (length resized - length front)%nat with (slot_size r) by lia.
  assert (Hz : resized = front ++ le_encode 4 0 ++ r ++ replicate (slot_size r - (4 + length r)) 0).
  { unfold resized, settable, final. rewrite <- !app_assoc. do 4 f_equal. fold (final r). fold settable. lia. }
  rewrite Hz, set_next_offset_at by apply le_encode_length.
  rewrite flat_map_app. cbn [flat_map]. by rewrite app_nil_r.
Qed.

(** The next entry that is kept. *)
Lemma laid_out_snoc rs lastKept settable q r :
  laid_out rs lastKept settable -> raw_ok r -> length q = 4%nat ->
  let aligned :=
    if bool_decide (settable = []) then []
    else let resized := settable ++ replicate (AlignedToUlong (length settable) - length settable) 0 in
         set_next_offset resized lastKept (length resized - lastKept) in
  laid_out (rs ++ [r]) (length aligned) (set_next_offset (aligned ++ q ++ r) (length aligned) 0).
Proof.
  intros [Hok Hcase] Hr Hq aligned. split; [apply Forall_app; split; [done|by constructor]|]. right.
  exists rs, r. split; [done|].
  assert (Ha : aligned = flat_map padded rs).
  { unfold aligned. destruct Hcase as [(-> & -> & ->)|(init & r0 & -> & -> & ->)]; [by rewrite bool_decide_true|].
    rewrite bool_decide_false by (unfold final; by destruct (flat_map padded init)).
    apply close_entry. }
  rewrite Ha. split; [done|]. rewrite set_next_offset_at by done. done.
Qed.

(** The loop adds the entries that a user-mode write may set. *)
Lemma ea_settable_laid_out fuel data offset rs lastKept settable :
  Forall is_byte data -> laid_out rs lastKept settable ->
  exists rs' lastKept', laid_out (rs ++ rs') lastKept' (ea_settable fuel data offset lastKept settable) /\
    decode <$> rs' = filter (fun e => user_settable e) (ea_walk fuel data offset).*2.
Proof.
  intros Hby. revert offset rs lastKept settable. induction fuel as [|fuel IH]; intros offset rs lastKept settable Hl.
  { exists [], lastKept. by rewrite app_nil_r. }
  cbn [ea_settable ea_walk]. destruct (ea_here data offset) as [e|] eqn:Ee.
  - destruct (ea_here_raw data offset e Hby Ee) as (q & r & Hall & Hq & Hr & Hd & H1 & H2).
    destruct (Nat.leb_spec (offset + sizeof_FullEaHeader) (length data)); [|lia]. cbn [negb].
    destruct (Nat.ltb_spec (length data) (offset + (sizeof_FullEaHeader + nameLength (ea_header data offset) + 1 + valueLength (ea_header data offset))));
      [unfold entry_size in H2; lia|].
    assert (Hn : take (nameLength (ea_header data offset)) (drop (offset + sizeof_FullEaHeader) data) = ea_name e).
    { revert Ee. unfold ea_here. case_match; [|done]. by intros [= <-]. }
    rewrite Hn. cbn [fmap list_fmap snd]. rewrite filter_cons.
    fold (entry_size (ea_header data offset)). rewrite Hall.
    destruct (IsKernelExtendedAttributeName (ea_name e)) eqn:Ek; cbn [negb].
    + rewrite decide_False by (unfold user_settable; rewrite Ek; exact id). destruct (Nat.eqb_spec (nextEntryOffset (ea_header data offset)) 0) as [E0|E0].
      * exists [], lastKept. by rewrite app_nil_r.
      * by apply IH.
    + rewrite decide_True by (unfold user_settable; rewrite Ek; exact I). pose proof (laid_out_snoc rs lastKept settable q r Hl Hr Hq) as Hl'. cbv zeta in Hl'.
      destruct (Nat.eqb_spec (nextEntryOffset (ea_header data offset)) 0) as [E0|E0].
      * exists [r], (length (if bool_decide (settable = []) then []
            else set_next_offset (settable ++ replicate (AlignedToUlong (length settable) - length settable) 0) lastKept
                 (length (settable ++ replicate (AlignedToUlong (length settable) - length settable) 0) - lastKept))).
        split; [exact Hl'|]. cbn. by rewrite Hd.
      * destruct (IH (offset + nextEntryOffset (ea_header data offset))%nat _ _ _ Hl') as (rs' & lk & Hl2 & Hd2).
        exists (r :: rs'), lk. rewrite <- app_assoc in Hl2. split; [exact Hl2|]. rewrite fmap_cons, Hd, Hd2. done.
  - assert (Hstop : (length data < offset + sizeof_FullEaHeader \/ length data < offset + entry_size (ea_header data offset))%nat).
    { revert Ee. unfold ea_here. case_match eqn:Eb; [done|]. intros _. apply andb_false_iff in Eb as [Eb|Eb];
        apply Nat.leb_gt in Eb; lia. }
    exists [], lastKept. rewrite app_nil_r. split; [|done].
    destruct (Nat.leb_spec (offset + sizeof_FullEaHeader) (length data)); cbn [negb]; [|done].
    destruct (Nat.ltb_spec (length data) (offset + (sizeof_FullEaHeader + nameLength (ea_header data offset) + 1 + valueLength (ea_header data offset))));
      [done|unfold entry_size in Hstop; lia].
Qed.

(** A reader gives the entries back, each at a boundary of four bytes. *)
Lemma ea_walk_laid_out rs r pre fuel :
  Forall raw_ok (rs ++ [r]) -> Nat.divide 4 (length pre) -> (length rs < fuel)%nat ->
  let walk := ea_walk fuel (pre ++ flat_map padded rs ++ final r) (length pre) in
  walk.*2 = decode <$> (rs ++ [r]) /\ Forall (fun p => Nat.divide 4 (fst p)) walk.
Proof.
  revert pre fuel. induction rs as [|r0 rs IH]; intros pre [|fuel] Hok Hp Hf; try (cbn in Hf; lia); cbn [flat_map].
  - cbn [app]. assert (Hr : raw_ok r) by (by apply Forall_app in Hok as [_ ?%Forall_inv]).
    destruct (ea_here_at pre 0 r [] Hr) as [Hh Hn]; [done|]. cbv zeta in Hh, Hn. rewrite app_nil_r in Hh, Hn.
    cbn [ea_walk]. unfold final. rewrite Hh, Hn. cbn. split; [done|]. by constructor.
  - apply Forall_inv in Hok as Hr0. apply Forall_inv_tail in Hok. cbn [app] in *.
    assert (Hslot : 0 <= Z.of_nat (slot_size r0) < 2 ^ 32).
    { destruct Hr0 as [_ Hr0]. pose proof (aligned_ge (4 + length r0)). unfold slot_size. lia. }
    destruct (ea_here_at pre (Z.of_nat (slot_size r0)) r0
                (replicate (slot_size r0 - (4 + length r0)) 0 ++ flat_map padded rs ++ final r) Hr0 Hslot) as [Hh Hn].
    cbv zeta in Hh, Hn.
    assert (Hdata : pre ++ (padded r0 ++ flat_map padded rs) ++ final r =
              pre ++ le_encode 4 (Z.of_nat (slot_size r0)) ++ r0 ++
                replicate (slot_size r0 - (4 + length r0)) 0 ++ flat_map padded rs ++ final r)
      by (unfold padded at 1; by rewrite <- !app_assoc).
    rewrite Hdata. cbn [ea_walk]. rewrite Hh, Hn, Nat2Z.id.
    destruct (Nat.eqb_spec (slot_size r0) 0) as [E0|_].
    { pose proof (aligned_ge (4 + length r0)). unfold slot_size in E0. lia. }
    rewrite <- Hdata. rewrite <- app_assoc, (app_assoc pre). 
    replace (length pre + slot_size r0)%nat with (length (pre ++ padded r0)) by (rewrite length_app, length_padded; lia).
    destruct (IH (pre ++ padded r0) fuel Hok) as [Hw Ha].
    + rewrite length_app, length_padded. apply Nat.divide_add_r; [done|apply aligned_multiple].
    + cbn in Hf. lia.
    + split; [rewrite fmap_cons; cbn [snd]; by rewrite Hw|by constructor].
Qed.

Lemma length_padded_all rs : (4 * length rs <= length (flat_map padded rs))%nat.
Proof.
  induction rs as [|r rs IH]; cbn [flat_map length]; [lia|]. rewrite length_app, length_padded.
  pose proof (aligned_ge (4 + length r)). unfold slot_size. lia.
Qed.

(** [ExtendedAttributesUserModeCanSet] gives a well-formed list for any
    bytes: a reader of the result finds exactly the entries that a reader of
    the input finds and whose names do not start with [$KERNEL.], in order,
    each at a boundary of four bytes; the result is empty when there is none,
    and the filter of a result is the result's own entries. *)
Theorem ExtendedAttributesUserModeCanSet_entries data :
  Forall is_byte data ->
  let out := ExtendedAttributesUserModeCanSet data in
  (ea_list out).*2 = filter (fun e => user_settable e) (ea_list data).*2 /\
  Forall (fun p => Nat.divide 4 (fst p)) (ea_list out) /\
  (out = [] <-> filter (fun e => user_settable e) (ea_list data).*2 = []).
Proof.
  intros Hby out. unfold out, ExtendedAttributesUserModeCanSet.
  destruct (ea_settable_laid_out (S (length data)) data 0 [] 0 [] Hby) as (rs & lk & [Hok Hcase] & Hd).
  { split; [done|]. by left. }
  cbn [app] in *. fold (ea_list data) in Hd. rewrite <- Hd.
  destruct Hcase as [(-> & _ & ->)|(init & r & -> & _ & ->)]; [done|]. unfold ea_list.
  destruct (ea_walk_laid_out init r [] (S (length (flat_map padded init ++ final r))) Hok) as [Hw Ha].
  - by exists 0%nat.
  - pose proof (length_padded_all init). rewrite length_app. lia.
  - cbn [app length] in Hw, Ha. split; [done|]. split; [done|]. rewrite fmap_app. split.
    + intros Hnil. apply app_nil in Hnil as [_ Hnil]. done.
    + intros Hnil. by apply app_nil in Hnil as [_ Hnil].
Qed.

(** Two attributes, one of the kernel's between them. *)
Definition ea_sample : list Z :=
  le_encode 4 16 ++ [0; 2; 3; 0] ++ L "UP" ++ [0; 7; 8; 9; 0; 0] ++
  le_encode 4 20 ++ [0; 9; 1; 0] ++ L "$kernel.X" ++ [0; 5; 0] ++
  le_encode 4 0 ++ [0; 1; 0; 0] ++ L "Q" ++ [0].

Lemma ExtendedAttributesUserModeCanSet_witness :
  (ea_list (ExtendedAttributesUserModeCanSet ea_sample)).*2 = [Ea 0 (L "UP") [7; 8; 9]; Ea 0 (L "Q") []].
Proof.
  refine (eq_trans (proj1 (ExtendedAttributesUserModeCanSet_entries ea_sample _)) _); [|vm_compute; reflexivity].
  apply (bool_decide_unpack _). vm_compute. exact I.
Defined.
