(* ===== verification/UpperMoves.v ===== *)
(** * Moves and removals of upper entries, with their sidecar records

    [LayerPath.cpp] from [MoveUpperEntryOnDisk] on, and the record moves of
    [MetadataStore.cpp].  A listing is read at once: the records that a visit
    moves are in the sidecar directory, which no walk lists. *)
From S2P Require Export EntryAttributes.
Open Scope Z_scope.

Inductive ReplaceExisting := ReplaceNo | ReplaceYes.

Record UpperEntryMove := { moveStatus : NTSTATUS; recordLeftBehind : NTSTATUS }.

Record MovedSidecarRecord := { fromPath : wstring; toPath : wstring }.

Record StagedEntryDeleteFailure := { failurePath : wstring; failureError : Z }.

(** No path is longer than a [UNICODE_STRING], and every directory below
    another has a longer path. *)
Definition kMaxPathChars : Z := 32767.
Definition walk_fuel (path : wstring) : nat := S (Z.to_nat (kMaxPathChars - Z.of_nat (length path))).

Definition keep_first (first status : NTSTATUS) : NTSTATUS := if NT_SUCCESS first then status else first.

Definition is_dot_name (name : wstring) : bool := bool_decide (name = L ".") || bool_decide (name = L "..").

(** ** The walk below a directory *)

Section Walk.
Context `{W : Win32} `{H : !EntryHost} {Acc : Type}.
(** What [visit] changes: the disk, and the variables it captures. *)
Context (visit : wstring -> eff (disk * Acc) NTSTATUS).

(** The loop over one listing.  [enter] walks a subdirectory; it takes the
    first listing error so far and gives the new one. *)
Fixpoint visit_listed (dirPath : wstring) (enter : wstring -> NTSTATUS -> eff (disk * Acc) (NTSTATUS * NTSTATUS))
    (entries : list find_data) (listingError : NTSTATUS) : eff (disk * Acc) (NTSTATUS * NTSTATUS) :=
  (match entries with
   | [] => eret (STATUS_SUCCESS, listingError)
   | fd :: entries' =>
       if is_dot_name (cFileName fd) then visit_listed dirPath enter entries' listingError
       else
         let childPath := JoinDirPath dirPath (cFileName fd) in
         let! status := visit childPath in
         if negb (NT_SUCCESS status) then eret (status, listingError)
         else
           let isLink := has_attr (dwFileAttributes fd) FILE_ATTRIBUTE_REPARSE_POINT &&
                         IsReparseTagNameSurrogate (dwReserved0 fd) in
           if has_attr (dwFileAttributes fd) FILE_ATTRIBUTE_DIRECTORY && negb isLink then
             let! (status, listingError) := enter childPath listingError in
             if negb (NT_SUCCESS status) then eret (status, listingError)
             else visit_listed dirPath enter entries' listingError
           else visit_listed dirPath enter entries' listingError
   end)%eff.

(** The status of the first visit that failed, and the first listing error. *)
Fixpoint VisitEntriesBelow (fuel : nat) (dirPath : wstring) (listingError : NTSTATUS)
  : eff (disk * Acc) (NTSTATUS * NTSTATUS) :=
  (match fuel with
   | O => eret (NEVER_RETURNS, listingError)
   | S fuel' =>
       let! found := eread (fun s => FindFilesW (fst s) (WithExtendedPrefix (JoinDirPath dirPath (L "*")))) in
       match found with
       | Err e => eret (STATUS_SUCCESS, keep_first listingError (failed_status e ERROR_READ_FAULT))
       | Ok (entries, lastError) =>
           let! (status, listingError) := visit_listed dirPath (VisitEntriesBelow fuel') entries listingError in
           eret (status,
                 if NT_SUCCESS status && negb (lastError =? ERROR_NO_MORE_FILES)
                 then keep_first listingError (failed_status lastError ERROR_READ_FAULT) else listingError)
       end
   end)%eff.

Definition ForEachEntryBelow (dirPath : wstring) : eff (disk * Acc) NTSTATUS :=
  (let! (visitStatus, listingError) := VisitEntriesBelow (walk_fuel dirPath) dirPath STATUS_SUCCESS in
   eret (if NT_SUCCESS visitStatus then listingError else visitStatus))%eff.
End Walk.

Section Moves.
Context `{W : Win32} `{J : Json} `{H : !EntryHost} (config : LayerConfig).

Definition IsDirectoryButNotLink (d : disk) (path : wstring) : bool :=
  match GetFileAttributesW d (WithExtendedPrefix path) with
  | Err _ => false
  | Ok attrs =>
      has_attr attrs FILE_ATTRIBUTE_DIRECTORY &&
      match IsDirectoryLink d path attrs with Ok isLink => negb isLink | Err _ => false end
  end.

Definition ForEachMovedEntry {Acc} (from to : wstring) (visit : wstring -> wstring -> eff (disk * Acc) NTSTATUS)
  : eff (disk * Acc) NTSTATUS :=
  (let! status := visit from to in
   let! enters := eread (fun s => IsDirectoryButNotLink (fst s) to) in
   if negb (NT_SUCCESS status) || negb enters then eret status
   else ForEachEntryBelow (fun movedPath => visit (from ++ drop (length to) movedPath) movedPath) to)%eff.

(** A call on the disk alone, inside a visit; and a run of a visit with its
    variables. *)
Definition lift_disk {Acc A} (m : eff disk A) : eff (disk * Acc) A := fun s =>
  let (d, a) := m (fst s) in ((d, snd s), a).

Definition with_vars {Acc A} (acc : Acc) (m : eff (disk * Acc) A) : eff disk (A * Acc) := fun d =>
  let '((d', acc'), a) := m (d, acc) in (d', (a, acc')).

Definition update_vars {Acc} (f : Acc -> Acc) : eff (disk * Acc) unit := fun s => ((fst s, f (snd s)), tt).

(** ** Record moves *)

Definition sidecar_root : wstring := upperPath config.

Definition uses_sidecar : bool := UseSidecarFor (Some config).

Definition RemoveRecordsOfReplacedEntry (from to : wstring) : eff disk unit :=
  (let! movedEntryKeptItsRecordAtFromPath := eread (fun d => SidecarHasRecord d sidecar_root from) in
   do! (if (movedEntryKeptItsRecordAtFromPath : bool) then SidecarRemove sidecar_root to else eret true) in
   do! SidecarRemoveOpaque sidecar_root to in
   eret tt)%eff.

(** The visit of [MoveSidecarRecords]. *)
Definition move_record (from to : wstring) : eff (disk * list MovedSidecarRecord) NTSTATUS :=
  (let! status := lift_disk (SidecarMove sidecar_root from to) in
   do! (if NT_SUCCESS status then update_vars (fun moved => moved ++ [{| fromPath := from; toPath := to |}])
        else eret tt) in
   eret status)%eff.

(** The status, and the records that moved. *)
Definition MoveSidecarRecords (from to : wstring) : eff disk (NTSTATUS * list MovedSidecarRecord) :=
  if negb uses_sidecar then eret (STATUS_SUCCESS, [])
  else with_vars [] (ForEachMovedEntry from to move_record).

(** The visit of [MoveSidecarRecordsLeavingStuckOnes]; its variable is
    [firstError]. *)
Definition move_record_or_leave (from to : wstring) : eff (disk * NTSTATUS) NTSTATUS :=
  (let! status := lift_disk (SidecarMove sidecar_root from to) in
   if NT_SUCCESS status then eret STATUS_SUCCESS
   else
     do! lift_disk (RemoveRecordsOfReplacedEntry from to) in
     do! update_vars (fun firstError => keep_first firstError status) in
     eret STATUS_SUCCESS)%eff.

Definition MoveSidecarRecordsLeavingStuckOnes (from to : wstring) : eff disk NTSTATUS :=
  (if negb uses_sidecar then eret STATUS_SUCCESS
   else
     let! (walkStatus, firstError) := with_vars STATUS_SUCCESS (ForEachMovedEntry from to move_record_or_leave) in
     eret (if NT_SUCCESS firstError then walkStatus else firstError))%eff.

Fixpoint move_back (records : list MovedSidecarRecord) (firstError : NTSTATUS) : eff disk NTSTATUS :=
  (match records with
   | [] => eret firstError
   | r :: records' =>
       let! status := SidecarMove sidecar_root (toPath r) (fromPath r) in
       move_back records' (if negb (NT_SUCCESS status) && NT_SUCCESS firstError then status else firstError)
   end)%eff.

Definition MoveSidecarRecordsBack (moved : list MovedSidecarRecord) : eff disk NTSTATUS :=
  move_back (rev moved) STATUS_SUCCESS.

Definition ListSidecarKeyedEntries (path : wstring) : eff disk (list wstring) :=
  (if negb uses_sidecar then eret []
   else
     let! enters := eread (fun d => IsDirectoryButNotLink d path) in
     if negb enters then eret [path]
     else
       let! (_, entries) := with_vars [path] (ForEachEntryBelow (fun entryPath =>
         do! update_vars (fun entries => entries ++ [entryPath]) in eret STATUS_SUCCESS) path) in
       eret entries)%eff.

Fixpoint RemoveSidecarRecordsOfGoneEntries (entries : list wstring) : eff disk unit :=
  (if negb uses_sidecar then eret tt
   else match entries with
   | [] => eret tt
   | entryPath :: entries' =>
       let! probe := eread (fun d => GetFileAttributesW d (WithExtendedPrefix entryPath)) in
       do! (match probe with
            | Ok _ => eret true
            | Err probeErr =>
                if negb (IsNotFoundError probeErr) then eret true
                else do! SidecarRemove sidecar_root entryPath in SidecarRemoveOpaque sidecar_root entryPath
            end) in
       RemoveSidecarRecordsOfGoneEntries entries'
   end)%eff.

(** ** Moves of entries *)

Definition MoveUpperEntryOnDisk (from to : wstring) (replace : ReplaceExisting) : eff disk NTSTATUS :=
  (let! opened := eread (fun d => OpenReparseEntry d from (Z.lor DELETE SYNCHRONIZE)) in
   match opened with
   | Err e => eret (NtStatusFromWin32 e)
   | Ok entry =>
       let! renamed := RenameByHandle entry (WithExtendedPrefix to)
                         (match replace with ReplaceYes => true | ReplaceNo => false end) in
       eret match renamed with Ok _ => STATUS_SUCCESS | Err e => NtStatusFromWin32 e end
   end)%eff.

(** What [MoveUpperEntry] does when a record could not move. *)
Definition undo_move (from to : wstring) (moved : list MovedSidecarRecord) (recordStatus : NTSTATUS)
  : eff disk UpperEntryMove :=
  (let! entryBack := MoveUpperEntryOnDisk to from ReplaceNo in
   let! recordsBack := MoveSidecarRecordsBack moved in
   if NT_SUCCESS entryBack then eret {| moveStatus := recordStatus; recordLeftBehind := recordsBack |}
   else if negb (NT_SUCCESS recordsBack)
   then eret {| moveStatus := STATUS_SUCCESS; recordLeftBehind := recordsBack |}
   else
     let! leftBehind := MoveSidecarRecordsLeavingStuckOnes from to in
     eret {| moveStatus := STATUS_SUCCESS; recordLeftBehind := leftBehind |})%eff.

Definition MoveUpperEntry (from to : wstring) (replace : ReplaceExisting) : eff disk UpperEntryMove :=
  (let! status := MoveUpperEntryOnDisk from to replace in
   if negb (NT_SUCCESS status) then eret {| moveStatus := status; recordLeftBehind := STATUS_SUCCESS |}
   else
     let! (recordStatus, moved) := MoveSidecarRecords from to in
     if NT_SUCCESS recordStatus
     then eret {| moveStatus := STATUS_SUCCESS; recordLeftBehind := STATUS_SUCCESS |}
     else undo_move from to moved recordStatus)%eff.

Definition MoveUpperEntryLeavingStuckRecords (from to : wstring) (replace : ReplaceExisting)
  : eff disk UpperEntryMove :=
  (let! status := MoveUpperEntryOnDisk from to replace in
   if negb (NT_SUCCESS status) then eret {| moveStatus := status; recordLeftBehind := STATUS_SUCCESS |}
   else
     let! leftBehind := MoveSidecarRecordsLeavingStuckOnes from to in
     eret {| moveStatus := STATUS_SUCCESS; recordLeftBehind := leftBehind |})%eff.

(** ** Removals *)

Definition RemoveUpperEntryOnDisk (path : wstring) (kind : EntryKind) : eff disk NTSTATUS :=
  (let extendedPath := WithExtendedPrefix path in
   match kind with
   | KDirectory =>
       let! removed := remove_all extendedPath in
       eret match removed with Ok _ => STATUS_SUCCESS | Err e => NtStatusFromWin32 e end
   | _ =>
       let! removed := (match kind with KLink => RemoveDirectoryW extendedPath | _ => DeleteFileW extendedPath end) in
       eret match removed with
            | Ok _ => STATUS_SUCCESS
            | Err removeErr => if IsNotFoundError removeErr then STATUS_SUCCESS else NtStatusFromWin32 removeErr
            end
   end)%eff.

Definition RemoveUpperEntryOfKind (path : wstring) (kind : EntryKind) : eff disk NTSTATUS :=
  (let! entries := ListSidecarKeyedEntries path in
   let! status := RemoveUpperEntryOnDisk path kind in
   do! RemoveSidecarRecordsOfGoneEntries entries in
   eret status)%eff.

Definition RemoveUpperEntry (path : wstring) : eff disk NTSTATUS :=
  (let! probe := eread (fun d => ProbeUpperEntry d path) in
   match probe with
   | Err status => eret status
   | Ok None => eret STATUS_SUCCESS
   | Ok (Some kind) => RemoveUpperEntryOfKind path kind
   end)%eff.

(** ** The delete of a staged tree *)

Definition kDeleteEntryAccess : Z :=
  Z.lor DELETE (Z.lor FILE_READ_ATTRIBUTES (Z.lor FILE_WRITE_ATTRIBUTES SYNCHRONIZE)).
Definition kListDirectoryAccess : Z := Z.lor FILE_LIST_DIRECTORY SYNCHRONIZE.
Definition kTreeDeleteAccess : Z := Z.lor kDeleteEntryAccess kListDirectoryAccess.

Definition GrantTreeDeleteAccess (path : wstring) : eff disk Z :=
  (let! opened := eread (fun d => OpenReparseEntry d path WRITE_DAC) in
   match opened with
   | Err e => eret e
   | Ok entry =>
       let! user := eread GetTokenUser in
       match user with
       | Err e => eret e
       | Ok userSid =>
           match MakeProtectedDacl kTreeDeleteAccess userSid with
           | Err e => eret e
           | Ok descriptor =>
               let! set := SetKernelObjectSecurity entry descriptor in
               eret match set with Ok _ => ERROR_SUCCESS | Err e => e end
           end
       end
   end)%eff.

Definition OpenForTreeDelete (path : wstring) (access : Z) : eff disk (w32 handle) :=
  (let! first := eread (fun d => OpenReparseEntry d path access) in
   match first with
   | Ok entry => eret (Ok entry)
   | Err openError =>
       if negb (openError =? ERROR_ACCESS_DENIED) then eret (Err openError)
       else
         let! granted := GrantTreeDeleteAccess path in
         if negb (granted =? ERROR_SUCCESS) then eret (Err openError)
         else eread (fun d => OpenReparseEntry d path access)
   end)%eff.

(** The names, or the error of the open or of the listing. *)
Definition ListDirectoryForTreeDelete (path : wstring) : eff disk (w32 (list wstring)) :=
  (let! opened := OpenForTreeDelete path kListDirectoryAccess in
   match opened with
   | Err e => eret (Err e)
   | Ok directory =>
       let! (names, error) := eread (fun d => ListDirectoryNames d directory) in
       eret (if error =? ERROR_NO_MORE_FILES then Ok (filter (fun n => negb (is_dot_name n)) names)
             else if error =? ERROR_SUCCESS then Ok (filter (fun n => negb (is_dot_name n)) names)
             else Err error)
   end)%eff.

Definition MarkForDelete (entry : handle) : eff disk (w32 unit) :=
  (let! posix := SetDispositionEx entry in
   match posix with Ok _ => eret (Ok tt) | Err _ => SetDisposition entry end)%eff.

Definition EntersEntry (d : disk) (entry : handle) (attributes : Z) : w32 bool :=
  if negb (has_attr attributes FILE_ATTRIBUTE_DIRECTORY) then Ok false
  else if negb (has_attr attributes FILE_ATTRIBUTE_REPARSE_POINT) then Ok true
  else match GetAttributeTag d entry with
       | Err e => Err e
       | Ok tag => Ok (negb (IsReparseTagNameSurrogate tag))
       end.

(** The result of [DeleteTree]: its failure, and [*deleted]. *)
Definition tree_result : Type := option StagedEntryDeleteFailure * list wstring.

Fixpoint delete_children (delete : wstring -> list wstring -> eff disk tree_result) (dir : wstring)
    (names : list wstring) (deleted : list wstring) : eff disk tree_result :=
  (match names with
   | [] => eret (None, deleted)
   | name :: names' =>
       let! (failure, deleted) := delete (JoinDirPath dir name) deleted in
       match failure with
       | Some f => eret (Some f, deleted)
       | None => delete_children delete dir names' deleted
       end
   end)%eff.

(** The last step of [DeleteTree] on an open entry. *)
Definition delete_opened (path : wstring) (entry : handle) (attributes : Z) (deleted : list wstring)
  : eff disk tree_result :=
  (let! cleared := ClearReadOnly entry attributes in
   match cleared with
   | Err e => eret (Some {| failurePath := path; failureError := e |}, deleted)
   | Ok _ =>
       let! marked := MarkForDelete entry in
       eret match marked with
            | Err e => (Some {| failurePath := path; failureError := e |}, deleted)
            | Ok _ => (None, deleted ++ [path])
            end
   end)%eff.

(** The body of [DeleteTree] between the open and the close of its entry. *)
Definition delete_entry_tree (delete : wstring -> list wstring -> eff disk tree_result) (path : wstring)
    (entry : handle) (deleted : list wstring) : eff disk tree_result :=
  (let failed e := eret (Some {| failurePath := path; failureError := e |}, deleted) in
   let! basic := eread (fun d => GetBasicAttributes d entry) in
   match basic with
   | Err e => failed e
   | Ok attributes =>
       let! enters := eread (fun d => EntersEntry d entry attributes) in
       match enters with
       | Err e => failed e
       | Ok false => delete_opened path entry attributes deleted
       | Ok true =>
           let! listed := ListDirectoryForTreeDelete (WithExtendedPrefix path) in
           match listed with
           | Err e => failed e
           | Ok names =>
               let! (failure, deleted) := delete_children delete path names deleted in
               match failure with
               | Some f => eret (Some f, deleted)
               | None => delete_opened path entry attributes deleted
               end
           end
       end
   end)%eff.

Fixpoint DeleteTree (fuel : nat) (path : wstring) (deleted : list wstring) : eff disk tree_result :=
  (match fuel with
   | O => eret (Some {| failurePath := path; failureError := ERROR_GEN_FAILURE |}, deleted)
   | S fuel' =>
       let! opened := OpenForTreeDelete (WithExtendedPrefix path) kDeleteEntryAccess in
       match opened with
       | Err openError =>
           eret (if IsNotFoundError openError then None
                 else Some {| failurePath := path; failureError := openError |}, deleted)
       | Ok entry =>
           let! result := delete_entry_tree (DeleteTree fuel') path entry deleted in
           do! CloseHandle entry in
           eret result
       end
   end)%eff.

Definition RemoveStagedEntry (path : wstring) : eff disk (option StagedEntryDeleteFailure) :=
  (let! (failure, deleted) := DeleteTree (walk_fuel path) path [] in
   do! RemoveSidecarRecordsOfGoneEntries deleted in
   eret failure)%eff.

(** ** Entries built in a container of the work directory *)

Definition BuildInContainerAndMove (containerPath finalPath : wstring) (build : wstring -> eff disk NTSTATUS)
  : eff disk NTSTATUS :=
  (let stagedPath := containerPath ++ L "\entry" in
   let! made := CreateDirectoryW (WithExtendedPrefix containerPath) in
   let! status := (match made with
                   | Ok _ => WriteSecurityToInheritAs containerPath (parent_path finalPath)
                   | Err e => eret (failed_status e ERROR_WRITE_FAULT)
                   end) in
   let! status := (if NT_SUCCESS status then build stagedPath else eret status) in
   let! status := (if NT_SUCCESS status then
                     let! move := MoveUpperEntry stagedPath finalPath ReplaceNo in eret (moveStatus move)
                   else eret status) in
   do! RemoveStagedEntry containerPath in
   eret status)%eff.

Definition CloneReparsePointThroughWorkDir (source : SourceEntry) (containerPath finalPath : wstring)
    (policy : EntryCopyPolicy) : eff disk NTSTATUS :=
  BuildInContainerAndMove containerPath finalPath
    (fun stagedPath => CloneReparsePointWithCopyUpRecord source stagedPath policy).
End Moves.
