(* ===== verification/Engine.v ===== *)
(** * The state of the engine, and its reservations

    What an operation of [CopyUp], [RenameRollback], [FileRename] and
    [DirectoryRename] changes: the disk, the path cache, the events, the
    counters of [CopyUp] and the fill failure of the thread.  [PathReservation]
    of [CopyUp.cpp] is a bracket around a call. *)
From S2P Require Export UpperMoves Resolver Whiteout.
Open Scope Z_scope.

Definition E_FAIL : Z := 0x80004005.

Record EngineState `{W : Win32} := {
  engineDisk : disk;
  lookups : ResolverState;
  events : list engine_event;
  workCounter : Z;
  copyUpCount : Z;
  inFlightCopyUps : gset wstring;
  (** [ErrorTls::SetFillFailure]: the HRESULT and the message. *)
  fillFailure : option (Z * wstring)
}.

(** What the other threads do while this one waits for a path. *)
Class Threads `{W : Win32} := { wait_turn : wstring -> eff EngineState unit }.

Section Engine.
Context `{W : Win32} `{J : Json} `{E : CacheEnv} `{H : !EntryHost}.

(** ** Parts of the state *)

Definition with_disk (s : EngineState) (d : disk) : EngineState := {|
  engineDisk := d; lookups := lookups s; events := events s; workCounter := workCounter s;
  copyUpCount := copyUpCount s; inFlightCopyUps := inFlightCopyUps s; fillFailure := fillFailure s |}.

Definition with_lookups (s : EngineState) (r : ResolverState) : EngineState := {|
  engineDisk := engineDisk s; lookups := r; events := events s; workCounter := workCounter s;
  copyUpCount := copyUpCount s; inFlightCopyUps := inFlightCopyUps s; fillFailure := fillFailure s |}.

Definition with_events (s : EngineState) (l : list engine_event) : EngineState := {|
  engineDisk := engineDisk s; lookups := lookups s; events := l; workCounter := workCounter s;
  copyUpCount := copyUpCount s; inFlightCopyUps := inFlightCopyUps s; fillFailure := fillFailure s |}.

Definition with_counter (s : EngineState) (n : Z) : EngineState := {|
  engineDisk := engineDisk s; lookups := lookups s; events := events s; workCounter := n;
  copyUpCount := copyUpCount s; inFlightCopyUps := inFlightCopyUps s; fillFailure := fillFailure s |}.

Definition with_copy_ups (s : EngineState) (n : Z) : EngineState := {|
  engineDisk := engineDisk s; lookups := lookups s; events := events s; workCounter := workCounter s;
  copyUpCount := n; inFlightCopyUps := inFlightCopyUps s; fillFailure := fillFailure s |}.

Definition with_reserved (s : EngineState) (paths : gset wstring) : EngineState := {|
  engineDisk := engineDisk s; lookups := lookups s; events := events s; workCounter := workCounter s;
  copyUpCount := copyUpCount s; inFlightCopyUps := paths; fillFailure := fillFailure s |}.

Definition with_fill_failure (s : EngineState) (f : option (Z * wstring)) : EngineState := {|
  engineDisk := engineDisk s; lookups := lookups s; events := events s; workCounter := workCounter s;
  copyUpCount := copyUpCount s; inFlightCopyUps := inFlightCopyUps s; fillFailure := f |}.

(** A call on the disk; a read of it; a lookup; a call of [WhiteoutManager],
    whose cache is the engine's; a call on the cache. *)
Definition io {A} (m : eff disk A) : eff EngineState A := fun s =>
  let (d, a) := m (engineDisk s) in (with_disk s d, a).

Definition look {A} (f : disk -> A) : eff EngineState A := fun s => (s, f (engineDisk s)).

Definition lookup_in {A} (m : disk -> eff ResolverState A) : eff EngineState A := fun s =>
  let (r, a) := m (engineDisk s) (lookups s) in (with_lookups s r, a).

Definition on_markers {A} (m : eff UpperState A) : eff EngineState A := fun s =>
  let (u, a) := m {| volumes := engineDisk s; pathCache := Some (cache (lookups s)); emitted := events s |} in
  let r := {| cache := default (cache (lookups s)) (pathCache u); debugOutput := debugOutput (lookups s) |} in
  (with_events (with_lookups (with_disk s (volumes u)) r) (emitted u), a).

Definition engine_cache (m : eff Cache unit) : eff EngineState unit :=
  lookup_in (fun _ => on_cache m).

(** ** Events *)

Definition HresultFromNtStatus (status : NTSTATUS) : Z :=
  if bool_decide (status = STATUS_SUCCESS) then S_OK else Z.lor (nt_code status) 0x10000000.

(** [HRESULT_FROM_WIN32]. *)
Definition hresult_from_win32 (e : Z) : Z := 
  if (e =? 0) || (2 ^ 31 <=? e) then e else Z.lor (Z.land e 0xFFFF) 0x80070000.

Definition emit (e : engine_event) : eff EngineState unit := fun s => (with_events s (events s ++ [e]), tt).

Definition warn (failure : Z) (relativePath message : wstring) : eff EngineState unit :=
  emit (Event LM_EVT_WARNING failure (c_str relativePath) (Some message)).

Definition WarnRecordLeftBehind (move : UpperEntryMove) (relativePath : wstring) : eff EngineState unit :=
  if NT_SUCCESS (recordLeftBehind move) then eret tt
  else warn (HresultFromNtStatus (recordLeftBehind move)) relativePath
         (L "A sidecar record did not move with its entry").

(** ** Reservations *)

Definition reserve_path (path : wstring) : eff EngineState unit := fun s =>
  (with_reserved s ({[path]} ∪ inFlightCopyUps s), tt).

Definition release_path (path : wstring) : eff EngineState unit := fun s =>
  (with_reserved s (inFlightCopyUps s ∖ {[path]}), tt).

(** The scope of a [PathReservation reservation(owner, path)]. *)
Definition PathReservation `{T : !Threads} {A} (path : wstring) (body : eff EngineState A) : eff EngineState A :=
  (do! wait_turn path in
   do! reserve_path path in
   let! a := body in
   do! release_path path in
   eret a)%eff.
End Engine.
