(* ===== verification/CopyUp.v ===== *)
(** * Copy-up

    [CopyUp.cpp]: an entry that only a lower holds is built in the work
    directory and moved into the upper with one rename. *)
From S2P Require Export Engine.
Open Scope Z_scope.

Definition kStagingAreaName : wstring := L "work".
Definition kAsideNamePrefix : wstring := L ".layermount".
Definition kShellAtAnySize : option Z := None.

Definition StagingAreaPath (workDir : wstring) : wstring := JoinDirPath workDir kStagingAreaName.

Inductive DestinationAside := WorkDirectory | NextToDestination.

(** [removeCopy] is the removal of the aside that was chosen. *)
Record HeldAside := {
  normalizedPath : wstring;
  heldUpperPath : wstring;
  asidePath : wstring;
  attributesToRestore : option Z;
  removeCopy : DestinationAside
}.

Record FileCopyUpResult := { copyStatus : NTSTATUS; stagedShell : bool }.

Record CopyUpTarget := { targetSource : ResolvedPath; targetUpperPath : wstring }.

(** The times, the attributes and the target that a guard restores. *)
Record FileBasicInfoGuard := {
  guardTimes : entry_times;
  guardAttributes : option Z;
  guardTarget : wstring
}.

Definition upper_hex (n : Z) : Z := if n <? 10 then 48 + n else 55 + n.

(** [swprintf(L"0x%08lX", ...)]. *)
Definition status_text (code : Z) : wstring :=
  L "0x" ++ ((fun i => upper_hex (Z.land (Z.shiftr code (4 * i)) 0xF)) <$> [7; 6; 5; 4; 3; 2; 1; 0]).

Definition MetacopyShellCreateAttributes (attributes : Z) : Z :=
  let kCreatable :=
    Z.lor FILE_ATTRIBUTE_HIDDEN (Z.lor FILE_ATTRIBUTE_SYSTEM (Z.lor FILE_ATTRIBUTE_ARCHIVE
      (Z.lor FILE_ATTRIBUTE_TEMPORARY (Z.lor FILE_ATTRIBUTE_NOT_CONTENT_INDEXED FILE_ATTRIBUTE_ENCRYPTED)))) in
  Z.land attributes kCreatable.

Definition StagedFileAttributes (attributes : Z) : option Z :=
  (fun a => Z.lor a FILE_ATTRIBUTE_ARCHIVE) <$> AttributesOrNone attributes.

(** A [LARGE_INTEGER] of its two halves. *)
Definition large_integer (high low : Z) : Z :=
  let v := Z.lor (Z.shiftl high 32) low in if v <? 2 ^ 63 then v else v - 2 ^ 64.

Section CopyUp.
Context `{W : Win32} `{J : Json} `{E : CacheEnv} `{H : !EntryHost} `{T : !Threads} (config : LayerConfig).

(** ** Names in the work directory *)

Definition UniqueEntryName : eff EngineState wstring := fun s =>
  let counter := workCounter s in
  let timestamp := FileTimeToUint64 (GetSystemTimeAsFileTime (engineDisk s)) in
  (with_counter s ((counter + 1) mod 2 ^ 64),
   L "#" ++ L (pretty GetCurrentProcessId) ++ L "." ++ L (pretty GetCurrentThreadId) ++ L "." ++
   L (pretty counter) ++ L "." ++ L (pretty timestamp) ++ L ".tmp").

Definition GenerateStagingPath : eff EngineState wstring :=
  (let! name := UniqueEntryName in eret (JoinDirPath (StagingAreaPath (workDirPath config)) name))%eff.

Definition GenerateAsidePathNextTo (path : wstring) : eff EngineState wstring :=
  (let directory := match wrfind ch_bsl path with Some i => take i path | None => path end in
   let! name := UniqueEntryName in
   eret (JoinDirPath directory (kAsideNamePrefix ++ name)))%eff.

(** ** The guard of attributes and times *)

Definition Restore (g : FileBasicInfoGuard) : eff disk (w32 unit) :=
  EntryAttributes.WriteEntryTimes (guardTarget g) (guardTimes g) (guardAttributes g).

(** The guard of an open source; a failed read leaves the times at zero. *)
Definition guard_of_handle (d : disk) (source : w32 handle) (attributes : option Z) (target : wstring)
  : FileBasicInfoGuard := {|
  guardTimes := match source with
                | Ok h => match GetFileTime d h with Ok t => t | Err _ => no_times end
                | Err _ => no_times
                end;
  guardAttributes := attributes; guardTarget := target |}.

Definition guard_of_data (data : entry_data) (attributes : option Z) (target : wstring) : FileBasicInfoGuard :=
  {| guardTimes := EntryTimesOf data; guardAttributes := attributes; guardTarget := target |}.

(** ** Failures of a fill *)

Definition RecordFillFailure (relativePath stage : wstring) (status : NTSTATUS) : eff EngineState NTSTATUS := fun s =>
  let message := L "The metacopy fill of '" ++ relativePath ++ L "' failed to " ++ stage ++
                 L " (NTSTATUS " ++ status_text (nt_code status) ++ L ")." in
  (with_fill_failure s (Some (HresultFromNtStatus status, c_str message)), status).

(** ** Staging *)

Definition RecordCopyUp (relativePath : wstring) : eff EngineState unit :=
  (do! (fun s => (with_copy_ups s ((copyUpCount s + 1) mod 2 ^ 64), tt)) in
   emit (Event LM_EVT_COPY_UP S_OK (c_str relativePath) None))%eff.

Definition CommitFromWorkDir (workPath finalUpperPath : wstring) : eff disk NTSTATUS :=
  (let parentDir := parent_path finalUpperPath in
   do! (if bool_decide (parentDir = []) then eret true else EnsureDirectoryExists parentDir) in
   let! move := MoveUpperEntry config workPath finalUpperPath ReplaceNo in
   do! (if NT_SUCCESS (moveStatus move) then eret None else RemoveStagedEntry config workPath) in
   eret (moveStatus move))%eff.

(** Each failure leaves the error that the caller reads. *)
Definition CopySecurityDescriptor (srcPath dstPath : wstring) : eff disk (w32 unit) :=
  (let secInfo := DropSaclWithoutPrivilege
     (Z.lor OWNER_SECURITY_INFORMATION (Z.lor GROUP_SECURITY_INFORMATION
       (Z.lor DACL_SECURITY_INFORMATION SACL_SECURITY_INFORMATION))) in
   let extendedSrc := WithExtendedPrefix srcPath in
   let! sdSize := eread (fun d => GetFileSecuritySize d extendedSrc secInfo) in
   if sdSize =? 0 then eread (fun d => Err (GetLastError d))
   else
     let! sd := eread (fun d => GetFileSecurityW d extendedSrc secInfo sdSize) in
     match sd with
     | Err e => eret (Err e)
     | Ok descriptor => SetFileSecurityW (WithExtendedPrefix dstPath) secInfo descriptor
     end)%eff.

Definition CopyTimestamps (src dst : handle) : eff disk bool :=
  (let! times := eread (fun d => GetFileTime d src) in
   match times with
   | Err _ => eret false
   | Ok t => let! r := SetFileTime dst t in eret (is_ok r)
   end)%eff.

Definition CopyStagedFileMetadata (source : wstring) (srcAttrs : Z) (workPath : wstring) : eff disk NTSTATUS :=
  (let! encrypted := ApplyEncryptedStateIfNeeded workPath srcAttrs in
   match encrypted with
   | Err e => eret (failed_status e ERROR_ACCESS_DENIED)
   | Ok _ =>
       step! CopyExtendedAttributes source workPath in
       let! secured := CopySecurityDescriptor source workPath in
       eret match secured with Err e => failed_status e ERROR_ACCESS_DENIED | Ok _ => STATUS_SUCCESS end
   end)%eff.

(** The data goes in through [dst], which is closed before the metadata. *)
Definition stage_file_data (srcHandle dstHandle : handle) (srcAttrs : Z) : eff disk NTSTATUS :=
  (let! sparse := (if HasFileAttribute srcAttrs FILE_ATTRIBUTE_SPARSE_FILE && HasSparseFiles (hostCapabilities config)
                   then SetSparse dstHandle else eret (Ok tt)) in
   match sparse with
   | Err e => eret (SparseRefusalStatus e)
   | Ok _ =>
       do! SetCompressedIfSource dstHandle srcAttrs in
       CopyFileDataKeepingHoles srcHandle dstHandle
   end)%eff.

Definition StageFileInWorkDir (source : wstring) (srcHandle : handle) (srcAttrs : Z) (workPath : wstring)
  : eff disk NTSTATUS :=
  (let! created := CreateFileW (WithExtendedPrefix workPath) (Z.lor GENERIC_READ GENERIC_WRITE) 0 CREATE_NEW
                     FILE_ATTRIBUTE_NORMAL in
   match created with
   | Err e => eret (NtStatusFromWin32 e)
   | Ok dstHandle =>
       let! status := stage_file_data srcHandle dstHandle srcAttrs in
       do! CloseHandle dstHandle in
       if NT_SUCCESS status then CopyStagedFileMetadata source srcAttrs workPath else eret status
   end)%eff.

Definition RecordStagedFile (workPath : wstring) (metadata : LayerMountMetadata) (basicInfo : FileBasicInfoGuard)
  : eff disk NTSTATUS :=
  (let! written := write_record workPath metadata config in
   if negb written then eread (fun d => StatusOfFailedCall d ERROR_WRITE_FAULT)
   else
     let! restored := Restore basicInfo in
     eret match restored with Err e => failed_status e ERROR_ACCESS_DENIED | Ok _ => STATUS_SUCCESS end)%eff.

Definition FinishStagedFile (source workPath : wstring) (basicInfo : FileBasicInfoGuard) : eff disk NTSTATUS :=
  (step! CopyUserAlternateDataStreams source workPath in
   let! metadata := eread (fun d => MakeCopyUpMetadata d source) in
   RecordStagedFile workPath metadata basicInfo)%eff.

Definition MarkPlaceholderSparseOrAbort (dstHandle : handle) (workPath : wstring) : eff disk NTSTATUS :=
  (let! sparse := SetSparse dstHandle in
   match sparse with
   | Ok _ => eret STATUS_SUCCESS
   | Err e =>
       do! CloseHandle dstHandle in
       do! RemoveStagedEntry config workPath in
       eret (SparseRefusalStatus e)
   end)%eff.

(** The results of the seek and of the set of the end go unread. *)
Definition StageMetacopyShellInWorkDir (source : wstring) (srcAttrs : entry_data) (workPath : wstring)
  : eff disk NTSTATUS :=
  (let! created := CreateFileW (WithExtendedPrefix workPath) (Z.lor GENERIC_READ GENERIC_WRITE) 0 CREATE_NEW
                     (MetacopyShellCreateAttributes (ed_attributes srcAttrs)) in
   match created with
   | Err e => eret (NtStatusFromWin32 e)
   | Ok dstHandle =>
       step! MarkPlaceholderSparseOrAbort dstHandle workPath in
       do! SetCompressedIfSource dstHandle (ed_attributes srcAttrs) in
       let fileSize := large_integer (ed_size_high srcAttrs) (ed_size_low srcAttrs) in
       let! position := eread (fun d =>
         match SetFilePointerEx d dstHandle fileSize with Ok _ => fileSize | Err _ => 0 end) in
       do! SetEndOfFile dstHandle position in
       do! CloseHandle dstHandle in
       CopyStagedFileMetadata source (ed_attributes srcAttrs) workPath
   end)%eff.

Definition with_metacopy (m : LayerMountMetadata) (flag : bool) : LayerMountMetadata := {|
  opaque := opaque m; metacopy := flag; redirect := redirect m; copyUpTimestamp := copyUpTimestamp m;
  originLayer := originLayer m; hasStableIndexNumber := hasStableIndexNumber m;
  stableIndexNumber := stableIndexNumber m |}.

Definition BuildMetacopyShell (source workPath : wstring) : eff disk NTSTATUS :=
  (let! data := eread (fun d => GetFileAttributesExW d (WithExtendedPrefix source)) in
   match data with
   | Err e => eret (NtStatusFromWin32 e)
   | Ok srcAttrs =>
       let basicInfo := guard_of_data srcAttrs (StagedFileAttributes (ed_attributes srcAttrs)) workPath in
       let! status := (step! StageMetacopyShellInWorkDir source srcAttrs workPath in
                       let! metadata := eread (fun d => MakeCopyUpMetadata d source) in
                       RecordStagedFile workPath (with_metacopy metadata true) basicInfo) in
       do! (if NT_SUCCESS status then eret None else RemoveStagedEntry config workPath) in
       eret status
   end)%eff.

Definition BuildStagedDirectory (source stagedPath : wstring) : eff disk NTSTATUS :=
  (let! made := CreateDirectoryW (WithExtendedPrefix stagedPath) in
   match made with
   | Err e => eret (failed_status e ERROR_WRITE_FAULT)
   | Ok _ =>
       step! CopyDirectoryOwnMetadata source stagedPath in
       let! secured := CopySecurityDescriptor source stagedPath in
       match secured with
       | Err e => eret (failed_status e ERROR_ACCESS_DENIED)
       | Ok _ =>
           let! metadata := eread (fun d => MakeCopyUpMetadata d source) in
           let! written := write_record stagedPath metadata config in
           if written then eret STATUS_SUCCESS
           else eread (fun d => StatusOfFailedCall d ERROR_WRITE_FAULT)
       end
   end)%eff.

(** ** The copy-up of one entry *)

(** What each copy-up does once its entry is in the upper. *)
Definition finish_copy_up (normalized : wstring) : eff EngineState NTSTATUS :=
  (do! engine_cache (InvalidateWithAncestors normalized) in
   do! RecordCopyUp normalized in
   eret STATUS_SUCCESS)%eff.

Definition CopyUpReparseCloneAndCount (normalized : wstring) (target : CopyUpTarget) : eff EngineState NTSTATUS :=
  (let! staging := GenerateStagingPath in
   step! io (CloneReparsePointThroughWorkDir config
               {| sourcePath := absolutePath (targetSource target);
                  sourceAttributes := attributes (targetSource target) |}
               staging (targetUpperPath target) {| record := NewFromSource; policyConfig := config |}) in
   finish_copy_up normalized)%eff.

Definition CommitStagedFile (normalized workPath upper : wstring) : eff EngineState NTSTATUS :=
  (step! io (CommitFromWorkDir workPath upper) in finish_copy_up normalized)%eff.

(** The parent of the copy is made by [ensureParent], which [EnsureUpperParent]
    is below. *)
Section WithParent.
Context (ensureParent : wstring -> eff EngineState NTSTATUS).

Definition prepare_target (normalized : wstring) : eff EngineState (nt (option CopyUpTarget)) :=
  (let! source := look (fun d => ResolveLowerPath d config normalized) in
   if negb (Found source) then eret (Err STATUS_OBJECT_NAME_NOT_FOUND)
   else
     let! status := ensureParent normalized in
     if negb (NT_SUCCESS status) then eret (Err status)
     else
       look (fun d =>
         let link := FindLinkOnPath d (upperPath config) (parent_path normalized) in
         let reachedThroughUpperLink :=
           match link with LinkSelf | LinkAncestor => ExistsInUpper d config normalized | _ => false end in
         Ok (if reachedThroughUpperLink then None
             else Some {| targetSource := source;
                          targetUpperPath := GetUpperPathForCopyUp d config normalized source |})))%eff.

(** The directory itself, when no reparse point is cloned. *)
Definition copy_up_plain_directory (normalized : wstring) (target : CopyUpTarget) : eff EngineState NTSTATUS :=
  (let source := absolutePath (targetSource target) in
   let extendedSource := WithExtendedPrefix source in
   let! srcAttrs := look (fun d => attributes_or_invalid (GetFileAttributesW d extendedSource)) in
   let! srcHandle := look (fun d => OpenSharedW d extendedSource GENERIC_READ
                                      (Z.lor FILE_SHARE_READ FILE_SHARE_WRITE) FILE_FLAG_BACKUP_SEMANTICS) in
   let! stagedPath := GenerateStagingPath in
   let! basicInfo := look (fun d => guard_of_handle d srcHandle (AttributesOrNone srcAttrs) stagedPath) in
   let! built := io (BuildStagedDirectory source stagedPath) in
   let! status := (if NT_SUCCESS built then
                     do! io (Restore basicInfo) in
                     let! move := io (MoveUpperEntry config stagedPath (targetUpperPath target) ReplaceNo) in
                     eret (moveStatus move)
                   else eret built) in
   if NT_SUCCESS status then finish_copy_up normalized
   else
     do! io (RemoveStagedEntry config stagedPath) in
     (** The guard's destructor, when [Restore] has not run. *)
     do! (if NT_SUCCESS built then eret (Ok tt) else io (Restore basicInfo)) in
     eret status)%eff.

Definition copy_up_directory (relativePath : wstring) : eff EngineState NTSTATUS :=
  (let normalized := NormalizePath relativePath in
   PathReservation normalized
     (let! exists_ := look (fun d => ExistsInUpper d config normalized) in
      if (exists_ : bool) then eret STATUS_SUCCESS
      else
        let! prepared := prepare_target normalized in
        match prepared with
        | Err status => eret status
        | Ok None => eret STATUS_SUCCESS
        | Ok (Some target) =>
            let! clones := look (fun d => ClonesReparsePoint d (absolutePath (targetSource target))
                                            (attributes (targetSource target))) in
            match clones with
            | Err status => eret status
            | Ok true => CopyUpReparseCloneAndCount normalized target
            | Ok false => copy_up_plain_directory normalized target
            end
        end))%eff.
End WithParent.

Definition ensure_upper_parent (copyUpDirectory : wstring -> eff EngineState NTSTATUS) (path : wstring)
  : eff EngineState NTSTATUS :=
  (let parent := ParentOfNormalizedPath path in
   if bool_decide (parent = []) then eret STATUS_SUCCESS
   else
     let! upperAttributes := look (fun d => UpperAttributes d config parent) in
     let upperHoldsParent := negb (upperAttributes =? INVALID_FILE_ATTRIBUTES) in
     let! shown := (if upperHoldsParent then
                      eret {| absolutePath := GetUpperPath config parent; source := Upper; lowerIndex := -1;
                              isWhiteout := false; attributes := upperAttributes |}
                    else lookup_in (fun d => ResolvePath d config parent)) in
     let! target := look (fun d => ShownLinkTarget d shown) in
     match target with
     | TargetNoDirectory => eret STATUS_OBJECT_PATH_NOT_FOUND
     | TargetFailed failure => eret failure
     | TargetDirectory =>
         if upperHoldsParent then eret STATUS_SUCCESS
         else if bool_decide (source shown = Lower) then copyUpDirectory parent
         else eret STATUS_OBJECT_PATH_NOT_FOUND
     end)%eff.

(** A copy-up of a directory makes the parent of the directory first, which is
    shorter; with no fuel there is no directory left to copy up. *)
Fixpoint copy_up_directories (fuel : nat) (relativePath : wstring) : eff EngineState NTSTATUS :=
  match fuel with
  | O => eret NEVER_RETURNS
  | S fuel' => copy_up_directory (ensure_upper_parent (copy_up_directories fuel')) relativePath
  end.

Definition CopyUpDirectory (relativePath : wstring) : eff EngineState NTSTATUS :=
  copy_up_directories (S (length relativePath)) relativePath.

Definition EnsureUpperParent (path : wstring) : eff EngineState NTSTATUS :=
  ensure_upper_parent CopyUpDirectory path.

Definition PrepareCopyUpTarget (normalized : wstring) : eff EngineState (nt (option CopyUpTarget)) :=
  prepare_target EnsureUpperParent normalized.

(** ** The copy-up of a file *)

Definition copy_up_file_data (normalized : wstring) (target : CopyUpTarget) : eff EngineState NTSTATUS :=
  (let source := absolutePath (targetSource target) in
   let! opened := look (fun d => OpenSourceFileForCopy d source) in
   match opened with
   | Err e => eret (NtStatusFromWin32 e)
   | Ok srcHandle =>
       let! srcAttrs := look (fun d => attributes_or_invalid (GetFileAttributesW d (WithExtendedPrefix source))) in
       let! workPath := GenerateStagingPath in
       let! basicInfo := look (fun d => guard_of_handle d (Ok srcHandle) (StagedFileAttributes srcAttrs) workPath) in
       let! status := io (step! StageFileInWorkDir source srcHandle srcAttrs workPath in
                          FinishStagedFile source workPath basicInfo) in
       if negb (NT_SUCCESS status) then do! io (RemoveStagedEntry config workPath) in eret status
       else CommitStagedFile normalized workPath (targetUpperPath target)
   end)%eff.

Definition CopyUpFile (relativePath : wstring) : eff EngineState NTSTATUS :=
  (let normalized := NormalizePath relativePath in
   PathReservation normalized
     (let! exists_ := look (fun d => ExistsInUpper d config normalized) in
      if (exists_ : bool) then eret STATUS_SUCCESS
      else
        let! prepared := PrepareCopyUpTarget normalized in
        match prepared with
        | Err status => eret status
        | Ok None => eret STATUS_SUCCESS
        | Ok (Some target) =>
            let! clones := look (fun d => ClonesReparsePoint d (absolutePath (targetSource target))
                                            (attributes (targetSource target))) in
            match clones with
            | Err status => eret status
            | Ok true => CopyUpReparseCloneAndCount normalized target
            | Ok false => copy_up_file_data normalized target
            end
        end))%eff.

Definition LowerUserStreamStatus (d : disk) (normalized : wstring) : NTSTATUS :=
  let lowerSource := ResolveLowerPath d config normalized in
  if negb (Found lowerSource) then STATUS_SUCCESS
  else match HasUserAlternateDataStream d (absolutePath lowerSource) with
       | Err status => status
       | Ok has => if has then STATUS_INVALID_PARAMETER else STATUS_SUCCESS
       end.

Definition CopyUpMetadataOnly (relativePath : wstring) : eff EngineState FileCopyUpResult :=
  (let normalized := NormalizePath relativePath in
   let result status shell := eret {| copyStatus := status; stagedShell := shell |} in
   let! before := look (fun d => ExistsInUpper d config normalized) in
   if (before : bool) then result STATUS_SUCCESS true
   else PathReservation normalized
     (let! exists_ := look (fun d => ExistsInUpper d config normalized) in
      if (exists_ : bool) then result STATUS_SUCCESS true
      else
        let! streams := look (fun d => LowerUserStreamStatus d normalized) in
        if negb (NT_SUCCESS streams) then result streams false
        else
          let! prepared := PrepareCopyUpTarget normalized in
          match prepared with
          | Err status => result status false
          | Ok None => result STATUS_SUCCESS false
          | Ok (Some target) =>
              let! workPath := GenerateStagingPath in
              let! built := io (BuildMetacopyShell (absolutePath (targetSource target)) workPath) in
              if negb (NT_SUCCESS built) then result built false
              else
                let! status := CommitStagedFile normalized workPath (targetUpperPath target) in
                result status (NT_SUCCESS status)
          end))%eff.

Definition CopyUpFileOrShell (relativePath : wstring) (shellOnlyAboveBytes : option Z)
  : eff EngineState FileCopyUpResult :=
  (let copyInFull := let! status := CopyUpFile relativePath in
                     eret {| copyStatus := status; stagedShell := false |} in
   if negb (HasSparseFiles (hostCapabilities config)) then copyInFull
   else
     let! source := look (fun d => ResolveLowerPath d config (NormalizePath relativePath)) in
     if negb (Found source) then copyInFull
     else
       let! small := look (fun d =>
         match shellOnlyAboveBytes with
         | None => false
         | Some bytes =>
             match GetFileAttributesExW d (WithExtendedPrefix (absolutePath source)) with
             | Err _ => true
             | Ok data => large_integer (ed_size_high data) (ed_size_low data) <=? bytes
             end
         end) in
       if (small : bool) then copyInFull
       else
         let! clones := look (fun d => ClonesReparsePoint d (absolutePath source) (attributes source)) in
         match clones with
         | Err status => eret {| copyStatus := status; stagedShell := false |}
         | Ok true => copyInFull
         | Ok false =>
             let! hasUserStream := look (fun d => HasUserAlternateDataStream d (absolutePath source)) in
             match hasUserStream with
             | Err status => eret {| copyStatus := status; stagedShell := false |}
             | Ok true => copyInFull
             | Ok false => CopyUpMetadataOnly relativePath
             end
         end)%eff.

(** ** The fill of a metacopy shell *)

Definition ClearSparseAndTrimAllocation (h : handle) : eff disk (w32 unit) :=
  (let! cleared := SetSparseState h false in
   match cleared with
   | Err e => eret (Err e)
   | Ok _ =>
       let! size := eread (fun d => GetFileSizeEx d h) in
       match size with
       | Err e => eret (Err e)
       | Ok fileSize => SetAllocationSize h fileSize
       end
   end)%eff.

(** [ClearReadOnly] of a path. *)
Definition clear_read_only_at (path : wstring) (attributes : Z) : eff disk (w32 unit) :=
  (if negb (has_attr attributes FILE_ATTRIBUTE_READONLY) then eret (Ok tt)
   else
     let! opened := eread (fun d => OpenExistingW d (WithExtendedPrefix path) FILE_WRITE_ATTRIBUTES
                                      FILE_FLAG_BACKUP_SEMANTICS) in
     match opened with
     | Err e => eret (Err e)
     | Ok entry => ClearReadOnly entry attributes
     end)%eff.

Definition fill_open_shell (srcHandle dstHandle : handle) : eff disk NTSTATUS :=
  (step! CopyFileDataKeepingHoles srcHandle dstHandle in
   let! origin := eread (fun d => GetHandleAttributes d srcHandle) in
   match origin with
   | Err e => eret (NtStatusFromWin32 e)
   | Ok originAttributes =>
       if HasFileAttribute originAttributes FILE_ATTRIBUTE_SPARSE_FILE then eret STATUS_SUCCESS
       else
         let! cleared := ClearSparseAndTrimAllocation dstHandle in
         eret match cleared with Err e => failed_status e ERROR_ACCESS_DENIED | Ok _ => STATUS_SUCCESS end
   end)%eff.

(** Both handles are new, so their file pointers are at the start. *)
Definition FillMetacopyShell (srcHandle : handle) (upper : wstring) : eff disk NTSTATUS :=
  (let! opened := eread (fun d => OpenSharedW d (WithExtendedPrefix upper) GENERIC_WRITE share_all
                                    FILE_FLAG_BACKUP_SEMANTICS) in
   match opened with
   | Err e => eret (NtStatusFromWin32 e)
   | Ok dstHandle =>
       let! status := fill_open_shell srcHandle dstHandle in
       do! CloseHandle dstHandle in
       eret status
   end)%eff.

Definition FinishFilledShell (upper : wstring) (metadata : LayerMountMetadata) : eff disk NTSTATUS :=
  (let! written := write_record upper (with_metacopy metadata false) config in
   if written then eret STATUS_SUCCESS
   else eread (fun d => StatusOfFailedCall d ERROR_WRITE_FAULT))%eff.

(** The fill under its guard, whose destructor restores after a failure. *)
Definition fill_shell (normalized upper : wstring) (metadata : LayerMountMetadata) (srcHandle : handle)
    (shellAttributes : option Z) (basicInfo : FileBasicInfoGuard) : eff EngineState NTSTATUS :=
  (let failed stage status :=
     let! r := RecordFillFailure normalized stage status in
     do! io (Restore basicInfo) in eret r in
   let! cleared := (match shellAttributes with
                    | Some attrs => io (clear_read_only_at upper attrs)
                    | None => eret (Ok tt)
                    end) in
   match cleared with
   | Err e => failed (L "clear the read-only attribute of the shell") (failed_status e ERROR_ACCESS_DENIED)
   | Ok _ =>
       let! filled := io (FillMetacopyShell srcHandle upper) in
       if negb (NT_SUCCESS filled) then failed (L "copy the origin's data into the shell") filled
       else
         let! finished := io (FinishFilledShell upper metadata) in
         if negb (NT_SUCCESS finished) then failed (L "finish the filled shell") finished
         else
           let! restored := io (Restore basicInfo) in
           match restored with
           | Err e => RecordFillFailure normalized (L "restore the attributes and times of the filled file")
                        (failed_status e ERROR_ACCESS_DENIED)
           | Ok _ => eret STATUS_SUCCESS
           end
   end)%eff.

Definition CompleteLazyCopyUp (relativePath : wstring) : eff EngineState NTSTATUS :=
  (let normalized := NormalizePath relativePath in
   let upper := GetUpperPath config normalized in
   PathReservation normalized
     (let! metadata := look (fun d => ReadLayerMountMetadata d upper (Some config)) in
      if negb (metacopy metadata) then eret STATUS_SUCCESS
      else
        let! opened := look (fun d => OpenSourceFileForCopy d (originLayer metadata)) in
        match opened with
        | Err e => RecordFillFailure normalized (L "open the origin file") (NtStatusFromWin32 e)
        | Ok srcHandle =>
            let! shellInfo := look (fun d => GetFileAttributesExW d (WithExtendedPrefix upper)) in
            let shellAttributes := match shellInfo with Ok data => Some (ed_attributes data) | Err _ => None end in
            let basicInfo := {| guardTimes := match shellInfo with Ok data => EntryTimesOf data | Err _ => no_times end;
                                guardAttributes := shellAttributes; guardTarget := upper |} in
            fill_shell normalized upper metadata srcHandle shellAttributes basicInfo
        end))%eff.
End CopyUp.
