(* ===== verification/Reservations.v ===== *)
(** * Reservations of paths between threads

    [CopyUp::PathReservation] with other threads: the set of paths in flight,
    the scopes that each thread is in, and the wait of a constructor.  A scope
    opens inside another only for the parent of its path: [CopyUpFile],
    [CopyUpMetadataOnly] and [CopyUpDirectory] hold their path when
    [EnsureUpperParent] copies the parent up with [CopyUpDirectory]. *)
From S2P Require Export CopyUp PathFacts.
Open Scope Z_scope.

(** A thread's open scopes, the innermost first, and the path that it waits
    for in a constructor. *)
Record thread := { held : list wstring; waiting : option wstring }.

Record reservations := { inFlight : gset wstring; threads : gmap nat thread }.

Section Reservations.
Context `{W : Win32} `{CL : !CaseLaws}.

(** The path of a scope that opens inside a scope on [outer]. *)
Definition parent_reservation (outer : wstring) : wstring := NormalizePath (ParentOfNormalizedPath outer).

Definition may_request (th : thread) (path : wstring) : Prop :=
  match held th with
  | [] => True
  | outer :: _ => ParentOfNormalizedPath outer <> [] /\ path = parent_reservation outer
  end.

Inductive reservation_event := Requests | Acquires | Releases.

(** The steps of the constructor and of the destructor.  The wait ends with
    the check and the insert under one lock. *)
Inductive reservation_step (s : reservations) : reservation_event -> reservations -> Prop :=
| step_request t th path :
    threads s !! t = Some th -> waiting th = None -> may_request th path ->
    reservation_step s Requests {| inFlight := inFlight s;
                          threads := <[t := {| held := held th; waiting := Some path |}]> (threads s) |}
| step_acquire t th path :
    threads s !! t = Some th -> waiting th = Some path -> path ∉ inFlight s ->
    reservation_step s Acquires {| inFlight := {[path]} ∪ inFlight s;
                          threads := <[t := {| held := path :: held th; waiting := None |}]> (threads s) |}
| step_release t th path rest :
    threads s !! t = Some th -> waiting th = None -> held th = path :: rest ->
    reservation_step s Releases {| inFlight := inFlight s ∖ {[path]};
                          threads := <[t := {| held := rest; waiting := None |}]> (threads s) |}.

Definition idle (s : reservations) : Prop :=
  inFlight s = ∅ /\ forall t th, threads s !! t = Some th -> held th = [] /\ waiting th = None.

Inductive reachable : reservations -> Prop :=
| reach_idle s : idle s -> reachable s
| reach_step s e s' : reachable s -> reservation_step s e s' -> reachable s'.

(** Every scope is inside the one below it, so the paths get shorter. *)
Fixpoint shortening (paths : list wstring) : Prop :=
  match paths with
  | [] => True
  | p :: rest => match rest with [] => True | q :: _ => (length p < length q)%nat end /\ shortening rest
  end.

Record reservations_ok (s : reservations) : Prop := {
  (** The set is the paths held. *)
  ok_in_flight path : path ∈ inFlight s <-> exists t th, threads s !! t = Some th /\ path ∈ held th;
  (** No two scopes are on one path. *)
  ok_exclusive t u th uh path :
    threads s !! t = Some th -> threads s !! u = Some uh -> path ∈ held th -> path ∈ held uh -> t = u;
  ok_once t th : threads s !! t = Some th -> NoDup (held th);
  (** A thread waits for a shorter path than any it holds. *)
  ok_order t th : threads s !! t = Some th ->
    shortening (match waiting th with Some p => p :: held th | None => held th end)
}.

Lemma length_strip_leading c s : (length (strip_leading c s) <= length s)%nat.
Proof. by apply suffix_length, strip_leading_suffix. Qed.

Lemma normalize_length p : (length (NormalizePath p) <= length p)%nat.
Proof.
  unfold NormalizePath. rewrite lower_length. unfold NormalizePathPreserveCase.
  transitivity (length (strip_leading ch_bsl (wreplace ch_slash ch_bsl p))).
  - apply prefix_length, strip_trailing_prefix.
  - etrans; [apply length_strip_leading|]. unfold wreplace. by rewrite length_fmap.
Qed.

Lemma parent_shorter p : ParentOfNormalizedPath p <> [] -> (length (parent_reservation p) < length p)%nat.
Proof.
  intros Hp. unfold parent_reservation. pose proof (normalize_length (ParentOfNormalizedPath p)) as Hn.
  unfold ParentOfNormalizedPath in *. destruct (wrfind ch_bsl p) as [i|] eqn:E; [|done].
  apply wrfind_Some in E as [E _]. apply lookup_lt_Some in E. rewrite length_take in Hn. lia.
Qed.

(** ** The invariant *)

Lemma shortening_tail p rest : shortening (p :: rest) -> shortening rest.
Proof. by intros [_ H]. Qed.

(** Every path of a shortening list is longer than the paths before it. *)
Lemma shortening_longer p rest q : shortening (p :: rest) -> q ∈ rest -> (length p < length q)%nat.
Proof.
  revert p. induction rest as [|r rest IH]; intros p; [by intros _ ?%elem_of_nil|].
  intros [Hpr Hrest] [->|Hq]%elem_of_cons; [done|]. specialize (IH r Hrest Hq). lia.
Qed.

Lemma shortening_not_in p rest : shortening (p :: rest) -> p ∉ rest.
Proof. intros Hs Hp. pose proof (shortening_longer p rest p Hs Hp). lia. Qed.

Lemma idle_ok s : idle s -> reservations_ok s.
Proof.
  intros [He Hi]. split.
  - intros path. rewrite He. split; [by intros ?%elem_of_empty|].
    intros (t & th & Ht & Hp). destruct (Hi t th Ht) as [Hh _]. rewrite Hh in Hp. by apply elem_of_nil in Hp.
  - intros t u th uh path Ht _ Hp. destruct (Hi t th Ht) as [Hh _]. rewrite Hh in Hp. by apply elem_of_nil in Hp.
  - intros t th Ht. destruct (Hi t th Ht) as [-> _]. constructor.
  - intros t th Ht. by destruct (Hi t th Ht) as [-> ->].
Qed.

(** A thread of the state after a step is the one that moved or an old one. *)
Lemma insert_thread (m : gmap nat thread) t x u th :
  <[t := x]> m !! u = Some th -> (u = t /\ th = x) \/ (u <> t /\ m !! u = Some th).
Proof. rewrite lookup_insert_Some. naive_solver. Qed.

(** Each event keeps the invariant. *)
Lemma request_ok s t th path :
  reservations_ok s -> threads s !! t = Some th -> waiting th = None -> may_request th path ->
  reservations_ok {| inFlight := inFlight s; threads := <[t := {| held := held th; waiting := Some path |}]> (threads s) |}.
Proof.
  intros [Hf Hx Ho Hs] Ht Hw Hmay.
  assert (Hold : forall u uh, <[t := {| held := held th; waiting := Some path |}]> (threads s) !! u = Some uh ->
                   exists oh, threads s !! u = Some oh /\ held uh = held oh).
  { intros u uh [[-> ->]|[_ Hu]]%insert_thread; [by exists th|by exists uh]. }
  split; cbn [inFlight threads].
  - intros p. rewrite Hf. split; intros (u & uh & Hu & Hp).
    + destruct (decide (u = t)) as [->|Hne].
      * exists t, {| held := held th; waiting := Some path |}. rewrite lookup_insert_eq. split; [done|]. by simplify_eq.
      * exists u, uh. by rewrite lookup_insert_ne.
    + destruct (Hold u uh Hu) as (oh & Ho' & He). exists u, oh. by rewrite <- He.
  - intros u v uh vh p (oh & Hou & Heu)%Hold (ph & Hov & Hev)%Hold. rewrite Heu, Hev. intros Hp Hq. exact (Hx _ _ _ _ _ Hou Hov Hp Hq).
  - intros u uh (oh & Hou & ->)%Hold. exact (Ho _ _ Hou).
  - intros u uh [[-> ->]|[_ Hu]]%insert_thread; [|exact (Hs _ _ Hu)]. cbn [waiting held].
    specialize (Hs t th Ht). rewrite Hw in Hs. unfold may_request in Hmay.
    destruct (held th) as [|outer rest]; [done|]. destruct Hmay as [Hne ->]. split; [by apply parent_shorter|done].
Qed.

Lemma acquire_ok s t th path :
  reservations_ok s -> threads s !! t = Some th -> waiting th = Some path -> path ∉ inFlight s ->
  reservations_ok {| inFlight := {[path]} ∪ inFlight s;
                     threads := <[t := {| held := path :: held th; waiting := None |}]> (threads s) |}.
Proof.
  intros [Hf Hx Ho Hs] Ht Hw Hfree.
  assert (Hth := Hs t th Ht). rewrite Hw in Hth.
  split; cbn [inFlight threads].
  - intros p. rewrite elem_of_union, elem_of_singleton, Hf. split.
    + intros [->|(u & uh & Hu & Hp)].
      * eexists t, _. rewrite lookup_insert_eq. split; [done|]. left.
      * destruct (decide (u = t)) as [->|Hne].
         -- eexists t, _. rewrite lookup_insert_eq. split; [done|]. right. by simplify_eq.
         -- exists u, uh. by rewrite lookup_insert_ne.
    + intros (u & uh & [[-> ->]|[Hne Hu]]%insert_thread & Hp); [|by right; exists u, uh].
      apply elem_of_cons in Hp as [->|Hp]; [by left|right]. by exists t, th.
  - assert (Hfresh : forall u uh, threads s !! u = Some uh -> path ∉ held uh).
    { intros u uh Hu Hp. apply Hfree, Hf. by exists u, uh. }
    intros u v uh vh p [[-> ->]|[Hu Hu']]%insert_thread [[-> ->]|[Hv Hv']]%insert_thread; cbn [held]; try done.
    + intros [->|Hp]%elem_of_cons Hq; [by destruct (Hfresh _ _ Hv' Hq)|exact (Hx _ _ _ _ _ Ht Hv' Hp Hq)].
    + intros Hp [->|Hq]%elem_of_cons; [by destruct (Hfresh _ _ Hu' Hp)|exact (Hx _ _ _ _ _ Hu' Ht Hp Hq)].
    + intros Hp Hq. exact (Hx _ _ _ _ _ Hu' Hv' Hp Hq).
  - intros u uh [[-> ->]|[_ Hu]]%insert_thread; [|exact (Ho _ _ Hu)]. cbn [held]. constructor; [|exact (Ho _ _ Ht)].
    by apply shortening_not_in.
  - intros u uh [[-> ->]|[_ Hu]]%insert_thread; [done|exact (Hs _ _ Hu)].
Qed.

Lemma release_ok s t th path rest :
  reservations_ok s -> threads s !! t = Some th -> waiting th = None -> held th = path :: rest ->
  reservations_ok {| inFlight := inFlight s ∖ {[path]};
                     threads := <[t := {| held := rest; waiting := None |}]> (threads s) |}.
Proof.
  intros [Hf Hx Ho Hs] Ht Hw Hh.
  assert (Hth := Hs t th Ht). rewrite Hw, Hh in Hth. assert (Hnd := Ho t th Ht). rewrite Hh in Hnd.
  apply NoDup_cons in Hnd as [Hnin Hnd].
  split; cbn [inFlight threads].
  - intros p. rewrite elem_of_difference, not_elem_of_singleton, Hf. split.
    + intros [(u & uh & Hu & Hp) Hne]. destruct (decide (u = t)) as [->|Hut].
      * eexists t, _. rewrite lookup_insert_eq. split; [done|]. cbn. simplify_eq. rewrite Hh in Hp.
         by apply elem_of_cons in Hp as [->|Hp].
      * exists u, uh. by rewrite lookup_insert_ne.
    + intros (u & uh & [[-> ->]|[Hne Hu]]%insert_thread & Hp); cbn [held] in Hp.
      * split; [exists t, th; split; [done|rewrite Hh; by right]|]. by intros ->.
      * split; [by exists u, uh|]. intros ->. apply Hne. apply (Hx u t uh th path); try done. rewrite Hh. left.
  - intros u v uh vh p [[-> ->]|[Hu Hu']]%insert_thread [[-> ->]|[Hv Hv']]%insert_thread; cbn [held]; try done.
    + intros Hp Hq. apply (Hx t v th vh p); try done. rewrite Hh. by right.
    + intros Hp Hq. apply (Hx u t uh th p); try done. rewrite Hh. by right.
    + intros Hp Hq. exact (Hx _ _ _ _ _ Hu' Hv' Hp Hq).
  - intros u uh [[-> ->]|[_ Hu]]%insert_thread; [done|exact (Ho _ _ Hu)].
  - intros u uh [[-> ->]|[_ Hu]]%insert_thread; [cbn [waiting held]; by apply shortening_tail in Hth|exact (Hs _ _ Hu)].
Qed.

Lemma step_ok s e s' : reservations_ok s -> reservation_step s e s' -> reservations_ok s'.
Proof.
  intros Hs [t th path Ht Hw Hmay|t th path Ht Hw Hfree|t th path rest Ht Hw Hh];
    [by eapply request_ok|by eapply acquire_ok|by eapply release_ok].
Qed.

Lemma reachable_ok s : reachable s -> reservations_ok s.
Proof. induction 1 as [s Hi|s e s' _ IH Hstep]; [by apply idle_ok|by eapply step_ok]. Qed.

(** C10: the invariant of the reservations, in every state that threads reach
    by opening and closing scopes: the set in flight is exactly the paths of
    the open scopes, no two scopes are on one path, in one thread or in two,
    and a thread only waits for a path shorter than all it holds. *)
Theorem reservations_invariant s : reachable s -> reservations_ok s.
Proof. induction 1 as [s Hi|s e s' _ IH Hstep]; [by apply idle_ok|by eapply step_ok]. Qed.

Lemma some_thread_moves n s t th path :
  reservations_ok s -> (length path <= n)%nat -> threads s !! t = Some th -> waiting th = Some path ->
  exists e s', e <> Requests /\ reservation_step s e s'.
Proof.
  intros Hok. revert t th path. induction n as [|n IH]; intros t th path Hn Ht Hw;
    (destruct (decide (path ∈ inFlight s)) as [Hin|Hfree];
      [|exists Acquires; eexists; split; [done|by eapply step_acquire]];
     apply (ok_in_flight s Hok) in Hin as (u & uh & Hu & Hp);
     destruct (waiting uh) as [q|] eqn:Hq;
      [|destruct (held uh) as [|top rest] eqn:Hh; [by apply elem_of_nil in Hp|];
        exists Releases; eexists; split; [done|by eapply step_release]];
     pose proof (ok_order s Hok u uh Hu) as Hs; rewrite Hq in Hs; pose proof (shortening_longer _ _ _ Hs Hp)).
  - lia.
  - apply (IH u uh q); [lia|done|done].
Qed.

(** C12: copy-ups never deadlock: whenever a thread waits for a path, some
    thread can go on without a new request, by taking the path it waits for
    or by closing its innermost scope. *)
Theorem reservations_never_deadlock s t th path :
  reachable s -> threads s !! t = Some th -> waiting th = Some path ->
  exists e s', e <> Requests /\ reservation_step s e s'.
Proof. intros Hr. apply (some_thread_moves (length path)); [by apply reachable_ok|done]. Qed.
End Reservations.

(** ** A run with two threads

    The first holds [a\b] and copies it up; the second holds [a\b\c] and
    waits for [a\b]. *)
Module TwoThreads.
Definition ab : wstring := L "a\b".
Definition abc : wstring := L "a\b\c".

Definition start : reservations :=
  {| inFlight := ∅; threads := {[0%nat := {| held := []; waiting := None |};
                                 1%nat := {| held := []; waiting := None |}]} |}.

Definition none : thread := {| held := []; waiting := None |}.

(** The first thread asks for [a\b] and gets it; the second asks for
    [a\b\c], gets it, and asks for its parent. *)
Definition asks_ab : reservations :=
  {| inFlight := ∅; threads := <[0%nat := {| held := []; waiting := Some ab |}]> (threads start) |}.
Definition holds_ab : reservations :=
  {| inFlight := {[ab]} ∪ ∅; threads := <[0%nat := {| held := [ab]; waiting := None |}]> (threads asks_ab) |}.
Definition asks_abc : reservations :=
  {| inFlight := inFlight holds_ab;
     threads := <[1%nat := {| held := []; waiting := Some abc |}]> (threads holds_ab) |}.
Definition both_hold : reservations :=
  {| inFlight := {[abc]} ∪ inFlight asks_abc;
     threads := <[1%nat := {| held := [abc]; waiting := None |}]> (threads asks_abc) |}.
Definition waits : reservations :=
  {| inFlight := inFlight both_hold;
     threads := <[1%nat := {| held := [abc]; waiting := Some ab |}]> (threads both_hold) |}.

Lemma start_idle : idle start.
Proof.
  split; [done|]. intros t th. unfold start. cbn [threads]. rewrite lookup_insert_Some, lookup_singleton_Some.
  by intros [[<- <-]|(_ & <- & <-)].
Qed.

Lemma holds_ab_reachable : reachable (W := mem_win32) holds_ab.
Proof.
  apply (reach_step asks_ab Acquires); [apply (reach_step start Requests); [apply reach_idle, start_idle|]|].
  - exact (step_request start 0%nat none ab eq_refl eq_refl I).
  - exact (step_acquire asks_ab 0%nat {| held := []; waiting := Some ab |} ab eq_refl eq_refl (not_elem_of_empty ab)).
Qed.

Lemma waits_reachable : reachable (W := mem_win32) waits.
Proof.
  apply (reach_step both_hold Requests); [apply (reach_step asks_abc Acquires);
    [apply (reach_step holds_ab Requests); [apply holds_ab_reachable|]|]|].
  - exact (step_request holds_ab 1%nat none abc eq_refl eq_refl I).
  - apply (step_acquire asks_abc 1%nat {| held := []; waiting := Some abc |} abc eq_refl eq_refl).
    cbn [inFlight asks_abc holds_ab]. set_solver.
  - apply (step_request both_hold 1%nat {| held := [abc]; waiting := None |} ab eq_refl eq_refl).
    split; [by vm_compute|by vm_compute].
Qed.
End TwoThreads.

Lemma reservations_invariant_witness : reservations_ok TwoThreads.waits.
Proof. apply (reservations_invariant (W := mem_win32)), TwoThreads.waits_reachable. Defined.

Lemma reservations_never_deadlock_witness :
  exists e s', e <> Requests /\ reservation_step (W := mem_win32) TwoThreads.waits e s'.
Proof.
  apply (reservations_never_deadlock TwoThreads.waits 1 {| held := [TwoThreads.abc]; waiting := Some TwoThreads.ab |}
           TwoThreads.ab TwoThreads.waits_reachable); reflexivity.
Defined.
