(* ===== verification/WorkDirectory.v ===== *)
(** * The work directory

    [WorkDirectory.cpp]: the layout rule, the two locks and the reset of the
    staging area. *)
From S2P Require Export CopyUp.
Open Scope Z_scope.

Definition kWorkDirectoryLockName : wstring := L ".layermount.lock".
Definition kUpperLockName : wstring := L ".layermount.upper.lock".
Definition E_INVALIDARG : Z := 0x80070057.

(** [FAILED(hr)]. *)
Definition FAILED (hr : Z) : bool := has_attr hr 0x80000000.

Record LayoutPath := { written : wstring; resolvedFinal : wstring }.

(** The locks that a live overlay holds. *)
Record OpenWorkDirectory `{W : Win32} := { workDirectoryLock : option handle; upperLock : option handle }.

Section WorkDirectory.
Context `{W : Win32} `{J : Json} `{H : !EntryHost}.

Definition FinalPathNameOf (d : disk) (h : handle) : wstring := default [] (GetFinalPathNameByHandleW d h).

Definition FinalPathOfDirectory (d : disk) (path : wstring) : wstring :=
  match OpenExistingW d (WithExtendedPrefix path) FILE_READ_ATTRIBUTES FILE_FLAG_BACKUP_SEMANTICS with
  | Err _ => []
  | Ok directory => FinalPathNameOf d directory
  end.

Definition WrittenPath (path : wstring) : LayoutPath := {| written := ComparablePath path; resolvedFinal := [] |}.

Definition WrittenAndResolvedPath (d : disk) (path : wstring) : LayoutPath :=
  let finalPath := FinalPathOfDirectory d path in
  {| written := ComparablePath path;
     resolvedFinal := if bool_decide (finalPath = []) then [] else ComparablePath finalPath |}.

Definition PathsToCompare (a b : LayoutPath) : wstring * wstring :=
  if negb (bool_decide (resolvedFinal a = [])) && negb (bool_decide (resolvedFinal b = []))
  then (resolvedFinal a, resolvedFinal b) else (written a, written b).

Definition AreSameOrNested (a b : wstring) : bool :=
  bool_decide (a = b) || IsInsideDirectory a b || IsInsideDirectory b a.

Definition OverlapsUpper (work upper : LayoutPath) : bool :=
  let (workPath, upper) := PathsToCompare work upper in
  negb (bool_decide (workPath = JoinDirPath upper kSidecarDirName)) && AreSameOrNested workPath upper.

Definition OverlapsLower (work lower : LayoutPath) : bool :=
  let (workPath, lowerPath) := PathsToCompare work lower in AreSameOrNested workPath lowerPath.

(** The result, and the message of a failure. *)
Definition CheckLayoutWith (config : LayerConfig) (read : wstring -> LayoutPath) : Z * wstring :=
  let work := read (workDirPath config) in
  if OverlapsUpper work (read (upperPath config)) then
    (E_INVALIDARG, L "The work directory and the upper layer must not be the same directory or contain one another: "
                   ++ workDirPath config)
  else match find (fun lower => OverlapsLower work (read lower)) (lowerPaths config) with
       | Some lower =>
           (E_INVALIDARG,
            L "The work directory and a lower layer must not be the same directory or contain one another: " ++ lower)
       | None => (S_OK, [])
       end.

Definition CheckLayout (config : LayerConfig) : Z * wstring := CheckLayoutWith config WrittenPath.

(** The result, the lock and the message. *)
Definition TakeLock (lockDirectory lockName directory role : wstring) : eff disk (Z * option handle * wstring) :=
  (let lockPath := JoinDirPath (WithExtendedPrefix lockDirectory) lockName in
   let! opened := CreateFileW lockPath (Z.lor GENERIC_READ DELETE) 0 OPEN_ALWAYS
                    (Z.lor FILE_ATTRIBUTE_HIDDEN FILE_FLAG_DELETE_ON_CLOSE) in
   eret match opened with
        | Ok lock => (S_OK, Some lock, [])
        | Err lockError =>
            if lockError =? ERROR_SHARING_VIOLATION
            then (hresult_from_win32 ERROR_BUSY, None, L "The " ++ role ++ L " is in use by another overlay: " ++ directory)
            else (hresult_from_win32 lockError, None, L "Failed to lock the " ++ role ++ L ": " ++ directory)
        end)%eff.

Definition LockUpper (upper : wstring) : eff disk (Z * option handle * wstring) :=
  (let lockDirectory := JoinDirPath upper kSidecarDirName in
   do! CreateDirectoryW (WithExtendedPrefix lockDirectory) in
   TakeLock lockDirectory kUpperLockName upper (L "upper layer"))%eff.

Definition ResetStagingArea (config : LayerConfig) : eff disk (Z * wstring) :=
  (let staging := StagingAreaPath (workDirPath config) in
   let! failure := RemoveStagedEntry config staging in
   match failure with
   | Some f => eret (hresult_from_win32 (failureError f),
                     L "Failed to delete a leftover entry from the work directory: " ++ failurePath f)
   | None =>
       let! made := CreateDirectoryW (WithExtendedPrefix staging) in
       eret match made with
            | Ok _ => (S_OK, [])
            | Err createError => (hresult_from_win32 createError,
                                  L "Failed to create the staging area of the work directory: " ++ staging)
            end
   end)%eff.

(** The destructor of a [ScopedHandle]. *)
Definition close_lock (lock : option handle) : eff disk unit :=
  match lock with Some h => CloseHandle h | None => eret tt end.

(** [WorkDirectory::Open]: the result, the object and the message. *)
Definition Open (config : LayerConfig) : eff disk (Z * option OpenWorkDirectory * wstring) :=
  (let! (layout, error) := eread (fun d => CheckLayoutWith config (WrittenAndResolvedPath d)) in
   if FAILED layout then eret (layout, None, error)
   else
     let! (locked, workLock, error) := TakeLock (workDirPath config) kWorkDirectoryLockName (workDirPath config)
                                         (L "work directory") in
     if FAILED locked then eret (locked, None, error)
     else
       let! (upperLocked, upLock, error) := LockUpper (upperPath config) in
       if FAILED upperLocked then do! close_lock workLock in eret (upperLocked, None, error)
       else
         let! (reset, error) := ResetStagingArea config in
         if FAILED reset then
           do! close_lock upLock in
           do! close_lock workLock in
           eret (reset, None, error)
         else eret (S_OK, Some {| workDirectoryLock := workLock; upperLock := upLock |}, error))%eff.
End WorkDirectory.
