(* ===== verification/RenameAside.v ===== *)
(** * The shared steps of a rename, and the removal of an entry

    [RenameDestinationAside] and the rename calls of [CopyUp.cpp],
    [RenameRollback.cpp], [RenameLinkBoundary.cpp], [FileRename.cpp] and
    [UpperEntryRemover.cpp]. *)
From S2P Require Export CopyUp.
Open Scope Z_scope.

Inductive UndoOpaqueMarker := UndoKeep | UndoRemove.
Inductive RenameCopyUp := ShellWhenPossible | FullCopy.
Inductive FileRenameReplace := FileReplaceNo | AfterAside | InPlace.

Record UpperRename := {
  oldNorm : wstring;
  newNorm : wstring;
  oldUpperPath : wstring;
  opaqueMarker : UndoOpaqueMarker
}.

Record RenameStepResult := { stepStatus : NTSTATUS; newNameOccupied : bool }.

Record RenameLinks := {
  sourceInLinkTarget : bool;
  destinationInLinkTarget : bool;
  lowerLinkToCopyUp : option wstring
}.

Record MovedFile := { movedStatus : NTSTATUS; movedShell : bool; movedFrom : wstring }.

Section Rename.
Context `{W : Win32} `{J : Json} `{E : CacheEnv} `{H : !EntryHost} `{T : !Threads} (config : LayerConfig).

(** ** Entries moved aside *)

(** The move, and the aside path when an entry moved. *)
Definition MoveUpperEntryAside (path : wstring) (newAsidePath : eff EngineState wstring)
  : eff EngineState (UpperEntryMove * option wstring) :=
  (let stays status := eret ({| moveStatus := status; recordLeftBehind := STATUS_SUCCESS |}, None) in
   let! probe := look (fun d => GetFileAttributesW d (WithExtendedPrefix path)) in
   match probe with
   | Err probeErr => stays (if IsNotFoundError probeErr then STATUS_SUCCESS else NtStatusFromWin32 probeErr)
   | Ok _ =>
       let! target := newAsidePath in
       let! move := io (MoveUpperEntry config path target ReplaceNo) in
       eret (move, if NT_SUCCESS (moveStatus move) then Some target else None)
   end)%eff.

Definition HideEntry (path : wstring) : eff disk (option Z) :=
  (let! attributes := eread (fun d => GetFileAttributesW d (WithExtendedPrefix path)) in
   match attributes with
   | Err _ => eret None
   | Ok attrs =>
       let! written := WriteOwnAttributes path (Z.lor attrs FILE_ATTRIBUTE_HIDDEN) in
       eret (if is_ok written then Some attrs else None)
   end)%eff.

Definition remove_aside_copy (where_ : DestinationAside) (path : wstring) : eff disk unit :=
  (match where_ with
   | WorkDirectory => do! RemoveStagedEntry config path in eret tt
   | NextToDestination => do! RemoveUpperEntry config path in eret tt
   end)%eff.

(** The destructor of [RenameDestinationAside]. *)
Definition drop_aside (held_ : option HeldAside) : eff EngineState unit :=
  (match held_ with
   | None => eret tt
   | Some held =>
       let! occupied := look (fun d => is_ok (GetFileAttributesW d (WithExtendedPrefix (heldUpperPath held)))) in
       do! (if (occupied : bool) then io (remove_aside_copy (removeCopy held) (asidePath held))
            else
              let! moveBack := io (MoveUpperEntryLeavingStuckRecords config (asidePath held) (heldUpperPath held)
                                     ReplaceNo) in
              do! WarnRecordLeftBehind moveBack (normalizedPath held) in
              match attributesToRestore held with
              | Some attrs =>
                  if NT_SUCCESS (moveStatus moveBack) then
                    let! written := io (WriteOwnAttributes (heldUpperPath held) attrs) in
                    match written with
                    | Err e => warn (hresult_from_win32 e) (normalizedPath held)
                                 (L "The destination that a failed rename moved back stays hidden")
                    | Ok _ => eret tt
                    end
                  else eret tt
              | None => eret tt
              end) in
       engine_cache (InvalidateWithAncestors (normalizedPath held))
   end)%eff.

(** [Hold], [Commit] and [Release]: what the object holds afterwards. *)
Definition Hold (held : HeldAside) : option HeldAside := Some held.

Definition Commit (held_ : option HeldAside) : eff EngineState (option HeldAside) :=
  (match held_ with
   | None => eret None
   | Some held => do! io (remove_aside_copy (removeCopy held) (asidePath held)) in eret None
   end)%eff.

Definition Release (held_ : option HeldAside) : option HeldAside := None.

Definition CheckDestinationReplaceable (d : disk) (newNorm : wstring) (destinationKind : EntryKind) : NTSTATUS :=
  match destinationKind with
  | KFile =>
      let attributes := UpperAttributes d config newNorm in
      if negb (attributes =? INVALID_FILE_ATTRIBUTES) && has_attr attributes FILE_ATTRIBUTE_READONLY
      then STATUS_ACCESS_DENIED else STATUS_SUCCESS
  | _ => STATUS_SUCCESS
  end.

(** The status, and what [*aside] holds. *)
Definition SetRenameDestinationAside (newNorm : wstring) (destinationKind : EntryKind) (where_ : DestinationAside)
    (aside : option HeldAside) : eff EngineState (NTSTATUS * option HeldAside) :=
  (let! replaceable := look (fun d => CheckDestinationReplaceable d newNorm destinationKind) in
   if negb (NT_SUCCESS replaceable) then eret (replaceable, aside)
   else
     let! upper := look (fun d => GetStoredUpperPath d config newNorm) in
     let! (move, moved) := MoveUpperEntryAside upper
       (match where_ with
        | WorkDirectory => GenerateStagingPath config
        | NextToDestination => GenerateAsidePathNextTo upper
        end) in
     do! WarnRecordLeftBehind move newNorm in
     match moved with
     | Some target =>
         if negb (NT_SUCCESS (moveStatus move)) then eret (moveStatus move, aside)
         else
           do! engine_cache (InvalidateWithAncestors newNorm) in
           let! hidden := (match where_ with
                           | NextToDestination => io (HideEntry target)
                           | WorkDirectory => eret None
                           end) in
           eret (STATUS_SUCCESS,
                 Hold {| normalizedPath := newNorm; heldUpperPath := upper; asidePath := target;
                         attributesToRestore := hidden; removeCopy := where_ |})
     | None => eret (moveStatus move, aside)
     end)%eff.

(** ** The other rename calls of [CopyUp] *)

Definition RenameDirectoryCase (oldCallerPath newCallerPath : wstring) (sourceKind : EntryKind)
  : eff EngineState NTSTATUS :=
  (let normalized := NormalizePath oldCallerPath in
   let newUpperPath := GetUpperPathForNewEntry config newCallerPath in
   let copyAndMove :=
     step! CopyUpDirectory config oldCallerPath in
     let! from := look (fun d => GetStoredUpperPath d config oldCallerPath) in
     let! move := io (MoveUpperEntry config from newUpperPath ReplaceNo) in
     do! engine_cache (InvalidateWithAncestors normalized) in
     eret (moveStatus move) in
   let! source := look (fun d =>
     match sourceKind with
     | KLink => if ExistsInUpper d config normalized then not_found else ResolveLowerPath d config normalized
     | _ => not_found
     end) in
   if negb (Found source) then copyAndMove
   else
     step! EnsureUpperParent config (NormalizePath newCallerPath) in
     let! staging := GenerateStagingPath config in
     step! io (CloneReparsePointThroughWorkDir config
                 {| sourcePath := absolutePath source; sourceAttributes := attributes source |}
                 staging newUpperPath {| record := NewFromSource; policyConfig := config |}) in
     do! engine_cache (InvalidateWithAncestors normalized) in
     eret STATUS_SUCCESS)%eff.

Definition CopyUpLowerLinkAbove (normalized : wstring) : eff EngineState NTSTATUS :=
  (let! link := look (fun d => FindLinkAbove d config normalized) in
   match linkStop link with
   | LinkStopLink => if bool_decide (linkSource link = Lower) then CopyUpDirectory config (linkPath link)
                     else eret STATUS_SUCCESS
   | LinkStopUnreadable | LinkStopNone => eret STATUS_SUCCESS
   end)%eff.

(** ** The undo of a rename *)

Definition MoveBack (rename : UpperRename) : eff EngineState NTSTATUS :=
  (let! from := look (fun d => GetStoredUpperPath d config (newNorm rename)) in
   let! move := io (MoveUpperEntry config from (oldUpperPath rename) ReplaceNo) in
   let moveBack := moveStatus move in
   do! WarnRecordLeftBehind move (if NT_SUCCESS moveBack then oldNorm rename else newNorm rename) in
   do! (match opaqueMarker rename with
        | UndoRemove =>
            if NT_SUCCESS moveBack then
              let! removed := on_markers (RemoveOpaque config (oldNorm rename)) in
              if (removed : bool) then eret tt
              else warn E_FAIL (oldNorm rename)
                     (L "The undo of a failed rename could not remove the opaque marker it wrote")
            else eret tt
        | UndoKeep => eret tt
        end) in
   do! engine_cache (InvalidateWithAncestors (oldNorm rename)) in
   do! engine_cache (InvalidateWithAncestors (newNorm rename)) in
   eret moveBack)%eff.

Definition could_not_move_back : wstring := L "The undo of a failed rename could not move the entry back".

Definition WhiteOutSource (rename : UpperRename) (type : WhiteoutType) : eff EngineState RenameStepResult :=
  (let result status occupied := eret {| stepStatus := status; newNameOccupied := occupied |} in
   let! whiteout := on_markers (CreateWhiteout config (oldNorm rename) type) in
   if NT_SUCCESS whiteout then result STATUS_SUCCESS false
   else
     let! moveBack := MoveBack rename in
     if NT_SUCCESS moveBack then result whiteout false
     else
       do! warn (HresultFromNtStatus moveBack) (newNorm rename) could_not_move_back in
       let! destinationWhiteout := on_markers (RemoveWhiteout config (newNorm rename)) in
       do! (if NT_SUCCESS destinationWhiteout then eret tt
            else warn (HresultFromNtStatus destinationWhiteout) (newNorm rename)
                   (L "The undo of a failed rename could not remove the whiteout at the new name")) in
       result whiteout true)%eff.

Definition RemoveDestinationWhiteoutOrUndo (rename : UpperRename) : eff EngineState RenameStepResult :=
  (let result status occupied := eret {| stepStatus := status; newNameOccupied := occupied |} in
   let! removeStatus := on_markers (RemoveWhiteout config (newNorm rename)) in
   if NT_SUCCESS removeStatus then result STATUS_SUCCESS false
   else
     let! moveBack := MoveBack rename in
     if negb (NT_SUCCESS moveBack) then
       do! warn (HresultFromNtStatus moveBack) (newNorm rename) could_not_move_back in
       result removeStatus true
     else
       let! sourceWhiteout := on_markers (RemoveWhiteout config (oldNorm rename)) in
       do! (if NT_SUCCESS sourceWhiteout then eret tt
            else warn (HresultFromNtStatus sourceWhiteout) (oldNorm rename)
                   (L "The undo of a failed rename could not remove the whiteout at the old name")) in
       result removeStatus false)%eff.

(** ** The link boundary *)

Definition ShownParentTarget (normalized : wstring) : eff EngineState LinkTarget :=
  (let parent := ParentOfNormalizedPath normalized in
   if bool_decide (parent = []) then eret TargetDirectory
   else
     let! shown := lookup_in (fun d => ResolvePath d config parent) in
     look (fun d => ShownLinkTarget d shown))%eff.

(** The status, and [*links] where the call sets it. *)
Definition CheckRenameLinkBoundary (old new : wstring) (links : RenameLinks)
  : eff EngineState (NTSTATUS * RenameLinks) :=
  (let! source := look (fun d => FindLinkAbove d config old) in
   let! destination := look (fun d => FindLinkAbove d config new) in
   if bool_decide (linkStop source = LinkStopUnreadable) || bool_decide (linkStop destination = LinkStopUnreadable)
   then eret (STATUS_ACCESS_DENIED, links)
   else
     let linksTo up := {| sourceInLinkTarget := bool_decide (linkStop source = LinkStopLink);
                          destinationInLinkTarget := bool_decide (linkStop destination = LinkStopLink);
                          lowerLinkToCopyUp := up |} in
     let sameLink := bool_decide (linkStop source = linkStop destination) &&
                     bool_decide (linkPath source = linkPath destination) in
     let withinLowerLink := sameLink && bool_decide (linkStop source = LinkStopLink) &&
                            bool_decide (linkSource source = Lower) in
     if sameLink && negb withinLowerLink then eret (STATUS_SUCCESS, linksTo None)
     else
       let! parent := ShownParentTarget new in
       eret match parent with
            | TargetNoDirectory => (STATUS_SUCCESS, linksTo None)
            | TargetFailed failure => (failure, linksTo None)
            | TargetDirectory =>
                if negb sameLink then (STATUS_NOT_SAME_DEVICE, linksTo None)
                else (STATUS_SUCCESS, linksTo (Some (linkPath source)))
            end)%eff.

Definition CopyUpRenameLink (links : RenameLinks) : eff EngineState NTSTATUS :=
  match lowerLinkToCopyUp links with
  | None => eret STATUS_SUCCESS
  | Some link => CopyUpDirectory config link
  end.

(** ** The move of a file *)

Definition MoveToUpper (oldRelativePath newRelativePath : wstring) (replace : FileRenameReplace)
    (copyUpMode : RenameCopyUp) : eff EngineState MovedFile :=
  (let old := NormalizePath oldRelativePath in
   let new := NormalizePath newRelativePath in
   let failed status := eret {| movedStatus := status; movedShell := false; movedFrom := [] |} in
   let! status := EnsureUpperParent config new in
   if negb (NT_SUCCESS status) then failed status
   else
     let! inUpper := look (fun d => ExistsInUpper d config old) in
     let! copied := (if (inUpper : bool) then eret {| copyStatus := STATUS_SUCCESS; stagedShell := false |}
                     else match copyUpMode with
                     | FullCopy =>
                         let! s := CopyUpFile config old in eret {| copyStatus := s; stagedShell := false |}
                     | ShellWhenPossible => CopyUpFileOrShell config old kShellAtAnySize
                     end) in
     if negb (NT_SUCCESS (copyStatus copied)) then failed (copyStatus copied)
     else
       let! from := look (fun d => GetStoredUpperPath d config oldRelativePath) in
       let to := GetUpperPathForNewEntry config newRelativePath in
       let! move := io (match replace with
                        | InPlace => MoveUpperEntryLeavingStuckRecords config from to ReplaceYes
                        | FileReplaceNo => MoveUpperEntry config from to ReplaceNo
                        | AfterAside => MoveUpperEntry config from to ReplaceYes
                        end) in
       do! WarnRecordLeftBehind move (if NT_SUCCESS (moveStatus move) then new else old) in
       eret {| movedStatus := moveStatus move; movedShell := stagedShell copied; movedFrom := from |})%eff.

(** ** The removal of an entry *)

(** [UpperEntryRemover::Remove]. *)
Definition Remove (normalized : wstring) : eff EngineState NTSTATUS :=
  (let! resolved := lookup_in (fun d => ResolvePath d config normalized) in
   let isDirectory := Found resolved && has_attr (attributes resolved) FILE_ATTRIBUTE_DIRECTORY in
   let! lowerHasIt := look (fun d => Found (ResolveLowerPath d config normalized)) in
   let upper := GetUpperPath config normalized in
   let invalidate := engine_cache (InvalidateWithAncestors normalized) in
   let! probe := look (fun d => ProbeUpperEntry d upper) in
   match probe with
   | Err status => eret status
   | Ok found =>
       let! removal := (match found with
         | None => eret STATUS_SUCCESS
         | Some kind =>
             let! opaque := (match kind with
                             | KFile => eret false
                             | _ => look (fun d => IsOpaque d config normalized)
                             end) in
             do! (if (opaque : bool) then on_markers (RemoveOpaque config normalized) else eret true) in
             io (RemoveUpperEntryOfKind config upper kind)
         end) in
       if negb (NT_SUCCESS removal) then do! invalidate in eret removal
       else
         let! whiteout := (if (lowerHasIt : bool)
                           then on_markers (CreateWhiteout config normalized
                                              (if isDirectory then WhiteoutDirectory else WhiteoutFile))
                           else eret STATUS_SUCCESS) in
         do! invalidate in
         eret (if NT_SUCCESS whiteout then STATUS_SUCCESS else whiteout)
   end)%eff.
End Rename.
