(* ===== verification/DirectoryRename.v ===== *)
(** * Renames of directories

    [DirectoryRename.cpp]: a directory of a lower is copied as the merged view
    shows it, marked opaque, and moved to its new name in one step; an upper
    directory is marked when needed and moved. *)
From stdpp Require Import sorting.
From S2P Require Export RenameAside.
Open Scope Z_scope.

(** A layer root and the record its entries' copies get. *)
Record MergedEntrySource := { entryRoot : wstring; entryRecord : CopiedEntryRecord }.

Record RenamedName := { renamedNorm : wstring; renamedUpperPath : wstring }.

(** The order of [std::wstring], and the entries of a merge in the order of its
    [std::map]. *)
Fixpoint wstring_le (a b : wstring) : bool :=
  match a, b with
  | [], _ => true
  | _ :: _, [] => false
  | x :: a', y :: b' => (x <? y) || ((x =? y) && wstring_le a' b')
  end.

Definition entries_in_order (m : gmap wstring MergedEntry) : list MergedEntry :=
  snd <$> merge_sort (fun a b => wstring_le (fst a) (fst b)) (map_to_list m).

Section Copies.
Context `{W : Win32} `{J : Json} `{H : !EntryHost}.

(** [keepFirst]. *)
Definition keep_first_error (first e : Z) : Z := if first =? ERROR_SUCCESS then e else first.

Definition og_info : Z := Z.lor OWNER_SECURITY_INFORMATION GROUP_SECURITY_INFORMATION.

(** A descriptor of the source with so much information, if it can be read. *)
Definition read_security (d : disk) (path : wstring) (info : Z) : option security :=
  let size := GetFileSecuritySize d path info in
  if 0 <? size then match GetFileSecurityW d path info size with Ok sd => Some sd | Err _ => None end
  else None.

Definition copy_owner_and_group (src dst : wstring) : eff disk Z :=
  (let! sd := eread (fun d => read_security d src og_info) in
   match sd with
   | None => eret ERROR_SUCCESS
   | Some descriptor =>
       let! set := SetFileSecurityW dst og_info descriptor in
       eret match set with
            | Ok _ => ERROR_SUCCESS
            | Err err => if err =? 0 then ERROR_ACCESS_DENIED else err
            end
   end)%eff.

Definition copy_dacl (src dst : wstring) : eff disk Z :=
  (let! sd := eread (fun d => read_security d src DACL_SECURITY_INFORMATION) in
   match sd with
   | None => eret ERROR_SUCCESS
   | Some descriptor =>
       match GetSecurityDescriptorDacl descriptor with
       | None => eret ERROR_SUCCESS
       | Some dacl => SetNamedSecurityInfoW dst
                        (Z.lor DACL_SECURITY_INFORMATION UNPROTECTED_DACL_SECURITY_INFORMATION) (Some dacl) None
       end
   end)%eff.

Definition copy_sacl (src dst : wstring) : eff disk Z :=
  (if negb IsSecurityPrivilegeHeld then eret ERROR_SUCCESS
   else
     let! sd := eread (fun d => read_security d src SACL_SECURITY_INFORMATION) in
     match sd with
     | None => eret ERROR_SUCCESS
     | Some descriptor =>
         match GetSecurityDescriptorSacl descriptor with
         | None => eret ERROR_SUCCESS
         | Some sacl => SetNamedSecurityInfoW dst
                          (Z.lor SACL_SECURITY_INFORMATION UNPROTECTED_SACL_SECURITY_INFORMATION) None (Some sacl)
         end
     end)%eff.

Definition CopySecurityKeepingInheritance (srcAbs dstAbs : wstring) : eff disk Z :=
  (let src := WithExtendedPrefix srcAbs in
   let dst := WithExtendedPrefix dstAbs in
   let! owner := copy_owner_and_group src dst in
   let! dacl := copy_dacl src dst in
   let! sacl := copy_sacl src dst in
   eret (keep_first_error (keep_first_error owner dacl) sacl))%eff.

Definition security_status (e : Z) : NTSTATUS :=
  if e =? ERROR_SUCCESS then STATUS_SUCCESS else NtStatusFromWin32 e.

Definition CopyFileMetadataAfterData (srcAbs : wstring) (srcAttrs : Z) (dstAbs : wstring) (policy : EntryCopyPolicy)
  : eff disk NTSTATUS :=
  (let! encrypted := ApplyEncryptedStateIfNeeded dstAbs srcAttrs in
   match encrypted with
   | Err e => eret (NtStatusFromWin32 e)
   | Ok _ =>
       step! CopyUserAlternateDataStreams srcAbs dstAbs in
       step! CopyExtendedAttributes srcAbs dstAbs in
       let! securityError := CopySecurityKeepingInheritance srcAbs dstAbs in
       if negb (securityError =? ERROR_SUCCESS) then eret (NtStatusFromWin32 securityError)
       else
         let! metadata := eread (fun d => CopiedEntryMetadata d srcAbs (record policy) (policyConfig policy)) in
         WriteCopyUpRecordOrRemoveEntry dstAbs metadata NewFile (policyConfig policy)
   end)%eff.

(** Both handles are closed when the data is in. *)
Definition copy_file_data (srcHandle dstHandle : handle) (srcAttrs : Z) (policy : EntryCopyPolicy) : eff disk NTSTATUS :=
  (let! sparse := (if HasFileAttribute srcAttrs FILE_ATTRIBUTE_SPARSE_FILE &&
                      HasSparseFiles (hostCapabilities (policyConfig policy))
                   then SetSparse dstHandle else eret (Ok tt)) in
   match sparse with
   | Err e => eret (SparseRefusalStatus e)
   | Ok _ =>
       do! SetCompressedIfSource dstHandle srcAttrs in
       CopyFileDataKeepingHoles srcHandle dstHandle
   end)%eff.

Definition CopyFilePreservingMetadata (srcAbs dstAbs : wstring) (policy : EntryCopyPolicy) : eff disk NTSTATUS :=
  (let! opened := eread (fun d => OpenSourceFileForCopy d srcAbs) in
   match opened with
   | Err e => eret (NtStatusFromWin32 e)
   | Ok srcHandle =>
       let! attrs := eread (fun d => GetFileAttributesW d (WithExtendedPrefix srcAbs)) in
       match attrs with
       | Err e => eret (NtStatusFromWin32 e)
       | Ok srcAttrs =>
           let! srcTimes := eread (fun d => match GetFileTime d srcHandle with Ok t => t | Err _ => no_times end) in
           let! created := CreateFileW (WithExtendedPrefix dstAbs) (Z.lor GENERIC_READ GENERIC_WRITE) 0 CREATE_ALWAYS
                             FILE_ATTRIBUTE_NORMAL in
           match created with
           | Err e => eret (NtStatusFromWin32 e)
           | Ok dstHandle =>
               let! dataStatus := copy_file_data srcHandle dstHandle srcAttrs policy in
               do! CloseHandle dstHandle in
               if negb (NT_SUCCESS dataStatus) then eret dataStatus
               else
                 step! CopyFileMetadataAfterData srcAbs srcAttrs dstAbs policy in
                 do! EntryAttributes.WriteEntryTimes dstAbs srcTimes (Some srcAttrs) in
                 eret STATUS_SUCCESS
           end
       end
   end)%eff.

Definition WriteDirectoryCopyUpRecord (srcAbs dstAbs : wstring) (policy : EntryCopyPolicy) : eff disk NTSTATUS :=
  (let! metadata := eread (fun d => CopiedEntryMetadata d srcAbs (record policy) (policyConfig policy)) in
   let! written := write_record dstAbs metadata (policyConfig policy) in
   if written then eret STATUS_SUCCESS
   else eread (fun d => StatusOfFailedCall d ERROR_WRITE_FAULT))%eff.

Definition ApplyDirectoryBasicInfoAndSecurity (srcAbs dstAbs : wstring) : eff disk NTSTATUS :=
  (let! source := eread (fun d => GetFileAttributesExW d (WithExtendedPrefix srcAbs)) in
   do! (match source with
        | Ok data => EntryAttributes.WriteEntryTimes dstAbs (EntryTimesOf data) (Some (ed_attributes data))
        | Err e => eret (Err e)
        end) in
   let! securityError := CopySecurityKeepingInheritance srcAbs dstAbs in
   eret (security_status securityError))%eff.

Definition FinishCopiedDirectory (viewSrcAbs recordSrcAbs dstAbs : wstring) (policy : EntryCopyPolicy)
    (markCopy : eff disk NTSTATUS) : eff disk NTSTATUS :=
  (step! CopyDirectoryOwnMetadata viewSrcAbs dstAbs in
   step! WriteDirectoryCopyUpRecord recordSrcAbs dstAbs policy in
   step! markCopy in
   ApplyDirectoryBasicInfoAndSecurity viewSrcAbs dstAbs)%eff.

Definition IsDirectoryAt (d : disk) (path : wstring) : bool :=
  match GetFileAttributesW d (WithExtendedPrefix path) with
  | Ok attributes => has_attr attributes FILE_ATTRIBUTE_DIRECTORY
  | Err _ => false
  end.

Definition SourceOf (config : LayerConfig) (entry : MergedEntry) : MergedEntrySource :=
  match entrySource entry with
  | Upper => {| entryRoot := upperPath config; entryRecord := CarriedFromSource |}
  | _ => {| entryRoot := default [] (lowerPaths config !! Z.to_nat (entryLowerIndex entry));
            entryRecord := NewFromSource |}
  end.

Definition CopyEntry (srcAbs : wstring) (srcAttrs : Z) (dstAbs : wstring) (policy : EntryCopyPolicy)
    (copyChildren : eff disk NTSTATUS) : eff disk NTSTATUS :=
  (let! clones := eread (fun d => ClonesReparsePoint d srcAbs srcAttrs) in
   match clones with
   | Err status => eret status
   | Ok true => CloneReparsePointWithCopyUpRecord {| sourcePath := srcAbs; sourceAttributes := srcAttrs |} dstAbs policy
   | Ok false =>
       if negb (has_attr srcAttrs FILE_ATTRIBUTE_DIRECTORY) then CopyFilePreservingMetadata srcAbs dstAbs policy
       else
         step! CreateDirectoryOrUseExisting dstAbs in
         step! copyChildren in
         FinishCopiedDirectory srcAbs srcAbs dstAbs policy (eret STATUS_SUCCESS)
   end)%eff.
End Copies.

Section DirectoryRename.
Context `{W : Win32} `{J : Json} `{E : CacheEnv} `{H : !EntryHost} `{T : !Threads} (config : LayerConfig).

Definition DestinationExistsInMerged (d : disk) (normalized : wstring) : bool :=
  let destInUpper := ExistsInUpper d config normalized in
  let destWhitedOut := HasWhiteout d normalized (upperPath config) in
  let destInLower := Found (ResolveLowerPath d config normalized) in
  destInUpper || (destInLower && negb destWhitedOut).

Definition PrepareRenameDestination (newCallerPath : wstring) (replace : ReplaceExisting) : eff EngineState NTSTATUS :=
  (let newNormalized := NormalizePath newCallerPath in
   let! exists_ := look (fun d => DestinationExistsInMerged d newNormalized) in
   match replace with
   | ReplaceNo => if (exists_ : bool) then eret STATUS_OBJECT_NAME_COLLISION else EnsureUpperParent config newNormalized
   | ReplaceYes => EnsureUpperParent config newNormalized
   end)%eff.

(** The copies of the children; [copyChildren] copies a merge into a
    directory. *)
Definition CopyMergedEntry (copyChildren : MergedDirectoryWithAncestry -> wstring -> eff disk NTSTATUS)
    (oldParent : MergedDirectoryWithAncestry) (entry : MergedEntry) (dstParentPath : wstring) : eff disk NTSTATUS :=
  (let name := cFileName (findData entry) in
   let source := SourceOf config entry in
   let dstAbs := dstParentPath ++ L "\" ++ name in
   CopyEntry (JoinDirPath (entryRoot source) (dirPath oldParent) ++ L "\" ++ name)
     (dwFileAttributes (findData entry)) dstAbs {| record := entryRecord source; policyConfig := config |}
     (let! child := eread (fun d => MergeChildDirectory d config oldParent name) in
      copyChildren child dstAbs))%eff.

(** Every level has a longer path. *)
Fixpoint CopyMergedChildren (fuel : nat) (oldDir : MergedDirectoryWithAncestry) (dstPath : wstring)
  : eff disk NTSTATUS :=
  match fuel with
  | O => eret NEVER_RETURNS
  | S fuel' =>
      if negb (NT_SUCCESS (mergedStatus (merged oldDir))) then eret (mergedStatus (merged oldDir))
      else visit_all (fun entry => CopyMergedEntry (CopyMergedChildren fuel') oldDir entry dstPath)
             (entries_in_order (entries (merged oldDir)))
  end.

Definition CopyMergedDirectory (lowerSource : ResolvedPath) (oldName : RenamedName) (stagedPath : wstring)
  : eff disk NTSTATUS :=
  (let! hasUpperShadow := eread (fun d => IsDirectoryAt d (renamedUpperPath oldName)) in
   let mergedViewSource := if (hasUpperShadow : bool) then renamedUpperPath oldName else absolutePath lowerSource in
   let! made := CreateDirectoryW (WithExtendedPrefix stagedPath) in
   match made with
   | Err e => eret (failed_status e ERROR_WRITE_FAULT)
   | Ok _ =>
       let! oldDir := eread (fun d => MergeDirectoryWithAncestry d config (renamedNorm oldName)) in
       step! CopyMergedChildren (walk_fuel (renamedNorm oldName)) oldDir stagedPath in
       FinishCopiedDirectory mergedViewSource (absolutePath lowerSource) stagedPath
         {| record := NewFromSource; policyConfig := config |} (SetOpaqueAtPath config stagedPath)
   end)%eff.

(** What the rename does with the old upper entry once the copy is in place. *)
Definition remove_old_upper (old new : wstring) (oldUpper newUpper : wstring) : eff EngineState RenameStepResult :=
  (let! (aside, asidePath) := MoveUpperEntryAside config oldUpper (GenerateStagingPath config) in
   do! WarnRecordLeftBehind aside old in
   let! occupied :=
     (if negb (NT_SUCCESS (moveStatus aside)) then
        let! removal := io (RemoveUpperEntry config newUpper) in
        do! (if NT_SUCCESS removal then eret tt
             else warn (HresultFromNtStatus removal) new
                    (L "The undo of a failed rename could not remove the copy at the new name")) in
        eret (negb (NT_SUCCESS removal))
      else
        do! (match asidePath with
             | Some p => io (RemoveStagedEntry config p)
             | None => eret None
             end) in
        eret false) in
   do! engine_cache (InvalidateWithAncestors old) in
   do! engine_cache (InvalidateWithAncestors new) in
   eret {| stepStatus := moveStatus aside; newNameOccupied := occupied |})%eff.

Definition RenameLowerDirectory (oldPath newPath : wstring) (sourceKind : EntryKind) (replace : ReplaceExisting)
  : eff EngineState RenameStepResult :=
  (let old := NormalizePath oldPath in
   let new := NormalizePath newPath in
   let newUpper := GetUpperPathForNewEntry config newPath in
   let failed status := eret {| stepStatus := status; newNameOccupied := false |} in
   let! source := look (fun d => ResolveLowerPath d config old) in
   if negb (Found source) then failed STATUS_OBJECT_NAME_NOT_FOUND
   else
     let! destinationStatus := PrepareRenameDestination newPath replace in
     if negb (NT_SUCCESS destinationStatus) then failed destinationStatus
     else
       let oldUpper := GetUpperPath config old in
       let! staging := GenerateStagingPath config in
       let! status := io (match sourceKind with
         | KLink => CloneReparsePointThroughWorkDir config
                      {| sourcePath := absolutePath source; sourceAttributes := attributes source |}
                      staging newUpper {| record := NewFromSource; policyConfig := config |}
         | _ => BuildInContainerAndMove config staging newUpper
                  (CopyMergedDirectory source {| renamedNorm := old; renamedUpperPath := oldUpper |})
         end) in
       if negb (NT_SUCCESS status) then failed status
       else remove_old_upper old new oldUpper newUpper)%eff.

Definition RenameUpperDirectory (oldPath newPath : wstring) (sourceKind : EntryKind) (replace : ReplaceExisting)
  : eff EngineState NTSTATUS :=
  (let old := NormalizePath oldPath in
   let new := NormalizePath newPath in
   let newUpper := GetUpperPathForNewEntry config newPath in
   step! PrepareRenameDestination newPath replace in
   let oldUpper := GetUpperPath config old in
   let! marksSource := look (fun d =>
     match sourceKind with
     | KLink => false
     | _ => negb (IsOpaque d config old) && Found (ResolveLowerPath d config new)
     end) in
   let! markStatus := (if (marksSource : bool) then io (SetOpaqueAtPath config oldUpper) else eret STATUS_SUCCESS) in
   if negb (NT_SUCCESS markStatus) then eret markStatus
   else
     let! move := io (MoveUpperEntry config oldUpper newUpper replace) in
     do! WarnRecordLeftBehind move (if NT_SUCCESS (moveStatus move) then new else old) in
     if negb (NT_SUCCESS (moveStatus move)) then
       do! (if (marksSource : bool) then engine_cache (InvalidateWithAncestors old) else eret tt) in
       eret (moveStatus move)
     else
       do! engine_cache (InvalidateWithAncestors old) in
       do! engine_cache (InvalidateWithAncestors new) in
       eret STATUS_SUCCESS)%eff.
End DirectoryRename.
