(* ===== verification/EngineFacts.v ===== *)
(** * Copy-up and the layout of the work directory: the theorems

    The overlay of [Fixture] with a work directory, run by one thread: copies
    to the upper, renames and removals evaluate on it.  Two components of the
    engine have theorems that rest on such concrete trees: the mutual recursion
    of [impl/CopyUp.cpp], and the layout rule that [impl/WorkDirectory.cpp]
    imposes. *)

From S2P Require Export CopyUp Reservations WorkDirectory PathFacts DirectoryRename MemEntry Fixture.
Open Scope Z_scope.

(** ** The engine on the concrete volume *)

(** No other thread moves while this one waits. *)
#[export] Instance one_thread : Threads (W := mem_win32) := {| wait_turn := fun _ => eret tt |}.

Module Engine.
Definition volume : MemWin32.volume :=
  Fixture.dir "C:\w\work" :: Fixture.dir "C:\w" :: Fixture.volume.

Definition start : EngineState (W := mem_win32) := {|
  engineDisk := volume; lookups := Fixture.start; events := []; workCounter := 0; copyUpCount := 0;
  inFlightCopyUps := ∅; fillFailure := None
|}.

Definition run {A} (m : eff (EngineState (W := mem_win32)) A) : EngineState (W := mem_win32) * A := m start.

(** The status of a run, and the attributes and the data of a path after it. *)
Definition entry_after (v : MemWin32.volume) (p : string) : option (Z * list Z) :=
  (fun e => (MemWin32.me_attributes e, MemWin32.me_data e)) <$> MemWin32.find_entry v (MemWin32.key (kExtended ++ L p)).
End Engine.
#[local] Existing Instance Fixture.no_json.
Import Engine.

(** A file goes up with its data and its record, and leaves nothing in the
    staging area. *)
Example file_copied_up :
  (fun r => (snd r, entry_after (engineDisk (fst r)) "C:\u\d\g",
             bool_decide (is_Some (entry_after (engineDisk (fst r)) "C:\u\d\g:overlay")),
             length (engineDisk (fst r)), copyUpCount (fst r), inFlightCopyUps (fst r)))
    (run (CopyUpFile Fixture.config (L "d\g"))) =
  (STATUS_SUCCESS, Some (FILE_ATTRIBUTE_ARCHIVE, [1]), true, (length volume + 2)%nat, 1, ∅).
Proof. vm_compute. reflexivity. Qed.

(** The copy-up of a path that no layer shows, and of one that the upper has. *)
Example nothing_to_copy_up :
  snd (run (CopyUpFile Fixture.config (L "d\none"))) = STATUS_OBJECT_NAME_NOT_FOUND /\
  (fun r => (snd r, length (engineDisk (fst r)), copyUpCount (fst r))) (run (CopyUpFile Fixture.config (L "d\f.txt"))) =
    (STATUS_SUCCESS, length volume, 0).
Proof. split; vm_compute; reflexivity. Qed.

(** The copy of a missing parent comes first. *)
Example parent_copied_up :
  (fun r => (snd r, entry_after (engineDisk (fst r)) "C:\u\o", entry_after (engineDisk (fst r)) "C:\u\o\x",
             copyUpCount (fst r)))
    (run (CopyUpFile Fixture.config (L "o\x"))) =
  (STATUS_SUCCESS, Some (FILE_ATTRIBUTE_DIRECTORY, []), Some (FILE_ATTRIBUTE_ARCHIVE, [1]), 2).
Proof. vm_compute. reflexivity. Qed.

(** A shell has the size and no data; its fill copies the data. *)
Example shell_then_fill :
  (fun r => (entry_after (engineDisk (fst r)) "C:\u\d\g", copyStatus (snd r), stagedShell (snd r)))
    (run (CopyUpMetadataOnly Fixture.config (L "d\g"))) =
  (Some (Z.lor FILE_ATTRIBUTE_ARCHIVE FILE_ATTRIBUTE_SPARSE_FILE, [0]), STATUS_SUCCESS, true).
Proof. vm_compute. reflexivity. Qed.

(** A removal of a lower entry leaves a whiteout. *)
Example removed :
  (fun r => (snd r, entry_after (engineDisk (fst r)) "C:\u\d\.wh.g"))
    (run (Remove Fixture.config (L "d\g"))) =
  (STATUS_SUCCESS, Some (Z.lor FILE_ATTRIBUTE_HIDDEN FILE_ATTRIBUTE_SYSTEM, [])).
Proof. vm_compute. reflexivity. Qed.

(** A rename of a lower directory builds the merged tree at the new name: the
    names that the view shows, made opaque, and nothing at the old name. *)
Example lower_directory_renamed :
  (fun r => (snd r, (fun p => bool_decide (is_Some (entry_after (engineDisk (fst r)) p))) <$>
               ["C:\u\e"; "C:\u\e\.wh..wh..opq"; "C:\u\e\g"; "C:\u\e\F.txt"; "C:\u\e\gone"; "C:\u\d"]%string))
    (run (RenameLowerDirectory Fixture.config (L "d") (L "e") KDirectory ReplaceNo)) =
  ({| stepStatus := STATUS_SUCCESS; newNameOccupied := false |}, [true; true; true; true; false; false]).
Proof. vm_compute. reflexivity. Qed.

(** ** The recursion of copy-ups

    [CopyUpDirectory] and [EnsureUpperParent] call each other; the fuel of the
    model is enough, and both satisfy the equations of the source. *)

(** Equal runs in equal states. *)
Lemma ebind_ext {S A B} (m1 m2 : eff S A) (k1 k2 : A -> eff S B) s :
  m1 s = m2 s -> (forall s a, k1 a s = k2 a s) -> ebind m1 k1 s = ebind m2 k2 s.
Proof. intros Hm Hk. unfold ebind. rewrite Hm. by destruct (m2 s) as [s' a]. Qed.

Section Recursion.
Context `{W : Win32} `{J : Json} `{E : CacheEnv} `{H : !EntryHost} `{T : !Threads}.
Context (config : LayerConfig).

(** The body of [CopyUpDirectory] uses the parent's copy-up only on its own
    normalized path, and the body of [EnsureUpperParent] the directory's only
    on the parent. *)
Lemma copy_up_directory_ext ensure1 ensure2 path s :
  (forall s, ensure1 (NormalizePath path) s = ensure2 (NormalizePath path) s) ->
  copy_up_directory config ensure1 path s = copy_up_directory config ensure2 path s.
Proof.
  intros He. unfold copy_up_directory, PathReservation.
  apply ebind_ext; [done|]. intros s1 _. apply ebind_ext; [done|]. intros s2 _. apply ebind_ext; [|done].
  apply ebind_ext; [done|]. intros s3 [|]; [done|]. apply ebind_ext; [|done].
  apply ebind_ext; [done|]. intros s4 source. destruct (negb (Found source)); [done|]. by apply ebind_ext.
Qed.

Lemma ensure_upper_parent_ext copy1 copy2 path s :
  (ParentOfNormalizedPath path <> [] ->
   forall s, copy1 (ParentOfNormalizedPath path) s = copy2 (ParentOfNormalizedPath path) s) ->
  ensure_upper_parent config copy1 path s = ensure_upper_parent config copy2 path s.
Proof.
  intros He. unfold ensure_upper_parent. case_bool_decide as Hp; [done|].
  apply ebind_ext; [done|]. intros s1 attrs. apply ebind_ext; [done|]. intros s2 shown.
  apply ebind_ext; [done|]. intros s3 [| |]; try done.
  destruct (negb (attrs =? INVALID_FILE_ATTRIBUTES)); [done|]. case_bool_decide; [by apply He|done].
Qed.

Lemma parent_of_normalized_shorter path :
  ParentOfNormalizedPath (NormalizePath path) <> [] ->
  (length (ParentOfNormalizedPath (NormalizePath path)) < length path)%nat.
Proof.
  intros Hp. pose proof (normalize_length path) as Hn.
  unfold ParentOfNormalizedPath in *. destruct (wrfind ch_bsl (NormalizePath path)) as [i|] eqn:Ei; [|done].
  apply wrfind_Some in Ei as [Ei _]. apply lookup_lt_Some in Ei. rewrite length_take. lia.
Qed.

(** With fuel above the length of the path, more fuel changes nothing. *)
Lemma copy_up_directories_enough f1 f2 path s :
  (length path < f1)%nat -> (length path < f2)%nat ->
  copy_up_directories config f1 path s = copy_up_directories config f2 path s.
Proof.
  revert f2 path s. induction f1 as [|f1 IH]; intros [|f2] path s H1 H2; try lia.
  cbn [copy_up_directories]. apply copy_up_directory_ext. intros s1. apply ensure_upper_parent_ext.
  intros Hp s2. pose proof (parent_of_normalized_shorter path Hp). apply IH; lia.
Qed.

(** C34: copy-ups of directories end, and they are the recursion of the
    source: [CopyUpDirectory] is its body over [EnsureUpperParent], which is
    its body over [CopyUpDirectory], in every state of the engine.  The parent
    of a path is shorter, so no bound on the depth is ever reached: any fuel
    above the length of the path gives the same result. *)
Theorem CopyUpDirectory_terminates path s :
  CopyUpDirectory config path s = copy_up_directory config (EnsureUpperParent config) path s /\
  EnsureUpperParent config path s = ensure_upper_parent config (CopyUpDirectory config) path s /\
  forall fuel, (length path < fuel)%nat -> copy_up_directories config fuel path s = CopyUpDirectory config path s.
Proof.
  split; [|split; [done|]].
  - unfold CopyUpDirectory at 1. cbn [copy_up_directories]. apply copy_up_directory_ext. intros s1.
    apply ensure_upper_parent_ext. intros Hp s2. pose proof (parent_of_normalized_shorter path Hp).
    apply copy_up_directories_enough; lia.
  - intros fuel Hf. apply copy_up_directories_enough; lia.
Qed.
End Recursion.

(** The copy-up of the lower directory [o] on the concrete volume, with any
    fuel above the length of the path. *)
Lemma CopyUpDirectory_terminates_witness :
  copy_up_directories (J := Fixture.no_json) Fixture.config 100 (L "o") Engine.start =
    CopyUpDirectory (J := Fixture.no_json) Fixture.config (L "o") Engine.start /\
  snd (CopyUpDirectory (J := Fixture.no_json) Fixture.config (L "o") Engine.start) = STATUS_SUCCESS.
Proof.
  split; [|vm_compute; reflexivity].
  apply (proj2 (proj2 (CopyUpDirectory_terminates Fixture.config (L "o") Engine.start))).
  apply (bool_decide_unpack _). vm_compute. exact I.
Defined.

(** ** The layout rule keeps the trees apart

    What an accepted layout says of the work directory, the upper and the
    lowers. *)

(** A path in the tree of a directory, and two directories with no path in
    both trees. *)
Definition in_tree (path dir : wstring) : Prop := path = dir \/ IsInsideDirectory path dir = true.
Definition apart_trees (a b : wstring) : Prop := forall path, in_tree path a -> in_tree path b -> False.

(** A path of two trees puts one root inside the other, or makes them one. *)
Lemma common_path_nests path a b :
  in_tree path a -> in_tree path b -> (length a <= length b)%nat -> in_tree b a.
Proof.
  unfold in_tree. rewrite !IsInsideDirectory_spec. intros [->|[r ->]] [E|[s E]] Hlen.
  - by left.
  - apply (f_equal length) in E. rewrite length_app in E. cbn in E. lia.
  - right. by exists r.
  - assert (Hp : a `prefix_of` b).
    { destruct (prefix_weak_total a b (a ++ ch_bsl :: r)) as [Hp|Hp]; [by apply prefix_app_r| |done|].
      - rewrite E. by apply prefix_app_r.
      - by rewrite (prefix_length_eq _ _ Hp). }
    destruct Hp as [t ->]. rewrite <- app_assoc in E. apply app_inv_head in E.
    destruct t as [|c t]; [left; by rewrite app_nil_r|]. injection E as <- _. right. by exists t.
Qed.

Lemma AreSameOrNested_apart a b : AreSameOrNested a b = false <-> apart_trees a b.
Proof.
  unfold AreSameOrNested. rewrite !orb_false_iff, bool_decide_eq_false. split.
  - intros [[Hne Hab] Hba] path Ha Hb. destruct (le_ge_dec (length a) (length b)) as [Hl|Hl].
    + destruct (common_path_nests path a b Ha Hb Hl) as [->|Hi]; [done|congruence].
    + destruct (common_path_nests path b a Hb Ha ltac:(lia)) as [->|Hi]; [done|congruence].
  - intros Hap. split_and!.
    + intros ->. apply (Hap b); by left.
    + apply not_true_is_false. intros Hi. apply (Hap a); [by left|by right].
    + apply not_true_is_false. intros Hi. apply (Hap b); [by right|by left].
Qed.

Lemma find_none_iff {A} (f : A -> bool) l : find f l = None <-> forall x, x ∈ l -> f x = false.
Proof.
  split; [intros Hn x Hx; apply (List.find_none f l Hn), list_elem_of_In; done|].
  intros Hall. destruct (find f l) as [x|] eqn:E; [|done]. apply find_some in E as [Hx E].
  apply list_elem_of_In in Hx. by rewrite (Hall x Hx) in E.
Qed.

(** C13: the layout check accepts exactly the layouts in which no path is in
    the tree of the work directory and in that of a lower, and none is in the
    trees of the work directory and of the upper, unless the work directory
    is the reserved directory of the upper.  So the reset of the staging
    area, which deletes a tree in the work directory, touches no lower and no
    entry of the view.  Each pair is compared by final paths when both are
    known.  A refusal is [E_INVALIDARG]. *)
Theorem CheckLayoutWith_accepts config read :
  (fst (CheckLayoutWith config read) = S_OK <->
     (let (work, upper) := PathsToCompare (read (workDirPath config)) (read (upperPath config)) in
      work = JoinDirPath upper kSidecarDirName \/ apart_trees work upper) /\
     forall lower, lower ∈ lowerPaths config ->
       let (work, low) := PathsToCompare (read (workDirPath config)) (read lower) in apart_trees work low) /\
  (fst (CheckLayoutWith config read) = S_OK \/ fst (CheckLayoutWith config read) = E_INVALIDARG).
Proof.
  unfold CheckLayoutWith.
  assert (Hu : OverlapsUpper (read (workDirPath config)) (read (upperPath config)) = false <->
    let (work, upper) := PathsToCompare (read (workDirPath config)) (read (upperPath config)) in
    work = JoinDirPath upper kSidecarDirName \/ apart_trees work upper).
  { unfold OverlapsUpper. destruct (PathsToCompare _ _) as [work upper].
    rewrite andb_false_iff, negb_false_iff, bool_decide_eq_true, AreSameOrNested_apart. done. }
  assert (Hl : find (fun lower => OverlapsLower (read (workDirPath config)) (read lower)) (lowerPaths config) = None <->
    forall lower, lower ∈ lowerPaths config ->
       let (work, low) := PathsToCompare (read (workDirPath config)) (read lower) in apart_trees work low).
  { rewrite find_none_iff. unfold OverlapsLower. split; intros Hall lower Hin; specialize (Hall lower Hin);
      destruct (PathsToCompare (read (workDirPath config)) (read lower)) as [work low]; by apply AreSameOrNested_apart. }
  rewrite <- Hu, <- Hl. destruct (OverlapsUpper _ _); cbn [fst].
  - split; [split; [done|by intros [? _]]|by right].
  - destruct (find _ _); cbn [fst]; (split; [split; try done; by intros [_ ?]|by (left + right)]).
Qed.

(** The layout of the fixture is accepted, and the same layout with the work
    directory in a lower is not. *)
Definition nested_config : LayerConfig := {|
  upperPath := L "C:\u"; lowerPaths := [L "C:\a"]; workDirPath := L "c:/A/work\"; hostCapabilities := 0 |}.

Lemma CheckLayoutWith_accepts_witness :
  fst (CheckLayout (W := mem_win32) Fixture.config) = S_OK /\
  apart_trees (L "c:\w") (L "c:\b") /\
  fst (CheckLayout (W := mem_win32) nested_config) = E_INVALIDARG.
Proof.
  assert (Ha : fst (CheckLayout (W := mem_win32) Fixture.config) = S_OK) by (vm_compute; reflexivity).
  split; [exact Ha|]. split; [|vm_compute; reflexivity].
  destruct (proj1 (proj1 (CheckLayoutWith_accepts Fixture.config (WrittenPath (W := mem_win32)))) Ha) as [_ Hl].
  exact (Hl (L "C:\b") ltac:(right; left)).
Defined.
