(* ===== verification/MountHost.v ===== *)
(** * What the engine operations need of the host

    The calls that [LayerMount.cpp] and [SecurityPolicy.cpp] make beyond those
    of the copies: information of a handle, granted access, flushes, streams
    by path, security descriptors of callers, volumes.  As in [EntryHost], an
    open of an existing entry only reads the disk, and a close is a call of
    its own.  A size or an offset that the source casts between signed and
    unsigned is written as its unsigned value. *)
From S2P Require Export RenameAside DirectoryRename ProcessTracker.
Open Scope Z_scope.

(** ** Access rights and options *)

Definition FILE_READ_DATA : Z := 0x1.
Definition FILE_WRITE_DATA : Z := 0x2.
Definition FILE_APPEND_DATA : Z := 0x4.
Definition FILE_EXECUTE : Z := 0x20.
Definition READ_CONTROL : Z := 0x20000.
Definition WRITE_OWNER : Z := 0x80000.
Definition ACCESS_SYSTEM_SECURITY : Z := 0x1000000.
Definition MAXIMUM_ALLOWED : Z := 0x2000000.
Definition GENERIC_ALL : Z := 0x10000000.
Definition GENERIC_EXECUTE : Z := 0x20000000.
Definition FILE_GENERIC_READ : Z := 0x120089.
Definition FILE_GENERIC_WRITE : Z := 0x120116.
Definition FILE_GENERIC_EXECUTE : Z := 0x1200A0.
Definition FILE_ALL_ACCESS : Z := 0x1F01FF.

Definition FILE_DIRECTORY_FILE : Z := 0x1.
Definition FILE_OPEN_REPARSE_POINT : Z := 0x200000.

Definition ERROR_INSUFFICIENT_BUFFER : Z := 122.
Definition ERROR_NOT_A_REPARSE_POINT : Z := 4390.
Definition MAXIMUM_REPARSE_DATA_BUFFER_SIZE : Z := 16384.
Definition E_ACCESSDENIED : Z := 0x80070005.
Definition UINT64_MAX : Z := 2 ^ 64 - 1.

(** [BY_HANDLE_FILE_INFORMATION]. *)
Record handle_info := HandleInfo {
  hi_attributes : Z;
  hi_times : entry_times;
  hi_size_high : Z;
  hi_size_low : Z;
  hi_index_high : Z;
  hi_index_low : Z
}.

(** Which parts a security descriptor carries: a non-null owner, a non-null
    group, a DACL, a SACL. *)
Record carried_parts := CarriedParts {
  carries_owner : bool; carries_group : bool; carries_dacl : bool; carries_sacl : bool }.

Class MountHost `{W : Win32} `{H : !EntryHost} := {
  GetFileInformationByHandle : disk -> handle -> w32 handle_info;
  (** [FileStandardInfo]: [AllocationSize]. *)
  GetStandardAllocation : disk -> handle -> w32 Z;
  (** [NtQueryObject] with [ObjectBasicInformation]: the granted access;
      [None] when ntdll does not export it. *)
  NtQueryObject : option (disk -> handle -> nt Z);
  FlushFileBuffers : handle -> eff disk (w32 unit);
  (** Total and free bytes. *)
  GetDiskFreeSpaceExW : disk -> wstring -> w32 (Z * Z);
  (** [FindFirstStreamW], which reads the list, then [FindNextStreamW] until
      it returns false: names and sizes, and the last error of that call. *)
  FindStreams : disk -> wstring -> w32 (list (wstring * Z) * Z);
  (** [SetFileTime] of the times that are given. *)
  SetFileTimes : handle -> option FILETIME -> option FILETIME -> option FILETIME -> eff disk (w32 unit);
  SetFileAttributesW : wstring -> Z -> eff disk (w32 unit);
  (** [FSCTL_DELETE_REPARSE_POINT]. *)
  DeleteReparse : handle -> list Z -> eff disk (w32 unit);
  security_parts : security -> carried_parts;
  (** [SetKernelObjectSecurity] of some parts. *)
  SetObjectSecurity : handle -> Z -> security -> eff disk (w32 unit);
  (** [GetFileSecurityW] into a buffer of so many bytes, none for a null one:
      the bytes needed, and the bytes written. *)
  GetFileSecurityBytes : disk -> wstring -> Z -> Z -> Z * w32 (list Z);
  (** [ConvertStringSecurityDescriptorToSecurityDescriptorW]. *)
  ConvertSddl : wstring -> w32 (list Z);
  (** The two serial numbers of a handle's volume, [FileIdInfo] the second. *)
  GetVolumeSerial : disk -> handle -> w32 Z;
  GetWideSerial : disk -> handle -> w32 Z;
  (** [GetVolumePathNameW], then [GetVolumeInformationW]: the name of the file
      system, [None] when a call fails. *)
  GetFileSystemName : disk -> wstring -> option wstring;
  (** The steady clock and the system clock of the process tracker. *)
  steady_now : disk -> Z;
  system_now : disk -> Z
}.

(** ** The security policy *)
Section SecurityPolicy.
Context `{W : Win32} `{H : !EntryHost} `{M : !MountHost} (config : LayerConfig).

Definition ReadsUpperSecurity : bool := HasNtfsAcls (hostCapabilities config).
Definition AppliesSecurityWrites : bool := HasNtfsAcls (hostCapabilities config).

Definition DescriptorForCreate (requested : option security) : option security :=
  if HasNtfsAcls (hostCapabilities config) then requested else None.

(** The status, [*requiredBytes] where it is set, and the bytes copied. *)
Definition SyntheticSecurity (effective : Z) (isProbe : bool) (sdBytes : Z)
  : NTSTATUS * option Z * list Z :=
  let part bit text := if has_attr effective bit then L text else [] in
  let worldSddl := part OWNER_SECURITY_INFORMATION "O:WD" ++ part GROUP_SECURITY_INFORMATION "G:WD" ++
                   part DACL_SECURITY_INFORMATION "D:(A;;FR;;;WD)" in
  if bool_decide (worldSddl = []) then (STATUS_SUCCESS, Some 0, [])
  else match ConvertSddl worldSddl with
  | Err e => (NtStatusFromWin32 e, None, [])
  | Ok worldSd =>
      let worldSize := Z.of_nat (length worldSd) in
      if isProbe then (STATUS_SUCCESS, Some worldSize, [])
      else if sdBytes <? worldSize then (STATUS_BUFFER_OVERFLOW, Some worldSize, [])
      else (STATUS_SUCCESS, Some worldSize, worldSd)
  end.
End SecurityPolicy.
