(* ===== verification/Mount.v ===== *)
(** * The mounted overlay and its open files

    The state of a [LayerMount], the [FileContext] of an open file, and what
    the operations of [LayerMount.cpp] share: access rights, file
    information, the handle of a context, the checks of the process tracker,
    and the walk of a caller's path.

    A [FileContext*] is never null here, nor an out pointer: the C interface
    passes its own locals, and the entry tests for null are left out.  An
    operation on a context runs in the state of the mount and the context. *)
From S2P Require Export MountHost.
Open Scope Z_scope.

(** The counters that the operations update; [EngineState] has the count of
    copy-ups, and no code updates the others. *)
Record LayerMountStats := {
  readCount : Z;
  writeCount : Z;
  activeHandles : Z;
  bytesRead : Z;
  bytesWritten : Z
}.

(** [FileContext], less the fields that no code reads; [ctx->handle] is
    [None] for [INVALID_HANDLE_VALUE]. *)
Record FileContext `{W : Win32} := Ctx {
  ctx_handle : option handle;
  ctx_actualPath : wstring;
  ctx_relativePath : wstring;
  ctx_isDirectory : bool;
  ctx_writable : bool;
  ctx_isMetacopyOnly : bool;
  ctx_entryIsReparsePoint : bool;
  ctx_ownerPid : Z;
  ctx_grantedAccess : Z;
  ctx_createOptions : Z;
  ctx_handleNeedsReopen : bool;
  ctx_streamSuffix : wstring
}.
Arguments Ctx {W} _ _ _ _ _ _ _ _ _ _ _ _.

Record InternalFileInfo := {
  FileAttributes : Z;
  ReparseTag : Z;
  AllocationSize : Z;
  FileSize : Z;
  CreationTime : Z;
  LastAccessTime : Z;
  LastWriteTime : Z;
  ChangeTime : Z;
  IndexNumber : Z;
  HardLinks : Z;
  EaSize : Z
}.

Record ResolvedSizes := { fileSize : Z; allocationSize : Z }.

(** The part of a [LayerMount] that the operations change, and
    [upperFinalPath_], which the constructor reads. *)
Record MountState `{W : Win32} := {
  engine : EngineState;
  tracker : option ProcessTracker;
  stats : LayerMountStats;
  upperFinalPath : wstring
}.

(** An operation on a context. *)
Abbreviation ctx_eff A := (eff (MountState * FileContext) A).

Definition ERROR_INVALID_HANDLE : Z := 6.
Definition kShellOnlyAboveBytes : Z := 1024 * 1024.
Definition kAllocationGranularityBytes : Z := 4096.

(** ** Sizes and times *)

(** The 64-bit sum wraps. *)
Definition AllocationSizeFor (size : Z) : Z :=
  Z.ldiff ((size + kAllocationGranularityBytes - 1) mod 2 ^ 64) (kAllocationGranularityBytes - 1).

Definition AllocationSizeForReal (size realAllocation : Z) : Z :=
  let rounded := AllocationSizeFor size in
  if rounded <? realAllocation then realAllocation else rounded.

Definition ComposeUInt64 (high low : Z) : Z := Z.lor (Z.shiftl high 32) low.

Definition FileTimeToUInt64 (ft : FILETIME) : Z := FileTimeToUint64 ft.

(** ** Access rights *)

Definition MapFileGenericRights (access : Z) : Z :=
  let generic := Z.lor GENERIC_READ (Z.lor GENERIC_WRITE (Z.lor GENERIC_EXECUTE GENERIC_ALL)) in
  let add bit rights mapped := if has_attr access bit then Z.lor mapped rights else mapped in
  add GENERIC_ALL FILE_ALL_ACCESS
    (add GENERIC_EXECUTE FILE_GENERIC_EXECUTE
      (add GENERIC_WRITE FILE_GENERIC_WRITE
        (add GENERIC_READ FILE_GENERIC_READ (Z.ldiff access generic)))).

Definition HasWriteAccess (access : Z) : bool :=
  has_attr (MapFileGenericRights access)
    (Z.lor FILE_WRITE_DATA (Z.lor FILE_APPEND_DATA (Z.lor FILE_WRITE_ATTRIBUTES
      (Z.lor FILE_WRITE_EA (Z.lor WRITE_DAC WRITE_OWNER))))).

Definition HasFileDataAccess (access : Z) : bool :=
  has_attr (MapFileGenericRights access)
    (Z.lor FILE_READ_DATA (Z.lor FILE_WRITE_DATA (Z.lor FILE_APPEND_DATA FILE_EXECUTE))).

Definition ComputePhysicalHandleAccess (grantedAccess : Z) : Z :=
  let access := MapFileGenericRights grantedAccess in
  if has_attr access (Z.lor FILE_WRITE_DATA FILE_APPEND_DATA) then Z.lor access FILE_READ_DATA else access.

Definition FinalLinkFor (createOptions : Z) : FinalLink :=
  if has_attr createOptions FILE_OPEN_REPARSE_POINT then Keep else Follow.

(** ** A context *)
Section ContextFields.
Context `{W : Win32}.

Definition new_context : FileContext := Ctx None [] [] false false false false 0 0 0 false [].

Definition set_handle (h : option handle) (c : FileContext) : FileContext :=
  Ctx h (ctx_actualPath c) (ctx_relativePath c) (ctx_isDirectory c) (ctx_writable c) (ctx_isMetacopyOnly c)
    (ctx_entryIsReparsePoint c) (ctx_ownerPid c) (ctx_grantedAccess c) (ctx_createOptions c)
    (ctx_handleNeedsReopen c) (ctx_streamSuffix c).

(** [ctx->actualPath] and [ctx->writable] change together where a context
    moves to the upper. *)
Definition set_path (path : wstring) (writable : bool) (c : FileContext) : FileContext :=
  Ctx (ctx_handle c) path (ctx_relativePath c) (ctx_isDirectory c) writable (ctx_isMetacopyOnly c)
    (ctx_entryIsReparsePoint c) (ctx_ownerPid c) (ctx_grantedAccess c) (ctx_createOptions c)
    (ctx_handleNeedsReopen c) (ctx_streamSuffix c).

Definition set_names (relativePath suffix : wstring) (c : FileContext) : FileContext :=
  Ctx (ctx_handle c) (ctx_actualPath c) relativePath (ctx_isDirectory c) (ctx_writable c) (ctx_isMetacopyOnly c)
    (ctx_entryIsReparsePoint c) (ctx_ownerPid c) (ctx_grantedAccess c) (ctx_createOptions c)
    (ctx_handleNeedsReopen c) suffix.

Definition set_metacopy (flag : bool) (c : FileContext) : FileContext :=
  Ctx (ctx_handle c) (ctx_actualPath c) (ctx_relativePath c) (ctx_isDirectory c) (ctx_writable c) flag
    (ctx_entryIsReparsePoint c) (ctx_ownerPid c) (ctx_grantedAccess c) (ctx_createOptions c)
    (ctx_handleNeedsReopen c) (ctx_streamSuffix c).

Definition set_granted (access : Z) (c : FileContext) : FileContext :=
  Ctx (ctx_handle c) (ctx_actualPath c) (ctx_relativePath c) (ctx_isDirectory c) (ctx_writable c)
    (ctx_isMetacopyOnly c) (ctx_entryIsReparsePoint c) (ctx_ownerPid c) access (ctx_createOptions c)
    (ctx_handleNeedsReopen c) (ctx_streamSuffix c).

Definition set_needs_reopen (flag : bool) (c : FileContext) : FileContext :=
  Ctx (ctx_handle c) (ctx_actualPath c) (ctx_relativePath c) (ctx_isDirectory c) (ctx_writable c)
    (ctx_isMetacopyOnly c) (ctx_entryIsReparsePoint c) (ctx_ownerPid c) (ctx_grantedAccess c)
    (ctx_createOptions c) flag (ctx_streamSuffix c).

Definition ComputeHandleReopenAccess (c : FileContext) : Z :=
  let reopenAccess := Z.ldiff (ComputePhysicalHandleAccess (ctx_grantedAccess c)) DELETE in
  if reopenAccess =? 0 then FILE_READ_ATTRIBUTES else reopenAccess.

Definition ComputeHandleReopenFlags (c : FileContext) : Z :=
  let flags := if ctx_isDirectory c then FILE_FLAG_BACKUP_SEMANTICS else 0 in
  if has_attr (ctx_createOptions c) FILE_OPEN_REPARSE_POINT then Z.lor flags FILE_FLAG_OPEN_REPARSE_POINT else flags.
End ContextFields.

(** ** Parts of the state *)
Section Lift.
Context `{W : Win32} `{J : Json} `{E : CacheEnv} `{H : !EntryHost}.

Definition with_engine (s : MountState) (e : EngineState) : MountState :=
  {| engine := e; tracker := tracker s; stats := stats s; upperFinalPath := upperFinalPath s |}.

Definition on_engine {A} (m : eff EngineState A) : eff MountState A := fun s =>
  let (e, a) := m (engine s) in (with_engine s e, a).

Definition mio {A} (m : eff disk A) : eff MountState A := on_engine (io m).
Definition mlook {A} (f : disk -> A) : eff MountState A := on_engine (look f).
Definition mlookup {A} (m : disk -> eff ResolverState A) : eff MountState A := on_engine (lookup_in m).

Definition invalidate (path : wstring) : eff MountState unit :=
  on_engine (engine_cache (InvalidateWithAncestors path)).

Definition count_stats (f : LayerMountStats -> LayerMountStats) : eff MountState unit := fun s =>
  ({| engine := engine s; tracker := tracker s; stats := f (stats s); upperFinalPath := upperFinalPath s |}, tt).

(** [activeHandles.fetch_add(n)]. *)
Definition add_active_handles (n : Z) : eff MountState unit :=
  count_stats (fun t => {| readCount := readCount t; writeCount := writeCount t;
                           activeHandles := (activeHandles t + n) mod 2 ^ 64;
                           bytesRead := bytesRead t; bytesWritten := bytesWritten t |}).

Definition count_read (n : Z) : eff MountState unit :=
  count_stats (fun t => {| readCount := (readCount t + 1) mod 2 ^ 64; writeCount := writeCount t;
                           activeHandles := activeHandles t;
                           bytesRead := (bytesRead t + n) mod 2 ^ 64; bytesWritten := bytesWritten t |}).

Definition count_write (n : Z) : eff MountState unit :=
  count_stats (fun t => {| readCount := readCount t; writeCount := (writeCount t + 1) mod 2 ^ 64;
                           activeHandles := activeHandles t; bytesRead := bytesRead t;
                           bytesWritten := (bytesWritten t + n) mod 2 ^ 64 |}).

(** In the state of an operation on a context. *)
Definition on_mount {A} (m : eff MountState A) : ctx_eff A := fun s =>
  let (st, a) := m (fst s) in ((st, snd s), a).

Definition the_ctx : ctx_eff FileContext := fun s => (s, snd s).
Definition set_ctx (f : FileContext -> FileContext) : ctx_eff unit := fun s => ((fst s, f (snd s)), tt).

(** Runs an operation on a context of its own. *)
Definition with_context {A} (c : FileContext) (m : ctx_eff A) : eff MountState (FileContext * A) := fun s =>
  let '((st, c'), a) := m (s, c) in (st, (c', a)).
End Lift.

Section Mount.
Context `{W : Win32} `{J : Json} `{E : CacheEnv} `{P : Processes} `{H : !EntryHost} `{M : !MountHost}.
Context `{T : !Threads} (config : LayerConfig).

(** ** The process tracker *)

(** [if (tracker && pid != 0) tracker->CheckAccess(pid, path, op)]: whether
    the access is allowed; a denial is an event of the mount. *)
Definition check_access (pid : Z) (path : wstring) (op : OperationType) : eff MountState bool := fun s =>
  match tracker s with
  | Some t =>
      if pid =? 0 then (s, true)
      else
        let d := engineDisk (engine s) in
        let '(t', (isAllowed, denied)) := CheckAccess (steady_now d) (system_now d) pid path op true t in
        let denials := match denied with
                       | Some e => [Event LM_EVT_ACCESS_DENIED E_ACCESSDENIED (deniedPath e) (deniedReason e)]
                       | None => []
                       end in
        ({| engine := with_events (engine s) (events (engine s) ++ denials); tracker := Some t'; stats := stats s;
            upperFinalPath := upperFinalPath s |}, isAllowed)
  | None => (s, true)
  end.

(** [tracker->LogAccess(pid, path, op)] under the same test. *)
Definition log_access (pid : Z) (path : wstring) (op : OperationType) : eff MountState unit := fun s =>
  match tracker s with
  | Some t =>
      if pid =? 0 then (s, tt)
      else
        let d := engineDisk (engine s) in
        let (t', _) := LogAccess (steady_now d) (system_now d) pid path op t in
        ({| engine := engine s; tracker := Some t'; stats := stats s; upperFinalPath := upperFinalPath s |}, tt)
  | None => (s, tt)
  end.

(** ** The caller's path *)

Definition WalkCallerPath (callerPath : wstring) (finalLink : FinalLink) : eff MountState ViewLookup :=
  mlookup (fun d => ViewPathThroughLinks d config callerPath finalLink).

(** [LayerMount::ResolvePath]: the status, and the path where it is set. *)
Definition resolve_caller_path (relativePath : wstring) : eff MountState (NTSTATUS * option ResolvedPath) :=
  (let! v := WalkCallerPath relativePath Keep in
   if negb (NT_SUCCESS (viewStatus v)) then eret (viewStatus v, None)
   else
     let! resolved := mlookup (fun d => ResolvePath d config (viewPath (view v))) in
     eret (STATUS_SUCCESS, Some resolved))%eff.

Definition MergeDirectoryEntries (dirRelativePath : wstring) : eff MountState MergedDirectory :=
  (let! v := WalkCallerPath dirRelativePath Follow in
   if negb (NT_SUCCESS (viewStatus v)) then eret {| mergedStatus := viewStatus v; entries := ∅ |}
   else mlook (fun d => MergeDirectoryAcrossLayers d config (viewPath (view v))))%eff.

(** ** File information *)

(** [FindFirstFileW] gives the tag of a reparse point in [dwReserved0]. *)
Definition reparse_tag_of_path (d : disk) (extendedPath : wstring) : Z :=
  match FindFilesW d extendedPath with
  | Ok (found :: _, _) => dwReserved0 found
  | _ => 0
  end.

Definition FillFileInfo (d : disk) (path : wstring) : nt InternalFileInfo :=
  let extendedPath := WithExtendedPrefix path in
  match GetFileAttributesExW d extendedPath with
  | Err e => Err (NtStatusFromWin32 e)
  | Ok attrData =>
      let written := FileTimeToUInt64 (write (ed_times attrData)) in
      let size := ComposeUInt64 (ed_size_high attrData) (ed_size_low attrData) in
      Ok {| FileAttributes := ed_attributes attrData;
            ReparseTag := if has_attr (ed_attributes attrData) FILE_ATTRIBUTE_REPARSE_POINT
                          then reparse_tag_of_path d extendedPath else 0;
            AllocationSize := AllocationSizeFor size; FileSize := size;
            CreationTime := FileTimeToUInt64 (creation (ed_times attrData));
            LastAccessTime := FileTimeToUInt64 (access (ed_times attrData));
            LastWriteTime := written; ChangeTime := written; IndexNumber := 0; HardLinks := 0; EaSize := 0 |}
  end.

Definition SizesOf (d : disk) (resolved : ResolvedPath) : ResolvedSizes :=
  if negb (Found resolved) then {| fileSize := 0; allocationSize := 0 |}
  else match FillFileInfo d (absolutePath resolved) with
  | Err _ => {| fileSize := 0; allocationSize := 0 |}
  | Ok info => {| fileSize := FileSize info; allocationSize := AllocationSize info |}
  end.

Definition IsAtOrBelow (path root : wstring) : bool :=
  if bool_decide (root = []) || (length path <? length root)%nat ||
     negb (ordinal_eq_ci (take (length root) path) root)
  then false
  else (length path =? length root)%nat || bool_decide (last root = Some ch_bsl) ||
       bool_decide (path !! length root = Some ch_bsl).

Definition FinalPathOf (d : disk) (h : handle) (upper upperFinal : wstring) : wstring :=
  let path := default [] (GetFinalPathNameByHandleW d h) in
  if bool_decide (path = []) then []
  else if IsAtOrBelow path upperFinal then
    let below := strip_leading ch_bsl (drop (length upperFinal) path) in
    if bool_decide (below = []) then upper else JoinDirPath upper below
  else if starts_with kExtended upper then path
  else WithoutExtendedPrefix path.

Definition RecordPathOf (d : disk) (h : handle) (handleAttributes : Z) (pathHint : wstring)
    (pathHintIsReparsePoint : bool) (upper upperFinal : wstring) : wstring :=
  if has_attr handleAttributes FILE_ATTRIBUTE_REPARSE_POINT || negb pathHintIsReparsePoint then pathHint
  else FinalPathOf d h upper upperFinal.

(** The index of the handle, or the stable one of the record. *)
Definition index_number (d : disk) (h : handle) (info : handle_info) (pathHint : wstring)
    (pathHintIsReparsePoint : bool) (upperFinal : wstring) : Z :=
  let own := ComposeUInt64 (hi_index_high info) (hi_index_low info) in
  if bool_decide (pathHint = []) then own
  else
    let recordPath := RecordPathOf d h (hi_attributes info) pathHint pathHintIsReparsePoint (upperPath config)
                        upperFinal in
    if bool_decide (recordPath = []) then own
    else
      let metadata := ReadLayerMountMetadata d recordPath (Some config) in
      if hasStableIndexNumber metadata then stableIndexNumber metadata else own.

Definition FillFileInfoFromHandle (d : disk) (h : handle) (pathHint : wstring) (pathHintIsReparsePoint : bool)
    (upperFinal : wstring) : nt InternalFileInfo :=
  match GetFileInformationByHandle d h with
  | Err e => Err (NtStatusFromWin32 e)
  | Ok info =>
      let written := FileTimeToUInt64 (write (hi_times info)) in
      let size := ComposeUInt64 (hi_size_high info) (hi_size_low info) in
      let realAllocation := match GetStandardAllocation d h with Ok n => n | Err _ => 0 end in
      Ok {| FileAttributes := hi_attributes info;
            ReparseTag := if has_attr (hi_attributes info) FILE_ATTRIBUTE_REPARSE_POINT
                          then match GetAttributeTag d h with Ok tag => tag | Err _ => 0 end else 0;
            AllocationSize := AllocationSizeForReal size realAllocation; FileSize := size;
            CreationTime := FileTimeToUInt64 (creation (hi_times info));
            LastAccessTime := FileTimeToUInt64 (access (hi_times info));
            LastWriteTime := written; ChangeTime := written;
            IndexNumber := index_number d h info pathHint pathHintIsReparsePoint upperFinal;
            HardLinks := 0; EaSize := 0 |}
  end.

(** A call on an invalid handle fails, as a call on a stale one does. *)
Definition call_on {A} (h : option handle) (f : handle -> w32 A) : w32 A :=
  match h with Some h => f h | None => Err ERROR_INVALID_HANDLE end.

(** [FillFileInfoFromHandle(ctx->handle, outInfo, &ctx->actualPath, ...)]. *)
Definition context_info : ctx_eff (nt InternalFileInfo) := fun s =>
  let c := snd s in
  let d := engineDisk (engine (fst s)) in
  (s, match ctx_handle c with
      | None => Err (NtStatusFromWin32 ERROR_INVALID_HANDLE)
      | Some h => FillFileInfoFromHandle d h (ctx_actualPath c) (ctx_entryIsReparsePoint c) (upperFinalPath (fst s))
      end).

(** [if (outInfo != nullptr) return FillFileInfoFromHandle(...);]: the status,
    and the information where it is set. *)
Definition info_result (wantsInfo : bool) : ctx_eff (NTSTATUS * option InternalFileInfo) :=
  (if negb wantsInfo then eret (STATUS_SUCCESS, None)
   else
     let! info := context_info in
     eret match info with Ok i => (STATUS_SUCCESS, Some i) | Err status => (status, None) end)%eff.

(** ** The handle of a context *)

Definition CloseContextHandle : ctx_eff unit :=
  (let! c := the_ctx in
   match ctx_handle c with
   | None => eret tt
   | Some h => do! on_mount (mio (CloseHandle h)) in set_ctx (set_handle None)
   end)%eff.

(** The open of an existing entry with full sharing. *)
Definition open_existing (path : wstring) (access flags : Z) : eff MountState (w32 handle) :=
  mlook (fun d => OpenSharedW d (WithExtendedPrefix path) access share_all flags).

Definition OpenTransientHandle (path : wstring) (desiredAccess : Z) (isDirectory : bool)
  : eff MountState (w32 handle) :=
  open_existing path desiredAccess (if isDirectory then FILE_FLAG_BACKUP_SEMANTICS else 0).

(** The granted access, or the status of the failure. *)
Definition ResolveMaximumAllowedFromHandle (d : disk) (h : handle) (requestedAccess : Z) : nt Z :=
  if negb (has_attr requestedAccess MAXIMUM_ALLOWED) then Ok requestedAccess
  else match NtQueryObject with
  | None => Err STATUS_NOT_SUPPORTED
  | Some query =>
      match query d h with
      | Err status => Err status
      | Ok granted => Ok (Z.lor (Z.ldiff requestedAccess MAXIMUM_ALLOWED) granted)
      end
  end.

Definition ResolveMaximumAllowed (physicalPath : wstring) (isDirectory : bool) (requestedAccess : Z)
  : eff MountState (nt Z) :=
  (if negb (has_attr requestedAccess MAXIMUM_ALLOWED) then eret (Ok requestedAccess)
   else
     let! probe := OpenTransientHandle physicalPath MAXIMUM_ALLOWED isDirectory in
     match probe with
     | Err e => eret (Err (NtStatusFromWin32 e))
     | Ok h =>
         let! resolved := mlook (fun d => ResolveMaximumAllowedFromHandle d h requestedAccess) in
         do! mio (CloseHandle h) in
         eret resolved
     end)%eff.

Definition ResolveContextMaximumAllowed (requestedAccess : Z) : ctx_eff NTSTATUS :=
  (let! c := the_ctx in
   let! resolved := on_mount (mlook (fun d =>
     match ctx_handle c with
     | Some h => ResolveMaximumAllowedFromHandle d h requestedAccess
     | None => Err STATUS_INVALID_HANDLE
     end)) in
   match resolved with
   | Ok access => do! set_ctx (set_granted access) in eret STATUS_SUCCESS
   | Err status => do! CloseContextHandle in eret status
   end)%eff.

Definition OpenContextHandleWithAccess (accessMask : Z) : ctx_eff NTSTATUS :=
  (do! CloseContextHandle in
   let! c := the_ctx in
   let! opened := on_mount (open_existing (ctx_actualPath c) accessMask (ComputeHandleReopenFlags c)) in
   match opened with
   | Err e => eret (NtStatusFromWin32 e)
   | Ok h => do! set_ctx (fun c => set_needs_reopen false (set_handle (Some h) c)) in eret STATUS_SUCCESS
   end)%eff.

Definition ReopenContextHandle : ctx_eff NTSTATUS :=
  (let! c := the_ctx in OpenContextHandleWithAccess (ComputeHandleReopenAccess c))%eff.

Definition EnsureHandleReady : ctx_eff NTSTATUS :=
  (let! c := the_ctx in
   if negb (ctx_handleNeedsReopen c) && bool_decide (ctx_handle c <> None) then eret STATUS_SUCCESS
   else ReopenContextHandle)%eff.

(** [setInfo] on the handle of the context, and again on a handle of its own
    after an access or a sharing error. *)
Definition SetInfoWithTransientRetry (transientAccess : Z) (setInfo : handle -> eff disk (w32 unit))
  : ctx_eff NTSTATUS :=
  (let! c := the_ctx in
   let! first := (match ctx_handle c with
                  | Some h => on_mount (mio (setInfo h))
                  | None => eret (Err ERROR_INVALID_HANDLE)
                  end) in
   match first with
   | Ok _ => eret STATUS_SUCCESS
   | Err firstErr =>
       if negb (firstErr =? ERROR_ACCESS_DENIED) && negb (firstErr =? ERROR_SHARING_VIOLATION)
       then eret (NtStatusFromWin32 firstErr)
       else
         let! transient := on_mount (OpenTransientHandle (ctx_actualPath c) transientAccess (ctx_isDirectory c)) in
         match transient with
         | Err _ => eret (NtStatusFromWin32 firstErr)
         | Ok h =>
             let! second := on_mount (mio (setInfo h)) in
             do! on_mount (mio (CloseHandle h)) in
             eret match second with Ok _ => STATUS_SUCCESS | Err e => NtStatusFromWin32 e end
         end
   end)%eff.

Definition SetDeleteDispositionAndClose (h : handle) : eff MountState NTSTATUS :=
  (let! set := mio (SetDisposition h) in
   do! mio (CloseHandle h) in
   eret match set with Ok _ => STATUS_SUCCESS | Err e => NtStatusFromWin32 e end)%eff.
End Mount.
