(* ===== verification/MountOpen.v ===== *)
(** * Opens and creates

    [EnsureInUpperLayer], [Open], [OpenRoot] and [Create] of [LayerMount.cpp],
    with the undo of a failed create. *)
From S2P Require Export Mount.
Open Scope Z_scope.

Record CreateRequest `{W : Win32} `{H : !EntryHost} := {
  requestPath : wstring;
  requestOptions : Z;
  requestAccess : Z;
  requestAttributes : Z;
  requestSecurity : option security;
  requestAllocation : Z;
  requestPid : Z
}.

(** [UpperCreate]. *)
Record UpperCreate `{W : Win32} `{H : !EntryHost} := {
  createPath : StreamPath;
  createUpperPath : wstring;
  resolution : CreateResolution;
  createAccess : Z;
  createAttributes : Z;
  createSecurity : option security;
  createAllocation : Z
}.

Section Open.
Context `{W : Win32} `{J : Json} `{E : CacheEnv} `{P : Processes} `{H : !EntryHost} `{M : !MountHost}.
Context `{T : !Threads} (config : LayerConfig).

(** ** Metacopy shells *)

Definition FillShell (hostNorm : wstring) : ctx_eff NTSTATUS :=
  (step! on_mount (on_engine (CompleteLazyCopyUp config hostNorm)) in
   do! set_ctx (set_metacopy false) in
   eret STATUS_SUCCESS)%eff.

Definition ReadMetacopyFlag (hostNorm : wstring) : ctx_eff unit :=
  (let! c := the_ctx in
   if bool_decide (ctx_streamSuffix c = []) then
     let! flag := on_mount (mlook (fun d =>
       metacopy (ReadLayerMountMetadata d (GetUpperPath config hostNorm) (Some config)))) in
     set_ctx (set_metacopy flag)
   else eret tt)%eff.

Definition FillShellForDataAccess (hostNorm : wstring) : ctx_eff NTSTATUS :=
  (let! c := the_ctx in
   if ctx_isMetacopyOnly c && negb (ctx_isDirectory c) && HasFileDataAccess (ctx_grantedAccess c)
   then FillShell hostNorm else eret STATUS_SUCCESS)%eff.

Definition EnsureMetacopyMaterialized : ctx_eff NTSTATUS :=
  (let! c := the_ctx in
   if negb (ctx_isMetacopyOnly c) then eret STATUS_SUCCESS
   else step! FillShell (ctx_relativePath c) in ReopenContextHandle)%eff.

Definition CopyUpForHandle (hostNorm : wstring) (shellOnlyAboveBytes : option Z) : ctx_eff NTSTATUS :=
  (let! c := the_ctx in
   if ctx_isDirectory c then on_mount (on_engine (CopyUpDirectory config hostNorm))
   else if negb (bool_decide (ctx_streamSuffix c = [])) then on_mount (on_engine (CopyUpFile config hostNorm))
   else
     let! copied := on_mount (on_engine (CopyUpFileOrShell config hostNorm shellOnlyAboveBytes)) in
     do! (if stagedShell copied then set_ctx (set_metacopy true) else eret tt) in
     eret (copyStatus copied))%eff.

(** ** The upper for a context and for a path *)

Definition EnsureInUpperLayer (relativePath : wstring) : ctx_eff NTSTATUS :=
  (let! c := the_ctx in
   if ctx_writable c && bool_decide (ctx_handle c <> None) && negb (ctx_handleNeedsReopen c)
   then eret STATUS_SUCCESS
   else
     let normalized := NormalizePath relativePath in
     let upperFullPath := GetUpperPath config normalized ++ ctx_streamSuffix c in
     let! inUpper := on_mount (mlook (fun d => ExistsInUpper d config normalized)) in
     if (inUpper : bool) then
       if ordinal_eq_ci (ctx_actualPath c) upperFullPath then eret STATUS_SUCCESS
       else
         do! ReadMetacopyFlag normalized in
         step! FillShellForDataAccess normalized in
         do! set_ctx (set_path upperFullPath true) in
         ReopenContextHandle
     else
       step! CopyUpForHandle normalized kShellAtAnySize in
       step! FillShellForDataAccess normalized in
       do! set_ctx (set_path upperFullPath true) in
       ReopenContextHandle)%eff.

(** [EnsureInUpperLayer(relativePath)], without a context. *)
Definition EnsurePathInUpperLayer (relativePath : wstring) : eff MountState NTSTATUS :=
  (let! v := WalkCallerPath config relativePath Keep in
   if negb (NT_SUCCESS (viewStatus v)) then eret (viewStatus v)
   else
     let normalized := viewNormalized (view v) in
     let! inUpper := mlook (fun d => ExistsInUpper d config normalized) in
     if (inUpper : bool) then eret STATUS_SUCCESS
     else
       let! resolved := mlookup (fun d => ResolvePath d config normalized) in
       if negb (Found resolved) then eret STATUS_OBJECT_NAME_NOT_FOUND
       else if has_attr (attributes resolved) FILE_ATTRIBUTE_DIRECTORY
            then on_engine (CopyUpDirectory config normalized)
            else on_engine (CopyUpFile config normalized))%eff.

(** ** Open *)

Definition SetOpenPath (hostNorm : wstring) (resolved : ResolvedPath) : ctx_eff NTSTATUS :=
  (let! c := the_ctx in
   if bool_decide (source resolved = Lower) && HasWriteAccess (ctx_grantedAccess c) then
     step! CopyUpForHandle hostNorm (Some kShellOnlyAboveBytes) in
     do! set_ctx (set_path (GetUpperPath config hostNorm ++ ctx_streamSuffix c) true) in
     eret STATUS_SUCCESS
   else
     do! set_ctx (set_path (absolutePath resolved ++ ctx_streamSuffix c)
                           (bool_decide (source resolved = Upper))) in
     eret STATUS_SUCCESS)%eff.

(** The end of an open: the information of the handle, or its close. *)
Definition finish_open : ctx_eff (NTSTATUS * option InternalFileInfo) :=
  (let! info := context_info config in
   match info with
   | Err status => do! CloseContextHandle in eret (status, None)
   | Ok i => do! on_mount (add_active_handles 1) in eret (STATUS_SUCCESS, Some i)
   end)%eff.

(** The context is handed out only with a success. *)
Definition opened (r : FileContext * (NTSTATUS * option InternalFileInfo))
  : NTSTATUS * option (FileContext * InternalFileInfo) :=
  let '(c, (status, info)) := r in
  (status, match info with Some i => if NT_SUCCESS status then Some (c, i) else None | None => None end).

Definition OpenRoot (grantedAccess createOptions callerPid : Z)
  : eff MountState (NTSTATUS * option (FileContext * InternalFileInfo)) :=
  (let c := Ctx None (upperPath config) [] true true false false callerPid 0 createOptions false [] in
   let! r := with_context c
     (let! root := on_mount (open_existing (upperPath config) (ComputePhysicalHandleAccess grantedAccess)
                               FILE_FLAG_BACKUP_SEMANTICS) in
      match root with
      | Err e => eret (NtStatusFromWin32 e, None)
      | Ok h =>
          do! set_ctx (set_handle (Some h)) in
          let! status := ResolveContextMaximumAllowed grantedAccess in
          if negb (NT_SUCCESS status) then eret (status, None) else finish_open
      end) in
   eret (opened r))%eff.

(** The part of [Open] that works on the new context. *)
Definition open_resolved (hostNorm : wstring) (resolved : ResolvedPath) : ctx_eff (NTSTATUS * option InternalFileInfo) :=
  (let! status := (step! SetOpenPath hostNorm resolved in
                   do! (if bool_decide (source resolved = Upper) then ReadMetacopyFlag hostNorm else eret tt) in
                   step! FillShellForDataAccess hostNorm in
                   let! c := the_ctx in
                   OpenContextHandleWithAccess (ComputePhysicalHandleAccess (ctx_grantedAccess c))) in
   if negb (NT_SUCCESS status) then eret (status, None) else finish_open)%eff.

Definition Open (relativePath : wstring) (grantedAccess createOptions callerPid : Z)
  : eff MountState (NTSTATUS * option (FileContext * InternalFileInfo)) :=
  (let! v := WalkCallerPath config relativePath (FinalLinkFor createOptions) in
   if negb (NT_SUCCESS (viewStatus v)) then eret (viewStatus v, None)
   else
     let normalized := viewNormalized (view v) in
     let isRoot := bool_decide (normalized = []) in
     match (if isRoot then Some ([], []) else TryParseStreamPath normalized) with
     | None => eret (STATUS_OBJECT_NAME_INVALID, None)
     | Some (hostNorm, suffix) =>
         let openOp := if HasWriteAccess grantedAccess then OpWrite else OpOpen in
         let! isAllowed := check_access callerPid hostNorm openOp in
         if negb isAllowed then eret (STATUS_ACCESS_DENIED, None)
         else if isRoot then OpenRoot grantedAccess createOptions callerPid
         else
           let! resolved := mlookup (fun d => ResolvePath d config hostNorm) in
           if negb (Found resolved) then eret (STATUS_OBJECT_NAME_NOT_FOUND, None)
           else
             let hostIsDirectory := has_attr (attributes resolved) FILE_ATTRIBUTE_DIRECTORY in
             if negb (bool_decide (suffix = [])) && hostIsDirectory then eret (STATUS_FILE_IS_A_DIRECTORY, None)
             else
               let! access := ResolveMaximumAllowed (absolutePath resolved) hostIsDirectory grantedAccess in
               match access with
               | Err status => eret (status, None)
               | Ok resolvedAccess =>
                   let c := Ctx None [] hostNorm hostIsDirectory false false
                              (has_attr (attributes resolved) FILE_ATTRIBUTE_REPARSE_POINT) callerPid resolvedAccess
                              createOptions false suffix in
                   let! r := with_context c (open_resolved hostNorm resolved) in
                   eret (opened r)
               end
     end)%eff.

(** ** Security of a new object *)

Definition SecurityInformationCarriedBy (sd : option security) : Z :=
  match sd with
  | None => 0
  | Some s =>
      let parts := security_parts s in
      let bit (b : bool) n := if b then n else 0 in
      Z.lor (bit (carries_owner parts) OWNER_SECURITY_INFORMATION)
        (Z.lor (bit (carries_group parts) GROUP_SECURITY_INFORMATION)
          (Z.lor (bit (carries_dacl parts) DACL_SECURITY_INFORMATION)
                 (bit (carries_sacl parts) SACL_SECURITY_INFORMATION)))
  end.

Definition WriteSecurityToNewObject (path : wstring) (sd : option security) : eff MountState NTSTATUS :=
  (let toWrite := DropSaclWithoutPrivilege (SecurityInformationCarriedBy sd) in
   match sd with
   | None => eret STATUS_SUCCESS
   | Some s =>
       if toWrite =? 0 then eret STATUS_SUCCESS
       else
         let access := Z.lor READ_CONTROL (Z.lor WRITE_DAC WRITE_OWNER) in
         let access := if has_attr toWrite SACL_SECURITY_INFORMATION then Z.lor access ACCESS_SYSTEM_SECURITY
                       else access in
         let! securityHandle := open_existing path access FILE_FLAG_BACKUP_SEMANTICS in
         match securityHandle with
         | Err e => eret (NtStatusFromWin32 e)
         | Ok h =>
             let! written := mio (SetObjectSecurity h toWrite s) in
             do! mio (CloseHandle h) in
             eret match written with Err e => NtStatusFromWin32 e | Ok _ => STATUS_SUCCESS end
         end
   end)%eff.

(** ** The undo of a create *)

(** The error of the failed call. *)
Definition DeleteCreatedFile (path : wstring) : eff disk (w32 unit) :=
  (let extendedPath := WithExtendedPrefix path in
   let! deleted := DeleteFileW extendedPath in
   match deleted with
   | Ok _ => eret (Ok tt)
   | Err e =>
       if negb (e =? ERROR_ACCESS_DENIED) then eret (Err e)
       else
         let! attrs := eread (fun d => GetFileAttributesW d extendedPath) in
         match attrs with
         | Err _ => eret (Err ERROR_ACCESS_DENIED)
         | Ok a =>
             if negb (has_attr a FILE_ATTRIBUTE_READONLY) then eret (Err ERROR_ACCESS_DENIED)
             else
               let! cleared := SetFileAttributesW extendedPath (Z.ldiff a FILE_ATTRIBUTE_READONLY) in
               match cleared with
               | Err e => eret (Err e)
               | Ok _ => DeleteFileW extendedPath
               end
         end
   end)%eff.

Definition HresultOfFailedCall (e : Z) : Z := if e =? ERROR_SUCCESS then E_FAIL else hresult_from_win32 e.

(** A step of an undo: a failure is a warning for the path of the context. *)
Definition undo_step (m : eff disk (w32 unit)) (path message : wstring) : eff MountState unit :=
  (let! r := mio m in
   match r with
   | Ok _ => eret tt
   | Err e => on_engine (warn (HresultOfFailedCall e) path message)
   end)%eff.

(** The destructor of an armed [FileRollback]. *)
Definition undo_file_create (createdHostPath : option wstring) : ctx_eff unit :=
  (do! CloseContextHandle in
   let! c := the_ctx in
   do! on_mount (undo_step (DeleteCreatedFile (ctx_actualPath c)) (ctx_relativePath c)
                   (L "The undo of a failed create could not delete the new entry")) in
   match createdHostPath with
   | None => eret tt
   | Some hostPath =>
       on_mount (undo_step (DeleteCreatedFile hostPath) (ctx_relativePath c)
                   (L "The undo of a failed stream create could not delete its new host file"))
   end)%eff.

(** The destructor of an armed [DirectoryRollback]. *)
Definition undo_directory_create (opaqueDirectory : option wstring) : ctx_eff unit :=
  (do! CloseContextHandle in
   let! c := the_ctx in
   do! (match opaqueDirectory with
        | None => eret tt
        | Some dir =>
            let! removed := on_mount (on_engine (on_markers (RemoveOpaque config dir))) in
            if (removed : bool) then eret tt
            else on_mount (on_engine (warn E_FAIL (ctx_relativePath c)
                   (L "The undo of a failed create could not remove the new directory's opaque markers")))
        end) in
   on_mount (undo_step (RemoveDirectoryW (WithExtendedPrefix (ctx_actualPath c))) (ctx_relativePath c)
               (L "The undo of a failed create could not remove the new directory")))%eff.

(** A body under an armed rollback. *)
Definition guarded {A} (failed : A -> bool) (body : ctx_eff A) (undo : ctx_eff unit) : ctx_eff A :=
  (let! r := body in
   if failed r then do! undo in eret r else eret r)%eff.

(** ** Create *)

Definition IsDirectoryHit (hit : ResolvedPath) : bool :=
  Found hit && has_attr (attributes hit) FILE_ATTRIBUTE_DIRECTORY.

Definition IsDirectoryCreate (request : CreateRequest) : bool :=
  has_attr (requestOptions request) FILE_DIRECTORY_FILE.

Definition StreamExists (d : disk) (hostPath suffix : wstring) : bool :=
  is_ok (GetFileAttributesW d (ExtendedStreamPath hostPath suffix)).

Definition not_resolved : CreateResolution :=
  {| overlayHit := not_found; whiteoutAtPath := false; lower := not_found |}.

(** The status, and [*resolution]. *)
Definition CheckCreatePreconditions (request : CreateRequest) (path : StreamPath)
  : eff MountState (NTSTATUS * CreateResolution) :=
  (let! reserved := mlook (fun d => IsReservedPath d config (hostNorm path)) in
   if (reserved : bool) then eret (STATUS_ACCESS_DENIED, not_resolved)
   else
     let! isAllowed := check_access (requestPid request) (hostNorm path) OpCreate in
     if negb isAllowed then eret (STATUS_ACCESS_DENIED, not_resolved)
     else if IsDirectoryCreate request && negb (bool_decide (streamSuffix path = []))
     then eret (STATUS_FILE_IS_A_DIRECTORY, not_resolved)
     else
       let! r := mlookup (fun d => ResolveForCreate d config (hostNorm path)) in
       if bool_decide (streamSuffix path = []) then
         eret (if Found (overlayHit r) then STATUS_OBJECT_NAME_COLLISION else STATUS_SUCCESS, r)
       else
         let! upperAttrs := mlook (fun d => GetFileAttributesW d (WithExtendedPrefix (GetUpperPath config (hostNorm path)))) in
         let upperIsDirectory := match upperAttrs with Ok a => has_attr a FILE_ATTRIBUTE_DIRECTORY | Err _ => false end in
         if upperIsDirectory || IsDirectoryHit (overlayHit r) then eret (STATUS_FILE_IS_A_DIRECTORY, r)
         else
           let! exists_ := mlook (fun d => Found (overlayHit r) &&
                                           StreamExists d (absolutePath (overlayHit r)) (streamSuffix path)) in
           eret (if (exists_ : bool) then STATUS_OBJECT_NAME_COLLISION else STATUS_SUCCESS, r))%eff.

(** The entry to create, and its context. *)
Definition BuildCreate (request : CreateRequest) (path : StreamPath) (r : CreateResolution) (upper : wstring)
  : UpperCreate * FileContext :=
  ({| createPath := path; createUpperPath := upper; resolution := r; createAccess := requestAccess request;
      createAttributes := requestAttributes request;
      createSecurity := DescriptorForCreate config (requestSecurity request);
      createAllocation := requestAllocation request |},
   Ctx None (upper ++ callerStreamSuffix path) (hostNorm path) (IsDirectoryCreate request) true false false
     (requestPid request) 0 (requestOptions request) false (streamSuffix path)).

(** The status, and the information once it is read. *)
Definition FinishCreatedEntry (create : UpperCreate) : ctx_eff (NTSTATUS * option InternalFileInfo) :=
  (let! info := context_info config in
   match info with
   | Err status => eret (status, None)
   | Ok i =>
       if negb (whiteoutAtPath (resolution create)) then eret (STATUS_SUCCESS, Some i)
       else
         let! status := on_mount (on_engine (on_markers (RemoveWhiteout config (hostNorm (createPath create))))) in
         eret (status, Some i)
   end)%eff.

(** A step that can fail before the information is read. *)
Definition then_info (m : ctx_eff NTSTATUS) (k : ctx_eff (NTSTATUS * option InternalFileInfo))
  : ctx_eff (NTSTATUS * option InternalFileInfo) :=
  (let! status := m in if NT_SUCCESS status then k else eret (status, None))%eff.

Definition failed_create (r : NTSTATUS * option InternalFileInfo) : bool := negb (NT_SUCCESS (fst r)).

(** The steps after [CreateDirectoryW]. *)
Definition finish_directory_create (create : UpperCreate) : ctx_eff (NTSTATUS * option InternalFileInfo) :=
  then_info
    (step! (if IsDirectoryHit (lower (resolution create))
            then on_mount (on_engine (on_markers (SetOpaque config (hostNorm (createPath create)))))
            else eret STATUS_SUCCESS) in
     step! on_mount (WriteSecurityToNewObject (createUpperPath create) (createSecurity create)) in
     let! opened := on_mount (open_existing (createUpperPath create)
                                (ComputePhysicalHandleAccess (createAccess create)) FILE_FLAG_BACKUP_SEMANTICS) in
     match opened with
     | Err e => eret (NtStatusFromWin32 e)
     | Ok h => do! set_ctx (set_handle (Some h)) in ResolveContextMaximumAllowed (createAccess create)
     end)%eff
    (FinishCreatedEntry create).

Definition CreateDirectoryInUpper (create : UpperCreate) : ctx_eff (NTSTATUS * option InternalFileInfo) :=
  (let! made := on_mount (mio (CreateDirectoryW (WithExtendedPrefix (createUpperPath create)))) in
   match made with
   | Err e => eret (NtStatusFromWin32 e, None)
   | Ok _ =>
       guarded failed_create (finish_directory_create create)
         (undo_directory_create (if IsDirectoryHit (lower (resolution create))
                                 then Some (hostNorm (createPath create)) else None))
   end)%eff.

Definition PrepareStreamHost (create : UpperCreate) : eff MountState NTSTATUS :=
  (let hit := overlayHit (resolution create) in
   let path := hostNorm (createPath create) in
   let lowerIsVisible := Found hit && bool_decide (source hit = Lower) in
   let! inUpper := mlook (fun d => ExistsInUpper d config path) in
   if lowerIsVisible && negb inUpper then on_engine (CopyUpFile config path) else eret STATUS_SUCCESS)%eff.

Definition ApplyNewHostFileSettings (create : UpperCreate) (h : handle) : eff MountState NTSTATUS :=
  (step! WriteSecurityToNewObject (createUpperPath create) (createSecurity create) in
   if createAllocation create =? 0 then eret STATUS_SUCCESS
   else
     let! allocated := mio (SetAllocationSize h (createAllocation create)) in
     eret match allocated with Err e => NtStatusFromWin32 e | Ok _ => STATUS_SUCCESS end)%eff.

(** The steps after the open that created the file or the stream. *)
Definition finish_file_create (create : UpperCreate) (h : handle) : ctx_eff (NTSTATUS * option InternalFileInfo) :=
  then_info
    (step! ResolveContextMaximumAllowed (createAccess create) in
     if bool_decide (streamSuffix (createPath create) = [])
     then on_mount (ApplyNewHostFileSettings create h) else eret STATUS_SUCCESS)%eff
    (FinishCreatedEntry create).

Definition stream_makes_host (d : disk) (create : UpperCreate) : bool :=
  negb (bool_decide (streamSuffix (createPath create) = [])) &&
  match GetFileAttributesW d (WithExtendedPrefix (createUpperPath create)) with
  | Ok _ => false
  | Err e => (e =? ERROR_FILE_NOT_FOUND) || (e =? ERROR_PATH_NOT_FOUND)
  end.

Definition CreateFileInUpper (create : UpperCreate) : ctx_eff (NTSTATUS * option InternalFileInfo) :=
  then_info
    (if bool_decide (streamSuffix (createPath create) = []) then eret STATUS_SUCCESS
     else on_mount (PrepareStreamHost create))
    (let! streamMakesHost := on_mount (mlook (fun d => stream_makes_host d create)) in
     let fileAttributes := if createAttributes create =? 0 then FILE_ATTRIBUTE_NORMAL else createAttributes create in
     let! c := the_ctx in
     let! made := on_mount (mio (CreateFileW (WithExtendedPrefix (ctx_actualPath c))
                                   (ComputePhysicalHandleAccess (createAccess create)) share_all CREATE_NEW
                                   fileAttributes)) in
     match made with
     | Err e => eret (NtStatusFromWin32 e, None)
     | Ok h =>
         do! set_ctx (set_handle (Some h)) in
         guarded failed_create (finish_file_create create h)
           (undo_file_create (if (streamMakesHost : bool) then Some (createUpperPath create) else None))
     end)%eff.

Definition Create (callerRequest : CreateRequest)
  : eff MountState (NTSTATUS * option (FileContext * InternalFileInfo)) :=
  (let! v := WalkCallerPath config (requestPath callerRequest) (FinalLinkFor (requestOptions callerRequest)) in
   if negb (NT_SUCCESS (viewStatus v)) then eret (viewStatus v, None)
   else match ParseStreamPath (viewPath (view v)) with
   | None => eret (STATUS_OBJECT_NAME_INVALID, None)
   | Some path =>
       let! (precondition, r) := CheckCreatePreconditions callerRequest path in
       if negb (NT_SUCCESS precondition) then eret (precondition, None)
       else
         let upper := GetUpperPathForNewEntry config (callerHost path) in
         let! parentStatus := on_engine (EnsureUpperParent config (NormalizePath (viewPath (view v)))) in
         if negb (NT_SUCCESS parentStatus) then eret (parentStatus, None)
         else
           let (create, c) := BuildCreate callerRequest path r upper in
           let! result := with_context c
             (let! made := (if IsDirectoryCreate callerRequest then CreateDirectoryInUpper create
                            else CreateFileInUpper create) in
              do! (if NT_SUCCESS (fst made) then
                     do! on_mount (invalidate (hostNorm path)) in on_mount (add_active_handles 1)
                   else eret tt) in
              eret made) in
           eret (opened result)
   end)%eff.
End Open.
