(* ===== verification/MountFiles.v ===== *)
(** * Open files: reads, writes, sizes, streams, security, links

    The operations of [LayerMount.cpp] on an open file and on the security,
    the reparse point and the streams of a path. *)
From S2P Require Export MountOpen.
Open Scope Z_scope.

Record SetInfoRequest := {
  newAttributes : Z;
  newCreationTime : Z;
  newAccessTime : Z;
  newWriteTime : Z;
  newAllocation : Z;
  newSize : Z
}.

Record InternalStreamInfo := { streamInfoName : wstring; streamSize : Z; streamAllocation : Z }.

(** [kUnchanged]. *)
Definition kUnchanged : Z := UINT64_MAX.

Section Files.
Context `{W : Win32} `{J : Json} `{E : CacheEnv} `{P : Processes} `{H : !EntryHost} `{M : !MountHost}.
Context `{T : !Threads} (config : LayerConfig).

(** A context goes out of use. *)
Definition Close : ctx_eff unit :=
  (let! c := the_ctx in
   do! on_mount (log_access (ctx_ownerPid c) (ctx_relativePath c) OpClose) in
   do! CloseContextHandle in
   on_mount (add_active_handles (-1)))%eff.

Definition Cleanup : ctx_eff NTSTATUS :=
  (do! CloseContextHandle in do! set_ctx (set_needs_reopen true) in eret STATUS_SUCCESS)%eff.

(** [if (!tracker->CheckAccess(ctx->ownerPid, ...)) return STATUS_ACCESS_DENIED;] *)
Definition allow_context (op : OperationType) : ctx_eff NTSTATUS :=
  (let! c := the_ctx in
   let! isAllowed := on_mount (check_access (ctx_ownerPid c) (ctx_relativePath c) op) in
   eret (if (isAllowed : bool) then STATUS_SUCCESS else STATUS_ACCESS_DENIED))%eff.

(** ** Read *)

(** The buffer past [filled] bytes is set to zero. *)
Definition ZeroFillTail (data : list Z) (length_ : Z) : list Z :=
  data ++ replicate (Z.to_nat length_ - length data) 0.

(** The status, [*bytesTransferred], and the buffer where it is written. *)
Definition Read (offset length_ : Z) : ctx_eff (NTSTATUS * Z * option (list Z)) :=
  (let! ready := (step! EnsureHandleReady in allow_context OpRead) in
   if negb (NT_SUCCESS ready) then eret (ready, 0, None)
   else
     let! c := the_ctx in
     let! got := on_mount (mlook (fun d => call_on (ctx_handle c) (fun h => ReadFileAt d h offset length_))) in
     match got with
     | Err e => if e =? ERROR_HANDLE_EOF then eret (STATUS_END_OF_FILE, 0, None)
                else eret (NtStatusFromWin32 e, 0, None)
     | Ok data =>
         let n := Z.of_nat (length data) in
         if (n =? 0) && negb (length_ =? 0) then eret (STATUS_END_OF_FILE, 0, None)
         else
           do! on_mount (count_read n) in
           eret (STATUS_SUCCESS, n, Some (ZeroFillTail data length_))
     end)%eff.

(** ** Write *)

(** [static_cast<LONGLONG>] of a UINT64, and back. *)
Definition to_signed (n : Z) : Z := if n <? 2 ^ 63 then n else n - 2 ^ 64.
Definition to_unsigned (n : Z) : Z := n mod 2 ^ 64.

(** Where a write goes and how many bytes it writes; [None] when a constrained
    write has nothing to write.  [size] is the LONGLONG size of the file; the
    offset is given to [WriteFile] as its two halves. *)
Definition write_range (offset length_ size : Z) (writeToEnd constrainedIo : bool) : option (Z * Z) :=
  let writeOffset := if writeToEnd then size else to_signed offset in
  if negb constrainedIo then Some (to_unsigned writeOffset, length_)
  else if size <=? writeOffset then None
  else if to_unsigned size <? to_unsigned (to_unsigned writeOffset + length_)
       then Some (to_unsigned writeOffset, (size - writeOffset) mod 2 ^ 32)
       else Some (to_unsigned writeOffset, length_).

(** The bytes that a write of [n] bytes takes from the caller's buffer.  Past
    the buffer the source reads foreign memory, which is [beyond]. *)
Definition bytes_written (buffer : list Z) (beyond : list Z) (n : Z) : list Z :=
  take (Z.to_nat n) (buffer ++ beyond).

(** The status, [*bytesTransferred], and the information where it is set. *)
Definition Write (buffer beyond : list Z) (offset : Z) (writeToEnd constrainedIo wantsInfo : bool)
  : ctx_eff (NTSTATUS * Z * option InternalFileInfo) :=
  (let! c := the_ctx in
   let! ready := (step! EnsureHandleReady in
                  step! allow_context OpWrite in
                  step! EnsureInUpperLayer config (ctx_relativePath c) in
                  EnsureMetacopyMaterialized config) in
   if negb (NT_SUCCESS ready) then eret (ready, 0, None)
   else
     let! c := the_ctx in
     let! size := on_mount (mlook (fun d => call_on (ctx_handle c) (GetFileSizeEx d))) in
     match size with
     | Err e => eret (NtStatusFromWin32 e, 0, None)
     | Ok size =>
         match write_range offset (Z.of_nat (length buffer)) size writeToEnd constrainedIo with
         | None => let! (status, info) := info_result config wantsInfo in eret (status, 0, info)
         | Some (at_, n) =>
             let! written := (match ctx_handle c with
                              | Some h => on_mount (mio (WriteFileAt h at_ (bytes_written buffer beyond n)))
                              | None => eret (Err ERROR_INVALID_HANDLE)
                              end) in
             match written with
             | Err e => eret (NtStatusFromWin32 e, 0, None)
             | Ok count =>
                 do! on_mount (count_write count) in
                 let! (status, info) := info_result config wantsInfo in eret (status, count, info)
             end
         end
     end)%eff.

(** ** Overwrite and flush *)

Definition kDataSuffix : wstring := L ":$DATA".

(** The path that deletes a stream: without the data type. *)
Definition stream_delete_path (extendedBasePath name : wstring) : wstring :=
  let n := (length name - length kDataSuffix)%nat in
  if (length kDataSuffix <=? length name)%nat && bool_decide (drop n name = kDataSuffix)
  then extendedBasePath ++ take n name else extendedBasePath ++ name.

(** The loop over the streams; [lastError] ends it. *)
Fixpoint delete_streams (extendedBasePath : wstring) (names : list wstring) (lastError : Z) : eff disk NTSTATUS :=
  (match names with
   | [] => eret (if lastError =? ERROR_HANDLE_EOF then STATUS_SUCCESS else NtStatusFromWin32 lastError)
   | name :: names' =>
       let! deleted := (if IsUserAlternateStream name then DeleteFileW (stream_delete_path extendedBasePath name)
                        else eret (Ok tt)) in
       match deleted with
       | Err e => if (e =? ERROR_FILE_NOT_FOUND) || (e =? ERROR_PATH_NOT_FOUND)
                  then delete_streams extendedBasePath names' lastError else eret (NtStatusFromWin32 e)
       | Ok _ => delete_streams extendedBasePath names' lastError
       end
   end)%eff.

Definition DeleteUserAlternateDataStreams (basePath : wstring) : eff disk NTSTATUS :=
  (let extendedBasePath := WithExtendedPrefix basePath in
   let! found := eread (fun d => FindStreams d extendedBasePath) in
   match found with
   | Err e => eret (if e =? ERROR_HANDLE_EOF then STATUS_SUCCESS else NtStatusFromWin32 e)
   | Ok (streams, lastError) => delete_streams extendedBasePath (fst <$> streams) lastError
   end)%eff.

Definition SetContextAllocationSize (size : Z) : ctx_eff NTSTATUS :=
  SetInfoWithTransientRetry FILE_WRITE_DATA (fun h => SetAllocationSize h size).

Definition SetContextEndOfFile (size : Z) : ctx_eff NTSTATUS :=
  SetInfoWithTransientRetry FILE_WRITE_DATA (fun h => SetEndOfFile h size).

(** The attributes of the host file. *)
Definition overwrite_attributes (attrPath : wstring) (fileAttributes : Z) (replaceAttributes : bool)
  : eff disk NTSTATUS :=
  (if fileAttributes =? 0 then eret STATUS_SUCCESS
   else
     let! newAttrs := (if replaceAttributes then eret fileAttributes
                       else
                         let! current := eread (fun d => GetFileAttributesW d attrPath) in
                         eret (Z.lor (match current with Ok a => a | Err _ => 0 end) fileAttributes)) in
     let! set := SetFileAttributesW attrPath newAttrs in
     eret match set with Ok _ => STATUS_SUCCESS | Err e => NtStatusFromWin32 e end)%eff.

Definition Overwrite (fileAttributes : Z) (replaceAttributes : bool) (allocation : Z) (wantsInfo : bool)
  : ctx_eff (NTSTATUS * option InternalFileInfo) :=
  then_info
    (step! EnsureHandleReady in
     step! allow_context OpOverwrite in
     let! c := the_ctx in
     step! EnsureInUpperLayer config (ctx_relativePath c) in
     step! EnsureMetacopyMaterialized config in
     let! c := the_ctx in
     let isStreamHandle := negb (bool_decide (ctx_streamSuffix c = [])) in
     step! (if isStreamHandle then eret STATUS_SUCCESS
            else on_mount (mio (DeleteUserAlternateDataStreams (ctx_actualPath c)))) in
     step! SetContextEndOfFile 0 in
     step! (if allocation =? 0 then eret STATUS_SUCCESS else SetContextAllocationSize allocation) in
     step! on_mount (mio (overwrite_attributes
             (WithExtendedPrefix (if isStreamHandle then GetUpperPath config (ctx_relativePath c)
                                  else ctx_actualPath c)) fileAttributes replaceAttributes)) in
     do! on_mount (invalidate (ctx_relativePath c)) in
     eret STATUS_SUCCESS)%eff
    (info_result config wantsInfo).

Definition Flush (wantsInfo : bool) : ctx_eff (NTSTATUS * option InternalFileInfo) :=
  then_info
    (step! EnsureHandleReady in
     step! allow_context OpRead in
     let! c := the_ctx in
     let! flushed := (match ctx_handle c with
                      | Some h => on_mount (mio (FlushFileBuffers h))
                      | None => eret (Err ERROR_INVALID_HANDLE)
                      end) in
     eret match flushed with Ok _ => STATUS_SUCCESS | Err e => NtStatusFromWin32 e end)%eff
    (info_result config wantsInfo).

(** ** SetInfo *)

(** Zero times in [FILE_BASIC_INFO] keep the stored ones. *)
Definition SetContextAttributes (fileAttributes : Z) : ctx_eff NTSTATUS :=
  SetInfoWithTransientRetry FILE_WRITE_ATTRIBUTES (fun h => SetBasicInfo h no_times 0 fileAttributes).

Definition ToFileTime (value : Z) : FILETIME := Uint64ToFileTime value.

Definition time_to_set (value : Z) : option FILETIME := if value =? 0 then None else Some (ToFileTime value).

Definition SetContextTimes (creationTime lastAccessTime lastWriteTime : Z) : ctx_eff NTSTATUS :=
  SetInfoWithTransientRetry FILE_WRITE_ATTRIBUTES (fun h =>
    SetFileTimes h (time_to_set creationTime) (time_to_set lastAccessTime) (time_to_set lastWriteTime)).

Definition changesNothing (r : SetInfoRequest) : bool :=
  ((newAttributes r =? INVALID_FILE_ATTRIBUTES) || (newAttributes r =? 0)) &&
  (newCreationTime r =? 0) && (newAccessTime r =? 0) && (newWriteTime r =? 0) &&
  (newAllocation r =? kUnchanged) && (newSize r =? kUnchanged).

(** A size above [LLONG_MAX] that is not [kUnchanged]. *)
Definition size_refused (size : Z) : bool := negb (size =? kUnchanged) && (LLONG_MAX <? size).

Definition set_info_steps (r : SetInfoRequest) : ctx_eff NTSTATUS :=
  (let! c := the_ctx in
   step! EnsureInUpperLayer config (ctx_relativePath c) in
   step! EnsureHandleReady in
   if size_refused (newAllocation r) || size_refused (newSize r) then eret STATUS_INVALID_PARAMETER
   else
     step! (if negb (newAllocation r =? kUnchanged) || negb (newSize r =? kUnchanged)
            then EnsureMetacopyMaterialized config else eret STATUS_SUCCESS) in
     step! (if newAttributes r =? INVALID_FILE_ATTRIBUTES then eret STATUS_SUCCESS
            else SetContextAttributes (newAttributes r)) in
     step! (if (newCreationTime r =? 0) && (newAccessTime r =? 0) && (newWriteTime r =? 0) then eret STATUS_SUCCESS
            else SetContextTimes (newCreationTime r) (newAccessTime r) (newWriteTime r)) in
     step! (if newAllocation r =? kUnchanged then eret STATUS_SUCCESS else SetContextAllocationSize (newAllocation r)) in
     if newSize r =? kUnchanged then eret STATUS_SUCCESS else SetContextEndOfFile (newSize r))%eff.

Definition SetInfo (r : SetInfoRequest) (wantsInfo : bool) : ctx_eff (NTSTATUS * option InternalFileInfo) :=
  then_info
    (step! allow_context OpSetInfo in
     if changesNothing r then EnsureHandleReady else set_info_steps r)%eff
    (info_result config wantsInfo).

(** ** Streams *)

(** What the loop keeps of a stream. *)
Definition stream_info (stream : wstring * Z) : option InternalStreamInfo :=
  if IsUserAlternateStream (fst stream)
  then Some {| streamInfoName := fst stream; streamSize := snd stream; streamAllocation := AllocationSizeFor (snd stream) |}
  else None.

(** The status, and the list that the call leaves. *)
Definition EnumerateStreams (relativePath : wstring) : eff MountState (NTSTATUS * list InternalStreamInfo) :=
  (let! v := WalkCallerPath config relativePath Follow in
   if negb (NT_SUCCESS (viewStatus v)) then eret (viewStatus v, [])
   else
     let! resolved := mlookup (fun d => ResolvePath d config (viewNormalized (view v))) in
     if negb (Found resolved) then eret (STATUS_OBJECT_NAME_NOT_FOUND, [])
     else
       let! found := mlook (fun d => FindStreams d (WithExtendedPrefix (absolutePath resolved))) in
       eret match found with
            | Err e => (if e =? ERROR_HANDLE_EOF then STATUS_SUCCESS else NtStatusFromWin32 e, [])
            | Ok (streams, lastErr) =>
                (if negb (lastErr =? ERROR_HANDLE_EOF) && negb (lastErr =? ERROR_SUCCESS)
                 then NtStatusFromWin32 lastErr else STATUS_SUCCESS,
                 omap stream_info streams)
            end)%eff.

(** ** Security *)

(** [sdBytes] is 0 for a probe without a buffer.  The status,
    [*outAttributes] and [*requiredBytes] where they are set, and the bytes
    copied to the buffer. *)
Definition GetSecurity (relativePath : wstring) (securityInformation : Z) (wantsAttributes : bool) (sdBytes : Z)
  : eff MountState (NTSTATUS * option Z * option Z * list Z) :=
  (let effective := DropSaclWithoutPrivilege securityInformation in
   let! v := WalkCallerPath config relativePath Follow in
   if negb (NT_SUCCESS (viewStatus v)) then eret (viewStatus v, None, None, [])
   else
     let normalized := viewNormalized (view v) in
     let! target := (if bool_decide (normalized = [])
       then eret (Ok (upperPath config, if wantsAttributes then Some FILE_ATTRIBUTE_DIRECTORY else None))
       else
         let! resolved := mlookup (fun d => ResolvePath d config normalized) in
         if negb (Found resolved) then eret (Err STATUS_OBJECT_NAME_NOT_FOUND)
         else if negb wantsAttributes then eret (Ok (absolutePath resolved, None))
         else mlook (fun d => match GetFileAttributesW d (WithExtendedPrefix (absolutePath resolved)) with
                              | Ok attrs => Ok (absolutePath resolved, Some attrs)
                              | Err _ => Err STATUS_OBJECT_NAME_NOT_FOUND
                              end)) in
     match target with
     | Err status => eret (status, None, None, [])
     | Ok (targetPath, attrs) =>
         let isProbe := sdBytes =? 0 in
         if effective =? 0 then eret (STATUS_SUCCESS, attrs, Some 0, [])
         else if negb (ReadsUpperSecurity config) then
           let '(status, required, bytes) := SyntheticSecurity effective isProbe sdBytes in
           eret (status, attrs, required, bytes)
         else
           let! (needed, got) := mlook (fun d => GetFileSecurityBytes d (WithExtendedPrefix targetPath) effective
                                                   (sdBytes mod 2 ^ 32)) in
           eret match got with
                | Ok bytes => (STATUS_SUCCESS, attrs, Some needed, bytes)
                | Err e =>
                    (if e =? ERROR_INSUFFICIENT_BUFFER
                     then if isProbe then STATUS_SUCCESS else STATUS_BUFFER_OVERFLOW
                     else NtStatusFromWin32 e, attrs, Some needed, [])
                end
     end)%eff.

(** The copy-up before a change of an entry by path; [copyFile] copies a file. *)
Definition copy_up_resolved (normalized : wstring) (resolved : ResolvedPath) (copyFile : eff EngineState NTSTATUS)
  : eff MountState NTSTATUS :=
  if negb (bool_decide (source resolved = Lower)) then eret STATUS_SUCCESS
  else if has_attr (attributes resolved) FILE_ATTRIBUTE_DIRECTORY then on_engine (CopyUpDirectory config normalized)
  else on_engine copyFile.

(** The start that the calls which change an entry by its path share: the walk
    of the caller's path and the test of the tracker. *)
Definition prepare_change (relativePath : wstring) (finalLink : FinalLink) (pid : Z) (op : OperationType)
    (k : wstring -> eff MountState NTSTATUS) : eff MountState NTSTATUS :=
  (let! v := WalkCallerPath config relativePath finalLink in
   if negb (NT_SUCCESS (viewStatus v)) then eret (viewStatus v)
   else
     let! isAllowed := check_access pid (viewNormalized (view v)) op in
     if negb isAllowed then eret STATUS_ACCESS_DENIED else k (viewNormalized (view v)))%eff.

Definition SetSecurity (relativePath : wstring) (securityInformation : Z) (sd : security) (callerPid : Z)
  : eff MountState NTSTATUS :=
  prepare_change relativePath Follow callerPid OpSetSecurity (fun normalized =>
    if negb (AppliesSecurityWrites config) then eret STATUS_SUCCESS
    else
      let! resolved := mlookup (fun d => ResolvePath d config normalized) in
      if negb (Found resolved) then eret STATUS_OBJECT_NAME_NOT_FOUND
      else
        step! copy_up_resolved normalized resolved
                (let! copied := CopyUpFileOrShell config normalized kShellAtAnySize in eret (copyStatus copied)) in
        let! set := mio (SetFileSecurityW (WithExtendedPrefix (GetUpperPath config normalized)) securityInformation sd) in
        match set with
        | Err e => eret (NtStatusFromWin32 e)
        | Ok _ => do! invalidate normalized in eret STATUS_SUCCESS
        end)%eff.

(** ** Reparse points *)

Definition reparse_flags : Z := Z.lor FILE_FLAG_OPEN_REPARSE_POINT FILE_FLAG_BACKUP_SEMANTICS.
Definition OpenForReparseRead (path : wstring) : eff MountState (w32 handle) :=
  open_existing path FILE_READ_ATTRIBUTES reparse_flags.
Definition OpenForReparseWrite (path : wstring) : eff MountState (w32 handle) :=
  open_existing path FILE_WRITE_ATTRIBUTES reparse_flags.

(** [bufferBytes] is 0 without a buffer.  The status, [*requiredBytes] where
    it is set, and the bytes copied. *)
Definition GetReparsePoint (relativePath : wstring) (bufferBytes : Z)
  : eff MountState (NTSTATUS * option Z * list Z) :=
  (let! v := WalkCallerPath config relativePath Keep in
   if negb (NT_SUCCESS (viewStatus v)) then eret (viewStatus v, None, [])
   else
     let normalized := viewNormalized (view v) in
     if bool_decide (normalized = []) then eret (STATUS_NOT_A_REPARSE_POINT, None, [])
     else
       let! resolved := mlookup (fun d => ResolvePath d config normalized) in
       if negb (Found resolved) then eret (STATUS_OBJECT_NAME_NOT_FOUND, None, [])
       else if negb (has_attr (attributes resolved) FILE_ATTRIBUTE_REPARSE_POINT)
       then eret (STATUS_NOT_A_REPARSE_POINT, None, [])
       else
         let! opened := OpenForReparseRead (absolutePath resolved) in
         match opened with
         | Err e => eret (NtStatusFromWin32 e, None, [])
         | Ok h =>
             let! got := mlook (fun d => GetReparseData d h) in
             do! mio (CloseHandle h) in
             eret match got with
                  | Err e => (if e =? ERROR_NOT_A_REPARSE_POINT then STATUS_NOT_A_REPARSE_POINT else NtStatusFromWin32 e,
                              None, [])
                  | Ok data =>
                      let returned := Z.of_nat (length data) in
                      if bufferBytes =? 0 then (STATUS_SUCCESS, Some returned, [])
                      else if bufferBytes <? returned then (STATUS_BUFFER_OVERFLOW, Some returned, [])
                      else (STATUS_SUCCESS, Some returned, data)
                  end
         end)%eff.

(** The rest of [SetReparsePoint] and of [DeleteReparsePoint]: a call on the
    upper entry, after its copy-up. *)
Definition change_reparse_point (relativePath : wstring) (callerPid : Z) (call : handle -> eff disk (w32 unit))
  : eff MountState NTSTATUS :=
  prepare_change relativePath Keep callerPid OpSetInfo (fun normalized =>
    let! resolved := mlookup (fun d => ResolvePath d config normalized) in
    if negb (Found resolved) then eret STATUS_OBJECT_NAME_NOT_FOUND
    else
      step! copy_up_resolved normalized resolved (CopyUpFile config normalized) in
      let! opened := OpenForReparseWrite (GetUpperPath config normalized) in
      match opened with
      | Err e => eret (NtStatusFromWin32 e)
      | Ok h =>
          let! done := mio (call h) in
          do! mio (CloseHandle h) in
          match done with
          | Err e => eret (NtStatusFromWin32 e)
          | Ok _ => do! invalidate normalized in eret STATUS_SUCCESS
          end
      end)%eff.

(** A null buffer is an empty one. *)
Definition SetReparsePoint (relativePath : wstring) (buffer : list Z) (callerPid : Z) : eff MountState NTSTATUS :=
  if bool_decide (buffer = []) then eret STATUS_INVALID_PARAMETER
  else if MAXIMUM_REPARSE_DATA_BUFFER_SIZE <? Z.of_nat (length buffer) then eret STATUS_INVALID_PARAMETER
  else change_reparse_point relativePath callerPid (fun h => EntryHost.SetReparsePoint h buffer).

Definition DeleteReparsePoint (relativePath : wstring) (buffer : list Z) (callerPid : Z) : eff MountState NTSTATUS :=
  if bool_decide (buffer = []) then eret STATUS_INVALID_PARAMETER
  else change_reparse_point relativePath callerPid (fun h => DeleteReparse h (take (Z.to_nat (Z.of_nat (length buffer) mod 2 ^ 32)) buffer)).

(** ** The volume *)

Definition GetVolumeInfo (d : disk) : NTSTATUS * option (Z * Z) :=
  match GetDiskFreeSpaceExW d (WithExtendedPrefix (upperPath config)) with
  | Err e => (NtStatusFromWin32 e, None)
  | Ok (total, free) => (STATUS_SUCCESS, Some (total, free))
  end.
End Files.
