(* ===== verification/MountRename.v ===== *)
(** * Deletes, renames and markers of a mount

    [CanDelete], [Delete], [Rename], [UpdateContextPath], [CreateWhiteout] and
    [SetOpaque] of [LayerMount.cpp], with the checks and the routes of a
    rename. *)
From S2P Require Export MountFiles.
Open Scope Z_scope.

Record RenamePaths := { pathsOldNorm : wstring; pathsNewNorm : wstring }.
Record RenameKinds := { kindSource : EntryKind; kindDestination : option EntryKind }.
Record CheckedRename := { checkedKinds : RenameKinds; checkedLinks : RenameLinks }.

Inductive DirectoryRenameRoute := MergeLower | MoveUpper | MoveUpperAndWhiteout.

#[export] Instance route_eq_dec : EqDecision DirectoryRenameRoute.
Proof. solve_decision. Defined.

Record RenameResult := { renamedStatus : NTSTATUS; renamedShell : bool; renamedInLinkTarget : bool }.

Record RenameRequest := {
  oldRelativePath : wstring;
  newRelativePath : wstring;
  replaceIfExists : bool;
  fileReplace : FileRenameReplace
}.

Record MovedSource := {
  movedSourceStatus : NTSTATUS;
  movedSourceShell : bool;
  movedNameOccupied : bool;
  movedRename : UpperRename
}.

Inductive MarkerPath := MarkerAccepted | MarkerRefused.

Section Rename.
Context `{W : Win32} `{J : Json} `{E : CacheEnv} `{P : Processes} `{H : !EntryHost} `{M : !MountHost}.
Context `{T : !Threads} (config : LayerConfig).

(** ** Deletes *)

Definition DirectoryEmptinessStatus (d : disk) (dirNorm : wstring) : NTSTATUS :=
  let merged := MergeDirectoryAcrossLayers d config dirNorm in
  if negb (NT_SUCCESS (mergedStatus merged)) then mergedStatus merged
  else if negb (bool_decide (entries merged = ∅)) then STATUS_DIRECTORY_NOT_EMPTY
  else STATUS_SUCCESS.

Definition CanDeleteEntry (hostNorm suffix : wstring) (callerPid : Z) : eff MountState NTSTATUS :=
  (let! isAllowed := check_access callerPid hostNorm OpDelete in
   if negb isAllowed then eret STATUS_ACCESS_DENIED
   else
     let! resolved := mlookup (fun d => ResolvePath d config hostNorm) in
     if negb (Found resolved) then eret STATUS_OBJECT_NAME_NOT_FOUND
     else if has_attr (attributes resolved) FILE_ATTRIBUTE_READONLY then eret STATUS_CANNOT_DELETE
     else if negb (bool_decide (suffix = [])) then
       if has_attr (attributes resolved) FILE_ATTRIBUTE_DIRECTORY then eret STATUS_FILE_IS_A_DIRECTORY
       else mlook (fun d => if negb (ExistsInUpper d config hostNorm) &&
                               negb (StreamExists d (absolutePath resolved) suffix)
                            then STATUS_OBJECT_NAME_NOT_FOUND else STATUS_SUCCESS)
     else mlook (fun d => match EntryKindOf d (absolutePath resolved) (attributes resolved) with
                          | Err status => status
                          | Ok KDirectory => DirectoryEmptinessStatus d hostNorm
                          | Ok _ => STATUS_SUCCESS
                          end))%eff.

(** The path that a delete names, parsed. *)
Definition with_parsed_path (relativePath : wstring) (k : wstring -> wstring -> eff MountState NTSTATUS)
  : eff MountState NTSTATUS :=
  (let! v := WalkCallerPath config relativePath Keep in
   if negb (NT_SUCCESS (viewStatus v)) then eret (viewStatus v)
   else match TryParseStreamPath (viewNormalized (view v)) with
   | None => eret STATUS_OBJECT_NAME_INVALID
   | Some (hostNorm, suffix) => k hostNorm suffix
   end)%eff.

Definition CanDelete (relativePath : wstring) (callerPid : Z) : eff MountState NTSTATUS :=
  with_parsed_path relativePath (fun hostNorm suffix => CanDeleteEntry hostNorm suffix callerPid).

Definition CanDeleteContext : ctx_eff NTSTATUS :=
  (let! c := the_ctx in
   on_mount (CanDeleteEntry (NormalizePath (ctx_relativePath c)) (ctx_streamSuffix c) (ctx_ownerPid c)))%eff.

Definition RemoveEntry (hostNorm : wstring) : eff MountState NTSTATUS :=
  (step! on_engine (CopyUpLowerLinkAbove config hostNorm) in on_engine (Remove config hostNorm))%eff.

Definition DeleteStreamByPath (hostNorm suffix : wstring) : eff MountState NTSTATUS :=
  (let hostUpperPath := GetUpperPath config hostNorm in
   let! inUpper := mlook (fun d => ExistsInUpper d config hostNorm) in
   step! (if (inUpper : bool) then eret STATUS_SUCCESS else on_engine (CopyUpFile config hostNorm)) in
   let! opened := mlook (fun d => OpenSharedW d (ExtendedStreamPath hostUpperPath suffix) (Z.lor DELETE SYNCHRONIZE)
                                    share_all FILE_FLAG_BACKUP_SEMANTICS) in
   match opened with
   | Err e => eret (NtStatusFromWin32 e)
   | Ok h =>
       step! SetDeleteDispositionAndClose h in
       do! invalidate hostNorm in
       eret STATUS_SUCCESS
   end)%eff.

(** [LayerMount::Delete] of a path. *)
Definition DeletePath (relativePath : wstring) (callerPid : Z) : eff MountState NTSTATUS :=
  with_parsed_path relativePath (fun hostNorm suffix =>
    step! CanDeleteEntry hostNorm suffix callerPid in
    if negb (bool_decide (suffix = [])) then DeleteStreamByPath hostNorm suffix else RemoveEntry hostNorm)%eff.

Definition DeleteStreamOnContext : ctx_eff NTSTATUS :=
  (let! c := the_ctx in
   step! (if bool_decide (ctx_handle c = None) then OpenContextHandleWithAccess (Z.lor DELETE SYNCHRONIZE)
          else eret STATUS_SUCCESS) in
   let! c := the_ctx in
   match ctx_handle c with
   | None => eret STATUS_INVALID_HANDLE
   | Some streamHandle =>
       do! set_ctx (fun c => set_needs_reopen false (set_handle None c)) in
       step! on_mount (SetDeleteDispositionAndClose streamHandle) in
       do! on_mount (invalidate (ctx_relativePath c)) in
       eret STATUS_SUCCESS
   end)%eff.

Definition DeleteContext : ctx_eff NTSTATUS :=
  (step! CanDeleteContext in
   let! c := the_ctx in
   let normalized := NormalizePath (ctx_relativePath c) in
   let isStream := negb (bool_decide (ctx_streamSuffix c = [])) in
   if isStream && ctx_writable c then DeleteStreamOnContext
   else
     do! CloseContextHandle in
     do! set_ctx (set_needs_reopen false) in
     on_mount (if isStream then DeleteStreamByPath normalized (ctx_streamSuffix c) else RemoveEntry normalized))%eff.

(** ** The checks of a rename *)

Definition UnderItselfStatus (d : disk) (sourceKind : EntryKind) (sourceAbsolutePath : wstring) : NTSTATUS :=
  match sourceKind with
  | KDirectory => STATUS_INVALID_PARAMETER
  | KFile => STATUS_OBJECT_PATH_NOT_FOUND
  | KLink => match LinkTargetOf d sourceAbsolutePath with
             | TargetDirectory => STATUS_NOT_SAME_DEVICE
             | TargetNoDirectory => STATUS_OBJECT_PATH_NOT_FOUND
             | TargetFailed failure => failure
             end
  end.

Definition is_directory_kind (k : EntryKind) : bool := match k with KDirectory => true | _ => false end.
Definition is_link_kind (k : EntryKind) : bool := match k with KLink => true | _ => false end.
Definition is_file_kind (k : EntryKind) : bool := match k with KFile => true | _ => false end.

(** The status, and the kind of the destination where it is set. *)
Definition CheckRenameDestination (paths : RenamePaths) (sourceAbsolutePath : wstring) (replace : bool)
    (sourceKind : EntryKind) : eff MountState (NTSTATUS * option EntryKind) :=
  (let underItself := IsInsideDirectory (pathsNewNorm paths) (pathsOldNorm paths) in
   let! underStatus := mlook (fun d => UnderItselfStatus d sourceKind sourceAbsolutePath) in
   if underItself && is_link_kind sourceKind then eret (underStatus, None)
   else
     let! dest := mlookup (fun d => ResolvePath d config (pathsNewNorm paths)) in
     if Found dest && negb replace then eret (STATUS_OBJECT_NAME_COLLISION, None)
     else if underItself then eret (underStatus, None)
     else if negb (Found dest) then eret (STATUS_SUCCESS, None)
     else if IsInsideDirectory (pathsOldNorm paths) (pathsNewNorm paths) then eret (STATUS_DIRECTORY_NOT_EMPTY, None)
     else
       let! kind := mlook (fun d => EntryKindOf d (absolutePath dest) (attributes dest)) in
       match kind with
       | Err status => eret (status, None)
       | Ok destinationKind =>
           if negb (Bool.eqb (is_directory_kind sourceKind) (is_directory_kind destinationKind)) then
             eret (if is_directory_kind sourceKind then STATUS_NOT_A_DIRECTORY else STATUS_FILE_IS_A_DIRECTORY,
                   Some destinationKind)
           else if is_directory_kind sourceKind then
             mlook (fun d => (DirectoryEmptinessStatus d (pathsNewNorm paths), Some destinationKind))
           else eret (STATUS_SUCCESS, Some destinationKind)
       end)%eff.

Definition CheckRenameRequest (paths : RenamePaths) (callerPid : Z) : eff MountState NTSTATUS :=
  (match TryParseStreamPath (pathsOldNorm paths), TryParseStreamPath (pathsNewNorm paths) with
   | Some (_, oldSuffix), Some (_, newSuffix) =>
       if negb (bool_decide (oldSuffix = [])) || negb (bool_decide (newSuffix = []))
       then eret STATUS_INVALID_PARAMETER
       else
         let! reserved := mlook (fun d => IsReservedPath d config (pathsOldNorm paths) ||
                                          IsReservedPath d config (pathsNewNorm paths)) in
         if (reserved : bool) then eret STATUS_ACCESS_DENIED
         else
           let! isAllowed := check_access callerPid (pathsOldNorm paths) OpRename in
           eret (if (isAllowed : bool) then STATUS_SUCCESS else STATUS_ACCESS_DENIED)
   | _, _ => eret STATUS_OBJECT_NAME_INVALID
   end)%eff.

(** [CheckedRename::FileReplace] and [CheckedRename::Aside]. *)
Definition FileReplace (checked : CheckedRename) (replace : bool) : FileRenameReplace :=
  if negb replace then FileReplaceNo
  else if destinationInLinkTarget (checkedLinks checked) && is_file_kind (kindSource (checkedKinds checked)) &&
          match kindDestination (checkedKinds checked) with Some k => is_file_kind k | None => false end
       then InPlace else AfterAside.

Definition Aside (checked : CheckedRename) : DestinationAside :=
  if destinationInLinkTarget (checkedLinks checked) then NextToDestination else WorkDirectory.

Definition unchecked_links : RenameLinks :=
  {| sourceInLinkTarget := false; destinationInLinkTarget := false; lowerLinkToCopyUp := None |}.

(** The status, and [*checked]. *)
Definition CheckRename (paths : RenamePaths) (replace : bool) (callerPid : Z)
  : eff MountState (NTSTATUS * CheckedRename) :=
  (let checked links kinds := {| checkedKinds := kinds; checkedLinks := links |} in
   let noKinds := {| kindSource := KFile; kindDestination := None |} in
   let! request := CheckRenameRequest paths callerPid in
   if negb (NT_SUCCESS request) then eret (request, checked unchecked_links noKinds)
   else
     let! source := mlookup (fun d => ResolvePath d config (pathsOldNorm paths)) in
     if negb (Found source) then eret (STATUS_OBJECT_NAME_NOT_FOUND, checked unchecked_links noKinds)
     else
       let! (boundary, links) := on_engine (CheckRenameLinkBoundary config (pathsOldNorm paths) (pathsNewNorm paths)
                                              unchecked_links) in
       if negb (NT_SUCCESS boundary) then eret (boundary, checked links noKinds)
       else
         let! kind := mlook (fun d => EntryKindOf d (absolutePath source) (attributes source)) in
         match kind with
         | Err status => eret (status, checked links noKinds)
         | Ok sourceKind =>
             if bool_decide (pathsOldNorm paths = pathsNewNorm paths) then
               eret (STATUS_SUCCESS, checked links {| kindSource := sourceKind; kindDestination := None |})
             else
               let! (status, destination) := CheckRenameDestination paths (absolutePath source) replace sourceKind in
               eret (status, checked links {| kindSource := sourceKind; kindDestination := destination |})
         end)%eff.

(** ** The move of the source *)

Definition DirectoryRenameRouteOf (d : disk) (oldNorm : wstring) (sourceKind : EntryKind)
  : nt DirectoryRenameRoute :=
  let lower := ResolveLowerPath d config oldNorm in
  if negb (Found lower) then Ok MoveUpper
  else if negb (ExistsInUpper d config oldNorm) then Ok MergeLower
  else if negb (is_directory_kind sourceKind) || IsOpaque d config oldNorm then Ok MoveUpperAndWhiteout
  else match EntryKindOf d (absolutePath lower) (attributes lower) with
  | Err status => Err status
  | Ok KDirectory => Ok MergeLower
  | Ok _ => Ok MoveUpperAndWhiteout
  end.

Definition RenameFileEntry (request : RenameRequest) (copyUpMode : RenameCopyUp) : eff MountState MovedSource :=
  (let old := NormalizePath (oldRelativePath request) in
   let new := NormalizePath (newRelativePath request) in
   let! lowerHoldsSource := mlook (fun d => Found (ResolveLowerPath d config old)) in
   let! moved := on_engine (MoveToUpper config (oldRelativePath request) (newRelativePath request)
                              (fileReplace request) copyUpMode) in
   let rename := {| oldNorm := old; newNorm := new; oldUpperPath := movedFrom moved; opaqueMarker := UndoKeep |} in
   let result status occupied := {| movedSourceStatus := status; movedSourceShell := movedShell moved;
                                    movedNameOccupied := occupied; movedRename := rename |} in
   if negb (NT_SUCCESS (movedStatus moved)) || negb lowerHoldsSource then eret (result (movedStatus moved) false)
   else
     let! whiteout := on_engine (WhiteOutSource config rename WhiteoutFile) in
     eret (result (stepStatus whiteout) (newNameOccupied whiteout)))%eff.

Definition RenameDirectoryEntry (request : RenameRequest) (sourceKind : EntryKind) (route : DirectoryRenameRoute)
    (rename : UpperRename) : eff MountState RenameStepResult :=
  (let replace := if replaceIfExists request then ReplaceYes else ReplaceNo in
   let! moved := (if bool_decide (route = MergeLower)
     then on_engine (RenameLowerDirectory config (oldRelativePath request) (newRelativePath request) sourceKind replace)
     else
       let! status := on_engine (RenameUpperDirectory config (oldRelativePath request) (newRelativePath request)
                                   sourceKind replace) in
       eret {| stepStatus := status; newNameOccupied := false |}) in
   if bool_decide (route = MoveUpper) || negb (NT_SUCCESS (stepStatus moved)) then eret moved
   else on_engine (WhiteOutSource config rename WhiteoutDirectory))%eff.

Definition MoveRenameSource (request : RenameRequest) (sourceKind : EntryKind) (route : DirectoryRenameRoute)
    (copyUpMode : RenameCopyUp) : eff MountState MovedSource :=
  (match sourceKind with
   | KFile => RenameFileEntry request copyUpMode
   | _ =>
       let old := NormalizePath (oldRelativePath request) in
       let new := NormalizePath (newRelativePath request) in
       let isCaseRename := bool_decide (old = new) in
       let! opaque := mlook (fun d => IsOpaque d config old) in
       let mayMarkSource := negb isCaseRename && is_directory_kind sourceKind &&
                            negb (bool_decide (route = MergeLower)) && negb opaque in
       let! oldUpper := mlook (fun d => GetUpperPathForRenameSource d config (oldRelativePath request)) in
       let rename := {| oldNorm := old; newNorm := new; oldUpperPath := oldUpper;
                        opaqueMarker := if mayMarkSource then UndoRemove else UndoKeep |} in
       let result status occupied := {| movedSourceStatus := status; movedSourceShell := false;
                                        movedNameOccupied := occupied; movedRename := rename |} in
       if isCaseRename then
         let! status := on_engine (RenameDirectoryCase config (oldRelativePath request) (newRelativePath request)
                                     sourceKind) in
         eret (result status false)
       else
         let! moved := RenameDirectoryEntry request sourceKind route rename in
         eret (result (stepStatus moved) (newNameOccupied moved))
   end)%eff.

(** ** The whole rename *)

(** Where the destination of a rename goes before the move: the status, and
    what the local [destinationAside] holds. *)
Definition prepare_destination (newNorm : wstring) (replace : bool) (checked : CheckedRename)
  : eff MountState (NTSTATUS * option HeldAside) :=
  match FileReplace checked replace, kindDestination (checkedKinds checked) with
  | InPlace, Some destination => mlook (fun d => (CheckDestinationReplaceable config d newNorm destination, None))
  | _, Some destination =>
      if replace then on_engine (SetRenameDestinationAside config newNorm destination (Aside checked) None)
      else eret (STATUS_SUCCESS, None)
  | _, None => eret (STATUS_SUCCESS, None)
  end.

Definition RenameCheckedEntry (oldRelativePath newRelativePath : wstring) (replace : bool) (checked : CheckedRename)
    (copyUpMode : RenameCopyUp) : eff MountState RenameResult :=
  (let old := NormalizePath oldRelativePath in
   let new := NormalizePath newRelativePath in
   let kinds := checkedKinds checked in
   let failure status := {| renamedStatus := status; renamedShell := false;
                            renamedInLinkTarget := sourceInLinkTarget (checkedLinks checked) |} in
   (** A failure while [destinationAside] holds the destination. *)
   let undo status occupied aside :=
     do! on_engine (drop_aside config (if (occupied : bool) then Release aside else aside)) in
     eret (failure status) in
   let! linked := on_engine (CopyUpRenameLink config (checkedLinks checked)) in
   if negb (NT_SUCCESS linked) then eret (failure linked)
   else
     let! route := (if negb (is_file_kind (kindSource kinds)) && negb (bool_decide (old = new))
                    then mlook (fun d => DirectoryRenameRouteOf d old (kindSource kinds))
                    else eret (Ok MoveUpper)) in
     match route with
     | Err status => eret (failure status)
     | Ok route =>
         let! (prepared, aside) := prepare_destination new replace checked in
         if negb (NT_SUCCESS prepared) then undo prepared false aside
         else
           let! destHadWhiteout := mlook (fun d => HasWhiteout d new (upperPath config)) in
           let! moved := MoveRenameSource {| oldRelativePath := oldRelativePath; newRelativePath := newRelativePath;
                                             replaceIfExists := replace; fileReplace := FileReplace checked replace |}
                           (kindSource kinds) route copyUpMode in
           if negb (NT_SUCCESS (movedSourceStatus moved))
           then undo (movedSourceStatus moved) (movedNameOccupied moved) aside
           else
             let! removed := (if (destHadWhiteout : bool)
                              then on_engine (RemoveDestinationWhiteoutOrUndo config (movedRename moved))
                              else eret {| stepStatus := STATUS_SUCCESS; newNameOccupied := false |}) in
             if negb (NT_SUCCESS (stepStatus removed)) then undo (stepStatus removed) (newNameOccupied removed) aside
             else
               let! aside := on_engine (Commit config aside) in
               do! invalidate old in
               do! invalidate new in
               do! on_engine (drop_aside config aside) in
               eret {| renamedStatus := STATUS_SUCCESS; renamedShell := movedSourceShell moved;
                       renamedInLinkTarget := sourceInLinkTarget (checkedLinks checked) |}
     end)%eff.

Definition RenameViewPaths (oldRelativePath newRelativePath : wstring) (replace : bool) (callerPid : Z)
  : eff MountState NTSTATUS :=
  (let! (status, checked) := CheckRename {| pathsOldNorm := NormalizePath oldRelativePath;
                                            pathsNewNorm := NormalizePath newRelativePath |} replace callerPid in
   if negb (NT_SUCCESS status) then eret status
   else if bool_decide (NormalizePathPreserveCase oldRelativePath = NormalizePathPreserveCase newRelativePath)
   then eret STATUS_SUCCESS
   else
     let! renamed := RenameCheckedEntry oldRelativePath newRelativePath replace checked ShellWhenPossible in
     eret (renamedStatus renamed))%eff.

(** [LayerMount::Rename] of a path. *)
Definition RenamePath (callerOldPath callerNewPath : wstring) (replace : bool) (callerPid : Z)
  : eff MountState NTSTATUS :=
  (let! oldView := WalkCallerPath config callerOldPath Keep in
   if negb (NT_SUCCESS (viewStatus oldView)) then eret (viewStatus oldView)
   else
     let! newView := WalkCallerPath config callerNewPath Keep in
     if negb (NT_SUCCESS (viewStatus newView)) then eret (viewStatus newView)
     else RenameViewPaths (viewPath (view oldView)) (viewPath (view newView)) replace callerPid)%eff.

(** The part of [Rename] of a context after its check: the handle closes, the
    entry moves, and the context follows it. *)
Definition rename_open_entry (newRelativePath : wstring) (replace : bool) (checked : CheckedRename) : ctx_eff NTSTATUS :=
  (let! c := the_ctx in
   let oldRelativePath := ctx_relativePath c in
   let! sourceWasInUpper := on_mount (mlook (fun d => ExistsInUpper d config (NormalizePath oldRelativePath))) in
   do! CloseContextHandle in
   let copyUpMode := if HasFileDataAccess (ctx_grantedAccess c) then FullCopy else ShellWhenPossible in
   let! renamed := on_mount (RenameCheckedEntry oldRelativePath newRelativePath replace checked copyUpMode) in
   if negb (NT_SUCCESS (renamedStatus renamed)) then
     do! set_ctx (fun now => set_needs_reopen true (set_path (ctx_actualPath c) (ctx_writable now) now)) in
     eret (renamedStatus renamed)
   else
     do! set_ctx (fun now => set_names (NormalizePath newRelativePath) (ctx_streamSuffix now) now) in
     do! set_ctx (set_path (GetUpperPathForNewEntry config newRelativePath) true) in
     do! set_ctx (fun now =>
       let metacopy := if negb sourceWasInUpper && negb (renamedInLinkTarget renamed) then renamedShell renamed
                       else ctx_isMetacopyOnly now in
       set_needs_reopen true (set_metacopy metacopy now)) in
     eret STATUS_SUCCESS)%eff.

(** [LayerMount::Rename] of a context. *)
Definition RenameContext (callerNewPath : wstring) (replace : bool) (callerPid : Z) : ctx_eff NTSTATUS :=
  (let! newView := on_mount (WalkCallerPath config callerNewPath Keep) in
   if negb (NT_SUCCESS (viewStatus newView)) then eret (viewStatus newView)
   else
     let newRelativePath := viewPath (view newView) in
     let! c := the_ctx in
     let oldRelativePath := ctx_relativePath c in
     if bool_decide (NormalizePathPreserveCase oldRelativePath = NormalizePathPreserveCase newRelativePath)
     then on_mount (RenameViewPaths oldRelativePath newRelativePath replace callerPid)
     else
       let! (status, checked) := on_mount (CheckRename {| pathsOldNorm := NormalizePath oldRelativePath;
                                                          pathsNewNorm := NormalizePath newRelativePath |}
                                             replace callerPid) in
       if negb (NT_SUCCESS status) then eret status
       else rename_open_entry newRelativePath replace checked)%eff.

Definition UpdateContextPath (callerNewPath : wstring) : ctx_eff NTSTATUS :=
  (let! newView := on_mount (WalkCallerPath config callerNewPath Keep) in
   if negb (NT_SUCCESS (viewStatus newView)) then eret (viewStatus newView)
   else
     let newRelativePath := viewPath (view newView) in
     match TryParseStreamPath (viewNormalized (view newView)) with
     | None => eret STATUS_INVALID_PARAMETER
     | Some (newHostNorm, newStreamSuffix) =>
         let! reserved := on_mount (mlook (fun d => IsReservedPath d config newHostNorm)) in
         let! c := the_ctx in
         if (reserved : bool) then eret STATUS_INVALID_PARAMETER
         else if bool_decide (ctx_relativePath c = newHostNorm) && bool_decide (ctx_streamSuffix c = newStreamSuffix)
         then eret STATUS_SUCCESS
         else
           do! CloseContextHandle in
           do! set_ctx (set_names newHostNorm newStreamSuffix) in
           let newRelativeHostPreserved :=
             if bool_decide (newStreamSuffix = []) then newRelativePath
             else let preserved := NormalizePathPreserveCase newRelativePath in
                  take (length preserved - length newStreamSuffix)%nat preserved in
           do! set_ctx (fun c =>
             set_needs_reopen true
               (set_path (GetUpperPathForNewEntry config newRelativeHostPreserved ++ newStreamSuffix)
                  (ctx_writable c) c)) in
           eret STATUS_SUCCESS
     end)%eff.

(** ** The markers of a caller *)

Definition AcceptsMarker (path : ViewPath) : bool :=
  IsSafeRelativePath (viewNormalized path) && negb (IsReservedRelativePath (viewNormalized path)).

(** A marker call: the status, and [*markerPath]. *)
Definition with_marker_path (relativePath : wstring) (mark : wstring -> eff UpperState NTSTATUS)
  : eff MountState (NTSTATUS * MarkerPath) :=
  (let! v := WalkCallerPath config relativePath Keep in
   if negb (NT_SUCCESS (viewStatus v)) then eret (viewStatus v, MarkerAccepted)
   else if negb (AcceptsMarker (view v)) then eret (STATUS_OBJECT_NAME_INVALID, MarkerRefused)
   else
     let! status := on_engine (on_markers (mark (viewPath (view v)))) in
     eret (status, MarkerAccepted))%eff.

(** [LayerMount::CreateWhiteout] and [LayerMount::SetOpaque]. *)
Definition CreateViewWhiteout (relativePath : wstring) (type : WhiteoutType)
  : eff MountState (NTSTATUS * MarkerPath) :=
  with_marker_path relativePath (fun path => CreateWhiteout config path type).

Definition SetViewOpaque (dirRelativePath : wstring) : eff MountState (NTSTATUS * MarkerPath) :=
  with_marker_path dirRelativePath (SetOpaque config).
End Rename.
