(* ===== verification/Config.v ===== *)
(** * The configuration of an overlay

    [LayerConfig::Validate] and [LayerConfig::Prepare] of [LayerMount.cpp], the
    constructor of [LayerMount], and the switch of its process tracker.

    [LayerConfig] of [Metadata] holds the paths and the capabilities, which the
    operations read; [OverlayConfig] adds the fields that only the constructor
    and the tracker read.  A [HostPath] is its text, and [ForWin32] is
    [WithExtendedPrefix]. *)
From S2P Require Export Mount WorkDirectory.
Open Scope Z_scope.

Record OverlayConfig := {
  layerConfig : LayerConfig;
  processRulesPath : wstring;
  enableProcessTracking : bool;
  accessLogCapacity : nat;
  pathCacheCapacity : nat
}.

(** [wideSerial] is [None] when the file system refuses the [FileIdInfo]
    query. *)
Record VolumeSerial := { serial : Z; wideSerial : option Z }.

(** The rules file of a path: whether it opens, and the JSON value that is
    read from it, as [LoadRules] takes them. *)
Class RulesFiles `{W : Win32} := { rules_file : disk -> wstring -> option (option json) }.

Section Config.
Context `{W : Win32} `{J : Json} `{E : CacheEnv} `{P : Processes} `{H : !EntryHost} `{M : !MountHost}.
Context `{R : !RulesFiles}.

(** ** [Validate] *)

(** The probe is deleted when its handle closes. *)
Definition UpperIsWritable (upperPath : wstring) : eff disk bool :=
  (let probePath := JoinDirPath (WithExtendedPrefix upperPath) (L ".layermount_write_test") in
   let! probe := CreateFileW probePath GENERIC_WRITE 0 CREATE_NEW
                   (Z.lor FILE_ATTRIBUTE_TEMPORARY FILE_FLAG_DELETE_ON_CLOSE) in
   match probe with
   | Err _ => eret false
   | Ok h => do! CloseHandle h in eret true
   end)%eff.

(** The lines for the debugger. *)
Definition WarnWhenUpperLacksAds (d : disk) (upperPath : wstring) : list wstring :=
  match GetFileSystemName d (WithExtendedPrefix upperPath) with
  | None => []
  | Some fsName =>
      if negb (wcsicmp_eq fsName (L "NTFS")) && negb (wcsicmp_eq fsName (L "ReFS"))
      then [L "[LayerMount] WARNING: Upper layer is not on NTFS/ReFS. " ++
            L "NTFS Alternate Data Streams (ADS) will not be available." ++ [10]]
      else []
  end.

(** What is wrong with a layer that is no directory. *)
Definition layer_error (d : disk) (layer path : wstring) : option wstring :=
  match GetFileAttributesW d (WithExtendedPrefix path) with
  | Err _ => Some (layer ++ L " layer path does not exist: " ++ path)
  | Ok attrs =>
      if negb (has_attr attrs FILE_ATTRIBUTE_DIRECTORY)
      then Some (layer ++ L " layer path is not a directory: " ++ path) else None
  end.

(** The first lower with an error. *)
Fixpoint lowers_error (d : disk) (lowers : list wstring) : option wstring :=
  match lowers with
  | [] => None
  | lower :: rest =>
      match layer_error d (L "Lower") lower with Some error => Some error | None => lowers_error d rest end
  end.

(** [None] and the lines for the debugger, or the message of a failure. *)
Definition Validate (config : LayerConfig) : eff disk (option wstring * list wstring) :=
  (let! upperError := eread (fun d => layer_error d (L "Upper") (upperPath config)) in
   match upperError with
   | Some error => eret (Some error, [])
   | None =>
       let! writable := UpperIsWritable (upperPath config) in
       if negb writable then eret (Some (L "Upper layer is not writable: " ++ upperPath config), [])
       else
         let! lowerError := eread (fun d => lowers_error d (lowerPaths config)) in
         match lowerError with
         | Some error => eret (Some error, [])
         | None =>
             let! warnings := eread (fun d => WarnWhenUpperLacksAds d (upperPath config)) in
             eret (None, warnings)
         end
   end)%eff.

(** ** [Prepare] *)

Definition ReadVolumeSerial (d : disk) (path : wstring) : option VolumeSerial :=
  match OpenExistingW d (WithExtendedPrefix path) FILE_READ_ATTRIBUTES FILE_FLAG_BACKUP_SEMANTICS with
  | Err _ => None
  | Ok directory =>
      match GetVolumeSerial d directory with
      | Err _ => None
      | Ok serial =>
          Some {| serial := serial;
                  wideSerial := match GetWideSerial d directory with Ok wide => Some wide | Err _ => None end |}
      end
  end.

Definition OnOneVolume (a b : VolumeSerial) : bool :=
  match wideSerial a, wideSerial b with
  | Some wideA, Some wideB => wideA =? wideB
  | _, _ => serial a =? serial b
  end.

(** The result and the message of a failure. *)
Definition Prepare (config : LayerConfig) : eff disk (Z * wstring) :=
  (if bool_decide (workDirPath config = []) then eret (E_FAIL, L "Work directory path is empty")
   else
     let (layout, error) := CheckLayout config in
     if FAILED layout then eret (layout, error)
     else
       let! made := EnsureDirectoryExists (WithExtendedPrefix (workDirPath config)) in
       if negb made then eret (E_FAIL, L "Failed to create work directory: " ++ workDirPath config)
       else
         let! upper := eread (fun d => ReadVolumeSerial d (upperPath config)) in
         match upper with
         | None => eret (E_FAIL, L "Failed to read the volume of the upper layer: " ++ upperPath config)
         | Some upperVolume =>
             let! work := eread (fun d => ReadVolumeSerial d (workDirPath config)) in
             match work with
             | None => eret (E_FAIL, L "Failed to read the volume of the work directory: " ++ workDirPath config)
             | Some workVolume =>
                 if negb (OnOneVolume upperVolume workVolume) then
                   eret (E_INVALIDARG,
                         L "Work directory is not on the volume of the upper layer: " ++ workDirPath config)
                 else eret (S_OK, [])
             end
         end)%eff.

(** ** The tracker *)

(** A tracker; nothing when the rules did not load; or the exception of a
    rule that is not what the JSON library expects. *)
Inductive made_tracker := TrackerMade (t : ProcessTracker) | RulesNotLoaded | RulesThrow.

Definition TryMakeProcessTracker (config : OverlayConfig) (d : disk) : made_tracker :=
  let tracker := new_tracker (accessLogCapacity config) in
  if bool_decide (processRulesPath config = []) then TrackerMade tracker
  else match LoadRules (rules_file d (processRulesPath config)) tracker with
       | (_, LoadThrows) => RulesThrow
       | (_, LoadReturns false) => RulesNotLoaded
       | (tracker, LoadReturns true) => TrackerMade tracker
       end.

(** [SetProcessTrackerEnabled]: [None] when making the tracker throws.  The
    rules are read without the lock: [others] is the tracker that the other
    threads leave meanwhile. *)
Definition SetProcessTrackerEnabled (config : OverlayConfig) (others : option ProcessTracker -> option ProcessTracker)
    (enabled : bool) (d : disk) : eff (option ProcessTracker) (option Z) := fun current =>
  if enabled then
    match current with
    | Some _ => (current, Some S_OK)
    | None =>
        let candidate := TryMakeProcessTracker config d in
        let current := others current in
        match candidate with
        | RulesThrow => (current, None)
        | RulesNotLoaded => (current, Some (hresult_from_win32 ERROR_INVALID_DATA))
        | TrackerMade t => (Some (match current with Some t' => t' | None => t end), Some S_OK)
        end
    end
  else (None, Some S_OK).

(** ** The constructor *)

(** [LayerMount::LayerMount]: the engine without events, counts or
    reservations; or what it throws. *)
Inductive made_mount := MountMade (s : MountState) | MountThrowsRules | MountThrowsJson.

Definition no_stats : LayerMountStats :=
  {| readCount := 0; writeCount := 0; activeHandles := 0; bytesRead := 0; bytesWritten := 0 |}.

Definition new_engine (config : OverlayConfig) (d : disk) (debug : list wstring) : EngineState := {|
  engineDisk := d;
  lookups := {| cache := new_cache (pathCacheCapacity config); debugOutput := debug |};
  events := []; workCounter := 0; copyUpCount := 0; inFlightCopyUps := ∅; fillFailure := None |}.

Definition new_mount (config : OverlayConfig) (d : disk) (debug : list wstring) : made_mount :=
  let mount tracker := MountMade {|
    engine := new_engine config d debug; tracker := tracker; stats := no_stats;
    upperFinalPath := FinalPathOfDirectory d (upperPath (layerConfig config)) |} in
  if enableProcessTracking config then
    match TryMakeProcessTracker config d with
    | TrackerMade t => mount (Some t)
    | RulesNotLoaded => MountThrowsRules
    | RulesThrow => MountThrowsJson
    end
  else mount None.
End Config.
