(* ===== verification/Descriptor.v ===== *)
(** * A caller's security descriptor

    [IsValidBoundedSecurityDescriptor] of [AbiFile.cpp], which checks that a
    self-relative descriptor lies in the caller's buffer before the Win32
    calls, which take no length, read it.

    The buffer holds exactly the bytes that the caller states.  A read of the
    source outside of them is [None], so that the theorem can say that there
    is none: not by the check itself, and not by a Win32 call after it. *)
From S2P Require Export Prelude.
Open Scope Z_scope.

Definition SE_DACL_PRESENT : Z := 0x4.
Definition SE_SACL_PRESENT : Z := 0x10.
Definition SE_SELF_RELATIVE : Z := 0x8000.

(** [offsetof(SID, SubAuthority)], [offsetof(SID, SubAuthorityCount)],
    [sizeof(ACL)], [offsetof(ACL, AclSize)]. *)
Definition kAbsentPartOffset : Z := 0.
Definition kMinSidHeader : Z := 8.
Definition kSubAuthorityCountOffset : Z := 1.
Definition kMinAclHeader : Z := 8.
Definition kAclSizeOffset : Z := 2.

(** The fields of [SECURITY_DESCRIPTOR_RELATIVE]. *)
Definition kSelfRelativeHeaderBytes : Z := 20.
Definition kControlOffset : Z := 2.
Definition kOwnerOffset : Z := 4.
Definition kGroupOffset : Z := 8.
Definition kSaclOffset : Z := 12.
Definition kDaclOffset : Z := 16.

(** The calls on a descriptor that is in memory. *)
Class DescriptorCalls := {
  IsValidSecurityDescriptor : list Z -> bool;
  GetSecurityDescriptorLength : list Z -> Z
}.

(** An unsigned field of so many bytes at an offset. *)
Definition read_field (buf : list Z) (off : Z) (width : nat) : option Z :=
  if (0 <=? off) && (off + Z.of_nat width <=? Z.of_nat (length buf))
  then Some (le_field buf (Z.to_nat off) width) else None.

Section Descriptor.
Context `{D : DescriptorCalls}.

(** [bytes - off] is only taken where it does not wrap. *)
Definition PartHeaderFitsAt (bytes off headerBytes : Z) : bool :=
  (off <? bytes) && (headerBytes <=? bytes - off).

Definition SidFitsAt (buf : list Z) (off : Z) : option bool :=
  let bytes := Z.of_nat (length buf) in
  if off =? kAbsentPartOffset then Some true
  else if negb (PartHeaderFitsAt bytes off kMinSidHeader) then Some false
  else
    subAuthorityCount ← read_field buf (off + kSubAuthorityCountOffset) 1;
    let sidBytes := kMinSidHeader + 4 * subAuthorityCount in
    Some (sidBytes <=? bytes - off).

Definition AclFitsAt (buf : list Z) (off : Z) : option bool :=
  let bytes := Z.of_nat (length buf) in
  if off =? kAbsentPartOffset then Some true
  else if negb (PartHeaderFitsAt bytes off kMinAclHeader) then Some false
  else
    aclSize ← read_field buf (off + kAclSizeOffset) 2;
    Some ((kMinAclHeader <=? aclSize) && (aclSize <=? bytes - off)).

(** [fits1] then [fits2], which only runs when the first is true. *)
Definition and_then (a : option bool) (b : option bool) : option bool :=
  first ← a; if (first : bool) then b else Some false.

(** A null buffer is [None]. *)
Definition IsValidBoundedSecurityDescriptor (buf : option (list Z)) : option bool :=
  match buf with
  | None => Some false
  | Some buf =>
      let bytes := Z.of_nat (length buf) in
      if bytes <? kSelfRelativeHeaderBytes then Some false
      else
        control ← read_field buf kControlOffset 2;
        if negb (negb (Z.land control SE_SELF_RELATIVE =? 0)) then Some false
        else
          let saclPresent := negb (Z.land control SE_SACL_PRESENT =? 0) in
          let daclPresent := negb (Z.land control SE_DACL_PRESENT =? 0) in
          let readDword offset := read_field buf offset 4 in
          owner ← readDword kOwnerOffset;
          group ← readDword kGroupOffset;
          sacl ← readDword kSaclOffset;
          dacl ← readDword kDaclOffset;
          and_then (SidFitsAt buf owner)
            (and_then (SidFitsAt buf group)
              (and_then (if saclPresent then AclFitsAt buf sacl else Some true)
                (and_then (if daclPresent then AclFitsAt buf dacl else Some true)
                  (if negb (IsValidSecurityDescriptor buf) then Some false
                   else
                     let sdLen := GetSecurityDescriptorLength buf in
                     if sdLen =? 0 then Some false
                     else if bytes <? sdLen then Some false
                     else Some true))))
  end.

(** ** What the Win32 calls read

    The documented layout: the header, a SID of as many authorities as its
    count says at each offset that is not zero, and an ACL of its [AclSize]
    at each offset that is not zero and whose flag is set. *)

Definition field (buf : list Z) (off : Z) (width : nat) : Z := le_field buf (Z.to_nat off) width.

Definition sid_part (buf : list Z) (off : Z) : list (Z * Z) :=
  if off =? 0 then [] else [(off, 8 + 4 * field buf (off + 1) 1)].

Definition acl_part (buf : list Z) (present : bool) (off : Z) : list (Z * Z) :=
  if negb present || (off =? 0) then [] else [(off, Z.max 8 (field buf (off + 2) 2))].

(** The offset and the length of every part. *)
Definition parts_read (buf : list Z) : list (Z * Z) :=
  let control := field buf 2 2 in
  (0, 20) :: sid_part buf (field buf 4 4) ++ sid_part buf (field buf 8 4) ++
  acl_part buf (negb (Z.land control 0x10 =? 0)) (field buf 12 4) ++
  acl_part buf (negb (Z.land control 0x4 =? 0)) (field buf 16 4).

(** Every ACL that is read has at least its header. *)
Definition acl_sized (buf : list Z) (present : bool) (off : Z) : Prop :=
  present = true -> off <> 0 -> 8 <= field buf (off + 2) 2.

Definition acls_sized (buf : list Z) : Prop :=
  acl_sized buf (negb (Z.land (field buf 2 2) SE_SACL_PRESENT =? 0)) (field buf 12 4) /\
  acl_sized buf (negb (Z.land (field buf 2 2) SE_DACL_PRESENT =? 0)) (field buf 16 4).

Definition part_inside (buf : list Z) (part : Z * Z) : Prop :=
  0 <= fst part /\ 0 <= snd part /\ fst part + snd part <= Z.of_nat (length buf).

(** ** Lemmas *)

Lemma field_bytes buf off width :
  Forall is_byte buf -> 0 <= field buf off width < 256 ^ Z.of_nat width.
Proof.
  intros Hb. unfold field, le_field.
  assert (Hf : Forall is_byte (take width (drop (Z.to_nat off) buf))) by (by apply Forall_take, Forall_drop).
  pose proof (le_decode_bound _ Hf) as Hd. rewrite length_take in Hd.
  assert (256 ^ Z.of_nat (width `min` length (drop (Z.to_nat off) buf)) <= 256 ^ Z.of_nat width)
    by (apply Z.pow_le_mono_r; lia). lia.
Qed.

Lemma read_field_in buf off width :
  0 <= off -> off + Z.of_nat width <= Z.of_nat (length buf) -> read_field buf off width = Some (field buf off width).
Proof.
  intros H1 H2. unfold read_field. by rewrite (proj2 (Z.leb_le 0 off) H1), (proj2 (Z.leb_le _ _) H2).
Qed.

Lemma part_header_fits bytes off n : PartHeaderFitsAt bytes off n = true <-> off < bytes /\ n <= bytes - off.
Proof. unfold PartHeaderFitsAt. by rewrite andb_true_iff, Z.ltb_lt, Z.leb_le. Qed.

(** Each check answers, and says whether its part is inside. *)
Lemma SidFitsAt_spec buf off :
  Forall is_byte buf -> 0 <= off ->
  exists b, SidFitsAt buf off = Some b /\ (b = true <-> Forall (part_inside buf) (sid_part buf off)).
Proof.
  intros Hb Ho. unfold SidFitsAt, sid_part, kAbsentPartOffset.
  destruct (Z.eqb_spec off 0) as [->|Hne]; [by exists true|].
  setoid_rewrite Forall_singleton. unfold part_inside. cbn [fst snd].
  pose proof (field_bytes buf (off + 1) 1 Hb) as Hf.
  destruct (PartHeaderFitsAt _ off kMinSidHeader) eqn:Eh; cbn [negb].
  - apply part_header_fits in Eh as [H1 H2]. unfold kMinSidHeader, kSubAuthorityCountOffset in *.
    rewrite read_field_in by lia. cbn. eexists. split; [done|]. rewrite Z.leb_le. lia.
  - exists false. split; [done|]. split; [done|]. intros (_ & _ & H).
    apply not_true_iff_false in Eh. exfalso. apply Eh, part_header_fits. unfold kMinSidHeader. lia.
Qed.

Lemma AclFitsAt_spec buf present off :
  Forall is_byte buf -> 0 <= off ->
  exists b, (if (present : bool) then AclFitsAt buf off else Some true) = Some b /\
    (b = true <-> Forall (part_inside buf) (acl_part buf present off) /\ acl_sized buf present off).
Proof.
  intros Hb Ho. unfold AclFitsAt, acl_part, acl_sized, kAbsentPartOffset.
  destruct present; cbn [negb orb]; [|exists true; naive_solver].
  destruct (Z.eqb_spec off 0) as [->|Hne]; [exists true; naive_solver|].
  setoid_rewrite Forall_singleton. unfold part_inside. cbn [fst snd].
  destruct (PartHeaderFitsAt _ off kMinAclHeader) eqn:Eh; cbn [negb].
  - apply part_header_fits in Eh as [H1 H2]. unfold kMinAclHeader, kAclSizeOffset in *.
    rewrite read_field_in by lia. cbn. eexists. split; [done|]. rewrite andb_true_iff, !Z.leb_le.
    split; [intros []; split; [lia|intros _ _; lia]|intros [? Hs]; specialize (Hs eq_refl Hne); lia].
  - exists false. split; [done|]. split; [done|]. intros [(_ & _ & H) _].
    apply not_true_iff_false in Eh. exfalso. apply Eh, part_header_fits. unfold kMinAclHeader. lia.
Qed.

Lemma and_then_spec a b (p : Prop) :
  (exists x, b = Some x /\ (x = true <-> p)) -> forall q, (exists x, a = Some x /\ (x = true <-> q)) ->
  exists x, and_then a b = Some x /\ (x = true <-> q /\ p).
Proof.
  intros (x & -> & Hx) q (y & -> & Hy). unfold and_then. cbn. destruct y; eexists; (split; [done|]); naive_solver.
Qed.

Lemma win32_checks buf :
  exists x,
    (if negb (IsValidSecurityDescriptor buf) then Some false
     else if GetSecurityDescriptorLength buf =? 0 then Some false
     else if Z.of_nat (length buf) <? GetSecurityDescriptorLength buf then Some false else Some true) = Some x /\
    (x = true <-> IsValidSecurityDescriptor buf = true /\ GetSecurityDescriptorLength buf <> 0 /\
                  GetSecurityDescriptorLength buf <= Z.of_nat (length buf)).
Proof.
  destruct (IsValidSecurityDescriptor buf); cbn [negb]; [|exists false; naive_solver].
  destruct (Z.eqb_spec (GetSecurityDescriptorLength buf) 0); [exists false; naive_solver|].
  destruct (Z.ltb_spec (Z.of_nat (length buf)) (GetSecurityDescriptorLength buf)); eexists; (split; [done|]); split; intros; [done|lia|split_and!; [done|done|lia]|done].
Qed.

(** C24: the check of a descriptor reads no byte outside of the caller's
    buffer.  It accepts exactly the self-relative descriptors whose parts all
    lie in the buffer, whose present ACLs have at least their header, and which
    Win32 finds valid, so the calls that read an accepted descriptor without a
    length stay inside the buffer. *)
Theorem IsValidBoundedSecurityDescriptor_bounds buf :
  Forall is_byte buf ->
  exists accepted, IsValidBoundedSecurityDescriptor (Some buf) = Some accepted /\
    (accepted = true <->
     Z.land (field buf 2 2) SE_SELF_RELATIVE <> 0 /\
     Forall (part_inside buf) (parts_read buf) /\ acls_sized buf /\
     IsValidSecurityDescriptor buf = true /\
     GetSecurityDescriptorLength buf <> 0 /\ GetSecurityDescriptorLength buf <= Z.of_nat (length buf)).
Proof.
  intros Hb. unfold IsValidBoundedSecurityDescriptor, parts_read, acls_sized. setoid_rewrite Forall_cons. setoid_rewrite Forall_app. setoid_rewrite Forall_app. setoid_rewrite Forall_app.
  unfold part_inside at 1. cbn [fst snd]. unfold kSelfRelativeHeaderBytes.
  destruct (Z.ltb_spec (Z.of_nat (length buf)) 20) as [Hl|Hl]; [exists false; split; [done|]; split; [done|lia]|].
  unfold kControlOffset, kOwnerOffset, kGroupOffset, kSaclOffset, kDaclOffset.
  rewrite !read_field_in by lia. cbn [mbind option_bind]. change 0x10 with SE_SACL_PRESENT. change 0x4 with SE_DACL_PRESENT.
  destruct (Z.eqb_spec (Z.land (field buf 2 2) SE_SELF_RELATIVE) 0) as [->|Hrel]; cbn [negb]; [exists false; naive_solver|].
  assert (Hpos : forall off, 0 <= field buf off 4) by (intros off; by apply field_bytes).
  edestruct and_then_spec as (b & -> & Hiff); [|by apply SidFitsAt_spec|].
  { eapply and_then_spec; [|by apply SidFitsAt_spec]. eapply and_then_spec; [|by apply AclFitsAt_spec].
    eapply and_then_spec; [|by apply AclFitsAt_spec]. apply win32_checks. }
  exists b. split; [done|]. rewrite Hiff. intuition lia.
Qed.
End Descriptor.

(** ** A descriptor with an owner *)

(** A host that finds every descriptor valid and as long as its buffer. *)
#[export] Instance mem_descriptor_calls : DescriptorCalls := {|
  IsValidSecurityDescriptor := fun _ => true;
  GetSecurityDescriptorLength := fun buf => Z.of_nat (length buf)
|}.

(** The header, and a SID of so many authorities. *)
Definition owner_descriptor (authorities : Z) : list Z :=
  [1; 0; 0; 128; 20; 0; 0; 0; 0; 0; 0; 0; 0; 0; 0; 0; 0; 0; 0; 0] ++ [1; authorities; 0; 0; 0; 0; 0; 1; 0; 0; 0; 0].

Example owner_accepted :
  IsValidBoundedSecurityDescriptor (Some (owner_descriptor 1)) = Some true /\
  IsValidBoundedSecurityDescriptor (Some (owner_descriptor 2)) = Some false /\
  IsValidBoundedSecurityDescriptor (Some (take 27 (owner_descriptor 0))) = Some false.
Proof. vm_compute. done. Qed.

Lemma IsValidBoundedSecurityDescriptor_bounds_witness :
  Forall is_byte (owner_descriptor 2) /\
  ~ Forall (part_inside (owner_descriptor 2)) (parts_read (owner_descriptor 2)) /\
  Forall (part_inside (owner_descriptor 1)) (parts_read (owner_descriptor 1)).
Proof.
  assert (Hb : forall n, n = 1 \/ n = 2 -> Forall is_byte (owner_descriptor n)).
  { intros n [-> | ->]; unfold owner_descriptor, is_byte; repeat constructor; lia. }
  split_and!; [apply Hb; by right| |].
  - destruct (IsValidBoundedSecurityDescriptor_bounds (owner_descriptor 2)) as (b & Hr & Hiff); [apply Hb; by right|].
    replace b with false in Hiff by (vm_compute in Hr; congruence). intros Hp.
    assert (false = true); [|done]. apply Hiff. split_and!; [by vm_compute|done|split; intros ?; by vm_compute|done|by vm_compute|done].
  - destruct (IsValidBoundedSecurityDescriptor_bounds (owner_descriptor 1)) as (b & Hr & Hiff); [apply Hb; by left|].
    replace b with true in Hiff by (vm_compute in Hr; congruence). by apply Hiff.
Defined.
