(* ===== verification/ErrorTls.v ===== *)
(** * The error state of a thread, and the guard of the C interface

    [ErrorTls.cpp]: the HRESULT and the message of the last failure and the
    mark of a failed fill.  [AbiGuard.h]: the exceptions that an export turns
    into an HRESULT.  [LayerMountHResultToNtStatus] of [AbiCore.cpp], and the
    two-call pattern for text that [Last], [EmitWString] and the fields of the
    public structs share.

    A buffer of the caller is its number of characters, [None] for a null
    pointer; what a call stores in it ends with its NUL.  An HRESULT is its
    unsigned value. *)
From S2P Require Export MountHost WorkDirectory.
Open Scope Z_scope.

Definition E_HANDLE : Z := 0x80070006.
Definition E_POINTER : Z := 0x80004003.
Definition E_OUTOFMEMORY : Z := 0x8007000E.
Definition E_UNEXPECTED : Z := 0x8000FFFF.
Definition E_ILLEGAL_METHOD_CALL : Z := 0x8000000E.
Definition E_ABORT : Z := 0x80004004.
Definition E_NOTIMPL : Z := 0x80004001.
Definition FACILITY_WIN32 : Z := 7.
Definition FACILITY_NT_BIT : Z := 0x10000000.
Definition ERROR_MORE_DATA : Z := 234.

Definition STATUS_INVALID_DEVICE_STATE := ST "INVALID_DEVICE_STATE".
Definition STATUS_NOT_IMPLEMENTED := ST "NOT_IMPLEMENTED".

(** ** The state *)

Record ErrorTls := Tls { lastHr : Z; lastMessage : wstring; lastFailureWasFill : bool }.

Definition no_error : ErrorTls := Tls S_OK [] false.

(** [Set] and [SetFillFailure].  The message is copied to its first NUL. *)
Definition SetError (hr : Z) (message : wstring) (t : ErrorTls) : ErrorTls :=
  Tls hr (c_str message) (lastFailureWasFill t).

Definition SetFillFailure (hr : Z) (message : wstring) (t : ErrorTls) : ErrorTls :=
  Tls hr (c_str message) true.

Definition ClearFillFailure (t : ErrorTls) : ErrorTls := Tls (lastHr t) (lastMessage t) false.

(** ** Text for the caller *)

(** The capacity that counts: none for a null pointer or for no room. *)
Definition caller_capacity (buffer : option Z) : option Z :=
  match buffer with
  | None => None
  | Some chars => if chars =? 0 then None else Some chars
  end.

(** The result and what is stored.  The required size counts the NUL. *)
Definition emit_text (src : wstring) (buffer : option Z) : Z * option wstring :=
  let requiredChars := Z.of_nat (length src) + 1 in
  match caller_capacity buffer with
  | None => (S_OK, None)
  | Some bufferChars =>
      if bufferChars <? requiredChars then (hresult_from_win32 ERROR_MORE_DATA, None)
      else (S_OK, Some (src ++ [0]))
  end.

(** [EmitWString]: the result, [*bufferRequired], and what is stored. *)
Definition EmitWString (src : wstring) (buffer : option Z) : Z * Z * option wstring :=
  let (hr, stored) := emit_text src buffer in (hr, Z.of_nat (length src) + 1, stored).

(** [Last]: the result, [*requiredChars] when it is not null, and what is
    stored. *)
Definition Last (hr : Z) (buffer : option Z) (hasRequired : bool) (t : ErrorTls) : Z * option Z * option wstring :=
  if negb hasRequired then (E_POINTER, None, None)
  else if negb (hr =? lastHr t) then
    (S_OK, Some 0, match caller_capacity buffer with Some _ => Some [0] | None => None end)
  else
    let (result, stored) := emit_text (lastMessage t) buffer in
    (result, Some (Z.of_nat (length (lastMessage t)) + 1), stored).

(** [FillCallerWString] of [AbiImage.cpp]: [*Chars], [*Required] and what is
    stored in a field of a public struct whose buffer has so many
    characters. *)
Definition FillCallerWString (src : wstring) (buffer : option Z) : Z * Z * option wstring :=
  let requiredChars := Z.of_nat (length src) + 1 in
  match buffer with
  | None => (0, requiredChars, None)
  | Some chars =>
      if chars <? requiredChars then (0, requiredChars, None)
      else (requiredChars, requiredChars, Some (src ++ [0]))
  end.

(** ** Exceptions *)

(** What the body of an export can throw; a narrow text is its UTF-8 bytes. *)
Inductive abi_exception :=
| AbiException (hr : Z) (message : wstring)
| BadAlloc
| SystemError (inSystemCategory : bool) (code : Z) (what : list Z)
| InvalidArgument (what : list Z)
| OutOfRange (what : list Z)
| StdException (what : list Z)
| UnknownException.

Section Guard.
Context `{W : Win32} `{H : !EntryHost}.

Definition WidenUtf8 (utf8 : list Z) : wstring :=
  let text := c_str utf8 in
  if bool_decide (text = []) then [] else default [] (MultiByteToWideChar text).

Definition SetFromNarrow (hr : Z) (utf8 : list Z) (t : ErrorTls) : ErrorTls :=
  Tls hr (WidenUtf8 utf8) (lastFailureWasFill t).

(** [LM_ABI_END]: the HRESULT of the export and the error state. *)
Definition LM_ABI_END (e : abi_exception) (t : ErrorTls) : Z * ErrorTls :=
  match e with
  | AbiException hr message => (hr, SetError hr message t)
  | BadAlloc => (E_OUTOFMEMORY, SetError E_OUTOFMEMORY (L "Out of memory") t)
  | SystemError inSystemCategory code what =>
      let hr := if inSystemCategory then hresult_from_win32 code else E_FAIL in (hr, SetFromNarrow hr what t)
  | InvalidArgument what | OutOfRange what => (E_INVALIDARG, SetFromNarrow E_INVALIDARG what t)
  | StdException what => (E_FAIL, SetFromNarrow E_FAIL what t)
  | UnknownException => (E_UNEXPECTED, SetError E_UNEXPECTED (L "Unexpected C++ exception") t)
  end.

(** [LM_STRUCT_SIZE_COVERS]: the offset and the size of the last shipped
    field. *)
Definition LM_STRUCT_SIZE_COVERS (structSize offset size : Z) : bool := offset + size <=? structSize.

(** ** HRESULT and NTSTATUS *)

Definition HRESULT_FACILITY (hr : Z) : Z := Z.land (Z.shiftr hr 16) 0x1FFF.
Definition HRESULT_CODE (hr : Z) : Z := Z.land hr 0xFFFF.

(** The statuses of the well-known codes. *)
Definition well_known_status (hr : Z) : option NTSTATUS :=
  if hr =? E_HANDLE then Some STATUS_INVALID_HANDLE
  else if hr =? E_ILLEGAL_METHOD_CALL then Some STATUS_INVALID_DEVICE_STATE
  else if hr =? E_INVALIDARG then Some STATUS_INVALID_PARAMETER
  else if hr =? E_OUTOFMEMORY then Some STATUS_NO_MEMORY
  else if hr =? E_ACCESSDENIED then Some STATUS_ACCESS_DENIED
  else if hr =? E_POINTER then Some STATUS_INVALID_PARAMETER
  else if hr =? E_NOTIMPL then Some STATUS_NOT_IMPLEMENTED
  else if hr =? E_ABORT then Some STATUS_CANCELLED
  else if hr =? E_FAIL then Some STATUS_UNSUCCESSFUL
  else None.

(** The result, and [*outStatus] as a number. *)
Definition LayerMountHResultToNtStatus (hr : Z) (hasOutStatus : bool) : Z * option Z :=
  if negb hasOutStatus then (E_POINTER, None)
  else if hr =? S_OK then (S_OK, Some (nt_code STATUS_SUCCESS))
  else
    (S_OK, Some match well_known_status hr with
                | Some status => nt_code status
                | None =>
                    if HRESULT_FACILITY hr =? FACILITY_WIN32 then nt_code (NtStatusFromWin32 (HRESULT_CODE hr))
                    else if has_attr hr FACILITY_NT_BIT then Z.ldiff hr FACILITY_NT_BIT
                    else nt_code STATUS_UNSUCCESSFUL
                end).

(** [HresultFromWin32Dword] of [AbiImage.cpp]. *)
Definition HresultFromWin32Dword (code : Z) : Z :=
  if code =? ERROR_SUCCESS then S_OK else hresult_from_win32 code.

(** What the SDK says of the numbers of statuses: 32 bits, the customer bit's
    neighbour clear, and zero for success alone. *)
Class StatusCodes : Prop := {
  nt_code_range s : 0 <= nt_code s < 2 ^ 32;
  nt_code_bit s : Z.testbit (nt_code s) 28 = false;
  nt_code_success : nt_code STATUS_SUCCESS = 0
}.
End Guard.

(** ** Facts *)
Section Facts.
Context `{W : Win32} `{H : !EntryHost} `{S : !StatusCodes}.

Lemma nt_bit_of_hresult status :
  status <> STATUS_SUCCESS -> Z.testbit (HresultFromNtStatus status) 28 = true.
Proof.
  intros Hs. unfold HresultFromNtStatus. rewrite bool_decide_false by done.
  rewrite Z.lor_spec. by rewrite orb_true_r.
Qed.

Lemma well_known_status_nt hr : Z.testbit hr 28 = true -> well_known_status hr = None.
Proof.
  intros Hb. unfold well_known_status.
  repeat match goal with |- context [hr =? ?e] => destruct (Z.eqb_spec hr e) as [->|_]; [by vm_compute in Hb|] end.
  done.
Qed.

Lemma facility_nt hr : Z.testbit hr 28 = true -> HRESULT_FACILITY hr <> FACILITY_WIN32.
Proof.
  intros Hb Hf. assert (Z.testbit (HRESULT_FACILITY hr) 12 = true) as Ht; [|by rewrite Hf in Ht].
  unfold HRESULT_FACILITY. rewrite Z.land_spec, Z.shiftr_spec by lia. change (12 + 16) with 28. by rewrite Hb.
Qed.

Lemma ldiff_lor_disjoint a b : Z.land a b = 0 -> Z.ldiff (Z.lor a b) b = a.
Proof.
  intros Hd. apply Z.bits_inj'. intros n Hn. rewrite Z.ldiff_spec, Z.lor_spec.
  assert (Hz : Z.testbit (Z.land a b) n = false) by (rewrite Hd; apply Z.bits_0). rewrite Z.land_spec in Hz.
  by destruct (Z.testbit a n), (Z.testbit b n).
Qed.

Lemma nt_bit_clear status : Z.land (nt_code status) FACILITY_NT_BIT = 0.
Proof.
  unfold FACILITY_NT_BIT. change 0x10000000 with (2 ^ 28). apply Z.bits_inj'. intros n Hn.
  rewrite Z.land_spec, Z.bits_0, Z.pow2_bits_eqb by lia. destruct (Z.eqb_spec 28 n) as [<-|_]; [|by rewrite andb_false_r].
  by rewrite nt_code_bit.
Qed.

(** C38: a status that the interface gives its caller as an HRESULT comes back
    as its own number, whatever status it is: no well-known code and no Win32
    facility takes it for something else. *)
Theorem HResultToNtStatus_roundtrip status :
  LayerMountHResultToNtStatus (HresultFromNtStatus status) true = (S_OK, Some (nt_code status)) /\
  (HresultFromNtStatus status = S_OK <-> status = STATUS_SUCCESS).
Proof.
  unfold LayerMountHResultToNtStatus. cbn [negb]. destruct (decide (status = STATUS_SUCCESS)) as [->|Hs].
  { by unfold HresultFromNtStatus; rewrite bool_decide_true. }
  pose proof (nt_bit_of_hresult _ Hs) as Hb.
  assert (Hne : HresultFromNtStatus status <> S_OK) by (intros He; by rewrite He in Hb).
  rewrite (proj2 (Z.eqb_neq _ _)) by done. rewrite well_known_status_nt by done.
  rewrite (proj2 (Z.eqb_neq _ _)) by (by apply facility_nt). split; [|naive_solver].
  unfold HresultFromNtStatus. rewrite bool_decide_false by done.
  fold FACILITY_NT_BIT. rewrite ldiff_lor_disjoint by (apply nt_bit_clear).
  unfold has_attr. rewrite (proj2 (Z.eqb_neq _ _)); [done|]. intros Hz.
  assert (Z.testbit (Z.land (Z.lor (nt_code status) FACILITY_NT_BIT) FACILITY_NT_BIT) 28 = false) as Ht by (rewrite Hz; apply Z.bits_0).
  rewrite Z.land_spec, Z.lor_spec in Ht. by rewrite orb_true_r in Ht.
Qed.

(** The message of a failure is what its thread reads for its HRESULT: a
    call without a buffer gives the size, a buffer of that size holds the
    message and its NUL, and a shorter one is left alone.  For any other
    HRESULT there is no message. *)
Theorem Last_reads_the_message e t :
  let '(hr, t') := LM_ABI_END e t in
  let size := Z.of_nat (length (lastMessage t')) + 1 in
  hr = lastHr t' /\ lastFailureWasFill t' = lastFailureWasFill t /\
  Last hr None true t' = (S_OK, Some size, None) /\
  (forall chars, size <= chars -> Last hr (Some chars) true t' = (S_OK, Some size, Some (lastMessage t' ++ [0]))) /\
  (forall chars, 0 < chars < size ->
     Last hr (Some chars) true t' = (hresult_from_win32 ERROR_MORE_DATA, Some size, None)) /\
  (forall other, other <> hr -> Last other None true t' = (S_OK, Some 0, None)) /\
  (forall message, e = AbiException hr message -> lastMessage t' = c_str message).
Proof.
  destruct (LM_ABI_END e t) as [hr t'] eqn:Ee. cbv zeta.
  assert (hr = lastHr t' /\ lastFailureWasFill t' = lastFailureWasFill t /\
          (forall message, e = AbiException hr message -> lastMessage t' = c_str message)) as (-> & Hf & Hm).
  { destruct e; cbn in Ee; injection Ee as <- <-; by split_and!; [| |intros ? [= <-]]. }
  assert (Hlen : 0 <= Z.of_nat (length (lastMessage t'))) by lia.
  split_and!; try done; unfold Last, emit_text, caller_capacity; cbn [negb]; rewrite ?Z.eqb_refl; cbn [negb]; try done.
  - intros chars Hc. rewrite (proj2 (Z.eqb_neq chars 0)) by lia. by rewrite (proj2 (Z.ltb_ge _ _)) by lia.
  - intros chars Hc. rewrite (proj2 (Z.eqb_neq chars 0)) by lia. by rewrite (proj2 (Z.ltb_lt _ _)) by lia.
  - intros other Ho. by rewrite (proj2 (Z.eqb_neq _ _)) by done.
Qed.
End Facts.
