(* ===== verification/ContextFacts.v ===== *)
(** * The checks of a mount, and the context of an open file

    What a check or a query changes: the lookups, the log of the process
    tracker and the denials it reports, and nothing else.  A rename or a
    delete that its checks refuse ends there.

    An invariant of [FileContext]: a context marked writable is at the upper,
    at a path below it or at a stream there, its names stay below the root, and the handle of a context was opened at its path.  Every open
    and create establishes it and every operation on the context keeps it,
    whatever other operations do to the mount in between.  So a change of an
    open file reaches the upper only. *)

From S2P Require Export MountRename CacheFacts.
Open Scope Z_scope.

(** ** The checks and the queries of a mount *)

Section Looks.
Context `{W : Win32} `{J : Json} `{E : CacheEnv} `{P : Processes} `{H : !EntryHost} `{M : !MountHost}.
Context `{T : !Threads} (config : LayerConfig).

(** Two states of the mount with the same layers, counters and reservations;
    the second has no new event but denials. *)
Record same_layers (s s' : MountState) : Prop := {
  same_disk : engineDisk (engine s') = engineDisk (engine s);
  same_stats : stats s' = stats s /\ copyUpCount (engine s') = copyUpCount (engine s) /\
               workCounter (engine s') = workCounter (engine s);
  same_reserved : inFlightCopyUps (engine s') = inFlightCopyUps (engine s) /\
                  fillFailure (engine s') = fillFailure (engine s);
  only_denials : exists denials, events (engine s') = events (engine s) ++ denials /\
                 Forall (fun e => eventKind e = LM_EVT_ACCESS_DENIED) denials
}.

Lemma same_layers_refl s : same_layers s s.
Proof. split; try done. exists []. by rewrite app_nil_r. Qed.

Lemma same_layers_trans s1 s2 s3 : same_layers s1 s2 -> same_layers s2 s3 -> same_layers s1 s3.
Proof.
  intros [D1 S1 R1 (l1 & E1 & F1)] [D2 S2 R2 (l2 & E2 & F2)]. split.
  - congruence.
  - intuition congruence.
  - intuition congruence.
  - exists (l1 ++ l2). rewrite E2, E1, app_assoc. by rewrite Forall_app.
Qed.

(** A call that only looks. *)
Definition looks {A} (m : eff MountState A) : Prop := forall s, same_layers s (fst (m s)).

Lemma looks_ret {A} (a : A) : looks (eret a).
Proof. intros s. apply same_layers_refl. Qed.

Lemma looks_bind {A B} (m : eff MountState A) (k : A -> eff MountState B) :
  looks m -> (forall a, looks (k a)) -> looks (ebind m k).
Proof.
  intros Hm Hk s. unfold ebind. specialize (Hm s). destruct (m s) as [s' a].
  exact (same_layers_trans _ _ _ Hm (Hk a s')).
Qed.

Lemma looks_look {A} (f : disk -> A) : looks (mlook f).
Proof. intros s. split; try done. exists []. by rewrite app_nil_r. Qed.

Lemma looks_lookup {A} (m : disk -> eff ResolverState A) : looks (mlookup m).
Proof.
  intros s. unfold mlookup, on_engine, lookup_in. destruct (m _ _). split; try done.
  exists []. by rewrite app_nil_r.
Qed.

Lemma looks_engine_look {A} (f : disk -> A) : looks (on_engine (look f)).
Proof. exact (looks_look f). Qed.

Lemma looks_engine_bind {A B} (m : eff EngineState A) (k : A -> eff EngineState B) :
  looks (on_engine m) -> (forall a, looks (on_engine (k a))) -> looks (on_engine (ebind m k)).
Proof.
  intros Hm Hk s. specialize (Hm s). unfold on_engine, ebind in *. destruct (m (engine s)) as [e a].
  specialize (Hk a (with_engine s e)). cbn in Hk. destruct (k a e). exact (same_layers_trans _ _ _ Hm Hk).
Qed.

Lemma looks_engine_ret {A} (a : A) : looks (on_engine (eret a)).
Proof. intros s. split; try done. exists []. by rewrite app_nil_r. Qed.

Lemma looks_engine_lookup {A} (m : disk -> eff ResolverState A) : looks (on_engine (lookup_in m)).
Proof. exact (looks_lookup m). Qed.

Lemma looks_check_access pid path op : looks (check_access pid path op).
Proof.
  intros s. unfold check_access. destruct (tracker s); [|apply same_layers_refl].
  destruct (pid =? 0); [apply same_layers_refl|].
  destruct (CheckAccess _ _ _ _ _ _ _) as [t' [isAllowed denied]]. split; try done.
  eexists; split; [done|]. destruct denied; repeat constructor.
Qed.
End Looks.

#[export] Hint Resolve looks_ret looks_look looks_lookup looks_engine_look looks_engine_ret looks_engine_lookup
  looks_check_access : layermount.
#[export] Hint Extern 2 (looks (ebind _ _)) => apply looks_bind; [|intros ?] : layermount.
#[export] Hint Extern 2 (looks (on_engine (ebind _ _))) => apply looks_engine_bind; [|intros ?] : layermount.
#[export] Hint Extern 3 (looks (match ?x with _ => _ end)) => destruct x : layermount.
#[export] Hint Extern 3 (looks (on_engine (match ?x with _ => _ end))) => destruct x : layermount.

Section Checks.
Context `{W : Win32} `{J : Json} `{E : CacheEnv} `{P : Processes} `{H : !EntryHost} `{M : !MountHost}.
Context `{T : !Threads} (config : LayerConfig).

Lemma WalkCallerPath_looks path finalLink : looks (WalkCallerPath config path finalLink).
Proof. apply looks_lookup. Qed.
Hint Resolve WalkCallerPath_looks : layermount.

Lemma CanDeleteEntry_looks hostNorm suffix pid : looks (CanDeleteEntry config hostNorm suffix pid).
Proof. unfold CanDeleteEntry. auto 12 with layermount. Qed.
Hint Resolve CanDeleteEntry_looks : layermount.

Lemma with_parsed_path_looks path k :
  (forall hostNorm suffix, looks (k hostNorm suffix)) -> looks (with_parsed_path config path k).
Proof. intros Hk. unfold with_parsed_path. auto 12 with layermount. Qed.

Lemma CheckRenameRequest_looks paths pid : looks (CheckRenameRequest config paths pid).
Proof. unfold CheckRenameRequest. auto 12 with layermount. Qed.

Lemma CheckRenameDestination_looks paths path replace kind :
  looks (CheckRenameDestination config paths path replace kind).
Proof. unfold CheckRenameDestination. auto 15 with layermount. Qed.

Lemma CheckRenameLinkBoundary_looks old new links : looks (on_engine (CheckRenameLinkBoundary config old new links)).
Proof. unfold CheckRenameLinkBoundary, ShownParentTarget. auto 15 with layermount. Qed.
Hint Resolve CheckRenameRequest_looks CheckRenameDestination_looks CheckRenameLinkBoundary_looks : layermount.

Lemma CheckRename_looks paths replace pid : looks (CheckRename config paths replace pid).
Proof. unfold CheckRename. auto 20 with layermount. Qed.

Lemma CheckCreatePreconditions_looks request path : looks (CheckCreatePreconditions config request path).
Proof. unfold CheckCreatePreconditions. auto 20 with layermount. Qed.

(** C35: the checks of a delete, of a rename and of a create change no layer,
    no counter and no reservation, and report nothing but denials of the
    process tracker; a call that its checks refuse ends in their state with
    their status, and gives no context. *)
Theorem refused_calls_change_nothing (s : MountState) :
  (forall path pid, let r := CanDelete config path pid s in
     same_layers s (fst r) /\ (NT_SUCCESS (snd r) = false -> DeletePath config path pid s = r)) /\
  (forall old new replace pid,
     let r := CheckRename config {| pathsOldNorm := NormalizePath old; pathsNewNorm := NormalizePath new |}
                replace pid s in
     same_layers s (fst r) /\
     (NT_SUCCESS (fst (snd r)) = false ->
      RenameViewPaths config old new replace pid s = (fst r, fst (snd r)))) /\
  (forall request path,
     let walk := WalkCallerPath config (requestPath request) (FinalLinkFor (requestOptions request)) s in
     let r := CheckCreatePreconditions config request path (fst walk) in
     same_layers s (fst r) /\
     (NT_SUCCESS (viewStatus (snd walk)) = true -> ParseStreamPath (viewPath (view (snd walk))) = Some path ->
      NT_SUCCESS (fst (snd r)) = false -> Create config request s = (fst r, (fst (snd r), None)))).
Proof.
  split_and!.
  - intros path pid. split; [by apply with_parsed_path_looks; auto with layermount|].
    unfold CanDelete, DeletePath, with_parsed_path, ebind, then_status. destruct (WalkCallerPath _ _ _ _) as [s1 v].
    case_match; [done|]. case_match; [|done]. destruct p as [hostNorm suffix]. cbn [snd].
    unfold ebind. destruct (CanDeleteEntry _ _ _ _ _) as [s2 status]. cbn [snd]. by intros ->.
  - intros old new replace pid. split; [apply CheckRename_looks|].
    unfold RenameViewPaths, ebind. destruct (CheckRename _ _ _ _ _) as [s1 [status checked]]. cbn [fst snd]. by intros ->.
  - intros request path. cbv zeta.
    pose proof (WalkCallerPath_looks (requestPath request) (FinalLinkFor (requestOptions request)) s) as Hw.
    unfold Create, ebind. destruct (WalkCallerPath _ _ _ _) as [s1 v]. cbn [fst snd] in *. split.
    + exact (same_layers_trans _ _ _ Hw (CheckCreatePreconditions_looks request path s1)).
    + intros -> ->. cbn [negb]. destruct (CheckCreatePreconditions _ _ _ _) as [s2 [status r]]. cbn [fst snd].
      by intros ->.
Qed.
End Checks.

(** ** Weakest preconditions over the context

    [wp m Q c]: a run of [m] on the context [c], from any state of the mount,
    ends in a reply and a context that [Q] accepts. *)
Section Wp.
Context `{W : Win32} `{J : Json} `{E : CacheEnv} `{P : Processes} `{H : !EntryHost} `{M : !MountHost}.

Definition wp {A} (m : ctx_eff A) (Q : A -> FileContext -> Prop) (c : FileContext) : Prop :=
  forall s, let r := m (s, c) in Q (snd r) (snd (fst r)).

Lemma wp_mono {A} (m : ctx_eff A) (Q Q' : A -> FileContext -> Prop) c :
  (forall a c', Q a c' -> Q' a c') -> wp m Q c -> wp m Q' c.
Proof. intros HQ Hm s. apply HQ, Hm. Qed.

Lemma wp_ret {A} (a : A) (Q : A -> FileContext -> Prop) c : Q a c -> wp (eret a) Q c.
Proof. by intros HQ s. Qed.

Lemma wp_bind {A B} (m : ctx_eff A) (k : A -> ctx_eff B) Q c :
  wp m (fun a => wp (k a) Q) c -> wp (ebind m k) Q c.
Proof. intros Hm s. specialize (Hm s). unfold ebind. destruct (m (s, c)) as [[s' c'] a]. apply Hm. Qed.

Lemma wp_then (m k : ctx_eff NTSTATUS) Q c :
  wp m (fun status c' => if NT_SUCCESS status then wp k Q c' else Q status c') c -> wp (then_status m k) Q c.
Proof.
  intros Hm. apply wp_bind. revert Hm. apply wp_mono. intros status c' HQ.
  destruct (NT_SUCCESS status); [done|by apply wp_ret].
Qed.

Lemma wp_then_info (m : ctx_eff NTSTATUS) (k : ctx_eff (NTSTATUS * option InternalFileInfo)) Q c :
  wp m (fun status c' => if NT_SUCCESS status then wp k Q c' else Q (status, None) c') c -> wp (then_info m k) Q c.
Proof.
  intros Hm. apply wp_bind. revert Hm. apply wp_mono. intros status c' HQ.
  destruct (NT_SUCCESS status); [done|by apply wp_ret].
Qed.

Lemma wp_on_mount {A} (m : eff MountState A) Q c : (forall a, Q a c) -> wp (on_mount m) Q c.
Proof. intros HQ s. unfold on_mount. cbn [fst snd]. destruct (m s). apply HQ. Qed.

Lemma wp_look {A} (f : disk -> A) Q c : (forall d, Q (f d) c) -> wp (on_mount (mlook f)) Q c.
Proof. intros HQ s. apply HQ. Qed.

Lemma wp_the_ctx Q c : Q c c -> wp the_ctx Q c.
Proof. by intros HQ s. Qed.

Lemma wp_set_ctx f Q c : Q tt (f c) -> wp (set_ctx f) Q c.
Proof. by intros HQ s. Qed.

Lemma wp_context_info config Q c : (forall info, Q info c) -> wp (context_info config) Q c.
Proof. intros HQ s. apply HQ. Qed.

Lemma wp_info_result config wantsInfo Q c : (forall r, Q r c) -> wp (info_result config wantsInfo) Q c.
Proof.
  intros HQ. unfold info_result. destruct wantsInfo; cbn [negb]; [|by apply wp_ret].
  apply wp_bind, wp_context_info. intros info. apply wp_ret, HQ.
Qed.

Lemma wp_close Q c : Q tt (set_handle None c) -> wp CloseContextHandle Q c.
Proof.
  intros HQ. apply wp_bind, wp_the_ctx. destruct c as [[h|] ???????????]; cbn [ctx_handle]; [|by apply wp_ret].
  apply wp_bind, wp_on_mount. intros _. by apply wp_set_ctx.
Qed.
End Wp.

(** One step of a proof of a [wp]. *)
Ltac wp_step :=
  match goal with
  | |- wp (ebind _ _) _ _ => apply wp_bind
  | |- wp (then_status _ _) _ _ => apply wp_then
  | |- wp (then_info _ _) _ _ => apply wp_then_info
  | |- wp (eret _) _ _ => apply wp_ret
  | |- wp the_ctx _ _ => apply wp_the_ctx
  | |- wp (set_ctx _) _ _ => apply wp_set_ctx
  | |- wp (on_mount (mlook _)) _ _ => apply wp_look; intros ?
  | |- wp (on_mount (open_existing _ _ _)) _ _ => apply wp_look; intros ?
  | |- wp (on_mount _) _ _ => apply wp_on_mount; intros ?
  | |- wp (context_info _) _ _ => apply wp_context_info; intros ?
  | |- wp (info_result _ _) _ _ => apply wp_info_result; intros ?
  | |- wp CloseContextHandle _ _ => apply wp_close
  | |- wp (match ?x with _ => _ end) _ _ => destruct x eqn:?
  | |- if NT_SUCCESS ?x then _ else _ => destruct (NT_SUCCESS x) eqn:?
  | |- wp (let _ := _ in _) _ _ => cbv zeta
  end; cbn beta.
Ltac wp_steps := repeat wp_step.

(** ** The invariant *)
Section Invariant.
Context `{W : Win32} `{CL : !CaseLaws} `{J : Json} `{E : CacheEnv} `{P : Processes} `{H : !EntryHost} `{M : !MountHost}.
Context `{T : !Threads} (config : LayerConfig).

(** The upper, or a path below it: the upper, a separator unless it ends in
    one, and a text without drive, stream, slash or leading separator in which
    no segment is [..]; then possibly a stream.  Upper and lower case are the
    same there. *)
Definition upper_entry (rel : wstring) : wstring :=
  if bool_decide (rel = []) then upperPath config
  else if bool_decide (last (upperPath config) = Some ch_bsl) then upperPath config ++ rel
  else upperPath config ++ [ch_bsl] ++ rel.

Definition under_upper (p : wstring) : Prop :=
  exists rel suffix, below_root rel /\ stream_text suffix /\ ordinal_eq_ci p (upper_entry rel ++ suffix) = true.

(** Some open or create of the path gave the handle. *)
Definition opened_at (p : wstring) (h : handle) : Prop :=
  (exists d access flags, OpenSharedW d (WithExtendedPrefix p) access share_all flags = Ok h) \/
  (exists d access attrs, snd (CreateFileW (WithExtendedPrefix p) access share_all CREATE_NEW attrs d) = Ok h).

(** The names of a context: a path below the root and a stream of it. *)
Definition names_ok (c : FileContext) : Prop :=
  no_parent (ctx_relativePath c) /\ stream_text (ctx_streamSuffix c).

Definition path_ok (c : FileContext) : Prop :=
  (ctx_writable c = true -> under_upper (ctx_actualPath c)) /\ names_ok c.
Definition handle_ok (c : FileContext) : Prop := forall h, ctx_handle c = Some h -> opened_at (ctx_actualPath c) h.
Definition ctx_ok (c : FileContext) : Prop := path_ok c /\ handle_ok c.

(** The invariant at a path of the upper. *)
Definition upper_ok (c : FileContext) : Prop := ctx_ok c /\ under_upper (ctx_actualPath c).

Lemma ordinal_eq_refl p : ordinal_eq_ci p p = true.
Proof. by apply bool_decide_eq_true_2. Qed.

Lemma under_upper_entry rel suffix : below_root rel -> stream_text suffix -> under_upper (upper_entry rel ++ suffix).
Proof. intros Hr Hs. exists rel, suffix. split_and!; [done..|apply ordinal_eq_refl]. Qed.

(** The program's join makes such a path. *)
Lemma upper_entry_join rel :
  upper_entry rel = if bool_decide (rel = []) then upperPath config else JoinDirPath (upperPath config) rel.
Proof. unfold upper_entry, JoinDirPath, DirWithSeparator. repeat case_bool_decide; by rewrite <- ?app_assoc. Qed.

Lemma under_upper_root : under_upper (upperPath config).
Proof. rewrite <- (app_nil_r (upperPath config)). apply (under_upper_entry []); [apply below_root_nil|apply stream_text_nil]. Qed.

Lemma under_upper_GetUpperPath path suffix :
  no_parent path -> stream_text suffix -> under_upper (GetUpperPath config path ++ suffix).
Proof.
  intros Hp Hs. pose proof (under_upper_entry (NormalizePath path) suffix) as Hu. rewrite upper_entry_join in Hu.
  apply Hu; [by apply no_parent_normalize|done].
Qed.

Lemma under_upper_new_entry path suffix :
  below_root (NormalizePathPreserveCase path) -> stream_text suffix ->
  under_upper (GetUpperPathForNewEntry config path ++ suffix).
Proof.
  intros Hp Hs. pose proof (under_upper_entry (NormalizePathPreserveCase path) suffix) as Hu.
  rewrite upper_entry_join in Hu. by apply Hu.
Qed.

Lemma under_upper_ci p q : ordinal_eq_ci p q = true -> under_upper q -> under_upper p.
Proof.
  unfold under_upper, ordinal_eq_ci. intros Hpq%bool_decide_eq_true (rel & suffix & Hr & Hs & Hq%bool_decide_eq_true).
  exists rel, suffix. split_and!; [done..|]. apply bool_decide_eq_true. congruence.
Qed.

Lemma handle_ok_none c : handle_ok (set_handle None c).
Proof. done. Qed.

(** ** The operations on the handle *)

Lemma wp_open access (Q : NTSTATUS -> FileContext -> Prop) c :
  (forall status, Q status (set_handle None c)) ->
  (forall h, opened_at (ctx_actualPath c) h -> Q STATUS_SUCCESS (set_needs_reopen false (set_handle (Some h) c))) ->
  wp (OpenContextHandleWithAccess access) Q c.
Proof.
  intros Hfail Hopen. unfold OpenContextHandleWithAccess. wp_steps; [|apply Hfail].
  destruct c; apply Hopen. left. by eexists _, _, _.
Qed.

(** The handle of a context opens at its path, so the invariant needs only
    the path before, and nothing but the handle changes. *)
Lemma wp_open_ok access c :
  path_ok c ->
  wp (OpenContextHandleWithAccess access)
    (fun _ c' => ctx_ok c' /\ ctx_actualPath c' = ctx_actualPath c) c.
Proof.
  intros Hp. apply wp_open; [intros _|intros h Hh]; (split; [split; [exact Hp|]|done]); [done|]. by intros h' [= <-].
Qed.

Lemma EnsureHandleReady_ok c : ctx_ok c ->
  wp EnsureHandleReady (fun _ c' => ctx_ok c' /\ ctx_actualPath c' = ctx_actualPath c) c.
Proof.
  intros [Hp Hh]. unfold EnsureHandleReady, ReopenContextHandle. wp_steps; [done|by apply wp_open_ok].
Qed.

(** ** Copies and fills for a context *)

(** The same handle, path and mark. *)
Definition same_place (c c' : FileContext) : Prop :=
  ctx_handle c' = ctx_handle c /\ ctx_actualPath c' = ctx_actualPath c /\ ctx_writable c' = ctx_writable c /\
  ctx_relativePath c' = ctx_relativePath c /\ ctx_streamSuffix c' = ctx_streamSuffix c.

Lemma same_place_ok c c' : same_place c c' -> ctx_ok c -> ctx_ok c'.
Proof.
  intros (Hh & Hp & Hw & Hr & Hs) [H1 H2]. unfold ctx_ok, path_ok, names_ok, handle_ok. by rewrite Hh, Hp, Hw, Hr, Hs.
Qed.

Lemma same_place_upper c c' : same_place c c' -> upper_ok c -> upper_ok c'.
Proof. intros Hs [Hc Hu]. split; [by apply (same_place_ok c)|]. destruct Hs as (_ & -> & _). done. Qed.

Lemma same_place_path c c' : same_place c c' -> path_ok c -> path_ok c'.
Proof. intros (_ & Hp & Hw & Hr & Hs). unfold path_ok, names_ok. by rewrite Hp, Hw, Hr, Hs. Qed.

Lemma same_place_names c c' : same_place c c' -> names_ok c -> names_ok c'.
Proof. intros (_ & _ & _ & Hr & Hs). unfold names_ok. by rewrite Hr, Hs. Qed.

Lemma FillShell_place hostNorm c : wp (FillShell config hostNorm) (fun _ => same_place c) c.
Proof. unfold FillShell. wp_steps; done. Qed.

Lemma ReadMetacopyFlag_place hostNorm c : wp (ReadMetacopyFlag config hostNorm) (fun _ => same_place c) c.
Proof. unfold ReadMetacopyFlag. wp_steps; done. Qed.

Lemma FillShellForDataAccess_place hostNorm c :
  wp (FillShellForDataAccess config hostNorm) (fun _ => same_place c) c.
Proof. unfold FillShellForDataAccess. wp_steps; [apply FillShell_place|done]. Qed.

Lemma CopyUpForHandle_place hostNorm above c : wp (CopyUpForHandle config hostNorm above) (fun _ => same_place c) c.
Proof. unfold CopyUpForHandle. wp_steps; done. Qed.

(** A move of the context to a path of the upper, and the open there. *)
Lemma move_to_upper_ok path c :
  under_upper path -> names_ok c ->
  wp (do! set_ctx (set_path path true) in ReopenContextHandle)%eff (fun _ => upper_ok) c.
Proof.
  intros Hu Hn. unfold ReopenContextHandle. wp_steps.
  eapply wp_mono; [|by apply wp_open_ok]. intros _ c' [Hc Hp]. split; [done|]. by rewrite Hp.
Qed.

(** The copy-up of an open file, and its success. *)
Lemma EnsureInUpperLayer_ok path c : no_parent path -> ctx_ok c ->
  wp (EnsureInUpperLayer config path)
    (fun status c' => ctx_ok c' /\ (NT_SUCCESS status = true -> under_upper (ctx_actualPath c'))) c.
Proof.
  intros Hpath Hc. pose proof Hc as [[_ [_ Hsuffix]] _].
  pose proof (under_upper_GetUpperPath (NormalizePath path) (ctx_streamSuffix c)
                (proj1 (no_parent_normalize path Hpath)) Hsuffix) as Hu.
  assert (Hmove : forall c', names_ok c' -> wp (do! set_ctx (set_path (GetUpperPath config (NormalizePath path) ++ ctx_streamSuffix c) true)
                                  in ReopenContextHandle)%eff
            (fun status c' => ctx_ok c' /\ (NT_SUCCESS status = true -> under_upper (ctx_actualPath c'))) c').
  { intros c' Hn. eapply wp_mono; [|by apply move_to_upper_ok]. intros status c2 [? ?]. done. }
  assert (Hnames : forall c', ctx_ok c' -> names_ok c') by (intros c' [[_ Hn] _]; exact Hn).
  unfold EnsureInUpperLayer. wp_step. wp_step. wp_step.
  - wp_step. split; [done|]. intros _. apply Hc. by apply andb_true_iff in Heqb as [[? _]%andb_true_iff _].
  - wp_step. wp_step. wp_step.
    + wp_step; [wp_step; split; [done|]; intros _; by eapply under_upper_ci|].
      wp_step. eapply wp_mono; [|apply ReadMetacopyFlag_place]. intros [] c1 H1.
      wp_step. eapply wp_mono; [|apply FillShellForDataAccess_place]. intros status c2 H2. cbn beta.
      wp_step; [apply Hmove, Hnames; by apply (same_place_ok c1), (same_place_ok c)|]. split; [by apply (same_place_ok c1), (same_place_ok c)|congruence].
    + wp_step. eapply wp_mono; [|apply CopyUpForHandle_place]. intros status c1 H1. cbn beta.
      wp_step; [|split; [by apply (same_place_ok c)|congruence]].
      wp_step. eapply wp_mono; [|apply FillShellForDataAccess_place]. intros status' c2 H2. cbn beta.
      wp_step; [apply Hmove, Hnames; by apply (same_place_ok c1), (same_place_ok c)|]. split; [by apply (same_place_ok c1), (same_place_ok c)|congruence].
Qed.

Lemma FillShell_upper path c : upper_ok c -> wp (FillShell config path) (fun _ => upper_ok) c.
Proof. intros Hc. eapply wp_mono; [|apply FillShell_place]. intros status c' Hs. by apply (same_place_upper c). Qed.

Lemma EnsureMetacopyMaterialized_ok c : upper_ok c -> wp (EnsureMetacopyMaterialized config) (fun _ => upper_ok) c.
Proof.
  intros Hc. unfold EnsureMetacopyMaterialized, ReopenContextHandle. wp_step. wp_step. wp_step; [by wp_step|].
  wp_step. eapply wp_mono; [|by apply FillShell_upper]. intros status c' [[Hp Hh] Hu]. cbn beta. wp_step; [|done].
  wp_step. wp_step. eapply wp_mono; [|by apply wp_open_ok]. intros _ c2 [? Hc2]. split; [done|]. by rewrite Hc2.
Qed.

Lemma allow_context_same op Q c : (forall status, Q status c) -> wp (allow_context op) Q c.
Proof. intros HQ. unfold allow_context. wp_steps; apply HQ. Qed.

Lemma SetInfoWithTransientRetry_same access f Q c :
  (forall status, Q status c) -> wp (SetInfoWithTransientRetry access f) Q c.
Proof.
  intros HQ. unfold SetInfoWithTransientRetry, OpenTransientHandle. wp_steps; apply HQ.
Qed.

(** ** The operations keep the invariant *)

Lemma own_path_ok c : ctx_ok c -> no_parent (ctx_relativePath c).
Proof. intros [[_ [Hn _]] _]. exact Hn. Qed.
Hint Resolve own_path_ok : core.

(** The steps before a change: the handle, the tracker, the copy-up and, where
    the data changes, the fill of a shell. *)
Definition change_steps (op : OperationType) (path : wstring) : ctx_eff NTSTATUS :=
  (step! EnsureHandleReady in
   step! allow_context op in
   step! EnsureInUpperLayer config path in
   EnsureMetacopyMaterialized config)%eff.

Lemma change_steps_ok op path c : no_parent path -> ctx_ok c ->
  wp (change_steps op path)
    (fun status c' => ctx_ok c' /\ (NT_SUCCESS status = true -> under_upper (ctx_actualPath c'))) c.
Proof.
  intros Hpath Hc. unfold change_steps. wp_step. eapply wp_mono; [|by apply EnsureHandleReady_ok].
  intros status c1 [H1 _]. cbn beta. wp_step; [|split; [done|congruence]].
  wp_step. apply allow_context_same. intros allowed. wp_step; [|split; [done|congruence]].
  wp_step. eapply wp_mono; [|by apply EnsureInUpperLayer_ok]. intros status2 c2 [H2 Hu]. cbn beta.
  wp_step; [|split; [done|congruence]].
  eapply wp_mono; [|apply EnsureMetacopyMaterialized_ok; split; [done|by apply Hu]]. intros status3 c3 [? ?]. done.
Qed.

Lemma Write_ok buffer beyond offset writeToEnd constrainedIo wantsInfo c : ctx_ok c ->
  wp (Write config buffer beyond offset writeToEnd constrainedIo wantsInfo) (fun _ => ctx_ok) c.
Proof.
  intros Hc. unfold Write. wp_step. wp_step. wp_step.
  eapply wp_mono; [|apply (change_steps_ok OpWrite); auto]. intros status c1 [H1 _]. wp_steps; done.
Qed.

Lemma Read_ok offset length_ c : ctx_ok c -> wp (Read offset length_) (fun _ => ctx_ok) c.
Proof.
  intros Hc. unfold Read. wp_step. wp_step. eapply wp_mono; [|by apply EnsureHandleReady_ok].
  intros status c1 [H1 _]. cbn beta. wp_step; [|wp_steps; done].
  apply allow_context_same. intros allowed. cbn beta. wp_steps; done.
Qed.

Lemma Flush_ok wantsInfo c : ctx_ok c -> wp (Flush config wantsInfo) (fun _ => ctx_ok) c.
Proof.
  intros Hc. unfold Flush. wp_step. wp_step. eapply wp_mono; [|by apply EnsureHandleReady_ok].
  intros status c1 [H1 _]. cbn beta. wp_step; [|wp_steps; done].
  wp_step. apply allow_context_same. intros allowed. cbn beta. wp_steps; done.
Qed.

Lemma Overwrite_ok attrs replace allocation wantsInfo c : ctx_ok c ->
  wp (Overwrite config attrs replace allocation wantsInfo) (fun _ => ctx_ok) c.
Proof.
  intros Hc. unfold Overwrite. wp_step. wp_step. eapply wp_mono; [|by apply EnsureHandleReady_ok].
  intros status c1 [H1 _]. cbn beta. wp_step; [|done].
  wp_step. apply allow_context_same. intros allowed. wp_step; [|done]. wp_step. wp_step.
  wp_step. eapply wp_mono; [|apply EnsureInUpperLayer_ok; auto]. intros status2 c2 [H2 Hu]. cbn beta. wp_step; [|done].
  wp_step. eapply wp_mono; [|apply EnsureMetacopyMaterialized_ok; split; [done|by apply Hu]].
  intros status3 c3 [H3 _]. cbn beta. wp_step; [|done].
  unfold SetContextEndOfFile, SetContextAllocationSize.
  repeat first [done | apply SetInfoWithTransientRetry_same; intros ?; cbn beta | wp_step].
Qed.

Lemma SetInfo_ok request wantsInfo c : ctx_ok c -> wp (SetInfo config request wantsInfo) (fun _ => ctx_ok) c.
Proof.
  intros Hc. unfold SetInfo. wp_step. wp_step. apply allow_context_same. intros allowed. wp_step; [|done].
  wp_step.
  { eapply wp_mono; [|by apply EnsureHandleReady_ok]. intros status c1 [? _]. cbn beta. wp_steps; done. }
  unfold set_info_steps. wp_step. wp_step. wp_step.
  eapply wp_mono; [|apply EnsureInUpperLayer_ok; auto]. intros status2 c2 [H2 Hu]. cbn beta. wp_step; [|wp_steps; done].
  wp_step. eapply wp_mono; [|by apply EnsureHandleReady_ok]. intros status3 c3 [H3 Hp]. cbn beta.
  assert (H3u : upper_ok c3) by (split; [done|]; rewrite Hp; by apply Hu).
  wp_step; [|wp_steps; done]. wp_step; [wp_steps; done|]. wp_step.
  unfold SetContextEndOfFile, SetContextAllocationSize, SetContextAttributes, SetContextTimes.
  wp_step; [eapply wp_mono; [|by apply EnsureMetacopyMaterialized_ok]; intros status4 c4 [H4 _]; cbn beta|];
    repeat first [done | apply SetInfoWithTransientRetry_same; intros ?; cbn beta | wp_step].
Qed.

Lemma Cleanup_ok c : ctx_ok c -> wp Cleanup (fun _ => ctx_ok) c.
Proof. intros [Hp Hh]. unfold Cleanup. wp_steps. by split. Qed.

Lemma Close_ok c : ctx_ok c -> wp Close (fun _ => ctx_ok) c.
Proof. intros [Hp Hh]. unfold Close. wp_steps. by split. Qed.

Lemma DeleteContext_ok c : ctx_ok c -> wp (DeleteContext config) (fun _ => ctx_ok) c.
Proof.
  intros [Hp Hh]. unfold DeleteContext, CanDeleteContext. wp_steps; try by split.
  unfold DeleteStreamOnContext. wp_step. wp_step. wp_step. wp_step.
  - eapply wp_mono; [|by apply wp_open_ok]. intros status c1 [[Hp1 Hh1] _]. cbn beta. wp_steps; by split.
  - wp_steps; by split.
Qed.

(** A result of a run on the mount, with a property that every run gives it. *)
Lemma wp_on_mount_that {A} (m : eff MountState A) (R : A -> Prop) Q c :
  (forall s, R (snd (m s))) -> (forall a, R a -> Q a c) -> wp (on_mount m) Q c.
Proof. intros HR HQ s. unfold on_mount. cbn [fst snd]. specialize (HR (fst (s, c))). destruct (m _). by apply HQ. Qed.

(** The view path and its normal form come together from a walk. *)
Lemma WalkCallerPath_normalized path finalLink s :
  viewNormalized (view (snd (WalkCallerPath config path finalLink s))) =
  NormalizePath (viewPath (view (snd (WalkCallerPath config path finalLink s)))).
Proof.
  unfold WalkCallerPath, mlookup, on_engine, lookup_in.
  set (d := engineDisk (engine s)).
  assert (Hw : forall r, viewNormalized (view (snd (ViewPathThroughLinks d config path finalLink r))) =
                         NormalizePath (viewPath (view (snd (ViewPathThroughLinks d config path finalLink r))))).
  { intros r. unfold ViewPathThroughLinks. cbv zeta. case_match; [done|]. unfold ebind.
    by destruct (walk_view _ _ _ _ _ r) as [r' [?|]]. }
  specialize (Hw (lookups (engine s))). by destruct (ViewPathThroughLinks _ _ _ _ _).
Qed.

Lemma CheckRenameRequest_names paths pid s :
  ch_slash ∉ pathsNewNorm paths -> NT_SUCCESS (snd (CheckRenameRequest config paths pid s)) = true ->
  no_parent (pathsNewNorm paths).
Proof.
  intros Hs. unfold CheckRenameRequest. destruct (TryParseStreamPath _) as [[? oldSuffix]|]; [|intros Hx; by vm_compute in Hx].
  destruct (TryParseStreamPath (pathsNewNorm paths)) as [[host newSuffix]|] eqn:Ep; [|intros Hx; by vm_compute in Hx].
  destruct (_ || _) eqn:Er; [intros Hx; by vm_compute in Hx|]. intros _.
  apply orb_false_iff in Er as [_ Hnew%negb_false_iff%bool_decide_eq_true]. subst newSuffix.
  destruct (parsed_names _ _ _ Hs Ep) as [Hh _]. apply parse_sound in Ep. by inversion Ep; subst.
Qed.

(** A rename whose checks succeed goes to a path below the root. *)
Lemma CheckRename_names paths replace pid s :
  ch_slash ∉ pathsNewNorm paths -> NT_SUCCESS (fst (snd (CheckRename config paths replace pid s))) = true ->
  no_parent (pathsNewNorm paths).
Proof.
  intros Hs. unfold CheckRename. unfold ebind at 1. pose proof (CheckRenameRequest_names paths pid s Hs) as Hn.
  destruct (CheckRenameRequest config paths pid s) as [s1 request]. cbn [snd] in Hn.
  destruct (NT_SUCCESS request) eqn:Eq; cbn [negb]; [auto|]. cbn. by rewrite Eq.
Qed.

Lemma normalize_no_slash p : ch_slash ∉ NormalizePath p.
Proof. apply normalize_canonical. Qed.

Lemma rename_open_entry_ok path replace checked c :
  no_parent (NormalizePath path) -> ctx_ok c -> wp (rename_open_entry config path replace checked) (fun _ => ctx_ok) c.
Proof.
  intros Hn [Hp Hh]. unfold rename_open_entry. wp_steps; [by split|].
  split; [|done]. split; [intros _|split; [exact Hn|apply Hp]].
  pose proof (under_upper_new_entry path [] (normalized_preserve path Hn) stream_text_nil) as Hu.
  by rewrite app_nil_r in Hu.
Qed.

Lemma RenameContext_ok path replace pid c : ctx_ok c -> wp (RenameContext config path replace pid) (fun _ => ctx_ok) c.
Proof.
  intros Hc. unfold RenameContext. wp_step. wp_step. wp_step; [by wp_step|]. wp_step. wp_step. wp_step; [by wp_step|].
  wp_step. match goal with |- wp (on_mount (CheckRename _ ?paths _ _)) _ _ =>
    apply (wp_on_mount_that _ (fun r => NT_SUCCESS (fst r) = true -> no_parent (pathsNewNorm paths))) end.
  - intros s. apply CheckRename_names, normalize_no_slash.
  - intros [status checked] Hn. cbn [fst] in Hn. wp_step; [by wp_step|]. apply rename_open_entry_ok; [|done].
    by apply Hn, negb_false_iff.
Qed.

(** The preserved text before a suffix that is as long as the folded one. *)
Lemma preserved_host_ok p host suffix :
  TryParseStreamPath (NormalizePath p) = Some (host, suffix) ->
  below_root (NormalizePathPreserveCase
    (if bool_decide (suffix = []) then p
     else let preserved := NormalizePathPreserveCase p in take (length preserved - length suffix)%nat preserved)).
Proof.
  intros Hp. destruct (parsed_names _ _ _ (normalize_no_slash p) Hp) as [Hh _].
  pose proof (proj2 (TryParseStreamPath_grammar _ _ _) Hp) as Happ. case_bool_decide as Hs.
  - subst suffix. rewrite app_nil_r in Happ. subst host. by apply normalized_preserve.
  - apply no_parent_preserve, no_parent_lower. unfold CharLowerBuffW. rewrite fmap_take.
    change (char_lower <$> NormalizePathPreserveCase p) with (NormalizePath p).
    replace (length (NormalizePathPreserveCase p)) with (length (NormalizePath p)) by apply lower_length.
    rewrite Happ at 1 2. rewrite length_app, Nat.add_sub. by rewrite take_app_length.
Qed.

Lemma UpdateContextPath_ok path c : ctx_ok c -> wp (UpdateContextPath config path) (fun _ => ctx_ok) c.
Proof.
  intros [Hp Hh]. unfold UpdateContextPath. wp_step.
  apply (wp_on_mount_that _ (fun v => viewNormalized (view v) = NormalizePath (viewPath (view v)))).
  { intros s. apply WalkCallerPath_normalized. }
  intros v Hv. rewrite Hv. wp_step; [by wp_step; split|].
  destruct (TryParseStreamPath (NormalizePath (viewPath (view v)))) as [[host suffix]|] eqn:Et; [|by wp_step; split].
  destruct (parsed_names _ _ _ (normalize_no_slash _) Et) as [Hhost Hsuffix].
  pose proof (preserved_host_ok _ _ _ Et) as Hplace.
  wp_steps; try by split.
  all: split; [|done]; (split; [intros _|by split]); by apply under_upper_new_entry.
Qed.
End Invariant.

(** ** The hits of the cache

    A hit in the upper lies in the upper; a lookup keeps this of the cache,
    whatever the records of the layers redirect to. *)
Section Hits.
Context `{W : Win32} `{CL : !CaseLaws} `{J : Json} `{E : CacheEnv} (d : disk) (config : LayerConfig).

Definition hit_ok (r : ResolvedPath) : Prop :=
  source r = Upper -> forall suffix, stream_text suffix -> under_upper config (absolutePath r ++ suffix).

Definition hits_ok (s : ResolverState) : Prop :=
  forall k e, cacheEntries (cache s) !! k = Some e -> hit_ok (resolved e).

(** A lookup that keeps the cache so, with a result in [Q]. *)
Definition keeps_hits {A} (m : eff ResolverState A) (Q : A -> Prop) : Prop :=
  forall s, hits_ok s -> hits_ok (fst (m s)) /\ Q (snd (m s)).

Lemma keeps_hits_ret {A} (a : A) (Q : A -> Prop) : Q a -> keeps_hits (eret a) Q.
Proof. by intros HQ s Hs. Qed.

Lemma keeps_hits_bind {A B} (m : eff ResolverState A) (k : A -> eff ResolverState B) Q Q' :
  keeps_hits m Q -> (forall a, Q a -> keeps_hits (k a) Q') -> keeps_hits (ebind m k) Q'.
Proof.
  intros Hm Hk s Hs. specialize (Hm s Hs) as [H1 H2]. unfold ebind. destruct (m s) as [s' a]. by apply Hk.
Qed.

Lemma keeps_hits_get n : keeps_hits (on_cache (Get n)) (fun r => forall hit, r = Some hit -> hit_ok hit).
Proof.
  intros s Hs. unfold on_cache, Get. destruct (cacheEntries (cache s) !! NormalizePath n) as [e|] eqn:Ek;
    cbn [fst snd cache]; (split; [|try done]).
  - intros k e'. cbn [cacheEntries cache]. intros [[<- <-]|[_ ?]]%lookup_insert_Some; [exact (Hs _ _ Ek)|by eapply Hs].
  - intros hit [= <-]. by eapply Hs.
  - exact Hs.
Qed.

Lemma keeps_hits_put n r : hit_ok r -> keeps_hits (on_cache (Put n r)) (fun _ => True).
Proof.
  intros Hr s Hs. unfold on_cache, Put. cbn [fst snd]. split; [|done].
  intros k e. cbn [cacheEntries cache]. set (m := <[_ := _]> _). intros Hk.
  assert (Hm : m !! k = Some e) by (case_match; [by apply EvictLRU_sub|done]).
  apply lookup_insert_Some in Hm as [[<- <-]|[_ Hm]]; [done|by eapply Hs].
Qed.

Lemma keeps_hits_output line : keeps_hits (OutputDebugStringW line) (fun _ => True).
Proof. by intros s Hs. Qed.

Lemma keeps_hits_weaken {A} (m : eff ResolverState A) (Q Q' : A -> Prop) :
  (forall a, Q a -> Q' a) -> keeps_hits m Q -> keeps_hits m Q'.
Proof. intros HQ Hm s Hs. destruct (Hm s Hs). split; [done|by apply HQ]. Qed.

Lemma find_in_lowers_hit n i ls : hit_ok (find_in_lowers d config n i ls).
Proof. revert i. induction ls as [|l ls IH]; intros i; cbn [find_in_lowers]; repeat case_match; try done; apply IH. Qed.

Lemma resolve_below_upper_hits n : keeps_hits (resolve_below_upper d config n) (fun r => hit_ok (fst r)).
Proof.
  unfold resolve_below_upper.
  assert (Hl : hit_ok (FindInLowers d config n 0)) by apply find_in_lowers_hit.
  destruct (HidingInUpper d config n).
  2-4: eapply keeps_hits_bind; [by apply keeps_hits_put|intros ? _; by apply keeps_hits_ret].
  case_match; [by apply keeps_hits_ret|].
  eapply keeps_hits_bind; [apply keeps_hits_output|intros ? _].
  eapply keeps_hits_bind; [by apply keeps_hits_put|intros ? _]. by apply keeps_hits_ret.
Qed.

Lemma resolved_below_root p : IsSafeRelativePath (NormalizePath p) = true -> below_root (NormalizePath p).
Proof.
  intros Hs. split; [apply safe_no_parent; [apply normalize_no_slash|done]|apply normalize_canonical].
Qed.

Lemma ResolvePathInternal_hits depth p : keeps_hits (ResolvePathInternal d config depth p) (fun r => hit_ok (fst r)).
Proof.
  revert p. induction depth as [|depth IH]; intros p; [by apply keeps_hits_ret|]. cbn [ResolvePathInternal].
  case_bool_decide as Hroot.
  { apply keeps_hits_ret. intros _ suffix. apply (under_upper_entry config []), below_root_nil. }
  destruct (IsResolvablePath d config (NormalizePath p)) eqn:Hsafe; cbn [negb]; [|by apply keeps_hits_ret].
  apply andb_true_iff in Hsafe as [Hsafe _].
  eapply keeps_hits_bind; [apply keeps_hits_get|]. intros [r|] Hr; [apply keeps_hits_ret; by apply Hr|].
  eapply (keeps_hits_bind _ _ (fun r => forall hit, r = Some hit -> hit_ok hit)).
  2: { intros [r|] Hr2; [apply keeps_hits_ret; by apply Hr2|apply resolve_below_upper_hits]. }
  unfold resolve_in_upper. case_match; [|by apply keeps_hits_ret]. case_match.
  - eapply (keeps_hits_bind _ _ hit_ok); [|intros r Hr2; apply keeps_hits_ret; by intros ? [= <-]].
    eapply keeps_hits_bind; [apply IH|]. intros r Hr2. by apply keeps_hits_ret.
  - assert (Hu : hit_ok {| absolutePath := JoinDirPath (upperPath config) (NormalizePath p); source := Upper;
                           lowerIndex := -1; isWhiteout := false; attributes := a |})
      by (intros _ suffix Hs; pose proof (resolved_below_root p Hsafe) as Hb;
            pose proof (under_upper_entry config _ _ Hb Hs) as Hu; rewrite upper_entry_join in Hu;
              by rewrite bool_decide_false in Hu).
    eapply keeps_hits_bind; [by apply keeps_hits_put|]. intros ? _. apply keeps_hits_ret. by intros ? [= <-].
Qed.

Lemma ResolvePath_hits p : keeps_hits (ResolvePath d config p) hit_ok.
Proof. eapply keeps_hits_bind; [apply ResolvePathInternal_hits|]. intros r Hr. by apply keeps_hits_ret. Qed.

Lemma walk_from_hits finalLink components follow n :
  (forall walked target, keeps_hits (follow walked target) (fun _ => True)) ->
  keeps_hits (walk_from d config finalLink components follow n) (fun _ => True).
Proof.
  intros Hf. induction n as [|n IH]; cbn [walk_from]; [by apply keeps_hits_ret|].
  case_match; [by apply keeps_hits_ret|]. eapply keeps_hits_bind; [apply ResolvePath_hits|]. intros shown _.
  repeat case_match; try done; try by apply keeps_hits_ret. all: apply Hf.
Qed.

Lemma walk_view_hits hops finalLink components :
  keeps_hits (walk_view d config hops finalLink components) (fun _ => True).
Proof.
  revert components. induction hops as [|hops IH]; intros components; cbn [walk_view]; apply walk_from_hits;
    intros walked target; [by apply keeps_hits_ret|apply IH].
Qed.

Lemma ViewPathThroughLinks_hits p finalLink :
  keeps_hits (ViewPathThroughLinks d config p finalLink) (fun _ => True).
Proof.
  unfold ViewPathThroughLinks. cbv zeta. case_match; [by apply keeps_hits_ret|].
  eapply keeps_hits_bind; [apply walk_view_hits|]. intros [?|] _; by apply keeps_hits_ret.
Qed.
End Hits.

(** ** Opens and creates *)
Section Opens.
Context `{W : Win32} `{CL : !CaseLaws} `{J : Json} `{E : CacheEnv} `{P : Processes} `{H : !EntryHost} `{M : !MountHost}.
Context `{T : !Threads} (config : LayerConfig).

Lemma wp_io {A} (m : eff disk A) Q (c : FileContext) : (forall d, Q (snd (m d)) c) -> wp (on_mount (mio m)) Q c.
Proof. intros HQ s. unfold on_mount, mio, on_engine, io. specialize (HQ (engineDisk (engine (fst (s, c))))).
  cbn [fst snd] in *. by destruct (m _). Qed.

(** The context that a run on a context of its own gives. *)
Lemma with_context_wp {A} c (m : ctx_eff A) (Q : A -> FileContext -> Prop) s :
  wp m Q c -> let r := snd (with_context c m s) in Q (snd r) (fst r).
Proof. intros Hm. specialize (Hm s). unfold with_context. by destruct (m (s, c)) as [[s' c'] a]. Qed.

Lemma finish_open_ok c : ctx_ok config c -> wp (finish_open config) (fun _ => ctx_ok config) c.
Proof. intros [Hp Hh]. unfold finish_open. wp_steps; by split. Qed.

Lemma SetOpenPath_ok hostNorm resolved c :
  hit_ok config resolved -> no_parent hostNorm -> names_ok c ->
  wp (SetOpenPath config hostNorm resolved) (fun status c' => NT_SUCCESS status = true -> path_ok config c') c.
Proof.
  intros Hr Hhost Hn. unfold SetOpenPath. wp_step. wp_step. wp_step.
  - wp_step. eapply wp_mono; [|apply CopyUpForHandle_place]. intros status c1 Hs. cbn beta. wp_steps; [|congruence].
    intros _. split; [intros _|exact (same_place_names c c1 Hs Hn)]. apply under_upper_GetUpperPath; [done|apply Hn].
  - wp_steps. intros _. split; [|done]. intros Hw. cbn in Hw. apply bool_decide_eq_true in Hw. apply Hr; [done|apply Hn].
Qed.

Lemma open_resolved_ok hostNorm resolved c :
  hit_ok config resolved -> no_parent hostNorm -> names_ok c ->
  wp (open_resolved config hostNorm resolved) (fun r c' => NT_SUCCESS (fst r) = true -> ctx_ok config c') c.
Proof.
  intros Hr Hhost Hn. unfold open_resolved. wp_step.
  apply (wp_mono _ (fun status c' => NT_SUCCESS status = true -> ctx_ok config c')).
  { intros status c' Hc'. destruct (NT_SUCCESS status) eqn:Es; cbn [negb]; [|wp_step; cbn [fst]; congruence].
    eapply wp_mono; [|by apply finish_open_ok, Hc']. by intros. }
  wp_step. eapply wp_mono; [|by apply SetOpenPath_ok]. intros status c1 Hp1. cbn beta. wp_step; [|congruence].
  specialize (Hp1 Heqb). wp_step. apply (wp_mono _ (fun _ => path_ok config)).
  2: { wp_step; [|by wp_step]. eapply wp_mono; [|apply ReadMetacopyFlag_place]. intros [] c2 Hs. by apply (same_place_path config c1). }
  intros _ c2 Hp2. wp_step. eapply wp_mono; [|apply FillShellForDataAccess_place].
  intros status3 c3 Hs. cbn beta. wp_step; [|congruence].
  wp_step. wp_step. eapply wp_mono; [|apply wp_open_ok; by apply (same_place_path config c2)]. intros ? ? [? _] _. done.
Qed.

Lemma opened_ok r status c info :
  opened r = (status, Some (c, info)) -> fst r = c /\ NT_SUCCESS (fst (snd r)) = true.
Proof.
  destruct r as [c' [st [i|]]]; cbn; [|done]. destruct (NT_SUCCESS st) eqn:Es; [|done]. by intros [= _ <- _].
Qed.

(** The end of an open on a context of its own. *)
Lemma opened_context_ok c0 (m : ctx_eff (NTSTATUS * option InternalFileInfo)) s status c info :
  wp m (fun r c' => NT_SUCCESS (fst r) = true -> ctx_ok config c') c0 ->
  snd ((let! r := with_context c0 m in eret (opened r))%eff s) = (status, Some (c, info)) -> ctx_ok config c.
Proof.
  intros Hm. pose proof (with_context_wp c0 m _ s Hm) as Hr. unfold ebind.
  destruct (with_context c0 m s) as [s' r]. cbn [snd eret] in *. intros [<- Hs]%opened_ok. by apply Hr.
Qed.

Lemma ResolveContextMaximumAllowed_ok access c : ctx_ok config c ->
  wp (ResolveContextMaximumAllowed access) (fun _ => ctx_ok config) c.
Proof. intros [Hp Hh]. unfold ResolveContextMaximumAllowed. wp_steps; by split. Qed.

Lemma OpenRoot_ok access options pid s status c info :
  snd (OpenRoot config access options pid s) = (status, Some (c, info)) -> ctx_ok config c.
Proof.
  assert (Hu : forall h, path_ok config (Ctx h (upperPath config) [] true true false false pid 0 options false [])).
  { intros h. split; [intros _; apply under_upper_root|]. split; [apply below_root_nil|apply stream_text_nil]. }
  apply opened_context_ok. wp_step. wp_step. wp_step; [|wp_step; intros _; split; [apply Hu|done]].
  wp_step. wp_step. wp_step. eapply wp_mono; [|apply ResolveContextMaximumAllowed_ok].
  - intros status1 c1 H1. cbn beta. wp_step; [by wp_step|]. eapply wp_mono; [|by apply finish_open_ok]. by intros.
  - split; [apply Hu|]. intros h' [= <-]. left. by eexists _, _, _.
Qed.

(** A step of an open before its context: it keeps the hits of the cache. *)
Definition before_open {A} (m : eff MountState A) (Q : A -> Prop) : Prop :=
  forall s, hits_ok config (lookups (engine s)) -> hits_ok config (lookups (engine (fst (m s)))) /\ Q (snd (m s)).

Lemma before_open_lookup {A} (m : disk -> eff ResolverState A) Q :
  (forall d, keeps_hits config (m d) Q) -> before_open (mlookup m) Q.
Proof.
  intros Hm s Hs. unfold mlookup, on_engine, lookup_in. specialize (Hm (engineDisk (engine s)) _ Hs).
  by destruct (m _ _).
Qed.

Lemma before_open_check pid path op : before_open (check_access pid path op) (fun _ => True).
Proof.
  intros s Hs. unfold check_access. destruct (tracker s); [|done]. destruct (pid =? 0); [done|].
  by destruct (CheckAccess _ _ _ _ _ _ _) as [t' [isAllowed denied]].
Qed.

Lemma before_open_bind {A B} (m : eff MountState A) (k : A -> eff MountState B) Q (R : B -> Prop) s :
  before_open m Q -> hits_ok config (lookups (engine s)) ->
  (forall a s', Q a -> hits_ok config (lookups (engine s')) -> R (snd (k a s'))) -> R (snd (ebind m k s)).
Proof. intros Hm Hs Hk. specialize (Hm s Hs) as [H1 H2]. unfold ebind. destruct (m s) as [s' a]. by apply Hk. Qed.

Lemma before_open_walk path finalLink :
  before_open (WalkCallerPath config path finalLink) (fun v => ch_slash ∉ viewNormalized (view v)).
Proof.
  intros s Hs. split.
  - apply (before_open_lookup _ (fun _ => True)); [|done]. intros d. apply ViewPathThroughLinks_hits.
  - rewrite WalkCallerPath_normalized. apply normalize_no_slash.
Qed.

Lemma Open_ok path access options pid s status c info :
  hits_ok config (lookups (engine s)) ->
  snd (Open config path access options pid s) = (status, Some (c, info)) -> ctx_ok config c.
Proof.
  intros Hs. unfold Open.
  apply (before_open_bind _ _ (fun v => ch_slash ∉ viewNormalized (view v))
           (fun r => r = (status, Some (c, info)) -> ctx_ok config c)).
  1: apply before_open_walk. 1: done.
  intros v s1 Hslash Hs1. cbv zeta. case_match; [done|].
  assert (Hnames : forall hostNorm suffix, (if bool_decide (viewNormalized (view v) = []) then Some ([], [])
            else TryParseStreamPath (viewNormalized (view v))) = Some (hostNorm, suffix) ->
            no_parent hostNorm /\ stream_text suffix).
  { intros hostNorm suffix. case_bool_decide; [|intros Hp; exact (parsed_names _ _ _ Hslash Hp)]. intros [= <- <-].
    split; [apply below_root_nil|apply stream_text_nil]. }
  destruct (if bool_decide _ then Some ([], []) else _) as [[hostNorm suffix]|] eqn:Et; [|done].
  destruct (Hnames _ _ eq_refl) as [Hhost Hsuffix].
  apply (before_open_bind _ _ (fun _ => True) (fun r => r = (status, Some (c, info)) -> ctx_ok config c)).
  1: apply before_open_check. 1: done.
  intros isAllowed s2 _ Hs2. destruct isAllowed; cbn [negb]; [|done]. case_match; [apply OpenRoot_ok|].
  apply (before_open_bind _ _ (hit_ok config) (fun r => r = (status, Some (c, info)) -> ctx_ok config c)).
  1: { apply before_open_lookup. intros d. apply ResolvePath_hits. } 1: done.
  intros resolved s3 Hr _. case_match; [done|]. case_match; [done|].
  unfold ebind at 1. destruct (ResolveMaximumAllowed _ _ _ s3) as [s4 [a|e]]; [|done].
  apply opened_context_ok. by apply open_resolved_ok; [| |split].
Qed.

(** ** Creates *)

(** What a create promises of its context once it succeeds. *)
Definition created_ok (r : NTSTATUS * option InternalFileInfo) (c : FileContext) : Prop :=
  NT_SUCCESS (fst r) = true -> ctx_ok config c.

Lemma FinishCreatedEntry_ok create c : ctx_ok config c -> wp (FinishCreatedEntry config create) created_ok c.
Proof. intros Hc. unfold FinishCreatedEntry. wp_steps; by intros _. Qed.

Lemma guarded_ok (body : ctx_eff (NTSTATUS * option InternalFileInfo)) undo c :
  wp body created_ok c -> wp (guarded failed_create body undo) created_ok c.
Proof.
  intros Hb. unfold guarded. wp_step. eapply wp_mono; [|exact Hb]. intros r c' Hr. cbn beta.
  unfold failed_create. destruct (NT_SUCCESS (fst r)) eqn:Er; cbn [negb]; [by wp_step|].
  intros s. unfold ebind, created_ok. destruct (undo (s, c')). cbn [fst snd eret]. by rewrite Er.
Qed.

Lemma resolved_then_finished access create c : ctx_ok config c ->
  wp (ResolveContextMaximumAllowed access)
    (fun status c' => if NT_SUCCESS status then wp (FinishCreatedEntry config create) created_ok c'
                      else created_ok (status, None) c') c.
Proof.
  intros Hc. eapply wp_mono; [|by apply ResolveContextMaximumAllowed_ok]. intros status c' Hc'. cbn beta.
  case_match; [by apply FinishCreatedEntry_ok|by intros _].
Qed.

Lemma created_handle_ok path (c : FileContext) h : path_ok config c -> ctx_actualPath c = path -> opened_at path h ->
  ctx_ok config (set_handle (Some h) c).
Proof. intros Hp <- Hh. split; [done|]. by intros h' [= <-]. Qed.

Lemma CreateDirectoryInUpper_ok create c :
  ctx_ok config c -> ctx_actualPath c = createUpperPath create ->
  wp (CreateDirectoryInUpper config create) created_ok c.
Proof.
  intros Hc Hpath. unfold CreateDirectoryInUpper. wp_step. wp_step. wp_step; [|wp_step; by intros _].
  apply guarded_ok. unfold finish_directory_create. wp_step. wp_step.
  apply (wp_mono _ (fun _ => eq c)); [|by wp_steps]. intros status c1 <-. wp_step; [|by intros _].
  wp_step. wp_step. wp_step; [|by intros _]. wp_step. wp_step.
  wp_step; [|wp_step; wp_step; [by apply FinishCreatedEntry_ok|by intros _]].
  wp_step. wp_step. apply resolved_then_finished. eapply created_handle_ok; [apply Hc|exact Hpath|].
  left. by eexists _, _, _.
Qed.

Lemma CreateFileInUpper_ok create c : ctx_ok config c -> wp (CreateFileInUpper config create) created_ok c.
Proof.
  intros Hc. unfold CreateFileInUpper. wp_step.
  apply (wp_mono _ (fun _ => eq c)); [|by wp_steps]. intros status c1 <-. wp_step; [|by intros _].
  wp_step. wp_step. wp_step. wp_step. wp_step. apply wp_io. intros d2. cbn beta.
  destruct (snd (CreateFileW _ _ _ _ _ d2)) as [h|e] eqn:Eh; [|wp_step; by intros _].
  wp_step. wp_step. apply guarded_ok. unfold finish_file_create. wp_step. wp_step.
  eapply wp_mono; [|apply ResolveContextMaximumAllowed_ok; eapply created_handle_ok; [apply Hc|done|right; by eexists _, _, _]].
  intros status1 c1 H1. cbn beta. wp_step; [|by intros _].
  apply (wp_mono _ (fun _ => eq c1)); [|by wp_steps]. intros status2 c2 <-. wp_step; [|by intros _].
  by apply FinishCreatedEntry_ok.
Qed.

Lemma ParseStreamPath_suffix p path : ParseStreamPath p = Some path -> streamSuffix path = [] -> callerStreamSuffix path = [].
Proof.
  unfold ParseStreamPath. case_match; [|done]. destruct p0 as [host suffix]. intros [= <-]. cbn.
  unfold CaseFoldedName, CharLowerBuffW. apply fmap_nil_inv.
Qed.

(** A directory create that passes its checks names no stream. *)
Lemma CheckCreatePreconditions_suffix request path s :
  IsDirectoryCreate request = true ->
  NT_SUCCESS (fst (snd (CheckCreatePreconditions config request path s))) = true -> streamSuffix path = [].
Proof.
  intros Hd. unfold CheckCreatePreconditions. unfold ebind at 1. cbn [mlook on_engine look snd].
  unfold mlook, on_engine, look. cbn beta iota. case_match; [done|]. unfold ebind at 1.
  destruct (check_access _ _ _ _) as [s1 isAllowed]. destruct isAllowed; cbn [negb]; [|done].
  rewrite Hd. cbn [andb]. case_bool_decide; [done|done].
Qed.

(** The names that a create parses: as the caller wrote them, and folded. *)
Lemma ParseStreamPath_names p path :
  ParseStreamPath p = Some path ->
  below_root (NormalizePathPreserveCase (callerHost path)) /\ stream_text (callerStreamSuffix path) /\
  no_parent (hostNorm path) /\ stream_text (streamSuffix path).
Proof.
  unfold ParseStreamPath. destruct (TryParseStreamPath _) as [[host suffix]|] eqn:Et; [|done]. intros [= <-]. cbn.
  destruct (parsed_names _ _ _ (proj1 (preserve_canonical p)) Et) as [Hh Hs].
  split_and!; [by apply no_parent_preserve|done|by apply no_parent_lower|by apply stream_text_lower].
Qed.

Lemma BuildCreate_ok request p path r create c :
  ParseStreamPath p = Some path ->
  BuildCreate config request path r (GetUpperPathForNewEntry config (callerHost path)) = (create, c) ->
  ctx_ok config c /\ (callerStreamSuffix path = [] -> ctx_actualPath c = createUpperPath create).
Proof.
  intros Hp [= <- <-]. destruct (ParseStreamPath_names _ _ Hp) as (Hcaller & Hcallers & Hhost & Hsuffix).
  split; [split; [split; [intros _; by apply under_upper_new_entry|by split]|done]|].
  cbn. intros ->. apply app_nil_r.
Qed.

Lemma Create_ok request s status c info :
  snd (Create config request s) = (status, Some (c, info)) -> ctx_ok config c.
Proof.
  unfold Create. unfold ebind at 1. destruct (WalkCallerPath _ _ _ s) as [s1 v]. case_match; [done|].
  case_match eqn:Ep; [|done]. unfold ebind at 1.
  destruct (CheckCreatePreconditions config request s0 s1) as [s2 [pre r]] eqn:Ec. case_match eqn:Epre; [done|].
  unfold ebind at 1. destruct (on_engine _ s2) as [s3 parent]. case_match; [done|].
  destruct (BuildCreate _ _ _ _ _) as [create c0] eqn:Eb. apply (BuildCreate_ok _ _ _ _ _ _ Ep) in Eb as [Hc Hpath].
  apply opened_context_ok. wp_step. apply (wp_mono _ created_ok).
  - intros made c1 Hm. wp_step. apply (wp_mono _ (fun _ => eq c1)); [|by wp_steps]. intros [] c2 <-. by wp_step.
  - destruct (IsDirectoryCreate request) eqn:Ed; [|by apply CreateFileInUpper_ok].
    apply CreateDirectoryInUpper_ok; [done|]. apply Hpath. eapply ParseStreamPath_suffix; [exact Ep|].
    eapply (CheckCreatePreconditions_suffix request); [done|]. rewrite Ec. by apply negb_false_iff.
Qed.
End Opens.

(** ** The invariant of every context *)
Section Reachable.
Context `{W : Win32} `{CL : !CaseLaws} `{J : Json} `{E : CacheEnv} `{P : Processes} `{H : !EntryHost} `{M : !MountHost}.
Context `{T : !Threads} (config : LayerConfig).

(** The calls on an open file, until its close. *)
Inductive context_op :=
  | CtxRead (offset length_ : Z)
  | CtxWrite (buffer beyond : list Z) (offset : Z) (writeToEnd constrainedIo wantsInfo : bool)
  | CtxOverwrite (fileAttributes : Z) (replaceAttributes : bool) (allocation : Z) (wantsInfo : bool)
  | CtxFlush (wantsInfo : bool)
  | CtxSetInfo (request : SetInfoRequest) (wantsInfo : bool)
  | CtxCleanup
  | CtxDelete
  | CtxRename (newPath : wstring) (replace : bool) (callerPid : Z)
  | CtxUpdatePath (newPath : wstring).

Definition run_context_op (op : context_op) : ctx_eff unit :=
  (let discard {A} (m : ctx_eff A) := do! m in eret tt in
   match op with
   | CtxRead offset length_ => discard (Read offset length_)
   | CtxWrite buffer beyond offset toEnd constrained wantsInfo =>
       discard (Write config buffer beyond offset toEnd constrained wantsInfo)
   | CtxOverwrite attrs replace allocation wantsInfo => discard (Overwrite config attrs replace allocation wantsInfo)
   | CtxFlush wantsInfo => discard (Flush config wantsInfo)
   | CtxSetInfo request wantsInfo => discard (SetInfo config request wantsInfo)
   | CtxCleanup => discard Cleanup
   | CtxDelete => discard (DeleteContext config)
   | CtxRename path replace pid => discard (RenameContext config path replace pid)
   | CtxUpdatePath path => discard (UpdateContextPath config path)
   end)%eff.

(** The contexts of a mount: an open or a create hands one out, from any
    state, and each call on it starts from whatever state the mount has then,
    so other calls may come between. *)
Inductive context_reached : FileContext -> Prop :=
  | reached_open path access options pid s status c info :
      hits_ok config (lookups (engine s)) ->
      snd (Open config path access options pid s) = (status, Some (c, info)) -> context_reached c
  | reached_create request s status c info :
      snd (Create config request s) = (status, Some (c, info)) -> context_reached c
  | reached_call op s c : context_reached c -> context_reached (snd (fst (run_context_op op (s, c)))).

Lemma run_context_op_ok op c : ctx_ok config c -> wp (run_context_op op) (fun _ => ctx_ok config) c.
Proof.
  intros Hc. destruct op; cbn [run_context_op]; wp_step;
    (eapply wp_mono; [|first [by apply Read_ok | by apply Write_ok | by apply Overwrite_ok | by apply Flush_ok
       | by apply SetInfo_ok | by apply Cleanup_ok | by apply DeleteContext_ok | by apply RenameContext_ok
       | by apply UpdateContextPath_ok]]); intros a c' Hc'; by wp_step.
Qed.

Lemma context_reached_ok c : context_reached c -> ctx_ok config c.
Proof.
  induction 1 as [|  |op s c _ IH]; [by eapply Open_ok|by eapply Create_ok|].
  exact (run_context_op_ok op c IH s).
Qed.

Lemma info_result_state wantsInfo s : fst (info_result config wantsInfo s) = s.
Proof. unfold info_result. by destruct wantsInfo. Qed.

(** C5: whatever calls an open file has seen, from any states of the mount,
    its context is marked writable only at the upper or at a path below it, or
    a stream there: never beside the upper, and never through a parent.  Its
    names stay below the root, and its handle was opened or created at its
    path.  A failed copy-up, reopen or rename included: the handle is closed
    before the path changes. *)
Theorem context_invariant c :
  context_reached c ->
  (ctx_writable c = true -> under_upper config (ctx_actualPath c)) /\
  (no_parent (ctx_relativePath c) /\ stream_text (ctx_streamSuffix c)) /\
  (forall h, ctx_handle c = Some h -> opened_at (ctx_actualPath c) h).
Proof. intros Hc. destruct (context_reached_ok c Hc) as [[Hw Hn] Hh]. split; [exact Hw|]. split; [exact Hn|exact Hh]. Qed.

Lemma EnsureHandleReady_ready s c : ctx_handle c <> None -> ctx_handleNeedsReopen c = false ->
  EnsureHandleReady (s, c) = ((s, c), STATUS_SUCCESS).
Proof.
  intros Hh Hr. unfold EnsureHandleReady, ebind, the_ctx. cbn [fst snd]. rewrite Hr. by rewrite bool_decide_true.
Qed.

(** A context that is ready at the upper goes through the steps unchanged. *)
Lemma change_steps_ready op path s c :
  ctx_handle c <> None -> ctx_handleNeedsReopen c = false -> ctx_writable c = true -> ctx_isMetacopyOnly c = false ->
  let '((s1, c1), _) := change_steps config op path (s, c) in c1 = c /\ engineDisk (engine s1) = engineDisk (engine s).
Proof.
  intros Hh Hr Hw Hm. unfold change_steps, then_status, ebind. rewrite EnsureHandleReady_ready by done.
  change (NT_SUCCESS STATUS_SUCCESS) with true. cbn iota beta.
  unfold allow_context, ebind, the_ctx, on_mount. cbn [fst snd].
  pose proof (same_disk _ _ (looks_check_access (ctx_ownerPid c) (ctx_relativePath c) op s)) as Hd.
  destruct (check_access _ _ _ s) as [s1 isAllowed]. cbn [fst eret] in *.
  destruct isAllowed; [|by cbn]. change (NT_SUCCESS STATUS_SUCCESS) with true. cbn iota beta.
  unfold EnsureInUpperLayer, ebind, the_ctx. cbn [fst snd].
  rewrite Hw, Hr, (bool_decide_true (ctx_handle c <> None)) by done. cbn [negb andb eret].
  change (NT_SUCCESS STATUS_SUCCESS) with true. cbn iota beta.
  unfold EnsureMetacopyMaterialized, ebind, the_ctx. cbn [fst snd]. by rewrite Hm.
Qed.

(** C4: a write that succeeds makes its one write through a handle that was
    opened at a path of the upper, at the place and with the number of bytes
    that [write_range] gives for the size of that file, whatever layer the file
    was opened on.  It starts where the steps before the write end: the handle,
    the tracker, the copy-up to the upper and the fill of a shell.  A file that
    is ready at the upper goes through them unchanged, so the write is then all
    that happens to the disk. *)
Theorem Write_changes_only_the_upper buffer beyond offset writeToEnd constrainedIo wantsInfo s c :
  context_reached c ->
  let '((s1, c1), _) := change_steps config OpWrite (ctx_relativePath c) (s, c) in
  let '((s', c'), (status, count, _)) :=
    Write config buffer beyond offset writeToEnd constrainedIo wantsInfo (s, c) in
  NT_SUCCESS status = true -> count <> 0 ->
  (exists h size at_ n,
    c' = c1 /\ under_upper config (ctx_actualPath c1) /\
    ctx_handle c1 = Some h /\ opened_at (ctx_actualPath c1) h /\
    GetFileSizeEx (engineDisk (engine s1)) h = Ok size /\
    write_range offset (Z.of_nat (length buffer)) size writeToEnd constrainedIo = Some (at_, n) /\
    WriteFileAt h at_ (bytes_written buffer beyond n) (engineDisk (engine s1)) =
      (engineDisk (engine s'), Ok count)) /\
  (ctx_handle c <> None -> ctx_handleNeedsReopen c = false -> ctx_writable c = true -> ctx_isMetacopyOnly c = false ->
   c1 = c /\ engineDisk (engine s1) = engineDisk (engine s)).
Proof.
  intros Hc%context_reached_ok. unfold Write. unfold ebind at 1, the_ctx at 1. cbn [snd].
  pose proof (change_steps_ok config OpWrite (ctx_relativePath c) c (own_path_ok config c Hc) Hc s) as Hready.
  pose proof (change_steps_ready OpWrite (ctx_relativePath c) s c) as Hsame.
  change (step! EnsureHandleReady in step! allow_context OpWrite in
          step! EnsureInUpperLayer config (ctx_relativePath c) in EnsureMetacopyMaterialized config)%eff
    with (change_steps config OpWrite (ctx_relativePath c)).
  unfold ebind at 1. destruct (change_steps config OpWrite (ctx_relativePath c) (s, c)) as [[s1 c1] ready].
  cbn [fst snd] in Hready. destruct Hready as [[Hp Hh] Hu].
  destruct (NT_SUCCESS ready) eqn:Er; cbn [negb]; [|cbn; by rewrite Er]. specialize (Hu eq_refl).
  unfold ebind at 1, the_ctx at 1. cbn [snd]. unfold ebind at 1, on_mount at 1, mlook, on_engine at 1, look.
  cbn [fst snd]. destruct (ctx_handle c1) as [h|] eqn:Eh; cbn [call_on]; [|by cbn].
  destruct (GetFileSizeEx (engineDisk (engine s1)) h) as [size|e] eqn:Es; [|by cbn].
  destruct (write_range _ _ size _ _) as [[at_ n]|] eqn:Ew.
  2: { unfold ebind at 1. destruct (info_result _ _ _) as [[? ?] [? ?]]. by cbn. }
  unfold ebind at 1, on_mount at 1, mio, on_engine at 1, io. cbn [fst snd engine with_engine].
  destruct (WriteFileAt h at_ _ _) as [d2 [count|e]] eqn:Ed; [|by cbn].
  unfold ebind at 1, on_mount at 1. cbn [fst snd count_write count_stats].
  unfold ebind at 1. pose proof (info_result_state wantsInfo) as Hi.
  match goal with |- context [info_result config wantsInfo ?x] => specialize (Hi x);
    destruct (info_result config wantsInfo x) as [[s3 c3] [status info]] end.
  cbn [fst] in Hi. injection Hi as -> ->. cbn [eret fst snd]. intros _ _. split; [|by intros; apply Hsame].
  exists h, size, at_, n. split_and!; try done. by apply Hh.
Qed.
End Reachable.
