(* ===== verification/MountFacts.v ===== *)
(** * Reads, writes and renames of a mount

    What a read gives, where a write goes, and what a rename that the checks
    let through may replace; and [MountHost] over [mem_win32], with the operations of a mount run
    on the overlay of [EngineFacts]. *)
From S2P Require Export MountRename EngineFacts ContextFacts ResolverFacts.
Open Scope Z_scope.

(** ** A mount on the concrete volume

    [MountHost] over [mem_win32], and the operations of a mount run on the
    overlay of [EngineFacts]. *)

(** Every process is unknown to the system. *)
#[export] Instance no_processes : Processes := {|
  process_handle := unit; token := unit; sid := unit;
  OpenProcess := fun _ _ => None; QueryFullProcessImageNameW := fun _ => None;
  has_NtQueryInformationProcess := false; NtQueryPebBaseAddress := fun _ => None;
  ReadProcessMemory := fun _ _ _ => None; OpenProcessToken := fun _ => None; TokenUser := fun _ => None;
  TokenIsElevated := fun _ => None; LookupAccountSidW := fun _ => None; ConvertSidToStringSidW := fun _ => None
|}.

(** The index of an entry is its place; all access is granted; descriptors
    are empty and the volume is NTFS. *)
#[export] Instance mem_mount_host : MountHost (W := mem_win32) (H := mem_entry_host) := {|
  GetFileInformationByHandle := MemWin32.field (fun e =>
    HandleInfo (MemWin32.me_attributes e) no_times 0 (Z.of_nat (length (MemWin32.me_data e))) 0 7);
  GetStandardAllocation := fun _ _ => Ok 0;
  NtQueryObject := Some (fun _ _ => Ok FILE_ALL_ACCESS);
  FlushFileBuffers := fun _ => eret (Ok tt);
  GetDiskFreeSpaceExW := fun _ _ => Ok (1000, 400);
  FindStreams := fun _ _ => Ok ([(L "::$DATA", 1)], ERROR_HANDLE_EOF);
  SetFileTimes := fun _ _ _ _ => eret (Ok tt);
  SetFileAttributesW := fun p attrs => MemFiles.set_attributes p attrs;
  DeleteReparse := fun _ _ => eret (Ok tt);
  security_parts := fun _ => CarriedParts false false false false;
  SetObjectSecurity := fun _ _ _ => eret (Ok tt);
  GetFileSecurityBytes := fun _ _ _ _ => (0, Ok []);
  ConvertSddl := fun s => Ok s;
  GetVolumeSerial := fun _ _ => Ok 1;
  GetWideSerial := fun _ _ => Ok 1;
  GetFileSystemName := fun _ _ => Some (L "NTFS");
  steady_now := fun _ => 0;
  system_now := fun _ => 0
|}.

#[local] Existing Instance Fixture.no_json.

Module Mounted.
Definition start : MountState (W := mem_win32) := {|
  engine := Engine.start; tracker := None;
  stats := {| readCount := 0; writeCount := 0; activeHandles := 0; bytesRead := 0; bytesWritten := 0 |};
  upperFinalPath := L "\\?\C:\u" |}.

Definition disk_of (s : MountState (W := mem_win32)) : MemWin32.volume := engineDisk (engine s).

(** An open, then a call on the context. *)
Definition opened_then {A} (p : string) (access : Z) (m : ctx_eff A)
  : option (MountState (W := mem_win32) * FileContext (W := mem_win32) * A) :=
  match Open Fixture.config (L p) access 0 0 start with
  | (s, (_, Some (c, _))) => Some (m (s, c))
  | (_, (_, None)) => None
  end.
End Mounted.
Import Mounted.

(** ** Reads, writes and renames of a mount

    What a read gives, where a write goes, and which renames the checks let
    through. *)

(** ** The range of a write *)

Lemma to_signed_small n : 0 <= n < 2 ^ 63 -> to_signed n = n.
Proof. intros Hn. unfold to_signed. by rewrite (proj2 (Z.ltb_lt n (2 ^ 63))) by lia. Qed.

Lemma to_unsigned_small n : 0 <= n < 2 ^ 64 -> to_unsigned n = n.
Proof. apply Z.mod_small. Qed.

(** C29: where a write goes.  An unconstrained write takes the whole buffer,
    from the offset or from the end of the file.  A constrained write from an
    offset below 2^63 stays inside the file, takes no more bytes than the
    buffer has and writes nothing at or past the end.  An offset of 2^63 or
    more is negative as a LONGLONG, so it passes the test against the end of
    the file: the write then takes a length from the wrapped difference, more
    bytes than the buffer holds, or keeps its own length at an offset that
    means the end of the file. *)
Theorem write_range_bounds offset length_ size writeToEnd :
  0 <= size < 2 ^ 63 -> 0 <= length_ < 2 ^ 32 -> 0 <= offset < 2 ^ 64 ->
  let start := if (writeToEnd : bool) then size else offset in
  write_range offset length_ size writeToEnd false = Some (start, length_) /\
  (start < 2 ^ 63 ->
   write_range offset length_ size writeToEnd true =
     (if size <=? start then None else Some (start, Z.min length_ (size - start)))) /\
  (2 ^ 63 <= start ->
   write_range offset length_ size writeToEnd true =
     Some (start, if size <? (start + length_) mod 2 ^ 64 then (size - start) mod 2 ^ 32 else length_)) /\
  write_range (2 ^ 64 - 16) 8 0 false true = Some (2 ^ 64 - 16, 16) /\
  write_range (2 ^ 64 - 1) 8 10 false true = Some (2 ^ 64 - 1, 8).
Proof.
  intros Hs Hl Ho start.
  assert (Hst : to_unsigned (if writeToEnd then size else to_signed offset) = start).
  { subst start. destruct writeToEnd; [apply to_unsigned_small; lia|]. unfold to_signed, to_unsigned.
    destruct (Z.ltb_spec offset (2 ^ 63)); [apply Z.mod_small; lia|].
    symmetry. apply (Z.mod_unique _ _ (-1)); lia. }
  split_and!; [unfold write_range; by rewrite Hst| | |done|done]; intros Hstart; unfold write_range; rewrite Hst; cbn [negb].
  - assert (Hsigned : (if writeToEnd then size else to_signed offset) = start).
    { subst start. destruct writeToEnd; [done|]. apply to_signed_small. lia. }
    rewrite Hsigned. destruct (Z.leb_spec size start); [done|].
    assert (0 <= start) by (subst start; destruct writeToEnd; lia).
    rewrite !to_unsigned_small by lia. destruct (Z.ltb_spec size (start + length_)).
    + rewrite Z.mod_small by lia. do 2 f_equal. lia.
    + do 2 f_equal. lia.
  - assert (Hneg : (if writeToEnd then size else to_signed offset) = start - 2 ^ 64).
    { subst start. destruct writeToEnd; [lia|]. unfold to_signed. destruct (Z.ltb_spec offset (2 ^ 63)); lia. }
    rewrite Hneg. destruct (Z.leb_spec size (start - 2 ^ 64)).
    { subst start. destruct writeToEnd; lia. }
    rewrite (to_unsigned_small size) by lia. unfold to_unsigned.
    destruct (size <? _); [|done]. do 2 f_equal.
    replace (size - (start - 2 ^ 64)) with (size - start + 2 ^ 32 * 2 ^ 32) by lia. by rewrite Z.mod_add.
Qed.

Lemma write_range_bounds_witness :
  write_range 6 8 10 false true = Some (6, 4) /\ write_range 20 8 10 false true = None.
Proof.
  split.
  - exact (proj1 (proj2 (write_range_bounds 6 8 10 false ltac:(lia) ltac:(lia) ltac:(lia))) ltac:(lia)).
  - exact (proj1 (proj2 (write_range_bounds 20 8 10 false ltac:(lia) ltac:(lia) ltac:(lia))) ltac:(lia)).
Defined.

Section Facts.
Context `{W : Win32} `{CL : !CaseLaws} `{J : Json} `{E : CacheEnv} `{P : Processes} `{H : !EntryHost} `{M : !MountHost}.
Context `{T : !Threads} (config : LayerConfig).

(** ** Reads *)

(** a read through an open handle leaves the layers and the context as
    they are.  It gives the bytes of the file at the offset and then zeros up
    to the length that the caller asked for, and counts the bytes of the file;
    or it gives nothing, and at the end of the file its status says so. *)
Theorem Read_fills_the_buffer `{DL : !DataLaws} offset length_ h s c :
  ctx_handle c = Some h -> ctx_handleNeedsReopen c = false -> 0 <= offset -> 0 < length_ ->
  let '((s', c'), (status, count, buffer)) := Read offset length_ (s, c) in
  let d := engineDisk (engine s) in
  c' = c /\ engineDisk (engine s') = d /\
  match buffer with
  | Some bytes =>
      status = STATUS_SUCCESS /\ Z.of_nat (length bytes) = length_ /\ 0 < count <= length_ /\
      take (Z.to_nat count) bytes `prefix_of` drop (Z.to_nat offset) (content d h) /\
      (forall i, (Z.to_nat count <= i)%nat -> byte_at bytes i = 0) /\
      bytesRead (stats s') = (bytesRead (stats s) + count) mod 2 ^ 64
  | None =>
      count = 0 /\ stats s' = stats s /\
      (ReadFileAt d h offset length_ = Ok [] -> tracker s = None ->
       status = STATUS_END_OF_FILE /\ Z.of_nat (length (content d h)) <= offset)
  end.
Proof.
  intros Hh Hr Ho Hl. unfold Read. unfold ebind at 1, then_status at 1, ebind at 1.
  rewrite EnsureHandleReady_ready by (by rewrite ?Hh). change (NT_SUCCESS STATUS_SUCCESS) with true.
  unfold allow_context. unfold ebind at 1, the_ctx at 1. cbn [snd]. unfold ebind at 1, on_mount at 1. cbn [fst snd].
  pose proof (looks_check_access (ctx_ownerPid c) (ctx_relativePath c) OpRead s) as Hs.
  assert (Hno : tracker s = None -> check_access (ctx_ownerPid c) (ctx_relativePath c) OpRead s = (s, true))
    by (intros Ht; unfold check_access; by rewrite Ht).
  destruct (check_access _ _ _ s) as [s1 isAllowed]. cbn [fst] in Hs. destruct Hs as [Hd (Hst & _) _ _].
  destruct isAllowed; cbn [eret];
    [change (NT_SUCCESS STATUS_SUCCESS) with true|change (NT_SUCCESS STATUS_ACCESS_DENIED) with false]; cbn [negb].
  2: { cbn. split_and!; try done. intros _ Ht. by specialize (Hno Ht). }
  unfold ebind at 1, the_ctx at 1. cbn [snd]. unfold ebind at 1, on_mount at 1, mlook, on_engine, look. cbn [fst snd].
  rewrite Hh. cbn [call_on]. rewrite Hd. destruct (ReadFileAt _ h offset length_) as [data|e] eqn:Er.
  2: { destruct (e =? ERROR_HANDLE_EOF); cbn; by rewrite Hd. }
  pose proof (read_content _ _ _ _ _ Ho Hl Er) as (Hpre & Hlen & Hnil).
  destruct (Z.eqb_spec (Z.of_nat (length data)) 0) as [H0|H0].
  { destruct data; [|done]. destruct (Z.eqb_spec length_ 0); [lia|]. cbn. rewrite Hd. split_and!; try done.
    intros _ _. split; [done|by apply Hnil]. }
  cbn [andb]. unfold ebind at 1, on_mount at 1. cbn [fst snd count_read count_stats eret engine with_engine stats].
  rewrite Hd, Hst. split_and!; try done; unfold ZeroFillTail.
  - rewrite length_app, length_replicate. lia.
  - lia.
  - by rewrite Nat2Z.id, take_app_length.
  - rewrite Nat2Z.id. intros i Hi. unfold byte_at. rewrite lookup_app_r by done.
    destruct (_ !! _) as [b|] eqn:Eb; [|done]. by apply lookup_replicate in Eb as [-> _].
Qed.

(** ** The checks of a rename *)





(** ** A coherent cache through the checks *)

(** The cache holds what the layers show. *)
Definition cache_coherent (s : MountState) : Prop :=
  coherent (engineDisk (engine s)) config (cache (lookups (engine s))).

Definition keeps_coherent {A} (m : eff MountState A) : Prop := forall s, cache_coherent s -> cache_coherent (fst (m s)).

Lemma keeps_coherent_ret {A} (a : A) : keeps_coherent (eret a).
Proof. by intros s Hs. Qed.

Lemma keeps_coherent_bind {A B} (m : eff MountState A) (k : A -> eff MountState B) :
  keeps_coherent m -> (forall a, keeps_coherent (k a)) -> keeps_coherent (ebind m k).
Proof. intros Hm Hk s Hs. unfold ebind. specialize (Hm s Hs). destruct (m s) as [s' a]. by apply Hk. Qed.

Lemma keeps_coherent_look {A} (f : disk -> A) : keeps_coherent (mlook f).
Proof. by intros s Hs. Qed.

Lemma keeps_coherent_check pid path op : keeps_coherent (check_access pid path op).
Proof.
  intros s Hs. unfold check_access. destruct (tracker s); [|done]. destruct (pid =? 0); [done|].
  by destruct (CheckAccess _ _ _ _ _ _ _) as [t' [isAllowed denied]].
Qed.

(** The lookup of a mount gives what the layers show. *)
Lemma mlookup_coherent p s : cache_coherent s ->
  let (s', r) := mlookup (fun d => ResolvePath d config p) s in
  cache_coherent s' /\ r = lookup_spec (engineDisk (engine s)) config (S kMaxRedirectDepth) p.
Proof.
  intros Hs. unfold mlookup, on_engine, lookup_in.
  pose proof (ResolvePath_lookup_spec (engineDisk (engine s)) config p (lookups (engine s)) Hs) as Hr.
  by destruct (ResolvePath _ _ _ _) as [l r].
Qed.

Lemma keeps_coherent_lookup p : keeps_coherent (mlookup (fun d => ResolvePath d config p)).
Proof. intros s Hs. pose proof (mlookup_coherent p s Hs) as Hr. destruct (mlookup _ s). apply Hr. Qed.

Lemma keeps_coherent_engine_bind {A B} (m : eff EngineState A) (k : A -> eff EngineState B) :
  keeps_coherent (on_engine m) -> (forall a, keeps_coherent (on_engine (k a))) -> keeps_coherent (on_engine (ebind m k)).
Proof.
  intros Hm Hk s Hs. specialize (Hm s Hs). unfold on_engine, ebind in *. destruct (m (engine s)) as [e a].
  specialize (Hk a (with_engine s e) Hm). cbn in Hk. by destruct (k a e).
Qed.

Lemma keeps_coherent_engine_look {A} (f : disk -> A) : keeps_coherent (on_engine (look f)).
Proof. exact (keeps_coherent_look f). Qed.

Lemma keeps_coherent_engine_ret {A} (a : A) : keeps_coherent (on_engine (eret a)).
Proof. by intros s Hs. Qed.

Lemma keeps_coherent_engine_lookup p : keeps_coherent (on_engine (lookup_in (fun d => ResolvePath d config p))).
Proof. exact (keeps_coherent_lookup p). Qed.

Hint Resolve keeps_coherent_ret keeps_coherent_look keeps_coherent_check keeps_coherent_lookup
  keeps_coherent_engine_look keeps_coherent_engine_ret keeps_coherent_engine_lookup : layermount.
Hint Extern 2 (keeps_coherent (ebind _ _)) => apply keeps_coherent_bind; [|intros ?] : layermount.
Hint Extern 2 (keeps_coherent (on_engine (ebind _ _))) => apply keeps_coherent_engine_bind; [|intros ?] : layermount.
Hint Extern 3 (keeps_coherent (match ?x with _ => _ end)) => destruct x : layermount.
Hint Extern 3 (keeps_coherent (on_engine (match ?x with _ => _ end))) => destruct x : layermount.








(** ** The undo of a create *)

Definition undo_warning (c : FileContext) (e : engine_event) : Prop :=
  eventKind e = LM_EVT_WARNING /\ eventPath e = c_str (ctx_relativePath c) /\
  eventMessage e = Some (L "The undo of a failed create could not delete the new entry").

Lemma DeleteCreatedFile_removes `{DL : !DiskLaws} path d :
  snd (DeleteCreatedFile path d) = Ok tt -> ~ visible (fst (DeleteCreatedFile path d)) (WithExtendedPrefix path).
Proof.
  assert (Hgone : forall d, snd (DeleteFileW (WithExtendedPrefix path) d) = Ok tt ->
                  ~ visible (fst (DeleteFileW (WithExtendedPrefix path) d)) (WithExtendedPrefix path)).
  { intros d' Hd. eapply delete_gone; [apply surjective_pairing|]. by left. }
  unfold DeleteCreatedFile, ebind. specialize (Hgone d) as Hg. destruct (DeleteFileW _ d) as [d1 [[]|e]]; [done|].
  destruct (e =? ERROR_ACCESS_DENIED); cbn [negb eret fst snd]; [|done].
  unfold eread. destruct (GetFileAttributesW _ _) as [a|?]; [|done]. destruct (negb _); [done|].
  destruct (SetFileAttributesW _ _ d1) as [d2 [[]|?]]; [|done]. apply Hgone.
Qed.

Lemma undo_step_removes `{DL : !DiskLaws} c s :
  let s' := fst (undo_step (DeleteCreatedFile (ctx_actualPath c)) (ctx_relativePath c)
                   (L "The undo of a failed create could not delete the new entry") s) in
  ~ visible (engineDisk (engine s')) (WithExtendedPrefix (ctx_actualPath c)) \/
  Exists (undo_warning c) (events (engine s')).
Proof.
  unfold undo_step, ebind, mio, on_engine, io. pose proof (DeleteCreatedFile_removes (ctx_actualPath c) (engineDisk (engine s))) as Hr.
  destruct (DeleteCreatedFile _ _) as [d [[]|e]]; cbn [fst snd] in *.
  - left. by apply Hr.
  - right. cbn. apply Exists_app. right. by constructor.
Qed.

Lemma undo_file_create_removes `{DL : !DiskLaws} s c :
  let '((s', c'), _) := undo_file_create None (s, c) in
  ctx_handle c' = None /\
  (~ visible (engineDisk (engine s')) (WithExtendedPrefix (ctx_actualPath c)) \/
   Exists (undo_warning c) (events (engine s'))).
Proof.
  unfold undo_file_create. unfold ebind at 1.
  assert (Hclose : wp CloseContextHandle (fun _ c' => c' = set_handle None c) c) by (by apply wp_close).
  specialize (Hclose s). destruct (CloseContextHandle (s, c)) as [[s1 c1] u]. cbn [fst snd] in Hclose. subst c1.
  unfold ebind at 1, the_ctx. cbn [fst snd]. unfold ebind at 1, on_mount at 1. cbn [fst snd].
  pose proof (undo_step_removes c s1) as Hu. cbn [ctx_actualPath ctx_relativePath set_handle].
  destruct (undo_step _ _ _ s1) as [s2 []]. done.
Qed.

Lemma finish_file_create_place create h c :
  wp (finish_file_create config create h)
    (fun _ c' => ctx_actualPath c' = ctx_actualPath c /\ ctx_relativePath c' = ctx_relativePath c) c.
Proof. unfold finish_file_create, ResolveContextMaximumAllowed, FinishCreatedEntry. wp_steps; done. Qed.

(** C21: the create of a file that fails after it made the file closes its
    handle and deletes the file again, so that the path shows nothing
    afterwards, or a warning for its path says that it could not.  A create
    whose first call fails leaves the disk as that call did. *)
Theorem failed_create_is_undone `{DL : !DiskLaws} create s c :
  streamSuffix (createPath create) = [] ->
  let path := WithExtendedPrefix (ctx_actualPath c) in
  let attrs := if createAttributes create =? 0 then FILE_ATTRIBUTE_NORMAL else createAttributes create in
  let made := CreateFileW path (ComputePhysicalHandleAccess (createAccess create)) share_all CREATE_NEW attrs
                (engineDisk (engine s)) in
  let '((s', c'), (status, _)) := CreateFileInUpper config create (s, c) in
  match snd made with
  | Err e => status = NtStatusFromWin32 e /\ engineDisk (engine s') = fst made /\ c' = c
  | Ok _ =>
      NT_SUCCESS status = false ->
      ctx_handle c' = None /\
      (~ visible (engineDisk (engine s')) path \/ Exists (undo_warning c) (events (engine s')))
  end.
Proof.
  intros Hs path attrs made. unfold CreateFileInUpper. rewrite bool_decide_true by done.
  unfold then_info at 1, ebind at 1. cbn [eret]. change (NT_SUCCESS STATUS_SUCCESS) with true. cbn iota.
  unfold ebind at 1, on_mount at 1, mlook at 1, on_engine, look. cbn [fst snd].
  unfold stream_makes_host. rewrite Hs. rewrite (bool_decide_true ([] = [])) by done. cbn [negb andb].
  unfold ebind at 1, the_ctx at 1. cbn [fst snd]. unfold ebind at 1, on_mount at 1, mio, on_engine, io.
  cbn [fst snd engine with_engine]. fold path. fold attrs. fold made. destruct made as [d1 [h|e]]; cbn [fst snd].
  2: { cbn. done. }
  unfold ebind at 1, set_ctx at 1. cbn [fst snd]. unfold guarded, ebind at 1.
  match goal with |- context [finish_file_create _ _ _ ?x] =>
    pose proof (finish_file_create_place create h (snd x) (fst x)) as Hp; cbn [fst snd] in Hp;
    destruct (finish_file_create config create h x) as [[s2 c2] r] end.
  cbn [fst snd ctx_actualPath ctx_relativePath set_handle] in Hp. destruct Hp as [Hp Hrel].
  unfold failed_create. destruct r as [status info]. cbn [fst].
  destruct (NT_SUCCESS status) eqn:Es; cbn [negb]; [cbn; congruence|].
  unfold ebind. pose proof (undo_file_create_removes s2 c2) as Hu.
  destruct (undo_file_create None (s2, c2)) as [[s3 c3] []]. cbn [eret]. intros _.
  unfold undo_warning in *. rewrite Hp, Hrel in Hu. exact Hu.
Qed.
End Facts.

(** ** Witnesses *)
#[local] Existing Instance Fixture.no_json.
Import Mounted.

Lemma refused_calls_change_nothing_witness :
  DeletePath Fixture.config (L "d") 0 start = CanDelete Fixture.config (L "d") 0 start.
Proof.
  apply (proj2 (proj1 (refused_calls_change_nothing Fixture.config start) (L "d") 0)). vm_compute. reflexivity.
Defined.

(** The context of a file that only a lower holds, opened for a read. *)
Definition lower_context : FileContext (W := mem_win32) :=
  match snd (Open Fixture.config (L "d\g") GENERIC_READ 0 0 start) with
  | (_, Some (c, _)) => c
  | (_, None) => new_context
  end.

Lemma lower_context_reached : context_reached Fixture.config lower_context.
Proof.
  assert (Hsome : bool_decide (is_Some (snd (snd (Open Fixture.config (L "d\g") GENERIC_READ 0 0 start)))) = true)
    by (vm_compute; reflexivity).
  unfold lower_context.
  destruct (snd (Open Fixture.config (L "d\g") GENERIC_READ 0 0 start)) as [status [[c info]|]] eqn:E; [|done].
  eapply reached_open; [|exact E]. intros k e Hk. cbn in Hk. by rewrite lookup_empty in Hk.
Defined.

(** After a write it is at the upper. *)
Lemma context_invariant_witness :
  under_upper (W := mem_win32) Fixture.config (ctx_actualPath
    (snd (fst (run_context_op Fixture.config (CtxWrite [7; 8] [] 1 false false true) (start, lower_context))))).
Proof.
  apply (context_invariant Fixture.config _ (reached_call Fixture.config _ _ _ lower_context_reached)).
  vm_compute. reflexivity.
Defined.

(** A write to a file of a lower: the copy-up, and then the write.  A write to
    the file that is now open at the upper is the write alone. *)
Lemma Write_changes_only_the_upper_witness :
  (let '((s1, _), _) := change_steps Fixture.config OpWrite (ctx_relativePath lower_context) (start, lower_context) in
   exists h size at_ n,
     under_upper (W := mem_win32) Fixture.config (L "C:\u\d\g") /\ h = L "\\?\C:\u\d\g" /\
     @GetFileSizeEx mem_win32 (disk_of s1) h = Ok size /\ write_range 1 2 size false false = Some (at_, n)) /\
  (let '((s2, c2), _) := Write Fixture.config [7; 8] [] 1 false false true (start, lower_context) in
   let '((s3, c3), _) := change_steps Fixture.config OpWrite (ctx_relativePath c2) (s2, c2) in
   c3 = c2 /\ disk_of s3 = disk_of s2).
Proof.
  assert (Hr : (fun r => (fst (fst (snd r)), snd (fst (snd r)), ctx_actualPath (snd (fst r)), ctx_handle (snd (fst r)),
                          ctx_handleNeedsReopen (snd (fst r)), ctx_writable (snd (fst r)), ctx_isMetacopyOnly (snd (fst r))))
                 (Write Fixture.config [7; 8] [] 1 false false true (start, lower_context)) =
               (STATUS_SUCCESS, 2, L "C:\u\d\g", Some (L "\\?\C:\u\d\g"), false, true, false)) by (vm_compute; reflexivity).
  pose proof (Write_changes_only_the_upper Fixture.config [7; 8] [] 1 false false true start lower_context
                lower_context_reached) as Hw.
  assert (Hreach : context_reached Fixture.config (snd (fst (Write Fixture.config [7; 8] [] 1 false false true (start, lower_context))))).
  { pose proof (reached_call Fixture.config (CtxWrite [7; 8] [] 1 false false true) start _ lower_context_reached) as Hc.
    cbn [run_context_op] in Hc. unfold ebind in Hc. by destruct (Write _ _ _ _ _ _ _ (start, lower_context)). }
  split.
  - destruct (change_steps _ _ _ (start, lower_context)) as [[s1 c1] ready].
    destruct (Write Fixture.config [7; 8] [] 1 false false true (start, lower_context)) as [[s' c'] [[status count] info]].
    cbn [fst snd] in Hr. apply pair_equal_spec in Hr as [[[[[[-> ->]%pair_equal_spec Hp]%pair_equal_spec Hh]%pair_equal_spec Hn]%pair_equal_spec Hwr]%pair_equal_spec Hm].
    destruct (Hw eq_refl ltac:(done)) as [(h & size & at_ & n & Hsame & Hu & Hh2 & _ & Hsize & Hrange & _) _].
    exists h, size, at_, n. rewrite <- Hp, Hsame. split_and!; [exact Hu|congruence|exact Hsize|exact Hrange].
  - assert (Hr2 : (fun r => (fst (fst (snd r)), snd (fst (snd r))))
              (let '((s2, c2), _) := Write Fixture.config [7; 8] [] 1 false false true (start, lower_context) in
               Write Fixture.config [9] [] 0 false false false (s2, c2)) = (STATUS_SUCCESS, 1)) by (vm_compute; reflexivity).
    destruct (Write Fixture.config [7; 8] [] 1 false false true (start, lower_context)) as [[s2 c2] [[status count] info]].
    cbn [fst snd] in Hr, Hreach. apply pair_equal_spec in Hr as [[[[[[-> ->]%pair_equal_spec Hp]%pair_equal_spec Hh]%pair_equal_spec Hn]%pair_equal_spec Hwr]%pair_equal_spec Hm].
    pose proof (Write_changes_only_the_upper Fixture.config [9] [] 0 false false false s2 c2 Hreach) as Hw2.
    destruct (change_steps _ _ _ (s2, c2)) as [[s3 c3] ready].
    destruct (Write Fixture.config [9] [] 0 false false false (s2, c2)) as [[s4 c4] [[status2 count2] info2]].
    cbn [fst snd] in Hr2. apply pair_equal_spec in Hr2 as [-> ->].
    destruct (Hw2 eq_refl ltac:(done)) as [_ Hw3]. apply Hw3; [by rewrite Hh|exact Hn|exact Hwr|exact Hm].
Defined.

(** A file of a lower, open; the read asks for more than it holds. *)
Definition open_context : FileContext (W := mem_win32) :=
  Ctx (Some (L "\\?\C:\b\h")) (L "C:\b\h") (L "h") false false false false 0 GENERIC_READ 0 false [].

Lemma Read_fills_the_buffer_witness :
  snd (fst (Read 0 4 (start, open_context))) = open_context /\
  snd (Read 0 4 (start, open_context)) = (STATUS_SUCCESS, 1, Some [1; 0; 0; 0]).
Proof.
  split; [|vm_compute; reflexivity].
  pose proof (Read_fills_the_buffer 0 4 (L "\\?\C:\b\h") start open_context eq_refl eq_refl ltac:(lia) ltac:(lia)) as Hr.
  destruct (Read 0 4 (start, open_context)) as [[s' c'] [[status count] buffer]]. exact (proj1 Hr).
Defined.



(** A host that grants no access query: every create that asks for the maximum
    fails after it made its file. *)
Definition no_query_host : MountHost (W := mem_win32) (H := mem_entry_host) := {|
  GetFileInformationByHandle := GetFileInformationByHandle; GetStandardAllocation := GetStandardAllocation;
  NtQueryObject := None; FlushFileBuffers := FlushFileBuffers; GetDiskFreeSpaceExW := GetDiskFreeSpaceExW;
  FindStreams := FindStreams; SetFileTimes := SetFileTimes; SetFileAttributesW := SetFileAttributesW;
  DeleteReparse := DeleteReparse; security_parts := security_parts; SetObjectSecurity := SetObjectSecurity;
  GetFileSecurityBytes := GetFileSecurityBytes; ConvertSddl := ConvertSddl; GetVolumeSerial := GetVolumeSerial;
  GetWideSerial := GetWideSerial; GetFileSystemName := GetFileSystemName; steady_now := steady_now;
  system_now := system_now |}.

Definition max_create : UpperCreate (W := mem_win32) := {|
  createPath := {| hostNorm := L "d\new"; streamSuffix := []; callerHost := L "d\new"; callerStreamSuffix := [] |};
  createUpperPath := L "C:\u\d\new"; resolution := not_resolved; createAccess := MAXIMUM_ALLOWED;
  createAttributes := 0; createSecurity := None; createAllocation := 0 |}.

Definition new_file_context : FileContext (W := mem_win32) :=
  Ctx None (L "C:\u\d\new") (L "d\new") false true false false 0 0 0 false [].

Lemma failed_create_is_undone_witness :
  let r := CreateFileInUpper (M := no_query_host) Fixture.config max_create (start, new_file_context) in
  fst (snd r) = STATUS_NOT_SUPPORTED /\ ctx_handle (snd (fst r)) = None /\
  (~ visible (W := mem_win32) (disk_of (fst (fst r))) (L "\\?\C:\u\d\new") \/
   Exists (undo_warning new_file_context) (events (engine (fst (fst r))))).
Proof.
  intros r. assert (Hst : fst (snd r) = STATUS_NOT_SUPPORTED) by (vm_compute; reflexivity).
  split; [exact Hst|].
  pose proof (failed_create_is_undone (M := no_query_host) Fixture.config max_create start new_file_context eq_refl) as Hc.
  cbv zeta in Hc. fold r in Hc. revert Hst Hc. destruct r as [[s' c'] [status info]]. cbn [fst snd].
  intros -> Hc. match type of Hc with match ?made with _ => _ end =>
    assert (Hmade : made = Ok (L "\\?\C:\u\d\new")) by (vm_compute; reflexivity) end.
  rewrite Hmade in Hc. apply Hc. vm_compute. reflexivity.
Defined.
