(* ===== verification/AccessFacts.v ===== *)
(** * The access masks of open files

    [MapFileGenericRights] and the masks made from it
    ([ComputePhysicalHandleAccess], [ComputeHandleReopenAccess] of
    [LayerMount.cpp]) are masks of specific rights. *)
From S2P Require Export Mount.
Open Scope Z_scope.

(** The four generic rights are the top four bits of a 32-bit mask. *)
Definition generic_rights : Z := 0xF0000000.

(** A mask of specific and standard rights. *)
Definition specific_mask (a : Z) : Prop := 0 <= a < 2 ^ 28.

(** Every bit of [a] is one of [b]. *)
Definition rights_within (a b : Z) : Prop := Z.ldiff a b = 0.

Section Masks.
Implicit Types (a b n : Z).

Lemma mask_high a k n : 0 <= a < 2 ^ k -> k <= n -> Z.testbit a n = false.
Proof.
  intros [Ha Hlt] Hn. destruct (Z.eq_dec a 0) as [->|H0]; [apply Z.bits_0|].
  apply Z.bits_above_log2; [done|]. apply Z.log2_lt_pow2 in Hlt; lia.
Qed.

Lemma specific_mask_bits a : 0 <= a -> (forall n, 28 <= n -> Z.testbit a n = false) -> specific_mask a.
Proof.
  intros Ha Hb. split; [done|]. destruct (Z.eq_dec a 0) as [->|H0]; [done|].
  apply Z.log2_lt_pow2; [lia|]. apply Z.nle_gt. intros Hle.
  pose proof (Hb (Z.log2 a) Hle) as Hf. by rewrite Z.bit_log2 in Hf by lia.
Qed.

Lemma specific_mask_lor a b : specific_mask a -> specific_mask b -> specific_mask (Z.lor a b).
Proof.
  intros Ha Hb. apply specific_mask_bits; [apply Z.lor_nonneg; unfold specific_mask in *; lia|].
  intros n Hn. by rewrite Z.lor_spec, (mask_high a 28 n), (mask_high b 28 n).
Qed.

Lemma specific_mask_ldiff a b : specific_mask a -> 0 <= b -> specific_mask (Z.ldiff a b).
Proof.
  intros Ha Hb. apply specific_mask_bits; [apply Z.ldiff_nonneg; unfold specific_mask in *; lia|].
  intros n Hn. by rewrite Z.ldiff_spec, (mask_high a 28 n).
Qed.

(** What is left of a 32-bit mask without its generic rights. *)
Lemma specific_mask_clear a : 0 <= a < 2 ^ 32 -> specific_mask (Z.ldiff a generic_rights).
Proof.
  intros Ha. apply specific_mask_bits; [apply Z.ldiff_nonneg; unfold generic_rights; lia|].
  intros n Hn. rewrite Z.ldiff_spec. destruct (Z.lt_ge_cases n 32) as [Hlt|Hge].
  - assert (n = 28 \/ n = 29 \/ n = 30 \/ n = 31) as [->|[->|[->| ->]]] by lia; by rewrite andb_false_r.
  - by rewrite (mask_high a 32 n).
Qed.

Lemma has_attr_generic a bit :
  specific_mask a -> Z.land bit generic_rights = bit -> has_attr a bit = false.
Proof.
  intros Ha Hb. unfold has_attr. rewrite negb_false_iff, Z.eqb_eq. apply Z.bits_inj'. intros n Hn.
  rewrite Z.land_spec, Z.bits_0. destruct (Z.lt_ge_cases n 28) as [Hlt|Hge].
  - rewrite <- Hb, Z.land_spec. replace (Z.testbit generic_rights n) with false; [by rewrite !andb_false_r|].
    assert (forall m, 0 <= m < 28 -> Z.testbit generic_rights m = false) as Hg.
    { intros m Hm. change generic_rights with (Z.shiftl 15 28). apply Z.shiftl_spec_low. lia. }
    symmetry. apply Hg. lia.
  - by rewrite (mask_high a 28 n).
Qed.

Lemma has_attr_lor a b bit : has_attr (Z.lor a b) bit = has_attr a bit || has_attr b bit.
Proof.
  unfold has_attr. rewrite Z.land_lor_distr_l, <- negb_andb. f_equal. apply eq_bool_prop_intro.
  rewrite andb_True, !Is_true_true, !Z.eqb_eq. apply Z.lor_eq_0_iff.
Qed.

Lemma has_attr_ldiff a b bit : Z.land b bit = 0 -> has_attr (Z.ldiff a b) bit = has_attr a bit.
Proof.
  intros Hd. unfold has_attr. do 2 f_equal. apply Z.bits_inj'. intros n Hn. rewrite !Z.land_spec, Z.ldiff_spec.
  assert (Z.testbit (Z.land b bit) n = false) as Hb by (rewrite Hd; apply Z.bits_0). rewrite Z.land_spec in Hb.
  by destruct (Z.testbit a n), (Z.testbit b n), (Z.testbit bit n).
Qed.

Lemma has_attr_cleared a b : has_attr (Z.ldiff a b) b = false.
Proof.
  unfold has_attr. rewrite negb_false_iff, Z.eqb_eq. apply Z.bits_inj'. intros n Hn.
  rewrite Z.land_spec, Z.ldiff_spec, Z.bits_0. by destruct (Z.testbit a n), (Z.testbit b n).
Qed.

Lemma rights_within_refl a : rights_within a a.
Proof. apply Z.ldiff_diag. Qed.

Lemma rights_within_lor a b c : rights_within a b -> rights_within a (Z.lor b c).
Proof. unfold rights_within. intros Hab. by rewrite <- Z.ldiff_ldiff_l, Hab, Z.ldiff_0_l. Qed.

Lemma rights_within_lor_r a b : rights_within b (Z.lor a b).
Proof. rewrite Z.lor_comm. apply rights_within_lor, rights_within_refl. Qed.
End Masks.

(** A mask within a union of masks. *)
Ltac within :=
  lazymatch goal with
  | |- rights_within ?a (Z.lor ?b ?c) =>
      tryif constr_eq a c then apply (rights_within_lor_r b a) else (apply (rights_within_lor a b c); within)
  | Hin : rights_within _ (MapFileGenericRights _) |- rights_within _ (MapFileGenericRights _) => exact Hin
  | |- _ => apply rights_within_refl
  end.

(** A union of masks of specific rights. *)
Ltac specific :=
  lazymatch goal with
  | |- specific_mask (Z.lor ?a ?b) => apply (specific_mask_lor a b); specific
  | Ha : specific_mask (Z.ldiff _ _) |- specific_mask (Z.ldiff _ _) => exact Ha
  | Ha : specific_mask (MapFileGenericRights _) |- specific_mask (MapFileGenericRights _) => exact Ha
  | |- specific_mask _ => split; [by vm_compute|by vm_compute]
  end.

(** The cases of the generic rights of a mask. *)
Ltac by_rights access :=
  destruct (has_attr access GENERIC_READ) eqn:?, (has_attr access GENERIC_WRITE) eqn:?,
    (has_attr access GENERIC_EXECUTE) eqn:?, (has_attr access GENERIC_ALL) eqn:?.

(** ** The map of the generic rights *)

Lemma MapFileGenericRights_unfold access :
  MapFileGenericRights access =
    let add bit rights mapped := if has_attr access bit then Z.lor mapped rights else mapped in
    add GENERIC_ALL FILE_ALL_ACCESS (add GENERIC_EXECUTE FILE_GENERIC_EXECUTE
      (add GENERIC_WRITE FILE_GENERIC_WRITE (add GENERIC_READ FILE_GENERIC_READ (Z.ldiff access generic_rights)))).
Proof. done. Qed.

Lemma MapFileGenericRights_specific access : 0 <= access < 2 ^ 32 -> specific_mask (MapFileGenericRights access).
Proof.
  intros Ha. pose proof (specific_mask_clear access Ha) as Hc. rewrite MapFileGenericRights_unfold. cbv beta zeta.
  by_rights access; specific.
Qed.

Lemma MapFileGenericRights_keeps access : rights_within (Z.ldiff access generic_rights) (MapFileGenericRights access).
Proof. rewrite MapFileGenericRights_unfold. cbv beta zeta. by_rights access; within. Qed.

Lemma MapFileGenericRights_fixed a : specific_mask a -> MapFileGenericRights a = a.
Proof.
  intros Ha. rewrite MapFileGenericRights_unfold. cbv beta zeta. rewrite !has_attr_generic by done.
  apply Z.bits_inj'. intros n Hn. rewrite Z.ldiff_spec. destruct (Z.lt_ge_cases n 28) as [Hlt|Hge].
  - change generic_rights with (Z.shiftl 15 28). by rewrite Z.shiftl_spec_low, andb_true_r by lia.
  - by rewrite (mask_high a 28 n).
Qed.

Lemma MapFileGenericRights_grants access bit rights :
  In (bit, rights) [(GENERIC_READ, FILE_GENERIC_READ); (GENERIC_WRITE, FILE_GENERIC_WRITE);
                    (GENERIC_EXECUTE, FILE_GENERIC_EXECUTE); (GENERIC_ALL, FILE_ALL_ACCESS)] ->
  has_attr access bit = true -> rights_within rights (MapFileGenericRights access).
Proof.
  intros Hin Hbit. rewrite MapFileGenericRights_unfold. cbv beta zeta.
  repeat destruct Hin as [[= <- <-]|Hin]; rewrite ?Hbit; try done; by_rights access; within.
Qed.

(** ** The masks of handles *)

(** C30: whatever 32-bit mask a caller asks for, the mask of the handle that
    the engine opens is one of specific rights: no generic bit is left, each
    generic right has become its file rights and every other right is kept, a
    mask with a right to write data has the right to read it, and it writes
    exactly when the caller's mask does; mapping it once more changes nothing.
    The mask of a reopened handle is one of specific rights too, is never
    empty, and never asks for [DELETE]. *)
Theorem handle_access_is_specific `{W : Win32} granted c :
  0 <= granted < 2 ^ 32 -> ctx_grantedAccess c = granted ->
  let physical := ComputePhysicalHandleAccess granted in
  let reopened := ComputeHandleReopenAccess c in
  specific_mask physical /\ MapFileGenericRights physical = physical /\
  rights_within (Z.ldiff granted generic_rights) physical /\
  (forall bit rights, In (bit, rights) [(GENERIC_READ, FILE_GENERIC_READ); (GENERIC_WRITE, FILE_GENERIC_WRITE);
                        (GENERIC_EXECUTE, FILE_GENERIC_EXECUTE); (GENERIC_ALL, FILE_ALL_ACCESS)] ->
     has_attr granted bit = true -> rights_within rights physical) /\
  (has_attr physical (Z.lor FILE_WRITE_DATA FILE_APPEND_DATA) = true -> has_attr physical FILE_READ_DATA = true) /\
  HasWriteAccess physical = HasWriteAccess granted /\
  specific_mask reopened /\ reopened <> 0 /\ has_attr reopened DELETE = false /\
  HasWriteAccess reopened = HasWriteAccess granted.
Proof.
  intros Hg Hc. cbv zeta. pose proof (MapFileGenericRights_specific _ Hg) as Hm.
  assert (Hp : specific_mask (ComputePhysicalHandleAccess granted)).
  { unfold ComputePhysicalHandleAccess. cbv zeta. case_match; specific. }
  assert (Hw : HasWriteAccess (ComputePhysicalHandleAccess granted) = HasWriteAccess granted).
  { unfold HasWriteAccess. rewrite (MapFileGenericRights_fixed _ Hp). unfold ComputePhysicalHandleAccess. cbv zeta.
    case_match; [|done]. by rewrite has_attr_lor, orb_false_r. }
  split; [done|]. split; [by apply MapFileGenericRights_fixed|].
  split; [|split; [|split; [|split; [done|]]]].
  - unfold ComputePhysicalHandleAccess. cbv zeta. pose proof (MapFileGenericRights_keeps granted). case_match; within.
  - intros bit rights Hin Hbit. pose proof (MapFileGenericRights_grants _ _ _ Hin Hbit).
    unfold ComputePhysicalHandleAccess. cbv zeta. case_match; within.
  - unfold ComputePhysicalHandleAccess. cbv zeta. case_match eqn:Hd; [|congruence].
    intros _. rewrite has_attr_lor. by rewrite orb_true_r.
  - unfold ComputeHandleReopenAccess. rewrite Hc. cbv zeta. set (kept := Z.ldiff (ComputePhysicalHandleAccess granted) DELETE).
    assert (Hk : specific_mask kept) by (apply specific_mask_ldiff; [exact Hp|by vm_compute]).
    assert (HasWriteAccess kept = HasWriteAccess granted) as Hkw.
    { rewrite <- Hw. unfold HasWriteAccess. rewrite (MapFileGenericRights_fixed _ Hp), (MapFileGenericRights_fixed _ Hk).
      by apply has_attr_ldiff. }
    assert (has_attr kept DELETE = false) as Hkd by (apply has_attr_cleared).
    clearbody kept. destruct (Z.eqb_spec kept 0) as [->|Hne]; [|done].
    split; [specific|]. by rewrite <- Hkw.
Qed.

(** A request for write access to a file that is deleted on close. *)
Lemma handle_access_is_specific_witness :
  ComputePhysicalHandleAccess 0x40010000 = 0x130117 /\
  specific_mask (ComputeHandleReopenAccess (W := mem_win32) (set_granted 0x40010000 new_context)) /\
  ComputeHandleReopenAccess (W := mem_win32) (set_granted 0x40010000 new_context) = 0x120117 /\
  ComputeHandleReopenAccess (W := mem_win32) (set_granted 0x10000 new_context) = FILE_READ_ATTRIBUTES.
Proof.
  split; [reflexivity|]. split; [|split; reflexivity].
  apply (handle_access_is_specific (W := mem_win32) 0x40010000); [by split; vm_compute|reflexivity].
Defined.
