(* ===== verification/ImageHost.v ===== *)
(** * What a layer image needs of the host

    The calls that [image/LayerImageManager.cpp] makes beyond those of
    [Win32]: file streams, the walk of a tree, canonical paths, zstd, SHA-256
    and the time.  A stream is known by the path that it was opened on. *)
From S2P Require Export Metadata.
Open Scope Z_scope.

Definition ERROR_INVALID_FUNCTION : Z := 1.
Definition ERROR_INVALID_HANDLE : Z := 6.
Definition ERROR_NOT_ENOUGH_MEMORY : Z := 8.
Definition ERROR_CRC : Z := 23.
Definition ERROR_INVALID_PARAMETER : Z := 87.
Definition ERROR_BAD_PATHNAME : Z := 161.
Definition ERROR_FILENAME_EXCED_RANGE : Z := 206.
Definition ERROR_REVISION_MISMATCH : Z := 1306.

(** ** How a call of the manager ends when it does not succeed

    It returns an error code, or a C++ exception leaves it.  The loop over an
    archive has fuel; that it never runs out is a theorem. *)
Inductive stopped := Code (error : Z) | Thrown | OutOfFuel.

#[export] Instance stopped_eq_dec : EqDecision stopped.
Proof. solve_decision. Defined.

Abbreviation img := (res stopped).

(** [if (failed) return e;] *)
Definition guard (ok : bool) (e : Z) : img unit := if ok then Ok tt else Err (Code e).

Definition img_of_option {A} (o : option A) (e : Z) : img A :=
  match o with Some a => Ok a | None => Err (Code e) end.

(** An effect that may stop, and the rest of the function when it does not. *)
Definition try_bind {S E A B} (m : eff S (res E A)) (k : A -> eff S (res E B)) : eff S (res E B) :=
  fun s => let (s', r) := m s in match r with Ok a => k a s' | Err e => (s', Err e) end.

Notation "'try!' x ':=' c1 'in' c2" :=
  (try_bind c1 (fun x => c2))
  (at level 10, x pattern, c1 at level 100, c2 at level 200) : eff_scope.

(** What an input stream gives: where its end is, [None] when it cannot tell,
    and the bytes that reads give before the end or an error. *)
Record in_stream := InStream { st_end : option Z; st_bytes : list Z }.

(** [GetFileAttributesExW]. *)
Record file_attribute_data := FileAttributeData {
  fad_attributes : Z;
  ftLastWriteTime : FILETIME;
  nFileSizeHigh : Z;
  nFileSizeLow : Z
}.

(** One step of a recursive directory iterator, with its depth: an entry and
    the answer of [is_directory], [None] when that call fails; or the failure
    of the listing at that depth. *)
Inductive walk_item :=
| WalkEntry (depth : nat) (path : wstring) (is_directory : option bool)
| WalkFailure (depth : nat).

Definition walk_depth (i : walk_item) : nat :=
  match i with WalkEntry n _ _ => n | WalkFailure n => n end.

Class ImageHost `{W : Win32} := {
  (** Whether an allocation of so many bytes succeeds; else it throws. *)
  alloc : Z -> bool;
  ifstream_open : disk -> wstring -> option in_stream;
  (** [std::ofstream] on a path, truncating; a write at a position, and a
      [seekp], with the state of the stream after it; the close, whose result
      the source does not look at. *)
  ofstream_open : wstring -> eff disk bool;
  ofstream_write : wstring -> Z -> list Z -> eff disk bool;
  ofstream_seek : wstring -> Z -> eff disk bool;
  ofstream_close : wstring -> eff disk bool;
  (** [std::filesystem]: [exists] and [weakly_canonical]; [None] when the call
      fails. *)
  fs_exists : disk -> wstring -> option bool;
  weakly_canonical : disk -> wstring -> option wstring;
  (** [std::filesystem::remove] with an error code that nobody reads. *)
  fs_remove : wstring -> eff disk unit;
  (** The steps of [recursive_directory_iterator(base)]; [None] when the
      constructor fails. *)
  recursive_walk : disk -> wstring -> option (list walk_item);
  GetFileAttributesExW : disk -> wstring -> w32 file_attribute_data;
  SetFileAttributesW : wstring -> Z -> eff disk (w32 unit);
  (** [CreateFileW] with [FILE_WRITE_ATTRIBUTES], [FILE_SHARE_READ] and
      [OPEN_EXISTING]; [SetFileTime] with the write time alone; [CloseHandle]. *)
  OpenToSetTime : disk -> wstring -> w32 handle;
  SetWriteTime : handle -> FILETIME -> eff disk (w32 unit);
  CloseHandle : handle -> eff disk (w32 unit);
  GetLongPathNameW : disk -> wstring -> option wstring;
  (** zstd: the bound; a compression at a level; the content size of a frame,
      [None] when it is unknown or no frame; a decompression into so many
      bytes. *)
  zstd_compressBound : Z -> Z;
  zstd_compress : Z -> list Z -> option (list Z);
  zstd_content_size : list Z -> option Z;
  zstd_decompress : list Z -> Z -> option (list Z);
  (** BCrypt's SHA-256: an algorithm, the size of its hash object, a hash. *)
  bcrypt_algorithm : Type;
  bcrypt_hash : Type;
  BCryptOpenAlgorithmProvider : nt bcrypt_algorithm;
  BCryptGetObjectLength : bcrypt_algorithm -> nt Z;
  BCryptCreateHash : bcrypt_algorithm -> Z -> nt bcrypt_hash;
  BCryptHashData : bcrypt_hash -> list Z -> nt bcrypt_hash;
  BCryptFinishHash : bcrypt_hash -> nt (list Z);
  (** [std::towlower] on one code unit. *)
  towlower : Z -> Z;
  (** [j.dump(2)] and [in >> j] of nlohmann's library; [None]
      when the parse throws. *)
  json_dump2 : json -> list Z;
  json_extract : list Z -> option json
}.

Section Streams.
Context `{W : Win32} `{H : !ImageHost}.

Definition allocate (n : Z) : img unit := if (n =? 0) || alloc n then Ok tt else Err Thrown.

(** [static_cast<std::streamoff>(offset)]: a 64-bit value as signed.  A seek
    to a negative position fails; a seek past the end does not. *)
Definition seekable (offset : Z) : bool := offset <? 2 ^ 63.

(** The bytes that [read] gives of [n] from [offset]. *)
Definition stream_read (s : in_stream) (offset n : Z) : list Z :=
  take (Z.to_nat n) (drop (Z.to_nat offset) (st_bytes s)).

(** [out.write(...); if (!out) return ERROR_WRITE_FAULT;] *)
Definition write_or_fault (path : wstring) (offset : Z) (data : list Z) : eff disk (img unit) :=
  (let! ok := ofstream_write path offset data in eret (guard ok ERROR_WRITE_FAULT))%eff.

(** The bytes of a text stream, whose line ends are CR LF on the disk. *)
Definition to_text_mode (s : list Z) : list Z := flat_map (fun c => if c =? 10 then [13; 10] else [c]) s.

Fixpoint from_text_mode (s : list Z) : list Z :=
  match s with
  | [] => []
  | 26 :: _ => []
  | 13 :: ((10 :: _) as s') => from_text_mode s'
  | c :: s' => c :: from_text_mode s'
  end.

Definition HostPath_ForWin32 (text : wstring) : wstring := WithExtendedPrefix text.
End Streams.
