(* ===== verification/ImageFormat.v ===== *)
(** * The format of a layer image

    [image/LayerImageFormat.h] and the text functions of
    [image/LayerImageManager.cpp]: the file header and the entry header with
    their bytes, the checks of a name, the marker of a deleted path, and the
    metadata with its JSON. *)
From S2P Require Export ImageHost.
Open Scope Z_scope.

(** ** The file header *)

Definition LAYER_IMAGE_MAGIC : list Z := L "OVLYIMG" ++ [0].
Definition LAYER_IMAGE_VERSION : Z := 1.
Definition ARCHIVE_END_MARKER : Z := 0xFFFF.

Inductive CompressionType := CompressionNone | Zstd.

#[export] Instance CompressionType_eq_dec : EqDecision CompressionType.
Proof. solve_decision. Defined.

Definition compression_flag (c : CompressionType) : Z := match c with CompressionNone => 0 | Zstd => 1 end.

Record LayerImageHeader := {
  magic : list Z;
  version : Z;
  flags : Z;
  metadataOffset : Z;
  metadataSize : Z;
  dataOffset : Z;
  dataSize : Z;
  checksum : list Z;
  reserved : list Z
}.

Definition default_header : LayerImageHeader := {|
  magic := LAYER_IMAGE_MAGIC; version := LAYER_IMAGE_VERSION; flags := 0; metadataOffset := 0;
  metadataSize := 0; dataOffset := 0; dataSize := 0; checksum := replicate 32 0; reserved := replicate 48 0
|}.

Definition header_size : Z := 128.

(** The packed struct as bytes, and back. *)
Definition header_bytes (h : LayerImageHeader) : list Z :=
  magic h ++ le_encode 4 (version h) ++ le_encode 4 (flags h) ++ le_encode 8 (metadataOffset h) ++
  le_encode 8 (metadataSize h) ++ le_encode 8 (dataOffset h) ++ le_encode 8 (dataSize h) ++
  checksum h ++ reserved h.

Definition header_of_bytes (b : list Z) : LayerImageHeader := {|
  magic := take 8 b; version := le_field b 8 4; flags := le_field b 12 4;
  metadataOffset := le_field b 16 8; metadataSize := le_field b 24 8;
  dataOffset := le_field b 32 8; dataSize := le_field b 40 8;
  checksum := take 32 (drop 48 b); reserved := take 48 (drop 80 b)
|}.

(** ** The entry header *)

Record FileEntryHeader := {
  nameLength : Z;
  size : Z;
  attributes : Z;
  modified : Z;
  isDirectory : Z;
  isWhiteoutEntry : Z
}.

#[export] Instance FileEntryHeader_eq_dec : EqDecision FileEntryHeader.
Proof. solve_decision. Defined.

Definition no_entry_header : FileEntryHeader := {|
  nameLength := 0; size := 0; attributes := 0; modified := 0; isDirectory := 0; isWhiteoutEntry := 0
|}.

Definition entry_header_size : nat := 24.

Definition entry_bytes (e : FileEntryHeader) : list Z :=
  le_encode 2 (nameLength e) ++ le_encode 8 (size e) ++ le_encode 4 (attributes e) ++
  le_encode 8 (modified e) ++ le_encode 1 (isDirectory e) ++ le_encode 1 (isWhiteoutEntry e).

Definition entry_of_bytes (b : list Z) : FileEntryHeader := {|
  nameLength := le_field b 0 2; size := le_field b 2 8; attributes := le_field b 10 4;
  modified := le_field b 14 8; isDirectory := le_field b 22 1; isWhiteoutEntry := le_field b 23 1
|}.

Definition with_name_length (n : Z) (e : FileEntryHeader) : FileEntryHeader := {|
  nameLength := n; size := size e; attributes := attributes e; modified := modified e;
  isDirectory := isDirectory e; isWhiteoutEntry := isWhiteoutEntry e
|}.

Definition with_content (n whiteout : Z) (e : FileEntryHeader) : FileEntryHeader := {|
  nameLength := nameLength e; size := n; attributes := attributes e; modified := modified e;
  isDirectory := isDirectory e; isWhiteoutEntry := whiteout
|}.

(** ** Names *)

(** A lead byte of the UTF-8 pattern and how many bytes follow it. *)
Definition utf8_extra (c : Z) : option nat :=
  if Z.land c 0x80 =? 0x00 then Some 0%nat
  else if Z.land c 0xE0 =? 0xC0 then Some 1%nat
  else if Z.land c 0xF0 =? 0xE0 then Some 2%nat
  else if Z.land c 0xF8 =? 0xF0 then Some 3%nat
  else None.

Definition utf8_continuation (c : Z) : bool := Z.land c 0xC0 =? 0x80.

Fixpoint IsValidUtf8 (data : list Z) : bool :=
  match data with
  | [] => true
  | c :: r0 =>
      if c =? 0 then false
      else match utf8_extra c with
      | None => false
      | Some extra =>
          if (extra =? 0)%nat then IsValidUtf8 r0
          else match r0 with
          | [] => false
          | c1 :: r1 =>
              if (extra =? 1)%nat then utf8_continuation c1 && IsValidUtf8 r1
              else match r1 with
              | [] => false
              | c2 :: r2 =>
                  if (extra =? 2)%nat then utf8_continuation c1 && utf8_continuation c2 && IsValidUtf8 r2
                  else match r2 with
                  | [] => false
                  | c3 :: r3 => utf8_continuation c1 && utf8_continuation c2 && utf8_continuation c3 && IsValidUtf8 r3
                  end
              end
          end
      end
  end.

Definition IsPathContainedIn (canon root : wstring) : bool :=
  if bool_decide (canon = root) then true
  else match last root with
  | None => true
  | Some rootLast =>
      if (length canon <=? length root)%nat then false
      else if negb (bool_decide (take (length root) canon = root)) then false
      else if is_slash rootLast then true
      else slash_at canon (length root)
  end.

(** The loop over the components, which end at a slash of either kind. *)
Definition archive_components (utf8Path : list Z) : list (list Z) :=
  segments ch_slash (wreplace ch_bsl ch_slash utf8Path).

Definition archive_component_ok (component : list Z) : bool :=
  negb (bool_decide (component = [])) && negb (bool_decide (component = L ".")) &&
  negb (bool_decide (component = L "..")).

Definition IsValidArchivePath (utf8Path : list Z) : bool :=
  match utf8Path with
  | [] => false
  | c :: _ =>
      negb (is_slash c) && negb (bool_decide (ch_colon ∈ utf8Path)) &&
      forallb archive_component_ok (archive_components utf8Path)
  end.

(** [path /= make_preferred(relative)]. *)
Definition UnderExtendedRoot (root relativePath : wstring) : wstring :=
  append root (wreplace ch_slash ch_bsl relativePath).

Definition MakeWhiteoutMarkerPath (logicalPath : wstring) : wstring :=
  let path := wreplace ch_bsl ch_slash logicalPath in
  match wrfind ch_slash path with
  | None => L ".wh." ++ path
  | Some slash => take (S slash) path ++ L ".wh." ++ drop (S slash) path
  end.

Definition HasWhiteoutPrefix (filename : wstring) : bool :=
  (4 <=? length filename)%nat && bool_decide (take 4 filename = L ".wh.").

(** ** Metadata *)

Record LayerMetadata := {
  id : wstring;
  parentId : wstring;
  createdAt : wstring;
  author : wstring;
  description : wstring;
  tags : list wstring;
  compression : CompressionType;
  fileCount : Z;
  uncompressedSize : Z;
  compressedSize : Z;
  whiteouts : list wstring;
  (** A [std::map]: sorted by key, one value per key. *)
  labels : list (wstring * wstring)
}.

Definition CompressionTypeToString (c : CompressionType) : list Z :=
  match c with CompressionNone => L "none" | Zstd => L "zstd" end.

Definition StringToCompressionType (s : list Z) : CompressionType :=
  if bool_decide (s = L "zstd") then Zstd else CompressionNone.

(** Lexicographic order on code units or bytes. *)
Fixpoint text_ltb (a b : list Z) : bool :=
  match a, b with
  | _, [] => false
  | [], _ :: _ => true
  | x :: a', y :: b' => (x <? y) || ((x =? y) && text_ltb a' b')
  end.

(** [m[k] = v] on a sorted map. *)
Fixpoint map_set {V} (m : list (list Z * V)) (k : list Z) (v : V) : list (list Z * V) :=
  match m with
  | [] => [(k, v)]
  | (k', v') :: m' =>
      if bool_decide (k' = k) then (k, v) :: m'
      else if text_ltb k k' then (k, v) :: m
      else (k', v') :: map_set m' k v
  end.

Definition string_of_bytes (b : list Z) : string :=
  foldr (fun c s => String (Ascii.ascii_of_N (Z.to_N c)) s) EmptyString b.

Section Json.
Context `{W : Win32} `{H : !ImageHost} `{J : Json}.

Definition MetadataToJson (meta : LayerMetadata) : json :=
  JObject [
    ("author", JString (WideToUtf8 (author meta)));
    ("compressedSize", JUnsigned (compressedSize meta));
    ("compressionType", JString (CompressionTypeToString (compression meta)));
    ("createdAt", JString (WideToUtf8 (createdAt meta)));
    ("description", JString (WideToUtf8 (description meta)));
    ("fileCount", JUnsigned (fileCount meta));
    ("labels", JObject ((fun kv => (string_of_bytes (fst kv), JString (snd kv))) <$>
       foldl (fun m kv => map_set m (WideToUtf8 (fst kv)) (WideToUtf8 (snd kv))) [] (labels meta)));
    ("layerId", JString (WideToUtf8 (id meta)));
    ("parentLayerId", match parentId meta with [] => JNull | parent => JString (WideToUtf8 parent) end);
    ("tags", JArray ((fun t => JString (WideToUtf8 t)) <$> tags meta));
    ("uncompressedSize", JUnsigned (uncompressedSize meta));
    ("whiteouts", JArray ((fun w => JString (WideToUtf8 w)) <$> whiteouts meta)) ]%string.

(** [j.value(key, text)]. *)
Definition value_text (j : json) (key : string) (dflt : list Z) : option (list Z) :=
  match json_field j key with
  | None => None
  | Some None => Some dflt
  | Some (Some (JString s)) => Some s
  | Some (Some _) => None
  end.

(** [j.contains(key)] and the value there. *)
Definition contained (j : json) (key : string) : option json :=
  match json_field j key with Some (Some v) => Some v | _ => None end.

Definition string_items (v : option json) : list wstring :=
  match v with
  | Some (JArray items) =>
      omap (fun t => match t with JString s => Some (Utf8ToWide s) | _ => None end) items
  | _ => []
  end.

Definition read_labels (v : option json) : list (wstring * wstring) :=
  match v with
  | Some (JObject fields) =>
      foldl (fun m f => match snd f with
                        | JString s => map_set m (Utf8ToWide (L (fst f))) (Utf8ToWide s)
                        | _ => m
                        end) [] fields
  | _ => []
  end.

(** [None] when a read throws. *)
Definition read_metadata (j : json) : option LayerMetadata :=
  layerId ← value_text j "layerId" [];
  parent ← match contained j "parentLayerId" with
           | None | Some JNull => Some []
           | Some (JString s) => Some (Utf8ToWide s)
           | Some _ => None
           end;
  created ← value_text j "createdAt" [];
  who ← value_text j "author" [];
  what ← value_text j "description" [];
  let tagList := string_items (contained j "tags") in
  kind ← value_text j "compressionType" (L "none");
  count ← value_uint64 j "fileCount";
  plainSize ← value_uint64 j "uncompressedSize";
  packedSize ← value_uint64 j "compressedSize";
  Some {| id := Utf8ToWide layerId; parentId := parent; createdAt := Utf8ToWide created;
          author := Utf8ToWide who; description := Utf8ToWide what; tags := tagList;
          compression := StringToCompressionType kind; fileCount := count;
          uncompressedSize := plainSize; compressedSize := packedSize;
          whiteouts := string_items (contained j "whiteouts");
          labels := read_labels (contained j "labels") |}.

Definition JsonToMetadata (j : json) : img LayerMetadata :=
  img_of_option (read_metadata j) ERROR_INVALID_DATA.

Definition SerializeMetadata (meta : LayerMetadata) : list Z := json_dump2 (MetadataToJson meta).

Definition DeserializeMetadata (utf8 : list Z) : img LayerMetadata :=
  match json_parse utf8 with
  | Some j => JsonToMetadata j
  | None => Err (Code ERROR_INVALID_DATA)
  end.
End Json.

(** ** Small helpers of the manager *)

Definition NtStatusToDword (status : NTSTATUS) : Z :=
  if decide (status = STATUS_SUCCESS) then ERROR_SUCCESS
  else if decide (status = STATUS_INVALID_PARAMETER) then ERROR_INVALID_PARAMETER
  else if decide (status = STATUS_INVALID_HANDLE) then ERROR_INVALID_HANDLE
  else if decide (status = STATUS_NO_MEMORY) then ERROR_NOT_ENOUGH_MEMORY
  else ERROR_INVALID_FUNCTION.

Definition HashToHexString (hash : list Z) : wstring :=
  flat_map (fun b => [hex_digit (Z.land (Z.shiftr b 4) 0xF); hex_digit (Z.land b 0xF)]) hash.

(** The text of [StringFromGUID2], or [None] when a call fails. *)
Definition GenerateId (guid : option wstring) : wstring :=
  match guid with
  | None => []
  | Some text =>
      if (2 <=? length text)%nat && bool_decide (head text = Some 123) && bool_decide (last text = Some 125)
      then take (length text - 2) (drop 1 text)
      else text
  end.

Record SYSTEMTIME := { wYear : Z; wMonth : Z; wDay : Z; wHour : Z; wMinute : Z; wSecond : Z }.

Definition GetCurrentTimestampISO8601 (st : SYSTEMTIME) : wstring :=
  padded 4 (wYear st) ++ L "-" ++ padded 2 (wMonth st) ++ L "-" ++ padded 2 (wDay st) ++ L "T" ++
  padded 2 (wHour st) ++ L ":" ++ padded 2 (wMinute st) ++ L ":" ++ padded 2 (wSecond st) ++ L "Z".

Definition with_identity (newId newCreatedAt : wstring) (m : LayerMetadata) : LayerMetadata := {|
  id := newId; parentId := parentId m; createdAt := newCreatedAt; author := author m;
  description := description m; tags := tags m; compression := compression m; fileCount := fileCount m;
  uncompressedSize := uncompressedSize m; compressedSize := compressedSize m; whiteouts := whiteouts m;
  labels := labels m
|}.

Definition StampIdentity (guid : option wstring) (now : SYSTEMTIME) (metadata : LayerMetadata) : LayerMetadata :=
  with_identity (match id metadata with [] => GenerateId guid | given => given end)
    (match createdAt metadata with [] => GetCurrentTimestampISO8601 now | given => given end) metadata.
