(* ===== verification/ImageArchive.v ===== *)
(** * The archive of a layer image

    The builder and the reader of the archive stream, the scan of a source
    directory, the differences between two scans, and the extraction, of
    [image/LayerImageManager.cpp]. *)
From S2P Require Export ImageFormat.
Open Scope Z_scope.

(** ** The builder *)

Record ArchiveBuilder := { archive : list Z; builtCount : Z }.

Definition new_builder : ArchiveBuilder := {| archive := []; builtCount := 0 |}.

Definition AppendBytes (buf src : list Z) : list Z := buf ++ src.

(** [static_cast<uint16_t>]. *)
Definition uint16 (n : Z) : Z := n mod 2 ^ 16.

Section Builder.
Context `{W : Win32}.

Definition Append (relativePath : wstring) (entry : FileEntryHeader) (data : list Z) (b : ArchiveBuilder)
  : img ArchiveBuilder :=
  let utf8Name := WideToUtf8 relativePath in
  let length := Z.of_nat (length utf8Name) in
  if bool_decide (utf8Name = []) then Err (Code ERROR_INVALID_PARAMETER)
  else if 0xFFFE <? length then Err (Code ERROR_FILENAME_EXCED_RANGE)
  else
    let entry := with_name_length (uint16 length) entry in
    Ok {| archive := AppendBytes (AppendBytes (AppendBytes (archive b) (entry_bytes entry)) utf8Name) data;
          builtCount := builtCount b |}.

(** [++fileCount_] on 64 bits. *)
Definition AppendCounted (relativePath : wstring) (entry : FileEntryHeader) (data : list Z) (b : ArchiveBuilder)
  : img ArchiveBuilder :=
  (let? b' := Append relativePath entry data b in
   Ok {| archive := archive b'; builtCount := (builtCount b' + 1) mod 2 ^ 64 |})%res.

Definition AddDirectory (relativePath : wstring) (entry : FileEntryHeader) (b : ArchiveBuilder)
  : img ArchiveBuilder := Append relativePath entry [] b.

Definition AddWhiteoutMarker (deletedPath : wstring) (b : ArchiveBuilder) : img ArchiveBuilder :=
  AppendCounted (MakeWhiteoutMarkerPath deletedPath)
    {| nameLength := 0; size := 0; attributes := FILE_ATTRIBUTE_NORMAL; modified := 0; isDirectory := 0;
       isWhiteoutEntry := 1 |} [] b.

(** The archive with its end marker. *)
Definition Finish (b : ArchiveBuilder) : list Z :=
  AppendBytes (archive b) (entry_bytes (with_name_length ARCHIVE_END_MARKER no_entry_header)).
End Builder.

(** ** The scan and the pack *)

Record FileSnapshot := { lookupKey : wstring; relativeName : wstring; snapEntry : FileEntryHeader }.

Section Scan.
Context `{W : Win32} `{H : !ImageHost}.

(** [std::filesystem::relative], which throws when a path does not
    canonicalize, with forward slashes. *)
Definition RelativeNameOf (d : disk) (absolute base : wstring) : img wstring :=
  match weakly_canonical d absolute, weakly_canonical d base with
  | Some a, Some b => Ok (wreplace ch_bsl ch_slash (lexically_relative a b))
  | _, _ => Err Thrown
  end.

Definition ToLower (s : wstring) : wstring := towlower <$> s.

Definition ReadFileBytes (d : disk) (path : wstring) : img (list Z) :=
  match ifstream_open d path with
  | None => Err (Code ERROR_ACCESS_DENIED)
  | Some stream =>
      match st_end stream with
      | None => Err (Code ERROR_READ_FAULT)
      | Some sz =>
          (let? _ := allocate sz in
           let out := stream_read stream 0 sz in
           let? _ := guard (Z.of_nat (length out) =? sz) ERROR_READ_FAULT in
           Ok out)%res
      end
  end.

Definition FillFileEntry (d : disk) (path : wstring) (isDirectory : bool) : img FileEntryHeader :=
  match GetFileAttributesExW d path with
  | Err e => Err (Code e)
  | Ok attrs => Ok {|
      nameLength := 0;
      size := if isDirectory then 0 else Z.lor (Z.shiftl (nFileSizeHigh attrs) 32) (nFileSizeLow attrs);
      attributes := fad_attributes attrs;
      modified := FileTimeToUint64 (ftLastWriteTime attrs);
      isDirectory := if isDirectory then 1 else 0;
      isWhiteoutEntry := 0 |}
  end.

Definition AddFile (d : disk) (path relativePath : wstring) (entry : FileEntryHeader) (b : ArchiveBuilder)
  : img ArchiveBuilder :=
  (let? bytes := (if 0 <? size entry then ReadFileBytes d path else Ok []) in
   let whiteout := if HasWhiteoutPrefix (filename relativePath) then 1 else 0 in
   AppendCounted relativePath (with_content (Z.of_nat (length bytes)) whiteout entry) bytes b)%res.

(** Whether the entry is the root sidecar; the walk then does not enter it. *)
Definition StepPastRootSidecar (depth : nat) (path : wstring) : bool :=
  (depth =? 0)%nat && FirstSegmentOpensAsSidecar (filename path).

(** The loop of the scan.  [skipping] holds after the root sidecar, until the
    walk is back at its depth. *)
Fixpoint scan_walk (d : disk) (base : wstring) (skipping : bool) (items : list walk_item) : img (list FileSnapshot) :=
  match items with
  | [] => Ok []
  | item :: rest =>
      if skipping && negb (walk_depth item =? 0)%nat then scan_walk d base true rest
      else match item with
      | WalkFailure _ => Err (Code ERROR_ACCESS_DENIED)
      | WalkEntry depth path is_directory =>
          if StepPastRootSidecar depth path then scan_walk d base true rest
          else match is_directory with
          | None => Err (Code ERROR_ACCESS_DENIED)
          | Some directory =>
              (let? name := RelativeNameOf d path base in
               let? entry := FillFileEntry d path directory in
               let? more := scan_walk d base false rest in
               Ok ({| lookupKey := ToLower name; relativeName := name; snapEntry := entry |} :: more))%res
          end
      end
  end.

Definition ScanDirectory (d : disk) (dir : wstring) : img (list FileSnapshot) :=
  let base := HostPath_ForWin32 dir in
  match fs_exists d base with
  | None => Err Thrown
  | Some false => Err (Code ERROR_PATH_NOT_FOUND)
  | Some true =>
      match recursive_walk d base with
      | None => Err (Code ERROR_ACCESS_DENIED)
      | Some items => scan_walk d base false items
      end
  end.

Fixpoint pack_entries (d : disk) (base : wstring) (entries : list FileSnapshot) (builder : ArchiveBuilder)
  : img ArchiveBuilder :=
  match entries with
  | [] => Ok builder
  | snap :: rest =>
      (let? b := (if negb (isDirectory (snapEntry snap) =? 0)
                  then AddDirectory (relativeName snap) (snapEntry snap) builder
                  else AddFile d (UnderExtendedRoot base (relativeName snap)) (relativeName snap)
                         (snapEntry snap) builder) in
       pack_entries d base rest b)%res
  end.

Definition PackEntries (d : disk) (root : wstring) (entries : list FileSnapshot) (builder : ArchiveBuilder)
  : img ArchiveBuilder := pack_entries d (HostPath_ForWin32 root) entries builder.
End Scan.

(** ** Differences between two scans *)

Definition Differs (source base : FileEntryHeader) : bool :=
  if negb (isDirectory source =? isDirectory base) then true
  else (isDirectory source =? 0) &&
       (negb (size source =? size base) || negb (modified source =? modified base)).

(** [baseByKey[b.lookupKey] = &b] in order: the last one of a key stays. *)
Definition base_by_key (base : list FileSnapshot) : gmap wstring FileSnapshot :=
  foldl (fun m b => <[lookupKey b := b]> m) ∅ base.

Definition ChangedEntries (source base : list FileSnapshot) : list FileSnapshot :=
  let baseByKey := base_by_key base in
  filter (fun s => match baseByKey !! lookupKey s with
                   | None => true
                   | Some b => Differs (snapEntry s) (snapEntry b)
                   end = true) source.

Definition DeletedPaths (source base : list FileSnapshot) : list wstring :=
  let sourceKeys : gset wstring := list_to_set (lookupKey <$> source) in
  relativeName <$> filter (fun b => lookupKey b ∉ sourceKeys) base.

Fixpoint add_whiteouts `{W : Win32} (deleted : list wstring) (builder : ArchiveBuilder) : img ArchiveBuilder :=
  match deleted with
  | [] => Ok builder
  | path :: rest => (let? b := AddWhiteoutMarker path builder in add_whiteouts rest b)%res
  end.

(** ** The reader *)

Record ArchiveEntry := { entryHeader : FileEntryHeader; entryName : wstring; entryData : list Z }.

(** The entry at [pos], [None] for the end marker, and the position past it.
    The source keeps a pointer to the data and reads [size] bytes of it, for a
    file; [entryData] is those bytes. *)
Definition ReadArchiveEntry `{W : Win32} (archive : list Z) (pos : nat) : img (option ArchiveEntry * nat) :=
  let total := length archive in
  if (total <? pos + entry_header_size)%nat then Err (Code ERROR_INVALID_DATA)
  else
    let header := entry_of_bytes (take entry_header_size (drop pos archive)) in
    let pos := (pos + entry_header_size)%nat in
    let nameLen := Z.to_nat (nameLength header) in
    if nameLength header =? ARCHIVE_END_MARKER then Ok (None, pos)
    else if nameLength header =? 0 then Err (Code ERROR_INVALID_DATA)
    else if (total <? pos + nameLen)%nat then Err (Code ERROR_INVALID_DATA)
    else
      let utf8Name := take nameLen (drop pos archive) in
      if negb (IsValidUtf8 utf8Name) then Err (Code ERROR_INVALID_DATA)
      else
        let pos := (pos + nameLen)%nat in
        if negb (IsValidArchivePath utf8Name) then Err (Code ERROR_BAD_PATHNAME)
        else if Z.of_nat (total - pos) <? size header then Err (Code ERROR_INVALID_DATA)
        else
          let dataLen := Z.to_nat (size header) in
          Ok (Some {| entryHeader := header; entryName := Utf8ToWide utf8Name;
                      entryData := take dataLen (drop pos archive) |},
              if isDirectory header =? 0 then (pos + dataLen)%nat else pos).

(** ** The extraction *)

Record UnpackTarget := { targetRoot : wstring; canonicalRoot : wstring }.

Section Extract.
Context `{W : Win32} `{H : !ImageHost}.

(** The second call fails or is too small only when the entry changed between
    the two. *)
Definition ExistingLongName (d : disk) (directory name : wstring) : option wstring :=
  filename <$> GetLongPathNameW d (WithExtendedPrefix (append directory name)).

Definition UnpackSkipsEntry (d : disk) (relativePath root : wstring) : bool :=
  let firstSegment := FirstSegmentAsOpened relativePath in
  if bool_decide (firstSegment = []) then false
  else if IsRootSidecarPath firstSegment then true
  else if HasWhiteoutPrefix firstSegment && IsRootSidecarPath (drop (length kWhiteoutPrefix) firstSegment) then true
  else match ExistingLongName d root firstSegment with
  | Some longName => FirstSegmentOpensAsSidecar longName
  | None => false
  end.

Definition ResolveUnpackTarget (targetDir : wstring) : eff disk (img UnpackTarget) :=
  (let root := HostPath_ForWin32 targetDir in
   do! create_directories root in
   let! canonical := eread (fun d => weakly_canonical d root) in
   eret match canonical with
        | None => Err (Code ERROR_BAD_PATHNAME)
        | Some c => Ok {| targetRoot := root; canonicalRoot := c |}
        end)%eff.

Definition JoinUnderTarget (d : disk) (target : UnpackTarget) (relativePath : wstring) : img wstring :=
  let path := UnderExtendedRoot (targetRoot target) relativePath in
  match weakly_canonical d path with
  | None => Err (Code ERROR_BAD_PATHNAME)
  | Some canonical =>
      if negb (IsPathContainedIn canonical (canonicalRoot target)) then Err (Code ERROR_BAD_PATHNAME)
      else Ok path
  end.

(** The high and the low double word of [modified]. *)
Definition write_time (entry : FileEntryHeader) : FILETIME := Uint64ToFileTime (modified entry).

Definition win32_or_code {A} (r : w32 A) : img A := match r with Ok a => Ok a | Err e => Err (Code e) end.

Definition SetExtractedAttributes (target : wstring) (entry : FileEntryHeader) : eff disk (img unit) :=
  (let! set := SetFileAttributesW target (attributes entry) in
   match set with
   | Err e => eret (Err (Code e))
   | Ok _ =>
       let! opened := eread (fun d => OpenToSetTime d target) in
       match opened with
       | Err e => eret (Err (Code e))
       | Ok hFile =>
           let! timed := SetWriteTime hFile (write_time entry) in
           match timed with
           | Err e => do! CloseHandle hFile in eret (Err (Code e))
           | Ok _ => let! closed := CloseHandle hFile in eret (win32_or_code closed)
           end
       end
   end)%eff.

Definition WriteExtractedFile (target : wstring) (entry : FileEntryHeader) (fileData : list Z)
  : eff disk (img unit) :=
  (let parent := parent_path target in
   do! (if bool_decide (parent = []) then eret (Ok tt) else create_directories parent) in
   let! opened := ofstream_open target in
   if negb opened then eret (Err (Code ERROR_ACCESS_DENIED))
   else
     try! _ := (if 0 <? size entry then write_or_fault target 0 fileData else eret (Ok tt)) in
     do! ofstream_close target in
     SetExtractedAttributes target entry)%eff.

(** The loop of [ExtractArchive]; it gives the whiteouts that it wrote, in
    order. *)
Fixpoint extract_loop (fuel : nat) (archive : list Z) (pos : nat) (target : UnpackTarget)
    (extractedWhiteouts : list wstring) : eff disk (img (list wstring)) :=
  match fuel with
  | O => eret (Err OutOfFuel)
  | S fuel' =>
      (match ReadArchiveEntry archive pos with
       | Err e => eret (Err e)
       | Ok (None, _) => eret (Ok extractedWhiteouts)
       | Ok (Some entry, next) =>
           let! skips := eread (fun d => UnpackSkipsEntry d (entryName entry) (targetRoot target)) in
           if skips then extract_loop fuel' archive next target extractedWhiteouts
           else
             try! path := eread (fun d => JoinUnderTarget d target (entryName entry)) in
             if negb (isDirectory (entryHeader entry) =? 0) then
               do! create_directories path in extract_loop fuel' archive next target extractedWhiteouts
             else
               try! _ := WriteExtractedFile path (entryHeader entry) (entryData entry) in
               extract_loop fuel' archive next target
                 (if negb (isWhiteoutEntry (entryHeader entry) =? 0)
                  then extractedWhiteouts ++ [entryName entry] else extractedWhiteouts)
       end)%eff
  end.

(** Each turn moves past an entry header. *)
Definition extract_fuel (archive : list Z) : nat := S (length archive / entry_header_size).

Definition ExtractArchive (archive : list Z) (target : UnpackTarget) : eff disk (img (list wstring)) :=
  extract_loop (extract_fuel archive) archive 0 target [].

Definition write_marker (path : wstring) : eff disk (img unit) :=
  (do! create_directories (parent_path path) in
   let! opened := ofstream_open path in
   if negb opened then eret (Err (Code ERROR_ACCESS_DENIED))
   else do! ofstream_close path in eret (Ok tt))%eff.

Fixpoint materialize (whiteouts : list wstring) (already : gset wstring) (target : UnpackTarget)
  : eff disk (img unit) :=
  match whiteouts with
  | [] => eret (Ok tt)
  | logical :: rest =>
      (if negb (IsValidArchivePath (WideToUtf8 logical)) then eret (Err (Code ERROR_BAD_PATHNAME))
       else
         let marker := MakeWhiteoutMarkerPath logical in
         if bool_decide (ToLower marker ∈ already) then materialize rest already target
         else
           let! skips := eread (fun d => UnpackSkipsEntry d marker (targetRoot target)) in
           if skips then materialize rest already target
           else
             try! path := eread (fun d => JoinUnderTarget d target marker) in
             try! _ := write_marker path in
             materialize rest already target)%eff
  end.

Definition MaterializeMetadataWhiteouts (whiteouts extractedWhiteouts : list wstring) (target : UnpackTarget)
  : eff disk (img unit) :=
  materialize whiteouts (list_to_set (ToLower <$> extractedWhiteouts)) target.
End Extract.
