(* ===== verification/ImageManager.v ===== *)
(** * The layer image manager

    The hash, the compression, the image file and the public operations of
    [image/LayerImageManager.cpp]. *)
From S2P Require Export ImageArchive.
Open Scope Z_scope.

Definition kChunkSize : nat := 64 * 1024.
Definition kMaxDecompressedBytes : Z := 4 * 1024 * 1024 * 1024.

Record ImageOutput := { outputPath : wstring; compressionLevel : Z }.
Record LayerManifestEntry := { imagePath : wstring; checksumHex : wstring }.
Record LayerManifest := { schemaVersion : Z; layers : list LayerManifestEntry }.

Definition dword_of_nt {A} (r : nt A) : img A :=
  match r with Ok a => Ok a | Err status => Err (Code (NtStatusToDword status)) end.

Definition with_sizes (c : CompressionType) (plain packed : Z) (m : LayerMetadata) : LayerMetadata := {|
  id := id m; parentId := parentId m; createdAt := createdAt m; author := author m;
  description := description m; tags := tags m; compression := c; fileCount := fileCount m;
  uncompressedSize := plain; compressedSize := packed; whiteouts := whiteouts m; labels := labels m
|}.

Definition with_files (count : Z) (deleted : list wstring) (m : LayerMetadata) : LayerMetadata := {|
  id := id m; parentId := parentId m; createdAt := createdAt m; author := author m;
  description := description m; tags := tags m; compression := compression m; fileCount := count;
  uncompressedSize := uncompressedSize m; compressedSize := compressedSize m; whiteouts := deleted;
  labels := labels m
|}.

(** [while (!s.empty() && s.back() == 0) s.pop_back()]. *)
Definition drop_trailing_nul (s : list Z) : list Z := strip_trailing 0 s.

Section Manager.
Context `{W : Win32} `{H : !ImageHost} `{J : Json}.

(** ** Hashing *)

Definition InitBcryptSha256 : img bcrypt_hash :=
  (let? hAlg := dword_of_nt BCryptOpenAlgorithmProvider in
   let? hashObjSize := dword_of_nt (BCryptGetObjectLength hAlg) in
   let? _ := allocate hashObjSize in
   dword_of_nt (BCryptCreateHash hAlg hashObjSize))%res.

(** The chunk loop over the bytes from [offset]; [remaining] counts down. *)
Fixpoint hash_chunks (fuel : nat) (stream : in_stream) (offset remaining : Z) (hash : bcrypt_hash)
  : img bcrypt_hash :=
  match fuel with
  | O => Err OutOfFuel
  | S fuel' =>
      if 0 <? remaining then
        let chunk := Z.min remaining (Z.of_nat kChunkSize) in
        let buffer := stream_read stream offset chunk in
        if negb (Z.of_nat (length buffer) =? chunk) then Err (Code ERROR_READ_FAULT)
        else (let? hash' := dword_of_nt (BCryptHashData hash buffer) in
              hash_chunks fuel' stream (offset + chunk) (remaining - chunk) hash')%res
      else Ok hash
  end.

(** A read of a whole chunk leaves fewer bytes in the stream, and the loop ends
    at the first chunk that is not whole. *)
Definition hash_fuel (stream : in_stream) : nat := S (length (st_bytes stream)).

Definition ComputeSHA256Stream (d : disk) (filePath : wstring) (offset size : Z) : img (list Z) :=
  match ifstream_open d (HostPath_ForWin32 filePath) with
  | None => Err (Code ERROR_FILE_NOT_FOUND)
  | Some file =>
      (let? _ := guard (seekable offset) ERROR_SEEK in
       let? hash := InitBcryptSha256 in
       let? _ := allocate (Z.of_nat kChunkSize) in
       let? hash := hash_chunks (hash_fuel file) file offset size hash in
       dword_of_nt (BCryptFinishHash hash))%res
  end.

(** Hashes each chunk, then writes it at [position]. *)
Fixpoint write_chunks (fuel : nat) (path : wstring) (position : Z) (data : list Z) (hash : bcrypt_hash)
  : eff disk (img bcrypt_hash) :=
  match fuel with
  | O => eret (Err OutOfFuel)
  | S fuel' =>
      match data with
      | [] => eret (Ok hash)
      | _ =>
          let chunk := take kChunkSize data in
          match dword_of_nt (BCryptHashData hash chunk) with
          | Err e => eret (Err e)
          | Ok hash' =>
              (try! _ := write_or_fault path position chunk in
               write_chunks fuel' path (position + Z.of_nat (length chunk)) (drop kChunkSize data) hash')%eff
          end
      end
  end.

Definition WriteDataWithHash (path : wstring) (position : Z) (data : list Z) : eff disk (img (list Z)) :=
  (try! hash := eret InitBcryptSha256 in
   try! hash := write_chunks (S (length data)) path position data hash in
   eret (dword_of_nt (BCryptFinishHash hash)))%eff.

(** ** Compression *)

Definition CompressBuffer (input : list Z) (level : Z) : img (list Z) :=
  (let? _ := allocate (zstd_compressBound (Z.of_nat (length input))) in
   img_of_option (zstd_compress level input) ERROR_INVALID_DATA)%res.

Definition DecompressBuffer (input : list Z) : img (list Z) :=
  match zstd_content_size input with
  | None => Err (Code ERROR_INVALID_DATA)
  | Some frameSize =>
      if kMaxDecompressedBytes <? frameSize then Err (Code ERROR_INVALID_DATA)
      else
        (let? _ := allocate frameSize in
         let? output := img_of_option (zstd_decompress input frameSize) ERROR_INVALID_DATA in
         let? _ := guard (Z.of_nat (length output) =? frameSize) ERROR_INVALID_DATA in
         Ok output)%res
  end.

(** ** Writing an image *)

Definition create_parent_directories (outPath : wstring) : eff disk (img unit) :=
  (let parent := parent_path outPath in
   if bool_decide (parent = []) then eret (Ok tt)
   else let! made := create_directories parent in eret (win32_or_code made))%eff.

Definition image_header (jsonSize packedSize : Z) (sum : list Z) : LayerImageHeader := {|
  magic := LAYER_IMAGE_MAGIC; version := LAYER_IMAGE_VERSION; flags := compression_flag Zstd;
  metadataOffset := header_size; metadataSize := jsonSize; dataOffset := header_size + jsonSize;
  dataSize := packedSize; checksum := sum; reserved := replicate 48 0
|}.

(** The header that is written first: no offsets yet. *)
Definition blank_header : LayerImageHeader := {|
  magic := LAYER_IMAGE_MAGIC; version := LAYER_IMAGE_VERSION; flags := compression_flag Zstd;
  metadataOffset := 0; metadataSize := 0; dataOffset := 0; dataSize := 0;
  checksum := replicate 32 0; reserved := replicate 48 0
|}.

(** The metadata is returned with the sizes filled in. *)
Definition WriteImageFile (output : ImageOutput) (metadata : LayerMetadata) (archive : list Z)
  : eff disk (img LayerMetadata) :=
  (let outPath := HostPath_ForWin32 (outputPath output) in
   try! _ := create_parent_directories outPath in
   try! compressed := eret (CompressBuffer archive (compressionLevel output)) in
   let packedSize := Z.of_nat (length compressed) in
   let metadata := with_sizes Zstd (Z.of_nat (length archive)) packedSize metadata in
   let metadataJson := SerializeMetadata metadata ++ [0] in
   let jsonSize := Z.of_nat (length metadataJson) in
   let! opened := ofstream_open outPath in
   if negb opened then eret (Err (Code ERROR_ACCESS_DENIED))
   else
     try! _ := write_or_fault outPath 0 (header_bytes blank_header) in
     try! _ := write_or_fault outPath header_size metadataJson in
     try! sum := WriteDataWithHash outPath (header_size + jsonSize) compressed in
     let! sought := ofstream_seek outPath 0 in
     try! _ := eret (guard sought ERROR_SEEK) in
     try! _ := write_or_fault outPath 0 (header_bytes (image_header jsonSize packedSize sum)) in
     do! ofstream_close outPath in
     eret (Ok metadata))%eff.

Definition WriteImage (output : ImageOutput) (metadata : LayerMetadata) (archive : list Z)
  : eff disk (img LayerMetadata) :=
  (let! r := WriteImageFile output metadata archive in
   match r with
   | Ok m => eret (Ok m)
   | Err (Code e) =>
       do! fs_remove (HostPath_ForWin32 (outputPath output)) in eret (Err (Code e))
   | Err other => eret (Err other)
   end)%eff.

(** ** Reading an image *)

(** Sums of 64-bit offsets wrap. *)
Definition uint64 (n : Z) : Z := n mod 2 ^ 64.

Definition check_header (header : LayerImageHeader) : img unit :=
  (let? _ := guard (bool_decide (magic header = LAYER_IMAGE_MAGIC)) ERROR_INVALID_DATA in
   let? _ := guard (version header <=? LAYER_IMAGE_VERSION) ERROR_REVISION_MISMATCH in
   let? _ := guard (header_size <=? metadataOffset header) ERROR_INVALID_DATA in
   let? _ := guard (uint64 (metadataOffset header + metadataSize header) <=? dataOffset header)
               ERROR_INVALID_DATA in
   let? _ := guard (metadataOffset header <=? uint64 (metadataOffset header + metadataSize header))
               ERROR_INVALID_DATA in
   guard (dataOffset header <=? uint64 (dataOffset header + dataSize header)) ERROR_INVALID_DATA)%res.

(** The header, the metadata and the open stream. *)
Definition ReadHeaderAndMetadata (d : disk) (imagePath : wstring)
  : img (LayerImageHeader * LayerMetadata * in_stream) :=
  match ifstream_open d (HostPath_ForWin32 imagePath) with
  | None => Err (Code ERROR_FILE_NOT_FOUND)
  | Some fileHandle =>
      let bytes := stream_read fileHandle 0 header_size in
      if negb (Z.of_nat (length bytes) =? header_size) then Err (Code ERROR_INVALID_DATA)
      else
        let header := header_of_bytes bytes in
        (let? _ := check_header header in
         let? _ := guard (seekable (metadataOffset header)) ERROR_SEEK in
         let? _ := allocate (metadataSize header) in
         let metadataStr := stream_read fileHandle (metadataOffset header) (metadataSize header) in
         let? _ := guard (Z.of_nat (length metadataStr) =? metadataSize header) ERROR_READ_FAULT in
         let? metadata := DeserializeMetadata (drop_trailing_nul metadataStr) in
         Ok (header, metadata, fileHandle))%res
  end.

(** ** The public operations *)

(** [guid] and [now] are what [CoCreateGuid] and [GetSystemTime] give. *)
Definition CreateImage (guid : option wstring) (now : SYSTEMTIME) (sourceDir : wstring) (output : ImageOutput)
    (metadata : LayerMetadata) : eff disk (img LayerMetadata) :=
  (try! sourceEntries := eread (fun d => ScanDirectory d sourceDir) in
   try! builder := eread (fun d => PackEntries d sourceDir sourceEntries new_builder) in
   WriteImage output (with_files (builtCount builder) (whiteouts metadata) (StampIdentity guid now metadata))
     (Finish builder))%eff.

Definition CreateDifferentialImage (guid : option wstring) (now : SYSTEMTIME) (sourceDir baseDir : wstring)
    (output : ImageOutput) (metadata : LayerMetadata) : eff disk (img LayerMetadata) :=
  (try! sourceEntries := eread (fun d => ScanDirectory d sourceDir) in
   try! baseEntries := eread (fun d => ScanDirectory d baseDir) in
   try! builder := eread (fun d => PackEntries d sourceDir (ChangedEntries sourceEntries baseEntries) new_builder) in
   let deleted := DeletedPaths sourceEntries baseEntries in
   try! builder := eret (add_whiteouts deleted builder) in
   WriteImage output (with_files (builtCount builder) deleted (StampIdentity guid now metadata))
     (Finish builder))%eff.

(** The checksum of the data section, compared with the header's. *)
Definition checksum_matches (d : disk) (imagePath : wstring) (header : LayerImageHeader) : img unit :=
  (let? computed := ComputeSHA256Stream d imagePath (dataOffset header) (dataSize header) in
   guard (bool_decide (computed = checksum header)) ERROR_CRC)%res.

(** The part of [ExtractImage] before the first write: the metadata and the
    archive of an image. *)
Definition read_archive_of (d : disk) (imagePath : wstring) (verifyChecksum : bool) : img (LayerMetadata * list Z) :=
  (let? (header, metadata, file) := ReadHeaderAndMetadata d imagePath in
   let? _ := (if verifyChecksum then checksum_matches d imagePath header else Ok tt) in
   let? _ := guard (seekable (dataOffset header)) ERROR_SEEK in
   let? _ := allocate (dataSize header) in
   let compressed := stream_read file (dataOffset header) (dataSize header) in
   let? _ := guard (Z.of_nat (length compressed) =? dataSize header) ERROR_READ_FAULT in
   let? archive := DecompressBuffer compressed in
   Ok (metadata, archive))%res.

Definition ExtractImage (imagePath targetDir : wstring) (verifyChecksum : bool) : eff disk (img unit) :=
  (try! image := eread (fun d => read_archive_of d imagePath verifyChecksum) in
   try! target := ResolveUnpackTarget targetDir in
   try! extractedWhiteouts := ExtractArchive (snd image) target in
   MaterializeMetadataWhiteouts (whiteouts (fst image)) extractedWhiteouts target)%eff.

Definition GetImageInfo (d : disk) (imagePath : wstring) : img (LayerImageHeader * LayerMetadata) :=
  (let? (header, metadata, _) := ReadHeaderAndMetadata d imagePath in Ok (header, metadata))%res.

Definition ValidateImage (d : disk) (imagePath : wstring) : img unit :=
  (let? (header, _, _) := ReadHeaderAndMetadata d imagePath in checksum_matches d imagePath header)%res.

(** ** Manifests *)

(** The entry of one image: its path and the checksum in its header. *)
Definition manifest_entry (d : disk) (imagePath : wstring) : img json :=
  match ifstream_open d (HostPath_ForWin32 imagePath) with
  | None => Err (Code ERROR_FILE_NOT_FOUND)
  | Some file =>
      let bytes := stream_read file 0 header_size in
      if negb (Z.of_nat (length bytes) =? header_size) then Err (Code ERROR_INVALID_DATA)
      else
        let header := header_of_bytes bytes in
        (let? _ := guard (bool_decide (magic header = LAYER_IMAGE_MAGIC)) ERROR_INVALID_DATA in
         Ok (JObject [("path", JString (WideToUtf8 imagePath));
                      ("sha256", JString (WideToUtf8 (HashToHexString (checksum header))))]%string))%res
  end.

Fixpoint manifest_entries (d : disk) (layerImagePaths : list wstring) : img (list json) :=
  match layerImagePaths with
  | [] => Ok []
  | p :: rest =>
      (let? e := manifest_entry d p in let? es := manifest_entries d rest in Ok (e :: es))%res
  end.

Definition CreateManifest (manifestPath : wstring) (layerImagePaths : list wstring) : eff disk (img unit) :=
  (try! entries := eread (fun d => manifest_entries d layerImagePaths) in
   let outPath := HostPath_ForWin32 manifestPath in
   try! _ := create_parent_directories outPath in
   let! opened := ofstream_open outPath in
   if negb opened then eret (Err (Code ERROR_ACCESS_DENIED))
   else
     try! _ := write_or_fault outPath 0 (to_text_mode (json_dump2
       (JObject [("layers", JArray entries); ("schemaVersion", JInteger 1)]%string))) in
     do! ofstream_close outPath in eret (Ok tt))%eff.

(** [j.value("schemaVersion", 0)] as an [int]; [None] when it throws. *)
Definition schema_version (j : json) : option Z :=
  let int32 n := (n + 2 ^ 31) mod 2 ^ 32 - 2 ^ 31 in
  match json_field j "schemaVersion" with
  | None => None
  | Some None => Some 0
  | Some (Some (JBool b)) => Some (if b then 1 else 0)
  | Some (Some (JUnsigned n)) => Some (int32 n)
  | Some (Some (JInteger n)) => Some (int32 n)
  | Some (Some (JFloat n)) => Some (int32 n)
  | Some (Some _) => None
  end.

Definition read_manifest_entry (j : json) : option LayerManifestEntry :=
  path ← value_text j "path" [];
  sum ← value_text j "sha256" [];
  Some {| imagePath := Utf8ToWide path; checksumHex := Utf8ToWide sum |}.

(** A field of the wrong type throws outside of the [try] of the parse. *)
Definition LoadManifest (d : disk) (manifestPath : wstring) : img LayerManifest :=
  match ifstream_open d (HostPath_ForWin32 manifestPath) with
  | None => Err (Code ERROR_FILE_NOT_FOUND)
  | Some file =>
      match json_extract (from_text_mode (st_bytes file)) with
      | None => Err (Code ERROR_INVALID_DATA)
      | Some j =>
          match schema_version j with
          | None => Err Thrown
          | Some version =>
              if version <? 1 then Err (Code ERROR_INVALID_DATA)
              else
                let entries := match contained j "layers" with Some (JArray items) => items | _ => [] end in
                match mapM read_manifest_entry entries with
                | None => Err Thrown
                | Some es => Ok {| schemaVersion := version mod 2 ^ 32; layers := es |}
                end
          end
      end
  end.
End Manager.
