(* ===== verification/ImageLaws.v ===== *)
(** * Documented behaviour of the host calls of a layer image

    What the image component relies on of file streams, zstd, SHA-256 and the
    UTF-8 conversions, as law classes, and a concrete host with these laws. *)
From S2P Require Export ImageManager.
Open Scope Z_scope.

(** [old] with [data] over it from [offset]. *)
Definition overwrite (old : list Z) (offset : Z) (data : list Z) : list Z :=
  take (Z.to_nat offset) old ++ data ++ drop (Z.to_nat offset + length data) old.

(** [pending d p] is what the file [p] holds once the stream that is open on
    it has been flushed. *)
Class StreamLaws `{H : ImageHost} := {
  pending : disk -> wstring -> option (list Z);
  open_pending p d d' : ofstream_open p d = (d', true) -> pending d' p = Some [];
  write_pending p offset data old d d' :
    ofstream_write p offset data d = (d', true) -> pending d p = Some old ->
    0 <= offset <= Z.of_nat (length old) -> pending d' p = Some (overwrite old offset data);
  seek_pending p offset d d' : ofstream_seek p offset d = (d', true) -> pending d' p = pending d p;
  close_pending p data d d' :
    ofstream_close p d = (d', true) -> pending d p = Some data ->
    ifstream_open d' p = Some {| st_end := Some (Z.of_nat (length data)); st_bytes := data |}
}.

(** No allocation reaches [max_size]; the fields of the attribute data are
    double words. *)
Class AllocLaws `{H : ImageHost} := {
  alloc_bound n : alloc n = true -> n < 2 ^ 63;
  attribute_data_range d p a : GetFileAttributesExW d p = Ok a ->
    0 <= fad_attributes a < 2 ^ 32 /\ 0 <= dwLowDateTime (ftLastWriteTime a) < 2 ^ 32 /\
    0 <= dwHighDateTime (ftLastWriteTime a) < 2 ^ 32 /\ 0 <= nFileSizeHigh a < 2 ^ 32 /\ 0 <= nFileSizeLow a < 2 ^ 32
}.

Class ZstdLaws `{H : ImageHost} := {
  zstd_frame level plain packed : zstd_compress level plain = Some packed ->
    zstd_content_size packed = Some (Z.of_nat (length plain)) /\
    zstd_decompress packed (Z.of_nat (length plain)) = Some plain
}.

Class Sha256Laws `{H : ImageHost} := {
  hash_is_32_bytes h sum : BCryptFinishHash h = Ok sum -> length sum = 32%nat
}.

(** The conversions keep ASCII characters: they map each to itself, no other
    character to one, and no text to nothing. *)
Class AsciiTransparent (f : list Z -> list Z) := {
  ascii_split a c b : 0 < c < 128 -> f (a ++ c :: b) = f a ++ c :: f b;
  ascii_only s c : 0 < c < 128 -> c ∈ f s -> c ∈ s;
  ascii_nil s : f s = [] <-> s = []
}.

Class Utf8Laws `{W : Win32} := {
  #[export] utf8_to_wide_ascii :: AsciiTransparent Utf8ToWide;
  #[export] wide_to_utf8_ascii :: AsciiTransparent WideToUtf8
}.

(** ** A concrete host

    Streams write through to the volume of [mem_win32]; a stream does not open
    on a directory or under a file.  zstd stores, the hash is the first bytes,
    the canonical path is the path. *)
Module MemImage.
Import MemWin32.

Definition is_dir (v : volume) (p : wstring) : option bool :=
  match lookup_entry v p with
  | Ok e => Some (has_attr (me_attributes e) FILE_ATTRIBUTE_DIRECTORY)
  | Err _ => None
  end.

Definition open_in (v : volume) (p : wstring) : option in_stream :=
  match lookup_entry v p with
  | Ok e => if has_attr (me_attributes e) FILE_ATTRIBUTE_DIRECTORY then None
            else Some (InStream (Some (Z.of_nat (length (me_data e)))) (me_data e))
  | Err _ => None
  end.

Definition open_out (p : wstring) : eff volume bool := fun v =>
  if bool_decide (is_dir v p = Some true) || bool_decide (is_dir v (parent_path p) = Some false) then (v, false)
  else (put_entry v p (MemEntry FILE_ATTRIBUTE_ARCHIVE 0 [] []), true).

Definition write_at (p : wstring) (offset : Z) (data : list Z) : eff volume bool := fun v =>
  match lookup_entry v p with
  | Ok e => (put_entry v p (MemEntry (me_attributes e) (me_tag e) (overwrite (me_data e) offset data) (me_reparse e)), true)
  | Err _ => (v, false)
  end.

(** The steps below [base], in the order of the volume. *)
Definition walk (v : volume) (base : wstring) : option (list walk_item) :=
  let prefix := base ++ [ch_bsl] in
  Some (omap (fun pe =>
    if bool_decide (take (length prefix) (fst pe) = prefix) then
      let below := drop (length prefix) (fst pe) in
      Some (WalkEntry (length (filter (fun c => c = ch_bsl) below)) (fst pe)
              (Some (has_attr (me_attributes (snd pe)) FILE_ATTRIBUTE_DIRECTORY)))
    else None) v).

Definition attribute_data (e : mem_entry) : file_attribute_data :=
  FileAttributeData (Z.land (me_attributes e) (Z.ones 32)) (FileTime (Z.land (me_tag e) (Z.ones 32)) 0) 0
    (Z.land (Z.of_nat (length (me_data e))) (Z.ones 32)).

Definition set_attributes (p : wstring) (attributes : Z) : eff volume (w32 unit) := fun v =>
  match lookup_entry v p with
  | Ok e => (put_entry v p (MemEntry attributes (me_tag e) (me_data e) (me_reparse e)), Ok tt)
  | Err e => (v, Err e)
  end.
End MemImage.

#[export] Instance mem_image : @ImageHost mem_win32 := {|
  alloc := fun n => n <? 2 ^ 63;
  ifstream_open := MemImage.open_in;
  ofstream_open := MemImage.open_out;
  ofstream_write := MemImage.write_at;
  ofstream_seek := fun _ _ => eret true;
  ofstream_close := fun _ => eret true;
  fs_exists := fun v p => Some (is_ok (MemWin32.lookup_entry v p));
  weakly_canonical := fun _ p => Some p;
  fs_remove := fun p v => (fst (MemWin32.delete_entry p v), tt);
  recursive_walk := MemImage.walk;
  GetFileAttributesExW := MemWin32.field MemImage.attribute_data;
  SetFileAttributesW := MemImage.set_attributes;
  OpenToSetTime := MemWin32.field (fun _ => []);
  SetWriteTime := fun _ _ => eret (Ok tt);
  CloseHandle := fun _ => eret (Ok tt);
  GetLongPathNameW := fun v p => match MemWin32.lookup_entry v p with Ok _ => Some p | Err _ => None end;
  zstd_compressBound := fun n => n;
  zstd_compress := fun _ s => Some s;
  zstd_content_size := fun s => Some (Z.of_nat (length s));
  zstd_decompress := fun s _ => Some s;
  bcrypt_algorithm := unit;
  bcrypt_hash := list Z;
  BCryptOpenAlgorithmProvider := Ok tt;
  BCryptGetObjectLength := fun _ => Ok 1;
  BCryptCreateHash := fun _ _ => Ok [];
  BCryptHashData := fun h data => Ok (take 32 (h ++ data));
  BCryptFinishHash := fun h => Ok (take 32 (h ++ replicate 32 0));
  towlower := MemWin32.ascii_lower;
  json_dump2 := fun _ => [123; 125];
  json_extract := fun _ => None
|}.

Section Mem.
Import MemWin32.

Lemma mem_lookup_put (v : volume) p e : lookup_entry (put_entry v p e) p = Ok e.
Proof. unfold lookup_entry, put_entry. cbn [find_entry]. by rewrite bool_decide_true. Qed.
End Mem.

Definition mem_pending (v : MemWin32.volume) (p : wstring) : option (list Z) :=
  match MemWin32.lookup_entry v p with
  | Ok e => if has_attr (MemWin32.me_attributes e) FILE_ATTRIBUTE_DIRECTORY then None
            else Some (MemWin32.me_data e)
  | Err _ => None
  end.

#[export] Instance mem_stream_laws : @StreamLaws mem_win32 mem_image.
Proof.
  apply (Build_StreamLaws mem_win32 mem_image mem_pending); unfold mem_pending.
  - intros p d d'. cbn. unfold MemImage.open_out. destruct (_ || _); intros [= <-]. by rewrite mem_lookup_put.
  - intros p offset data old d d'. cbn. unfold MemImage.write_at.
    destruct (MemWin32.lookup_entry d p) as [e|]; intros [= <-]. rewrite mem_lookup_put. cbn.
    destruct (has_attr _ _); [done|]. intros [= <-] _. done.
  - intros p offset d d'. cbn. by intros [= <-].
  - intros p data d d'. cbn. intros [= <-]. unfold MemImage.open_in.
    destruct (MemWin32.lookup_entry d p) as [e|]; [|done]. destruct (has_attr _ _); [done|]. by intros [= <-].
Defined.

#[export] Instance mem_alloc_laws : @AllocLaws mem_win32 mem_image.
Proof.
  split; cbn.
  - intros n. by rewrite Z.ltb_lt.
  - intros d p a. unfold MemWin32.field. destruct (MemWin32.lookup_entry d p) as [e|]; [|done]. intros [= <-]. cbn.
    rewrite !Z.land_ones by done. repeat split; try done; try (by apply Z.mod_pos_bound).
Qed.

#[export] Instance mem_zstd_laws : @ZstdLaws mem_win32 mem_image.
Proof. split. intros level plain packed [= <-]. done. Qed.

#[export] Instance mem_sha_laws : @Sha256Laws mem_win32 mem_image.
Proof.
  split. intros h sum [= <-]. apply (firstn_length_le (A:=Z)).
  pose proof (length_app (h : list Z) (replicate 32 0)) as E. rewrite length_replicate in E. cbn in *. lia.
Qed.

Lemma identity_transparent (f : list Z -> list Z) : (forall s, f s = s) -> AsciiTransparent f.
Proof. intros H. split; [intros; by rewrite !H|intros s c _; by rewrite H|intros s; by rewrite H]. Qed.

#[export] Instance mem_utf8_laws : @Utf8Laws mem_win32.
Proof.
  split; apply identity_transparent; intros s; unfold Utf8ToWide, WideToUtf8; case_bool_decide; subst; try done;
    cbn; by rewrite bool_decide_false.
Qed.
