(* ===== verification/PackFacts.v ===== *)
(** * What a pack writes, an unpack reads

    The builder's archive is the concatenation of its entries, so the reader
    gives them back in order.  The scan gives well-formed entries.  The
    archive of a differential image holds exactly the changes. *)

From S2P Require Export ImageLaws.
Open Scope Z_scope.

(** ** The archive stream

    An entry header is its bytes, the reader gives back what the builder
    appended, a read stays inside the archive whatever its bytes are, and the
    loop of the extraction ends. *)

(** ** Fields of a packed struct *)

Lemma le_field_skip l rest off n :
  (length l <= off)%nat -> le_field (l ++ rest) off n = le_field rest (off - length l) n.
Proof. apply le_field_app_r. Qed.

(** The ranges of the fields of an entry header. *)
Record entry_header_ok (e : FileEntryHeader) : Prop := {
  nameLength_range : 0 <= nameLength e < 2 ^ 16;
  size_range : 0 <= size e < 2 ^ 64;
  attributes_range : 0 <= attributes e < 2 ^ 32;
  modified_range : 0 <= modified e < 2 ^ 64;
  isDirectory_range : 0 <= isDirectory e < 2 ^ 8;
  isWhiteout_range : 0 <= isWhiteoutEntry e < 2 ^ 8
}.

Lemma entry_bytes_length e : length (entry_bytes e) = entry_header_size.
Proof. unfold entry_bytes. rewrite !length_app, !le_encode_length. done. Qed.

Ltac read_field :=
  repeat rewrite le_field_skip by (rewrite ?le_encode_length; lia);
  rewrite le_field_here by (rewrite ?le_encode_length; lia).

Lemma entry_of_entry_bytes e : entry_header_ok e -> entry_of_bytes (entry_bytes e) = e.
Proof.
  intros []. unfold entry_of_bytes, entry_bytes. destruct e as [nl sz att mo isd wh]; cbn -[le_encode] in *.
  rewrite <- (app_nil_r (le_encode 1 wh)). f_equal; by read_field.
Qed.

Lemma entry_of_bytes_ok b : Forall is_byte b -> entry_header_ok (entry_of_bytes b).
Proof.
  intros Hb.
  assert (Hf : forall off w, 0 <= le_field b off w < 256 ^ Z.of_nat w).
  { intros off w. unfold le_field. assert (Hd : Forall is_byte (take w (drop off b))) by by apply Forall_take, Forall_drop.
    pose proof (le_decode_bound _ Hd) as Hr. split; [lia|].
    eapply Z.lt_le_trans; [apply Hr|]. apply Z.pow_le_mono_r; [lia|]. rewrite length_take. lia. }
  split; cbn; apply Hf.
Qed.

(** ** One entry *)

Section Entry.
Context `{W : Win32}.

(** An entry as the archive holds it. *)
Definition stored_bytes (e : ArchiveEntry) : list Z :=
  entry_bytes (entryHeader e) ++ WideToUtf8 (entryName e) ++ entryData e.

(** A name that the writer and the reader both take, and that survives the
    conversions. *)
Record archive_name (n : wstring) : Prop := {
  name_utf8 : IsValidUtf8 (WideToUtf8 n) = true;
  name_path : IsValidArchivePath (WideToUtf8 n) = true;
  name_wide : Utf8ToWide (WideToUtf8 n) = n
}.

(** A well-formed entry: its name, its header fields, and as many bytes as its
    size says; a directory has none. *)
Record entry_ok (e : ArchiveEntry) : Prop := {
  entry_name_ok : archive_name (entryName e);
  entry_fields : entry_header_ok (entryHeader e);
  entry_name_length : nameLength (entryHeader e) = Z.of_nat (length (WideToUtf8 (entryName e)));
  entry_no_end : nameLength (entryHeader e) < ARCHIVE_END_MARKER;
  entry_size : size (entryHeader e) = Z.of_nat (length (entryData e));
  entry_directory : isDirectory (entryHeader e) <> 0 -> entryData e = []
}.

Lemma ReadArchiveEntry_stored pre e post :
  entry_ok e ->
  ReadArchiveEntry (pre ++ stored_bytes e ++ post) (length pre) =
    Ok (Some e, length (pre ++ stored_bytes e)).
Proof.
  intros He. pose proof (entry_name_ok e He) as [Hu Hp Hw]. pose proof (entry_fields e He) as Hf.
  pose proof (entry_name_length e He) as Hn. pose proof (entry_no_end e He) as Hend.
  pose proof (entry_size e He) as Hs. pose proof (entry_bytes_length (entryHeader e)) as Hlen.
  assert (Hne : WideToUtf8 (entryName e) <> []) by (intros E; by rewrite E in Hp).
  unfold ReadArchiveEntry, stored_bytes. rewrite !length_app, Hlen.
  rewrite (proj2 (Nat.ltb_ge _ _)) by lia.
  rewrite drop_app_length, <- app_assoc, take_app_length' by done. rewrite entry_of_entry_bytes by done.
  rewrite Hn. rewrite (proj2 (Z.eqb_neq _ _)) by lia.
  assert (0 < length (WideToUtf8 (entryName e)))%nat by (destruct (WideToUtf8 (entryName e)); [done|cbn; lia]).
  rewrite (proj2 (Z.eqb_neq _ 0)) by lia. rewrite Nat2Z.id.
  rewrite (proj2 (Nat.ltb_ge _ _)) by lia.
  assert (Hd : drop (length pre + entry_header_size) (pre ++ entry_bytes (entryHeader e) ++
                 (WideToUtf8 (entryName e) ++ entryData e) ++ post) = WideToUtf8 (entryName e) ++ entryData e ++ post).
  { rewrite <- drop_drop, drop_app_length, drop_app_length' by done. by rewrite app_assoc. }
  rewrite Hd, take_app_length, Hu, Hp. cbn [negb].
  rewrite <- drop_drop, Hd, drop_app_length. rewrite Hs, Nat2Z.id.
  rewrite (proj2 (Z.ltb_ge _ _)) by lia. rewrite take_app_length, Hw.
  destruct e as [h n data]; cbn [entryHeader entryName entryData] in *.
  destruct (Z.eqb_spec (isDirectory h) 0) as [E|E].
  - f_equal. f_equal. lia.
  - pose proof (entry_directory _ He E) as Hz. cbn in Hz. subst data. f_equal. f_equal. cbn [length]. lia.
Qed.

Lemma ReadArchiveEntry_end pre post :
  ReadArchiveEntry (pre ++ entry_bytes (with_name_length ARCHIVE_END_MARKER no_entry_header) ++ post) (length pre) =
    Ok (None, (length pre + entry_header_size)%nat).
Proof.
  unfold ReadArchiveEntry. rewrite !length_app, entry_bytes_length.
  rewrite (proj2 (Nat.ltb_ge _ _)) by lia. rewrite drop_app_length.
  rewrite take_app_length' by by rewrite entry_bytes_length.
  rewrite entry_of_entry_bytes by (split; cbn; unfold ARCHIVE_END_MARKER; lia). done.
Qed.

(** ** The reader stays inside the archive *)

(** Whatever the bytes of an archive are, an entry that [ReadArchiveEntry]
    gives lies inside it: the header, the name and the data follow each other
    from [pos] and end by its length, the data has the size of the header, and
    the next position is past the entry. *)
Theorem ReadArchiveEntry_bounds archive pos e next :
  Forall is_byte archive -> ReadArchiveEntry archive pos = Ok (Some e, next) ->
  let nameEnd := (pos + entry_header_size + Z.to_nat (nameLength (entryHeader e)))%nat in
  let dataEnd := (nameEnd + Z.to_nat (size (entryHeader e)))%nat in
  (pos + entry_header_size < nameEnd)%nat /\ (dataEnd <= length archive)%nat /\
  entryData e = take (Z.to_nat (size (entryHeader e))) (drop nameEnd archive) /\
  length (entryData e) = Z.to_nat (size (entryHeader e)) /\
  next = (if isDirectory (entryHeader e) =? 0 then dataEnd else nameEnd) /\
  entry_header_ok (entryHeader e).
Proof.
  intros Hb. unfold ReadArchiveEntry.
  destruct (Nat.ltb_spec (length archive) (pos + entry_header_size)) as [|H1]; [done|].
  pose proof (entry_of_bytes_ok (take entry_header_size (drop pos archive)) ltac:(by apply Forall_take, Forall_drop)) as Hok.
  revert Hok. generalize (entry_of_bytes (take entry_header_size (drop pos archive))) as h. intros h Hok.
  pose proof (nameLength_range h Hok). pose proof (size_range h Hok).
  destruct (Z.eqb_spec (nameLength h) ARCHIVE_END_MARKER); [done|].
  destruct (Z.eqb_spec (nameLength h) 0); [done|].
  destruct (Nat.ltb_spec (length archive) (pos + entry_header_size + Z.to_nat (nameLength h))) as [|H2]; [done|].
  destruct (IsValidUtf8 _); [|done]. destruct (IsValidArchivePath _); [|done]. cbn [negb].
  destruct (Z.ltb_spec (Z.of_nat (length archive - (pos + entry_header_size + Z.to_nat (nameLength h)))) (size h)) as [|H3];
    [done|].
  intros [= <- <-]. cbn [entryHeader entryData]. repeat split; try done; try lia; try apply Hok.
  rewrite length_take, length_drop. lia.
Qed.

(** Every read that gives an entry moves on by more than a header. *)
Lemma ReadArchiveEntry_advances archive pos e next :
  ReadArchiveEntry archive pos = Ok (Some e, next) ->
  (pos + entry_header_size <= next)%nat /\ (next <= length archive)%nat.
Proof.
  unfold ReadArchiveEntry. cbv zeta. generalize (entry_of_bytes (take entry_header_size (drop pos archive))) as h.
  intros h. destruct (Nat.ltb_spec (length archive) (pos + entry_header_size)) as [|H1]; [done|].
  destruct (_ =? ARCHIVE_END_MARKER); [done|]. destruct (_ =? 0); [done|].
  destruct (Nat.ltb_spec (length archive) (pos + entry_header_size + Z.to_nat (nameLength h))) as [|H2]; [done|].
  destruct (negb _); [done|]. destruct (negb _); [done|].
  destruct (Z.ltb_spec (Z.of_nat (length archive - (pos + entry_header_size + Z.to_nat (nameLength h)))) (size h)) as [|H3];
    [done|].
  intros [= _ <-]. destruct (_ =? 0); lia.
Qed.
End Entry.

(** The entries of an archive from [pos] to the end marker, as the reader gives
    them. *)
Inductive reads `{W : Win32} (archive : list Z) : nat -> list ArchiveEntry -> Prop :=
| reads_end pos next : ReadArchiveEntry archive pos = Ok (None, next) -> reads archive pos []
| reads_entry pos next e es :
    ReadArchiveEntry archive pos = Ok (Some e, next) -> reads archive next es -> reads archive pos (e :: es).

(** The entry that [Append] writes. *)
Definition appended `{W : Win32} (name : wstring) (entry : FileEntryHeader) (data : list Z) : ArchiveEntry := {|
  entryHeader := with_name_length (Z.of_nat (length (WideToUtf8 name))) entry; entryName := name; entryData := data
|}.

Section Build.
Context `{W : Win32}.

Definition archive_bytes (es : list ArchiveEntry) : list Z := concat (stored_bytes <$> es).

Lemma reads_stored pre es post :
  Forall entry_ok es ->
  reads (pre ++ archive_bytes es ++ entry_bytes (with_name_length ARCHIVE_END_MARKER no_entry_header) ++ post)
    (length pre) es.
Proof.
  intros Hes. revert pre. induction Hes as [|e es He _ IH]; intros pre.
  - eapply reads_end. apply ReadArchiveEntry_end.
  - unfold archive_bytes. cbn [fmap list_fmap concat]. rewrite <- app_assoc.
    eapply reads_entry; [by apply ReadArchiveEntry_stored|]. rewrite app_assoc. apply IH.
Qed.

Lemma Append_spec name entry data b b' :
  Append name entry data b = Ok b' ->
  archive b' = archive b ++ stored_bytes (appended name entry data) /\ builtCount b' = builtCount b /\
  0 < Z.of_nat (length (WideToUtf8 name)) < ARCHIVE_END_MARKER.
Proof.
  unfold Append. case_bool_decide as Hn; [done|].
  destruct (Z.ltb_spec 0xFFFE (Z.of_nat (length (WideToUtf8 name)))) as [|Hl]; [done|]. intros [= <-]. cbn.
  assert (0 < length (WideToUtf8 name))%nat by (destruct (WideToUtf8 name); [done|cbn; lia]).
  unfold ARCHIVE_END_MARKER. split; [|split; [done|lia]]. unfold stored_bytes, appended, AppendBytes, uint16.
  cbn [archive entryHeader entryName entryData]. rewrite (Z.mod_small (Z.of_nat _) (2 ^ 16)) by lia. by rewrite <- !app_assoc.
Qed.

Lemma appended_ok name entry data :
  archive_name name -> 0 < Z.of_nat (length (WideToUtf8 name)) < ARCHIVE_END_MARKER -> entry_header_ok entry ->
  size entry = Z.of_nat (length data) -> (isDirectory entry <> 0 -> data = []) ->
  entry_ok (appended name entry data).
Proof.
  intros Hn Hl [] Hs Hd. unfold ARCHIVE_END_MARKER in Hl. split; cbn; try done; [|unfold ARCHIVE_END_MARKER; lia].
  split; cbn; try done. lia.
Qed.

(** The whiteout marker entry of a deleted path. *)
Definition whiteout_entry (deleted : wstring) : ArchiveEntry :=
  appended (MakeWhiteoutMarkerPath deleted)
    {| nameLength := 0; size := 0; attributes := FILE_ATTRIBUTE_NORMAL; modified := 0; isDirectory := 0;
       isWhiteoutEntry := 1 |} [].

Lemma add_whiteouts_spec deleted b b' :
  add_whiteouts deleted b = Ok b' ->
  Forall (fun p => archive_name (MakeWhiteoutMarkerPath p)) deleted ->
  archive b' = archive b ++ archive_bytes (whiteout_entry <$> deleted) /\ Forall entry_ok (whiteout_entry <$> deleted).
Proof.
  revert b. induction deleted as [|p ps IH]; intros b; cbn [add_whiteouts].
  { intros [= <-] _. cbn. by rewrite app_nil_r. }
  unfold AddWhiteoutMarker, AppendCounted. destruct (Append _ _ _ b) as [b1|] eqn:E; [|done].
  apply Append_spec in E as (Ea & _ & El). intros Hrun [Hn Hns]%Forall_cons.
  apply IH in Hrun as [Hr Hok]; [|done]. cbn in Hr. rewrite Ea in Hr. split.
  - rewrite Hr. unfold archive_bytes. cbn. by rewrite <- app_assoc.
  - cbn. constructor; [|done]. by apply appended_ok.
Qed.
End Build.

Section Pack.
Context `{W : Win32} `{H : !ImageHost} `{AL : !AllocLaws}.

(** The bytes that [AddFile] reads: none when the scan saw an empty file. *)
Definition file_content (d : disk) (path : wstring) (entry : FileEntryHeader) : list Z :=
  if 0 <? size entry then match ReadFileBytes d path with Ok bytes => bytes | Err _ => [] end else [].

(** The entry of one snapshot: a directory as scanned; a file with the size of
    what was read, marked when its name is a whiteout's. *)
Definition packed_entry (d : disk) (base : wstring) (snap : FileSnapshot) : ArchiveEntry :=
  let name := relativeName snap in
  if negb (isDirectory (snapEntry snap) =? 0) then appended name (snapEntry snap) []
  else
    let data := file_content d (UnderExtendedRoot base name) (snapEntry snap) in
    appended name (with_content (Z.of_nat (length data)) (if HasWhiteoutPrefix (filename name) then 1 else 0)
                     (snapEntry snap)) data.

(** A snapshot of a scan: its fields in range, and no size for a directory. *)
Record snapshot_ok (s : FileSnapshot) : Prop := {
  snapshot_fields : entry_header_ok (snapEntry s);
  snapshot_directory : isDirectory (snapEntry s) <> 0 -> size (snapEntry s) = 0
}.

Lemma ReadFileBytes_length d path bytes : ReadFileBytes d path = Ok bytes -> Z.of_nat (length bytes) < 2 ^ 63.
Proof.
  unfold ReadFileBytes. destruct (ifstream_open d path) as [stream|]; [|done].
  destruct (st_end stream) as [sz|]; [|done]. unfold allocate, guard.
  destruct (Z.eqb_spec sz 0) as [Hz|Hz]; cbn [orb].
  - destruct (Z.eqb_spec (Z.of_nat (length (stream_read stream 0 sz))) sz) as [E|]; [|done]. intros [= <-]. lia.
  - destruct (alloc sz) eqn:Ea; [|done]. apply alloc_bound in Ea.
    destruct (Z.eqb_spec (Z.of_nat (length (stream_read stream 0 sz))) sz) as [E|]; [|done]. intros [= <-]. lia.
Qed.

Lemma pack_entries_spec d base entries b b' :
  pack_entries d base entries b = Ok b' ->
  Forall (fun s => archive_name (relativeName s) /\ snapshot_ok s) entries ->
  archive b' = archive b ++ archive_bytes (packed_entry d base <$> entries) /\
  Forall entry_ok (packed_entry d base <$> entries).
Proof.
  revert b. induction entries as [|s ss IH]; intros b; cbn [pack_entries].
  { intros [= <-] _. cbn. by rewrite app_nil_r. }
  intros Hrun [[Hn [Hf Hd]] Hss]%Forall_cons.
  assert (Hstep : exists b1, pack_entries d base ss b1 = Ok b' /\
            archive b1 = archive b ++ stored_bytes (packed_entry d base s) /\ entry_ok (packed_entry d base s)).
  { unfold packed_entry. destruct (Z.eqb_spec (isDirectory (snapEntry s)) 0) as [E|E]; cbn [negb] in *.
    - unfold AddFile in Hrun. fold (file_content d (UnderExtendedRoot base (relativeName s)) (snapEntry s)).
      assert (Hc : exists bytes, (if 0 <? size (snapEntry s) then ReadFileBytes d (UnderExtendedRoot base (relativeName s))
                    else Ok []) = Ok bytes /\ bytes = file_content d (UnderExtendedRoot base (relativeName s)) (snapEntry s)
                    /\ Z.of_nat (length bytes) < 2 ^ 63).
      { unfold file_content. destruct (0 <? size (snapEntry s)); [|by exists []].
        destruct (ReadFileBytes _ _) as [bytes|] eqn:Er; [|done]. exists bytes. by eauto using ReadFileBytes_length. }
      destruct Hc as (bytes & Hr & Hb & Hlen). rewrite Hr in Hrun. unfold AppendCounted in Hrun.
      destruct (Append _ _ bytes b) as [b1|] eqn:Ea; [|done]. apply Append_spec in Ea as (Ea & _ & El).
      eexists. split; [exact Hrun|]. rewrite <- Hb. split; [done|]. apply appended_ok; try done.
      destruct Hf. split; cbn; try done; [lia|]. by destruct (HasWhiteoutPrefix _).
    - unfold AddDirectory in Hrun. destruct (Append _ _ [] b) as [b1|] eqn:Ea; [|done].
      apply Append_spec in Ea as (Ea & _ & El). exists b1. split; [done|]. split; [done|].
      apply appended_ok; try done. by rewrite Hd. }
  destruct Hstep as (b1 & Hrest & Ha & Hok). apply IH in Hrest as [Hr Hoks]; [|done]. split.
  - rewrite Hr, Ha. unfold archive_bytes. cbn. by rewrite <- app_assoc.
  - by constructor.
Qed.

(** The bytes of a pack, read back. *)
Lemma pack_reads_back d root entries deleted b b' :
  Forall (fun s => archive_name (relativeName s) /\ snapshot_ok s) entries ->
  Forall (fun p => archive_name (MakeWhiteoutMarkerPath p)) deleted ->
  PackEntries d root entries new_builder = Ok b -> add_whiteouts deleted b = Ok b' ->
  reads (Finish b') 0 ((packed_entry d (HostPath_ForWin32 root) <$> entries) ++ (whiteout_entry <$> deleted)).
Proof.
  intros He Hd Hp Hw. apply pack_entries_spec in Hp as [Hp Hpok]; [|done].
  apply add_whiteouts_spec in Hw as [Hw Hwok]; [|done]. unfold Finish, AppendBytes. rewrite Hw, Hp.
  pose proof (reads_stored [] ((packed_entry d (HostPath_ForWin32 root) <$> entries) ++ (whiteout_entry <$> deleted)) []) as Hr.
  cbn [app length] in Hr. unfold archive_bytes in *. rewrite fmap_app, concat_app, app_nil_r in Hr.
  apply Hr. by apply Forall_app.
Qed.

(** C28: The archive of a pack reads back as what was packed: the entries of the
    snapshots in their order, each with its name, its times and attributes and
    the bytes its file had, then one whiteout marker for each deleted path,
    then the end marker. *)
Theorem packed_archive_reads_back d root entries deleted b b' :
  Forall (fun s => archive_name (relativeName s) /\ snapshot_ok s) entries ->
  Forall (fun p => archive_name (MakeWhiteoutMarkerPath p)) deleted ->
  PackEntries d root entries new_builder = Ok b -> add_whiteouts deleted b = Ok b' ->
  reads (Finish b') 0 ((packed_entry d (HostPath_ForWin32 root) <$> entries) ++ (whiteout_entry <$> deleted)).
Proof. apply pack_reads_back. Qed.

(** ** The scan gives well-formed snapshots *)

Lemma double_word_range hi lo : 0 <= hi < 2 ^ 32 -> 0 <= lo < 2 ^ 32 -> 0 <= Z.lor (Z.shiftl hi 32) lo < 2 ^ 64.
Proof. intros Hh Hl. rewrite lor_shiftl_low by lia. lia. Qed.

Lemma FillFileEntry_ok d path directory e :
  FillFileEntry d path directory = Ok e -> entry_header_ok e /\ (isDirectory e <> 0 -> size e = 0).
Proof.
  unfold FillFileEntry. destruct (GetFileAttributesExW d path) as [a|] eqn:E; [|done]. intros [= <-].
  apply attribute_data_range in E as (Ha & Hlo & Hhi & Hsh & Hsl). split.
  - split; cbn [nameLength size attributes modified isDirectory isWhiteoutEntry]; [lia| |done| |by destruct directory|lia].
    + destruct directory; [lia|]. by apply double_word_range.
    + unfold FileTimeToUint64. by apply double_word_range.
  - cbn [isDirectory size]. by destruct directory.
Qed.

Lemma scan_walk_ok d base skipping items snaps :
  scan_walk d base skipping items = Ok snaps -> Forall snapshot_ok snaps.
Proof.
  revert skipping snaps. induction items as [|item items IH]; intros skipping snaps; cbn [scan_walk].
  { intros [= <-]. constructor. }
  destruct (skipping && _); [by apply IH|]. destruct item as [depth path is_directory|]; [|done].
  destruct (StepPastRootSidecar depth path); [by apply IH|]. destruct is_directory as [directory|]; [|done].
  destruct (RelativeNameOf d path base) as [name|]; [|done].
  destruct (FillFileEntry d path directory) as [e|] eqn:Ef; [|done].
  destruct (scan_walk d base false items) as [more|] eqn:Em; [|done]. intros [= <-].
  constructor; [|by eapply IH]. apply FillFileEntry_ok in Ef as [? ?]. by split.
Qed.

Lemma ScanDirectory_ok d dir snaps : ScanDirectory d dir = Ok snaps -> Forall snapshot_ok snaps.
Proof.
  unfold ScanDirectory. destruct (fs_exists d _) as [[]|]; try done.
  destruct (recursive_walk d _); [|done]. apply scan_walk_ok.
Qed.
End Pack.

(** ** Differential images

    A differential image holds the entries of the source that the base lacks
    or has in another state, and a marker for each path that only the base
    has. *)

Section Diff.
Context `{W : Win32} `{H : !ImageHost}.

Lemma base_by_key_lookup snaps k :
  base_by_key snaps !! k = last (filter (fun s => lookupKey s = k) snaps).
Proof.
  unfold base_by_key. enough (E : forall m : gmap wstring FileSnapshot,
    foldl (fun m b => <[lookupKey b := b]> m) m snaps !! k =
    match last (filter (fun s => lookupKey s = k) snaps) with Some s => Some s | None => m !! k end).
  { rewrite E, lookup_empty. by destruct (last _). }
  induction snaps as [|s snaps IH]; intros m; [done|]. cbn [foldl]. rewrite IH, filter_cons.
  destruct (decide (lookupKey s = k)) as [<-|Hk].
  - rewrite lookup_insert_eq. rewrite last_cons. by destruct (last (filter _ snaps)).
  - by rewrite lookup_insert_ne.
Qed.

Lemma base_by_key_Some snaps k s : base_by_key snaps !! k = Some s -> s ∈ snaps /\ lookupKey s = k.
Proof.
  rewrite base_by_key_lookup. intros (l & E)%last_Some.
  assert (Hin : s ∈ filter (fun s => lookupKey s = k) snaps) by (rewrite E; apply elem_of_app; right; left).
  by apply list_elem_of_filter in Hin as [? ?].
Qed.

Lemma base_by_key_None snaps k : base_by_key snaps !! k = None -> forall s, s ∈ snaps -> lookupKey s <> k.
Proof.
  rewrite base_by_key_lookup. intros Hn%last_None s Hs Hk.
  assert (Hin : s ∈ filter (fun s => lookupKey s = k) snaps) by by apply list_elem_of_filter.
  rewrite Hn in Hin. by apply elem_of_nil in Hin.
Qed.

Lemma base_by_key_NoDup snaps s : NoDup (lookupKey <$> snaps) -> s ∈ snaps -> base_by_key snaps !! lookupKey s = Some s.
Proof.
  intros Hnd Hs. destruct (base_by_key snaps !! lookupKey s) as [s'|] eqn:E.
  - apply base_by_key_Some in E as [Hs' Hk]. f_equal.
    clear -Hnd Hs Hs' Hk. induction snaps as [|a snaps IH]; [by apply elem_of_nil in Hs|].
    apply NoDup_cons in Hnd as [Hn Hnd]. apply elem_of_cons in Hs as [->|Hs], Hs' as [->|Hs']; try done; [| |by apply IH].
    + exfalso. apply Hn. rewrite <- Hk. apply list_elem_of_fmap. by exists s'.
    + exfalso. apply Hn. rewrite Hk. apply list_elem_of_fmap. by exists s.
  - by apply (base_by_key_None _ _ E) in Hs.
Qed.

(** An entry of a scan is a directory or not. *)
Lemma scan_walk_kinds d base skipping items snaps :
  scan_walk d base skipping items = Ok snaps ->
  Forall (fun s => isDirectory (snapEntry s) = 0 \/ isDirectory (snapEntry s) = 1) snaps.
Proof.
  revert skipping snaps. induction items as [|item items IH]; intros skipping snaps; cbn [scan_walk].
  { intros [= <-]. constructor. }
  destruct (skipping && _); [by apply IH|]. destruct item as [depth path is_directory|]; [|done].
  destruct (StepPastRootSidecar depth path); [by apply IH|]. destruct is_directory as [directory|]; [|done].
  destruct (RelativeNameOf d path base) as [name|]; [|done]. unfold FillFileEntry.
  destruct (GetFileAttributesExW d path) as [a'|]; [|done].
  destruct (scan_walk d base false items) as [more|] eqn:Em; [|done]. intros [= <-].
  constructor; [destruct directory; auto|by eapply IH].
Qed.

Lemma ScanDirectory_kinds d dir snaps :
  ScanDirectory d dir = Ok snaps ->
  Forall (fun s => isDirectory (snapEntry s) = 0 \/ isDirectory (snapEntry s) = 1) snaps.
Proof.
  unfold ScanDirectory. destruct (fs_exists d _) as [[]|]; try done.
  destruct (recursive_walk d _); [|done]. apply scan_walk_kinds.
Qed.

(** The base has this entry of the source already: the same name but for its
    case, both directories, or both files of one size and write time. *)
Definition unchanged (s b : FileSnapshot) : Prop :=
  lookupKey b = lookupKey s /\
  (isDirectory (snapEntry s) = 1 /\ isDirectory (snapEntry b) = 1 \/
   isDirectory (snapEntry s) = 0 /\ isDirectory (snapEntry b) = 0 /\
   size (snapEntry s) = size (snapEntry b) /\ modified (snapEntry s) = modified (snapEntry b)).

#[export] Instance unchanged_dec s b : Decision (unchanged s b).
Proof. unfold unchanged. apply _. Defined.

(** The entries that the base lacks or has in another state. *)
Definition changed_since (base source : list FileSnapshot) : list FileSnapshot :=
  filter (fun s => ~ Exists (unchanged s) base) source.

(** The paths of the base that the source lacks. *)
Definition gone_since (base source : list FileSnapshot) : list wstring :=
  relativeName <$> filter (fun b => ~ Exists (fun s => lookupKey s = lookupKey b) source) base.

Lemma Differs_unchanged (s b : FileSnapshot) :
  lookupKey b = lookupKey s ->
  isDirectory (snapEntry s) = 0 \/ isDirectory (snapEntry s) = 1 ->
  isDirectory (snapEntry b) = 0 \/ isDirectory (snapEntry b) = 1 ->
  Differs (snapEntry s) (snapEntry b) = true <-> ~ unchanged s b.
Proof.
  intros Hk Hs Hb. unfold Differs, unchanged.
  destruct (Z.eqb_spec (isDirectory (snapEntry s)) (isDirectory (snapEntry b))) as [E|E]; cbn [negb];
    [|split; [|done]; intros _ [_ ?]; lia].
  rewrite andb_true_iff, orb_true_iff, !negb_true_iff, Z.eqb_eq, !Z.eqb_neq.
  split; [intros [? ?] [_ ?]; lia|]. intros Hn. destruct Hs as [Hs|Hs]; [|exfalso; apply Hn; split; [done|lia]].
  split; [done|]. destruct (Z.eq_dec (size (snapEntry s)) (size (snapEntry b))), (Z.eq_dec (modified (snapEntry s)) (modified (snapEntry b)));
    [exfalso; apply Hn; split; [done|lia]|lia..].
Qed.

Lemma Forall_filter {A} (P Q : A -> Prop) `{!forall x, Decision (Q x)} (l : list A) : Forall P l -> Forall P (filter Q l).
Proof. rewrite !Forall_forall. intros Hl x [_ Hx]%list_elem_of_filter. by apply Hl. Qed.

Lemma filter_ext_in {A} (P Q : A -> Prop) `{!forall x, Decision (P x)} `{!forall x, Decision (Q x)} (l : list A) :
  (forall x, x ∈ l -> P x <-> Q x) -> filter P l = filter Q l.
Proof.
  induction l as [|x l IH]; intros Hl; [done|]. rewrite !filter_cons, IH by (intros y Hy; apply Hl; by right).
  pose proof (Hl x ltac:(left)). destruct (decide (P x)), (decide (Q x)); tauto.
Qed.

Lemma ChangedEntries_since source base :
  NoDup (lookupKey <$> base) ->
  Forall (fun s => isDirectory (snapEntry s) = 0 \/ isDirectory (snapEntry s) = 1) source ->
  Forall (fun s => isDirectory (snapEntry s) = 0 \/ isDirectory (snapEntry s) = 1) base ->
  ChangedEntries source base = changed_since base source.
Proof.
  intros Hn Hs Hb. rewrite Forall_forall in Hs, Hb. unfold ChangedEntries, changed_since.
  apply filter_ext_in. intros s Hin. rewrite Exists_exists.
  destruct (base_by_key base !! lookupKey s) as [b|] eqn:E.
  - apply base_by_key_Some in E as [Hinb Hk]. rewrite Differs_unchanged by auto. split; [|by eauto].
    intros Hu (b' & Hinb' & Hu'). apply Hu. enough (b = b') as -> by done.
    pose proof (base_by_key_NoDup base b Hn Hinb) as E1. pose proof (base_by_key_NoDup base b' Hn Hinb') as E2.
    destruct Hu' as [Hk' _]. congruence.
  - split; [|done]. intros _ (b & Hinb & Hk & _). by apply (base_by_key_None _ _ E b).
Qed.

Lemma DeletedPaths_since source base : DeletedPaths source base = gone_since base source.
Proof.
  unfold DeletedPaths, gone_since. f_equal. apply filter_ext_in. intros b _.
  rewrite elem_of_list_to_set, Exists_exists, list_elem_of_fmap. naive_solver.
Qed.

(** The files that an archive counts. *)
Definition files_of (entries : list FileSnapshot) : Z :=
  Z.of_nat (length (filter (fun s => isDirectory (snapEntry s) = 0) entries)).

Lemma Append_count name entry data b b' : Append name entry data b = Ok b' -> builtCount b' = builtCount b.
Proof. unfold Append. case_bool_decide; [done|]. destruct (_ <? _); [done|]. by intros [= <-]. Qed.

Lemma pack_entries_count d base entries b b' :
  pack_entries d base entries b = Ok b' -> 0 <= builtCount b < 2 ^ 64 ->
  builtCount b' = (builtCount b + files_of entries) mod 2 ^ 64.
Proof.
  revert b. induction entries as [|s ss IH]; intros b; cbn [pack_entries].
  { intros [= <-] Hr. unfold files_of. cbn. rewrite Z.add_0_r. by rewrite Z.mod_small. }
  intros Hrun Hr. unfold files_of. rewrite filter_cons.
  destruct (Z.eqb_spec (isDirectory (snapEntry s)) 0) as [E|E]; cbn [negb] in Hrun.
  - unfold AddFile, AppendCounted in Hrun. destruct (if 0 <? size _ then _ else _) as [bytes|]; [|done].
    destruct (Append _ _ bytes b) as [b1|] eqn:Ea; [|done]. apply Append_count in Ea.
    apply IH in Hrun; cbn [builtCount] in *; [|apply Z.mod_pos_bound; lia].
    rewrite Hrun, Ea, decide_True by done. cbn [length]. rewrite Zplus_mod_idemp_l. f_equal. unfold files_of. lia.
  - unfold AddDirectory in Hrun. destruct (Append _ _ [] b) as [b1|] eqn:Ea; [|done]. apply Append_count in Ea.
    apply IH in Hrun; [|by rewrite Ea]. rewrite Hrun, Ea, decide_False by done. done.
Qed.

Lemma add_whiteouts_count deleted b b' :
  add_whiteouts deleted b = Ok b' -> 0 <= builtCount b < 2 ^ 64 ->
  builtCount b' = (builtCount b + Z.of_nat (length deleted)) mod 2 ^ 64.
Proof.
  revert b. induction deleted as [|p ps IH]; intros b; cbn [add_whiteouts].
  { intros [= <-] Hr. cbn. rewrite Z.add_0_r. by rewrite Z.mod_small. }
  unfold AddWhiteoutMarker, AppendCounted. destruct (Append _ _ _ b) as [b1|] eqn:E; [|done].
  apply Append_count in E. intros Hrun Hr. apply IH in Hrun; cbn [builtCount] in *; [|apply Z.mod_pos_bound; lia].
  rewrite Hrun, E. cbn [length]. rewrite Zplus_mod_idemp_l. f_equal. lia.
Qed.
End Diff.

Section Differential.
Context `{W : Win32} `{H : !ImageHost} `{AL : !AllocLaws} `{J : !Json}.

(** C32: A differential image carries exactly the changes.  Its archive reads
    back as the entries of the source that the base lacks, or has with another
    kind, size or write time, in the order of the scan and with their bytes,
    and then one whiteout marker for each path of the base that the source
    lacks; the metadata lists the same paths and counts the files and the
    markers.  A pack that fails leaves the disk as it was. *)
Theorem differential_carries_the_changes guid now sourceDir baseDir output metadata d source base :
  ScanDirectory d sourceDir = Ok source -> ScanDirectory d baseDir = Ok base ->
  NoDup (lookupKey <$> base) ->
  Forall (fun s => archive_name (relativeName s)) source ->
  Forall (fun b => archive_name (MakeWhiteoutMarkerPath (relativeName b))) base ->
  let changed := changed_since base source in
  let gone := gone_since base source in
  let run := CreateDifferentialImage guid now sourceDir baseDir output metadata d in
  match (let? b := PackEntries d sourceDir changed new_builder in add_whiteouts gone b)%res with
  | Err e => run = (d, Err e)
  | Ok b =>
      run = WriteImage output
              (with_files ((files_of changed + Z.of_nat (length gone)) mod 2 ^ 64) gone (StampIdentity guid now metadata))
              (Finish b) d /\
      reads (Finish b) 0 ((packed_entry d (HostPath_ForWin32 sourceDir) <$> changed) ++ (whiteout_entry <$> gone))
  end.
Proof using AL.
  intros Hsource Hbase Hn Hsn Hbn changed gone run.
  assert (Hc : ChangedEntries source base = changed)
    by (apply ChangedEntries_since; [done|by eapply ScanDirectory_kinds..]).
  unfold run, CreateDifferentialImage, try_bind, ebind, eread, eret. rewrite Hsource, Hbase, Hc, DeletedPaths_since. fold gone.
  destruct (PackEntries d sourceDir changed new_builder) as [b1|] eqn:Ep; [|done].
  destruct (add_whiteouts gone b1) as [b|] eqn:Ew; [|done].
  pose proof (pack_entries_count _ _ _ _ _ Ep ltac:(done)) as Hn1.
  pose proof (add_whiteouts_count _ _ _ Ew ltac:(rewrite Hn1; apply Z.mod_pos_bound; lia)) as Hn2.
  rewrite Hn2, Hn1, Zplus_mod_idemp_l. cbn [builtCount new_builder]. rewrite Z.add_0_l. split; [done|].
  eapply pack_reads_back; [|  |exact Ep|exact Ew].
  - apply Forall_filter, Forall_and. split; [done|by eapply ScanDirectory_ok].
  - by apply Forall_fmap, Forall_filter.
Qed.
End Differential.
