(* ===== verification/ExtractFacts.v ===== *)
(** * Unpacking

    The loops of an unpack end, whatever the image holds, and every write of
    an unpack is under its target. *)

From stdpp Require Export relations.
From S2P Require Export PackFacts.
Open Scope Z_scope.

(** ** The paths that an unpack writes

    The check of an archive name, through the UTF-8 conversions and the marker
    of a whiteout: a name that passes is a relative path of plain components. *)

(** A component that names an entry: no separator, no colon, not [.] or
    [..]. *)
Definition entry_component (c : wstring) : Prop := plain_component c /\ c <> L "." /\ c <> L "..".

(** ** Separators *)

Lemma wreplace_cons a b c s : wreplace a b (c :: s) = (if c =? a then b else c) :: wreplace a b s.
Proof. done. Qed.

Lemma join_segments_other a b s : join_with b (segments a s) = wreplace a b s.
Proof.
  induction s as [|c s IH]; [done|]. rewrite wreplace_cons. cbn [segments]. pose proof (segments_nonempty a s) as Hne.
  destruct (Z.eqb_spec c a) as [->|Hc]; destruct (segments a s) as [|g gs]; try done; cbn in *.
  - by rewrite <- IH.
  - destruct gs; cbn in *; by rewrite <- IH.
Qed.

Lemma wreplace_twice a b s : wreplace a b (wreplace b a s) = wreplace a b s.
Proof.
  unfold wreplace. rewrite <- list_fmap_compose. apply list_fmap_ext. intros i c _. cbn.
  destruct (Z.eqb_spec c b) as [->|Hb]; [|done]. rewrite Z.eqb_refl. by destruct (Z.eqb_spec b a).
Qed.

Lemma wreplace_app a b s t : wreplace a b (s ++ t) = wreplace a b s ++ wreplace a b t.
Proof. apply fmap_app. Qed.

Lemma wreplace_keeps a b s c : c <> a -> c ∈ s -> c ∈ wreplace a b s.
Proof.
  intros Hc Hs. unfold wreplace. rewrite list_elem_of_fmap. exists c. split; [|done].
  by destruct (Z.eqb_spec c a).
Qed.

Lemma wreplace_from a b s c : c <> b -> c ∈ wreplace a b s -> c ∈ s.
Proof.
  intros Hc. unfold wreplace. rewrite list_elem_of_fmap. intros (x & -> & Hx).
  by destruct (Z.eqb_spec x a).
Qed.

(** ** The conversions and the components *)

Section Transparent.
Context (f : list Z -> list Z) `{T : !AsciiTransparent f}.

Lemma transparent_elem s c : 0 < c < 128 -> c ∈ f s <-> c ∈ s.
Proof.
  intros Hc. split; [by apply ascii_only|]. intros (a & b & ->)%list_elem_of_split.
  rewrite (ascii_split (f := f)) by done. apply elem_of_app. right. left.
Qed.

Lemma ascii_induction c (P : wstring -> Prop) :
  (forall s, c ∉ s -> P s) -> (forall a b, c ∉ a -> P b -> P (a ++ c :: b)) -> forall s, P s.
Proof.
  intros Hn Hs s. remember (length s) as n eqn:E. assert (Hle : (length s <= n)%nat) by lia. clear E.
  revert s Hle. induction n as [|n IH]; intros s Hle.
  - apply Hn. destruct s; [apply not_elem_of_nil|cbn in Hle; lia].
  - destruct (wfind c s) as [i|] eqn:E; [|by apply Hn, wfind_None].
    apply wfind_split in E as [Es Hi]. rewrite Es. apply Hs; [exact Hi|]. apply IH.
    apply (f_equal length) in Es. rewrite length_app in Es. cbn [length] in Es. lia.
Qed.

Lemma transparent_wreplace a b s :
  0 < a < 128 -> 0 < b < 128 -> f (wreplace a b s) = wreplace a b (f s).
Proof.
  intros Ha Hb. revert s. apply (ascii_induction a).
  - intros s Hs. by rewrite !wreplace_id by by rewrite ?transparent_elem.
  - intros x y Hx IH. rewrite (ascii_split (f := f)) by done. rewrite !wreplace_app, !wreplace_cons, Z.eqb_refl. rewrite (ascii_split (f := f)) by done.
    by rewrite IH, (wreplace_id a b x), (wreplace_id a b (f x)) by by rewrite ?transparent_elem.
Qed.

Lemma transparent_segments c s : 0 < c < 128 -> segments c (f s) = f <$> segments c s.
Proof.
  intros Hc. revert s. apply (ascii_induction c).
  - intros s Hs. by rewrite !segments_single by by rewrite ?transparent_elem.
  - intros x y Hx IH. rewrite (ascii_split (f := f)) by done. rewrite !segments_app_sep; [|done|by rewrite transparent_elem].
    cbn. by rewrite IH.
Qed.

Lemma transparent_ascii_text s t : Forall (fun c => 0 < c < 128) t -> f s = t <-> s = t.
Proof.
  intros Ht. revert s. induction Ht as [|c t Hc _ IH]; intros s; [apply ascii_nil|]. split.
  - intros E. assert (Hin : c ∈ s) by (apply (ascii_only (f := f) s c Hc); rewrite E; left).
    destruct (wfind c s) as [i|] eqn:Ef; [|by apply wfind_None in Ef].
    apply wfind_split in Ef as [Es Hi]. rewrite Es, (ascii_split (f := f)) in E by done.
    destruct (f (take i s)) as [|x r] eqn:Ex.
    + apply (proj1 (ascii_nil (f := f) _)) in Ex. rewrite Ex in Es. cbn in E. injection E as E. apply (proj1 (IH _)) in E. rewrite Es. cbn. by rewrite E.
    + cbn in E. injection E as -> _. exfalso. apply Hi. apply (ascii_only (f := f) _ c Hc). rewrite Ex. left.
  - intros ->. pose proof (ascii_split (f := f) [] c t Hc) as E. cbn in E. rewrite E.
    rewrite (proj2 (ascii_nil (f := f) [])) by done. cbn. f_equal. by apply (proj2 (IH _)).
Qed.

Lemma transparent_component s : archive_component_ok (f s) = archive_component_ok s.
Proof.
  unfold archive_component_ok. f_equal; [f_equal|]; f_equal; apply bool_decide_ext.
  - apply ascii_nil.
  - apply transparent_ascii_text. repeat constructor.
  - apply transparent_ascii_text. repeat constructor.
Qed.

Lemma transparent_components s : archive_components (f s) = f <$> archive_components s.
Proof.
  unfold archive_components. rewrite <- transparent_wreplace by done. by apply transparent_segments.
Qed.
End Transparent.

(** ** The check *)

Lemma IsValidArchivePath_spec s :
  IsValidArchivePath s = true <->
  ch_colon ∉ s /\ Forall (fun c => archive_component_ok c = true) (archive_components s).
Proof.
  unfold IsValidArchivePath. destruct s as [|c s].
  { split; [done|]. intros [_ H]. by apply Forall_inv in H. }
  rewrite !andb_true_iff, !negb_true_iff, bool_decide_eq_false, forallb_forall, Forall_forall. setoid_rewrite list_elem_of_In.
  split; [naive_solver|]. intros [Hc Hf]. split; [|done]. split; [|done].
  destruct (is_slash c) eqn:E; [|done]. exfalso.
  assert (Hin : In [] (archive_components (c :: s))).
  { unfold archive_components, is_slash in *. cbn.
    destruct (Z.eqb_spec c ch_bsl) as [->|Hb]; cbn; [by left|].
    destruct (Z.eqb_spec c ch_slash) as [->|Hs]; [|done]. by left. }
  by specialize (Hf [] Hin).
Qed.

Lemma transparent_valid f `{T : !AsciiTransparent f} s : IsValidArchivePath (f s) = IsValidArchivePath s.
Proof.
  apply eq_true_iff_eq. rewrite !IsValidArchivePath_spec, (transparent_components f), Forall_fmap.
  rewrite (transparent_elem f) by done. apply and_iff_compat_l. apply Forall_iff. intros c.
  unfold compose. by rewrite (transparent_component f).
Qed.

Lemma archive_component_plain s c :
  IsValidArchivePath s = true -> c ∈ archive_components s -> entry_component c.
Proof.
  intros [Hcolon Hok]%IsValidArchivePath_spec Hc. rewrite Forall_forall in Hok. specialize (Hok c Hc).
  unfold archive_component_ok in Hok.
  rewrite !andb_true_iff, !negb_true_iff, !bool_decide_eq_false in Hok. destruct Hok as [[H1 H2] H3].
  split; [|done]. split; [done|]. unfold archive_components in Hc.
  assert (Hin : forall x, x ∈ c -> x ∈ wreplace ch_bsl ch_slash s) by (intros x Hx; by apply (segments_elem _ _ _ _ Hc)).
  split; [|split].
  - intros Hb%Hin. by apply wreplace_elem in Hb.
  - by apply segments_no_sep in Hc.
  - intros Hb%Hin. apply Hcolon. by apply wreplace_from in Hb.
Qed.

(** A name that passes the check is, under a root, the path of its components. *)
Lemma UnderExtendedRoot_components root s :
  IsValidArchivePath s = true ->
  Forall entry_component (archive_components s) /\ archive_components s <> [] /\
  UnderExtendedRoot root s = append root (rel (archive_components s)).
Proof.
  intros Hv. split; [|split].
  - apply Forall_forall. intros c. by apply archive_component_plain.
  - apply segments_nonempty.
  - unfold UnderExtendedRoot, rel, archive_components. by rewrite join_segments_other, wreplace_twice.
Qed.

(** The marker of a path that passes the check passes it too. *)
Lemma MakeWhiteoutMarkerPath_valid s :
  IsValidArchivePath s = true -> IsValidArchivePath (MakeWhiteoutMarkerPath s) = true.
Proof.
  intros [Hc Hok]%IsValidArchivePath_spec. apply IsValidArchivePath_spec.
  unfold MakeWhiteoutMarkerPath, archive_components in *. set (path := wreplace ch_bsl ch_slash s) in *.
  assert (Hcp : ch_colon ∉ path) by (intros H; apply Hc; by apply wreplace_from in H).
  assert (Hbp : ch_bsl ∉ path) by by apply wreplace_elem.
  assert (Hmark : forall x, archive_component_ok (L ".wh." ++ x) = true).
  { intros x. unfold archive_component_ok. rewrite !bool_decide_false; [done|..]; by intros [=]. }
  assert (Hw : forall x, x ∈ path_punctuation -> x <> ch_dot -> x ∉ L ".wh.").
  { intros x Hx Hd. unfold path_punctuation in Hx. cbn in *.
    rewrite !elem_of_cons in Hx. rewrite !not_elem_of_cons. unfold ch_bsl, ch_slash, ch_colon, ch_dot in *.
    rewrite elem_of_nil in *. repeat split; try lia. }
  assert (Hin : forall p, p ∈ path_punctuation -> p <> ch_dot -> p ∉ path -> forall a b, a ++ b = path -> p ∉ a ++ L ".wh." ++ b).
  { intros p Hp Hd Hn a b <-. rewrite !not_elem_of_app in *. split; [naive_solver|]. split; [by apply Hw|naive_solver]. }
  destruct (wrfind ch_slash path) as [i|] eqn:E.
  - apply wrfind_Some in E as [Hl Hn]. pose proof (take_drop (S i) path) as Et. split.
    + apply Hin; [unfold path_punctuation; set_solver|done|done|done].
    + rewrite wreplace_id by (apply Hin; [unfold path_punctuation; set_solver|done|done|done]).
      rewrite <- Et in Hok. rewrite (take_S_r path i ch_slash) in * by done. rewrite <- !app_assoc in *. cbn [app] in *.
      clear -Hok Hmark Hn Hw.
      rewrite segments_app_any, Forall_app in Hok |- *. destruct Hok as [Ha _]. split; [done|].
      rewrite segments_single; [by repeat constructor|]. cbn [app].
      change (ch_slash ∉ L ".wh." ++ drop (S i) path). rewrite not_elem_of_app. split; [|done].
      apply Hw; [unfold path_punctuation; set_solver|done].
  - apply wrfind_None in E. split.
    + apply (Hin ch_colon) with (a := []); [unfold path_punctuation; set_solver|done|done|done].
    + rewrite wreplace_id by (apply (Hin ch_bsl) with (a := []); [unfold path_punctuation; set_solver|done|done|done]).
      rewrite segments_single; [by repeat constructor|].
      apply (Hin ch_slash) with (a := []); [unfold path_punctuation; set_solver|done|done|done].
Qed.

(** ** Containment *)

(** [canon] is [root], or [root] followed by a separator and more, or more of
    a root that ends in a separator. *)
Definition contained_in (canon root : wstring) : Prop :=
  canon = root \/ root = [] \/
  exists rest, rest <> [] /\ canon = root ++ rest /\
    (slash_at root (length root - 1) = true \/ slash_at rest 0 = true).

Lemma IsPathContainedIn_spec canon root : IsPathContainedIn canon root = true <-> contained_in canon root.
Proof.
  unfold IsPathContainedIn, contained_in. case_bool_decide as E; [naive_solver|].
  destruct (last root) as [c|] eqn:El; [|apply last_None in El; naive_solver].
  assert (Hr : root <> []) by by intros ->.
  assert (Hs : slash_at root (length root - 1) = is_slash c).
  { unfold slash_at. by rewrite Nat.sub_1_r, <- last_lookup, El. }
  rewrite Hs. destruct (Nat.leb_spec (length canon) (length root)) as [Hl|Hl].
  - split; [done|]. intros [?|[?|(rest & Hne & -> & _)]]; [done..|].
    rewrite length_app in Hl. destruct rest; [done|cbn in Hl; lia].
  - case_bool_decide as Et; cbn [negb].
    + assert (Hc : canon = root ++ drop (length root) canon) by by rewrite <- Et at 1; rewrite take_drop.
      assert (Hat : slash_at canon (length root) = slash_at (drop (length root) canon) 0).
      { unfold slash_at. by rewrite lookup_drop, Nat.add_0_r. }
      rewrite Hat. destruct (is_slash c).
      * split; [|done]. intros _. right. right. exists (drop (length root) canon). split; [|auto].
        intros H%(f_equal length). rewrite length_drop in H. cbn in H. lia.
      * split.
        -- intros H. right. right. exists (drop (length root) canon). split; [|auto].
           intros H'%(f_equal length). rewrite length_drop in H'. cbn in H'. lia.
        -- intros [?|[?|(rest & _ & Hcr & [?|?])]]; try done. rewrite Hcr in *. by rewrite drop_app_length in *.
    + split; [done|]. intros [?|[?|(rest & _ & -> & _)]]; try done. by rewrite take_app_length in Et.
Qed.

(** ** The loops end *)

Definition ends {A} (r : img A) : Prop := r <> Err OutOfFuel.
Definition ends_eff `{W : Win32} {A} (m : eff disk (img A)) : Prop := forall d, ends (snd (m d)).

Section Ends.
Context `{W : Win32} `{H : !ImageHost} `{J : Json}.

Lemma ends_ret {A} (r : img A) : ends r -> ends_eff (eret r).
Proof. intros Hr d. exact Hr. Qed.

Lemma ends_read {A} (f : disk -> img A) : (forall d, ends (f d)) -> ends_eff (eread f).
Proof. intros Hr d. apply Hr. Qed.

Lemma ends_bind {A B} (m : eff disk A) (k : A -> eff disk (img B)) : (forall a, ends_eff (k a)) -> ends_eff (ebind m k).
Proof. intros Hk d. unfold ebind. destruct (m d) as [d' a]. apply Hk. Qed.

Lemma ends_try {A B} (m : eff disk (img A)) (k : A -> eff disk (img B)) :
  ends_eff m -> (forall a, ends_eff (k a)) -> ends_eff (try_bind m k).
Proof.
  intros Hm Hk d. unfold try_bind. specialize (Hm d). destruct (m d) as [d' [a|e]]; [apply Hk|].
  cbn in *. intros [= ->]. by apply Hm.
Qed.

Lemma ends_guard b e : ends (guard b e).
Proof. by destruct b. Qed.

Lemma ends_allocate n : ends (allocate n).
Proof. unfold allocate. by destruct (_ || _). Qed.

Lemma ends_option {A} (o : option A) e : ends (img_of_option o e).
Proof. by destruct o. Qed.

Lemma ends_dword {A} (r : nt A) : ends (dword_of_nt r).
Proof. by destruct r. Qed.

Lemma ends_win32 {A} (r : w32 A) : ends (win32_or_code r).
Proof. by destruct r. Qed.
End Ends.

Lemma ends_let {A B} (r : img A) (k : A -> img B) :
  ends r -> (forall a, ends (k a)) -> ends (match r with Ok a => k a | Err e => Err e end).
Proof. intros Hr Hk. destruct r as [a|e]; [apply Hk|]. intros [= ->]. by apply Hr. Qed.

Create HintDb ends discriminated.
#[export] Hint Resolve ends_guard ends_allocate ends_option ends_dword ends_win32 : ends.

(** Follows the matches and sequences of a definition to its ends. *)
Ltac ends_step :=
  match goal with
  | |- ends_eff (eret _) => apply ends_ret
  | |- ends_eff (eread _) => apply ends_read; intros ?
  | |- ends_eff (try_bind _ _) => apply ends_try; [|intros ?]
  | |- ends_eff (ebind _ _) => apply ends_bind; intros ?
  | |- ends_eff (match ?x with _ => _ end) => destruct x
  | |- ends (match _ with Ok _ => _ | Err _ => Err _ end) => apply ends_let; [|intros ?]
  | |- ends (match ?x with _ => _ end) => destruct x
  | |- ends _ => by eauto with ends
  | |- ends_eff _ => by eauto with ends
  | |- ends _ => done
  end.
Ltac ends := repeat ends_step.

Section Terminates.
Context `{W : Win32} `{H : !ImageHost} `{J : Json}.

(** Past the last whole chunk of the stream, the loop of the hash ends. *)
Lemma hash_chunks_ends fuel stream offset remaining hash :
  0 <= offset -> (length (st_bytes stream) < Z.to_nat offset + fuel)%nat \/ (0 < fuel)%nat /\ remaining <= 0 ->
  (0 < fuel)%nat -> ends (hash_chunks fuel stream offset remaining hash).
Proof.
  revert offset remaining hash. induction fuel as [|fuel IH]; intros offset remaining hash Ho Hf Hpos; [lia|].
  cbn [hash_chunks]. destruct (Z.ltb_spec 0 remaining) as [Hr|Hr]; [|done].
  set (chunk := Z.min remaining (Z.of_nat kChunkSize)).
  assert (Hc : 0 < chunk) by (unfold chunk, kChunkSize; lia).
  destruct (Z.eqb_spec (Z.of_nat (length (stream_read stream offset chunk))) chunk) as [E|E]; [|done]. cbn [negb].
  unfold stream_read in E. rewrite length_take, length_drop in E.
  apply ends_let; [ends|]. intros hash'. apply IH; [lia| |lia].
  left. destruct Hf as [Hf|Hf]; lia.
Qed.

Lemma ComputeSHA256Stream_ends d path offset size : 0 <= offset -> ends (ComputeSHA256Stream d path offset size).
Proof.
  intros Ho. unfold ComputeSHA256Stream, InitBcryptSha256. destruct (ifstream_open d _) as [stream|]; [|done].
  ends. apply hash_chunks_ends; unfold hash_fuel; lia.
Qed.

Lemma write_chunks_ends fuel path position data hash :
  (length data < fuel)%nat -> ends_eff (write_chunks fuel path position data hash).
Proof.
  revert position data hash. induction fuel as [|fuel IH]; intros position data hash Hf; [lia|].
  cbn [write_chunks]. destruct data as [|b data]; [ends|].
  destruct (dword_of_nt _) as [hash'|e] eqn:E.
  - apply ends_try; [unfold write_or_fault; ends|]. intros _. apply IH.
    rewrite length_drop. cbn [length] in *. unfold kChunkSize. lia.
  - apply ends_ret. pose proof (ends_dword (BCryptHashData hash (take kChunkSize (b :: data)))) as Hd.
    rewrite E in Hd. intros [= ->]. by apply Hd.
Qed.

Lemma write_or_fault_ends path offset data : ends_eff (write_or_fault path offset data).
Proof. unfold write_or_fault. ends. Qed.
#[local] Hint Resolve write_or_fault_ends : ends.

Lemma WriteExtractedFile_ends target entry data : ends_eff (WriteExtractedFile target entry data).
Proof. unfold WriteExtractedFile, SetExtractedAttributes. ends. Qed.

Lemma write_marker_ends path : ends_eff (write_marker path).
Proof. unfold write_marker. ends. Qed.

Lemma JoinUnderTarget_ends d target relativePath : ends (JoinUnderTarget d target relativePath).
Proof. unfold JoinUnderTarget. ends. Qed.
#[local] Hint Resolve WriteExtractedFile_ends write_marker_ends JoinUnderTarget_ends : ends.

Lemma ReadArchiveEntry_ends archive pos : ends (ReadArchiveEntry archive pos).
Proof. unfold ReadArchiveEntry. ends. Qed.

Lemma materialize_ends ws already target : ends_eff (materialize ws already target).
Proof. induction ws as [|w ws IH]; cbn [materialize]; ends; exact IH. Qed.

(** Each turn of the loop moves past an entry header, and never past the end
    of the archive. *)
Lemma extract_loop_ends fuel archive pos target ws :
  (pos <= length archive)%nat -> (length archive < pos + entry_header_size * fuel)%nat ->
  ends_eff (extract_loop fuel archive pos target ws).
Proof.
  revert pos ws. induction fuel as [|fuel IH]; intros pos ws Hp Hf; [lia|]. cbn [extract_loop].
  pose proof (ReadArchiveEntry_ends archive pos) as Hr.
  destruct (ReadArchiveEntry archive pos) as [[[e|] next]|err] eqn:E;
    [|ends|apply ends_ret; intros [= ->]; by apply Hr].
  apply ReadArchiveEntry_advances in E as [H1 H2].
  assert (Hnext : forall ws, ends_eff (extract_loop fuel archive next target ws)) by (intros ws'; apply IH; lia).
  ends; apply Hnext.
Qed.

Lemma extract_fuel_enough archive : (length archive < entry_header_size * extract_fuel archive)%nat.
Proof.
  unfold extract_fuel, entry_header_size. pose proof (Nat.div_mod_eq (length archive) 24).
  pose proof (Nat.mod_upper_bound (length archive) 24). lia.
Qed.

(** ** A header that passes the checks *)

(** A header that the reader accepts describes two regions of the file, in
    order: the metadata from the end of the header on, then the data, and no
    sum of an offset and a size passes 64 bits. *)
Lemma check_header_regions header :
  0 <= metadataSize header < 2 ^ 64 -> 0 <= dataSize header < 2 ^ 64 -> dataOffset header < 2 ^ 64 ->
  metadataOffset header < 2 ^ 64 ->
  (check_header header = Ok tt <->
   magic header = LAYER_IMAGE_MAGIC /\ version header <= LAYER_IMAGE_VERSION /\
   header_size <= metadataOffset header /\
   metadataOffset header + metadataSize header <= dataOffset header /\
   dataOffset header + dataSize header < 2 ^ 64).
Proof.
  intros Hms Hds Hdo Hmo. unfold check_header, guard.
  assert (Hwrap : forall a b, 0 <= a < 2 ^ 64 -> 0 <= b < 2 ^ 64 -> a <= uint64 (a + b) <-> a + b < 2 ^ 64).
  { intros a b Ha Hb. unfold uint64. destruct (Z.lt_ge_cases (a + b) (2 ^ 64)).
    - rewrite Z.mod_small by lia. lia.
    - replace (a + b) with (a + b - 2 ^ 64 + 1 * 2 ^ 64) by lia. rewrite Z.mod_add, Z.mod_small by lia. lia. }
  assert (Hsum : 0 <= uint64 (metadataOffset header + metadataSize header)) by (by apply Z.mod_pos_bound).
  case_bool_decide as Hm; [|naive_solver].
  destruct (Z.leb_spec (version header) LAYER_IMAGE_VERSION); [|naive_solver lia].
  destruct (Z.leb_spec header_size (metadataOffset header)) as [Ho|]; [|naive_solver lia]. unfold header_size in Ho.
  specialize (Hwrap (metadataOffset header) (metadataSize header)) as Hw1.
  specialize (Hwrap (dataOffset header) (dataSize header)) as Hw2.
  destruct (Z.leb_spec (uint64 (metadataOffset header + metadataSize header)) (dataOffset header)) as [H1|H1];
  destruct (Z.leb_spec (metadataOffset header) (uint64 (metadataOffset header + metadataSize header))) as [H2|H2];
  destruct (Z.leb_spec (dataOffset header) (uint64 (dataOffset header + dataSize header))) as [H3|H3];
    (split; [intros E; try done|intros (_ & _ & _ & E1 & E2)]).
  - apply Hw1 in H2; [|lia..]. apply Hw2 in H3; [|lia..]. unfold uint64 in H1. rewrite Z.mod_small in H1 by lia.
    repeat split; try done; lia.
  - done.
  - apply Hw2 in E2; lia.
  - enough (metadataOffset header <= uint64 (metadataOffset header + metadataSize header)) by lia. apply Hw1; lia.
  - enough (metadataOffset header <= uint64 (metadataOffset header + metadataSize header)) by lia. apply Hw1; lia.
  - exfalso. assert (Hlt : metadataOffset header + metadataSize header < 2 ^ 64) by lia.
    unfold uint64 in H1. rewrite Z.mod_small in H1; lia.
  - exfalso. assert (Hlt : metadataOffset header + metadataSize header < 2 ^ 64) by lia.
    unfold uint64 in H1. rewrite Z.mod_small in H1; lia.
  - exfalso. unfold uint64 in H1. rewrite Z.mod_small in H1; lia.
  - exfalso. unfold uint64 in H1. rewrite Z.mod_small in H1; lia.
Qed.

Lemma check_header_offset header : check_header header = Ok tt -> 0 <= dataOffset header.
Proof.
  unfold check_header, guard. case_bool_decide; [|done]. destruct (version header <=? _); [|done].
  destruct (Z.leb_spec header_size (metadataOffset header)) as [Ho|]; [|done].
  destruct (Z.leb_spec (uint64 (metadataOffset header + metadataSize header)) (dataOffset header)) as [H1|]; [|done].
  intros _. unfold uint64 in H1. pose proof (Z.mod_pos_bound (metadataOffset header + metadataSize header) (2 ^ 64)). lia.
Qed.

Lemma check_header_ends header : ends (check_header header).
Proof. unfold check_header. ends. Qed.

Lemma ReadHeaderAndMetadata_ends d path : ends (ReadHeaderAndMetadata d path).
Proof.
  unfold ReadHeaderAndMetadata, DeserializeMetadata, JsonToMetadata.
  ends; try apply check_header_ends.
Qed.

Lemma ReadHeaderAndMetadata_offset d path header m file :
  ReadHeaderAndMetadata d path = Ok (header, m, file) -> 0 <= dataOffset header.
Proof.
  unfold ReadHeaderAndMetadata. destruct (ifstream_open d _) as [s|]; [|done].
  destruct (negb _); [done|]. set (h := header_of_bytes _).
  destruct (check_header h) as [[]|] eqn:E; [|done]. apply check_header_offset in E.
  repeat (match goal with |- match ?x with _ => _ end = _ -> _ => destruct x; [|done] end).
  by intros [= <- _ _].
Qed.

Lemma read_archive_of_ends d path verify : ends (read_archive_of d path verify).
Proof.
  unfold read_archive_of. pose proof (ReadHeaderAndMetadata_ends d path) as Hr.
  destruct (ReadHeaderAndMetadata d path) as [[[header m] file]|e] eqn:E; [|intros [= ->]; by apply Hr].
  apply ReadHeaderAndMetadata_offset in E. unfold checksum_matches, DecompressBuffer. cbv zeta.
  ends. by apply ComputeSHA256Stream_ends.
Qed.

(** C36: Whatever an image file holds, an unpack of it ends: no loop over its
    archive or its data runs out of fuel. *)
Theorem ExtractImage_terminates path dir verify d : snd (ExtractImage path dir verify d) <> Err OutOfFuel.
Proof.
  revert d. change (ends_eff (ExtractImage path dir verify)). unfold ExtractImage, ResolveUnpackTarget, MaterializeMetadataWhiteouts, ExtractArchive.
  apply ends_try; [apply ends_read; intros d'; apply read_archive_of_ends|]. intros image.
  apply ends_try; [ends|]. intros target.
  apply ends_try; [apply extract_loop_ends; [lia|apply extract_fuel_enough]|]. intros ws. apply materialize_ends.
Qed.
End Terminates.

(** ** Every write is under the target *)

Section Confined.
Context `{W : Win32} `{H : !ImageHost} `{J : Json} `{U : !Utf8Laws}.

(** A path that an unpack may write: the root, then plain components, no one
    of them [.] or [..]; its canonical path is at the canonical root or below;
    and the name is not the root sidecar's, nor that of its marker. *)
Record under_target (target : UnpackTarget) (d : disk) (path : wstring) : Prop := {
  under_components : exists cs, cs <> [] /\ Forall entry_component cs /\
    path = append (targetRoot target) (rel cs);
  under_canonical : exists canonical, weakly_canonical d path = Some canonical /\
    contained_in canonical (canonicalRoot target);
  under_no_sidecar : exists name, path = UnderExtendedRoot (targetRoot target) name /\
    UnpackSkipsEntry d name (targetRoot target) = false
}.

(** The writes of an unpack. *)
Inductive unpack_step (target : UnpackTarget) : disk -> disk -> Prop :=
| unpack_directory d path :
    under_target target d path -> unpack_step target d (fst (create_directories path d))
| unpack_file d path entry data :
    under_target target d path -> unpack_step target d (fst (WriteExtractedFile path entry data d))
| unpack_marker d path :
    under_target target d path -> unpack_step target d (fst (write_marker path d)).

Lemma JoinUnderTarget_under target d name path :
  IsValidArchivePath name = true -> UnpackSkipsEntry d name (targetRoot target) = false ->
  JoinUnderTarget d target name = Ok path -> under_target target d path.
Proof.
  intros Hv Hs. unfold JoinUnderTarget. destruct (weakly_canonical d _) as [c|] eqn:Ec; [|done].
  destruct (IsPathContainedIn c (canonicalRoot target)) eqn:Ei; [|done]. intros [= <-].
  apply IsPathContainedIn_spec in Ei.
  destruct (UnderExtendedRoot_components (targetRoot target) name Hv) as (Hcs & Hne & Hp). split; [|by exists c|].
  - by exists (archive_components name).
  - by exists name.
Qed.

Lemma ReadArchiveEntry_name archive pos e next :
  ReadArchiveEntry archive pos = Ok (Some e, next) -> IsValidArchivePath (entryName e) = true.
Proof.
  unfold ReadArchiveEntry. cbv zeta. generalize (entry_of_bytes (take entry_header_size (drop pos archive))) as h.
  intros h. destruct (_ <? _)%nat; [done|]. destruct (_ =? ARCHIVE_END_MARKER); [done|].
  destruct (_ =? 0); [done|]. destruct (_ <? _)%nat; [done|]. destruct (negb _); [done|].
  destruct (IsValidArchivePath _) eqn:Ev; [|done]. cbn [negb]. destruct (_ <? _); [done|]. intros [= <- _].
  cbn [entryName]. by rewrite transparent_valid by apply utf8_to_wide_ascii.
Qed.

Lemma extract_loop_confined fuel archive pos target ws d :
  rtc (unpack_step target) d (fst (extract_loop fuel archive pos target ws d)).
Proof.
  revert pos ws d. induction fuel as [|fuel IH]; intros pos ws d; [done|]. cbn [extract_loop].
  destruct (ReadArchiveEntry archive pos) as [[[e|] next]|err] eqn:E; [|done..].
  apply ReadArchiveEntry_name in E. unfold ebind, eread, try_bind.
  destruct (UnpackSkipsEntry d (entryName e) (targetRoot target)) eqn:Es; [apply IH|].
  destruct (JoinUnderTarget d target (entryName e)) as [path|] eqn:Ej; [|done].
  pose proof (JoinUnderTarget_under _ _ _ _ E Es Ej) as Hu. destruct (negb _).
  - pose proof (unpack_directory target d path Hu) as Hstep.
    destruct (create_directories path d) as [d1 r]. eapply rtc_l; [exact Hstep|]. apply IH.
  - pose proof (unpack_file target d path (entryHeader e) (entryData e) Hu) as Hstep.
    destruct (WriteExtractedFile path (entryHeader e) (entryData e) d) as [d1 [u|err]];
      (eapply rtc_l; [exact Hstep|]); [apply IH|done].
Qed.

Lemma materialize_confined listed already target d :
  rtc (unpack_step target) d (fst (materialize listed already target d)).
Proof.
  revert d. induction listed as [|w listed IH]; intros d; cbn [materialize]; [done|].
  destruct (IsValidArchivePath (WideToUtf8 w)) eqn:Ev; [|done]. cbn [negb].
  rewrite transparent_valid in Ev by apply wide_to_utf8_ascii. apply MakeWhiteoutMarkerPath_valid in Ev.
  case_bool_decide; [apply IH|]. unfold ebind, eread, try_bind.
  destruct (UnpackSkipsEntry d _ (targetRoot target)) eqn:Es; [apply IH|].
  destruct (JoinUnderTarget d target _) as [path|] eqn:Ej; [|done].
  pose proof (unpack_marker target d path (JoinUnderTarget_under _ _ _ _ Ev Es Ej)) as Hstep.
  destruct (write_marker path d) as [d1 [u|err]]; (eapply rtc_l; [exact Hstep|]); [apply IH|done].
Qed.

(** C23: An unpack of any image, well-formed or crafted, changes the disk only
    through the creation of its target directory and then through writes under
    the target: each path is the target and plain components, with no [..],
    its canonical path is inside the canonical target at that moment, and it
    is not in the root sidecar.  The metadata's whiteouts are no exception. *)
Theorem ExtractImage_confined path dir verify d :
  let root := HostPath_ForWin32 dir in
  let d1 := fst (create_directories root d) in
  let d' := fst (ExtractImage path dir verify d) in
  d' = d \/ (weakly_canonical d1 root = None /\ d' = d1) \/
  exists canonical, weakly_canonical d1 root = Some canonical /\
    rtc (unpack_step {| targetRoot := root; canonicalRoot := canonical |}) d1 d'.
Proof.
  intros root d1 d'. unfold d', ExtractImage, try_bind, eread.
  destruct (read_archive_of d path verify) as [image|]; [|by left]. right.
  unfold ResolveUnpackTarget, ebind, eread, eret. fold root. unfold d1.
  destruct (create_directories root d) as [d2 r]. cbn [fst].
  destruct (weakly_canonical d2 root) as [canonical|]; [|by left]. right. exists canonical. split; [done|].
  set (target := {| targetRoot := root; canonicalRoot := canonical |}). unfold ExtractArchive.
  pose proof (extract_loop_confined (extract_fuel (snd image)) (snd image) 0 target [] d2) as He.
  destruct (extract_loop _ _ 0 target [] d2) as [d3 [ws|err]]; [|done].
  etrans; [exact He|]. apply materialize_confined.
Qed.
End Confined.
