(* ===== verification/ImageJsonFacts.v ===== *)
(** * The metadata of a layer image as JSON

    Sorted maps by key, and the record that is read is the record that was
    written. *)
From S2P Require Export ImageLaws.
Open Scope Z_scope.

(** ** Sorted maps *)

Lemma text_ltb_irrefl a : text_ltb a a = false.
Proof. induction a as [|x a IH]; cbn; [done|]. rewrite IH, Z.ltb_irrefl, Z.eqb_refl. done. Qed.

Lemma text_ltb_trans a b c : text_ltb a b = true -> text_ltb b c = true -> text_ltb a c = true.
Proof.
  revert b c. induction a as [|x a IH]; intros [|y b] [|z c]; cbn; try done.
  destruct (Z.ltb_spec x y), (Z.ltb_spec y z), (Z.eqb_spec x y), (Z.eqb_spec y z); cbn; try done; try lia;
    destruct (Z.ltb_spec x z), (Z.eqb_spec x z); cbn; try done; try lia. apply IH.
Qed.

Lemma text_ltb_total a b : text_ltb a b = true \/ a = b \/ text_ltb b a = true.
Proof.
  revert b. induction a as [|x a IH]; intros [|y b]; cbn; auto.
  destruct (Z.ltb_spec x y), (Z.ltb_spec y x), (Z.eqb_spec x y), (Z.eqb_spec y x); subst; cbn; auto; try lia.
  destruct (IH b) as [?|[->|?]]; auto.
Qed.

Section Maps.
Context {V : Type}.
Implicit Types m : list (list Z * V).

Fixpoint map_get m (k : list Z) : option V :=
  match m with
  | [] => None
  | (k', v) :: m' => if bool_decide (k' = k) then Some v else map_get m' k
  end.

Definition below (k : list Z) m : Prop := Forall (fun kv => text_ltb k (fst kv) = true) m.

Inductive sorted_map : list (list Z * V) -> Prop :=
| sorted_nil : sorted_map []
| sorted_cons k v m : below k m -> sorted_map m -> sorted_map ((k, v) :: m).

Definition map_of (l : list (list Z * V)) : list (list Z * V) :=
  foldl (fun m kv => map_set m (fst kv) (snd kv)) [] l.

Lemma map_get_set m k v k' : map_get (map_set m k v) k' = if bool_decide (k = k') then Some v else map_get m k'.
Proof.
  induction m as [|[k1 v1] m IH]; cbn [map_set map_get]; [done|].
  destruct (decide (k1 = k)) as [->|E1].
  { rewrite (bool_decide_true (k = k)) by done. cbn. by case_bool_decide. }
  rewrite (bool_decide_false (k1 = k)) by done. destruct (text_ltb k k1); cbn [map_get]; [done|].
  rewrite IH. destruct (decide (k1 = k')) as [->|E2].
  - by rewrite (bool_decide_true (k' = k')), (bool_decide_false (k = k')) by done.
  - by rewrite (bool_decide_false (k1 = k')).
Qed.

Lemma below_trans k k' m : text_ltb k k' = true -> below k' m -> below k m.
Proof. intros Hk Hm. eapply Forall_impl; [exact Hm|]. intros kv. by apply text_ltb_trans. Qed.

Lemma below_set m k k' v : text_ltb k k' = true -> below k m -> below k (map_set m k' v).
Proof.
  intros Hk. induction m as [|[k1 v1] m IH]; cbn [map_set]; intros Hm; [by repeat constructor|].
  apply Forall_cons in Hm as [H1 Hm]. case_bool_decide; [by constructor|].
  destruct (text_ltb k' k1); constructor; try done; [by constructor|by apply IH].
Qed.

Lemma map_set_sorted m k v : sorted_map m -> sorted_map (map_set m k v).
Proof.
  induction 1 as [|k1 v1 m Hb Hs IH]; cbn [map_set]; [by repeat constructor|].
  case_bool_decide as E; [subst k1; by constructor|]. destruct (text_ltb k k1) eqn:El.
  - constructor; [|by constructor]. constructor; [done|by eapply below_trans].
  - constructor; [|done]. apply below_set; [|done].
    destruct (text_ltb_total k k1) as [?|[->|?]]; [congruence|done|done].
Qed.

Lemma map_of_sorted l : sorted_map (map_of l).
Proof.
  unfold map_of. assert (H : forall m, sorted_map m -> sorted_map (foldl (fun m kv => map_set m (fst kv) (snd kv)) m l)).
  { induction l as [|kv l IH]; intros m Hm; [done|]. cbn. by apply IH, map_set_sorted. }
  apply H. constructor.
Qed.

Lemma below_get k m : below k m -> map_get m k = None.
Proof.
  induction 1 as [|[k1 v1] m Hk _ IH]; cbn; [done|]. rewrite bool_decide_false; [done|].
  intros ->. cbn in Hk. by rewrite text_ltb_irrefl in Hk.
Qed.

(** A sorted map is determined by its lookups. *)
Lemma sorted_map_ext m m' : sorted_map m -> sorted_map m' -> (forall k, map_get m k = map_get m' k) -> m = m'.
Proof.
  intros Hm. revert m'. induction Hm as [|k v m Hb Hm IH]; intros m' Hm' He.
  - destruct Hm' as [|k v m' _ _]; [done|]. specialize (He k). cbn in He. by rewrite bool_decide_true in He.
  - destruct Hm' as [|k' v' m' Hb' Hm'].
    { specialize (He k). cbn in He. by rewrite bool_decide_true in He. }
    assert (k = k') as <-.
    { destruct (text_ltb_total k k') as [Hlt|[?|Hlt]]; [|done|].
      - pose proof (He k) as H. cbn in H. rewrite bool_decide_true in H by done.
        rewrite bool_decide_false in H by (intros ->; by rewrite text_ltb_irrefl in Hlt).
        by rewrite below_get in H by by eapply below_trans.
      - pose proof (He k') as H. cbn in H. rewrite (bool_decide_true (k' = k')) in H by done.
        rewrite bool_decide_false in H by (intros ->; by rewrite text_ltb_irrefl in Hlt).
        by rewrite below_get in H by by eapply below_trans. }
    pose proof (He k) as H. cbn in H. rewrite !bool_decide_true in H by done. injection H as ->. f_equal.
    apply IH; [done|]. intros k2. specialize (He k2). cbn in He. case_bool_decide; [|done]. subst k2.
    by rewrite !below_get.
Qed.

Lemma map_get_of l k : NoDup (fst <$> l) -> map_get (map_of l) k = map_get l k.
Proof.
  unfold map_of. intros Hl. enough (H : forall m, map_get (foldl (fun m kv => map_set m (fst kv) (snd kv)) m l) k =
    match map_get l k with Some v => Some v | None => map_get m k end) by (rewrite H; by destruct (map_get l k)).
  induction l as [|[k1 v1] l IH]; intros m; cbn; [done|]. apply NoDup_cons in Hl as [Hn Hl]. cbn in Hn.
  rewrite IH by done. rewrite map_get_set. case_bool_decide as E; [|done]. subst k1.
  assert (Hg : map_get l k = None); [|by rewrite Hg].
  clear -Hn. induction l as [|[k1 v1] l IH]; cbn in *; [done|]. apply not_elem_of_cons in Hn as [H1 Hn].
  rewrite bool_decide_false by congruence. by apply IH.
Qed.

Lemma sorted_map_NoDup m : sorted_map m -> NoDup (fst <$> m).
Proof.
  induction 1 as [|k v m Hb Hm IH]; cbn; [constructor|]. constructor; [|done].
  intros ([k' v'] & E & Hin)%list_elem_of_fmap. cbn in E. subst k'. unfold below in Hb. rewrite Forall_forall in Hb.
  specialize (Hb _ Hin). cbn in Hb. by rewrite text_ltb_irrefl in Hb.
Qed.

Lemma map_get_Some m k v : map_get m k = Some v -> (k, v) ∈ m.
Proof.
  induction m as [|[k1 v1] m IH]; cbn; [done|]. case_bool_decide as E.
  - intros [= ->]. subst. left.
  - intros H%IH. by right.
Qed.

Lemma map_set_elem m k v kv : kv ∈ map_set m k v -> kv = (k, v) \/ kv ∈ m.
Proof.
  induction m as [|[k1 v1] m IH]; cbn [map_set].
  { intros ->%list_elem_of_singleton. by left. }
  case_bool_decide; [rewrite !elem_of_cons; naive_solver|].
  destruct (text_ltb k k1); rewrite !elem_of_cons; naive_solver.
Qed.

Lemma map_of_elem l kv : kv ∈ map_of l -> kv ∈ l.
Proof.
  unfold map_of. enough (H : forall m, kv ∈ foldl (fun m kv => map_set m (fst kv) (snd kv)) m l -> kv ∈ m \/ kv ∈ l).
  { intros Hin%H. destruct Hin as [Hin|?]; [by apply elem_of_nil in Hin|done]. }
  induction l as [|[k1 v1] l IH]; intros m; cbn; [by left|]. intros [H|H]%IH.
  - apply map_set_elem in H as [->|H]; [right; left|by left].
  - right. by right.
Qed.
End Maps.

(** Keys and values through an injective map. *)
Lemma map_get_fmap {V V'} (f : list Z -> list Z) (g : V -> V') (m : list (list Z * V)) k :
  (forall k', k' ∈ fst <$> m -> f k' = f k -> k' = k) ->
  map_get ((fun kv => (f (fst kv), g (snd kv))) <$> m) (f k) = g <$> map_get m k.
Proof.
  induction m as [|[k1 v1] m IH]; cbn; intros Hf; [done|].
  case_bool_decide as E.
  - rewrite bool_decide_true; [done|]. apply Hf; [left|done].
  - rewrite bool_decide_false by congruence. apply IH. intros k' Hk'. apply Hf. by right.
Qed.

(** ** The record *)

Lemma L_string_of_bytes b : Forall is_byte b -> L (string_of_bytes b) = b.
Proof.
  induction 1 as [|c b Hc _ IH]; [done|]. change (string_of_bytes (c :: b)) with
    (String (Ascii.ascii_of_N (Z.to_N c)) (string_of_bytes b)). cbn [L]. rewrite IH. f_equal. unfold is_byte in Hc.
  rewrite Ascii.N_ascii_embedding by lia. lia.
Qed.

Section Record.
Context `{W : Win32} `{H : !ImageHost} `{J : Json}.

(** A text that survives the conversions. *)
Definition text_kept (t : wstring) : Prop := Utf8ToWide (WideToUtf8 t) = t.

(** Metadata whose texts survive, with the labels sorted by key as a
    [std::map] keeps them. *)
Record image_metadata_ok (m : LayerMetadata) : Prop := {
  id_kept : text_kept (id m);
  parent_kept : text_kept (parentId m);
  created_kept : text_kept (createdAt m);
  author_kept : text_kept (author m);
  description_kept : text_kept (description m);
  tags_kept : Forall text_kept (tags m);
  whiteouts_kept : Forall text_kept (whiteouts m);
  labels_kept : Forall (fun kv => text_kept (fst kv) /\ text_kept (snd kv) /\ Forall is_byte (WideToUtf8 (fst kv))) (labels m);
  labels_sorted : sorted_map (labels m)
}.

Lemma string_items_kept l :
  Forall text_kept l -> string_items (Some (JArray ((fun t => JString (WideToUtf8 t)) <$> l))) = l.
Proof.
  unfold string_items. induction 1 as [|t l Ht _ IH]; [done|].
  cbn -[Utf8ToWide WideToUtf8]. rewrite Ht. f_equal. exact IH.
Qed.

Definition encoded (kv : wstring * wstring) : list Z * list Z := (WideToUtf8 (fst kv), WideToUtf8 (snd kv)).
Definition decoded (kv : list Z * list Z) : wstring * wstring := (Utf8ToWide (fst kv), Utf8ToWide (snd kv)).

(** The labels of the JSON object. *)
Definition label_fields (l : list (wstring * wstring)) : list (list Z * list Z) := map_of (encoded <$> l).

Lemma foldl_encoded l :
  foldl (fun m kv => map_set m (WideToUtf8 (fst kv)) (WideToUtf8 (snd kv))) [] l = label_fields l.
Proof. unfold label_fields, map_of. by rewrite foldl_fmap. Qed.

Lemma label_fields_elem l k v : (k, v) ∈ label_fields l -> exists kv, kv ∈ l /\ k = WideToUtf8 (fst kv).
Proof. intros ([k' v'] & [= -> ->] & Hin)%map_of_elem%list_elem_of_fmap. by exists (k', v'). Qed.

Lemma foldl_decoded l :
  Forall (fun kv => text_kept (fst kv) /\ text_kept (snd kv) /\ Forall is_byte (WideToUtf8 (fst kv))) l ->
  read_labels (Some (JObject ((fun kv => (string_of_bytes (fst kv), JString (snd kv))) <$> label_fields l))) =
    map_of (decoded <$> label_fields l).
Proof.
  intros Hl. unfold read_labels, map_of. rewrite !foldl_fmap.
  assert (Hb : Forall (fun kv => Forall is_byte (fst kv)) (label_fields l)).
  { apply Forall_forall. intros [k v] (kv & Hin & ->)%label_fields_elem. rewrite Forall_forall in Hl.
    by apply (Hl kv Hin). }
  generalize (@nil (list Z * list Z)). induction Hb as [|[k v] fs Hk _ IH]; intros m; cbn; [done|].
  rewrite L_string_of_bytes by done. apply IH.
Qed.

Lemma labels_read_back l :
  Forall (fun kv => text_kept (fst kv) /\ text_kept (snd kv) /\ Forall is_byte (WideToUtf8 (fst kv))) l ->
  sorted_map l -> map_of (decoded <$> label_fields l) = l.
Proof.
  intros Hl Hs. unfold text_kept in *. pose proof (sorted_map_NoDup l Hs) as Hnd. rewrite Forall_forall in Hl.
  assert (Hkey : forall k, k ∈ fst <$> l -> Utf8ToWide (WideToUtf8 k) = k).
  { intros k (kv & -> & Hin)%list_elem_of_fmap. by apply (Hl kv Hin). }
  assert (Hinj : forall k k', k ∈ fst <$> l -> Utf8ToWide (WideToUtf8 k') = k' -> WideToUtf8 k = WideToUtf8 k' -> k = k').
  { intros k k' Hk Hk' E. by rewrite <- (Hkey k Hk), <- Hk', E. }
  assert (Hfk : forall k, k ∈ fst <$> label_fields l -> exists w, w ∈ fst <$> l /\ k = WideToUtf8 w).
  { intros k ([k1 v1] & -> & Hin)%list_elem_of_fmap. apply label_fields_elem in Hin as (kv & Hin & ->).
    exists (fst kv). split; [|done]. apply list_elem_of_fmap. by exists kv. }
  assert (Hdinj : forall k k', k ∈ fst <$> label_fields l -> k' ∈ fst <$> label_fields l ->
            Utf8ToWide k = Utf8ToWide k' -> k = k').
  { intros k k' (w & Hw & ->)%Hfk (w' & Hw' & ->)%Hfk E. rewrite (Hkey w Hw), (Hkey w' Hw') in E. by rewrite E. }
  assert (Hget : forall w, Utf8ToWide (WideToUtf8 w) = w -> map_get (label_fields l) (WideToUtf8 w) = WideToUtf8 <$> map_get l w).
  { intros w Hw. unfold label_fields. rewrite map_get_of.
    - apply (map_get_fmap WideToUtf8 WideToUtf8). intros k Hk. by apply Hinj.
    - rewrite <- list_fmap_compose. change (fst ∘ encoded <$> l) with (WideToUtf8 ∘ fst <$> l).
      rewrite list_fmap_compose. apply NoDup_fmap_2_strong; [|done].
      intros k k' Hk Hk'. apply Hinj; [done|]. by apply Hkey. }
  apply sorted_map_ext; [apply map_of_sorted|done|]. intros w. rewrite map_get_of.
  2: { rewrite <- list_fmap_compose. change (fst ∘ decoded <$> label_fields l) with (Utf8ToWide ∘ fst <$> label_fields l).
       rewrite list_fmap_compose. apply NoDup_fmap_2_strong; [|apply sorted_map_NoDup, map_of_sorted].
       intros k k'. apply Hdinj. }
  destruct (decide (w ∈ fst <$> l)) as [Hw|Hw].
  - transitivity (map_get (decoded <$> label_fields l) (Utf8ToWide (WideToUtf8 w))); [by rewrite (Hkey w Hw)|].
    unfold decoded. rewrite (map_get_fmap Utf8ToWide Utf8ToWide).
    + rewrite (Hget w (Hkey w Hw)). destruct (map_get l w) as [v|] eqn:E; [|done].
      apply map_get_Some in E. destruct (Hl _ E) as (_ & Hv & _).
      change (Some (Utf8ToWide (WideToUtf8 v)) = Some v). cbn [snd] in Hv. by rewrite Hv.
    + intros k Hk. apply Hdinj; [done|].
      destruct (map_get l w) as [v|] eqn:E.
      * pose proof (Hget w (Hkey w Hw)) as Hg. rewrite E in Hg. apply map_get_Some in Hg.
        apply list_elem_of_fmap. by exists (WideToUtf8 w, WideToUtf8 v).
      * exfalso. apply list_elem_of_fmap in Hw as ([k1 v1] & -> & Hin). cbn in E.
        clear -E Hin. induction l as [|[k2 v2] l IH]; [by apply elem_of_nil in Hin|]. cbn in E.
        case_bool_decide as E2; [done|]. apply elem_of_cons in Hin as [[= -> ->]|Hin]; [done|by apply IH].
  - assert (Hn : forall (m : list (wstring * wstring)) k, k ∉ fst <$> m -> map_get m k = None).
    { clear. induction m as [|[k1 v1] m IH]; cbn; intros k Hk; [done|]. apply not_elem_of_cons in Hk as [H1 H2].
      rewrite bool_decide_false by congruence. by apply IH. }
    rewrite !Hn; try done. intros ([k1 v1] & E & Hin)%list_elem_of_fmap.
    apply list_elem_of_fmap in Hin as ([k2 v2] & [= -> ->] & Hin). cbn in E. subst w.
    apply label_fields_elem in Hin as (kv & Hin & ->). apply Hw. rewrite (proj1 (Hl kv Hin)).
    apply list_elem_of_fmap. by exists kv.
Qed.

Lemma read_metadata_ToJson m : image_metadata_ok m -> read_metadata (MetadataToJson m) = Some m.
Proof.
  intros []. unfold MetadataToJson. rewrite foldl_encoded.
  destruct m as [i p c a desc tg k fc us cs wh lb]. cbn [id parentId createdAt author description tags compression
    fileCount uncompressedSize compressedSize whiteouts labels] in *.
  unfold read_metadata, contained, value_text, value_uint64, json_field.
  cbn -[string_items read_labels Utf8ToWide WideToUtf8 StringToCompressionType CompressionTypeToString].
  rewrite id_kept0, created_kept0, author_kept0, description_kept0, !string_items_kept by done.
  rewrite foldl_decoded, labels_read_back by done.
  assert (StringToCompressionType (CompressionTypeToString k) = k) as -> by by destruct k.
  destruct p as [|x p]; [done|]. cbn -[Utf8ToWide WideToUtf8]. by rewrite parent_kept0.
Qed.
End Record.
