(* ===== verification/ImageFileFacts.v ===== *)
(** * The image file

    What [WriteImage] stores, the reader and the validation get back. *)

From S2P Require Export ExtractFacts ImageJsonFacts PackFacts.
Open Scope Z_scope.

(** ** The file header *)

Record header_ok (h : LayerImageHeader) : Prop := {
  header_magic : length (magic h) = 8%nat;
  header_version : 0 <= version h < 2 ^ 32;
  header_flags : 0 <= flags h < 2 ^ 32;
  header_metadataOffset : 0 <= metadataOffset h < 2 ^ 64;
  header_metadataSize : 0 <= metadataSize h < 2 ^ 64;
  header_dataOffset : 0 <= dataOffset h < 2 ^ 64;
  header_dataSize : 0 <= dataSize h < 2 ^ 64;
  header_checksum : length (checksum h) = 32%nat;
  header_reserved : length (reserved h) = 48%nat
}.

Lemma header_bytes_length h : header_ok h -> length (header_bytes h) = 128%nat.
Proof.
  intros []. unfold header_bytes. rewrite !length_app, !le_encode_length. lia.
Qed.

Lemma header_of_header_bytes h : header_ok h -> header_of_bytes (header_bytes h) = h.
Proof.
  intros []. unfold header_of_bytes, header_bytes.
  destruct h as [mg vs fl mo ms dof ds ck rs]. cbn [magic version flags metadataOffset metadataSize dataOffset dataSize
    checksum reserved] in *.
  f_equal.
  1: by rewrite take_app_length'.
  1-6: by read_field.
  - repeat rewrite drop_app_ge by (rewrite ?le_encode_length; lia). rewrite !le_encode_length, header_magic0.
    cbn [Nat.sub]. rewrite drop_0. by rewrite take_app_length'.
  - repeat rewrite drop_app_ge by (rewrite ?le_encode_length; lia). rewrite !le_encode_length, header_magic0, header_checksum0.
    cbn [Nat.sub]. rewrite drop_0. apply take_ge. lia.
Qed.

(** ** Streams *)

Lemma overwrite_append old data : overwrite old (Z.of_nat (length old)) data = old ++ data.
Proof.
  unfold overwrite. rewrite Nat2Z.id, take_ge by done. rewrite drop_ge by lia. by rewrite app_nil_r.
Qed.

Lemma overwrite_head old rest data : length old = length data -> overwrite (old ++ rest) 0 data = data ++ rest.
Proof.
  intros Hl. unfold overwrite. change (Z.to_nat 0) with 0%nat. rewrite take_0. cbn [app Nat.add].
  by rewrite <- Hl, drop_app_length.
Qed.

Section Image.
Context `{W : Win32} `{H : !ImageHost} `{J : Json}.
Context `{SL : !StreamLaws} `{ZL : !ZstdLaws} `{HL : !Sha256Laws}.

Lemma write_or_fault_pending path offset data old d d' :
  write_or_fault path offset data d = (d', Ok tt) -> pending d path = Some old ->
  0 <= offset <= Z.of_nat (length old) -> pending d' path = Some (overwrite old offset data).
Proof.
  unfold write_or_fault, ebind, eret. destruct (ofstream_write path offset data d) as [d1 [|]] eqn:E; [|done].
  intros [= <-]. by eapply write_pending.
Qed.

(** The hash of [data] in chunks, as both loops take it. *)
Inductive hashes : bcrypt_hash -> list Z -> bcrypt_hash -> Prop :=
| hashes_done h : hashes h [] h
| hashes_chunk h data h1 h' :
    data <> [] -> BCryptHashData h (take kChunkSize data) = Ok h1 -> hashes h1 (drop kChunkSize data) h' ->
    hashes h data h'.

Lemma write_chunks_spec fuel path position data hash old d d' hash' :
  write_chunks fuel path position data hash d = (d', Ok hash') ->
  pending d path = Some old -> position = Z.of_nat (length old) ->
  pending d' path = Some (old ++ data) /\ hashes hash data hash'.
Proof.
  revert position data hash old d. induction fuel as [|fuel IH]; intros position data hash old d; cbn [write_chunks]; [done|].
  destruct data as [|b data]; [intros [= <- <-]; rewrite app_nil_r; by repeat constructor|].
  destruct (BCryptHashData hash (take kChunkSize (b :: data))) as [h1|] eqn:Eh; [|done]. cbn [dword_of_nt].
  unfold try_bind. destruct (write_or_fault path position _ d) as [d1 [[]|]] eqn:Ew; [|done].
  intros Hrun Hp ->. eapply write_or_fault_pending in Ew; [|done|lia]. rewrite overwrite_append in Ew.
  apply (IH _ _ _ (old ++ take kChunkSize (b :: data))) in Hrun as [Hr Hh]; [|done|rewrite length_app; lia].
  rewrite <- app_assoc, take_drop in Hr. split; [done|]. by econstructor.
Qed.

Lemma hash_chunks_spec fuel stream pre data post h h' :
  hashes h data h' -> st_bytes stream = pre ++ data ++ post -> (length data < fuel)%nat ->
  hash_chunks fuel stream (Z.of_nat (length pre)) (Z.of_nat (length data)) h = Ok h'.
Proof.
  intros Hh. revert fuel pre. induction Hh as [h|h data h1 h' Hne Hd Hrest IH]; intros fuel pre Hs Hf;
    (destruct fuel as [|fuel]; [lia|]); cbn [hash_chunks]; [done|].
  assert (0 < length data)%nat by (destruct data; [done|cbn; lia]). rewrite (proj2 (Z.ltb_lt _ _)) by lia.
  set (chunk := Z.min (Z.of_nat (length data)) (Z.of_nat kChunkSize)).
  assert (Hr : stream_read stream (Z.of_nat (length pre)) chunk = take kChunkSize data).
  { unfold stream_read. rewrite Nat2Z.id, Hs, drop_app_length. unfold chunk.
    rewrite <- Nat2Z.inj_min, Nat2Z.id. rewrite take_app_le by lia.
    destruct (Nat.min_spec (length data) kChunkSize) as [[? ->]|[? ->]]; [by rewrite !take_ge by lia|done]. }
  rewrite Hr, length_take. rewrite (proj2 (Z.eqb_eq _ _)) by (unfold chunk; lia). cbn [negb]. rewrite Hd. cbn [dword_of_nt].
  assert (Hlen : length (pre ++ take kChunkSize data) = (length pre + Nat.min kChunkSize (length data))%nat).
  { by rewrite length_app, length_take. }
  rewrite <- (IH fuel (pre ++ take kChunkSize data)).
  - f_equal; [rewrite Hlen; unfold chunk; lia|rewrite length_drop; unfold chunk; lia].
  - by rewrite <- app_assoc, (app_assoc (take _ _)), take_drop.
  - rewrite length_drop. unfold kChunkSize. lia.
Qed.

(** What the file holds after a write that succeeds and is flushed. *)
Lemma WriteImageFile_stored output m archive d d' m' :
  (forall d, snd (ofstream_close (HostPath_ForWin32 (outputPath output)) d) = true) ->
  WriteImageFile output m archive d = (d', Ok m') ->
  exists packed sum h0 h,
    zstd_compress (compressionLevel output) archive = Some packed /\
    m' = with_sizes Zstd (Z.of_nat (length archive)) (Z.of_nat (length packed)) m /\
    InitBcryptSha256 = Ok h0 /\ hashes h0 packed h /\ BCryptFinishHash h = Ok sum /\
    let json := SerializeMetadata m' ++ [0] in
    let data := header_bytes (image_header (Z.of_nat (length json)) (Z.of_nat (length packed)) sum) ++ json ++ packed in
    ifstream_open d' (HostPath_ForWin32 (outputPath output)) =
      Some {| st_end := Some (Z.of_nat (length data)); st_bytes := data |}.
Proof.
  intros Hflush. set (path := HostPath_ForWin32 (outputPath output)) in *. unfold WriteImageFile, try_bind, ebind, eret.
  fold path. destruct (create_parent_directories path d) as [d1 [[]|]]; [|done].
  unfold CompressBuffer, img_of_option. destruct (allocate _) as [|]; [|done].
  destruct (zstd_compress (compressionLevel output) archive) as [packed|] eqn:Ez; [|done].
  set (m1 := with_sizes _ _ _ _). set (json := SerializeMetadata m1 ++ [0]).
  destruct (ofstream_open path d1) as [d2 [|]] eqn:Eo; [|done]. cbn [negb]. apply open_pending in Eo.
  destruct (write_or_fault path 0 (header_bytes blank_header) d2) as [d3 [[]|]] eqn:E1; [|done].
  eapply write_or_fault_pending in E1; [|exact Eo|done].
  assert (Hb : header_ok blank_header) by (split; cbn; lia || done).
  pose proof (header_bytes_length _ Hb) as Hbl. set (blank := header_bytes blank_header) in *.
  change 0 with (Z.of_nat (length (@nil Z))) in E1 at 1. rewrite overwrite_append in E1. cbn [app] in E1.
  destruct (write_or_fault path header_size json d3) as [d4 [[]|]] eqn:E2; [|done].
  eapply write_or_fault_pending in E2; [|exact E1|rewrite Hbl; unfold header_size; lia].
  replace header_size with (Z.of_nat (length blank)) in E2 at 1 by by rewrite Hbl. rewrite overwrite_append in E2.
  unfold WriteDataWithHash, try_bind, eret. destruct InitBcryptSha256 as [h0|]; [|done].
  destruct (write_chunks _ path _ packed h0 d4) as [d5 [h|]] eqn:E3; [|done].
  eapply write_chunks_spec in E3 as [E3 Hh]; [|exact E2|rewrite length_app, Hbl; unfold header_size; lia].
  destruct (BCryptFinishHash h) as [sum|] eqn:Es; [|done]. cbn [dword_of_nt].
  set (hdr := header_bytes (image_header _ _ sum)).
  destruct (ofstream_seek path 0 d5) as [d5' [|]] eqn:E5; [|done]. cbn [guard]. apply seek_pending in E5. rewrite E3 in E5.
  destruct (write_or_fault path 0 hdr d5') as [d6 [[]|]] eqn:E4; [|done].
  eapply write_or_fault_pending in E4; [|exact E5|lia].
  rewrite <- app_assoc, overwrite_head in E4.
  2: { unfold hdr, header_bytes. rewrite Hbl, !length_app, !le_encode_length. cbn [checksum reserved image_header magic].
       by rewrite (hash_is_32_bytes h sum). }
  specialize (Hflush d6). destruct (ofstream_close path d6) as [d7 b] eqn:Ec. cbn in Hflush. subst b.
  eapply close_pending in Ec; [|exact E4]. intros [<- Em]%pair_equal_spec.
  assert (Em' : m' = m1) by congruence. rewrite Em'. by exists packed, sum, h0, h.
Qed.

(** The JSON library reads back the text that it wrote, and the text does not
    end in a NUL. *)
Record json_text_kept (m : LayerMetadata) : Prop := {
  json_parsed : json_parse (SerializeMetadata m) = Some (MetadataToJson m);
  json_no_nul : last (SerializeMetadata m) <> Some 0
}.

Lemma drop_trailing_nul_snoc s : last s <> Some 0 -> drop_trailing_nul (s ++ [0]) = s.
Proof.
  intros Hs. unfold drop_trailing_nul, strip_trailing. rewrite reverse_app. cbn [reverse]. cbn [app].
  change (reverse [0]) with [0]. cbn [app strip_leading]. rewrite Z.eqb_refl.
  destruct s as [|x s'] using rev_ind; [done|]. rewrite reverse_snoc. cbn [strip_leading].
  rewrite last_snoc in Hs. rewrite (proj2 (Z.eqb_neq _ _)) by congruence.
  by rewrite <- reverse_snoc, reverse_involutive.
Qed.

Lemma with_sizes_ok c plain packed m : image_metadata_ok m -> image_metadata_ok (with_sizes c plain packed m).
Proof. by intros []. Qed.

(** The reader on a file that a write stored. *)
Lemma ReadHeaderAndMetadata_stored d path m json packed sum stream :
  (forall n, 0 <= n < 2 ^ 63 -> alloc n = true) ->
  json = SerializeMetadata m ++ [0] -> image_metadata_ok m -> json_text_kept m -> length sum = 32%nat ->
  header_size + Z.of_nat (length json) + Z.of_nat (length packed) < 2 ^ 63 ->
  let hdr := image_header (Z.of_nat (length json)) (Z.of_nat (length packed)) sum in
  st_bytes stream = header_bytes hdr ++ json ++ packed ->
  ifstream_open d (HostPath_ForWin32 path) = Some stream ->
  ReadHeaderAndMetadata d path = Ok (hdr, m, stream) /\ header_ok hdr.
Proof.
  intros Halloc Ej Hm [Hparse Hnul] Hsum Hsize hdr Hbytes Hopen. unfold header_size in Hsize.
  assert (Hok : header_ok hdr) by (split; cbn [image_header hdr magic version flags metadataOffset metadataSize
    dataOffset dataSize checksum reserved compression_flag]; unfold header_size, LAYER_IMAGE_VERSION; done || lia).
  pose proof (header_bytes_length hdr Hok) as Hlen.
  unfold ReadHeaderAndMetadata. rewrite Hopen.
  assert (Hh : stream_read stream 0 header_size = header_bytes hdr).
  { unfold stream_read. change (Z.to_nat 0) with 0%nat. rewrite drop_0, Hbytes. by rewrite take_app_length'. }
  rewrite Hh, Hlen. change (negb (Z.of_nat 128 =? header_size)) with false. cbv iota.
  rewrite header_of_header_bytes by done.
  assert (Hc : check_header hdr = Ok tt).
  { apply check_header_regions; cbn [image_header hdr magic version metadataOffset metadataSize dataOffset dataSize];
      unfold header_size, LAYER_IMAGE_VERSION; try lia. repeat split; lia || done. }
  rewrite Hc. cbn [hdr image_header metadataOffset metadataSize]. fold hdr. change (seekable header_size) with true.
  cbn [guard]. unfold allocate. rewrite Halloc by lia. rewrite orb_true_r.
  assert (Hj : stream_read stream header_size (Z.of_nat (length json)) = json).
  { unfold stream_read. rewrite Hbytes. change (Z.to_nat header_size) with 128%nat.
    rewrite drop_app_length' by done. by rewrite Nat2Z.id, take_app_length. }
  rewrite Hj, Z.eqb_refl. cbn [guard]. rewrite Ej, drop_trailing_nul_snoc by done.
  unfold DeserializeMetadata. rewrite Hparse. unfold JsonToMetadata. by rewrite read_metadata_ToJson.
Qed.

(** The checksum of a file that a write stored. *)
Lemma checksum_stored d path (json packed : list Z) sum h0 h stream :
  let hdr := image_header (Z.of_nat (length json)) (Z.of_nat (length packed)) sum in
  (forall n, 0 <= n < 2 ^ 63 -> alloc n = true) -> header_ok hdr ->
  header_size + Z.of_nat (length json) + Z.of_nat (length packed) < 2 ^ 63 ->
  st_bytes stream = header_bytes hdr ++ json ++ packed ->
  ifstream_open d (HostPath_ForWin32 path) = Some stream ->
  InitBcryptSha256 = Ok h0 -> hashes h0 packed h -> BCryptFinishHash h = Ok sum ->
  checksum_matches d path hdr = Ok tt.
Proof.
  intros hdr Halloc Hok Hsz Hbytes Hopen Hinit Hhash Hfin. pose proof (header_bytes_length hdr Hok) as Hlen.
  assert (Hoff : header_size + Z.of_nat (length json) = Z.of_nat (length (header_bytes hdr ++ json))).
  { rewrite length_app, Hlen. unfold header_size. lia. }
  unfold checksum_matches, ComputeSHA256Stream. rewrite Hopen.
  cbn [hdr image_header dataOffset dataSize checksum]. unfold seekable. rewrite (proj2 (Z.ltb_lt _ _)) by lia.
  cbn [guard]. rewrite Hinit. unfold allocate. rewrite (Halloc (Z.of_nat kChunkSize)) by (unfold kChunkSize; lia).
  rewrite orb_true_r, Hoff. rewrite (hash_chunks_spec _ stream _ packed [] h0 h).
  - rewrite Hfin. cbn. by rewrite bool_decide_true.
  - done.
  - by rewrite Hbytes, app_nil_r, app_assoc.
  - unfold hash_fuel. rewrite Hbytes, !length_app. lia.
Qed.

(** C26: An image that [WriteImage] reports as written, and whose stream was
    flushed, reads back: its information is the metadata that the writer
    returned, its checksum is valid, and its archive is the archive that was
    packed, with or without verification.  An archive over the reader's limit
    of 4 GiB is the exception: it is written, it validates, and it never
    unpacks. *)
Theorem WriteImage_reads_back output m archive d d' m' :
  let path := outputPath output in
  (forall d, snd (ofstream_close (HostPath_ForWin32 path) d) = true) ->
  (forall n, 0 <= n < 2 ^ 63 -> alloc n = true) ->
  image_metadata_ok m -> json_text_kept m' ->
  header_size + Z.of_nat (length (SerializeMetadata m')) + 1 + compressedSize m' < 2 ^ 63 ->
  WriteImage output m archive d = (d', Ok m') ->
  (exists header, GetImageInfo d' path = Ok (header, m')) /\
  ValidateImage d' path = Ok tt /\
  forall verify, read_archive_of d' path verify =
    if Z.of_nat (length archive) <=? kMaxDecompressedBytes then Ok (m', archive)
    else Err (Code ERROR_INVALID_DATA).
Proof.
  intros path Hflush Halloc Hm Htext Hsize. unfold WriteImage, ebind.
  destruct (WriteImageFile output m archive d) as [d1 [m1|e]] eqn:E.
  2: { destruct e; unfold eret; [by destruct (fs_remove _ d1)|done|done]. }
  intros [<- Em]%pair_equal_spec. assert (m1 = m') as -> by congruence. clear Em.
  apply WriteImageFile_stored in E as (packed & sum & h0 & h & Hz & Hm' & Hinit & Hhash & Hfin & Hopen); [|done].
  cbv zeta in Hopen. set (json := SerializeMetadata m' ++ [0]) in *.
  set (hdr := image_header (Z.of_nat (length json)) (Z.of_nat (length packed)) sum) in *.
  set (data := header_bytes hdr ++ json ++ packed) in *.
  set (stream := {| st_end := Some (Z.of_nat (length data)); st_bytes := data |}) in *.
  assert (Hcs : compressedSize m' = Z.of_nat (length packed)) by by rewrite Hm'.
  assert (Hjl : length json = S (length (SerializeMetadata m'))).
  { unfold json. rewrite length_app. cbn. lia. }
  assert (Hsz : header_size + Z.of_nat (length json) + Z.of_nat (length packed) < 2 ^ 63) by lia.
  destruct (ReadHeaderAndMetadata_stored d1 path m' json packed sum stream) as [Hread Hok]; try done.
  { rewrite Hm'. by apply with_sizes_ok. }
  { by eapply hash_is_32_bytes. }
  fold hdr in Hread, Hok. pose proof (header_bytes_length hdr Hok) as Hlen.
  assert (Hoff : header_size + Z.of_nat (length json) = Z.of_nat (length (header_bytes hdr ++ json))).
  { rewrite length_app, Hlen. unfold header_size. lia. }
  assert (Hsum : checksum_matches d1 path hdr = Ok tt) by by apply (checksum_stored d1 path json packed sum h0 h stream).
  split; [exists hdr; unfold GetImageInfo; by rewrite Hread|].
  split; [unfold ValidateImage; by rewrite Hread|]. intros verify. unfold read_archive_of. rewrite Hread.
  assert (Hv : (if verify then checksum_matches d1 path hdr else Ok tt) = Ok tt) by by destruct verify.
  rewrite Hv. cbn [hdr image_header dataOffset dataSize]. fold hdr.
  unfold seekable. rewrite (proj2 (Z.ltb_lt _ _)) by lia. cbn [guard]. unfold allocate at 1.
  rewrite (Halloc (Z.of_nat (length packed))) by lia. rewrite orb_true_r.
  assert (Hd : stream_read stream (header_size + Z.of_nat (length json)) (Z.of_nat (length packed)) = packed).
  { unfold stream_read. rewrite Hoff, !Nat2Z.id. cbn [stream st_bytes]. unfold data. rewrite app_assoc, drop_app_length.
    by rewrite take_ge. }
  rewrite Hd, Z.eqb_refl. cbn [guard]. unfold DecompressBuffer.
  destruct (zstd_frame _ _ _ Hz) as [-> ->].
  destruct (Z.ltb_spec kMaxDecompressedBytes (Z.of_nat (length archive))) as [Hbig|Hfit].
  - by rewrite (proj2 (Z.leb_gt _ _)) by lia.
  - rewrite (proj2 (Z.leb_le _ _)) by lia. unfold allocate. unfold kMaxDecompressedBytes in Hfit.
    rewrite Halloc by lia. rewrite orb_true_r. cbn [img_of_option]. by rewrite Z.eqb_refl.
Qed.
End Image.

(** ** A layer image on the in-memory volume

    Concrete packs and unpacks: the witnesses of the image theorems, and a
    differential image that does not unpack. *)

Section Examples.
#[local] Existing Instances mem_win32 mem_image.

Definition on_volume (p : string) : wstring := kExtended ++ L p.
Definition a_dir (p : string) : wstring * MemWin32.mem_entry :=
  (on_volume p, MemWin32.MemEntry FILE_ATTRIBUTE_DIRECTORY 0 [] []).
Definition a_file (p : string) (data : list Z) : wstring * MemWin32.mem_entry :=
  (on_volume p, MemWin32.MemEntry FILE_ATTRIBUTE_ARCHIVE 0 data []).

Definition sample_metadata : LayerMetadata := {|
  id := L "1"; parentId := []; createdAt := L "2"; author := L "a"; description := []; tags := [L "t"];
  compression := CompressionNone; fileCount := 1; uncompressedSize := 0; compressedSize := 0;
  whiteouts := []; labels := [(L "k", L "v"); (L "l", [])]
|}.

(** A library that knows the text of one record. *)
Definition knows (m : LayerMetadata) : Json := {|
  json_parse := fun text => if bool_decide (text = [123; 125]) then Some (MetadataToJson m) else None;
  json_dump := fun _ => []
|}.

Lemma metadata_ok_by_labels m : sorted_map (labels m) ->
  Forall (fun kv => Forall is_byte (fst kv)) (labels m) -> image_metadata_ok (W := mem_win32) m.
Proof.
  assert (Hk : forall t, text_kept (W := mem_win32) t).
  { intros t. unfold text_kept, Utf8ToWide, WideToUtf8. destruct t; [done|]. cbn. done. }
  intros Hs Hb. split; try apply Hk; try (apply Forall_true; apply Hk); [|done].
  eapply Forall_impl; [exact Hb|]. intros [k v] Hbk. cbn in Hbk. split; [apply Hk|]. split; [apply Hk|].
  cbn [fst]. unfold WideToUtf8. destruct k; [done|]. exact Hbk.
Qed.

Lemma sample_metadata_ok : image_metadata_ok (W := mem_win32) sample_metadata.
Proof.
  apply metadata_ok_by_labels.
  - repeat constructor.
  - unfold is_byte. repeat constructor; cbn; lia.
Qed.

(** ** Writing and reading *)

Definition sample_output : ImageOutput := {| outputPath := L "C:\i"; compressionLevel := 3 |}.
Definition written_metadata : LayerMetadata := with_sizes Zstd 3 3 sample_metadata.

Definition image_write : MemWin32.volume :=
  fst (WriteImage sample_output sample_metadata [7; 8; 9] [a_dir "C:\"]).

Lemma WriteImage_reads_back_witness :
  read_archive_of (J := knows written_metadata) image_write (L "C:\i") true = Ok (written_metadata, [7; 8; 9]).
Proof.
  destruct (WriteImage_reads_back (W := mem_win32) (H := mem_image) (J := knows written_metadata) sample_output sample_metadata [7; 8; 9] [a_dir "C:\"]
    image_write written_metadata) as (_ & _ & Hr).
  - done.
  - intros n Hn. cbn. apply Z.ltb_lt. lia.
  - apply sample_metadata_ok.
  - split; [by vm_compute|done].
  - by vm_compute.
  - apply run_reply. by vm_compute.
  - apply (Hr true).
Defined.

(** ** Packing and reading *)

Definition pack_volume : MemWin32.volume := [a_dir "C:\s"; a_dir "C:\s\x"; a_file "C:\s\x\f" [1; 2]; a_file "C:\s\.wh.g" []].

Definition scan_of (v : MemWin32.volume) (dir : string) : list FileSnapshot :=
  match ScanDirectory v (L dir) with Ok snaps => snaps | Err _ => [] end.

Definition builder_of (r : img ArchiveBuilder) : ArchiveBuilder := match r with Ok b => b | Err _ => new_builder end.

Definition packed : ArchiveBuilder := builder_of (PackEntries pack_volume (L "C:\s") (scan_of pack_volume "C:\s") new_builder).
Definition packed_with_marker : ArchiveBuilder := builder_of (add_whiteouts [L "x/h"] packed).

Example packed_names : relativeName <$> scan_of pack_volume "C:\s" = [L "x"; L "x/f"; L ".wh.g"].
Proof. by vm_compute. Qed.

Lemma packed_archive_reads_back_witness :
  reads (Finish packed_with_marker) 0
    ((packed_entry pack_volume (HostPath_ForWin32 (L "C:\s")) <$> scan_of pack_volume "C:\s") ++
     (whiteout_entry <$> [L "x/h"])) /\
  entryData <$> (packed_entry pack_volume (HostPath_ForWin32 (L "C:\s")) <$> scan_of pack_volume "C:\s") = [[]; [1; 2]; []].
Proof.
  split; [|by vm_compute].
  apply (packed_archive_reads_back (W := mem_win32) (H := mem_image) pack_volume (L "C:\s") (scan_of pack_volume "C:\s") [L "x/h"] packed packed_with_marker).
  - apply Forall_and. split.
    + repeat constructor; by vm_compute.
    + apply (ScanDirectory_ok (W := mem_win32) (H := mem_image) pack_volume (L "C:\s")). by vm_compute.
  - repeat constructor; by vm_compute.
  - by vm_compute.
  - by vm_compute.
Defined.

Lemma ReadArchiveEntry_bounds_witness :
  let archive := entry_bytes {| nameLength := 1; size := 2; attributes := 32; modified := 5; isDirectory := 0;
                                isWhiteoutEntry := 0 |} ++ [97; 1; 2] in
  exists e, ReadArchiveEntry archive 0 = Ok (Some e, 27%nat) /\ length (entryData e) = 2%nat.
Proof.
  intros archive. eexists. split; [vm_compute; reflexivity|].
  destruct (ReadArchiveEntry_bounds (W := mem_win32) archive 0
    {| entryHeader := {| nameLength := 1; size := 2; attributes := 32; modified := 5; isDirectory := 0;
                         isWhiteoutEntry := 0 |}; entryName := [97]; entryData := [1; 2] |} 27) as (_ & _ & _ & Hl & _).
  - unfold is_byte. vm_compute. repeat constructor; done.
  - vm_compute. reflexivity.
  - exact Hl.
Defined.

(** ** Unpacking *)

(** A crafted image: an entry [a], then [../e]. *)
Definition crafted : list Z :=
  entry_bytes {| nameLength := 1; size := 1; attributes := 32; modified := 0; isDirectory := 0; isWhiteoutEntry := 0 |} ++
  [97; 1] ++
  entry_bytes {| nameLength := 4; size := 0; attributes := 32; modified := 0; isDirectory := 0; isWhiteoutEntry := 0 |} ++
  L "../e".

Definition crafted_volume : MemWin32.volume :=
  fst (WriteImage sample_output sample_metadata crafted [a_dir "C:\"]).

Definition crafted_metadata : LayerMetadata :=
  with_sizes Zstd (Z.of_nat (length crafted)) (Z.of_nat (length crafted)) sample_metadata.

Definition unpacked : MemWin32.volume * img unit :=
  ExtractImage (J := knows crafted_metadata) (L "C:\i") (L "C:\t") true crafted_volume.

(** The unpack writes [a], and stops at [../e]. *)
Lemma ExtractImage_confined_witness :
  snd unpacked = Err (Code ERROR_BAD_PATHNAME) /\
  is_ok (GetFileAttributesW (fst unpacked) (on_volume "C:\t\a")) = true /\
  (fst unpacked = crafted_volume \/
   (weakly_canonical (fst (create_directories (on_volume "C:\t") crafted_volume)) (on_volume "C:\t") = None /\
    fst unpacked = fst (create_directories (on_volume "C:\t") crafted_volume)) \/
   exists canonical,
     weakly_canonical (fst (create_directories (on_volume "C:\t") crafted_volume)) (on_volume "C:\t") = Some canonical /\
     rtc (unpack_step {| targetRoot := on_volume "C:\t"; canonicalRoot := canonical |})
       (fst (create_directories (on_volume "C:\t") crafted_volume)) (fst unpacked)).
Proof.
  split; [by vm_compute|]. split; [by vm_compute|].
  exact (ExtractImage_confined (W := mem_win32) (H := mem_image) (J := knows crafted_metadata) (L "C:\i") (L "C:\t") true crafted_volume).
Defined.

(** ** Differences *)

(** The base holds the directory [x] with [x\c]; in the source, [x]
    is a file. *)
Definition diff_volume : MemWin32.volume := [
  a_dir "C:\"; a_dir "C:\s"; a_file "C:\s\x" [5]; a_dir "C:\b"; a_dir "C:\b\x"; a_file "C:\b\x\c" [1] ].

Definition some_time : SYSTEMTIME := {| wYear := 2024; wMonth := 1; wDay := 2; wHour := 3; wMinute := 4; wSecond := 5 |}.

(** In the source, [k] is the base's, [m] has another size, [n] is new, [t] has
    another write time (its tag here), and [g] and [x\c] are gone. *)
Definition edited_volume : MemWin32.volume := diff_volume ++ [
  a_file "C:\s\k" [1]; a_file "C:\b\k" [1]; a_file "C:\s\m" [1; 2]; a_file "C:\b\m" [1]; a_file "C:\s\n" [7];
  (L "\\?\C:\s\t", MemWin32.MemEntry 32 9 [3] []); (L "\\?\C:\b\t", MemWin32.MemEntry 32 8 [4] []);
  a_file "C:\b\g" [1] ].

Definition edited_pack : img ArchiveBuilder :=
  (let? b := PackEntries edited_volume (L "C:\s")
               (changed_since (scan_of edited_volume "C:\b") (scan_of edited_volume "C:\s")) new_builder in
   add_whiteouts [L "x/c"; L "g"] b)%res.

Lemma edited_pack_ok : edited_pack = Ok (builder_of edited_pack).
Proof. by vm_compute. Qed.

Lemma differential_carries_the_changes_witness :
  let source := scan_of edited_volume "C:\s" in let base := scan_of edited_volume "C:\b" in
  relativeName <$> changed_since base source = [L "x"; L "m"; L "n"; L "t"] /\
  gone_since base source = [L "x/c"; L "g"] /\
  exists b,
    CreateDifferentialImage None some_time (L "C:\s") (L "C:\b") sample_output sample_metadata edited_volume =
      WriteImage sample_output (with_files 6 [L "x/c"; L "g"] (StampIdentity None some_time sample_metadata)) (Finish b)
        edited_volume /\
    reads (Finish b) 0
      ((packed_entry edited_volume (HostPath_ForWin32 (L "C:\s")) <$> changed_since base source) ++
       (whiteout_entry <$> [L "x/c"; L "g"])).
Proof.
  intros source base.
  assert (Hgone : gone_since base source = [L "x/c"; L "g"]) by (by vm_compute).
  split; [by vm_compute|]. split; [exact Hgone|].
  pose proof (differential_carries_the_changes (W := mem_win32) (H := mem_image) None some_time (L "C:\s") (L "C:\b")
    sample_output sample_metadata edited_volume source base) as Hd.
  cbv zeta in Hd. rewrite Hgone in Hd. change (let? b := _ in _)%res with edited_pack in Hd.
  rewrite edited_pack_ok in Hd. cbv iota in Hd. exists (builder_of edited_pack).
  change 6 with ((4 + 2) mod 2 ^ 64). replace 4 with (files_of (changed_since base source)) by (by vm_compute).
  apply Hd.
  - by vm_compute.
  - by vm_compute.
  - apply (bool_decide_unpack _). vm_compute. exact I.
  - apply (Forall_fmap relativeName archive_name).
    replace (relativeName <$> source) with ([L "x"; L "k"; L "m"; L "n"; L "t"]) by (by vm_compute).
    repeat constructor; by vm_compute.
  - apply (Forall_fmap relativeName (fun n => archive_name (MakeWhiteoutMarkerPath n))).
    replace (relativeName <$> base) with ([L "x"; L "x/c"; L "k"; L "m"; L "t"; L "g"]) by (by vm_compute).
    repeat constructor; by vm_compute.
Defined.

(** The metadata of the differential image of [diff_volume]. *)
Definition diff_metadata : LayerMetadata := {|
  id := L "1"; parentId := []; createdAt := L "2"; author := L "a"; description := []; tags := [L "t"];
  compression := Zstd; fileCount := 2; uncompressedSize := 81; compressedSize := 81;
  whiteouts := [L "x/c"]; labels := [(L "k", L "v"); (L "l", [])]
|}.

Definition diff_written : MemWin32.volume * img LayerMetadata :=
  CreateDifferentialImage None some_time (L "C:\s") (L "C:\b") sample_output sample_metadata
    diff_volume.

(** A directory that became a file: its children are deleted paths, so the
    archive holds the file [x] and then the marker [x/.wh.c] below it.  The
    image is written and validates, and an unpack to an empty target stops
    with [ERROR_ACCESS_DENIED] at the marker. *)
Example replaced_directory_does_not_unpack :
  snd diff_written = Ok diff_metadata /\
  ValidateImage (J := knows diff_metadata) (fst diff_written) (L "C:\i") = Ok tt /\
  snd (ExtractImage (J := knows diff_metadata) (L "C:\i") (L "C:\t") true (fst diff_written)) =
    Err (Code ERROR_ACCESS_DENIED).
Proof. vm_compute. done. Qed.

(** The format's description lets a directory's name end in a slash; the
    reader refuses it. *)
Example directory_slash_refused : IsValidArchivePath (L "dir/") = false.
Proof. by vm_compute. Qed.
End Examples.
