(* ===== verification/Registry.v ===== *)
(** * The registry of layers

    [vhd/Manifest.cpp]: the file that lists the layers of a work directory,
    its JSON, and the named mutex that processes take around a change of it.

    A [std::map] is a list sorted by key.  A mutex handle is a number. *)
From S2P Require Export ImageManager EntryHost.
Open Scope Z_scope.

Definition WAIT_OBJECT_0 : Z := 0.
Definition WAIT_ABANDONED : Z := 0x80.

(** Named mutexes: [CreateMutexW] without initial ownership, [None] when it
    fails; [WaitForSingleObject]; [ReleaseMutex]; [CloseHandle]. *)
Class NamedMutexes `{W : Win32} := {
  CreateMutexW : wstring -> eff disk (option Z);
  WaitForMutex : Z -> Z -> eff disk Z;
  ReleaseMutex : Z -> eff disk unit;
  CloseMutex : Z -> eff disk unit
}.

(** ** Data *)

Inductive LayerType := LayerDirectory | LayerVhd | LayerVss.

#[export] Instance LayerType_eq_dec : EqDecision LayerType.
Proof. solve_decision. Defined.

Record LayerEntry := {
  entryId : wstring;
  entryType : LayerType;
  entryPath : wstring;
  entryParentId : wstring;
  mountStatus : wstring;
  volumeGuid : wstring;
  entryCreatedAt : wstring;
  entryMetadata : list (wstring * wstring)
}.

Abbreviation Manifest := (list (wstring * LayerEntry)).

(** ** The name of the lock *)

(** FNV-1a of 64 bits over code units. *)
Definition kFnvOffset : Z := 0xcbf29ce484222325.
Definition kFnvPrime : Z := 0x100000001b3.

Definition Fnv1a64 (s : wstring) : Z :=
  foldl (fun h c => (Z.lxor h c * kFnvPrime) mod 2 ^ 64) kFnvOffset s.

(** [%016llx]. *)
Definition hex16 (n : Z) : wstring :=
  (fun i => hex_digit (Z.land (Z.shiftr n (4 * (15 - Z.of_nat i))) 0xF)) <$> seq 0 16.

Definition DefaultFileName : wstring := L "layers.manifest.json".

Definition DefaultPath (workingDir : wstring) : wstring := append workingDir DefaultFileName.

Definition LayerTypeToString (t : LayerType) : list Z :=
  match t with LayerDirectory => L "directory" | LayerVhd => L "vhd" | LayerVss => L "vss" end.

Definition StringToLayerType (s : list Z) : LayerType :=
  if bool_decide (s = L "vhd") then LayerVhd
  else if bool_decide (s = L "vss") then LayerVss
  else LayerDirectory.

(** [map.find(k)], [map.erase(k)]. *)
Definition map_find {V} (m : list (list Z * V)) (k : list Z) : option V :=
  snd <$> find (fun kv => bool_decide (fst kv = k)) m.

Definition map_erase {V} (m : list (list Z * V)) (k : list Z) : list (list Z * V) :=
  filter (fun kv => fst kv <> k) m.

(** ** The layers *)

Definition AddLayer (entry : LayerEntry) (m : Manifest) : Manifest := map_set m (entryId entry) entry.

Definition RemoveLayer (id : wstring) (m : Manifest) : Manifest * bool :=
  (map_erase m id, bool_decide (is_Some (map_find m id))).

Definition GetLayer (id : wstring) (m : Manifest) : option LayerEntry := map_find m id.

Definition ListLayers (m : Manifest) : list LayerEntry := snd <$> m.

Section Registry.
Context `{W : Win32} `{J : Json} `{H : !EntryHost} `{I : !ImageHost} `{N : !NamedMutexes}.

Definition NormalizeManifestPath (path : wstring) : wstring :=
  towlower <$> wreplace ch_slash ch_bsl path.

Definition MutexNameForPath (manifestPath : wstring) : wstring :=
  L "LayerMount.Manifest." ++ hex16 (Fnv1a64 (NormalizeManifestPath manifestPath)).

(** ** [ManifestLock] *)

Record ManifestLock := { lockHandle : option Z; Held : bool }.

Definition AcquireManifestLock (manifestPath : wstring) (timeoutMs : Z) : eff disk ManifestLock :=
  (let! created := CreateMutexW (MutexNameForPath manifestPath) in
   match created with
   | None => eret {| lockHandle := None; Held := false |}
   | Some h =>
       let! wait := WaitForMutex h timeoutMs in
       eret {| lockHandle := Some h; Held := (wait =? WAIT_OBJECT_0) || (wait =? WAIT_ABANDONED) |}
   end)%eff.

(** The destructor. *)
Definition ReleaseManifestLock (lock : ManifestLock) : eff disk unit :=
  match lockHandle lock with
  | None => eret tt
  | Some h => (do! (if Held lock then ReleaseMutex h else eret tt) in CloseMutex h)%eff
  end.

(** ** JSON *)

Definition metadata_to_json (labels : list (wstring * wstring)) : json :=
  JObject ((fun kv => (string_of_bytes (fst kv), JString (snd kv))) <$>
    foldl (fun m kv => map_set m (WideToUtf8 (fst kv)) (WideToUtf8 (snd kv))) [] labels).

Definition LayerEntryToJson (entry : LayerEntry) : json :=
  JObject [
    ("createdAt", JString (WideToUtf8 (entryCreatedAt entry)));
    ("id", JString (WideToUtf8 (entryId entry)));
    ("metadata", metadata_to_json (entryMetadata entry));
    ("mountStatus", JString (WideToUtf8 (mountStatus entry)));
    ("parentId", JString (WideToUtf8 (entryParentId entry)));
    ("path", JString (WideToUtf8 (entryPath entry)));
    ("type", JString (LayerTypeToString (entryType entry)));
    ("volumeGuid", JString (WideToUtf8 (volumeGuid entry))) ]%string.

(** [None] when a read throws. *)
Definition JsonToLayerEntry (j : json) : option LayerEntry :=
  id ← value_text j "id" [];
  kind ← value_text j "type" (L "directory");
  path ← value_text j "path" [];
  parent ← value_text j "parentId" [];
  created ← value_text j "createdAt" [];
  Some {| entryId := Utf8ToWide id; entryType := StringToLayerType kind; entryPath := Utf8ToWide path;
          entryParentId := Utf8ToWide parent; mountStatus := L "detached"; volumeGuid := [];
          entryCreatedAt := Utf8ToWide created; entryMetadata := read_labels (contained j "metadata") |}.

(** The library holds the number 1 of an [int] as a signed number. *)
Definition ManifestToJson (m : Manifest) : json :=
  JObject [("layers", JArray (LayerEntryToJson <$> ListLayers m)); ("schemaVersion", JInteger 1)]%string.

(** ** The file *)

(** The loop over [ReadFile], whose file pointer is the length of [body]. *)
Definition kLoadChunk : Z := 8192.

Definition read_step (h : handle) (body : list Z) : eff disk (list Z + res Z (list Z)) := eread (fun d =>
  match ReadFileAt d h (Z.of_nat (length body)) kLoadChunk with
  | Err err => inr (Err (if err =? 0 then ERROR_READ_FAULT else err))
  | Ok [] => inr (Ok body)
  | Ok chunk => inl (body ++ chunk)
  end).

(** A file has fewer than [2^63] bytes, and each turn reads one. *)
Definition read_fuel : positive := (2 ^ 64)%positive.

Definition add_item (m : option Manifest) (item : json) : option Manifest :=
  m ← m;
  entry ← JsonToLayerEntry item;
  Some (if bool_decide (entryId entry = []) then m else AddLayer entry m).

(** [for (const auto& item : root["layers"])]; [None] when a read throws. *)
Definition read_layers (items : list json) : option Manifest := foldl add_item (Some []) items.

(** A field of the wrong type throws outside of the [try] of the parse. *)
Definition ManifestOfText (body : list Z) : img Manifest :=
  match json_parse body with
  | None => Err (Code ERROR_INVALID_DATA)
  | Some root =>
      match schema_version root with
      | None => Err Thrown
      | Some version =>
          if version <? 1 then Err (Code ERROR_INVALID_DATA)
          else
            let items := match contained root "layers" with Some (JArray items) => items | _ => [] end in
            match read_layers items with Some m => Ok m | None => Err Thrown end
      end
  end.

(** The layers that a load leaves, or the error. *)
Definition Load (manifestPath : wstring) : eff disk (img Manifest) := fun d =>
  match OpenSharedW d (WithExtendedPrefix manifestPath) GENERIC_READ FILE_SHARE_READ FILE_ATTRIBUTE_NORMAL with
  | Err err => (d, Err (Code (if err =? 0 then ERROR_FILE_NOT_FOUND else err)))
  | Ok fh =>
      (let! body := run_loop read_fuel (read_step fh) (Err 0) [] in
       do! EntryHost.CloseHandle fh in
       eret match body with Err err => Err (Code err) | Ok body => ManifestOfText body end)%eff d
  end.

Definition manifest_temp_path (manifestForWin32 : wstring) : wstring :=
  manifestForWin32 ++ L ".tmp." ++ L (pretty GetCurrentProcessId) ++ L "." ++ L (pretty GetCurrentThreadId).

Definition Save (m : Manifest) (manifestPath : wstring) : eff disk Z :=
  let manifestForWin32 := WithExtendedPrefix manifestPath in
  let parentDir := parent_path manifestForWin32 in
  let tmpPath := manifest_temp_path manifestForWin32 in
  (let! made := (if bool_decide (parentDir = []) then eret (Ok tt) else create_directories parentDir) in
   match made with
   | Err ec => eret ec
   | Ok _ =>
       let! opened := ofstream_open tmpPath in
       if negb opened then eret ERROR_ACCESS_DENIED
       else
         let! good := ofstream_write tmpPath 0 (to_text_mode (json_dump2 (ManifestToJson m))) in
         do! ofstream_close tmpPath in
         if negb good then do! DeleteFileW tmpPath in eret ERROR_WRITE_FAULT
         else
           let! moved := MoveFileExW tmpPath manifestForWin32 (Z.lor MOVEFILE_REPLACE_EXISTING MOVEFILE_WRITE_THROUGH) in
           match moved with
           | Ok _ => eret ERROR_SUCCESS
           | Err err => do! DeleteFileW tmpPath in eret (if err =? 0 then ERROR_WRITE_FAULT else err)
           end
   end)%eff.
End Registry.
