(* ===== verification/RegistryFacts.v ===== *)
(** * What the registry of layers keeps

    A [Save] that fails leaves the old registry alone.  One that succeeds puts
    its temporary file in place of the registry as the last flush left it: the
    next [Load] gives the registry that was saved, with the two fields of a
    layer that do not survive a session reset, or reads a shorter text when
    that flush failed. *)
From S2P Require Export Registry ImageJsonFacts MemEntry.
Open Scope Z_scope.

Lemma map_find_get {V} (m : list (list Z * V)) k : map_find m k = map_get m k.
Proof.
  unfold map_find. induction m as [|[k' v] m IH]; cbn; [done|].
  case_bool_decide; cbn; [done|]. exact IH.
Qed.

Lemma map_erase_find {V} (m : list (list Z * V)) k k' :
  map_find (map_erase m k) k' = if bool_decide (k' = k) then None else map_find m k'.
Proof.
  rewrite !map_find_get. unfold map_erase. induction m as [|[k1 v] m IH]; [by case_bool_decide|].
  rewrite filter_cons. cbn [fst map_get]. destruct (decide (k1 <> k)) as [Hk|Hk]; cbn [map_get]; rewrite IH.
  - repeat case_bool_decide; congruence.
  - apply dec_stable in Hk as ->. repeat case_bool_decide; congruence.
Qed.

Section Facts.
Context `{W : Win32} `{J : Json} `{H : !EntryHost} `{I : !ImageHost}.

(** The documented behaviour of the calls of [Save]: a stream, a delete and a
    failed move leave other files alone; a move takes the bytes along; an open
    file has the bytes that a stream on its path reads. *)
Class RegistryLaws `{DL : !DataLaws} `{SL : !StreamLaws} := {
  stream_content d p s access share flags fh :
    ifstream_open d p = Some s -> OpenSharedW d p access share flags = Ok fh -> content d fh = st_bytes s;
  moved_stream from to flags d d' s :
    has_attr flags MOVEFILE_REPLACE_EXISTING = true -> CharLowerBuffW from <> CharLowerBuffW to ->
    MoveFileExW from to flags d = (d', Ok tt) -> ifstream_open d from = Some s -> ifstream_open d' to = Some s;
  not_moved from to flags d d' e : MoveFileExW from to flags d = (d', Err e) -> ifstream_open d' to = ifstream_open d to;
  directories_error p d d' e : create_directories p d = (d', Err e) -> e <> ERROR_SUCCESS;
  directories_apart p d q s : ifstream_open d q = Some s -> ifstream_open (fst (create_directories p d)) q = Some s;
  opened_apart p d q : CharLowerBuffW p <> CharLowerBuffW q -> ifstream_open (fst (ofstream_open p d)) q = ifstream_open d q;
  written_apart p pos data d q :
    CharLowerBuffW p <> CharLowerBuffW q -> ifstream_open (fst (ofstream_write p pos data d)) q = ifstream_open d q;
  closed_apart p d q : CharLowerBuffW p <> CharLowerBuffW q -> ifstream_open (fst (ofstream_close p d)) q = ifstream_open d q;
  (** A path is no stream of a longer one. *)
  deleted_apart p d q :
    CharLowerBuffW p <> CharLowerBuffW q -> (length q < length p)%nat ->
    ifstream_open (fst (DeleteFileW p d)) q = ifstream_open d q
}.

(** A registry as [AddLayer] builds it, with texts that survive UTF-8. *)
Record entry_ok (entry : LayerEntry) : Prop := {
  entry_id_given : entryId entry <> [];
  entry_id_kept : text_kept (entryId entry);
  entry_path_kept : text_kept (entryPath entry);
  entry_parent_kept : text_kept (entryParentId entry);
  entry_created_kept : text_kept (entryCreatedAt entry);
  entry_labels_kept : Forall (fun kv => text_kept (fst kv) /\ text_kept (snd kv) /\
                                        Forall is_byte (WideToUtf8 (fst kv))) (entryMetadata entry);
  entry_labels_sorted : sorted_map (entryMetadata entry)
}.

Definition manifest_ok (m : Manifest) : Prop :=
  sorted_map m /\ Forall (fun kv => fst kv = entryId (snd kv) /\ entry_ok (snd kv)) m.

(** What a load leaves of a layer. *)
Definition reloaded (entry : LayerEntry) : LayerEntry := {|
  entryId := entryId entry; entryType := entryType entry; entryPath := entryPath entry;
  entryParentId := entryParentId entry; mountStatus := L "detached"; volumeGuid := [];
  entryCreatedAt := entryCreatedAt entry; entryMetadata := entryMetadata entry |}.

(** The library reads the text that it printed, through the line ends of a
    text stream; a number without a sign comes back unsigned. *)
Definition manifest_text (m : Manifest) : list Z := to_text_mode (json_dump2 (ManifestToJson m)).

Definition manifest_parses (m : Manifest) : Prop :=
  json_parse (manifest_text m) =
    Some (JObject [("layers", JArray (LayerEntryToJson <$> ListLayers m)); ("schemaVersion", JUnsigned 1)])%string.

(** ** The JSON of a layer *)

Lemma JsonToLayerEntry_ToJson entry :
  entry_ok entry -> JsonToLayerEntry (LayerEntryToJson entry) = Some (reloaded entry).
Proof.
  intros []. unfold LayerEntryToJson, metadata_to_json. rewrite foldl_encoded.
  destruct entry as [i t p pp ms vg c lb]. cbn [entryId entryType entryPath entryParentId mountStatus volumeGuid
    entryCreatedAt entryMetadata] in *.
  unfold JsonToLayerEntry, contained, value_text, json_field, reloaded.
  cbn -[read_labels Utf8ToWide WideToUtf8 StringToLayerType LayerTypeToString label_fields].
  rewrite entry_id_kept0, entry_path_kept0, entry_parent_kept0, entry_created_kept0.
  rewrite foldl_decoded, labels_read_back by done. by destruct t.
Qed.

(** Sorted values keep their places under a function of the values. *)
Lemma sorted_map_values {V V'} (g : V -> V') (m : list (list Z * V)) :
  sorted_map m -> sorted_map ((fun kv => (fst kv, g (snd kv))) <$> m).
Proof.
  induction 1 as [|k v m Hb _ IH]; cbn; constructor; [|done].
  unfold below in *. rewrite Forall_fmap. exact Hb.
Qed.

Lemma map_of_id {V} (m : list (list Z * V)) : sorted_map m -> map_of m = m.
Proof.
  intros Hm. apply sorted_map_ext; [apply map_of_sorted|done|]. intros k. by apply map_get_of, sorted_map_NoDup.
Qed.

Lemma read_layers_ToJson m :
  manifest_ok m ->
  read_layers (LayerEntryToJson <$> ListLayers m) = Some ((fun kv => (fst kv, reloaded (snd kv))) <$> m).
Proof.
  intros [Hs Hm]. rewrite <- (map_of_id ((fun kv => (fst kv, reloaded (snd kv))) <$> m)) by (by apply sorted_map_values).
  unfold read_layers, map_of, ListLayers. rewrite !foldl_fmap. clear Hs. generalize (@nil (wstring * LayerEntry)).
  induction Hm as [|[k entry] m [Hk Hok] _ IH]; intros acc; [done|]. cbn [fst snd] in *. subst k.
  cbn [foldl fst snd]. rewrite <- IH. f_equal. unfold add_item. cbn [mbind option_bind snd].
  rewrite JsonToLayerEntry_ToJson by done. cbn [mbind option_bind reloaded entryId].
  rewrite bool_decide_false by (by destruct Hok). done.
Qed.

Lemma ManifestOfText_manifest m :
  manifest_ok m -> manifest_parses m ->
  ManifestOfText (manifest_text m) = Ok ((fun kv => (fst kv, reloaded (snd kv))) <$> m).
Proof.
  intros Hm Hp. unfold ManifestOfText. rewrite Hp. unfold schema_version, contained, json_field.
  cbn -[read_layers LayerEntryToJson ListLayers]. by rewrite read_layers_ToJson.
Qed.

(** ** The file *)

Context `{DL : !DataLaws} `{SL : !StreamLaws} `{RL : !RegistryLaws}.

(** The loop over [ReadFile] gives the whole file when no read fails. *)
Lemma read_loop_content h d never :
  (forall pos, 0 <= pos -> is_ok (ReadFileAt d h pos kLoadChunk) = true) ->
  Z.of_nat (length (content d h)) < 2 ^ 64 ->
  run_loop read_fuel (read_step h) never [] d = (d, Ok (content d h)).
Proof.
  intros Hok Hlen. set (c := content d h) in *.
  destruct (run_loop_rule (read_step h) (fun body s => s = d /\ body `prefix_of` c)
    (fun body => Z.of_nat (length c) - Z.of_nat (length body)) (fun s r => s = d /\ r = Ok c))
    with (fuel := read_fuel) (never := never) (a := @nil Z) (s := d) as (s' & b & -> & -> & ->); try done.
  - intros body s (-> & Hb). unfold read_step, eread.
    specialize (Hok (Z.of_nat (length body)) ltac:(lia)).
    destruct (ReadFileAt d h _ kLoadChunk) as [chunk|] eqn:Er; [|done].
    apply read_content in Er as (Hpre & _ & Hend); [|lia|done]. rewrite Nat2Z.id in Hpre.
    destruct Hb as [rest Hc]. fold c in Hpre, Hend. rewrite Hc, drop_app_length in Hpre.
    destruct chunk as [|x chunk].
    + split; [done|]. f_equal. specialize (Hend eq_refl). apply (f_equal length) in Hc as Hl.
      rewrite length_app in Hl. destruct rest; [by rewrite app_nil_r in Hc|cbn in Hl; lia].
    + destruct Hpre as [rest' ->]. rewrite Hc, !length_app. cbn. repeat split; [|lia..].
      exists rest'. by rewrite <- app_assoc.
  - split; [done|]. apply prefix_nil.
  - cbn [length]. unfold read_fuel. lia.
Qed.

Lemma Load_content path d fh s :
  let file := WithExtendedPrefix path in
  ifstream_open d file = Some s ->
  OpenSharedW d file GENERIC_READ FILE_SHARE_READ FILE_ATTRIBUTE_NORMAL = Ok fh ->
  (forall pos, 0 <= pos -> is_ok (ReadFileAt d fh pos kLoadChunk) = true) ->
  Z.of_nat (length (st_bytes s)) < 2 ^ 64 ->
  snd (Load path d) = ManifestOfText (st_bytes s).
Proof.
  cbv zeta. intros Hs Ho Hr Hlen. unfold Load. rewrite Ho. unfold ebind, eret.
  pose proof (stream_content _ _ _ _ _ _ _ Hs Ho) as Hc. rewrite <- Hc in Hlen.
  rewrite read_loop_content by done. rewrite Hc. by destruct (EntryHost.CloseHandle fh d).
Qed.

Lemma manifest_temp_differs file : CharLowerBuffW (manifest_temp_path file) <> CharLowerBuffW file.
Proof.
  intros E%(f_equal length). unfold CharLowerBuffW, manifest_temp_path in E.
  rewrite !length_fmap, length_app in E. cbn in E. lia.
Qed.

Lemma manifest_temp_longer file : (length file < length (manifest_temp_path file))%nat.
Proof. unfold manifest_temp_path. rewrite length_app. cbn. lia. Qed.

(** The steps of [Save] up to the end of its stream on the temporary file, and
    whether the flush at that end succeeds, which [Save] does not look at. *)
Definition write_temporary (m : Manifest) (path : wstring) : eff disk bool :=
  let file := WithExtendedPrefix path in
  let tmp := manifest_temp_path file in
  (do! (if bool_decide (parent_path file = []) then eret (Ok tt) else create_directories (parent_path file)) in
   do! ofstream_open tmp in
   do! ofstream_write tmp 0 (manifest_text m) in
   ofstream_close tmp)%eff.

(** [Save] step by step. *)
Lemma Save_cases m path d d' err :
  let file := WithExtendedPrefix path in
  Save m path d = (d', err) ->
  (err = ERROR_SUCCESS ->
     let (written, flushed) := write_temporary m path d in
     (flushed = true -> exists s, st_bytes s = manifest_text m /\ ifstream_open d' file = Some s) /\
     (forall s, ifstream_open written (manifest_temp_path file) = Some s -> ifstream_open d' file = Some s)) /\
  (err <> ERROR_SUCCESS -> forall old, ifstream_open d file = Some old -> ifstream_open d' file = Some old).
Proof.
  cbv zeta. unfold write_temporary. set (file := WithExtendedPrefix path). set (tmp := manifest_temp_path file).
  pose proof (manifest_temp_differs file) as Hne. pose proof (manifest_temp_longer file) as Hlt. fold tmp in Hne, Hlt.
  unfold Save. fold file tmp. unfold ebind, eret. intros Hs.
  set (mk := if bool_decide (parent_path file = []) then _ else _) in *.
  assert (Hmk : forall old, ifstream_open d file = Some old -> ifstream_open (fst (mk d)) file = Some old).
  { intros old Ho. unfold mk. case_bool_decide; [done|]. by apply directories_apart. }
  assert (Hmke : forall d1 e, mk d = (d1, Err e) -> e <> ERROR_SUCCESS).
  { intros d1 e. unfold mk. case_bool_decide; [done|]. apply directories_error. }
  destruct (mk d) as [d1 [[]|ec]]; cbn [fst] in Hmk.
  2: { injection Hs as <- <-. split; [|done]. intros ->. by destruct (Hmke d1 ERROR_SUCCESS). }
  pose proof (opened_apart tmp d1 file Hne) as Hopen.
  destruct (ofstream_open tmp d1) as [d2 [|]] eqn:Eo; cbn [negb fst] in Hs, Hopen.
  2: { injection Hs as <- <-. split; [done|]. intros _ old Ho. rewrite Hopen. by apply Hmk. }
  pose proof (written_apart tmp 0 (manifest_text m) d2 file Hne) as Hwrite. fold (manifest_text m) in Hs.
  destruct (ofstream_write tmp 0 (manifest_text m) d2) as [d3 good] eqn:Ew. cbn [fst] in Hwrite.
  pose proof (closed_apart tmp d3 file Hne) as Hshut.
  destruct (ofstream_close tmp d3) as [d4 flushed] eqn:Ec. cbn [fst] in Hshut.
  assert (Hold : forall old, ifstream_open d file = Some old -> ifstream_open d4 file = Some old).
  { intros old Ho. rewrite Hshut, Hwrite, Hopen. by apply Hmk. }
  pose proof (fun dx => deleted_apart tmp dx file Hne Hlt) as Hdel.
  destruct good; cbn [negb] in Hs.
  2: { specialize (Hdel d4). destruct (DeleteFileW tmp d4) as [d5 r]. injection Hs as <- <-.
       split; [done|]. intros _ old Ho. cbn [fst] in Hdel. rewrite Hdel. by apply Hold. }
  destruct (MoveFileExW tmp file _ d4) as [d5 [[]|e]] eqn:Em.
  - injection Hs as <- <-. split; [|done]. intros _.
    assert (Hmoved : forall s, ifstream_open d4 tmp = Some s -> ifstream_open d5 file = Some s)
      by (intros s Hp; by eapply moved_stream; [| |exact Em|exact Hp]).
    split; [|done]. intros ->. pose proof (open_pending _ _ _ Eo) as Hp.
    eapply write_pending in Hp; [|exact Ew|cbn; lia].
    unfold overwrite in Hp. cbn [Z.to_nat take drop app] in Hp. rewrite drop_nil, app_nil_r in Hp.
    eapply close_pending in Hp; [|exact Ec]. eexists. split; [|by apply Hmoved]. done.
  - apply not_moved in Em. specialize (Hdel d5). destruct (DeleteFileW tmp d5) as [d6 r]. cbn [fst] in Hdel.
    injection Hs as <- <-. split.
    + destruct (Z.eqb_spec e 0); [done|]. by intros ->.
    + intros _ old Ho. rewrite Hdel, Em. by apply Hold.
Qed.

(** C22: a [Save] that reports a failure leaves the registry that was there.  A
    [Save] that reports success has put its temporary file in the place of the
    registry, as the last flush of its stream left it.  When that flush
    succeeded, the next [Load] gives the registry: every layer, in the order of
    the ids, detached and without a volume.  [Save] does not look at the flush:
    when it failed, [Save] still reports success, and the next [Load] reads
    whatever shorter text reached the disk. *)
Theorem Save_replaces_or_keeps m path d d' err :
  let file := WithExtendedPrefix path in
  manifest_ok m -> manifest_parses m -> Z.of_nat (length (manifest_text m)) < 2 ^ 64 ->
  Save m path d = (d', err) ->
  (err <> ERROR_SUCCESS -> forall old, ifstream_open d file = Some old -> ifstream_open d' file = Some old) /\
  (err = ERROR_SUCCESS -> forall fh,
     OpenSharedW d' file GENERIC_READ FILE_SHARE_READ FILE_ATTRIBUTE_NORMAL = Ok fh ->
     (forall pos, 0 <= pos -> is_ok (ReadFileAt d' fh pos kLoadChunk) = true) ->
     let (written, flushed) := write_temporary m path d in
     (flushed = true -> snd (Load path d') = Ok ((fun kv => (fst kv, reloaded (snd kv))) <$> m)) /\
     (forall s, ifstream_open written (manifest_temp_path file) = Some s -> Z.of_nat (length (st_bytes s)) < 2 ^ 64 ->
        ifstream_open d' file = Some s /\ snd (Load path d') = ManifestOfText (st_bytes s))).
Proof.
  cbv zeta. intros Hm Hp Hlen Hs. destruct (Save_cases _ _ _ _ _ Hs) as [Hnew Hold].
  split; [done|]. intros He fh Ho Hr. specialize (Hnew He).
  destruct (write_temporary m path d) as [written flushed]. destruct Hnew as [Hfull Hany]. split.
  - intros Hf. destruct (Hfull Hf) as (s & Hb & Hi).
    rewrite (Load_content _ _ _ _ Hi Ho Hr) by (by rewrite Hb). rewrite Hb. by apply ManifestOfText_manifest.
  - intros s Hi%Hany Hl. split; [done|]. by rewrite (Load_content _ _ _ _ Hi Ho Hr).
Qed.
End Facts.

(** ** The concrete host *)

Section Mem.
Import MemWin32.

Lemma mem_open_in_put (v : volume) p e q :
  key p <> key q -> MemImage.open_in (put_entry v p e) q = MemImage.open_in v q.
Proof. intros Hk. unfold MemImage.open_in, lookup_entry. by rewrite find_entry_put, decide_False. Qed.

#[export] Instance mem_registry_laws :
  RegistryLaws (W := mem_win32) (H := mem_entry_host) (I := mem_image)
    (DL := mem_data_laws) (SL := mem_stream_laws).
Proof.
  split; cbn.
  - intros d p s _ _ _ fh. unfold MemImage.open_in, field, MemFiles.data_of, lookup_entry.
    destruct (find_entry d (key p)) as [e|] eqn:Ee; [|done]. destruct (has_attr _ _); [done|].
    intros [= <-] [= <-]. by rewrite Ee.
  - intros from to flags d d' s -> Hne. unfold move, MemImage.open_in, lookup_entry.
    destruct (find_entry d (key from)) as [e|] eqn:Ef; [|done].
    destruct (find_entry d (key to)) as [e2|] eqn:Et; intros [= <-] Hs.
    + erewrite find_entry_move; [exact Hs|done| |].
      * by rewrite find_entry_remove, decide_True.
      * intros p e' Hin%list_elem_of_filter. by destruct Hin.
    + erewrite find_entry_move; [exact Hs|done..|]. intros p e' Hin. by eapply find_entry_None.
  - intros from to flags d d' e. unfold move. destruct (lookup_entry d from), (lookup_entry d to);
      try destruct (has_attr _ _); by intros [= <-].
  - intros p d d' e. unfold create_dirs. by destruct (lookup_entry d p).
  - intros p d q s. unfold create_dirs, lookup_entry. destruct (find_entry d (key p)) eqn:Ep; [done|].
    cbn [fst]. intros Hs. rewrite mem_open_in_put; [done|]. intros E. unfold MemImage.open_in, lookup_entry in Hs.
    by rewrite <- E, Ep in Hs.
  - intros p d q Hne. unfold MemImage.open_out. destruct (_ || _); [done|]. by apply mem_open_in_put.
  - intros p pos data d q Hne. unfold MemImage.write_at. destruct (lookup_entry d p); [|done]. by apply mem_open_in_put.
  - done.
  - intros p d q Hne Hlen. unfold delete_entry. destruct (lookup_entry d p); [|done]. cbn [fst].
    unfold MemImage.open_in, lookup_entry. rewrite find_entry_delete, find_entry_remove.
    rewrite decide_True; [by rewrite decide_True|]. intros Hs%Is_true_true%starts_with_prefix%prefix_length.
    unfold key in Hs. rewrite length_app, !length_fmap in Hs. lia.
Qed.
End Mem.

Definition sample_layers : Manifest :=
  [(L "a", {| entryId := L "a"; entryType := LayerVhd; entryPath := L "C:\v\a.vhdx"; entryParentId := [];
              mountStatus := L "mounted"; volumeGuid := L "\\?\Volume{1}\"; entryCreatedAt := L "2024";
              entryMetadata := [(L "k", L "v")] |});
   (L "b", {| entryId := L "b"; entryType := LayerDirectory; entryPath := L "C:\v\b"; entryParentId := L "a";
              mountStatus := L "detached"; volumeGuid := []; entryCreatedAt := L "2025"; entryMetadata := [] |})].

(** The library reads the sample from the text that [mem_image] prints. *)
Definition sample_json : Json := {|
  json_parse := fun text => if bool_decide (text = [123; 125]) then
    Some (JObject [("layers", JArray (@LayerEntryToJson mem_win32 <$> ListLayers sample_layers)); ("schemaVersion", JUnsigned 1)])%string
    else None;
  json_dump := fun _ => []
|}.

Definition sample_registry : MemWin32.volume :=
  [(L "\\?\C:\v", MemWin32.MemEntry FILE_ATTRIBUTE_DIRECTORY 0 [] [])].
Definition sample_registry_path : wstring := L "C:\v\layers.manifest.json".

Definition saved_sample : MemWin32.volume * Z :=
  @Save mem_win32 mem_entry_host mem_image sample_layers sample_registry_path sample_registry.

Lemma sample_text_kept t : @text_kept mem_win32 t.
Proof. unfold text_kept, Utf8ToWide, WideToUtf8. cbn. by destruct t. Qed.

Lemma sample_layers_ok : @manifest_ok mem_win32 sample_layers.
Proof.
  split; [repeat constructor|]. constructor; [|constructor; [|done]].
  all: split; [done|]; split; try apply sample_text_kept; try done; try by repeat constructor.
Qed.

(** ** A flush that fails

    On a full disk the stream takes the text into its buffer, the write is
    good, and the flush at the end of the block fails: the buffer is lost. *)
Definition full_disk_image : @ImageHost mem_win32 := {|
  alloc := @alloc mem_win32 mem_image;
  ifstream_open := @ifstream_open mem_win32 mem_image;
  ofstream_open := @ofstream_open mem_win32 mem_image;
  ofstream_write := @ofstream_write mem_win32 mem_image;
  ofstream_seek := @ofstream_seek mem_win32 mem_image;
  ofstream_close := fun p => (do! MemFiles.set_end p 0 in eret false)%eff;
  fs_exists := @fs_exists mem_win32 mem_image;
  weakly_canonical := @weakly_canonical mem_win32 mem_image;
  fs_remove := @fs_remove mem_win32 mem_image;
  recursive_walk := @recursive_walk mem_win32 mem_image;
  ImageHost.GetFileAttributesExW := @ImageHost.GetFileAttributesExW mem_win32 mem_image;
  SetFileAttributesW := @SetFileAttributesW mem_win32 mem_image;
  OpenToSetTime := @OpenToSetTime mem_win32 mem_image;
  SetWriteTime := @SetWriteTime mem_win32 mem_image;
  ImageHost.CloseHandle := @ImageHost.CloseHandle mem_win32 mem_image;
  GetLongPathNameW := @GetLongPathNameW mem_win32 mem_image;
  zstd_compressBound := @zstd_compressBound mem_win32 mem_image;
  zstd_compress := @zstd_compress mem_win32 mem_image;
  zstd_content_size := @zstd_content_size mem_win32 mem_image;
  zstd_decompress := @zstd_decompress mem_win32 mem_image;
  bcrypt_algorithm := @bcrypt_algorithm mem_win32 mem_image;
  bcrypt_hash := @bcrypt_hash mem_win32 mem_image;
  BCryptOpenAlgorithmProvider := @BCryptOpenAlgorithmProvider mem_win32 mem_image;
  BCryptGetObjectLength := @BCryptGetObjectLength mem_win32 mem_image;
  BCryptCreateHash := @BCryptCreateHash mem_win32 mem_image;
  BCryptHashData := @BCryptHashData mem_win32 mem_image;
  BCryptFinishHash := @BCryptFinishHash mem_win32 mem_image;
  towlower := @towlower mem_win32 mem_image;
  json_dump2 := @json_dump2 mem_win32 mem_image;
  json_extract := @json_extract mem_win32 mem_image
|}.

Definition full_stream_laws : @StreamLaws mem_win32 full_disk_image.
Proof.
  destruct mem_stream_laws as [pending Ho Hw Hs _]. apply (Build_StreamLaws mem_win32 full_disk_image pending); try done.
  intros p data d d'. cbn. unfold ebind. by destruct (MemFiles.set_end p 0 d).
Defined.

Lemma full_registry_laws :
  RegistryLaws (W := mem_win32) (H := mem_entry_host) (I := full_disk_image)
    (DL := mem_data_laws) (SL := full_stream_laws).
Proof.
  destruct mem_registry_laws as [L1 L2 L3 L4 L5 L6 L7 _ L9]. split; try done.
  intros p d q Hne. cbn. unfold ebind, MemFiles.set_end, MemFiles.change.
  destruct (MemWin32.lookup_entry d p); [|done]. cbn [fst]. by apply mem_open_in_put.
Qed.

Definition full_saved : MemWin32.volume * Z :=
  @Save mem_win32 mem_entry_host full_disk_image sample_layers sample_registry_path (fst saved_sample).

(** A save, and then one on a full disk: it reports success, and the registry
    is lost. *)
Lemma Save_replaces_or_keeps_witness :
  (snd saved_sample = ERROR_SUCCESS /\
   snd (@Load mem_win32 sample_json mem_entry_host sample_registry_path (fst saved_sample)) =
     Ok ((fun kv => (fst kv, reloaded (snd kv))) <$> sample_layers)) /\
  (snd full_saved = ERROR_SUCCESS /\
   snd (@Load mem_win32 sample_json mem_entry_host sample_registry_path (fst full_saved)) =
     @ManifestOfText mem_win32 sample_json []).
Proof.
  assert (Hparse : @manifest_parses mem_win32 sample_json mem_image sample_layers) by (vm_compute; reflexivity).
  split.
  - assert (Hok : snd saved_sample = ERROR_SUCCESS) by (vm_compute; reflexivity). split; [exact Hok|].
    assert (Hs : @Save mem_win32 mem_entry_host mem_image sample_layers sample_registry_path sample_registry
                   = (fst saved_sample, ERROR_SUCCESS)) by (rewrite <- Hok; apply surjective_pairing).
    pose proof (fun Hl => proj2 (@Save_replaces_or_keeps mem_win32 sample_json mem_entry_host mem_image mem_data_laws
      mem_stream_laws mem_registry_laws sample_layers sample_registry_path sample_registry _ _ sample_layers_ok Hparse Hl Hs)
      eq_refl (L "\\?\C:\v\layers.manifest.json")) as Hc.
    specialize (Hc ltac:(vm_compute; reflexivity) ltac:(vm_compute; reflexivity) ltac:(intros pos _; vm_compute; reflexivity)).
    assert (Hf : snd (@write_temporary mem_win32 mem_entry_host mem_image sample_layers sample_registry_path sample_registry) = true)
      by (vm_compute; reflexivity).
    destruct (write_temporary _ _ _) as [written flushed]. exact (proj1 Hc Hf).
  - assert (Hok : snd full_saved = ERROR_SUCCESS) by (vm_compute; reflexivity). split; [exact Hok|].
    assert (Hs : @Save mem_win32 mem_entry_host full_disk_image sample_layers sample_registry_path (fst saved_sample)
                   = (fst full_saved, ERROR_SUCCESS)) by (rewrite <- Hok; apply surjective_pairing).
    pose proof (fun Hl => proj2 (@Save_replaces_or_keeps mem_win32 sample_json mem_entry_host full_disk_image mem_data_laws
      full_stream_laws full_registry_laws sample_layers sample_registry_path (fst saved_sample) _ _ sample_layers_ok Hparse Hl Hs)
      eq_refl (L "\\?\C:\v\layers.manifest.json")) as Hc.
    specialize (Hc ltac:(vm_compute; reflexivity) ltac:(vm_compute; reflexivity) ltac:(intros pos _; vm_compute; reflexivity)).
    assert (Hf : @ifstream_open mem_win32 full_disk_image
        (fst (@write_temporary mem_win32 mem_entry_host full_disk_image sample_layers sample_registry_path (fst saved_sample)))
        (@manifest_temp_path mem_win32 mem_entry_host (L "\\?\C:\v\layers.manifest.json")) =
        Some {| st_end := Some 0; st_bytes := [] |}) by (vm_compute; reflexivity).
    destruct (write_temporary _ _ _) as [written flushed]. by destruct (proj2 Hc _ Hf eq_refl).
Defined.
