(* ===== verification/VhdManager.v ===== *)
(** * Virtual disks

    [vhd/VHDLayerManager.cpp] and [vhd/VolumeGuid.cpp]: create, attach,
    detach, merge and initialize a virtual disk, find its volume, and import
    and export a directory; with [CheckElevation] of [ElevationUtil.cpp].

    A [VhdHandle] of the source is closed where its scope ends, so is here a
    close of the handle on each way out.  A directory is listed at once, with
    the error that ends the list.  MSVC's file system library reports Win32
    errors in the system category, so an error code is its number.  [None] is
    an exception that leaves the function. *)
From S2P Require Export Registry.
Open Scope Z_scope.

Definition ERROR_NOT_READY : Z := 21.
Definition ERROR_NOT_SUPPORTED : Z := 50.
Definition ERROR_DEV_NOT_EXIST : Z := 55.
Definition ERROR_DIR_NOT_EMPTY : Z := 145.
Definition ERROR_DISK_TOO_FRAGMENTED : Z := 302.
Definition ERROR_ARITHMETIC_OVERFLOW : Z := 534.
Definition ERROR_UNRECOGNIZED_VOLUME : Z := 1005.
Definition ERROR_NOT_FOUND : Z := 1168.
Definition ERROR_PRIVILEGE_NOT_HELD : Z := 1314.
Definition ERROR_TIMEOUT : Z := 1460.
Definition WAIT_TIMEOUT : Z := 258.
Definition WAIT_FAILED : Z := 0xFFFFFFFF.

Definition VIRTUAL_STORAGE_TYPE_DEVICE_VHD : Z := 2.
Definition VIRTUAL_STORAGE_TYPE_DEVICE_VHDX : Z := 3.
Definition ATTACH_VIRTUAL_DISK_FLAG_READ_ONLY : Z := 1.
Definition ATTACH_VIRTUAL_DISK_FLAG_NO_DRIVE_LETTER : Z := 2.
Definition ATTACH_VIRTUAL_DISK_FLAG_PERMANENT_LIFETIME : Z := 4.
Definition CREATE_VIRTUAL_DISK_FLAG_FULL_PHYSICAL_ALLOCATION : Z := 1.

Definition kParentSize : Z := 0.
Definition kPartitionOffsetBytes : Z := 1048576.
Definition kTailPaddingBytes : Z := 1048576.
Definition kMinSize : Z := 100 * 1024 * 1024.

(** [CREATE_VIRTUAL_DISK_PARAMETERS] and the flags. *)
Record create_disk := { MaximumSize : Z; ParentPath : option wstring; createFlags : Z }.

(** The [DRIVE_LAYOUT_INFORMATION_EX] with its one partition. *)
Record disk_layout := {
  layoutDiskId : list Z;
  StartingUsableOffset : Z;
  UsableLength : Z;
  StartingOffset : Z;
  PartitionLength : Z;
  PartitionId : list Z
}.

(** [std::filesystem::file_type], as far as the source tells them apart. *)
Inductive file_type := NotFoundFile | SymlinkFile | DirectoryFile | RegularFile | OtherFile.

#[export] Instance file_type_eq_dec : EqDecision file_type.
Proof. solve_decision. Defined.

Class VhdHost `{W : Win32} := {
  (** The token of the process; whether it is elevated. *)
  OpenProcessToken : disk -> w32 Z;
  GetTokenElevation : disk -> Z -> w32 bool;
  (** The handle of a virtual disk, which [VhdHandle] owns, and its close. *)
  vhd_handle : Type;
  CloseVhdHandle : vhd_handle -> eff disk unit;
  (** The device type and the path; the handle, or the result. *)
  OpenVirtualDisk : Z -> wstring -> eff disk (w32 vhd_handle);
  CreateVirtualDisk : wstring -> create_disk -> eff disk (w32 vhd_handle);
  AttachVirtualDisk : vhd_handle -> Z -> eff disk (w32 unit);
  GetVirtualDiskPhysicalPath : disk -> vhd_handle -> w32 wstring;
  DetachVirtualDisk : vhd_handle -> eff disk (w32 unit);
  (** The source depth and the target depth. *)
  MergeVirtualDisk : vhd_handle -> Z -> Z -> eff disk (w32 unit);
  (** [FindFirstVolumeW], then [FindNextVolumeW] until it returns false: the
      first name, the others, and the last error. *)
  FindVolumes : disk -> w32 (wstring * list wstring * Z);
  (** [IOCTL_STORAGE_GET_DEVICE_NUMBER]. *)
  GetDeviceNumber : disk -> handle -> w32 Z;
  (** [GetVolumePathNamesForVolumeNameW] without a buffer: the characters it
      needs and the last error; with a buffer of so many characters. *)
  VolumePathNamesSize : disk -> wstring -> Z * Z;
  GetVolumePathNames : disk -> wstring -> Z -> w32 (list Z);
  (** [IOCTL_DISK_SET_DISK_ATTRIBUTES], [_GET_DRIVE_GEOMETRY_EX],
      [_CREATE_DISK], [_UPDATE_PROPERTIES], [_SET_DRIVE_LAYOUT_EX]. *)
  SetDiskOnline : handle -> eff disk unit;
  GetDiskSize : disk -> handle -> w32 Z;
  CreateGptDisk : handle -> list Z -> eff disk (w32 unit);
  UpdateDiskProperties : handle -> eff disk unit;
  SetDriveLayout : handle -> disk_layout -> eff disk (w32 unit);
  (** [None] when it fails. *)
  CoCreateGuid : eff disk (option (list Z));
  StringFromGUID2 : list Z -> option wstring;
  Sleep : Z -> eff disk unit;
  GetTempPathW : disk -> wstring;
  (** A process: its start; a wait, with the last error; its end; its exit
      code, [None] when the call fails; the close of its two handles. *)
  CreateProcessW : wstring -> eff disk (w32 Z);
  WaitForProcess : Z -> option Z -> eff disk (Z * Z);
  TerminateProcess : Z -> eff disk unit;
  GetExitCodeProcess : disk -> Z -> option Z;
  CloseProcess : Z -> eff disk unit;
  SetVolumeMountPointW : wstring -> wstring -> eff disk (w32 unit);
  DeleteVolumeMountPointW : wstring -> eff disk (w32 unit);
  (** [std::filesystem]: a directory's entries, and the error that ends the
      list; types; sizes; copies; [remove]. *)
  directory_list : disk -> wstring -> w32 (list wstring * option Z);
  symlink_status : disk -> wstring -> w32 file_type;
  is_regular_file : disk -> wstring -> bool;
  file_size : disk -> wstring -> w32 Z;
  copy_symlink : wstring -> wstring -> eff disk (w32 unit);
  create_directory_like : wstring -> wstring -> eff disk (w32 unit);
  copy_file_overwriting : wstring -> wstring -> eff disk (w32 unit);
  copy_recursively : wstring -> wstring -> eff disk (w32 unit);
  remove_path : wstring -> eff disk (w32 unit)
}.

(** ** Text *)

Definition EnsureTrailingBackslash (path : wstring) : wstring :=
  if bool_decide (path = []) || bool_decide (last path = Some ch_bsl) then path else path ++ [ch_bsl].

Definition StripTrailingBackslash (path : wstring) : wstring :=
  if bool_decide (last path = Some ch_bsl) then take (length path - 1) path else path.

(** [path.extension()]: from the last dot of the file name before a stream,
    unless it comes first or the name is two dots. *)
Definition extension (path : wstring) : wstring :=
  let name := filename path in
  let name := match wfind ch_colon name with Some i => take i name | None => name end in
  match wrfind ch_dot name with
  | None | Some O => []
  | Some i => if bool_decide (name = L "..") then [] else drop i name
  end.

(** [text.find(needle)]. *)
Fixpoint find_text (needle s : wstring) : option nat :=
  if starts_with needle s then Some O
  else match s with [] => None | _ :: s' => S <$> find_text needle s' end.

(** [wcstoul(text, nullptr, 10)]: white space, a sign, digits. *)
Fixpoint skip_spaces (s : wstring) : wstring :=
  match s with
  | c :: s' => if (c =? 32) || ((9 <=? c) && (c <=? 13)) then skip_spaces s' else s
  | [] => []
  end.

Fixpoint digits_value (acc : Z) (s : wstring) : Z :=
  match s with
  | c :: s' => if (48 <=? c) && (c <=? 57) then digits_value (acc * 10 + (c - 48)) s' else acc
  | [] => acc
  end.

Definition ULONG_MAX : Z := 0xFFFFFFFF.

Definition wcstoul10 (text : wstring) : Z :=
  let s := skip_spaces text in
  let '(negative, s) := match s with 45 :: s' => (true, s') | 43 :: s' => (false, s') | _ => (false, s) end in
  let v := digits_value 0 s in
  if ULONG_MAX <? v then ULONG_MAX else if negative : bool then (- v) mod 2 ^ 32 else v.

(** ** Options and results *)

Inductive AttachLifetime := Permanent | ProcessScoped.
Inductive VhdAllocation := FixedAllocation | DynamicAllocation.
Inductive AttachAccess := ReadOnly | ReadWrite.
Inductive DriveLetter := AssignLetter | SuppressLetter.

#[export] Instance AttachLifetime_eq_dec : EqDecision AttachLifetime.
Proof. solve_decision. Defined.

Record AttachOptions := {
  attachAccess : AttachAccess;
  attachLifetime : AttachLifetime;
  attachDriveLetter : DriveLetter
}.

Record AttachedVhd `{W : Win32} `{V : !VhdHost} := { attachedHandle : vhd_handle; physicalPath : wstring }.

Inductive ExportStep := ExportCopy | ExportList.

Record ExportResult := { exportError : Z; exportEntry : wstring; exportStep : ExportStep }.

Record CopyFailure := { failureCode : Z; failureEntry : wstring; failureStep : ExportStep }.

Definition withoutEntry (error : Z) : ExportResult :=
  {| exportError := error; exportEntry := []; exportStep := ExportCopy |}.

Definition code_of (r : w32 unit) : Z := match r with Ok _ => ERROR_SUCCESS | Err e => e end.

Definition attach_flags (options : AttachOptions) : Z :=
  Z.lor (match attachLifetime options with Permanent => ATTACH_VIRTUAL_DISK_FLAG_PERMANENT_LIFETIME | ProcessScoped => 0 end)
    (Z.lor (match attachAccess options with ReadOnly => ATTACH_VIRTUAL_DISK_FLAG_READ_ONLY | ReadWrite => 0 end)
       (match attachDriveLetter options with SuppressLetter => ATTACH_VIRTUAL_DISK_FLAG_NO_DRIVE_LETTER | AssignLetter => 0 end)).

(** ** The size of an import *)

Definition ULONGLONG_MAX : Z := 2 ^ 64 - 1.

(** [addFileSize]; [None] when the total would overflow. *)
Definition add_file_size (size : option Z) (total : Z) : option Z :=
  match size with
  | None => Some total
  | Some add => if ULONGLONG_MAX - total <? add then None else Some (total + add)
  end.

Definition capacity_of (totalSize : Z) : option Z :=
  let overhead := totalSize / 5 in
  if ULONGLONG_MAX - totalSize <? overhead then None
  else Some (if totalSize + overhead <? kMinSize then kMinSize else totalSize + overhead).

Section Vhd.
Context `{W : Win32} `{H : !EntryHost} `{I : !ImageHost} `{V : !VhdHost}.

Definition CheckElevation (d : disk) : Z :=
  match OpenProcessToken d with
  | Err e => e
  | Ok token =>
      match GetTokenElevation d token with
      | Ok elevated => if elevated then ERROR_SUCCESS else ERROR_PRIVILEGE_NOT_HELD
      | Err err => if err =? ERROR_SUCCESS then ERROR_PRIVILEGE_NOT_HELD else err
      end
  end.

(** [DWORD result = CheckElevation(); if (result != ERROR_SUCCESS) return result;] *)
Definition elevated {B} (refuse : Z -> B) (body : eff disk B) : eff disk B := fun d =>
  let result := CheckElevation d in
  if negb (result =? ERROR_SUCCESS) then (d, refuse result) else body d.

Definition close (h : vhd_handle) : eff disk unit := CloseVhdHandle h.
Definition close_file (h : handle) : eff disk unit := EntryHost.CloseHandle h.

Definition GenerateId : eff disk wstring :=
  (let! guid := CoCreateGuid in
   eret match guid with None => [] | Some guid => ImageFormat.GenerateId (StringFromGUID2 guid) end)%eff.

(** ** Disks *)

Definition device_of (path : wstring) : Z :=
  let ext := towlower <$> extension (WithExtendedPrefix path) in
  if bool_decide (ext = L ".vhdx") then VIRTUAL_STORAGE_TYPE_DEVICE_VHDX
  else if bool_decide (ext = L ".vhd") then VIRTUAL_STORAGE_TYPE_DEVICE_VHD
  else VIRTUAL_STORAGE_TYPE_DEVICE_VHDX.

Definition OpenVHD (path : wstring) : eff disk (w32 vhd_handle) :=
  OpenVirtualDisk (device_of path) (WithExtendedPrefix path).

(** A new disk, whose handle closes before the return. *)
Definition create_and_close (path : wstring) (params : create_disk) : eff disk Z :=
  (let! created := CreateVirtualDisk (WithExtendedPrefix path) params in
   match created with
   | Err e => eret e
   | Ok h => do! close h in eret ERROR_SUCCESS
   end)%eff.

Definition CreateVHD (path : wstring) (sizeBytes : Z) (allocation : VhdAllocation) : eff disk Z :=
  elevated (fun e => e)
    (create_and_close path {|
       MaximumSize := sizeBytes; ParentPath := None;
       createFlags := match allocation with
                      | DynamicAllocation => 0
                      | FixedAllocation => CREATE_VIRTUAL_DISK_FLAG_FULL_PHYSICAL_ALLOCATION
                      end |}).

Definition CreateDifferencingVHD (childPath parentPath : wstring) : eff disk Z :=
  elevated (fun e => e)
    (create_and_close childPath {|
       MaximumSize := kParentSize; ParentPath := Some (WithExtendedPrefix parentPath); createFlags := 0 |}).

Definition AttachVHD (path : wstring) (options : AttachOptions) : eff disk (res Z AttachedVhd) :=
  elevated Err
    (let! opened := OpenVHD path in
     match opened with
     | Err e => eret (Err e)
     | Ok h =>
         let! attached := AttachVirtualDisk h (attach_flags options) in
         match attached with
         | Err e => do! close h in eret (Err e)
         | Ok _ =>
             let! path := eread (fun d => GetVirtualDiskPhysicalPath d h) in
             match path with
             | Err e => do! DetachVirtualDisk h in do! close h in eret (Err e)
             | Ok diskPath => eret (Ok {| attachedHandle := h; physicalPath := c_str diskPath |})
             end
         end
     end)%eff.

(** The overload on an attach handle, and the one on a path. *)
Definition DetachHandle (attachHandle : vhd_handle) : eff disk Z :=
  elevated (fun e => e) (let! r := DetachVirtualDisk attachHandle in eret (code_of r))%eff.

Definition DetachVHD (path : wstring) : eff disk Z :=
  elevated (fun e => e)
    (let! opened := OpenVHD path in
     match opened with
     | Err e => eret e
     | Ok h => let! r := DetachHandle h in do! close h in eret r
     end)%eff.

Definition MergeVHD (childPath : wstring) : eff disk Z :=
  elevated (fun e => e)
    (let! opened := OpenVHD childPath in
     match opened with
     | Err e => eret e
     | Ok h => let! r := MergeVirtualDisk h 1 2 in do! close h in eret (code_of r)
     end)%eff.

(** ** Volumes *)

Definition target_disk_number (physicalDiskPath : wstring) : Z :=
  match find_text (L "PhysicalDrive") physicalDiskPath with
  | None => ULONG_MAX
  | Some pos => wcstoul10 (c_str (drop (pos + 13) physicalDiskPath))
  end.

(** The volume of the disk among these, or the first failure of an open. *)
Fixpoint scan_volumes (d : disk) (target : Z) (names : list wstring) (firstOpenFailure : Z) : res Z wstring :=
  match names with
  | [] => Err firstOpenFailure
  | volPath :: rest =>
      match OpenSharedW d (StripTrailingBackslash volPath) GENERIC_READ (Z.lor FILE_SHARE_READ FILE_SHARE_WRITE) 0 with
      | Err err => scan_volumes d target rest (if firstOpenFailure =? ERROR_SUCCESS then err else firstOpenFailure)
      | Ok hVolume =>
          match GetDeviceNumber d hVolume with
          | Ok number => if number =? target then Ok (EnsureTrailingBackslash volPath)
                         else scan_volumes d target rest firstOpenFailure
          | Err _ => scan_volumes d target rest firstOpenFailure
          end
      end
  end.

(** The result and the name of the volume. *)
Definition GetVolumeGuidForPhysicalDisk (d : disk) (physicalDiskPath : wstring) : Z * wstring :=
  let targetDiskNumber := target_disk_number physicalDiskPath in
  if targetDiskNumber =? ULONG_MAX then (ERROR_INVALID_PARAMETER, [])
  else match FindVolumes d with
  | Err e => (e, [])
  | Ok (first, others, findErr) =>
      match scan_volumes d targetDiskNumber (first :: others) ERROR_SUCCESS with
      | Ok guid => (ERROR_SUCCESS, guid)
      | Err firstOpenFailure =>
          let findEnumError := if negb (findErr =? ERROR_NO_MORE_FILES) then findErr else ERROR_SUCCESS in
          (if negb (findEnumError =? ERROR_SUCCESS) then findEnumError
           else if negb (firstOpenFailure =? ERROR_SUCCESS) then firstOpenFailure
           else ERROR_NOT_FOUND, [])
      end
  end.

(** The first string of the buffer.  An empty one ends the list. *)
Definition GetMountPointForGuid (d : disk) (volumeGuid : wstring) : Z * wstring :=
  let guidWithSlash := EnsureTrailingBackslash volumeGuid in
  let (charCount, lastError) := VolumePathNamesSize d guidWithSlash in
  if charCount =? 0 then (lastError, [])
  else match GetVolumePathNames d guidWithSlash charCount with
  | Err e => (e, [])
  | Ok buffer =>
      match c_str buffer with [] => (ERROR_NOT_FOUND, []) | first => (ERROR_SUCCESS, first) end
  end.

Definition GetVolumeGuidForVHD (d : disk) (vhdHandle : vhd_handle) : Z * wstring :=
  match GetVirtualDiskPhysicalPath d vhdHandle with
  | Err e => (e, [])
  | Ok physPath => GetVolumeGuidForPhysicalDisk d (c_str physPath)
  end.

(** ** A new disk *)

(** Runs a command without a window and waits for it. *)
Definition run_command (cmdLine : wstring) (milliseconds : Z) : eff disk Z :=
  (let! created := CreateProcessW cmdLine in
   match created with
   | Err e => eret e
   | Ok process =>
       let! (waitResult, waitErr) := WaitForProcess process (Some milliseconds) in
       if waitResult =? WAIT_TIMEOUT then
         do! TerminateProcess process in
         do! WaitForProcess process None in
         do! CloseProcess process in
         eret ERROR_TIMEOUT
       else if waitResult =? WAIT_FAILED then do! CloseProcess process in eret waitErr
       else
         let! code := eread (fun d => GetExitCodeProcess d process) in
         do! CloseProcess process in
         eret (if default 1 code =? 0 then ERROR_SUCCESS else ERROR_UNRECOGNIZED_VOLUME)
   end)%eff.

Definition FormatVolume (volumeGuid label : wstring) : eff disk Z :=
  run_command (L "format.com " ++ StripTrailingBackslash volumeGuid ++ L " /FS:NTFS /Q /Y /V:" ++ label) 30000.

Definition ch_quote : Z := 34.
Definition crlf : wstring := [13; 10].

Definition diskpart_script (vhdPath : wstring) : wstring :=
  L "SELECT VDISK FILE=" ++ ch_quote :: vhdPath ++ ch_quote :: crlf ++
  L "ATTACH VDISK" ++ crlf ++ L "ONLINE DISK" ++ crlf ++ L "ATTRIBUTES DISK CLEAR READONLY" ++ crlf ++
  L "CREATE PARTITION PRIMARY" ++ crlf ++
  L "FORMAT FS=NTFS LABEL=" ++ ch_quote :: L "LayerMount" ++ ch_quote :: L " QUICK" ++ crlf.

(** [writeAll] at a position. *)
Definition write_all (h : handle) (position : Z) (data : list Z) : eff disk Z :=
  (let! w := WriteFileAt h position data in
   eret match w with
        | Err e => e
        | Ok count => if count =? Z.of_nat (length data) then ERROR_SUCCESS else ERROR_WRITE_FAULT
        end)%eff.

(** The script as UTF-16 with its mark, and the result. *)
Definition write_script (hFile : handle) (script : wstring) : eff disk Z :=
  (let! werr := write_all hFile 0 [0xFF; 0xFE] in
   let! werr := (if werr =? ERROR_SUCCESS then write_all hFile 2 (flat_map (le_encode 2) script) else eret werr) in
   let! closed := ImageHost.CloseHandle hFile in
   eret (if werr =? ERROR_SUCCESS then code_of closed else werr))%eff.

Definition InitializeVHDDiskpart (vhdPath : wstring) : eff disk Z :=
  (let! tempDir := eread GetTempPathW in
   let! id := GenerateId in
   let scriptPath := c_str tempDir ++ L "ovfs_diskpart_" ++ id ++ L ".txt" in
   let! created := CreateFileW scriptPath GENERIC_WRITE 0 CREATE_ALWAYS FILE_ATTRIBUTE_NORMAL in
   match created with
   | Err e => eret e
   | Ok hFile =>
       let! werr := write_script hFile (diskpart_script vhdPath) in
       if negb (werr =? ERROR_SUCCESS) then do! DeleteFileW scriptPath in eret werr
       else
         let! r := run_command (L "diskpart /s " ++ ch_quote :: scriptPath ++ [ch_quote]) 60000 in
         do! DeleteFileW scriptPath in eret r
   end)%eff.

(** The loop over the delays: the last result and the volume. *)
Fixpoint discover_volume (physicalDiskPath : wstring) (delays : list Z) (discoverResult : Z)
  : eff disk (Z * wstring) :=
  match delays with
  | [] => eret (discoverResult, [])
  | delay :: rest =>
      (let! (result, guid) := eread (fun d => GetVolumeGuidForPhysicalDisk d physicalDiskPath) in
       if result =? ERROR_SUCCESS then eret (result, guid)
       else if negb (result =? ERROR_NOT_FOUND) && negb (result =? ERROR_DEV_NOT_EXIST) && negb (result =? ERROR_NOT_READY)
       then eret (result, guid)
       else do! Sleep delay in discover_volume physicalDiskPath rest result)%eff
  end.

Definition retry_later (result : Z) : bool :=
  (result =? ERROR_NOT_FOUND) || (result =? ERROR_DEV_NOT_EXIST) || (result =? ERROR_NOT_READY).

Definition one_partition (diskId partId : list Z) (totalDiskSize : Z) : disk_layout := {|
  layoutDiskId := diskId; StartingUsableOffset := kPartitionOffsetBytes;
  UsableLength := totalDiskSize - kPartitionOffsetBytes - kTailPaddingBytes;
  StartingOffset := kPartitionOffsetBytes;
  PartitionLength := totalDiskSize - kPartitionOffsetBytes - kTailPaddingBytes; PartitionId := partId |}.

Definition new_guid : eff disk (list Z) := (let! guid := CoCreateGuid in eret (default (replicate 16 0) guid))%eff.

(** A step that diskpart replaces when it fails. *)
Definition or_diskpart {B} (hDisk : handle) (vhdPath : wstring) (r : w32 B) (k : B -> eff disk Z) : eff disk Z :=
  match r with
  | Err _ => (do! close_file hDisk in InitializeVHDDiskpart vhdPath)%eff
  | Ok b => k b
  end.

(** Partitions and formats a new disk. *)
Definition InitializeVHD (physicalDiskPath vhdPath : wstring) : eff disk Z :=
  elevated (fun e => e)
    (let! opened := eread (fun d => OpenSharedW d physicalDiskPath (Z.lor GENERIC_READ GENERIC_WRITE)
                                      (Z.lor FILE_SHARE_READ FILE_SHARE_WRITE) 0) in
     match opened with
     | Err _ => InitializeVHDDiskpart vhdPath
     | Ok hDisk =>
         do! SetDiskOnline hDisk in
         let! geometry := eread (fun d => GetDiskSize d hDisk) in
         or_diskpart hDisk vhdPath geometry (fun totalDiskSize =>
           let! diskId := new_guid in
           let! created := CreateGptDisk hDisk diskId in
           or_diskpart hDisk vhdPath created (fun _ =>
             do! UpdateDiskProperties hDisk in
             if totalDiskSize - kPartitionOffsetBytes - kTailPaddingBytes <=? 0 then
               do! close_file hDisk in eret ERROR_DISK_TOO_FRAGMENTED
             else
               let! partId := new_guid in
               let! laidOut := SetDriveLayout hDisk (one_partition diskId partId totalDiskSize) in
               or_diskpart hDisk vhdPath laidOut (fun _ =>
                 do! UpdateDiskProperties hDisk in
                 do! close_file hDisk in
                 let! (discoverResult, volumeGuid) :=
                   discover_volume physicalDiskPath [100; 200; 400; 800; 1600] ERROR_NOT_FOUND in
                 if discoverResult =? ERROR_SUCCESS then FormatVolume volumeGuid (L "LayerMount")
                 else if retry_later discoverResult then InitializeVHDDiskpart vhdPath
                 else eret discoverResult)))
     end)%eff.

(** ** Import *)

(** [None] when the list ends with an error. *)
Definition ImportedRootEntries (d : disk) (directoryPath : wstring) : option (list wstring) :=
  match directory_list d (WithExtendedPrefix directoryPath) with
  | Ok (entries, None) => Some (filter (fun p => FirstSegmentOpensAsSidecar (filename p) = false) entries)
  | _ => None
  end.

(** The size of a regular file that can be read. *)
Definition counted_size (d : disk) (path : wstring) : option Z :=
  if is_regular_file d path then match file_size d path with Ok n => Some n | Err _ => None end else None.

Definition add_entry (d : disk) (path : wstring) (total : Z) : img Z :=
  img_of_option (add_file_size (counted_size d path) total) ERROR_ARITHMETIC_OVERFLOW.

(** The steps of the iterator, whose increment throws. *)
Fixpoint add_items (d : disk) (items : list walk_item) (total : Z) : img Z :=
  match items with
  | [] => Ok total
  | WalkFailure _ :: _ => Err Thrown
  | WalkEntry _ path _ :: rest => (let? total := add_entry d path total in add_items d rest total)%res
  end.

Fixpoint add_roots (d : disk) (rootEntries : list wstring) (total : Z) : img Z :=
  match rootEntries with
  | [] => Ok total
  | root :: rest =>
      (let? total := add_entry d root total in
       let? total := add_items d (default [] (recursive_walk d root)) total in
       add_roots d rest total)%res
  end.

Definition SizeToFit (d : disk) (rootEntries : list wstring) : img Z :=
  (let? totalSize := add_roots d rootEntries 0 in
   img_of_option (capacity_of totalSize) ERROR_ARITHMETIC_OVERFLOW)%res.

(** ** [TempMount] *)

(** [Mount]; [None] when [create_directories] throws. *)
Definition MountTemp (directory volumeGuid : wstring) : eff disk (option Z) :=
  (let! made := create_directories directory in
   match made with
   | Err _ => eret None
   | Ok _ =>
       let! mounted := SetVolumeMountPointW (EnsureTrailingBackslash directory) volumeGuid in
       match mounted with
       | Ok _ => eret (Some ERROR_SUCCESS)
       | Err err => do! remove_all directory in eret (Some err)
       end
   end)%eff.

Definition Unmount (directory : wstring) : eff disk Z :=
  (let! gone := DeleteVolumeMountPointW (EnsureTrailingBackslash directory) in
   let cleanupErr := match gone with
                     | Ok _ => ERROR_SUCCESS
                     | Err err => if negb (err =? ERROR_NOT_FOUND) && negb (err =? ERROR_PATH_NOT_FOUND)
                                  then err else ERROR_SUCCESS
                     end in
   let! removed := remove_all directory in
   eret (if negb (is_ok removed) && (cleanupErr =? ERROR_SUCCESS) then ERROR_DIR_NOT_EMPTY else cleanupErr))%eff.

(** The directory of a new one. *)
Definition temp_mount_directory (workingDir : wstring) : eff disk wstring :=
  (let! id := GenerateId in
   eret (JoinDirPath (WithExtendedPrefix workingDir) (L "temp_mounts\" ++ id)))%eff.

(** ** The copy of a tree *)

Definition CopySymlinkReplacing (src dst : wstring) : eff disk (w32 unit) :=
  (let! existing := eread (fun d => symlink_status d dst) in
   let! removed := (match existing with
                    | Ok NotFoundFile | Ok DirectoryFile | Err _ => eret (Ok tt)
                    | Ok _ => remove_path dst
                    end) in
   match removed with Err e => eret (Err e) | Ok _ => copy_symlink src dst end)%eff.

(** [frameEntries] are the entries from the iterator's on. *)
Record Frame := {
  frameSource : wstring;
  frameDst : wstring;
  frameEntries : list wstring;
  frameListEnd : option Z;
  frameAdvance : bool
}.

Definition copy_failure (r : w32 unit) (entry : wstring) (pending : list Frame) : list Frame * option CopyFailure :=
  match r with
  | Ok _ => (pending, None)
  | Err e => (pending, Some {| failureCode := e; failureEntry := entry; failureStep := ExportCopy |})
  end.

(** The frames, the last first, and the failure. *)
Definition copyEntry (entry dst : wstring) (pending : list Frame) : eff disk (list Frame * option CopyFailure) :=
  (let! status := eread (fun d => symlink_status d entry) in
   match status with
   | Err e => eret (copy_failure (Err e) entry pending)
   | Ok SymlinkFile => let! r := CopySymlinkReplacing entry dst in eret (copy_failure r entry pending)
   | Ok DirectoryFile =>
       let! made := create_directory_like dst entry in
       match made with
       | Err e => eret (copy_failure (Err e) entry pending)
       | Ok _ =>
           let! listed := eread (fun d => directory_list d entry) in
           eret match listed with
                | Err e => (pending, Some {| failureCode := e; failureEntry := entry; failureStep := ExportList |})
                | Ok (entries, listEnd) =>
                    ({| frameSource := entry; frameDst := dst; frameEntries := entries; frameListEnd := listEnd;
                        frameAdvance := false |} :: pending, None)
                end
       end
   | Ok RegularFile => let! r := copy_file_overwriting entry dst in eret (copy_failure r entry pending)
   | Ok _ => eret (copy_failure (Err ERROR_NOT_SUPPORTED) entry pending)
   end)%eff.

(** [it.increment]: the iterator, or the error of the listing. *)
Definition next_entry (frame : Frame) : list wstring * option Z :=
  if negb (frameAdvance frame) then (frameEntries frame, None)
  else match frameEntries frame with
       | [_] | [] => ([], frameListEnd frame)
       | _ :: rest => (rest, None)
       end.

(** One turn of the walk. *)
Definition copy_step (pending : list Frame) : eff disk (list Frame + option CopyFailure) :=
  match pending with
  | [] => eret (inr None)
  | frame :: below =>
      match next_entry frame with
      | (_, Some ec) =>
          eret (inr (Some {| failureCode := ec; failureEntry := frameSource frame; failureStep := ExportList |}))
      | ([], None) => eret (inl below)
      | (child :: rest, None) =>
          let frame := {| frameSource := frameSource frame; frameDst := frameDst frame; frameEntries := child :: rest;
                          frameListEnd := frameListEnd frame; frameAdvance := true |} in
          (let! (pending, failure) := copyEntry child (append (frameDst frame) (filename child)) (frame :: below) in
           eret match failure with Some f => inr (Some f) | None => inl pending end)%eff
      end
  end.

(** More turns than a volume has entries. *)
Definition copy_fuel : positive := (2 ^ 64)%positive.
Definition never_copied : option CopyFailure := Some {| failureCode := 0; failureEntry := []; failureStep := ExportCopy |}.

Definition CopyTree (top topDst : wstring) : eff disk (option CopyFailure) :=
  (let! (pending, failure) := copyEntry top topDst [] in
   match failure with
   | Some f => eret (Some f)
   | None => run_loop copy_fuel copy_step never_copied pending
   end)%eff.

Definition VolumePathOf (entry volumeRoot : wstring) : wstring :=
  let relative := lexically_relative entry volumeRoot in
  if bool_decide (relative = L ".") then L "\" else L "\" ++ relative.

Definition kSkipAtRoot : list wstring := [L "System Volume Information"; L "$RECYCLE.BIN"].

Definition SkippedAtVolumeRoot (d : disk) (name dstRoot : wstring) : bool :=
  existsb (wcsicmp_eq name) kSkipAtRoot || FirstSegmentOpensAsSidecar name ||
  match ExistingLongName d dstRoot name with
  | Some dstLongName => FirstSegmentOpensAsSidecar dstLongName
  | None => false
  end.

(** ** Import and export *)

Definition transient (access : AttachAccess) : AttachOptions :=
  {| attachAccess := access; attachLifetime := ProcessScoped; attachDriveLetter := SuppressLetter |}.

(** [discardVhd], and the [detachVhd] of an export. *)
Definition discard_vhd (attached : vhd_handle) (vhdFile : wstring) (error : Z) : eff disk (option Z) :=
  (do! DetachHandle attached in do! close attached in do! remove_path vhdFile in eret (Some error))%eff.

Definition detach_vhd (attached : vhd_handle) (error : Z) : eff disk Z :=
  (do! DetachHandle attached in do! close attached in eret error)%eff.

(** The entries are copied until one fails. *)
Fixpoint copy_roots (directory : wstring) (rootEntries : list wstring) : eff disk (w32 unit) :=
  match rootEntries with
  | [] => eret (Ok tt)
  | root :: rest =>
      (let! r := copy_recursively root (append directory (filename root)) in
       match r with Err e => eret (Err e) | Ok _ => copy_roots directory rest end)%eff
  end.

(** What follows the mount of an import. *)
Definition import_mounted (attached : vhd_handle) (vhdFile directory : wstring) (rootEntries : list wstring)
  : eff disk (option Z) :=
  (let! copied := copy_roots directory rootEntries in
   let! cleanupErr := Unmount directory in
   match copied with
   | Err _ => discard_vhd attached vhdFile ERROR_WRITE_FAULT
   | Ok _ => let! r := detach_vhd attached cleanupErr in eret (Some r)
   end)%eff.

(** What follows the attach. *)
Definition import_attached (workingDir : wstring) (attached : AttachedVhd) (vhdPath : wstring)
    (rootEntries : list wstring) : eff disk (option Z) :=
  let vhdFile := WithExtendedPrefix vhdPath in
  let h := attachedHandle attached in
  (let! result := InitializeVHD (physicalPath attached) vhdPath in
   if negb (result =? ERROR_SUCCESS) then discard_vhd h vhdFile result
   else
     let! (result, volumeGuid) := eread (fun d => GetVolumeGuidForPhysicalDisk d (physicalPath attached)) in
     if negb (result =? ERROR_SUCCESS) then discard_vhd h vhdFile result
     else
       let! directory := temp_mount_directory workingDir in
       let! mounted := MountTemp directory volumeGuid in
       match mounted with
       | None => do! close h in eret None
       | Some result =>
           if negb (result =? ERROR_SUCCESS) then discard_vhd h vhdFile result
           else import_mounted h vhdFile directory rootEntries
       end)%eff.

Definition ImportDirectory (workingDir directoryPath vhdPath : wstring) (sizeBytes : option Z)
  : eff disk (option Z) :=
  elevated Some
    (let! listed := eread (fun d => ImportedRootEntries d directoryPath) in
     match listed with
     | None => eret (Some ERROR_WRITE_FAULT)
     | Some rootEntries =>
         let! capacity := eread (fun d => match sizeBytes with Some n => Ok n | None => SizeToFit d rootEntries end) in
         match capacity with
         | Err (Code e) => eret (Some e)
         | Err _ => eret None
         | Ok capacity =>
             let! result := CreateVHD vhdPath capacity DynamicAllocation in
             if negb (result =? ERROR_SUCCESS) then eret (Some result)
             else
               let! attached := AttachVHD vhdPath (transient ReadWrite) in
               match attached with
               | Err result =>
                   let! removed := remove_path (WithExtendedPrefix vhdPath) in
                   eret (if is_ok removed then Some result else None)
               | Ok attached => import_attached workingDir attached vhdPath rootEntries
               end
         end
     end)%eff.

(** The entries of the volume root, each with its tree, until one fails. *)
Fixpoint export_entries (entries : list wstring) (listEnd : option Z) (srcRoot dstRoot : wstring)
  : eff disk (option CopyFailure) :=
  match entries with
  | [] => eret ((fun e => {| failureCode := e; failureEntry := srcRoot; failureStep := ExportList |}) <$> listEnd)
  | top :: rest =>
      (let! skipped := eread (fun d => SkippedAtVolumeRoot d (filename top) dstRoot) in
       if skipped then export_entries rest listEnd srcRoot dstRoot
       else
         let! failure := CopyTree top (append dstRoot (filename top)) in
         match failure with
         | Some f => eret (Some f)
         | None => export_entries rest listEnd srcRoot dstRoot
         end)%eff
  end.

Definition export_mounted (attached : vhd_handle) (directory dstRoot : wstring) : eff disk (option ExportResult) :=
  (let! made := create_directories dstRoot in
   match made with
   | Err _ => do! Unmount directory in do! close attached in eret None
   | Ok _ =>
       let! listed := eread (fun d => directory_list d directory) in
       let! failure := (match listed with
                        | Err e => eret (Some {| failureCode := e; failureEntry := directory; failureStep := ExportList |})
                        | Ok (entries, listEnd) => export_entries entries listEnd directory dstRoot
                        end) in
       let! unmounted := Unmount directory in
       let! cleanupErr := detach_vhd attached unmounted in
       eret (Some match failure with
                  | Some f => {| exportError := failureCode f; exportEntry := VolumePathOf (failureEntry f) directory;
                                 exportStep := failureStep f |}
                  | None => withoutEntry cleanupErr
                  end)
   end)%eff.

Definition ExportToDirectory (workingDir vhdPath directoryPath : wstring) : eff disk (option ExportResult) :=
  elevated (fun e => Some (withoutEntry e))
    (let! attached := AttachVHD vhdPath (transient ReadOnly) in
     match attached with
     | Err result => eret (Some (withoutEntry result))
     | Ok attached =>
         let h := attachedHandle attached in
         let! (result, volumeGuid) := eread (fun d => GetVolumeGuidForPhysicalDisk d (physicalPath attached)) in
         if negb (result =? ERROR_SUCCESS) then
           let! e := detach_vhd h result in eret (Some (withoutEntry e))
         else
           let! directory := temp_mount_directory workingDir in
           let! mounted := MountTemp directory volumeGuid in
           match mounted with
           | None => do! close h in eret None
           | Some result =>
               if negb (result =? ERROR_SUCCESS) then
                 let! e := detach_vhd h result in eret (Some (withoutEntry e))
               else export_mounted h directory (WithExtendedPrefix directoryPath)
           end
     end)%eff.

(** The constructor of the manager: whether it returns. *)
Definition NewVHDLayerManager (workingDir : wstring) : eff disk bool :=
  (let! made := create_directories (WithExtendedPrefix workingDir) in eret (is_ok made))%eff.
End Vhd.
