(* ===== verification/VhdFacts.v ===== *)
(** * What the operations on virtual disks promise

    The capacity of an import, the volume of a disk, the copy of a tree
    against its recursive reference, and that no operation leaves a handle of
    a virtual disk open. *)
From S2P Require Export VhdManager.
Open Scope Z_scope.

(** ** The capacity of an import *)

Definition sum_of (sizes : list Z) : Z := foldr Z.add 0 sizes.

Lemma sum_of_cons x l : sum_of (x :: l) = x + sum_of l.
Proof. done. Qed.

Lemma sum_of_app l l' : sum_of (l ++ l') = sum_of l + sum_of l'.
Proof. induction l as [|x l IH]; [done|]. change (x + sum_of (l ++ l') = x + sum_of l + sum_of l'). lia. Qed.

Lemma sum_of_nonneg l : Forall (fun x => 0 <= x) l -> 0 <= sum_of l.
Proof. induction 1; [done|]. rewrite sum_of_cons. lia. Qed.

(** The documented capacity. *)
Definition documented_capacity (total : Z) : Z := Z.max kMinSize (total + total / 5).

Lemma capacity_of_spec total : 0 <= total <= ULONGLONG_MAX ->
  capacity_of total = if total + total / 5 <=? ULONGLONG_MAX then Some (documented_capacity total) else None.
Proof.
  unfold capacity_of, documented_capacity, ULONGLONG_MAX, kMinSize. intros Ht.
  destruct (Z.ltb_spec (2 ^ 64 - 1 - total) (total / 5)), (Z.leb_spec (total + total / 5) (2 ^ 64 - 1)); try lia; [done|].
  f_equal. destruct (Z.ltb_spec (total + total / 5) (100 * 1024 * 1024)); lia.
Qed.

Section Size.
Context `{W : Win32} `{I : !ImageHost} `{V : !VhdHost}.

(** The files that an import counts, and whether an iteration throws first. *)
Fixpoint items_before_failure (items : list walk_item) : list wstring * bool :=
  match items with
  | [] => ([], false)
  | WalkFailure _ :: _ => ([], true)
  | WalkEntry _ path _ :: rest => let (paths, failed) := items_before_failure rest in (path :: paths, failed)
  end.

Fixpoint listed_files (d : disk) (roots : list wstring) : list wstring * bool :=
  match roots with
  | [] => ([], false)
  | root :: rest =>
      let (below, failed) := items_before_failure (default [] (recursive_walk d root)) in
      if failed then (root :: below, true)
      else let (others, failed) := listed_files d rest in (root :: below ++ others, failed)
  end.

Definition sizes_of (d : disk) (paths : list wstring) : list Z := default 0 ∘ counted_size d <$> paths.

(** A size is a 64-bit number. *)
Definition sizes_in_range (d : disk) : Prop := forall p n, file_size d p = Ok n -> 0 <= n <= ULONGLONG_MAX.

Context (d : disk) (Hsizes : sizes_in_range d).

Lemma counted_size_range p : 0 <= default 0 (counted_size d p) <= ULONGLONG_MAX.
Proof using Hsizes.
  unfold counted_size. destruct (is_regular_file d p); [|done]. destruct (file_size d p) eqn:Es; [|done].
  by apply Hsizes in Es.
Qed.

Lemma sizes_of_nonneg paths : 0 <= sum_of (sizes_of d paths).
Proof using Hsizes. apply sum_of_nonneg, Forall_fmap, Forall_true. intros p. apply counted_size_range. Qed.

(** A sum of sizes, with the overflow at the first prefix that exceeds the
    range. *)
Definition summed (total : Z) (sizes : list Z) (failed : bool) : img Z :=
  if ULONGLONG_MAX <? total + sum_of sizes then Err (Code ERROR_ARITHMETIC_OVERFLOW)
  else if failed then Err Thrown else Ok (total + sum_of sizes).

Lemma add_entry_summed p total : 0 <= total <= ULONGLONG_MAX ->
  add_entry d p total = summed total [default 0 (counted_size d p)] false.
Proof using Hsizes.
  intros Ht. pose proof (counted_size_range p). unfold add_entry, add_file_size, summed. cbn.
  destruct (counted_size d p) as [n|]; cbn in *; rewrite ?Z.add_0_r.
  - destruct (Z.ltb_spec (ULONGLONG_MAX - total) n), (Z.ltb_spec ULONGLONG_MAX (total + n)); try lia; done.
  - by rewrite (proj2 (Z.ltb_ge _ _)) by lia.
Qed.

(** One file before the others. *)
Lemma summed_cons x total sizes failed : 0 <= x -> 0 <= total -> 0 <= sum_of sizes ->
  (let? t := summed total [x] false in summed t sizes failed)%res = summed total (x :: sizes) failed.
Proof.
  intros Hx Ht Hs. unfold summed. rewrite !sum_of_cons. change (sum_of []) with 0.
  rewrite Z.add_0_r, !Z.add_assoc.
  destruct (Z.ltb_spec ULONGLONG_MAX (total + x)); [|done].
  rewrite (proj2 (Z.ltb_lt _ _)); [done|]. lia.
Qed.

Lemma add_items_summed items total : 0 <= total <= ULONGLONG_MAX ->
  let (paths, failed) := items_before_failure items in
  add_items d items total = summed total (sizes_of d paths) failed.
Proof using Hsizes.
  revert total. induction items as [|[depth p dir|depth] items IH]; intros total Ht; cbn [items_before_failure add_items].
  - unfold summed. cbn. rewrite Z.add_0_r. by rewrite (proj2 (Z.ltb_ge _ _)) by lia.
  - destruct (items_before_failure items) as [paths failed].
    change (sizes_of d (p :: paths)) with (default 0 (counted_size d p) :: sizes_of d paths).
    pose proof (counted_size_range p). rewrite <- summed_cons by (try apply sizes_of_nonneg; lia).
    rewrite <- add_entry_summed by done. destruct (add_entry d p total) as [t|e] eqn:Ea; [|done].
    apply IH. rewrite add_entry_summed in Ea by done. unfold summed in Ea. cbn in Ea.
    destruct (Z.ltb_spec ULONGLONG_MAX (total + (default 0 (counted_size d p) + 0))); [done|]. injection Ea as <-. lia.
  - unfold summed. cbn. rewrite Z.add_0_r. by rewrite (proj2 (Z.ltb_ge _ _)) by lia.
Qed.

Lemma summed_app total sizes others failed :
  0 <= total -> 0 <= sum_of sizes -> 0 <= sum_of others ->
  (let? t := summed total sizes false in summed t others failed)%res = summed total (sizes ++ others) failed.
Proof.
  intros Ht Hs Ho. unfold summed. rewrite sum_of_app, !Z.add_assoc.
  destruct (Z.ltb_spec ULONGLONG_MAX (total + sum_of sizes)); [|done]. by rewrite (proj2 (Z.ltb_lt _ _)) by lia.
Qed.

Lemma summed_range total sizes failed t : 0 <= total -> 0 <= sum_of sizes ->
  summed total sizes failed = Ok t -> 0 <= t <= ULONGLONG_MAX.
Proof.
  intros Ht Hs. unfold summed. destruct (Z.ltb_spec ULONGLONG_MAX (total + sum_of sizes)); [done|].
  destruct failed; [done|]. intros [= <-]. lia.
Qed.

Lemma add_roots_summed roots total : 0 <= total <= ULONGLONG_MAX ->
  let (paths, failed) := listed_files d roots in
  add_roots d roots total = summed total (sizes_of d paths) failed.
Proof using Hsizes.
  revert total. induction roots as [|root roots IH]; intros total Ht; cbn [listed_files add_roots].
  { unfold summed. cbn. rewrite Z.add_0_r. by rewrite (proj2 (Z.ltb_ge _ _)) by lia. }
  pose proof (counted_size_range root) as Hr.
  destruct (items_before_failure (default [] (recursive_walk d root))) as [below failed] eqn:Eb.
  assert (Hitems : forall t, 0 <= t <= ULONGLONG_MAX ->
    add_items d (default [] (recursive_walk d root)) t = summed t (sizes_of d below) failed).
  { intros t Htr. pose proof (add_items_summed (default [] (recursive_walk d root)) t Htr) as Hi. by rewrite Eb in Hi. }
  assert (Hgoal : forall tail failed', 0 <= sum_of tail ->
    (forall t, summed total [default 0 (counted_size d root)] false = Ok t ->
       (let? t' := add_items d (default [] (recursive_walk d root)) t in add_roots d roots t')%res = summed t tail failed') ->
    (let? t := add_entry d root total in
     let? t := add_items d (default [] (recursive_walk d root)) t in add_roots d roots t)%res =
    summed total (default 0 (counted_size d root) :: tail) failed').
  { intros tail failed' Htail Hk. rewrite <- summed_cons by lia. rewrite add_entry_summed by done.
    destruct (summed total [default 0 (counted_size d root)] false) as [t|e] eqn:Es; [|done]. by apply Hk. }
  assert (Hrange : forall t, summed total [default 0 (counted_size d root)] false = Ok t -> 0 <= t <= ULONGLONG_MAX).
  { intros t. apply summed_range; cbn; lia. }
  destruct failed.
  - change (sizes_of d (root :: below)) with (default 0 (counted_size d root) :: sizes_of d below).
    apply Hgoal; [apply sizes_of_nonneg|]. intros t Es. rewrite (Hitems t (Hrange t Es)). unfold summed.
    by destruct (ULONGLONG_MAX <? t + sum_of (sizes_of d below)).
  - destruct (listed_files d roots) as [others failed'] eqn:Eo.
    change (sizes_of d (root :: below ++ others)) with (default 0 (counted_size d root) :: sizes_of d (below ++ others)).
    assert (sizes_of d (below ++ others) = sizes_of d below ++ sizes_of d others) as -> by apply fmap_app.
    pose proof (sizes_of_nonneg below). pose proof (sizes_of_nonneg others).
    apply Hgoal; [rewrite sum_of_app; lia|]. intros t Es. pose proof (Hrange t Es). rewrite Hitems by done.
    rewrite <- summed_app by lia. destruct (summed t (sizes_of d below) false) as [t'|e] eqn:Et; [|done].
    apply IH. eapply summed_range; [| |exact Et]; lia.
Qed.
End Size.

(** C31: the capacity of an import without a size is the documented one: the
    sizes of its files, a fifth more, and at least 100 MiB.  When that does not
    fit in 64 bits the import ends with [ERROR_ARITHMETIC_OVERFLOW] and never
    with a size that wrapped; a listing that fails while it is walked throws. *)
Theorem SizeToFit_capacity `{W : Win32} `{I : !ImageHost} `{V : !VhdHost} d roots :
  sizes_in_range d ->
  let (paths, failed) := listed_files d roots in
  let total := sum_of (sizes_of d paths) in
  SizeToFit d roots =
    (if ULONGLONG_MAX <? total then Err (Code ERROR_ARITHMETIC_OVERFLOW)
     else if failed then Err Thrown
     else if ULONGLONG_MAX <? total + total / 5 then Err (Code ERROR_ARITHMETIC_OVERFLOW)
     else Ok (documented_capacity total)).
Proof.
  intros Hs. pose proof (add_roots_summed d Hs roots 0 ltac:(unfold ULONGLONG_MAX; lia)) as Ha.
  destruct (listed_files d roots) as [paths failed]. cbv zeta. unfold SizeToFit. rewrite Ha. unfold summed.
  rewrite Z.add_0_l. pose proof (sizes_of_nonneg d Hs paths). destruct (Z.ltb_spec ULONGLONG_MAX (sum_of (sizes_of d paths))); [done|].
  destruct failed; [done|]. rewrite capacity_of_spec by lia. unfold documented_capacity.
  by destruct (Z.ltb_spec ULONGLONG_MAX (sum_of (sizes_of d paths) + sum_of (sizes_of d paths) / 5)),
    (Z.leb_spec (sum_of (sizes_of d paths) + sum_of (sizes_of d paths) / 5) ULONGLONG_MAX); try lia.
Qed.

(** ** The volume of a disk *)
Section Volume.
Context `{W : Win32} `{H : !EntryHost} `{V : !VhdHost}.

(** Whether a volume opens and is on the disk; the error when it does not
    open. *)
Definition volume_open (d : disk) (vol : wstring) : w32 handle :=
  OpenSharedW d (StripTrailingBackslash vol) GENERIC_READ (Z.lor FILE_SHARE_READ FILE_SHARE_WRITE) 0.

Definition on_disk (d : disk) (target : Z) (vol : wstring) : bool :=
  match volume_open d vol with
  | Ok h => match GetDeviceNumber d h with Ok n => n =? target | Err _ => false end
  | Err _ => false
  end.

Definition open_error (d : disk) (vol : wstring) : Z :=
  match volume_open d vol with Ok _ => ERROR_SUCCESS | Err e => e end.

(** The first code that is a failure. *)
Definition first_failure (codes : list Z) : Z := default ERROR_SUCCESS (find (fun e => negb (e =? ERROR_SUCCESS)) codes).

Lemma scan_volumes_spec d target names e :
  scan_volumes d target names e =
    match find (on_disk d target) names with
    | Some vol => Ok (EnsureTrailingBackslash vol)
    | None => Err (first_failure (e :: (open_error d <$> names)))
    end.
Proof.
  revert e. induction names as [|vol names IH]; intros e; cbn [scan_volumes find].
  { unfold first_failure. cbn. by destruct (Z.eqb_spec e ERROR_SUCCESS) as [->|]. }
  change (on_disk d target vol) with
    (match volume_open d vol with
     | Ok h => match GetDeviceNumber d h with Ok n => n =? target | Err _ => false end
     | Err _ => false
     end).
  rewrite fmap_cons. change (open_error d vol) with (match volume_open d vol with Ok _ => ERROR_SUCCESS | Err e => e end).
  unfold volume_open. destruct (OpenSharedW d _ _ _ _) as [h|err].
  - assert (Hskip : first_failure (e :: ERROR_SUCCESS :: (open_error d <$> names)) =
                    first_failure (e :: (open_error d <$> names))) by (unfold first_failure; cbn; by destruct (negb _)).
    destruct (GetDeviceNumber d h) as [n|]; [destruct (n =? target)|]; try done; by rewrite IH, Hskip.
  - rewrite IH. destruct (find _ names); [done|]. f_equal. unfold first_failure. cbn.
    destruct (Z.eqb_spec e ERROR_SUCCESS) as [->|He]; cbn; [done|]. by rewrite (proj2 (Z.eqb_neq _ _)).
Qed.

(** The lookup of a disk's volume gives the first volume, in the order of
    the enumeration, that opens and reports the disk's number.  When there is
    none, the error of the enumeration comes first, then the first open that
    failed, and [ERROR_NOT_FOUND] only when nothing failed. *)
Theorem GetVolumeGuid_first_match d physicalDiskPath first others findErr :
  target_disk_number physicalDiskPath <> ULONG_MAX ->
  FindVolumes d = Ok (first, others, findErr) ->
  GetVolumeGuidForPhysicalDisk d physicalDiskPath =
    match find (on_disk d (target_disk_number physicalDiskPath)) (first :: others) with
    | Some vol => (ERROR_SUCCESS, EnsureTrailingBackslash vol)
    | None =>
        let endError := if findErr =? ERROR_NO_MORE_FILES then ERROR_SUCCESS else findErr in
        (first_failure (endError :: (open_error d <$> first :: others) ++ [ERROR_NOT_FOUND]), [])
    end.
Proof.
  intros Ht Hf. unfold GetVolumeGuidForPhysicalDisk. rewrite (proj2 (Z.eqb_neq _ _)) by done. rewrite Hf, scan_volumes_spec.
  destruct (find _ (first :: others)); [done|]. cbv zeta. f_equal.
  assert (Hs : forall l, first_failure (l ++ [ERROR_NOT_FOUND]) =
                         if negb (first_failure l =? ERROR_SUCCESS) then first_failure l else ERROR_NOT_FOUND).
  { intros l. unfold first_failure. induction l as [|x l IH]; [done|]. cbn. destruct (Z.eqb_spec x ERROR_SUCCESS) as [->|Hx].
    - cbn. exact IH.
    - cbn. by rewrite (proj2 (Z.eqb_neq _ _)). }
  set (codes := open_error d <$> first :: others).
  assert (He : first_failure (ERROR_SUCCESS :: codes) = first_failure codes) by done. rewrite He.
  unfold negb at 1. destruct (findErr =? ERROR_NO_MORE_FILES) eqn:En; cbn [negb].
  - rewrite app_comm_cons, Hs, He. done.
  - destruct (Z.eqb_spec findErr ERROR_SUCCESS) as [->|Hne]; cbn [negb].
    + rewrite app_comm_cons, Hs, He. done.
    + unfold first_failure. cbn. by rewrite (proj2 (Z.eqb_neq _ _)).
Qed.
End Volume.

(** ** Loops that end after a number of turns *)
Section Turns.
Context {S A B : Type} (step : A -> eff S (A + B)).

Inductive ends : nat -> A -> S -> S -> B -> Prop :=
| ends_last a s s' b : step a s = (s', inr b) -> ends 1 a s s' b
| ends_turn n a s a1 s1 s' b : step a s = (s1, inl a1) -> ends n a1 s1 s' b -> ends (Datatypes.S n) a s s' b.

Lemma ends_pos n a s s' b : ends n a s s' b -> (0 < n)%nat.
Proof. destruct 1; lia. Qed.

Lemma eloop_ends fuel n a s s' b :
  ends n a s s' b ->
  if decide (Z.of_nat n <= Zpos fuel) then eloop fuel step a s = (s', inr b)
  else exists a1 s1, eloop fuel step a s = (s1, inl a1) /\ ends (n - Pos.to_nat fuel) a1 s1 s' b.
Proof.
  assert (Hstep : forall n a s, ends n a s s' b ->
    if decide (n = 1%nat) then step a s = (s', inr b)
    else exists a1 s1, step a s = (s1, inl a1) /\ ends (n - 1) a1 s1 s' b).
  { intros n0 a0 s0 Hn. destruct Hn as [? ? ? ? E|? ? ? ? ? ? ? E Hn]; [by rewrite decide_True|].
    pose proof (ends_pos _ _ _ _ _ Hn). rewrite decide_False by lia. eexists _, _. split; [exact E|].
    by replace (Datatypes.S _ - 1)%nat with n0 by lia. }
  revert n a s. induction fuel as [p IH|p IH|]; intros n a s Hn; cbn [eloop]; unfold ebind, eret.
  - pose proof (ends_pos _ _ _ _ _ Hn). specialize (Hstep n a s Hn). destruct (decide (n = 1%nat)) as [->|Hn1].
    { rewrite Hstep. rewrite decide_True by lia. done. }
    destruct Hstep as (a1 & s1 & -> & H1). pose proof (IH _ _ _ H1) as I1.
    destruct (decide (Z.of_nat (n - 1) <= Zpos p)); [rewrite I1, decide_True by lia; done|].
    destruct I1 as (a2 & s2 & -> & H2). pose proof (IH _ _ _ H2) as I2.
    destruct (decide (Z.of_nat (n - 1 - Pos.to_nat p) <= Zpos p)); [rewrite I2, decide_True by lia; done|].
    rewrite decide_False by lia. destruct I2 as (a3 & s3 & -> & H3). exists a3, s3. split; [done|].
    by replace (n - Pos.to_nat p~1)%nat with (n - 1 - Pos.to_nat p - Pos.to_nat p)%nat by lia.
  - pose proof (ends_pos _ _ _ _ _ Hn). pose proof (IH _ _ _ Hn) as I1.
    destruct (decide (Z.of_nat n <= Zpos p)); [rewrite I1, decide_True by lia; done|].
    destruct I1 as (a2 & s2 & -> & H2). pose proof (IH _ _ _ H2) as I2.
    destruct (decide (Z.of_nat (n - Pos.to_nat p) <= Zpos p)); [rewrite I2, decide_True by lia; done|].
    rewrite decide_False by lia. destruct I2 as (a3 & s3 & -> & H3). exists a3, s3. split; [done|].
    by replace (n - Pos.to_nat p~0)%nat with (n - Pos.to_nat p - Pos.to_nat p)%nat by lia.
  - pose proof (ends_pos _ _ _ _ _ Hn). specialize (Hstep n a s Hn). destruct (decide (n = 1%nat)) as [->|Hn1].
    { rewrite Hstep. rewrite decide_True by lia. done. }
    destruct Hstep as (a1 & s1 & -> & H1). rewrite decide_False by lia. exists a1, s1. split; [done|].
    by replace (n - Pos.to_nat 1)%nat with (n - 1)%nat by lia.
Qed.

Lemma run_loop_ends fuel never n a s s' b :
  ends n a s s' b -> Z.of_nat n <= Zpos fuel -> run_loop fuel step never a s = (s', b).
Proof.
  intros Hn Hf. pose proof (eloop_ends fuel n a s s' b Hn) as He. rewrite decide_True in He by done.
  unfold run_loop, ebind, eret. by rewrite He.
Qed.
End Turns.

(** ** The copy of a tree *)

(** A tree of the source: an entry that the walk does not enter, or a
    directory with its entries and the error that ends their list. *)
Inductive source_tree :=
| Leaf (path : wstring)
| Node (path : wstring) (children : list source_tree) (listEnd : option Z).

Definition tree_root (t : source_tree) : wstring := match t with Leaf p => p | Node p _ _ => p end.

Fixpoint tree_paths (t : source_tree) : list wstring :=
  match t with Leaf p => [p] | Node p cs _ => p :: concat (map tree_paths cs) end.

(** The entries of a tree. *)
Fixpoint tree_size (t : source_tree) : nat :=
  match t with Leaf _ => 1 | Node _ cs _ => S (list_sum (map tree_size cs)) end.

Lemma source_tree_rect' (P : source_tree -> Prop) :
  (forall p, P (Leaf p)) -> (forall p cs e, Forall P cs -> P (Node p cs e)) -> forall t, P t.
Proof.
  intros Hl Hn. fix IH 1. intros [p|p cs e]; [apply Hl|]. apply Hn.
  induction cs as [|c cs IHcs]; constructor; [apply IH|exact IHcs].
Qed.

Definition list_failure (path : wstring) (ec : Z) : CopyFailure :=
  {| failureCode := ec; failureEntry := path; failureStep := ExportList |}.

(** Visits in order until one fails. *)
Definition copy_list {D A} (visit : A -> eff D (option CopyFailure)) : list A -> option CopyFailure -> eff D (option CopyFailure) :=
  fix go cs tail :=
    match cs with
    | [] => eret tail
    | c :: cs =>
        (let! failure := visit c in
         match failure with Some f => eret (Some f) | None => go cs tail end)%eff
    end.

Section Tree.
Context `{W : Win32} `{I : !ImageHost} `{V : !VhdHost}.

(** The disk shows the tree: its files and links, and its directories with
    their lists.  A list that is empty ended without an error, for else the
    iterator would not have been made. *)
Fixpoint shows (d : disk) (t : source_tree) : Prop :=
  match t with
  | Leaf p => symlink_status d p <> Ok DirectoryFile \/ is_ok (directory_list d p) = false
  | Node p cs e =>
      symlink_status d p = Ok DirectoryFile /\ directory_list d p = Ok (map tree_root cs, e) /\
      (cs = [] -> e = None) /\ foldr (fun c P => shows d c /\ P) True cs
  end.

(** The reference: the recursive copy. *)
Fixpoint copy_tree (t : source_tree) (dst : wstring) : eff disk (option CopyFailure) :=
  match t with
  | Leaf p => (let! r := copyEntry p dst [] in eret (snd r))%eff
  | Node p cs e =>
      (let! made := create_directory_like dst p in
       match made with
       | Err ec => eret (Some {| failureCode := ec; failureEntry := p; failureStep := ExportCopy |})
       | Ok _ => copy_list (fun c => copy_tree c (append dst (filename (tree_root c)))) cs (list_failure p <$> e)
       end)%eff
  end.

(** The destinations [dests] are apart from the sources [sources]: a copy to
    one changes neither the type nor the list of the other. *)
Class TreesApart (sources dests : wstring -> Prop) : Prop := {
  dest_child q p : sources p -> dests q -> dests (append q (filename p));
  apart_link p src q d : sources p -> dests q ->
    symlink_status (fst (copy_symlink src q d)) p = symlink_status d p /\
    directory_list (fst (copy_symlink src q d)) p = directory_list d p;
  apart_remove p q d : sources p -> dests q ->
    symlink_status (fst (remove_path q d)) p = symlink_status d p /\
    directory_list (fst (remove_path q d)) p = directory_list d p;
  apart_file p src q d : sources p -> dests q ->
    symlink_status (fst (copy_file_overwriting src q d)) p = symlink_status d p /\
    directory_list (fst (copy_file_overwriting src q d)) p = directory_list d p;
  apart_directory p src q d : sources p -> dests q ->
    symlink_status (fst (create_directory_like q src d)) p = symlink_status d p /\
    directory_list (fst (create_directory_like q src d)) p = directory_list d p
}.

Context (sources dests : wstring -> Prop) `{TA : !TreesApart sources dests}.

(** The sources look the same. *)
Definition same_sources (d d' : disk) : Prop :=
  forall p, sources p -> symlink_status d' p = symlink_status d p /\ directory_list d' p = directory_list d p.

Lemma same_sources_refl d : same_sources d d.
Proof. done. Qed.

Lemma same_sources_trans d1 d2 d3 : same_sources d1 d2 -> same_sources d2 d3 -> same_sources d1 d3.
Proof. intros H1 H2 p Hp. destruct (H1 p Hp) as [<- <-]. by apply H2. Qed.

Lemma shows_same d d' t : same_sources d d' -> Forall sources (tree_paths t) -> shows d t -> shows d' t.
Proof.
  intros Hs. induction t as [p|p cs e IH] using source_tree_rect'; cbn [tree_paths shows].
  - intros [Hp _]%Forall_cons. by destruct (Hs p Hp) as [-> ->].
  - intros [Hp Hcs]%Forall_cons (H1 & H2 & H3 & H4). destruct (Hs p Hp) as [-> ->]. split_and!; try done.
    clear H2 H3. induction IH as [|c cs Hc _ IHcs]; [done|]. cbn in Hcs, H4. apply Forall_app in Hcs as [Hc1 Hcs].
    destruct H4. split; [by apply Hc|by apply IHcs].
Qed.

Lemma shows_same_list d d' cs :
  same_sources d d' -> Forall sources (concat (map tree_paths cs)) ->
  foldr (fun c P => shows d c /\ P) True cs -> foldr (fun c P => shows d' c /\ P) True cs.
Proof.
  intros Hs. induction cs as [|c cs IHcs]; cbn; [done|]. intros [H1 H2]%Forall_app [H3 H4].
  split; [by eapply shows_same|by apply IHcs].
Qed.

Lemma CopySymlinkReplacing_same src dst d : dests dst -> same_sources d (fst (CopySymlinkReplacing src dst d)).
Proof using TA.
  intros Hd. unfold CopySymlinkReplacing, ebind, eread, eret.
  assert (Hl : forall d1, same_sources d1 (fst (copy_symlink src dst d1))) by (intros d1 p Hp; by apply apart_link).
  assert (Hr : forall d1, same_sources d1 (fst (remove_path dst d1))) by (intros d1 p Hp; by apply apart_remove).
  destruct (symlink_status d dst) as [[]|]; try (specialize (Hl d); by destruct (copy_symlink src dst d) as [d2 []]);
    specialize (Hr d); destruct (remove_path dst d) as [d1 [[]|e]]; try exact Hr;
    eapply same_sources_trans; [exact Hr|apply Hl| exact Hr|apply Hl|exact Hr|apply Hl].
Qed.

Lemma create_directory_same dst p d : dests dst -> same_sources d (fst (create_directory_like dst p d)).
Proof using TA. intros Hd q Hq. by apply apart_directory. Qed.

(** An entry that is no directory to enter: nothing is pushed. *)
Lemma copyEntry_leaf p dst pending d :
  sources p -> dests dst -> shows d (Leaf p) ->
  exists d1 f, copyEntry p dst pending d = (d1, (pending, f)) /\ copyEntry p dst [] d = (d1, ([], f)) /\ same_sources d d1.
Proof using TA.
  intros Hp Hd. unfold copyEntry, ebind, eread, eret. cbn [shows]. intros Hl.
  assert (Hcf : forall r l, copy_failure r p l = (l, snd (copy_failure r p []))) by by intros [].
  destruct (symlink_status d p) as [[]|e] eqn:Es.
  all: try (eexists _, _; split_and!; [apply f_equal, Hcf|apply f_equal, Hcf|apply same_sources_refl]).
  - pose proof (CopySymlinkReplacing_same p dst d Hd) as Hs. destruct (CopySymlinkReplacing p dst d) as [d1 r].
    eexists _, _. split_and!; [apply f_equal, Hcf|apply f_equal, Hcf|done].
  - pose proof (create_directory_same dst p d Hd) as Hs. destruct (create_directory_like dst p d) as [d1 [[]|e]].
    + destruct Hl as [Hl|Hl]; [done|]. destruct (Hs p Hp) as [_ Hs2]. cbn [fst] in Hs2. rewrite Hs2.
      destruct (directory_list d p); [done|]. by eexists _, _.
    + eexists _, _. split_and!; [apply f_equal, Hcf|apply f_equal, Hcf|done].
  - assert (Hs : same_sources d (fst (copy_file_overwriting p dst d))) by (intros q Hq; by apply apart_file).
    destruct (copy_file_overwriting p dst d) as [d1 r].
    eexists _, _. split_and!; [apply f_equal, Hcf|apply f_equal, Hcf|done].
Qed.

(** A directory is made and its frame pushed, or the copy fails. *)
Lemma copyEntry_node p cs e dst pending d :
  sources p -> dests dst -> shows d (Node p cs e) ->
  copyEntry p dst pending d =
    let (d1, made) := create_directory_like dst p d in
    (d1, match made with
         | Ok _ => ({| frameSource := p; frameDst := dst; frameEntries := map tree_root cs; frameListEnd := e;
                       frameAdvance := false |} :: pending, None)
         | Err ec => (pending, Some {| failureCode := ec; failureEntry := p; failureStep := ExportCopy |})
         end).
Proof using TA.
  intros Hp Hd (Hst & Hl & _). unfold copyEntry, ebind, eread, eret. rewrite Hst.
  pose proof (create_directory_same dst p d Hd p Hp) as [_ Hs2].
  destruct (create_directory_like dst p d) as [d1 [[]|ec]]; [|done]. cbn [fst] in Hs2. by rewrite Hs2, Hl.
Qed.

(** The iterator of a frame stands at these trees. *)
Definition stands_at (frame : Frame) (cs : list source_tree) (e : option Z) : Prop :=
  next_entry frame = (map tree_root cs, match cs with [] => e | _ => None end) /\ frameListEnd frame = e.

Lemma stands_at_start p dst cs e : (cs = [] -> e = None) ->
  stands_at {| frameSource := p; frameDst := dst; frameEntries := map tree_root cs; frameListEnd := e;
               frameAdvance := false |} cs e.
Proof. intros He. split; [|done]. unfold next_entry. cbn. destruct cs; [by rewrite He|done]. Qed.

Lemma stands_at_next p dst c cs e :
  stands_at {| frameSource := p; frameDst := dst; frameEntries := tree_root c :: map tree_root cs; frameListEnd := e;
               frameAdvance := true |} cs e.
Proof. split; [|done]. unfold next_entry. cbn. by destruct cs. Qed.

(** What a visit of [t] promises: the walk that pushed the entry goes on as
    the recursive copy, in at most [2 * tree_size t - 1] further turns. *)
Definition visits (t : source_tree) : Prop := forall dst pending d,
  dests dst -> Forall sources (tree_paths t) -> shows d t ->
  let (d1, r) := copyEntry (tree_root t) dst pending d in
  let (d2, f) := copy_tree t dst d in
  same_sources d d2 /\
  match snd r with
  | Some x => d2 = d1 /\ f = Some x
  | None =>
      exists k, (k < 2 * tree_size t)%nat /\
      match f with
      | Some x => ends copy_step k (fst r) d1 d2 (Some x)
      | None => forall n d3 b, ends copy_step n pending d2 d3 b -> ends copy_step (k + n) (fst r) d1 d3 b
      end
  end.

Definition trees_size (cs : list source_tree) : nat := list_sum (map tree_size cs).

(** The rest of a frame. *)
Lemma visit_list cs : Forall visits cs -> forall frame e pending d,
  stands_at frame cs e -> dests (frameDst frame) -> Forall sources (concat (map tree_paths cs)) ->
  foldr (fun c P => shows d c /\ P) True cs ->
  let (d2, f) := copy_list (fun c => copy_tree c (append (frameDst frame) (filename (tree_root c)))) cs
                   (list_failure (frameSource frame) <$> e) d in
  same_sources d d2 /\
  exists k, (k <= 2 * trees_size cs + 1)%nat /\
  match f with
  | Some x => ends copy_step k (frame :: pending) d d2 (Some x)
  | None => forall n d3 b, ends copy_step n pending d2 d3 b -> ends copy_step (k + n) (frame :: pending) d d3 b
  end.
Proof using TA.
  induction 1 as [|c cs Hc _ IH]; intros frame e pending d [Hat Hend] Hd Hsrc Hshow.
  - cbn [copy_list]. unfold eret. split; [apply same_sources_refl|]. exists 1%nat. split; [cbn; lia|].
    cbn [map] in Hat. destruct e as [ec|]; cbn [fmap option_fmap option_map].
    + apply ends_last. unfold copy_step. by rewrite Hat.
    + intros n d3 b Hn. eapply ends_turn; [|exact Hn]. unfold copy_step. by rewrite Hat.
  - cbn [map concat] in Hsrc. apply Forall_app in Hsrc as [Hsrc1 Hsrc2]. cbn [foldr] in Hshow. destruct Hshow as [Hs1 Hs2].
    set (frame' := {| frameSource := frameSource frame; frameDst := frameDst frame;
                      frameEntries := tree_root c :: map tree_root cs; frameListEnd := frameListEnd frame;
                      frameAdvance := true |}).
    assert (Hroot : sources (tree_root c)) by (by destruct c; apply Forall_cons in Hsrc1 as [? _]).
    pose proof (dest_child (frameDst frame) (tree_root c) Hroot Hd) as Hd'.
    assert (Hturn : copy_step (frame :: pending) d =
      let (d1, r) := copyEntry (tree_root c) (append (frameDst frame) (filename (tree_root c))) (frame' :: pending) d in
      (d1, match snd r with Some f => inr (Some f) | None => inl (fst r) end)).
    { cbn [map] in Hat. unfold copy_step. rewrite Hat. unfold ebind, eret. fold frame'.
      by destruct (copyEntry _ _ _ d) as [d1 [pend f]]. }
    specialize (Hc (append (frameDst frame) (filename (tree_root c))) (frame' :: pending) d Hd' Hsrc1 Hs1).
    cbn [copy_list]. unfold ebind at 1.
    destruct (copyEntry _ _ (frame' :: pending) d) as [d1 r]. destruct (copy_tree c _ d) as [d2 f] eqn:Ec.
    destruct Hc as [Hsame Hc]. destruct (snd r) as [x|] eqn:Er.
    { destruct Hc as [-> ->]. unfold eret. split; [done|]. exists 1%nat. split; [lia|]. by apply ends_last. }
    destruct Hc as (k & Hk & Hc). assert (Hsize : trees_size (c :: cs) = (tree_size c + trees_size cs)%nat) by done.
    destruct f as [x|].
    { unfold eret. split; [done|]. exists (S k). split; [lia|]. by eapply ends_turn. }
    specialize (IH frame' e pending d2). change (frameDst frame') with (frameDst frame) in IH.
    change (frameSource frame') with (frameSource frame) in IH.
    assert (Hat' : stands_at frame' cs e) by (subst e; apply stands_at_next).
    specialize (IH Hat' Hd Hsrc2 (shows_same_list _ _ _ Hsame Hsrc2 Hs2)).
    destruct (copy_list _ cs _ d2) as [d3 g]. destruct IH as [Hsame' (k' & Hk' & Hg)].
    split; [by eapply same_sources_trans|]. exists (S (k + k')). split; [lia|].
    destruct g as [x|].
    + eapply ends_turn; [exact Hturn|]. by apply Hc.
    + intros n d4 b Hn. cbn [Nat.add]. rewrite <- Nat.add_assoc. eapply ends_turn; [exact Hturn|]. by apply Hc, Hg.
Qed.

Lemma visit_tree t : visits t.
Proof using TA.
  induction t as [p|p cs e IH] using source_tree_rect'; intros dst pending d Hd Hsrc Hshow.
  - apply Forall_cons in Hsrc as [Hp _]. cbn [tree_root copy_tree]. unfold ebind, eret.
    destruct (copyEntry_leaf p dst pending d Hp Hd Hshow) as (d1 & f & -> & -> & Hs). cbn [fst snd]. split; [done|].
    destruct f as [x|]; [done|]. exists 0%nat. split; [cbn; lia|]. by intros n d3 b.
  - cbn [tree_paths] in Hsrc. apply Forall_cons in Hsrc as [Hp Hsrc]. cbn [tree_root]. rewrite (copyEntry_node p cs e) by done.
    destruct Hshow as (_ & _ & He & Hcs). cbn [copy_tree]. unfold ebind at 1.
    pose proof (create_directory_same dst p d Hd) as Hs.
    destruct (create_directory_like dst p d) as [d1 [[]|ec]]; cbn [fst snd]; [|done].
    pose proof (visit_list cs IH {| frameSource := p; frameDst := dst; frameEntries := map tree_root cs;
                  frameListEnd := e; frameAdvance := false |} e pending d1) as Hl.
    cbn [frameDst frameSource] in Hl.
    specialize (Hl (stands_at_start p dst cs e He) Hd Hsrc (shows_same_list _ _ _ Hs Hsrc Hcs)).
    destruct (copy_list _ cs _ d1) as [d2 f]. destruct Hl as [Hs' (k & Hk & Hf)].
    split; [by eapply same_sources_trans|]. exists k. split; [|done].
    change (tree_size (Node p cs e)) with (S (trees_size cs)). lia.
Qed.

(** C18: the walk of an export over its explicit stack copies a tree as the
    recursive copy does: the same calls in the same order, the same first
    failure with its entry and its step, and the same disk.  It ends: a tree of
    fewer than [2^63] entries takes fewer turns than the loop's bound. *)
Theorem CopyTree_is_recursive t dst d :
  dests dst -> Forall sources (tree_paths t) -> shows d t -> Z.of_nat (tree_size t) < 2 ^ 63 ->
  CopyTree (tree_root t) dst d = copy_tree t dst d.
Proof using TA.
  intros Hd Hsrc Hshow Hsize. pose proof (visit_tree t dst [] d Hd Hsrc Hshow) as Hv.
  unfold CopyTree, ebind at 1. destruct (copyEntry (tree_root t) dst [] d) as [d1 [pend f]].
  destruct (copy_tree t dst d) as [d2 g]. cbn [fst snd] in Hv. destruct Hv as [_ Hv].
  destruct f as [x|]; [by destruct Hv as [-> ->]|]. destruct Hv as (k & Hk & Hg). destruct g as [x|].
  - eapply run_loop_ends; [exact Hg|]. unfold copy_fuel. lia.
  - eapply run_loop_ends; [apply Hg; by apply ends_last|]. unfold copy_fuel. lia.
Qed.
End Tree.

(** ** No handle stays open *)
Section Handles.
Context `{W : Win32} `{H : !EntryHost} `{I : !ImageHost} `{V : !VhdHost}.

(** The open handles of virtual disks, the last first: an open and a create add
    one, a close takes it off, and no other call changes them. *)
Class HandleLaws := {
  held : disk -> list vhd_handle;
  open_held device p d d' r : OpenVirtualDisk device p d = (d', r) ->
    held d' = match r with Ok h => h :: held d | Err _ => held d end;
  create_held p params d d' r : CreateVirtualDisk p params d = (d', r) ->
    held d' = match r with Ok h => h :: held d | Err _ => held d end;
  close_held h l d : held d = h :: l -> held (fst (CloseVhdHandle h d)) = l;
  attach_held h flags : preserves held (AttachVirtualDisk h flags);
  detach_held h : preserves held (DetachVirtualDisk h);
  merge_held h a b : preserves held (MergeVirtualDisk h a b);
  online_held h : preserves held (SetDiskOnline h);
  gpt_held h guid : preserves held (CreateGptDisk h guid);
  update_held h : preserves held (UpdateDiskProperties h);
  layout_held h layout : preserves held (SetDriveLayout h layout);
  guid_held : preserves held CoCreateGuid;
  sleep_held n : preserves held (Sleep n);
  process_held c : preserves held (CreateProcessW c);
  wait_held p n : preserves held (WaitForProcess p n);
  terminate_held p : preserves held (TerminateProcess p);
  process_closed_held p : preserves held (CloseProcess p);
  mount_held p v : preserves held (SetVolumeMountPointW p v);
  unmount_held p : preserves held (DeleteVolumeMountPointW p);
  link_held p q : preserves held (copy_symlink p q);
  like_held p q : preserves held (create_directory_like p q);
  file_held p q : preserves held (copy_file_overwriting p q);
  copy_held p q : preserves held (copy_recursively p q);
  remove_held p : preserves held (remove_path p);
  file_closed_held h : preserves held (EntryHost.CloseHandle h);
  script_closed_held h : preserves held (ImageHost.CloseHandle h);
  script_created_held p a s disp f : preserves held (CreateFileW p a s disp f);
  written_held h n data : preserves held (WriteFileAt h n data);
  deleted_held p : preserves held (DeleteFileW p);
  directories_held p : preserves held (create_directories p);
  remove_all_held p : preserves held (remove_all p)
}.

Context `{HL : !HandleLaws}.

Abbreviation quiet := (preserves held).

Lemma quiet_elevated {B} (refuse : Z -> B) body : quiet body -> quiet (elevated refuse body).
Proof. intros Hb d. unfold elevated. destruct (negb _); [done|]. apply Hb. Qed.

Create HintDb quiet.
#[local] Hint Resolve preserves_ret preserves_read quiet_elevated preserves_loop attach_held detach_held merge_held online_held
  gpt_held update_held layout_held guid_held sleep_held process_held wait_held terminate_held process_closed_held
  mount_held unmount_held link_held like_held file_held copy_held remove_held file_closed_held script_closed_held
  script_created_held written_held deleted_held directories_held remove_all_held : quiet.
#[local] Hint Extern 2 (quiet (ebind _ _)) => apply preserves_bind; [|intros ?] : quiet.
#[local] Hint Extern 3 (quiet (match ?x with _ => _ end)) => destruct x : quiet.

Ltac by_parts := intros; eauto 60 with quiet.

Lemma generate_quiet : quiet GenerateId.
Proof using HL. unfold GenerateId. by_parts. Qed.
#[local] Hint Resolve generate_quiet : quiet.

Lemma run_command_quiet c n : quiet (run_command c n).
Proof using HL. unfold run_command. by_parts. Qed.
#[local] Hint Resolve run_command_quiet : quiet.

Lemma write_all_quiet h pos data : quiet (write_all h pos data).
Proof using HL. unfold write_all. by_parts. Qed.
#[local] Hint Resolve write_all_quiet : quiet.

Lemma write_script_quiet h script : quiet (write_script h script).
Proof using HL. unfold write_script. by_parts. Qed.
#[local] Hint Resolve write_script_quiet : quiet.

Lemma diskpart_quiet p : quiet (InitializeVHDDiskpart p).
Proof using HL. unfold InitializeVHDDiskpart. by_parts. Qed.
#[local] Hint Resolve diskpart_quiet : quiet.

Lemma discover_quiet p delays r : quiet (discover_volume p delays r).
Proof using HL. revert r. induction delays; intros r; cbn [discover_volume]; by_parts. Qed.
#[local] Hint Resolve discover_quiet : quiet.

Lemma new_guid_quiet : quiet new_guid.
Proof using HL. unfold new_guid. by_parts. Qed.
#[local] Hint Resolve new_guid_quiet : quiet.

Lemma or_diskpart_quiet {B} h p (r : w32 B) k : (forall b, quiet (k b)) -> quiet (or_diskpart h p r k).
Proof using HL. unfold or_diskpart, close_file. by_parts. Qed.
#[local] Hint Resolve or_diskpart_quiet : quiet.

Lemma InitializeVHD_quiet disk vhd : quiet (InitializeVHD disk vhd).
Proof using HL. unfold InitializeVHD, FormatVolume, close_file. by_parts. Qed.
#[local] Hint Resolve InitializeVHD_quiet : quiet.

Lemma detach_handle_quiet h : quiet (DetachHandle h).
Proof using HL. unfold DetachHandle. by_parts. Qed.
#[local] Hint Resolve detach_handle_quiet : quiet.

Lemma Unmount_quiet dir : quiet (Unmount dir).
Proof using HL. unfold Unmount. by_parts. Qed.
#[local] Hint Resolve Unmount_quiet : quiet.

Lemma MountTemp_quiet dir guid : quiet (MountTemp dir guid).
Proof using HL. unfold MountTemp. by_parts. Qed.
#[local] Hint Resolve MountTemp_quiet : quiet.

Lemma temp_directory_quiet w : quiet (temp_mount_directory w).
Proof using HL. unfold temp_mount_directory. by_parts. Qed.
#[local] Hint Resolve temp_directory_quiet : quiet.

Lemma CopySymlinkReplacing_quiet src dst : quiet (CopySymlinkReplacing src dst).
Proof using HL. unfold CopySymlinkReplacing. by_parts. Qed.
#[local] Hint Resolve CopySymlinkReplacing_quiet : quiet.

Lemma copyEntry_quiet p dst pending : quiet (copyEntry p dst pending).
Proof using HL. unfold copyEntry. by_parts. Qed.
#[local] Hint Resolve copyEntry_quiet : quiet.

Lemma copy_step_quiet pending : quiet (copy_step pending).
Proof using HL. unfold copy_step. by_parts. Qed.
#[local] Hint Resolve copy_step_quiet : quiet.

Lemma CopyTree_quiet p dst : quiet (CopyTree p dst).
Proof using HL. unfold CopyTree. by_parts. Qed.
#[local] Hint Resolve CopyTree_quiet : quiet.

Lemma copy_roots_quiet dir roots : quiet (copy_roots dir roots).
Proof using HL. induction roots; cbn [copy_roots]; by_parts. Qed.
#[local] Hint Resolve copy_roots_quiet : quiet.

Lemma export_entries_quiet entries e src dst : quiet (export_entries entries e src dst).
Proof using HL. induction entries; cbn [export_entries]; by_parts. Qed.
#[local] Hint Resolve export_entries_quiet : quiet.

(** ** Scopes that own a handle *)

(** A part that ends with the handle closed. *)
Definition closes {A} (h : vhd_handle) (m : eff disk A) : Prop :=
  forall d l, held d = h :: l -> held (fst (m d)) = l.

Lemma closes_close h : closes h (close h).
Proof using HL. intros d l. apply close_held. Qed.

Lemma closes_then {A B} h (m : eff disk A) (k : A -> eff disk B) : quiet m -> (forall a, closes h (k a)) -> closes h (ebind m k).
Proof.
  intros Hm Hk d l Hd. unfold ebind. specialize (Hm d). destruct (m d) as [d' a]. apply Hk. cbn in Hm. congruence.
Qed.

Lemma closes_first {A B} h (m : eff disk A) (k : A -> eff disk B) : closes h m -> (forall a, quiet (k a)) -> closes h (ebind m k).
Proof. intros Hm Hk d l Hd. unfold ebind. specialize (Hm d l Hd). destruct (m d) as [d' a]. by rewrite Hk. Qed.

#[local] Hint Resolve closes_close : quiet.
#[local] Hint Extern 2 (closes _ (ebind (close _) _)) => apply closes_first; [|intros ?] : quiet.
#[local] Hint Extern 3 (closes _ (ebind _ _)) => apply closes_then; [|intros ?] : quiet.
#[local] Hint Extern 3 (closes _ (match ?x with _ => _ end)) => destruct x : quiet.

Lemma discard_closes h file e : closes h (discard_vhd h file e).
Proof using HL. unfold discard_vhd. by_parts. Qed.
#[local] Hint Resolve discard_closes : quiet.

Lemma detach_closes h e : closes h (detach_vhd h e).
Proof using HL. unfold detach_vhd. by_parts. Qed.
#[local] Hint Resolve detach_closes : quiet.
#[local] Hint Extern 2 (closes _ (ebind (detach_vhd _ _) _)) => apply closes_first; [|intros ?] : quiet.

Lemma import_mounted_closes h file dir roots : closes h (import_mounted h file dir roots).
Proof using HL. unfold import_mounted. by_parts. Qed.
#[local] Hint Resolve import_mounted_closes : quiet.

Lemma import_attached_closes w a vhd roots : closes (attachedHandle a) (import_attached w a vhd roots).
Proof using HL. unfold import_attached. by_parts. Qed.

Lemma export_mounted_closes h dir dst : closes h (export_mounted h dir dst).
Proof using HL. unfold export_mounted. by_parts. Qed.
#[local] Hint Resolve export_mounted_closes : quiet.

(** An open whose handle the rest of the function closes. *)
Lemma opened_quiet {B} path (k : w32 vhd_handle -> eff disk B) :
  (forall h, closes h (k (Ok h))) -> (forall e, quiet (k (Err e))) -> quiet (ebind (OpenVHD path) k).
Proof using HL.
  intros Hk He d. unfold ebind. destruct (OpenVHD path d) as [d' r] eqn:Eo. apply open_held in Eo.
  destruct r as [h|e]; [by apply (Hk h)|]. by rewrite He.
Qed.

Lemma create_and_close_quiet p params : quiet (create_and_close p params).
Proof using HL.
  intros d. unfold create_and_close, ebind at 1. destruct (CreateVirtualDisk _ params d) as [d' r] eqn:Ec.
  apply create_held in Ec. destruct r as [h|e]; [|done].
  assert (Hc : closes h (do! close h in eret ERROR_SUCCESS)%eff) by by_parts. by apply Hc.
Qed.
#[local] Hint Resolve create_and_close_quiet : quiet.

(** An attach gives its handle to the caller, or leaves none. *)
Lemma AttachVHD_held path options d :
  match AttachVHD path options d with
  | (d', Ok a) => held d' = attachedHandle a :: held d
  | (d', Err _) => held d' = held d
  end.
Proof using HL.
  unfold AttachVHD, elevated. destruct (negb _); [done|]. unfold ebind at 1.
  destruct (OpenVHD path d) as [d1 r] eqn:Eo. apply open_held in Eo. destruct r as [h|e]; [|done].
  unfold ebind at 1. pose proof (attach_held h (attach_flags options) d1) as Ha.
  assert (Hclose : forall d2 e, held d2 = h :: held d ->
    match (do! close h in eret (@Err Z AttachedVhd e))%eff d2 with
    | (d', Ok a) => held d' = attachedHandle a :: held d
    | (d', Err _) => held d' = held d
    end).
  { intros d2 e Hd. unfold ebind, close, eret. apply close_held in Hd. by destruct (CloseVhdHandle h d2). }
  destruct (AttachVirtualDisk h _ d1) as [d2 [[]|e]]; cbn [fst] in Ha; [|apply Hclose; congruence].
  unfold ebind at 1, eread. destruct (GetVirtualDiskPhysicalPath d2 h) as [path'|e]; [cbn; congruence|].
  unfold ebind at 1. pose proof (detach_held h d2) as Hd. destruct (DetachVirtualDisk h d2) as [d3 r].
  cbn [fst] in Hd. apply Hclose. congruence.
Qed.

(** An attach whose handle the rest of the function closes. *)
Lemma attached_quiet {B} path options (k : res Z AttachedVhd -> eff disk B) :
  (forall a, closes (attachedHandle a) (k (Ok a))) -> (forall e, quiet (k (Err e))) ->
  quiet (ebind (AttachVHD path options) k).
Proof using HL.
  intros Hk He d. unfold ebind. pose proof (AttachVHD_held path options d) as Ha.
  destruct (AttachVHD path options d) as [d' [a|e]]; [by apply (Hk a)|]. by rewrite He.
Qed.

#[local] Hint Extern 1 (quiet (ebind (AttachVHD _ _) _)) => apply attached_quiet; intros ? : quiet.
#[local] Hint Extern 1 (quiet (ebind (OpenVHD _) _)) => apply opened_quiet; intros ? : quiet.
#[local] Hint Resolve import_attached_closes : quiet.

Lemma CreateVHD_quiet p n a : quiet (CreateVHD p n a).
Proof using HL. unfold CreateVHD. by_parts. Qed.
#[local] Hint Resolve CreateVHD_quiet : quiet.

Lemma operations_quiet workingDir p q size allocation options :
  quiet (CreateVHD p size allocation) /\ quiet (CreateDifferencingVHD p q) /\ quiet (DetachVHD p) /\
  quiet (MergeVHD p) /\ quiet (InitializeVHD p q) /\ (forall capacity, quiet (ImportDirectory workingDir p q capacity)) /\
  quiet (ExportToDirectory workingDir p q) /\
  (forall d, match AttachVHD p options d with
             | (d', Ok attached) => held d' = attachedHandle attached :: held d
             | (d', Err _) => held d' = held d
             end).
Proof using HL.
  split_and!; try apply AttachVHD_held;
    unfold CreateVHD, CreateDifferencingVHD, DetachVHD, MergeVHD, ImportDirectory, ExportToDirectory; cbv zeta; by_parts.
Qed.

(** every operation closes the handles of virtual disks that it opens, on
    every way out, errors and exceptions included; an attach that succeeds
    leaves one open, and gives it to its caller. *)
Theorem operations_close_their_handles workingDir p q size allocation options :
  quiet (CreateVHD p size allocation) /\ quiet (CreateDifferencingVHD p q) /\ quiet (DetachVHD p) /\
  quiet (MergeVHD p) /\ quiet (InitializeVHD p q) /\ (forall capacity, quiet (ImportDirectory workingDir p q capacity)) /\
  quiet (ExportToDirectory workingDir p q) /\
  (forall d, match AttachVHD p options d with
             | (d', Ok attached) => held d' = attachedHandle attached :: held d
             | (d', Err _) => held d' = held d
             end).
Proof using HL. apply operations_quiet. Qed.
End Handles.
