(* ===== verification/HostMountPoint.v ===== *)
(** * The directory of a mount point

    [host/WindowsMountPoint.cpp]: the check of a directory that a host will
    mount on, the identity of the directory that the mount made, and its
    removal after the unmount.

    An open that only queries reads the disk; the close of its handle is a call
    of its own.  [None] is an exception that leaves the function. *)
From S2P Require Export VhdManager.
Open Scope Z_scope.

(** Further calls: [FileIdInfo], the volume and the 128 bits of a file;
    [GetFileInformationByHandle], of which the source reads the attributes;
    [std::filesystem::remove], whether it removed something; the classes of the
    C library. *)
Class MountPointHost `{W : Win32} := {
  GetFileIdInfo : disk -> handle -> w32 (Z * list Z);
  GetFileInformationByHandle : disk -> handle -> w32 Z;
  remove_existing : wstring -> eff disk (w32 bool);
  iswalpha : Z -> bool
}.

Record MountPointPrep := {
  directoryCreatedByUs : bool;
  volumeSerial : Z;
  fileId : list Z
}.

(** Zero bits. *)
Definition empty_prep : MountPointPrep :=
  {| directoryCreatedByUs := false; volumeSerial := 0; fileId := replicate 16 0 |}.

Section MountPoint.
Context `{W : Win32} `{H : !EntryHost} `{I : !ImageHost} `{V : !VhdHost} `{P : !MountPointHost}.

(** An open that follows no link and asks for no access. *)
Definition open_mount_point (d : disk) (path : wstring) : w32 handle :=
  OpenSharedW d path 0 share_all (Z.lor FILE_FLAG_BACKUP_SEMANTICS FILE_FLAG_OPEN_REPARSE_POINT).

Definition PathIsReparsePoint (path : wstring) : eff disk bool := fun d =>
  match GetFileAttributesW d path with
  | Err _ => (d, false)
  | Ok attrs =>
      if has_attr attrs FILE_ATTRIBUTE_REPARSE_POINT then (d, true)
      else match open_mount_point d path with
      | Err _ => (d, false)
      | Ok h =>
          let isReparse := match GetHandleAttributes d h with
                           | Ok a => has_attr a FILE_ATTRIBUTE_REPARSE_POINT
                           | Err _ => false
                           end in
          (do! close_file h in eret isReparse)%eff d
      end
  end.

Definition IsDriveLetterMountPoint (mp : wstring) : bool :=
  match mp with
  | [c; 58] => iswalpha c
  | [c; 58; 92] => iswalpha c
  | _ => false
  end.

(** The result; the prep that the source resets is [empty_prep]. *)
Definition ValidateAndPrepareDirectoryMountPoint (mp : wstring) : eff disk (option NTSTATUS) :=
  if bool_decide (mp = []) then eret (Some STATUS_INVALID_PARAMETER)
  else
    let path := WithExtendedPrefix mp in
    (let! attrs := eread (fun d => GetFileAttributesW d path) in
     match attrs with
     | Ok _ =>
         let! reparse := PathIsReparsePoint path in
         eret (Some (if reparse then STATUS_IO_REPARSE_DATA_INVALID else STATUS_OBJECT_NAME_COLLISION))
     | Err _ =>
         let parent := parent_path path in
         if bool_decide (parent = []) then eret (Some STATUS_SUCCESS)
         else
           let! there := eread (fun d => fs_exists d parent) in
           match there with
           | None => eret None
           | Some true => eret (Some STATUS_SUCCESS)
           | Some false =>
               let! made := create_directories parent in
               eret (Some (if is_ok made then STATUS_SUCCESS else STATUS_OBJECT_PATH_NOT_FOUND))
           end
     end)%eff.

Definition CaptureMountPointIdentity (mp : wstring) (prep : MountPointPrep) : eff disk MountPointPrep := fun d =>
  if bool_decide (mp = []) then (d, prep)
  else
    let prep := {| directoryCreatedByUs := directoryCreatedByUs prep; volumeSerial := 0; fileId := replicate 16 0 |} in
    match open_mount_point d (WithExtendedPrefix mp) with
    | Err _ => (d, prep)
    | Ok h =>
        let prep := match GetFileIdInfo d h with
                    | Ok (serial, id) => {| directoryCreatedByUs := directoryCreatedByUs prep; volumeSerial := serial;
                                            fileId := id |}
                    | Err _ => prep
                    end in
        (do! close_file h in eret prep)%eff d
    end.

(** The last part, on a directory with the identity. *)
Definition remove_if_empty (path : wstring) : eff disk Z :=
  (let! listed := eread (fun d => directory_list d path) in
   match listed with
   | Err e => eret e
   | Ok (_ :: _, _) => eret ERROR_SUCCESS
   | Ok ([], _) =>
       let! removed := remove_existing path in
       eret match removed with Ok true => ERROR_SUCCESS | Ok false => ERROR_GEN_FAILURE | Err e => e end
   end)%eff.

Definition RemoveOwnedMountPointDirectoryIfSafe (mp : wstring) (prep : MountPointPrep) : eff disk Z := fun d =>
  if negb (directoryCreatedByUs prep) || bool_decide (mp = []) then (d, ERROR_SUCCESS)
  else
    let path := WithExtendedPrefix mp in
    match open_mount_point d path with
    | Err e => (d, e)
    | Ok h =>
        let idInfo := GetFileIdInfo d h in
        let bhfi := GetFileInformationByHandle d h in
        (do! close_file h in
         match idInfo, bhfi with
         | Err idErr, _ => eret idErr
         | Ok _, Err bhfiErr => eret bhfiErr
         | Ok (serial, id), Ok attributes =>
             if negb (serial =? volumeSerial prep) || negb (bool_decide (id = fileId prep)) then eret ERROR_SUCCESS
             else if negb (has_attr attributes FILE_ATTRIBUTE_DIRECTORY) || has_attr attributes FILE_ATTRIBUTE_REPARSE_POINT
             then eret ERROR_SUCCESS
             else remove_if_empty path
         end)%eff d
    end.
End MountPoint.

(** ** What a release removes *)
Section Release.
Context `{W : Win32} `{H : !EntryHost} `{I : !ImageHost} `{V : !VhdHost} `{P : !MountPointHost}.

(** The entry at the path is the directory that the host claimed: the one whose
    identity was captured, and no link. *)
Record claimed (d : disk) (path : wstring) (prep : MountPointPrep) (h : handle) : Prop := {
  claimed_owned : directoryCreatedByUs prep = true;
  claimed_open : open_mount_point d path = Ok h;
  claimed_identity : GetFileIdInfo d h = Ok (volumeSerial prep, fileId prep);
  claimed_directory : exists attributes, GetFileInformationByHandle d h = Ok attributes /\
    has_attr attributes FILE_ATTRIBUTE_DIRECTORY = true /\ has_attr attributes FILE_ATTRIBUTE_REPARSE_POINT = false
}.

(** How a release can end: with nothing but an open and a close, or with the
    removal of the claimed directory, that it found empty. *)
Inductive released (path : wstring) (prep : MountPointPrep) (d : disk) : disk -> Z -> Prop :=
| not_opened r : released path prep d d r
| kept h r : open_mount_point d path = Ok h -> released path prep d (fst (close_file h d)) r
| removed h listEnd d' answer r :
    claimed d path prep h ->
    directory_list (fst (close_file h d)) path = Ok ([], listEnd) ->
    remove_existing path (fst (close_file h d)) = (d', answer) ->
    r = match answer with Ok true => ERROR_SUCCESS | Ok false => ERROR_GEN_FAILURE | Err e => e end ->
    released path prep d d' r.

(** C27: a release asks the system to remove an entry only when the host claimed
    the mount point, the entry there still is the directory whose identity was
    captured and no link, and it lists no entry.  Everything else it only
    reads.  It never removes anything for a prep without a claim. *)
Theorem release_removes_only_its_directory mp prep d :
  (let '(d', r) := RemoveOwnedMountPointDirectoryIfSafe mp prep d in released (WithExtendedPrefix mp) prep d d' r) /\
  (directoryCreatedByUs prep = false -> RemoveOwnedMountPointDirectoryIfSafe mp prep d = (d, ERROR_SUCCESS)).
Proof.
  split; [|unfold RemoveOwnedMountPointDirectoryIfSafe; by intros ->].
  unfold RemoveOwnedMountPointDirectoryIfSafe. cbv zeta. set (path := WithExtendedPrefix mp).
  destruct (directoryCreatedByUs prep) eqn:Eo; [|by constructor]. cbn [negb orb].
  case_bool_decide; [by constructor|]. destruct (open_mount_point d path) as [h|e] eqn:Eh; [|by constructor].
  pose proof (fun r => kept path prep d h r Eh) as Hkeep.
  unfold ebind at 1. destruct (close_file h d) as [d1 []] eqn:Ec. cbn [fst] in Hkeep.
  destruct (GetFileIdInfo d h) as [[serial id]|e] eqn:Ei; [|by apply Hkeep].
  destruct (GetFileInformationByHandle d h) as [a|e] eqn:Ea; [|by apply Hkeep].
  destruct (serial =? volumeSerial prep) eqn:Es; [|by apply Hkeep]. apply Z.eqb_eq in Es as ->.
  case_bool_decide as Eid; [|by apply Hkeep]. subst id.
  destruct (has_attr a FILE_ATTRIBUTE_DIRECTORY) eqn:Ed; [|by apply Hkeep].
  destruct (has_attr a FILE_ATTRIBUTE_REPARSE_POINT) eqn:Er; [by apply Hkeep|]. cbn [negb orb].
  unfold remove_if_empty, ebind, eread, eret.
  destruct (directory_list d1 path) as [[[|x l] le]|e] eqn:El; [|by apply Hkeep|by apply Hkeep].
  destruct (remove_existing path d1) as [d2 answer] eqn:Em.
  eapply (removed _ _ _ h le); rewrite ?Ec; cbn [fst]; [by split; [..|exists a]|done|done|done].
Qed.
End Release.
