(* ===== verification/VssManager.v ===== *)
(** * Shadow copies

    [vss/VSSManager.cpp]: create, delete, list and check the snapshots of a
    volume, and the snapshots that a manager holds.  [ComScope.cpp]: the
    initialization of COM that the exports nest.

    An interface pointer is a number, a [VSS_ID] its bytes, an HRESULT its
    unsigned value.  The map of the manager is a list sorted by key, and an
    operation takes the manager and gives it back. *)
From S2P Require Export ErrorTls VhdManager.
Open Scope Z_scope.

Definition ERROR_BAD_COMMAND : Z := 22.
Definition ERROR_DISK_FULL : Z := 112.
Definition ERROR_SERVICE_NOT_FOUND : Z := 1243.
Definition ERROR_UNIDENTIFIED_ERROR : Z := 1287.

Definition S_FALSE : Z := 1.
Definition CO_E_NOTINITIALIZED : Z := 0x800401F0.
Definition VSS_E_BAD_STATE : Z := 0x80042301.
Definition VSS_E_PROVIDER_NOT_REGISTERED : Z := 0x80042304.
Definition VSS_E_OBJECT_NOT_FOUND : Z := 0x80042308.
Definition VSS_E_VOLUME_NOT_SUPPORTED : Z := 0x8004230C.
Definition VSS_E_MAXIMUM_NUMBER_OF_SNAPSHOTS_REACHED : Z := 0x80042317.
Definition VSS_E_INSUFFICIENT_STORAGE : Z := 0x8004231F.

Definition VSS_CTX_BACKUP : Z := 0.
Definition VSS_CTX_CLIENT_ACCESSIBLE : Z := 0x1D.
Definition VSS_CTX_ALL : Z := 0xFFFFFFFF.
Definition VSS_VOLSNAP_ATTR_PERSISTENT : Z := 1.

Abbreviation VSS_ID := (list Z).

(** [VSS_SNAPSHOT_PROP], as far as the source reads it; a null text is
    [None]. *)
Record snapshot_prop := {
  m_SnapshotId : VSS_ID;
  m_OriginalVolumeName : option wstring;
  m_SnapshotDeviceObject : option wstring;
  m_lSnapshotAttributes : Z;
  m_tsCreationTimestamp : Z
}.

(** The calls of the service.  A call that gives an [IVssAsync] or an
    enumerator gives its HRESULT and the pointer, [None] when it is null. *)
Class VssHost `{W : Win32} := {
  CreateVssBackupComponents : eff disk (Z * Z);
  InitializeForBackup : Z -> eff disk Z;
  SetContext : Z -> Z -> eff disk Z;
  SetBackupState : Z -> eff disk Z;
  GatherWriterMetadata : Z -> eff disk (Z * option Z);
  FreeWriterMetadata : Z -> eff disk unit;
  StartSnapshotSet : Z -> eff disk (Z * VSS_ID);
  AddToSnapshotSet : Z -> wstring -> eff disk (Z * VSS_ID);
  PrepareForBackup : Z -> eff disk (Z * option Z);
  DoSnapshotSet : Z -> eff disk (Z * option Z);
  GetSnapshotProperties : Z -> VSS_ID -> eff disk (Z * snapshot_prop);
  VssFreeSnapshotProperties : snapshot_prop -> eff disk unit;
  DeleteSnapshots : Z -> VSS_ID -> eff disk Z;
  AbortBackup : Z -> eff disk unit;
  ReleaseBackup : Z -> eff disk unit;
  (** [IVssAsync]: the wait, the result of the query and the status. *)
  AsyncWait : Z -> eff disk Z;
  AsyncQueryStatus : Z -> eff disk (Z * Z);
  ReleaseAsync : Z -> eff disk unit;
  (** The enumerator; [None] when it fetched nothing. *)
  Query : Z -> eff disk (Z * option Z);
  EnumNext : Z -> eff disk (Z * option snapshot_prop);
  ReleaseEnum : Z -> eff disk unit;
  CLSIDFromString : wstring -> option VSS_ID;
  UuidFromStringW : wstring -> option VSS_ID;
  (** [std::time], and the conversions of times, whose [SYSTEMTIME] has no
      milliseconds here: the source drops them and gives none. *)
  time_now : disk -> Z;
  FileTimeToSystemTime : Z -> option SYSTEMTIME;
  SystemTimeToFileTime : SYSTEMTIME -> option Z;
  CoInitializeEx : eff disk Z;
  CoUninitialize : eff disk unit
}.

Definition SUCCEEDED (hr : Z) : bool := negb (FAILED hr).

(** ** Results *)

Definition Win32FromHresult (hr : Z) : Z :=
  if hr =? S_OK then ERROR_SUCCESS
  else if HRESULT_FACILITY hr =? FACILITY_WIN32 then HRESULT_CODE hr
  else ERROR_GEN_FAILURE.

Definition HResultToDword (hr : Z) : Z :=
  if SUCCEEDED hr then ERROR_SUCCESS
  else if hr =? E_ACCESSDENIED then ERROR_ACCESS_DENIED
  else if hr =? E_OUTOFMEMORY then ERROR_NOT_ENOUGH_MEMORY
  else if hr =? E_INVALIDARG then ERROR_INVALID_PARAMETER
  else if hr =? CO_E_NOTINITIALIZED then ERROR_NOT_READY
  else if hr =? VSS_E_OBJECT_NOT_FOUND then ERROR_NOT_FOUND
  else if hr =? VSS_E_VOLUME_NOT_SUPPORTED then ERROR_NOT_SUPPORTED
  else if hr =? VSS_E_BAD_STATE then ERROR_BAD_COMMAND
  else if hr =? VSS_E_MAXIMUM_NUMBER_OF_SNAPSHOTS_REACHED then ERROR_DISK_FULL
  else if hr =? VSS_E_INSUFFICIENT_STORAGE then ERROR_DISK_FULL
  else if hr =? VSS_E_PROVIDER_NOT_REGISTERED then ERROR_SERVICE_NOT_FOUND
  else if HRESULT_FACILITY hr =? FACILITY_WIN32 then HRESULT_CODE hr
  else ERROR_UNIDENTIFIED_ERROR.

(** ** Data *)

Record SnapshotInfo := {
  snapshotId : wstring;
  vssId : VSS_ID;
  snapshotVolume : wstring;
  devicePath : wstring;
  persistent : bool;
  snapshotCreatedAt : wstring
}.

(** The component that a snapshot that is not persistent keeps alive. *)
Record HeldSnapshot := { heldInfo : SnapshotInfo; heldBackup : option Z }.

Abbreviation VSSManager := (list (wstring * HeldSnapshot)).

(** ** Times *)

(** A number, and one of at least two digits. *)
Definition iso_time (st : SYSTEMTIME) : wstring :=
  L (pretty (wYear st)) ++ L "-" ++ padded 2 (wMonth st) ++ L "-" ++ padded 2 (wDay st) ++ L "T" ++
  padded 2 (wHour st) ++ L ":" ++ padded 2 (wMinute st) ++ L ":" ++ padded 2 (wSecond st) ++ L "Z".

(** [gmtime_s], for a time from 1970 on. *)
Definition gmtime (now : Z) : SYSTEMTIME :=
  let '(y, m, d) := civil_from_days (now / 86400) in
  let s := now mod 86400 in
  {| wYear := y; wMonth := m; wDay := d; wHour := s / 3600; wMinute := (s / 60) mod 60; wSecond := s mod 60 |}.

Section Vss.
Context `{W : Win32} `{H : !EntryHost} `{V : !VhdHost} `{S : !VssHost}.

Definition NowTimestamp (d : disk) : wstring := iso_time (gmtime (time_now d)).

(** [ts] is signed; the two halves of the [FILETIME] are its bits. *)
Definition FormatVssTimestamp (ts : Z) : wstring :=
  match FileTimeToSystemTime (ts mod 2 ^ 64) with
  | None => []
  | Some st => iso_time st
  end.

Definition GuidToString (guid : VSS_ID) : wstring := ImageFormat.GenerateId (StringFromGUID2 guid).

Definition StringToGuid (str : wstring) : option VSS_ID := CLSIDFromString (c_str (L "{" ++ str ++ L "}")).

(** ** One snapshot *)

Definition WaitForAsync (pAsync : option Z) : eff disk Z :=
  match pAsync with
  | None => eret ERROR_INVALID_PARAMETER
  | Some a =>
      (let! hr := AsyncWait a in
       if FAILED hr then do! ReleaseAsync a in eret (HResultToDword hr)
       else
         let! (hr, hrStatus) := AsyncQueryStatus a in
         do! ReleaseAsync a in
         eret (if FAILED hr then HResultToDword hr
               else if FAILED hrStatus then HResultToDword hrStatus
               else ERROR_SUCCESS))%eff
  end.

(** The HRESULT. *)
Definition DeleteShadow (id : VSS_ID) : eff disk Z :=
  (let! (hr, bc) := CreateVssBackupComponents in
   if FAILED hr then eret hr
   else
     let! hr := InitializeForBackup bc in
     let! hr := (if SUCCEEDED hr then SetContext bc VSS_CTX_ALL else eret hr) in
     let! hr := (if SUCCEEDED hr then DeleteSnapshots bc id else eret hr) in
     do! ReleaseBackup bc in
     eret hr)%eff.

(** A step that failed ends the creation: the component is released, after an
    abort where the source has one.  [Err] is what [CreateSnapshot] returns. *)
Definition abandon {B} (abort : bool) (backup code : Z) : eff disk (res Z B) :=
  (do! (if abort then AbortBackup backup else eret tt) in do! ReleaseBackup backup in eret (Err code))%eff.

Definition or_abandon {B} (abort : bool) (backup hr : Z) (k : eff disk (res Z B)) : eff disk (res Z B) :=
  if FAILED hr then abandon abort backup (HResultToDword hr) else k.

(** The wait for a step that runs by itself. *)
Definition or_wait {B} (abort : bool) (backup : Z) (started : Z * option Z) (k : eff disk (res Z B))
  : eff disk (res Z B) :=
  or_abandon true backup (fst started)
    (let! result := WaitForAsync (snd started) in
     if negb (result =? ERROR_SUCCESS) then abandon abort backup result else k)%eff.

(** The writers, which only a snapshot of the session asks. *)
Definition gather_writers {B} (persistent : bool) (backup : Z) (k : eff disk (res Z B)) : eff disk (res Z B) :=
  if persistent then k
  else
    (let! hr := SetBackupState backup in
     or_abandon true backup hr
       (let! started := GatherWriterMetadata backup in
        or_wait true backup started (do! FreeWriterMetadata backup in k)))%eff.

Definition prepare_writers {B} (persistent : bool) (backup : Z) (k : eff disk (res Z B)) : eff disk (res Z B) :=
  if persistent then k
  else (let! started := PrepareForBackup backup in or_wait true backup started k)%eff.

(** Steps 5 to 11 on a component: the id of the snapshot and its device. *)
Definition take_snapshot (volumePath : wstring) (persistent : bool) (backup : Z) : eff disk (res Z (VSS_ID * wstring)) :=
  (let! (hr, _) := StartSnapshotSet backup in
   or_abandon true backup hr
     (let! (hr, id) := AddToSnapshotSet backup (c_str volumePath) in
      or_abandon true backup hr
        (prepare_writers persistent backup
           (let! started := DoSnapshotSet backup in
            or_wait false backup started
              (let! (hr, prop) := GetSnapshotProperties backup id in
               if FAILED hr then do! DeleteShadow id in abandon false backup (HResultToDword hr)
               else
                 do! VssFreeSnapshotProperties prop in
                 eret (Ok (id, StripTrailingBackslash (c_str (default [] (m_SnapshotDeviceObject prop))))))))))%eff.

(** [VssBackupPtr] releases what it held. *)
Definition release_held (held : option HeldSnapshot) : eff disk unit :=
  match held ≫= heldBackup with Some backup => ReleaseBackup backup | None => eret tt end.

(** Step 12: the entry of the manager; one with the same id goes. *)
Definition store_snapshot (volumePath : wstring) (persistent : bool) (backup : Z) (id : VSS_ID) (device : wstring)
    (snapshots : VSSManager) : eff disk (VSSManager * (Z * wstring * wstring)) :=
  let idStr := GuidToString id in
  (let! createdAt := eread NowTimestamp in
   let held := {| heldInfo := {| snapshotId := idStr; vssId := id; snapshotVolume := volumePath; devicePath := device;
                                 persistent := persistent; snapshotCreatedAt := createdAt |};
                  heldBackup := if persistent then None else Some backup |} in
   do! (if persistent then ReleaseBackup backup else eret tt) in
   do! release_held (map_find snapshots idStr) in
   eret (map_set snapshots idStr held, (ERROR_SUCCESS, idStr, device)))%eff.

(** The manager, and the result with the id and the device of the
    snapshot. *)
Definition CreateSnapshot (volumePath : wstring) (persistent : bool) (snapshots : VSSManager)
  : eff disk (VSSManager * (Z * wstring * wstring)) :=
  elevated (fun e => (snapshots, (e, [], [])))
    (if negb (bool_decide (last volumePath = Some ch_bsl)) then eret (snapshots, (ERROR_INVALID_PARAMETER, [], []))
     else
       let! (hr, backup) := CreateVssBackupComponents in
       if FAILED hr then eret (snapshots, (HResultToDword hr, [], []))
       else
         let! taken :=
           (let! hr := InitializeForBackup backup in
            or_abandon false backup hr
              (let! hr := SetContext backup (if persistent then VSS_CTX_CLIENT_ACCESSIBLE else VSS_CTX_BACKUP) in
               or_abandon false backup hr
                 (gather_writers persistent backup (take_snapshot volumePath persistent backup)))) in
         match taken with
         | Err result => eret (snapshots, (result, [], []))
         | Ok (id, device) => store_snapshot volumePath persistent backup id device snapshots
         end)%eff.

Definition DeleteSnapshot (snapshotId : wstring) (snapshots : VSSManager) : eff disk (VSSManager * Z) :=
  let it := map_find snapshots snapshotId in
  match (match it with Some held => Some (vssId (heldInfo held)) | None => StringToGuid snapshotId end) with
  | None => eret (snapshots, ERROR_INVALID_PARAMETER)
  | Some id =>
      (let! hr := DeleteShadow id in
       if FAILED hr then eret (snapshots, HResultToDword hr)
       else do! release_held it in eret (map_erase snapshots snapshotId, ERROR_SUCCESS))%eff
  end.

(** ** All snapshots *)

Definition session_ids (snapshots : VSSManager) : list wstring :=
  fst <$> filter (fun kv => persistent (heldInfo (snd kv)) = false) snapshots.

Fixpoint delete_all (toRemove : list wstring) (firstError : Z) (snapshots : VSSManager) : eff disk (VSSManager * Z) :=
  match toRemove with
  | [] => eret (snapshots, firstError)
  | id :: rest =>
      (let! (snapshots, dw) := DeleteSnapshot id snapshots in
       delete_all rest (if negb (dw =? ERROR_SUCCESS) && (firstError =? ERROR_SUCCESS) then dw else firstError)
         snapshots)%eff
  end.

Definition CleanupNonPersistent (snapshots : VSSManager) : eff disk (VSSManager * Z) :=
  delete_all (session_ids snapshots) ERROR_SUCCESS snapshots.

(** The destructor. *)
Fixpoint DestroyVSSManager (snapshots : VSSManager) : eff disk unit :=
  match snapshots with
  | [] => eret tt
  | (_, held) :: rest => (do! release_held (Some held) in DestroyVSSManager rest)%eff
  end.

Definition ValidateSnapshotPath (d : disk) (snapshotId : wstring) (snapshots : VSSManager) : w32 bool :=
  match map_find snapshots snapshotId with
  | None => Err ERROR_NOT_FOUND
  | Some held =>
      Ok match GetFileAttributesW d (c_str (devicePath (heldInfo held) ++ [ch_bsl])) with
         | Ok _ => true
         | Err _ => false
         end
  end.

Definition snapshot_of (snap : snapshot_prop) : SnapshotInfo := {|
  snapshotId := GuidToString (m_SnapshotId snap); vssId := m_SnapshotId snap;
  snapshotVolume := c_str (default [] (m_OriginalVolumeName snap));
  devicePath := StripTrailingBackslash (c_str (default [] (m_SnapshotDeviceObject snap)));
  persistent := has_attr (m_lSnapshotAttributes snap) VSS_VOLSNAP_ATTR_PERSISTENT;
  snapshotCreatedAt := FormatVssTimestamp (m_tsCreationTimestamp snap) |}.

(** One turn of the enumeration: the rows so far, or the rows and the HRESULT
    that ends it. *)
Definition list_step (pEnum : Z) (rows : list SnapshotInfo) : eff disk (list SnapshotInfo + list SnapshotInfo * Z) :=
  (let! (nextHr, fetched) := EnumNext pEnum in
   match fetched with
   | Some snap =>
       if nextHr =? S_FALSE then eret (inr (rows, S_OK))
       else if FAILED nextHr then eret (inr (rows, nextHr))
       else do! VssFreeSnapshotProperties snap in eret (inl (rows ++ [snapshot_of snap]))
   | None => eret (inr (rows, S_OK))
   end)%eff.

(** A system has fewer snapshots. *)
Definition list_fuel : positive := (2 ^ 64)%positive.

(** The rows, and the result. *)
Definition ListSnapshots : eff disk (list SnapshotInfo * Z) :=
  (let! (hr, bc) := CreateVssBackupComponents in
   if FAILED hr then eret ([], Win32FromHresult hr)
   else
     let! hr := InitializeForBackup bc in
     if FAILED hr then do! ReleaseBackup bc in eret ([], Win32FromHresult hr)
     else
       let! hr := SetContext bc VSS_CTX_ALL in
       if FAILED hr then do! ReleaseBackup bc in eret ([], Win32FromHresult hr)
       else
         let! (hr, pEnum) := Query bc in
         if FAILED hr then do! ReleaseBackup bc in eret ([], Win32FromHresult hr)
         else match pEnum with
         | None => do! ReleaseBackup bc in eret ([], ERROR_SUCCESS)
         | Some pEnum =>
             let! (rows, terminalHr) := run_loop list_fuel (list_step pEnum) ([], S_OK) [] in
             do! ReleaseEnum pEnum in
             do! ReleaseBackup bc in
             eret (rows, if FAILED terminalHr then Win32FromHresult terminalHr else ERROR_SUCCESS)
         end)%eff.

Definition GetSnapshot (id : wstring) (snapshots : VSSManager) : option SnapshotInfo :=
  heldInfo <$> map_find snapshots id.

(** ** COM *)

(** A scope, and the count of the thread's scopes. *)
Record ComScope := { initResult : Z; ownsInit : bool }.

Definition OpenComScope (g_comRefCount : Z) : eff disk (Z * ComScope) :=
  if 0 <? g_comRefCount then eret (g_comRefCount + 1, {| initResult := S_FALSE; ownsInit := false |})
  else
    (let! result := CoInitializeEx in
     eret (if SUCCEEDED result then (1, {| initResult := result; ownsInit := true |})
           else if result =? S_FALSE then (1, {| initResult := result; ownsInit := true |})
           else (g_comRefCount, {| initResult := result; ownsInit := false |})))%eff.

Definition ScopeOk (scope : ComScope) : bool := SUCCEEDED (initResult scope) || (initResult scope =? S_FALSE).

(** The destructor, and the count after it. *)
Definition CloseComScope (scope : ComScope) (g_comRefCount : Z) : eff disk Z :=
  if negb (ownsInit scope) then
    eret (if (initResult scope =? S_FALSE) && (0 <? g_comRefCount) then g_comRefCount - 1 else g_comRefCount)
  else if g_comRefCount - 1 =? 0 then (do! CoUninitialize in eret (g_comRefCount - 1))%eff
  else eret (g_comRefCount - 1).
End Vss.
