(* ===== verification/VssFacts.v ===== *)
(** * What the snapshots of a manager keep

    A manager holds a component of the service for each snapshot of the
    session and for no other; no operation leaves a component, a wait or an
    enumerator behind; and a cleanup tries every snapshot of the session once,
    forgets those whose shadow is gone and keeps the others. *)
From S2P Require Export VssManager VhdFacts RegistryFacts.
From stdpp Require Export gmap.
Open Scope Z_scope.

(** An object of the service that a pointer keeps alive. *)
Inductive com_object := Component (p : Z) | Waiting (p : Z) | Enumerator (p : Z).

#[export] Instance com_object_eq_dec : EqDecision com_object.
Proof. solve_decision. Defined.

#[export] Instance com_object_countable : Countable com_object.
Proof.
  refine (inj_countable' (fun o => match o with Component p => (0, p) | Waiting p => (1, p) | Enumerator p => (2, p) end)
                         (fun '(k, p) => if k =? 0 then Component p else if k =? 1 then Waiting p else Enumerator p) _).
  by intros [].
Defined.

(** ** No object stays behind *)
Section Live.
Context `{W : Win32} `{H : !EntryHost} `{V : !VhdHost} `{X : !VssHost}.

(** A call that gives an object: a new one, when it succeeds and the pointer is
    not null. *)
Definition gives (live : disk -> gset com_object) (o : Z -> com_object) (m : eff disk (Z * option Z)) : Prop :=
  forall d, match m d with
            | (d', (hr, Some p)) => if FAILED hr then live d' = live d
                                    else o p ∉ live d /\ live d' = {[o p]} ∪ live d
            | (d', (hr, None)) => live d' = live d
            end.

Definition ends (live : disk -> gset com_object) (o : com_object) {A} (m : eff disk A) : Prop :=
  forall d, live (fst (m d)) = live d ∖ {[o]}.

(** The objects of the service that live, and what each call does to them. *)
Class ComponentLaws := {
  live : disk -> gset com_object;
  component_live d :
    let '(d', (hr, b)) := CreateVssBackupComponents d in
    if FAILED hr then live d' = live d else Component b ∉ live d /\ live d' = {[Component b]} ∪ live d;
  writers_live b : gives live Waiting (GatherWriterMetadata b);
  prepare_live b : gives live Waiting (PrepareForBackup b);
  snapshot_live b : gives live Waiting (DoSnapshotSet b);
  query_live b : gives live Enumerator (Query b);
  component_released b : ends live (Component b) (ReleaseBackup b);
  async_released a : ends live (Waiting a) (ReleaseAsync a);
  enum_released e : ends live (Enumerator e) (ReleaseEnum e);
  initialize_live b : preserves live (InitializeForBackup b);
  context_live b c : preserves live (SetContext b c);
  state_live b : preserves live (SetBackupState b);
  free_writers_live b : preserves live (FreeWriterMetadata b);
  set_live b : preserves live (StartSnapshotSet b);
  add_live b v : preserves live (AddToSnapshotSet b v);
  properties_live b id : preserves live (GetSnapshotProperties b id);
  free_live p : preserves live (VssFreeSnapshotProperties p);
  delete_live b id : preserves live (DeleteSnapshots b id);
  abort_live b : preserves live (AbortBackup b);
  async_wait_live a : preserves live (AsyncWait a);
  async_status_live a : preserves live (AsyncQueryStatus a);
  next_live e : preserves live (EnumNext e)
}.

Context `{CL : !ComponentLaws}.

Abbreviation quiet := (preserves live).

Create HintDb live.
#[local] Hint Resolve preserves_ret preserves_read initialize_live context_live state_live free_writers_live set_live
  add_live properties_live free_live delete_live abort_live async_wait_live async_status_live next_live
  component_released async_released enum_released : live.
#[local] Hint Extern 2 (quiet (ebind _ _)) => apply preserves_bind; [|intros ?] : live.
#[local] Hint Extern 3 (quiet (match ?x with _ => _ end)) => destruct x : live.

Ltac by_parts := intros; eauto 60 with live.

(** A part that ends with the object gone. *)
Definition drops {A} (o : com_object) (m : eff disk A) : Prop :=
  forall d l, o ∉ l -> live d = {[o]} ∪ l -> live (fst (m d)) = l.

Lemma drops_end {A} o (m : eff disk A) : ends live o m -> drops o m.
Proof. intros Hm d l Hl Hd. rewrite Hm. set_solver. Qed.

Lemma drops_then {A B} o (m : eff disk A) (k : A -> eff disk B) : quiet m -> (forall a, drops o (k a)) -> drops o (ebind m k).
Proof.
  intros Hm Hk d l Hl Hd. unfold ebind. specialize (Hm d). destruct (m d) as [d' a]. apply Hk; [done|].
  cbn in Hm. congruence.
Qed.

Lemma drops_first {A B} o (m : eff disk A) (k : A -> eff disk B) : drops o m -> (forall a, quiet (k a)) -> drops o (ebind m k).
Proof. intros Hm Hk d l Hl Hd. unfold ebind. specialize (Hm d l Hl Hd). destruct (m d) as [d' a]. by rewrite Hk. Qed.

Lemma gives_quiet {B} o m (k : Z * option Z -> eff disk B) :
  gives live o m -> (forall hr p, FAILED hr = true -> quiet (k (hr, p))) -> (forall hr, quiet (k (hr, None))) ->
  (forall hr p, FAILED hr = false -> drops (o p) (k (hr, Some p))) -> quiet (ebind m k).
Proof.
  intros Hg Hf Hn Hk d. unfold ebind. specialize (Hg d). destruct (m d) as [d' [hr [p|]]]; [|by rewrite Hn].
  destruct (FAILED hr) eqn:E; [by rewrite Hf|]. destruct Hg as [Hp Hd]. by apply Hk.
Qed.

#[local] Hint Resolve drops_end : live.
#[local] Hint Extern 1 (drops _ (ebind (ReleaseBackup _) _)) => apply drops_first; [|intros ?] : live.
#[local] Hint Extern 1 (drops _ (ebind (ReleaseAsync _) _)) => apply drops_first; [|intros ?] : live.
#[local] Hint Extern 2 (drops _ (ebind _ _)) => apply drops_then; [|intros ?] : live.
#[local] Hint Extern 3 (drops _ (match ?x with _ => _ end)) => destruct x : live.

Lemma WaitForAsync_drops a : drops (Waiting a) (WaitForAsync (Some a)).
Proof using CL. unfold WaitForAsync. by_parts. Qed.

(** A component that the rest of the function releases. *)
Lemma created_quiet {B} (k : Z * Z -> eff disk B) :
  (forall hr b, FAILED hr = true -> quiet (k (hr, b))) -> (forall hr b, FAILED hr = false -> drops (Component b) (k (hr, b))) ->
  quiet (ebind CreateVssBackupComponents k).
Proof using CL.
  intros Hf Hk d. unfold ebind. pose proof (component_live d) as Hc.
  destruct (CreateVssBackupComponents d) as [d' [hr b]]. destruct (FAILED hr) eqn:E; [by rewrite Hf|].
  destruct Hc as [Hb Hd]. by apply Hk.
Qed.

Lemma DeleteShadow_quiet id : quiet (DeleteShadow id).
Proof using CL.
  unfold DeleteShadow. apply created_quiet; intros hr b ->; by_parts.
Qed.
#[local] Hint Resolve DeleteShadow_quiet : live.

(** ** A creation *)

(** A part that keeps the component when it succeeds and releases it when it
    does not. *)
Definition settles {B} (b : Z) (m : eff disk (res Z B)) : Prop :=
  forall d l, Component b ∉ l -> live d = {[Component b]} ∪ l ->
    match m d with
    | (d', Ok _) => live d' = live d
    | (d', Err _) => live d' = l
    end.

Lemma settles_then {A B} b (m : eff disk A) (k : A -> eff disk (res Z B)) :
  quiet m -> (forall a, settles b (k a)) -> settles b (ebind m k).
Proof.
  intros Hm Hk d l Hl Hd. unfold ebind. specialize (Hm d). destruct (m d) as [d' a]. cbn in Hm.
  rewrite <- Hm in Hd. specialize (Hk a d' l Hl Hd). rewrite <- Hm. exact Hk.
Qed.

Lemma settles_abandon {B} abort b code : settles b (abandon (B := B) abort b code).
Proof using CL.
  intros d l Hl Hd. assert (Hg : drops (Component b) (abandon (B := B) abort b code)) by (unfold abandon; by_parts).
  specialize (Hg d l Hl Hd).
  assert (exists d', abandon (B := B) abort b code d = (d', Err code : res Z B)) as [d' He].
  { unfold abandon, ebind, eret. destruct abort; repeat (destruct (AbortBackup _ _) || destruct (ReleaseBackup _ _));
      by eexists. }
  by rewrite He in Hg |- *.
Qed.
#[local] Hint Resolve settles_abandon : live.

Lemma settles_or_abandon {B} abort b hr (k : eff disk (res Z B)) : settles b k -> settles b (or_abandon abort b hr k).
Proof using CL. intros Hk. unfold or_abandon. destruct (FAILED hr); [apply settles_abandon|done]. Qed.
#[local] Hint Resolve settles_or_abandon : live.
#[local] Hint Extern 2 (settles _ (ebind _ _)) => apply settles_then; [|intros ?] : live.
#[local] Hint Extern 3 (settles _ (match ?x with _ => _ end)) => destruct x : live.

(** A step that runs by itself, and the wait for it. *)
Lemma settles_or_wait {B} abort b m (k : eff disk (res Z B)) :
  gives live Waiting m -> settles b k -> settles b (let! started := m in or_wait abort b started k)%eff.
Proof using CL.
  intros Hm Hk d l Hl Hd. unfold ebind at 1. specialize (Hm d). destruct (m d) as [d1 [hr a]].
  unfold or_wait, or_abandon. cbn [fst snd].
  assert (Hend : forall (j : eff disk (res Z B)) d2, settles b j -> live d2 = live d ->
            match j d2 with (d3, Ok _) => live d3 = live d | (d3, Err _) => live d3 = l end).
  { intros j d2 Hj E. rewrite <- E in Hd |- *. by apply Hj. }
  destruct (FAILED hr); [apply Hend; [apply settles_abandon|by destruct a]|].
  unfold ebind. assert (Hw : live (fst (WaitForAsync a d1)) = live d).
  { destruct a as [p|]; [|done]. destruct Hm as [Hp Hm]. by apply (WaitForAsync_drops p d1). }
  destruct (WaitForAsync a d1) as [d2 r]. apply Hend; [|done].
  destruct (negb _); [apply settles_abandon|done].
Qed.
#[local] Hint Resolve settles_or_wait writers_live prepare_live snapshot_live : live.
#[local] Hint Extern 1 (settles _ (ebind (GatherWriterMetadata _) _)) => apply settles_or_wait : live.
#[local] Hint Extern 1 (settles _ (ebind (PrepareForBackup _) _)) => apply settles_or_wait : live.
#[local] Hint Extern 1 (settles _ (ebind (DoSnapshotSet _) _)) => apply settles_or_wait : live.

Lemma settles_ok {B} b (x : B) : settles b (eret (Ok x)).
Proof. done. Qed.
#[local] Hint Resolve settles_ok : live.

Lemma settles_writers {B} keep b (k : eff disk (res Z B)) : settles b k -> settles b (gather_writers keep b k).
Proof using CL. unfold gather_writers. by_parts. Qed.

Lemma settles_prepare {B} keep b (k : eff disk (res Z B)) : settles b k -> settles b (prepare_writers keep b k).
Proof using CL. unfold prepare_writers. by_parts. Qed.
#[local] Hint Resolve settles_writers settles_prepare : live.

Lemma take_snapshot_settles v keep b : settles b (take_snapshot v keep b).
Proof using CL. unfold take_snapshot. by_parts. Qed.

(** ** A listing *)

Lemma list_step_quiet e rows : quiet (list_step e rows).
Proof using CL. unfold list_step. by_parts. Qed.

(** The end of a listing: both objects go. *)
Lemma listed_ends {A} (m : eff disk A) e b {B} (k : A -> B) :
  quiet m ->
  forall d, live (fst ((let! r := m in do! ReleaseEnum e in do! ReleaseBackup b in eret (k r))%eff d)) =
            live d ∖ {[Enumerator e]} ∖ {[Component b]}.
Proof using CL.
  intros Hm d. unfold ebind, eret. specialize (Hm d). destruct (m d) as [d1 r]. cbn in Hm. rewrite <- Hm.
  rewrite <- enum_released. destruct (ReleaseEnum e d1) as [d2 []]. cbn [fst].
  rewrite <- component_released. by destruct (ReleaseBackup b d2).
Qed.

Lemma ListSnapshots_quiet : quiet ListSnapshots.
Proof using CL.
  unfold ListSnapshots. apply created_quiet; intros hr b ->; [by_parts|].
  apply drops_then; [by_parts|]. intros hr1. destruct (FAILED hr1); [by_parts|].
  apply drops_then; [by_parts|]. intros hr2. destruct (FAILED hr2); [by_parts|].
  intros d l Hl Hd. unfold ebind at 1. pose proof (query_live b d) as Hq.
  destruct (Query b d) as [d1 [hr3 e]].
  assert (Hdrop : forall (r : list SnapshotInfo * Z), live d1 = live d ->
            live (fst ((do! ReleaseBackup b in eret r)%eff d1)) = l).
  { intros r E. assert (drops (Component b) (do! ReleaseBackup b in eret r)%eff) as Hr by by_parts.
    apply Hr; [done|congruence]. }
  destruct (FAILED hr3) eqn:E3; [destruct e; by apply Hdrop|]. destruct e as [e|]; [|by apply Hdrop].
  destruct Hq as [He Hd1].
  pose proof (listed_ends (run_loop list_fuel (list_step e) ([], S_OK) []) e b
    (fun r => (fst r, if FAILED (snd r) then Win32FromHresult (snd r) else ERROR_SUCCESS))) as Ht.
  specialize (Ht ltac:(apply preserves_loop; apply list_step_quiet) d1).
  assert (Hs : live d ∖ {[Component b]} = l) by set_solver.
  assert (He' : Enumerator e ∉ live d) by done.
  replace (live d1 ∖ {[Enumerator e]} ∖ {[Component b]}) with l in Ht by set_solver.
  rewrite <- Ht. unfold ebind, eret. destruct (run_loop _ _ _ _ d1) as [d2 [rows hr4]].
  destruct (ReleaseEnum e d2) as [d3 []]. by destruct (ReleaseBackup b d3).
Qed.

(** ** The map of a manager *)

Definition held_components (m : VSSManager) : list Z := omap (fun kv => heldBackup (snd kv)) m.

(** Each snapshot of the session has a component and no other has one; the key
    of an entry is its id. *)
Definition snapshot_ok (kv : wstring * HeldSnapshot) : Prop :=
  snapshotId (heldInfo (snd kv)) = fst kv /\
  (persistent (heldInfo (snd kv)) = true <-> heldBackup (snd kv) = None).

Definition manager_ok (m : VSSManager) : Prop := sorted_map m /\ Forall snapshot_ok m.

(** The live objects are these components and the others. *)
Definition holds (hs : list Z) (others : gset com_object) (d : disk) : Prop :=
  NoDup hs /\ (forall b, b ∈ hs -> Component b ∉ others) /\ live d = list_to_set (Component <$> hs) ∪ others.

Lemma holds_perm hs hs' l d : hs ≡ₚ hs' -> holds hs l d -> holds hs' l d.
Proof.
  intros Hp (Hn & Ho & Hd). split_and!; [by rewrite <- Hp|intros b; rewrite <- Hp; apply Ho|].
  rewrite Hd. f_equal. apply leibniz_equiv. intros o. rewrite !elem_of_list_to_set, !list_elem_of_fmap.
  by setoid_rewrite Hp.
Qed.

Lemma holds_same hs l d d' : live d' = live d -> holds hs l d -> holds hs l d'.
Proof. intros E (Hn & Ho & Hd). split_and!; [done..|congruence]. Qed.

Lemma holds_created b hs l d d' :
  Component b ∉ live d -> live d' = {[Component b]} ∪ live d -> holds hs l d -> holds (b :: hs) l d'.
Proof.
  intros Hb Hd' (Hn & Ho & Hd). rewrite Hd in Hb.
  split_and!.
  - constructor; [|done]. intros Hi. apply Hb, elem_of_union. left. apply elem_of_list_to_set, list_elem_of_fmap. eauto.
  - intros b' [->|Hi]%elem_of_cons; [set_solver|by apply Ho].
  - rewrite Hd', Hd. cbn [fmap list_fmap list_to_set]. set_solver.
Qed.

Lemma holds_release b hs l d : holds (b :: hs) l d -> holds hs l (fst (ReleaseBackup b d)).
Proof.
  intros (Hn & Ho & Hd). apply NoDup_cons in Hn as [Hb Hn]. split_and!; [done|intros b' Hb'; apply Ho; by right|].
  rewrite component_released, Hd. cbn [fmap list_fmap list_to_set].
  assert (Hbl : Component b ∉ l) by (apply Ho; left).
  assert (Hbs : Component b ∉ (list_to_set (Component <$> hs) : gset com_object))
    by (rewrite elem_of_list_to_set, list_elem_of_fmap; naive_solver).
  set_solver.
Qed.

Lemma holds_release_held held hs l d :
  holds (option_list (held ≫= heldBackup) ++ hs) l d -> holds hs l (fst (release_held held d)).
Proof. unfold release_held. destruct (held ≫= heldBackup) as [b|]; [apply holds_release|done]. Qed.

End Live.

Section Map.
Context {A : Type}.
Implicit Types m : list (list Z * A).

Lemma map_erase_cons k k1 v m :
  map_erase ((k1, v) :: m) k = if bool_decide (k1 = k) then map_erase m k else (k1, v) :: map_erase m k.
Proof. unfold map_erase. rewrite filter_cons. cbn [fst]. case_bool_decide; by destruct (decide _). Qed.

Lemma map_erase_missing k m : map_find m k = None -> map_erase m k = m.
Proof.
  rewrite map_find_get. induction m as [|[k1 v] m IH]; [done|]. rewrite map_erase_cons. cbn [map_get].
  case_bool_decide; [done|]. intros Hm. by rewrite IH.
Qed.

Lemma map_erase_below k m : below k m -> map_erase m k = m.
Proof. intros Hb. apply map_erase_missing. rewrite map_find_get. by apply below_get. Qed.

Lemma map_erase_sub k m kv : kv ∈ map_erase m k -> kv ∈ m.
Proof. intros [_ ?]%list_elem_of_filter. done. Qed.

Lemma map_erase_sorted k m : sorted_map m -> sorted_map (map_erase m k).
Proof.
  induction 1 as [|k1 v m Hb Hm IH]; [constructor|]. rewrite map_erase_cons. case_bool_decide; [done|].
  constructor; [|done]. unfold below in *. rewrite Forall_forall in Hb |- *. intros kv Hkv.
  apply Hb. by eapply map_erase_sub.
Qed.

Lemma map_erase_perm k v m : sorted_map m -> map_find m k = Some v -> m ≡ₚ (k, v) :: map_erase m k.
Proof.
  rewrite map_find_get. induction 1 as [|k1 v1 m Hb Hm IH]; [done|]. rewrite map_erase_cons. cbn [map_get].
  case_bool_decide as E.
  - intros [= ->]. subst k1. by rewrite map_erase_below.
  - intros Hv. rewrite (IH Hv) at 1. apply perm_swap.
Qed.

Lemma map_set_perm k v m : sorted_map m -> map_set m k v ≡ₚ (k, v) :: map_erase m k.
Proof.
  induction 1 as [|k1 v1 m Hb Hm IH]; [done|]. rewrite map_erase_cons. cbn [map_set].
  case_bool_decide as E; [subst k1; by rewrite map_erase_below|].
  destruct (text_ltb k k1) eqn:El.
  - assert (Hk : below k m) by (by eapply below_trans). by rewrite map_erase_below.
  - rewrite IH. apply perm_swap.
Qed.

Lemma map_find_elem k v m : map_find m k = Some v -> (k, v) ∈ m.
Proof. rewrite map_find_get. apply map_get_Some. Qed.

Lemma map_find_sorted k v m : sorted_map m -> (k, v) ∈ m -> map_find m k = Some v.
Proof.
  rewrite map_find_get. intros Hm%sorted_map_NoDup. revert Hm.
  induction m as [|[k1 v1] m IH]; cbn [fmap list_fmap fst map_get]; [by intros _ ?%elem_of_nil|].
  intros [Hk Hm]%NoDup_cons [[= -> ->]|Hi]%elem_of_cons; [by rewrite bool_decide_true|].
  rewrite bool_decide_false; [by apply IH|]. intros ->. apply Hk, list_elem_of_fmap. by exists (k, v).
Qed.

Lemma map_find_set k v m k' : map_find (map_set m k v) k' = if bool_decide (k = k') then Some v else map_find m k'.
Proof. rewrite !map_find_get. apply map_get_set. Qed.
End Map.

Section Managed.
Context `{W : Win32} `{H : !EntryHost} `{V : !VhdHost} `{X : !VssHost} `{CL : !ComponentLaws}.

Abbreviation quiet := (preserves live).

Lemma held_components_perm (m m' : VSSManager) : m ≡ₚ m' -> held_components m ≡ₚ held_components m'.
Proof. intros Hm. unfold held_components. by rewrite Hm. Qed.

Lemma held_split k (m : VSSManager) :
  sorted_map m -> held_components m ≡ₚ option_list (map_find m k ≫= heldBackup) ++ held_components (map_erase m k).
Proof.
  intros Hm. destruct (map_find m k) as [h|] eqn:Ef.
  - rewrite (held_components_perm _ _ (map_erase_perm k h m Hm Ef)). unfold held_components. cbn.
    by destruct (heldBackup h).
  - by rewrite map_erase_missing.
Qed.

Lemma held_set k h (m : VSSManager) :
  sorted_map m -> held_components (map_set m k h) ≡ₚ option_list (heldBackup h) ++ held_components (map_erase m k).
Proof.
  intros Hm. rewrite (held_components_perm _ _ (map_set_perm k h m Hm)). unfold held_components. cbn.
  by destruct (heldBackup h).
Qed.

Lemma manager_ok_set k h m : manager_ok m -> snapshot_ok (k, h) -> manager_ok (map_set m k h).
Proof.
  intros [Hs Ho] He. split; [by apply map_set_sorted|]. rewrite Forall_forall in Ho |- *.
  intros kv [->|Hkv]%map_set_elem; [done|by apply Ho].
Qed.

Lemma manager_ok_erase k m : manager_ok m -> manager_ok (map_erase m k).
Proof.
  intros [Hs Ho]. split; [by apply map_erase_sorted|]. rewrite Forall_forall in Ho |- *.
  intros kv Hkv. apply Ho. by eapply map_erase_sub.
Qed.

(** The components of a manager and the others. *)
Definition accounts (m : VSSManager) (others : gset com_object) (d : disk) : Prop :=
  manager_ok m /\ holds (held_components m) others d.

(** The component of a snapshot goes with its entry. *)
Lemma accounts_erase k m l d :
  accounts m l d -> accounts (map_erase m k) l (fst (release_held (map_find m k) d)).
Proof using CL.
  intros [Hm Hh]. split; [by apply manager_ok_erase|]. apply holds_release_held.
  eapply holds_perm; [|exact Hh]. apply held_split, Hm.
Qed.

Lemma DeleteSnapshot_accounts id m l d :
  accounts m l d -> let '(d', (m', _)) := DeleteSnapshot id m d in accounts m' l d'.
Proof using CL.
  intros Ha. unfold DeleteSnapshot. destruct (match map_find m id with Some _ => _ | None => _ end) as [guid|]; [|done].
  unfold ebind at 1. pose proof (DeleteShadow_quiet guid d) as Hq. destruct (DeleteShadow guid d) as [d1 hr].
  assert (Ha1 : accounts m l d1) by (destruct Ha; split; [done|by eapply holds_same]).
  destruct (FAILED hr); [done|]. pose proof (accounts_erase id m l d1 Ha1) as Hr.
  unfold ebind, eret. by destruct (release_held _ d1).
Qed.

Lemma delete_all_accounts ids e m l d :
  accounts m l d -> let '(d', (m', _)) := delete_all ids e m d in accounts m' l d'.
Proof using CL.
  revert e m d. induction ids as [|id ids IH]; intros e m d Ha; [done|]. cbn [delete_all].
  unfold ebind at 1. pose proof (DeleteSnapshot_accounts id m l d Ha) as Hd.
  destruct (DeleteSnapshot id m d) as [d1 [m1 dw]]. by apply IH.
Qed.

(** A creation that succeeds stores the snapshot; any other leaves the manager
    as it was. *)
Definition created_as (v : wstring) (keep : bool) (m m' : VSSManager) (r : Z * wstring * wstring) : Prop :=
  m' = m /\ snd (fst r) = [] /\ snd r = [] \/
  exists h, m' = map_set m (snd (fst r)) h /\ fst (fst r) = ERROR_SUCCESS /\
    snapshotVolume (heldInfo h) = v /\ persistent (heldInfo h) = keep /\ devicePath (heldInfo h) = snd r /\
    snd (fst r) = GuidToString (vssId (heldInfo h)).

Lemma store_snapshot_accounts v keep b id device m l d :
  manager_ok m -> holds (b :: held_components m) l d ->
  let '(d', (m', r)) := store_snapshot v keep b id device m d in accounts m' l d' /\ created_as v keep m m' r.
Proof using CL.
  intros Hm Hh. unfold store_snapshot, eread. unfold ebind at 1 2.
  set (h := {| heldInfo := _; heldBackup := _ |}).
  assert (Hb : holds (option_list (heldBackup h) ++ held_components m) l
                 (fst ((if keep then ReleaseBackup b else eret tt) d)))
    by (destruct keep; [by apply holds_release|done]).
  destruct ((if keep then ReleaseBackup b else eret tt) d) as [d1 []]. cbn [fst] in Hb.
  assert (Hr : holds (option_list (heldBackup h) ++ held_components (map_erase m (GuidToString id))) l
                 (fst (release_held (map_find m (GuidToString id)) d1))).
  { apply holds_release_held. eapply holds_perm; [|exact Hb]. rewrite (held_split (GuidToString id)) at 1 by apply Hm.
    solve_Permutation || (rewrite !app_assoc; f_equiv; apply Permutation_app_comm). }
  unfold ebind. destruct (release_held _ d1) as [d2 []]. split; [split|].
  - apply manager_ok_set; [done|]. split; [done|]. by destruct keep.
  - eapply holds_perm; [|exact Hr]. symmetry. apply held_set, Hm.
  - right. by exists h.
Qed.

Lemma CreateSnapshot_accounts v keep m l d :
  accounts m l d ->
  let '(d', (m', r)) := CreateSnapshot v keep m d in accounts m' l d' /\ created_as v keep m m' r.
Proof using CL.
  intros [Hm Hh]. unfold CreateSnapshot, elevated. destruct (negb (_ =? _)); [by split; [split|left]|].
  destruct (negb (bool_decide _)); [by split; [split|left]|].
  unfold ebind at 1. pose proof (component_live d) as Hc. destruct (CreateVssBackupComponents d) as [d1 [hr b]].
  destruct (FAILED hr). { split; [|by left]. split; [done|by eapply holds_same]. }
  destruct Hc as [Hb Hd1]. pose proof (holds_created b _ l d d1 Hb Hd1 Hh) as Hh1.
  unfold ebind at 1.
  match goal with |- context [ebind (InitializeForBackup b) ?k d1] =>
    assert (Hset : settles b (ebind (InitializeForBackup b) k)) by
      (apply settles_then; [apply initialize_live|]; intros ?; apply settles_or_abandon, settles_then;
         [apply context_live|]; intros ?; apply settles_or_abandon, settles_writers, take_snapshot_settles)
  end.
  specialize (Hset d1 (live d) Hb Hd1). destruct (ebind (InitializeForBackup b) _ d1) as [d2 [[id device]|e]].
  - apply store_snapshot_accounts; [done|]. by eapply holds_same.
  - split; [|by left]. split; [done|by eapply holds_same].
Qed.

Lemma Destroy_holds (m : VSSManager) l d : holds (held_components m) l d -> live (fst (DestroyVSSManager m d)) = l.
Proof using CL.
  revert d. induction m as [|[k h] m IH]; intros d Hh.
  - destruct Hh as (_ & _ & Hd). cbn in Hd |- *. set_solver.
  - cbn [DestroyVSSManager]. unfold ebind.
    pose proof (holds_release_held (Some h) (held_components m) l d) as Hr.
    destruct (release_held (Some h) d) as [d1 []]. apply IH, Hr. cbn.
    unfold held_components in Hh. cbn in Hh. by destruct (heldBackup h).
Qed.

(** ** The life of a manager *)

Inductive vss_op :=
| VssCreate (volumePath : wstring) (keep : bool)
| VssDelete (id : wstring)
| VssCleanup
| VssList.

Definition run_vss_op (op : vss_op) (m : VSSManager) : eff disk VSSManager :=
  match op with
  | VssCreate volumePath keep => let! (m, _) := CreateSnapshot volumePath keep m in eret m
  | VssDelete id => let! (m, _) := DeleteSnapshot id m in eret m
  | VssCleanup => let! (m, _) := CleanupNonPersistent m in eret m
  | VssList => let! _ := ListSnapshots in eret m
  end%eff.

Fixpoint run_vss_ops (ops : list vss_op) (m : VSSManager) : eff disk VSSManager :=
  match ops with
  | [] => eret m
  | op :: rest => (let! m := run_vss_op op m in run_vss_ops rest m)%eff
  end.

Lemma run_vss_op_accounts op m l d : accounts m l d -> let '(d', m') := run_vss_op op m d in accounts m' l d'.
Proof using CL.
  intros Ha. destruct op as [v keep|id| |]; cbn [run_vss_op]; unfold ebind, eret.
  - pose proof (CreateSnapshot_accounts v keep m l d Ha) as Hc.
    destruct (CreateSnapshot v keep m d) as [d1 [m1 r]]. apply Hc.
  - pose proof (DeleteSnapshot_accounts id m l d Ha) as Hc. by destruct (DeleteSnapshot id m d) as [d1 [m1 r]].
  - pose proof (delete_all_accounts (session_ids m) ERROR_SUCCESS m l d Ha) as Hc. unfold CleanupNonPersistent.
    by destruct (delete_all _ _ m d) as [d1 [m1 r]].
  - pose proof (ListSnapshots_quiet d) as Hq. destruct (ListSnapshots d) as [d1 r]. destruct Ha.
    split; [done|by eapply holds_same].
Qed.

Lemma snapshots_hold ops d :
  let (d', m) := run_vss_ops ops [] d in
  manager_ok m /\ holds (held_components m) (live d) d' /\ live (fst (DestroyVSSManager m d')) = live d.
Proof using CL.
  assert (Hrun : forall m d0, accounts m (live d) d0 -> let (d', m') := run_vss_ops ops m d0 in accounts m' (live d) d').
  { induction ops as [|op ops IH]; intros m d0 Ha; [done|]. cbn [run_vss_ops]. unfold ebind.
    pose proof (run_vss_op_accounts op m (live d) d0 Ha) as Ho. destruct (run_vss_op op m d0) as [d1 m1]. by apply IH. }
  assert (H0 : accounts [] (live d) d).
  { split; [by split; [constructor|]|]. split_and!; [constructor| |cbn; set_solver]. by intros b ?%elem_of_nil. }
  specialize (Hrun [] d H0). destruct (run_vss_ops ops [] d) as [d' m]. destruct Hrun as [Hm Hh].
  split_and!; [done..|by apply Destroy_holds].
Qed.

(** C19: whatever a manager is asked to do, each snapshot of the session that it
    lists holds one component of its own and no other snapshot holds one; no
    operation, however it ends, leaves another component, a wait or an
    enumerator alive; and the end of the manager releases what it held. *)
Theorem snapshots_hold_their_components ops d :
  let (d', m) := run_vss_ops ops [] d in
  manager_ok m /\ holds (held_components m) (live d) d' /\ live (fst (DestroyVSSManager m d')) = live d.
Proof using CL. apply snapshots_hold. Qed.

(** A snapshot that the service refuses at any step leaves the manager as
    it was, with no id and no device for the caller; one that it makes is
    listed under its id with its volume, its device and its kind, and no other
    entry changes. *)
Theorem CreateSnapshot_all_or_nothing v keep m others d :
  accounts m others d ->
  let '(d', (m', (err, id, device))) := CreateSnapshot v keep m d in
  accounts m' others d' /\
  (m' = m /\ id = [] /\ device = [] \/
   err = ERROR_SUCCESS /\
   (forall k, k <> id -> map_find m' k = map_find m k) /\
   exists info, GetSnapshot id m' = Some info /\ snapshotId info = id /\ snapshotVolume info = v /\
     persistent info = keep /\ devicePath info = device).
Proof using CL.
  intros Ha. pose proof (CreateSnapshot_accounts v keep m others d Ha) as Hc.
  destruct (CreateSnapshot v keep m d) as [d' [m' [[err id] device]]]. destruct Hc as [Ha' Hc]. split; [done|].
  destruct Hc as [(-> & Hi & Hd)|(h & -> & He & Hv & Hk & Hd & Hi)]; [by left|right]. cbn in *.
  split_and!; [done|intros k Hne; rewrite map_find_set, bool_decide_false by done; done|].
  exists (heldInfo h). unfold GetSnapshot. rewrite map_find_set, bool_decide_true by done. split_and!; try done.
  destruct Ha' as [[_ Ho] _]. rewrite Forall_forall in Ho.
  apply (Ho (id, h)), map_find_elem. by rewrite map_find_set, bool_decide_true.
Qed.
End Managed.

(** ** Cleanup *)
Section Cleanup.
Context `{W : Win32} `{H : !EntryHost} `{V : !VhdHost} `{X : !VssHost}.

(** The shadows of the system: the calls of a deletion make none, a deletion
    that succeeds ends its shadow, and no failure is the HRESULT that carries
    the Win32 code of success. *)
Class ShadowLaws := {
  shadow : disk -> VSS_ID -> Prop;
  create_shadows d i : shadow (fst (CreateVssBackupComponents d)) i -> shadow d i;
  initialize_shadows b d i : shadow (fst (InitializeForBackup b d)) i -> shadow d i;
  context_shadows b c d i : shadow (fst (SetContext b c d)) i -> shadow d i;
  release_shadows b d i : shadow (fst (ReleaseBackup b d)) i -> shadow d i;
  delete_shadows b id d i : shadow (fst (DeleteSnapshots b id d)) i -> shadow d i;
  deleted_shadow b id d d' hr : DeleteSnapshots b id d = (d', hr) -> FAILED hr = false -> ~ shadow d' id;
  create_failure d : FAILED (fst (snd (CreateVssBackupComponents d))) = true ->
    HResultToDword (fst (snd (CreateVssBackupComponents d))) <> ERROR_SUCCESS;
  initialize_failure b d : FAILED (snd (InitializeForBackup b d)) = true -> HResultToDword (snd (InitializeForBackup b d)) <> ERROR_SUCCESS;
  context_failure b c d : FAILED (snd (SetContext b c d)) = true -> HResultToDword (snd (SetContext b c d)) <> ERROR_SUCCESS;
  delete_failure b id d : FAILED (snd (DeleteSnapshots b id d)) = true -> HResultToDword (snd (DeleteSnapshots b id d)) <> ERROR_SUCCESS
}.

Context `{SL : !ShadowLaws}.

(** The service refuses a step of the deletion of a shadow, with this result. *)
Inductive service_failed (d : disk) (id : VSS_ID) : Z -> Prop :=
| create_failed d0 hr b : CreateVssBackupComponents d = (d0, (hr, b)) -> FAILED hr = true -> service_failed d id hr
| initialize_failed d0 hr0 b d1 hr :
    CreateVssBackupComponents d = (d0, (hr0, b)) -> InitializeForBackup b d0 = (d1, hr) -> FAILED hr = true ->
    service_failed d id hr
| context_failed d0 hr0 b d1 hr1 d2 hr :
    CreateVssBackupComponents d = (d0, (hr0, b)) -> InitializeForBackup b d0 = (d1, hr1) ->
    SetContext b VSS_CTX_ALL d1 = (d2, hr) -> FAILED hr = true -> service_failed d id hr
| delete_failed d0 hr0 b d1 hr1 d2 hr2 d3 hr :
    CreateVssBackupComponents d = (d0, (hr0, b)) -> InitializeForBackup b d0 = (d1, hr1) ->
    SetContext b VSS_CTX_ALL d1 = (d2, hr2) -> DeleteSnapshots b id d2 = (d3, hr) -> FAILED hr = true ->
    service_failed d id hr.

(** What a deletion that ends in [d'] with [hr] did about the shadow. *)
Definition shadow_deleted (d : disk) (id : VSS_ID) (d' : disk) (hr : Z) : Prop :=
  (forall i, shadow d' i -> shadow d i) /\
  (if FAILED hr then service_failed d id hr /\ HResultToDword hr <> ERROR_SUCCESS else ~ shadow d' id).

Lemma DeleteShadow_spec id d : let (d', hr) := DeleteShadow id d in shadow_deleted d id d' hr.
Proof using SL.
  unfold DeleteShadow, SUCCEEDED, shadow_deleted. unfold ebind at 1.
  pose proof (create_shadows d) as S0. pose proof (create_failure d) as F0.
  destruct (CreateVssBackupComponents d) as [d0 [hr b]] eqn:C0. cbn [fst snd] in *.
  destruct (FAILED hr) eqn:E0; [unfold eret; rewrite E0; split_and!; eauto using service_failed|].
  unfold ebind at 1. pose proof (initialize_shadows b d0) as S1. pose proof (initialize_failure b d0) as F1.
  destruct (InitializeForBackup b d0) as [d1 hr1] eqn:C1. cbn [fst snd] in *.
  assert (Hend : forall d2 hr2, (forall i, shadow d2 i -> shadow d i) ->
    (if FAILED hr2 then service_failed d id hr2 /\ HResultToDword hr2 <> ERROR_SUCCESS else ~ shadow d2 id) ->
    let (d', hr') := (do! ReleaseBackup b in eret hr2)%eff d2 in shadow_deleted d id d' hr').
  { intros d2 hr2 Hs Hr. unfold ebind, eret, shadow_deleted. pose proof (release_shadows b d2) as S2.
    destruct (ReleaseBackup b d2) as [d3 []]. cbn [fst] in S2. split; [auto|]. destruct (FAILED hr2); auto. }
  destruct (FAILED hr1) eqn:E1; cbn [negb].
  { unfold ebind at 1, eret at 1. cbn [negb]. unfold ebind at 1, eret at 1. rewrite E1. cbn [negb].
    apply Hend; [auto|rewrite E1; eauto using service_failed]. }
  unfold ebind at 1. pose proof (context_shadows b VSS_CTX_ALL d1) as S2. pose proof (context_failure b VSS_CTX_ALL d1) as F2.
  destruct (SetContext b VSS_CTX_ALL d1) as [d2 hr2] eqn:C2. cbn [fst snd] in *.
  destruct (FAILED hr2) eqn:E2; cbn [negb].
  { unfold ebind at 1, eret at 1. apply Hend; [auto|rewrite E2; eauto using service_failed]. }
  unfold ebind at 1. pose proof (delete_shadows b id d2) as S3. pose proof (delete_failure b id d2) as F3.
  pose proof (deleted_shadow b id d2) as D3.
  destruct (DeleteSnapshots b id d2) as [d3 hr3] eqn:C3. cbn [fst snd] in *.
  apply Hend; [auto|]. destruct (FAILED hr3) eqn:E3; [eauto using service_failed|]. by eapply D3.
Qed.

Lemma DeleteSnapshot_tracked id h m d :
  map_find m id = Some h ->
  let '(d', (m', dw)) := DeleteSnapshot id m d in
  (forall i, shadow d' i -> shadow d i) /\
  (m' = m /\ dw <> ERROR_SUCCESS /\ (exists hr, service_failed d (vssId (heldInfo h)) hr /\ dw = HResultToDword hr) \/
   m' = map_erase m id /\ dw = ERROR_SUCCESS /\ ~ shadow d' (vssId (heldInfo h))).
Proof using SL.
  intros Hf. unfold DeleteSnapshot. rewrite Hf. unfold ebind at 1.
  pose proof (DeleteShadow_spec (vssId (heldInfo h)) d) as Hs. destruct (DeleteShadow _ d) as [d1 hr].
  destruct Hs as [Hs Hr]. destruct (FAILED hr).
  { destruct Hr. split; [done|]. left. by eauto. }
  unfold ebind, eret, release_held. cbn.
  assert (Hq : forall i, shadow (fst ((match heldBackup h with Some b => ReleaseBackup b | None => eret tt end) d1)) i -> shadow d1 i).
  { intros i. destruct (heldBackup h); [apply release_shadows|done]. }
  destruct ((match heldBackup h with Some b => ReleaseBackup b | None => eret tt end) d1) as [d2 []].
  cbn [fst] in Hq. split; [auto|]. right. split_and!; [done..|]. intros Hi. by apply Hr, Hq.
Qed.

(** Deletions one after the other, each tried at the disk and with the entries
    that the ones before left, whatever their results: one that succeeds
    erases its entry and ends its shadow; one that fails leaves the entries
    as they are, and its result is the one of the step that the service
    refused. *)
Inductive attempts : disk -> VSSManager -> list (wstring * Z) -> disk -> VSSManager -> Prop :=
| attempts_end d m : attempts d m [] d m
| attempt_deleted d m id h d1 rest d' m' :
    map_find m id = Some h -> DeleteSnapshot id m d = (d1, (map_erase m id, ERROR_SUCCESS)) ->
    ~ shadow d' (vssId (heldInfo h)) ->
    attempts d1 (map_erase m id) rest d' m' -> attempts d m ((id, ERROR_SUCCESS) :: rest) d' m'
| attempt_failed d m id h d1 hr rest d' m' :
    map_find m id = Some h -> DeleteSnapshot id m d = (d1, (m, HResultToDword hr)) ->
    service_failed d (vssId (heldInfo h)) hr -> HResultToDword hr <> ERROR_SUCCESS ->
    attempts d1 m rest d' m' -> attempts d m ((id, HResultToDword hr) :: rest) d' m'.

(** The first result that is a failure, after [e]. *)
Definition first_failure (e : Z) (results : list (wstring * Z)) : Z :=
  default ERROR_SUCCESS (head (filter (fun r => r <> ERROR_SUCCESS) (e :: (snd <$> results)))).

Lemma map_find_erase {A} (m : list (list Z * A)) k k' :
  map_find (map_erase m k) k' = if bool_decide (k' = k) then None else map_find m k'.
Proof. apply map_erase_find. Qed.

Lemma first_failure_cons e id dw results :
  first_failure e ((id, dw) :: results) =
  first_failure (if negb (dw =? ERROR_SUCCESS) && (e =? ERROR_SUCCESS) then dw else e) results.
Proof.
  unfold first_failure. rewrite fmap_cons, !filter_cons. cbn [snd].
  destruct (Z.eqb_spec dw ERROR_SUCCESS) as [->|Hd], (Z.eqb_spec e ERROR_SUCCESS) as [->|He]; cbn [negb andb];
    repeat first [rewrite decide_True by done | rewrite decide_False by naive_solver]; done.
Qed.

Lemma delete_all_spec ids e m d :
  NoDup ids -> (forall id, id ∈ ids -> is_Some (map_find m id)) ->
  let '(d', (m', r)) := delete_all ids e m d in
  (forall i, shadow d' i -> shadow d i) /\
  exists results, attempts d m results d' m' /\ fst <$> results = ids /\ r = first_failure e results.
Proof using SL.
  revert e m d. induction ids as [|id ids IH]; intros e m d Hn Hin.
  { split; [done|]. exists []. split_and!; [constructor|done|]. unfold first_failure.
    rewrite fmap_nil, filter_cons, filter_nil. by destruct (decide (e <> ERROR_SUCCESS)) as [|<-%dec_stable]. }
  apply NoDup_cons in Hn as [Hid Hn]. cbn [delete_all]. unfold ebind at 1.
  destruct (Hin id ltac:(left)) as [h Hh]. pose proof (DeleteSnapshot_tracked id h m d Hh) as Hd.
  destruct (DeleteSnapshot id m d) as [d1 [m1 dw]] eqn:Ed. destruct Hd as [Hs1 Hd].
  set (e1 := if negb (dw =? ERROR_SUCCESS) && (e =? ERROR_SUCCESS) then dw else e).
  specialize (IH e1 m1 d1 Hn). cbv zeta in IH.
  assert (Hin1 : forall i, i ∈ ids -> is_Some (map_find m1 i)).
  { intros i Hi. assert (i <> id) by (by intros ->).
    destruct Hd as [[-> _]|(-> & _)]; [|rewrite map_find_erase, bool_decide_false by done]; apply Hin; by right. }
  specialize (IH Hin1). destruct (delete_all ids e1 m1 d1) as [d2 [m2 r]].
  destruct IH as (IHs & results & IHa & IHf & IHr). split; [auto|]. exists ((id, dw) :: results).
  rewrite fmap_cons, IHf, first_failure_cons. split_and!; [|done..].
  destruct Hd as [(-> & Hne & hr & Hsf & ->)|(-> & -> & Hns)]; [by eapply attempt_failed|].
  eapply attempt_deleted; [done..| |done]. by intros ?%IHs.
Qed.

(** An entry goes exactly with a deletion of it that succeeds. *)
Lemma attempts_entries d m results d' m' :
  attempts d m results d' m' -> NoDup (fst <$> results) ->
  (forall id, id ∉ fst <$> results -> map_find m' id = map_find m id) /\
  (forall id dw h, (id, dw) ∈ results -> map_find m id = Some h ->
     if dw =? ERROR_SUCCESS then map_find m' id = None /\ ~ shadow d' (vssId (heldInfo h)) else map_find m' id = Some h).
Proof.
  induction 1 as [|d m id h d1 rest d' m' Hf Hd Hs Ha IH|d m id h d1 hr rest d' m' Hf Hd Hs Hne Ha IH]; intros Hn.
  - split; [done|]. by intros ??? ?%elem_of_nil.
  - rewrite fmap_cons in Hn |- *. apply NoDup_cons in Hn as [Hid Hn]. destruct (IH Hn) as [IHo IHi]. cbn [fst] in *. split.
    + intros i [Hne Hi]%not_elem_of_cons. rewrite IHo by done. by rewrite map_find_erase, bool_decide_false.
    + intros i dw h' [[= -> ->]|Hi]%elem_of_cons Hf'.
      * rewrite Z.eqb_refl, IHo by done. rewrite map_find_erase, bool_decide_true by done.
        assert (h' = h) as -> by congruence. done.
      * apply IHi; [done|]. rewrite map_find_erase, bool_decide_false; [done|]. intros ->.
        apply Hid, list_elem_of_fmap. by eexists (_, _).
  - rewrite fmap_cons in Hn |- *. apply NoDup_cons in Hn as [Hid Hn]. destruct (IH Hn) as [IHo IHi]. cbn [fst] in *. split.
    + intros i [Hne' Hi]%not_elem_of_cons. by apply IHo.
    + intros i dw h' [[= -> ->]|Hi]%elem_of_cons Hf'; [|by apply IHi].
      rewrite IHo by done. by rewrite (proj2 (Z.eqb_neq _ _) Hne).
Qed.

Lemma session_ids_spec (m : VSSManager) id :
  sorted_map m -> id ∈ session_ids m <-> exists h, map_find m id = Some h /\ persistent (heldInfo h) = false.
Proof.
  intros Hm. unfold session_ids. rewrite list_elem_of_fmap. split.
  - intros ([k h] & -> & [Hp Hk]%list_elem_of_filter). exists h. split; [|done].
    by apply map_find_sorted.
  - intros (h & Hf & Hp). exists (id, h). split; [done|]. apply list_elem_of_filter. split; [done|]. by apply map_find_elem.
Qed.

Lemma session_ids_NoDup (m : VSSManager) : sorted_map m -> NoDup (session_ids m).
Proof.
  intros Hm%sorted_map_NoDup. unfold session_ids. eapply sublist_NoDup; [exact Hm|].
  apply (fmap_sublist fst), sublist_filter.
Qed.

(** C33: a cleanup tries to delete each snapshot of the session once, and no
    other, and goes on after a failure; a deletion fails only when the service
    refuses a step of it.  An entry is gone exactly when its deletion
    succeeded, and then the system has no such shadow any more; an entry whose
    deletion failed stays as it is for the next cleanup, like every persistent
    one.  The result is the first failure, else [ERROR_SUCCESS]. *)
Theorem CleanupNonPersistent_retries m d :
  manager_ok m ->
  let '(d', (m', r)) := CleanupNonPersistent m d in
  exists results,
    attempts d m results d' m' /\ NoDup (fst <$> results) /\
    (forall id, id ∈ fst <$> results <-> exists h, map_find m id = Some h /\ persistent (heldInfo h) = false) /\
    r = first_failure ERROR_SUCCESS results /\
    (forall id, id ∉ fst <$> results -> map_find m' id = map_find m id) /\
    (forall id dw h, (id, dw) ∈ results -> map_find m id = Some h ->
       if dw =? ERROR_SUCCESS then map_find m' id = None /\ ~ shadow d' (vssId (heldInfo h))
       else map_find m' id = Some h).
Proof using SL.
  intros [Hm _]. unfold CleanupNonPersistent. pose proof (session_ids_NoDup m Hm) as Hn.
  assert (Hids : forall id, id ∈ session_ids m -> is_Some (map_find m id))
    by (intros id (h & Hh & _)%session_ids_spec; [by exists h|done]).
  pose proof (delete_all_spec (session_ids m) ERROR_SUCCESS m d Hn Hids) as Hd.
  destruct (delete_all _ _ m d) as [d' [m' r]]. destruct Hd as (_ & results & Ha & Hf & Hr).
  rewrite <- Hf in Hn. exists results. split_and!; try done; [|by apply (attempts_entries _ _ _ _ _ Ha)..].
  intros id. rewrite Hf. by apply session_ids_spec.
Qed.
End Cleanup.
