(* ===== verification/Ledger.v ===== *)
(** * Concrete virtual disks, and a host with a ledger

    [mem_vhd] gives the calls of [VhdHost] on the concrete volume, and the
    theorems of [VhdFacts.v] are applied there.  A ledger beside the disk of
    any host records the system's objects, handles of virtual disks or shadow
    copies; the calls on files leave it alone. *)
From S2P Require Export VssFacts HostMountPoint MemEntry ImageLaws.
Open Scope Z_scope.

Section Ledger.
Context `{W : Win32} (L : Type).

Definition lifted {A} (m : eff disk A) : eff (disk * L) A := fun s =>
  let (d, a) := m (fst s) in ((d, snd s), a).

(** A call on the ledger. *)
Definition on_ledger {A} (m : eff L A) : eff (disk * L) A := fun s =>
  let (l, a) := m (snd s) in ((fst s, l), a).

Definition ledger_win32 : Win32 := {|
  disk := (disk * L)%type;
  handle := handle;
  char_lower := char_lower;
  char_upper := char_upper;
  GetFullPathNameW := GetFullPathNameW;
  GetFileAttributesW := fun a0 a1 => GetFileAttributesW (fst a0) a1;
  GetFileTimes := fun a0 a1 => GetFileTimes (fst a0) a1;
  OpenExistingW := fun a0 a1 a2 a3 => OpenExistingW (fst a0) a1 a2 a3;
  GetAttributeTag := fun a0 a1 => GetAttributeTag (fst a0) a1;
  GetHandleAttributes := fun a0 a1 => GetHandleAttributes (fst a0) a1;
  GetReparseData := fun a0 a1 => GetReparseData (fst a0) a1;
  FindFilesW := fun a0 a1 => FindFilesW (fst a0) a1;
  GetFileSizeEx := fun a0 a1 => GetFileSizeEx (fst a0) a1;
  ReadFileStart := fun a0 a1 a2 => ReadFileStart (fst a0) a1 a2;
  CreateAlwaysW := fun a0 a1 => lifted (CreateAlwaysW a0 a1);
  WriteFile := fun a0 a1 => lifted (WriteFile a0 a1);
  SetFileTime := fun a0 a1 => lifted (SetFileTime a0 a1);
  DeleteFileW := fun a0 => lifted (DeleteFileW a0);
  CreateDirectoryW := fun a0 => lifted (CreateDirectoryW a0);
  RemoveDirectoryW := fun a0 => lifted (RemoveDirectoryW a0);
  MoveFileExW := fun a0 a1 a2 => lifted (MoveFileExW a0 a1 a2);
  RenameByHandle := fun a0 a1 a2 => lifted (RenameByHandle a0 a1 a2);
  create_directories := fun a0 => lifted (create_directories a0);
  remove_all := fun a0 => lifted (remove_all a0);
  WideCharToMultiByte := WideCharToMultiByte;
  MultiByteToWideChar := MultiByteToWideChar;
  bcrypt_sha1 := bcrypt_sha1
|}.

(** The disk of the host below. *)
Definition base (s : @disk ledger_win32) : @disk W := @fst (@disk W) L s.

Context `{H : !EntryHost} `{I : !ImageHost}.

Definition ledger_entry_host : @EntryHost ledger_win32 := {|
  EntryHost.GetLastError := fun a0 => @EntryHost.GetLastError W H (base a0);
  EntryHost.GetSystemTimeAsFileTime := fun a0 => @EntryHost.GetSystemTimeAsFileTime W H (base a0);
  EntryHost.nt_code := @EntryHost.nt_code W H;
  EntryHost.GetCurrentProcessId := @EntryHost.GetCurrentProcessId W H;
  EntryHost.GetCurrentThreadId := @EntryHost.GetCurrentThreadId W H;
  EntryHost.OpenSharedW := fun a0 a1 a2 a3 a4 => @EntryHost.OpenSharedW W H (base a0) a1 a2 a3 a4;
  EntryHost.CreateFileW := fun a0 a1 a2 a3 a4 => lifted (@EntryHost.CreateFileW W H a0 a1 a2 a3 a4);
  EntryHost.CloseHandle := fun a0 => lifted (@EntryHost.CloseHandle W H a0);
  EntryHost.ReadFileAt := fun a0 a1 a2 a3 => @EntryHost.ReadFileAt W H (base a0) a1 a2 a3;
  EntryHost.WriteFileAt := fun a0 a1 a2 => lifted (@EntryHost.WriteFileAt W H a0 a1 a2);
  EntryHost.SetFilePointerEx := fun a0 a1 a2 => @EntryHost.SetFilePointerEx W H (base a0) a1 a2;
  EntryHost.SetEndOfFile := fun a0 a1 => lifted (@EntryHost.SetEndOfFile W H a0 a1);
  EntryHost.QueryRanges := fun a0 a1 a2 a3 a4 => @EntryHost.QueryRanges W H (base a0) a1 a2 a3 a4;
  EntryHost.SetSparseState := fun a0 a1 => lifted (@EntryHost.SetSparseState W H a0 a1);
  EntryHost.SetCompressionState := fun a0 => lifted (@EntryHost.SetCompressionState W H a0);
  EntryHost.SetAllocationSize := fun a0 a1 => lifted (@EntryHost.SetAllocationSize W H a0 a1);
  EntryHost.GetStreamInformation := fun a0 a1 a2 => @EntryHost.GetStreamInformation W H (base a0) a1 a2;
  EntryHost.EncryptFileW := fun a0 => lifted (@EntryHost.EncryptFileW W H a0);
  EntryHost.GetFileIndex := fun a0 a1 => @EntryHost.GetFileIndex W H (base a0) a1;
  EntryHost.GetFileTime := fun a0 a1 => @EntryHost.GetFileTime W H (base a0) a1;
  EntryHost.GetFileAttributesExW := fun a0 a1 => @EntryHost.GetFileAttributesExW W H (base a0) a1;
  EntryHost.GetBasicAttributes := fun a0 a1 => @EntryHost.GetBasicAttributes W H (base a0) a1;
  EntryHost.SetBasicInfo := fun a0 a1 a2 a3 => lifted (@EntryHost.SetBasicInfo W H a0 a1 a2 a3);
  EntryHost.SetReparsePoint := fun a0 a1 => lifted (@EntryHost.SetReparsePoint W H a0 a1);
  EntryHost.has_ea_calls := @EntryHost.has_ea_calls W H;
  EntryHost.NtQueryEaFile := fun a0 a1 a2 => @EntryHost.NtQueryEaFile W H (base a0) a1 a2;
  EntryHost.NtSetEaFile := fun a0 a1 => lifted (@EntryHost.NtSetEaFile W H a0 a1);
  EntryHost.ListDirectoryNames := fun a0 a1 => @EntryHost.ListDirectoryNames W H (base a0) a1;
  EntryHost.SetDispositionEx := fun a0 => lifted (@EntryHost.SetDispositionEx W H a0);
  EntryHost.SetDisposition := fun a0 => lifted (@EntryHost.SetDisposition W H a0);
  EntryHost.GetFinalPathNameByHandleW := fun a0 a1 => @EntryHost.GetFinalPathNameByHandleW W H (base a0) a1;
  EntryHost.security := @EntryHost.security W H;
  EntryHost.access_list := @EntryHost.access_list W H;
  EntryHost.is_security_privilege_held := @EntryHost.is_security_privilege_held W H;
  EntryHost.GetFileSecuritySize := fun a0 a1 a2 => @EntryHost.GetFileSecuritySize W H (base a0) a1 a2;
  EntryHost.GetFileSecurityW := fun a0 a1 a2 a3 => @EntryHost.GetFileSecurityW W H (base a0) a1 a2 a3;
  EntryHost.SetFileSecurityW := fun a0 a1 a2 => lifted (@EntryHost.SetFileSecurityW W H a0 a1 a2);
  EntryHost.GetSecurityDescriptorDacl := @EntryHost.GetSecurityDescriptorDacl W H;
  EntryHost.GetSecurityDescriptorSacl := @EntryHost.GetSecurityDescriptorSacl W H;
  EntryHost.GetNamedSecurityInfoW := fun a0 a1 a2 => @EntryHost.GetNamedSecurityInfoW W H (base a0) a1 a2;
  EntryHost.SetNamedSecurityInfoW := fun a0 a1 a2 a3 => lifted (@EntryHost.SetNamedSecurityInfoW W H a0 a1 a2 a3);
  EntryHost.GetTokenUser := fun a0 => @EntryHost.GetTokenUser W H (base a0);
  EntryHost.MakeProtectedDacl := @EntryHost.MakeProtectedDacl W H;
  EntryHost.SetKernelObjectSecurity := fun a0 a1 => lifted (@EntryHost.SetKernelObjectSecurity W H a0 a1)
|}.

Definition ledger_image_host : @ImageHost ledger_win32 := {|
  ImageHost.alloc := @ImageHost.alloc W I;
  ImageHost.ifstream_open := fun a0 a1 => @ImageHost.ifstream_open W I (base a0) a1;
  ImageHost.ofstream_open := fun a0 => lifted (@ImageHost.ofstream_open W I a0);
  ImageHost.ofstream_write := fun a0 a1 a2 => lifted (@ImageHost.ofstream_write W I a0 a1 a2);
  ImageHost.ofstream_seek := fun a0 a1 => lifted (@ImageHost.ofstream_seek W I a0 a1);
  ImageHost.ofstream_close := fun a0 => lifted (@ImageHost.ofstream_close W I a0);
  ImageHost.fs_exists := fun a0 a1 => @ImageHost.fs_exists W I (base a0) a1;
  ImageHost.weakly_canonical := fun a0 a1 => @ImageHost.weakly_canonical W I (base a0) a1;
  ImageHost.fs_remove := fun a0 => lifted (@ImageHost.fs_remove W I a0);
  ImageHost.recursive_walk := fun a0 a1 => @ImageHost.recursive_walk W I (base a0) a1;
  ImageHost.GetFileAttributesExW := fun a0 a1 => @ImageHost.GetFileAttributesExW W I (base a0) a1;
  ImageHost.SetFileAttributesW := fun a0 a1 => lifted (@ImageHost.SetFileAttributesW W I a0 a1);
  ImageHost.OpenToSetTime := fun a0 a1 => @ImageHost.OpenToSetTime W I (base a0) a1;
  ImageHost.SetWriteTime := fun a0 a1 => lifted (@ImageHost.SetWriteTime W I a0 a1);
  ImageHost.CloseHandle := fun a0 => lifted (@ImageHost.CloseHandle W I a0);
  ImageHost.GetLongPathNameW := fun a0 a1 => @ImageHost.GetLongPathNameW W I (base a0) a1;
  ImageHost.zstd_compressBound := @ImageHost.zstd_compressBound W I;
  ImageHost.zstd_compress := @ImageHost.zstd_compress W I;
  ImageHost.zstd_content_size := @ImageHost.zstd_content_size W I;
  ImageHost.zstd_decompress := @ImageHost.zstd_decompress W I;
  ImageHost.bcrypt_algorithm := @ImageHost.bcrypt_algorithm W I;
  ImageHost.bcrypt_hash := @ImageHost.bcrypt_hash W I;
  ImageHost.BCryptOpenAlgorithmProvider := @ImageHost.BCryptOpenAlgorithmProvider W I;
  ImageHost.BCryptGetObjectLength := @ImageHost.BCryptGetObjectLength W I;
  ImageHost.BCryptCreateHash := @ImageHost.BCryptCreateHash W I;
  ImageHost.BCryptHashData := @ImageHost.BCryptHashData W I;
  ImageHost.BCryptFinishHash := @ImageHost.BCryptFinishHash W I;
  ImageHost.towlower := @ImageHost.towlower W I;
  ImageHost.json_dump2 := @ImageHost.json_dump2 W I;
  ImageHost.json_extract := @ImageHost.json_extract W I
|}.

(** The ledger after a call on files. *)
Lemma lifted_ledger {A} (m : eff disk A) s : snd (fst (lifted m s)) = snd s.
Proof. unfold lifted. by destruct (m (fst s)). Qed.
End Ledger.

(** ** Virtual disks on the concrete volume

    The handle of a disk is its path.  There is one disk, number 1, whose
    volume holds a directory, a file in it, and a system directory; a mount
    makes them appear. *)
Module MemVhd.
Import MemWin32.

Definition open_disk (p : wstring) : eff volume (w32 wstring) := fun v =>
  (v, match lookup_entry v p with Ok _ => Ok p | Err e => Err e end).

Definition create_file (p : wstring) : eff volume (w32 wstring) := fun v =>
  match lookup_entry v p with
  | Ok _ => (v, Err ERROR_ALREADY_EXISTS)
  | Err _ => (put_entry v p (MemEntry FILE_ATTRIBUTE_ARCHIVE 0 [] []), Ok p)
  end.

Definition a_file (data : list Z) : mem_entry := MemEntry FILE_ATTRIBUTE_ARCHIVE 0 data [].
Definition a_directory : mem_entry := MemEntry FILE_ATTRIBUTE_DIRECTORY 0 [] [].

Definition mount_volume (p : wstring) : eff volume (w32 unit) := fun v =>
  ((p ++ L "System Volume Information", a_directory) :: (p ++ L "sub", a_directory) ::
   (p ++ L "sub\f", a_file [7]) :: v, Ok tt).

Definition status_of (v : volume) (p : wstring) : w32 file_type :=
  Ok match lookup_entry v p with
     | Err _ => NotFoundFile
     | Ok e => if has_attr (me_attributes e) FILE_ATTRIBUTE_REPARSE_POINT
               then if me_tag e =? IO_REPARSE_TAG_SYMLINK then SymlinkFile else OtherFile
               else if has_attr (me_attributes e) FILE_ATTRIBUTE_DIRECTORY then DirectoryFile else RegularFile
     end.

Definition list_of (v : volume) (p : wstring) : w32 (list wstring * option Z) :=
  match lookup_entry v p with
  | Err e => Err e
  | Ok _ => Ok ((fun e => append p (cFileName e)) <$> list_children v p, None)
  end.

Definition copy_entry (p q : wstring) : eff volume (w32 unit) := fun v =>
  match lookup_entry v p with
  | Ok e => (put_entry v q e, Ok tt)
  | Err e => (v, Err e)
  end.

Definition make_directory (q : wstring) : eff volume (w32 unit) := fun v =>
  match lookup_entry v q with Ok _ => (v, Ok tt) | Err _ => (put_entry v q a_directory, Ok tt) end.

(** The entries at or below a path, again below another. *)
Definition copy_all (p q : wstring) : eff volume (w32 unit) := fun v =>
  (omap (fun pe => if at_or_below p (fst pe) then Some (q ++ drop (length p) (fst pe), snd pe) else None) v ++ v, Ok tt).
End MemVhd.

#[export] Instance mem_vhd : VhdHost (W := mem_win32) := {|
  OpenProcessToken := fun _ => Ok 1;
  GetTokenElevation := fun _ _ => Ok true;
  vhd_handle := wstring;
  CloseVhdHandle := fun _ => eret tt;
  OpenVirtualDisk := fun _ => MemVhd.open_disk;
  CreateVirtualDisk := fun p _ => MemVhd.create_file p;
  AttachVirtualDisk := fun _ _ => eret (Ok tt);
  GetVirtualDiskPhysicalPath := fun _ _ => Ok (L "\\.\PhysicalDrive1");
  DetachVirtualDisk := fun _ => eret (Ok tt);
  MergeVirtualDisk := fun _ _ _ => eret (Ok tt);
  FindVolumes := fun _ => Ok (L "\\?\Volume{0}\", [L "\\?\Volume{1}\"], ERROR_NO_MORE_FILES);
  GetDeviceNumber := fun _ h => Ok (if bool_decide (h = L "\\?\Volume{1}") then 1 else 0);
  VolumePathNamesSize := fun _ _ => (5, ERROR_MORE_DATA);
  GetVolumePathNames := fun _ _ _ => Ok (L "M:\" ++ [0; 0]);
  SetDiskOnline := fun _ => eret tt;
  GetDiskSize := fun _ _ => Ok kMinSize;
  CreateGptDisk := fun _ _ => eret (Ok tt);
  UpdateDiskProperties := fun _ => eret tt;
  SetDriveLayout := fun _ _ => eret (Ok tt);
  CoCreateGuid := eret (Some (L "1"));
  StringFromGUID2 := fun guid => Some (L "{" ++ guid ++ L "}");
  Sleep := fun _ => eret tt;
  GetTempPathW := fun _ => L "C:\t\";
  CreateProcessW := fun _ => eret (Ok 1);
  WaitForProcess := fun _ _ => eret (0, 0);
  TerminateProcess := fun _ => eret tt;
  GetExitCodeProcess := fun _ _ => Some 0;
  CloseProcess := fun _ => eret tt;
  SetVolumeMountPointW := fun p _ => MemVhd.mount_volume p;
  DeleteVolumeMountPointW := fun _ => eret (Ok tt);
  directory_list := MemVhd.list_of;
  symlink_status := MemVhd.status_of;
  is_regular_file := fun v p => bool_decide (MemVhd.status_of v p = Ok RegularFile);
  file_size := MemWin32.field (fun e => Z.of_nat (length (MemWin32.me_data e)));
  copy_symlink := MemVhd.copy_entry;
  create_directory_like := fun q _ => MemVhd.make_directory q;
  copy_file_overwriting := MemVhd.copy_entry;
  copy_recursively := MemVhd.copy_all;
  remove_path := MemWin32.delete_entry
|}.

(** ** Virtual disks beside a ledger

    What an open, a create and a close note there. *)
Section Handles.
Context `{W : Win32} `{V : !VhdHost}.

Definition vhd_beside (R : Type) (on_open : eff disk (w32 vhd_handle) -> eff (disk * R) (w32 vhd_handle))
    (on_close : vhd_handle -> eff disk unit -> eff (disk * R) unit) : @VhdHost (ledger_win32 R) := {|
  OpenProcessToken := fun a0 => @OpenProcessToken W V (base R a0);
  GetTokenElevation := fun a0 a1 => @GetTokenElevation W V (base R a0) a1;
  vhd_handle := @vhd_handle W V;
  CloseVhdHandle := fun a0 => on_close a0 (@CloseVhdHandle W V a0);
  OpenVirtualDisk := fun a0 a1 => on_open (@OpenVirtualDisk W V a0 a1);
  CreateVirtualDisk := fun a0 a1 => on_open (@CreateVirtualDisk W V a0 a1);
  AttachVirtualDisk := fun a0 a1 => lifted R (@AttachVirtualDisk W V a0 a1);
  GetVirtualDiskPhysicalPath := fun a0 a1 => @GetVirtualDiskPhysicalPath W V (base R a0) a1;
  DetachVirtualDisk := fun a0 => lifted R (@DetachVirtualDisk W V a0);
  MergeVirtualDisk := fun a0 a1 a2 => lifted R (@MergeVirtualDisk W V a0 a1 a2);
  FindVolumes := fun a0 => @FindVolumes W V (base R a0);
  GetDeviceNumber := fun a0 a1 => @GetDeviceNumber W V (base R a0) a1;
  VolumePathNamesSize := fun a0 a1 => @VolumePathNamesSize W V (base R a0) a1;
  GetVolumePathNames := fun a0 a1 a2 => @GetVolumePathNames W V (base R a0) a1 a2;
  SetDiskOnline := fun a0 => lifted R (@SetDiskOnline W V a0);
  GetDiskSize := fun a0 a1 => @GetDiskSize W V (base R a0) a1;
  CreateGptDisk := fun a0 a1 => lifted R (@CreateGptDisk W V a0 a1);
  UpdateDiskProperties := fun a0 => lifted R (@UpdateDiskProperties W V a0);
  SetDriveLayout := fun a0 a1 => lifted R (@SetDriveLayout W V a0 a1);
  CoCreateGuid := lifted R (@CoCreateGuid W V);
  StringFromGUID2 := @StringFromGUID2 W V;
  Sleep := fun a0 => lifted R (@Sleep W V a0);
  GetTempPathW := fun a0 => @GetTempPathW W V (base R a0);
  CreateProcessW := fun a0 => lifted R (@CreateProcessW W V a0);
  WaitForProcess := fun a0 a1 => lifted R (@WaitForProcess W V a0 a1);
  TerminateProcess := fun a0 => lifted R (@TerminateProcess W V a0);
  GetExitCodeProcess := fun a0 a1 => @GetExitCodeProcess W V (base R a0) a1;
  CloseProcess := fun a0 => lifted R (@CloseProcess W V a0);
  SetVolumeMountPointW := fun a0 a1 => lifted R (@SetVolumeMountPointW W V a0 a1);
  DeleteVolumeMountPointW := fun a0 => lifted R (@DeleteVolumeMountPointW W V a0);
  directory_list := fun a0 a1 => @directory_list W V (base R a0) a1;
  symlink_status := fun a0 a1 => @symlink_status W V (base R a0) a1;
  is_regular_file := fun a0 a1 => @is_regular_file W V (base R a0) a1;
  file_size := fun a0 a1 => @file_size W V (base R a0) a1;
  copy_symlink := fun a0 a1 => lifted R (@copy_symlink W V a0 a1);
  create_directory_like := fun a0 a1 => lifted R (@create_directory_like W V a0 a1);
  copy_file_overwriting := fun a0 a1 => lifted R (@copy_file_overwriting W V a0 a1);
  copy_recursively := fun a0 a1 => lifted R (@copy_recursively W V a0 a1);
  remove_path := fun a0 => lifted R (@remove_path W V a0)
|}.
Definition noting_open {A} (m : eff disk (w32 A)) : eff (disk * list A) (w32 A) := fun s =>
  let (d, r) := m (fst s) in ((d, match r with Ok h => h :: snd s | Err _ => snd s end), r).

(** The first such handle goes. *)
Fixpoint take_off {A} `{EqDecision A} (h : A) (l : list A) : list A :=
  match l with [] => [] | x :: l => if decide (x = h) then l else x :: take_off h l end.

Definition noting_close {A} `{EqDecision A} (h : A) (m : eff disk unit) : eff (disk * list A) unit := fun s =>
  let (d, u) := m (fst s) in ((d, take_off h (snd s)), u).

Lemma take_off_perm {A} `{EqDecision A} (h : A) l l' : l ≡ₚ h :: l' -> take_off h l ≡ₚ l'.
Proof.
  intros Hl. assert (Hh : h ∈ l) by (rewrite Hl; left). apply (Permutation_cons_inv (a := h)). rewrite <- Hl. clear Hl l'.
  induction l as [|x l IH]; [by apply elem_of_nil in Hh|]. cbn [take_off]. destruct (decide (x = h)) as [->|Hne]; [done|].
  rewrite perm_swap, IH; [done|]. by apply elem_of_cons in Hh as [->|].
Qed.

(** The ledger of the open handles, and one that disks leave alone. *)
Definition ledger_vhd `{EqDecision vhd_handle} : @VhdHost (ledger_win32 (list vhd_handle)) :=
  vhd_beside (list vhd_handle) noting_open noting_close.

Definition lifted_vhd (R : Type) : @VhdHost (ledger_win32 R) := vhd_beside R (lifted R) (fun _ => lifted R).
End Handles.

Section HandleLedger.
Context `{W : Win32} `{H : !EntryHost} `{I : !ImageHost} `{V : !VhdHost} `{EqDecision vhd_handle}.

Definition ledger_handle_laws :
  HandleLaws (W := ledger_win32 (list vhd_handle)) (H := ledger_entry_host (list vhd_handle))
    (I := ledger_image_host (list vhd_handle)) (V := ledger_vhd).
Proof.
  unshelve econstructor; [exact (@snd (@disk W) (list vhd_handle))|..]; unfold preserves; intros *;
    try (cbn; apply lifted_ledger).
  - cbn. unfold noting_open. destruct (OpenVirtualDisk device p (fst d)) as [d1 r1]. by intros [= <- <-].
  - cbn. unfold noting_open. destruct (CreateVirtualDisk p params (fst d)) as [d1 r1]. by intros [= <- <-].
  - cbn. unfold noting_close. intros Hd. destruct (@CloseVhdHandle W V h (fst d)) as [d1 u]. cbn. rewrite Hd. cbn.
    by rewrite decide_True.
Defined.
End HandleLedger.

(** ** A shadow copy service in a ledger

    A pointer is a new number.  A shadow is made when its volume is added, and
    is named by one letter.  The volume [X:] is not supported, the shadow [b]
    can not be deleted, and an enumeration ends as the service is told.  The
    threads have so many initializations of COM open. *)
Record vss_service := {
  objects : gset com_object;
  shadows : list VSS_ID;
  listed : list VSS_ID;
  enumEnd : Z;
  threadInits : Z
}.

Module MemVss.

Definition changed (os : gset com_object) (sh li : list VSS_ID) (s : vss_service) : vss_service := {|
  objects := os; shadows := sh; listed := li; enumEnd := enumEnd s; threadInits := threadInits s |}.

Definition pointer_of (o : com_object) : Z := match o with Component p | Waiting p | Enumerator p => p end.

Definition make (o : Z -> com_object) : eff vss_service (Z * option Z) := fun s =>
  let p := fresh (set_map pointer_of (objects s) : gset Z) in
  (changed ({[o p]} ∪ objects s) (shadows s) (listed s) s, (S_OK, Some p)).

Definition make_component : eff vss_service (Z * Z) := fun s =>
  let (s, r) := make Component s in (s, (fst r, default 0 (snd r))).

Definition drop_object (o : com_object) : eff vss_service unit := fun s =>
  (changed (objects s ∖ {[o]}) (shadows s) (listed s) s, tt).

Definition add_volume (volume : wstring) : eff vss_service (Z * VSS_ID) := fun s =>
  if bool_decide (volume = L "X:\") then (s, (VSS_E_VOLUME_NOT_SUPPORTED, []))
  else
    let id := [97 + Z.of_nat (length (shadows s))] in
    (changed (objects s) (shadows s ++ [id]) (listed s) s, (S_OK, id)).

Definition delete_shadow (id : VSS_ID) : eff vss_service Z := fun s =>
  if bool_decide (id = L "b") then (s, VSS_E_BAD_STATE)
  else (changed (objects s) (filter (fun i => i <> id) (shadows s)) (listed s) s, S_OK).

Definition prop_of (id : VSS_ID) : snapshot_prop := {|
  m_SnapshotId := id; m_OriginalVolumeName := Some (L "C:\");
  m_SnapshotDeviceObject := Some (L "\\?\GLOBALROOT\Device\HarddiskVolumeShadowCopy_" ++ id ++ L "\");
  m_lSnapshotAttributes := 0; m_tsCreationTimestamp := 0 |}.

Definition query : eff vss_service (Z * option Z) := fun s =>
  make Enumerator (changed (objects s) (shadows s) (shadows s) s).

Definition next : eff vss_service (Z * option snapshot_prop) := fun s =>
  match listed s with
  | [] => (s, (enumEnd s, None))
  | id :: rest => (changed (objects s) (shadows s) rest s,
                   (S_OK, Some (prop_of id)))
  end.

Definition add_inits {A} (a : A) (n : Z) : eff vss_service A := fun s =>
  ({| objects := objects s; shadows := shadows s; listed := listed s; enumEnd := enumEnd s;
      threadInits := threadInits s + n |}, a).

(** Days since 1970-01-01 of a date. *)
Definition days_from_civil (date : Z * Z * Z) : Z :=
  let '(y, m, d) := date in
  let y := y - (if m <=? 2 then 1 else 0) in
  let era := y / 400 in
  let yoe := y - era * 400 in
  let doy := (153 * ((m + 9) mod 12) + 2) / 5 + d - 1 in
  era * 146097 + (yoe * 365 + yoe / 4 - yoe / 100 + doy) - 719468.

(** From 1601-01-01, 134774 days before. *)
Definition system_time (ft : Z) : option SYSTEMTIME :=
  if (0 <=? ft) && (ft <? 2 ^ 63)
  then Some (gmtime (ft / ticks_per_second - 134774 * 86400))
  else None.

Definition file_time (st : SYSTEMTIME) : option Z :=
  Some (((days_from_civil (wYear st, wMonth st, wDay st) + 134774) * 86400
         + wHour st * 3600 + wMinute st * 60 + wSecond st) * ticks_per_second).
End MemVss.

Abbreviation vss_win32 := (ledger_win32 (W := mem_win32) vss_service).

#[export] Instance vss_entry_host : EntryHost (W := vss_win32) := ledger_entry_host vss_service.
#[export] Instance vss_image_host : ImageHost (W := vss_win32) := ledger_image_host vss_service.
#[export] Instance vss_vhd : VhdHost (W := vss_win32) := lifted_vhd (W := mem_win32) vss_service.

Definition on_service {A} (m : eff vss_service A) : eff (@disk vss_win32) A := on_ledger (W := mem_win32) vss_service m.

#[export] Instance mem_vss : VssHost (W := vss_win32) := {|
  CreateVssBackupComponents := on_service MemVss.make_component;
  InitializeForBackup := fun _ => eret S_OK;
  SetContext := fun _ _ => eret S_OK;
  SetBackupState := fun _ => eret S_OK;
  GatherWriterMetadata := fun _ => on_service (MemVss.make Waiting);
  FreeWriterMetadata := fun _ => eret tt;
  StartSnapshotSet := fun _ => eret (S_OK, []);
  AddToSnapshotSet := fun _ volume => on_service (MemVss.add_volume volume);
  PrepareForBackup := fun _ => on_service (MemVss.make Waiting);
  DoSnapshotSet := fun _ => on_service (MemVss.make Waiting);
  GetSnapshotProperties := fun _ id => eret (S_OK, MemVss.prop_of id);
  VssFreeSnapshotProperties := fun _ => eret tt;
  DeleteSnapshots := fun _ id => on_service (MemVss.delete_shadow id);
  AbortBackup := fun _ => eret tt;
  ReleaseBackup := fun p => on_service (MemVss.drop_object (Component p));
  AsyncWait := fun _ => eret S_OK;
  AsyncQueryStatus := fun _ => eret (S_OK, S_OK);
  ReleaseAsync := fun p => on_service (MemVss.drop_object (Waiting p));
  Query := fun _ => on_service MemVss.query;
  EnumNext := fun _ => on_service MemVss.next;
  ReleaseEnum := fun p => on_service (MemVss.drop_object (Enumerator p));
  CLSIDFromString := fun text => match text with _ :: rest => Some (take (length rest - 1) rest) | [] => None end;
  UuidFromStringW := Some;
  time_now := fun _ => 1700000000;
  FileTimeToSystemTime := MemVss.system_time;
  SystemTimeToFileTime := MemVss.file_time;
  CoInitializeEx := on_service (MemVss.add_inits S_OK 1);
  CoUninitialize := on_service (MemVss.add_inits tt (-1))
|}.

Lemma fresh_object (o : Z -> com_object) (s : vss_service) :
  (forall p, MemVss.pointer_of (o p) = p) -> o (fresh (set_map MemVss.pointer_of (objects s) : gset Z)) ∉ objects s.
Proof.
  intros Ho Hi. apply (is_fresh (set_map MemVss.pointer_of (objects s) : gset Z)).
  apply elem_of_map. eexists. split; [|exact Hi]. by rewrite Ho.
Qed.

Lemma make_gives o (d : @disk vss_win32) :
  (forall p, MemVss.pointer_of (o p) = p) ->
  match on_service (MemVss.make o) d with
  | (d', (hr, Some p)) => if FAILED hr then objects (snd d') = objects (snd d)
                          else o p ∉ objects (snd d) /\ objects (snd d') = {[o p]} ∪ objects (snd d)
  | (d', (hr, None)) => objects (snd d') = objects (snd d)
  end.
Proof. intros Ho. split; [by apply fresh_object|done]. Qed.

#[export] Instance mem_component_laws : ComponentLaws (W := vss_win32).
Proof.
  refine {| live := fun d : @disk vss_win32 => objects (snd d) |}; try done; intros *.
  - cbn. split; [|done]. by apply fresh_object.
  - intros d. by apply make_gives.
  - intros d. by apply make_gives.
  - intros d. by apply make_gives.
  - intros d. by apply (make_gives Enumerator (fst d, MemVss.changed _ _ _ _)).
  - intros [vol s]. cbn. unfold on_service, on_ledger, MemVss.add_volume. cbn. by case_bool_decide.
  - intros [vol s]. cbn. unfold on_service, on_ledger, MemVss.delete_shadow. cbn. by case_bool_decide.
  - intros [vol s]. cbn. unfold on_service, on_ledger, MemVss.next. cbn. by destruct (listed s).
Defined.

#[export] Instance mem_shadow_laws : ShadowLaws (W := vss_win32).
Proof.
  refine {| shadow := fun (d : @disk vss_win32) i => i ∈ shadows (snd d) |}; try done; intros *; cbn.
  - destruct d as [vol s]. cbn. unfold on_service, on_ledger, MemVss.delete_shadow. cbn. case_bool_decide; [done|].
    by intros [_ ?]%list_elem_of_filter.
  - destruct d as [vol s]. cbn. unfold on_service, on_ledger, MemVss.delete_shadow. cbn.
    case_bool_decide; intros [= <- <-]; [done|]. by intros _ [? _]%list_elem_of_filter.
  - destruct d as [vol s]. cbn. unfold on_service, on_ledger, MemVss.delete_shadow. cbn. by case_bool_decide.
Defined.

(** ** Runs *)

(** A directory to import, the disk, its volumes, and an empty directory. *)
Definition vhd_volume : MemWin32.volume :=
  [(L "\\?\C:\s", MemVhd.a_directory); (L "\\?\C:\s\.overlay", MemVhd.a_directory);
   (L "\\?\C:\s\a", MemVhd.a_file [1; 2; 3]); (L "\\?\C:\s\d", MemVhd.a_directory);
   (L "\\?\C:\s\d\b", MemVhd.a_file [4]); (L "\\?\C:\o", MemVhd.a_directory);
   (L "\\.\PhysicalDrive1", MemVhd.a_file []); (L "\\?\Volume{0}", MemVhd.a_file []);
   (L "\\?\Volume{1}", MemVhd.a_file []); (L "\\?\C:\w", MemVhd.a_directory)].

(** An import makes the disk and leaves no mount; the sidecar directory stays
    behind, and the capacity is the least one. *)
Example imported :
  ImportedRootEntries vhd_volume (L "C:\s") = Some [L "\\?\C:\s\a"; L "\\?\C:\s\d"] /\
  SizeToFit vhd_volume [L "\\?\C:\s\a"; L "\\?\C:\s\d"] = Ok kMinSize /\
  (let (v, r) := ImportDirectory (L "C:\w") (L "C:\s") (L "C:\n.vhdx") None vhd_volume in
   r = Some ERROR_SUCCESS /\ is_ok (MemWin32.lookup_entry v (L "\\?\C:\n.vhdx")) = true).
Proof. vm_compute. repeat split. Qed.

(** An export copies what the volume shows, but the system directory. *)
Example exported :
  let (v, r) := ExportToDirectory (L "C:\w") (L "C:\s\a") (L "C:\o") vhd_volume in
  r = Some (withoutEntry ERROR_SUCCESS) /\
  MemWin32.me_data <$> MemWin32.find_entry v (MemWin32.key (L "\\?\C:\o\sub\f")) = Some [7] /\
  MemWin32.find_entry v (MemWin32.key (L "\\?\C:\o\System Volume Information")) = None.
Proof. vm_compute. repeat split. Qed.

(** ** The theorems there *)

Lemma find_entry_elem (v : MemWin32.volume) k e : MemWin32.find_entry v k = Some e -> e ∈ snd <$> v.
Proof.
  induction v as [|[p e'] v IH]; cbn; [done|]. case_bool_decide; [intros [= ->]; left|intros He; right; by apply IH].
Qed.

Lemma vhd_volume_sizes : sizes_in_range (W := mem_win32) vhd_volume.
Proof.
  intros p n. cbn [file_size mem_vhd]. unfold MemWin32.field, MemWin32.lookup_entry.
  destruct (MemWin32.find_entry vhd_volume _) as [e|] eqn:Ef; [|done]. intros [= <-].
  apply find_entry_elem in Ef. unfold ULONGLONG_MAX. split; [lia|].
  assert (Hall : Forall (fun e => Z.of_nat (length (MemWin32.me_data e)) <= 2 ^ 64 - 1) (snd <$> vhd_volume))
    by (repeat constructor; cbn; lia).
  rewrite Forall_forall in Hall. by apply Hall.
Qed.

Lemma SizeToFit_capacity_witness :
  SizeToFit (W := mem_win32) vhd_volume [L "\\?\C:\s\a"; L "\\?\C:\s\d"] = Ok (documented_capacity 4).
Proof.
  pose proof (SizeToFit_capacity (W := mem_win32) vhd_volume [L "\\?\C:\s\a"; L "\\?\C:\s\d"] vhd_volume_sizes) as Hs.
  vm_compute in Hs |- *. exact Hs.
Defined.

Lemma GetVolumeGuid_first_match_witness :
  GetVolumeGuidForPhysicalDisk (W := mem_win32) vhd_volume (L "\\.\PhysicalDrive1") = (ERROR_SUCCESS, L "\\?\Volume{1}\") /\
  GetVolumeGuidForPhysicalDisk (W := mem_win32) vhd_volume (L "\\.\PhysicalDrive2") = (ERROR_NOT_FOUND, []).
Proof.
  assert (Hv : FindVolumes (W := mem_win32) vhd_volume = Ok (L "\\?\Volume{0}\", [L "\\?\Volume{1}\"], ERROR_NO_MORE_FILES))
    by reflexivity.
  split.
  - rewrite (GetVolumeGuid_first_match _ (L "\\.\PhysicalDrive1") _ _ _ ltac:(by vm_compute) Hv). vm_compute. reflexivity.
  - rewrite (GetVolumeGuid_first_match _ (L "\\.\PhysicalDrive2") _ _ _ ltac:(by vm_compute) Hv). vm_compute. reflexivity.
Defined.

Section Apart.
Import MemWin32 MemVhd.

Lemma list_children_filter (P : wstring -> Prop) `{!forall k, Decision (P k)} (v : list (wstring * mem_entry)) p :
  (forall k, ~ P k -> starts_with (key (p ++ [ch_bsl])) k = false) ->
  list_children (filter (fun pe => P (key (fst pe))) v) p = list_children v p.
Proof.
  intros Hp. induction v as [|[q e] v IH]; [done|]. rewrite filter_cons. cbn [fst].
  destruct (decide (P (key q))) as [Hq|Hq]; unfold list_children in *; cbn [omap list_omap fst]; [by rewrite IH|].
  rewrite IH. unfold child_name. apply Hp in Hq. unfold starts_with in Hq. apply bool_decide_eq_false in Hq.
  rewrite bool_decide_false; [done|]. unfold key in Hq. by rewrite length_fmap in Hq.
Qed.

Lemma list_children_put v q e p :
  starts_with (key (p ++ [ch_bsl])) (key q) = false -> list_children (put_entry v q e) p = list_children v p.
Proof.
  intros Hq. transitivity (list_children (remove_entry v q) p).
  - unfold list_children, put_entry. cbn [omap list_omap fst]. unfold child_name.
    unfold starts_with in Hq. apply bool_decide_eq_false in Hq.
    rewrite bool_decide_false; [done|]. unfold key in Hq. by rewrite length_fmap in Hq.
  - assert (Hk : forall k, ~ k <> key q -> starts_with (key (p ++ [ch_bsl])) k = false)
      by (intros k Hk%dec_stable; by subst k).
    exact (list_children_filter (fun k => k <> key q) v p Hk).
Qed.

(** [q] is neither [p] nor below it. *)
Definition off (p q : wstring) : Prop := forall r, key q ++ r <> key p /\ starts_with (key (p ++ [ch_bsl])) (key q ++ r) = false.

Lemma off_here p q : off p q -> key q <> key p /\ starts_with (key (p ++ [ch_bsl])) (key q) = false.
Proof. intros Hq. specialize (Hq []). by rewrite app_nil_r in Hq. Qed.

Lemma seen_by (v v' : volume) p :
  lookup_entry v p = lookup_entry v' p -> list_children v p = list_children v' p ->
  status_of v p = status_of v' p /\ list_of v p = list_of v' p.
Proof. unfold status_of, list_of. by intros -> ->. Qed.

Lemma seen_after_put v q e p : off p q ->
  status_of (put_entry v q e) p = status_of v p /\ list_of (put_entry v q e) p = list_of v p.
Proof.
  intros [Hk Hc]%off_here. unfold status_of, list_of, lookup_entry. rewrite find_entry_put, decide_False by done.
  by rewrite list_children_put.
Qed.

Lemma seen_after_copy src v q p : off p q ->
  status_of (fst (copy_entry src q v)) p = status_of v p /\ list_of (fst (copy_entry src q v)) p = list_of v p.
Proof. intros Hq. unfold copy_entry. destruct (lookup_entry v src); [by apply seen_after_put|done]. Qed.

Lemma seen_after_directory v q p : off p q ->
  status_of (fst (make_directory q v)) p = status_of v p /\ list_of (fst (make_directory q v)) p = list_of v p.
Proof. intros Hq. unfold make_directory. destruct (lookup_entry v q); [done|by apply seen_after_put]. Qed.

Lemma seen_after_delete v q p : off p q ->
  status_of (fst (delete_entry q v)) p = status_of v p /\ list_of (fst (delete_entry q v)) p = list_of v p.
Proof.
  intros Hq. unfold delete_entry. destruct (lookup_entry v q); [|done]. cbn [fst].
  pose proof (off_here p q Hq) as [Hk Hc].
  assert (Hs : forall k, starts_with (key q ++ [ch_colon]) k -> k <> key p /\ starts_with (key (p ++ [ch_bsl])) k = false).
  { intros k Hk2%Is_true_true. apply starts_with_prefix in Hk2 as [r ->]. specialize (Hq ([ch_colon] ++ r)).
    rewrite <- app_assoc. by split; [|apply Hq]; intros E; apply Hq. }
  assert (Hl : list_children (filter (fun pe => ~ starts_with (key q ++ [ch_colon]) (key (fst pe)))
                               (remove_entry v q : list (wstring * mem_entry))) p = list_children v p).
  { transitivity (list_children (remove_entry v q) p).
    - assert (Hk2 : forall k, ~ ~ starts_with (key q ++ [ch_colon]) k -> starts_with (key (p ++ [ch_bsl])) k = false)
        by (intros k Hk2%dec_stable; by apply Hs).
      exact (list_children_filter (fun k => ~ starts_with (key q ++ [ch_colon]) k) (remove_entry v q) p Hk2).
    - assert (Hk2 : forall k, ~ k <> key q -> starts_with (key (p ++ [ch_bsl])) k = false)
        by (intros k Hk2%dec_stable; by subst k).
      exact (list_children_filter (fun k => k <> key q) v p Hk2). }
  apply seen_by; [|exact Hl]. unfold lookup_entry. rewrite find_entry_delete, find_entry_remove.
  rewrite decide_True by (intros Hk2; by apply Hs in Hk2 as [? _]). by rewrite decide_True by congruence.
Qed.
End Apart.

(** The tree of the directory to import, copied to the empty directory. *)
Definition sample_tree : source_tree :=
  Node (L "\\?\C:\s") [Node (L "\\?\C:\s\.overlay") [] None; Leaf (L "\\?\C:\s\a");
                       Node (L "\\?\C:\s\d") [Leaf (L "\\?\C:\s\d\b")] None] None.

Definition sample_sources (p : wstring) : Prop := p ∈ tree_paths sample_tree.
Definition sample_dests (q : wstring) : Prop := exists r, q = L "\\?\C:\o" ++ r.

Lemma sample_off p q : sample_sources p -> sample_dests q -> off p q.
Proof.
  unfold sample_sources, tree_paths. cbn [sample_tree tree_paths map concat app].
  intros Hp [r ->] r'. unfold MemWin32.key. rewrite fmap_app, <- app_assoc.
  repeat (apply elem_of_cons in Hp as [->|Hp]; [split; [done|reflexivity]|]). by apply elem_of_nil in Hp.
Qed.

Lemma sample_child p q : sample_sources p -> sample_dests q -> sample_dests (append q (filename p)).
Proof.
  unfold sample_sources, tree_paths. cbn [sample_tree tree_paths map concat app].
  intros Hp [r ->].
  assert (Ha : forall n, root_name_end n = 0%nat -> is_absolute n = false -> slash_at n 0 = false ->
                 exists r', append (L "\\?\C:\o" ++ r) n = L "\\?\C:\o" ++ r').
  { intros n Hn Ha Hs. unfold append. rewrite Hn, Ha, Hs. cbn [Nat.eqb negb andb drop].
    repeat case_match; rewrite <- ?app_assoc; by eexists. }
  repeat (apply elem_of_cons in Hp as [->|Hp]; [apply Ha; reflexivity|]). by apply elem_of_nil in Hp.
Qed.

#[export] Instance sample_apart : TreesApart (W := mem_win32) sample_sources sample_dests.
Proof.
  split; intros; cbn; first [by apply sample_child | apply seen_after_copy | apply seen_after_delete | apply seen_after_directory];
    by apply sample_off.
Qed.

Lemma CopyTree_is_recursive_witness :
  let run := CopyTree (W := mem_win32) (L "\\?\C:\s") (L "\\?\C:\o\s") vhd_volume in
  run = copy_tree sample_tree (L "\\?\C:\o\s") vhd_volume /\
  snd run = None /\
  MemWin32.me_data <$> MemWin32.find_entry (fst run) (MemWin32.key (L "\\?\C:\o\s\d\b")) = Some [4].
Proof.
  split; [|vm_compute; by split].
  apply (CopyTree_is_recursive (W := mem_win32) sample_sources sample_dests sample_tree).
  - by eexists.
  - apply Forall_forall. by intros p Hp.
  - vm_compute. repeat split; try done; by left.
  - vm_compute. reflexivity.
Defined.

(** The handles after an import that makes a disk, and after an attach. *)
Definition ledger_start : MemWin32.volume * list wstring := (vhd_volume, []).

Lemma operations_close_their_handles_witness :
  let import := @ImportDirectory (ledger_win32 (W := mem_win32) (list wstring)) (ledger_entry_host (list wstring))
                  (ledger_image_host (list wstring)) ledger_vhd (L "C:\w") (L "C:\s") (L "C:\n.vhdx") None ledger_start in
  let attach := @AttachVHD (ledger_win32 (W := mem_win32) (list wstring)) (ledger_image_host (list wstring)) ledger_vhd
                  (L "C:\s\a") (transient ReadOnly) ledger_start in
  snd import = Some ERROR_SUCCESS /\ snd (fst import) = [] /\
  is_ok (snd attach) = true /\ snd (fst attach) = [L "\\?\C:\s\a"].
Proof.
  pose proof (@operations_close_their_handles (ledger_win32 (W := mem_win32) (list wstring)) (ledger_entry_host (list wstring))
    (ledger_image_host (list wstring)) ledger_vhd ledger_handle_laws (L "C:\w") (L "C:\s") (L "C:\n.vhdx") 0
    DynamicAllocation (transient ReadOnly)) as (_ & _ & _ & _ & _ & Himport & _ & _).
  specialize (Himport None ledger_start). cbv zeta. split; [vm_compute; reflexivity|]. split; [exact Himport|].
  vm_compute. by split.
Defined.

(** ** Snapshots there *)

Definition vss_start (enumEnd : Z) : @disk vss_win32 :=
  (vhd_volume, {| objects := ∅; shadows := []; listed := []; enumEnd := enumEnd; threadInits := 0 |}).

(** Two snapshots of the session, one that stays, and one that is refused. *)
Definition vss_session : list vss_op :=
  [VssCreate (L "C:\") false; VssCreate (L "C:\") false; VssCreate (L "C:\") true; VssCreate (L "X:\") false; VssList].

Lemma snapshots_hold_their_components_witness :
  let run := run_vss_ops (W := vss_win32) vss_session [] (vss_start S_FALSE) in
  held_components (snd run) = [0; 1] /\ fst <$> snd run = [L "a"; L "b"; L "c"] /\
  objects (snd (fst (DestroyVSSManager (W := vss_win32) (snd run) (fst run)))) = ∅.
Proof.
  pose proof (snapshots_hold_their_components (W := vss_win32) vss_session (vss_start S_FALSE)) as Hs.
  assert (Hm : held_components (snd (run_vss_ops (W := vss_win32) vss_session [] (vss_start S_FALSE))) = [0; 1] /\
               fst <$> snd (run_vss_ops (W := vss_win32) vss_session [] (vss_start S_FALSE)) = [L "a"; L "b"; L "c"])
    by (split; vm_compute; reflexivity).
  cbv zeta. destruct (run_vss_ops vss_session [] (vss_start S_FALSE)) as [d m]. destruct Hs as (_ & _ & Hd).
  destruct Hm. split_and!; [done..|exact Hd].
Defined.

Lemma no_snapshots_account (d : @disk vss_win32) : accounts (W := vss_win32) [] (objects (snd d)) d.
Proof.
  split; [by split; [constructor|]|]. split_and!; [constructor|by intros b ?%elem_of_nil|]. cbn. set_solver.
Qed.

Lemma CreateSnapshot_all_or_nothing_witness :
  (let '(_, (m, (err, id, device))) := CreateSnapshot (W := vss_win32) (L "C:\") false [] (vss_start S_FALSE) in
   err = ERROR_SUCCESS /\ id = L "a" /\ device = L "\\?\GLOBALROOT\Device\HarddiskVolumeShadowCopy_a" /\
   is_Some (GetSnapshot id m)) /\
  (let '(d, (m, (err, id, device))) := CreateSnapshot (W := vss_win32) (L "X:\") false [] (vss_start S_FALSE) in
   err = ERROR_NOT_SUPPORTED /\ m = [] /\ objects (snd d) = ∅).
Proof.
  split.
  - pose proof (CreateSnapshot_all_or_nothing (W := vss_win32) (L "C:\") false [] ∅ (vss_start S_FALSE) (no_snapshots_account _)) as Hc.
    destruct (CreateSnapshot _ _ _ _) as [d [m [[err id] device]]] eqn:Er. destruct Hc as [_ Hc].
    assert (Hv : err = ERROR_SUCCESS /\ id = L "a" /\ device = L "\\?\GLOBALROOT\Device\HarddiskVolumeShadowCopy_a").
    { vm_compute in Er. injection Er as _ _ <- <- <-. by repeat split. }
    destruct Hv as (? & -> & ?). split_and!; [done..|].
    destruct Hc as [(_ & Hid & _)|(_ & _ & info & Hi & _)]; [discriminate Hid|by exists info].
  - vm_compute. by repeat split.
Defined.

Definition session_run : @disk vss_win32 * VSSManager := run_vss_ops (W := vss_win32) vss_session [] (vss_start S_FALSE).

Lemma session_manager_ok : manager_ok (snd session_run).
Proof.
  pose proof (snapshots_hold (W := vss_win32) vss_session (vss_start S_FALSE)) as Hs. unfold session_run.
  destruct (run_vss_ops vss_session [] (vss_start S_FALSE)) as [d m]. apply Hs.
Qed.

Lemma CleanupNonPersistent_retries_witness :
  let '(d, (m, r)) := CleanupNonPersistent (W := vss_win32) (snd session_run) (fst session_run) in
  r = ERROR_BAD_COMMAND /\ fst <$> m = [L "b"; L "c"] /\ shadows (snd d) = [L "b"; L "c"] /\
  exists results, attempts (W := vss_win32) (fst session_run) (snd session_run) results d m /\
    r = first_failure ERROR_SUCCESS results /\
    forall id, id ∈ fst <$> results <->
      exists h, map_find (snd session_run) id = Some h /\ persistent (heldInfo h) = false.
Proof.
  pose proof (CleanupNonPersistent_retries (W := vss_win32) _ (fst session_run) session_manager_ok) as Hc.
  assert (Hv : let x := CleanupNonPersistent (W := vss_win32) (snd session_run) (fst session_run) in
               snd (snd x) = ERROR_BAD_COMMAND /\ fst <$> fst (snd x) = [L "b"; L "c"] /\
               shadows (snd (fst x)) = [L "b"; L "c"]) by (cbv zeta; split_and!; vm_compute; reflexivity).
  cbv zeta in Hv. destruct (CleanupNonPersistent _ _) as [d [m r]].
  destruct Hc as (results & Ha & _ & Hin & Hr & _), Hv as (? & ? & ?).
  split_and!; [done..|]. exists results. by split_and!.
Defined.

(** An enumeration that fails with nothing fetched gives the snapshots so far as
    a success. *)
Example ListSnapshots_hides_a_failed_enumeration :
  let run := run_vss_ops (W := vss_win32) [VssCreate (L "C:\") true] [] (vss_start E_FAIL) in
  let '(_, (rows, result)) := ListSnapshots (W := vss_win32) (fst run) in
  FAILED E_FAIL = true /\ length rows = 1%nat /\ result = ERROR_SUCCESS.
Proof. vm_compute. by repeat split. Qed.

(** ** Mount points on the concrete volume

    The identity of a file is its data. *)
#[export] Instance mem_mount_point : MountPointHost (W := mem_win32) := {|
  GetFileIdInfo := MemWin32.field (fun e => (1, MemWin32.me_data e));
  GetFileInformationByHandle := MemWin32.field MemWin32.me_attributes;
  remove_existing := fun p => (let! r := MemWin32.delete_entry p in
    eret match r with Ok _ => Ok true | Err e => if e =? ERROR_FILE_NOT_FOUND then Ok false else Err e end)%eff;
  iswalpha := fun c => ((65 <=? c) && (c <=? 90)) || ((97 <=? c) && (c <=? 122))
|}.

(** A mounted directory with such an identity. *)
Definition mounted_volume (identity : list Z) : MemWin32.volume :=
  [(L "\\?\C:\m", MemWin32.MemEntry FILE_ATTRIBUTE_DIRECTORY 0 identity [])].

(** The prep of a host that claims the directory with the identity [5]. *)
Definition claim : MountPointPrep :=
  {| directoryCreatedByUs := true; volumeSerial := volumeSerial (snd (CaptureMountPointIdentity (W := mem_win32) (L "C:\m") empty_prep (mounted_volume [5])));
     fileId := fileId (snd (CaptureMountPointIdentity (W := mem_win32) (L "C:\m") empty_prep (mounted_volume [5]))) |}.

Lemma release_removes_only_its_directory_witness :
  RemoveOwnedMountPointDirectoryIfSafe (W := mem_win32) (L "C:\m") claim (mounted_volume [5]) = ([], ERROR_SUCCESS) /\
  RemoveOwnedMountPointDirectoryIfSafe (W := mem_win32) (L "C:\m") claim (mounted_volume [6]) = (mounted_volume [6], ERROR_SUCCESS) /\
  RemoveOwnedMountPointDirectoryIfSafe (W := mem_win32) (L "C:\m") empty_prep (mounted_volume [0]) =
    (mounted_volume [0], ERROR_SUCCESS).
Proof.
  split_and!; [vm_compute; reflexivity..|].
  by apply (release_removes_only_its_directory (W := mem_win32) (L "C:\m") empty_prep (mounted_volume [0])).
Defined.
