(* ===== verification/Abi.v ===== *)
(** * The state of the C interface

    The handle tables of mounts, files and images with the objects that they point to
    ([HandleTypes.h]), the error state of the calling thread, and what every
    export shares: its argument checks, the resolution of a handle, and a run
    of the engine.

    A [shared_ptr] is the number of an object in a heap, so a file holder and
    the table of mounts can name the same mount; the object goes when nothing
    names it any more.  The disk is one for all mounts.  An export is one step
    of the calling thread.  A null pointer is [None], or [false] for a place
    that the caller gives for a result. *)
From S2P Require Export HandleTable MountRename Config Descriptor ErrorTls.
Open Scope Z_scope.

(** [~LayerMountHolder] frees the engine and then the work directory, whose
    two locks close. *)
Record LayerMountHolder `{W : Win32} := Holder {
  workDirectory : OpenWorkDirectory;
  core : MountState;
  coreConfig : OverlayConfig;
  hostAttached : bool;
  liveChildren : Z;
  eventCallback : option Z
}.
Arguments Holder {W} _ _ _ _ _ _.

(** [mount] of the source is the engine of [parentOwner]. *)
Record FileHolder `{W : Win32} := { parentOwner : nat; fileContext : FileContext }.

(** [manager] of the source is the manager of this mount. *)
Record ImageHolder := { managerOwner : nat; holderImagePath : wstring }.

Record AbiState `{W : Win32} := {
  abiDisk : disk;
  mountTable : HandleTable nat;
  fileTable : HandleTable nat;
  imageTable : HandleTable ImageHolder;
  mountHeap : gmap nat LayerMountHolder;
  fileHeap : gmap nat FileHolder;
  errorTls : ErrorTls;
  (** The events that a callback was called with. *)
  delivered : list (Z * engine_event)
}.

(** What an export gives: its HRESULT, and its outputs where it sets them. *)
Abbreviation abi_call A := (eff AbiState (Z * option A)).

(** The further calls of the interface.  [descriptor_at] is the descriptor
    that the Win32 calls read at a buffer of the caller; a conversion that
    refuses malformed text; the texts of exceptions of the libraries; the
    numbers of the generated version header. *)
Class AbiHost `{W : Win32} `{H : !EntryHost} := {
  descriptor_at : list Z -> security;
  MultiByteToWideCharStrict : list Z -> w32 wstring;
  system_error_what : Z -> string -> list Z;
  json_error_what : list Z;
  LM_VER : Z * Z * Z;
  LM_ABI_VERSION : Z
}.

Section State.
Context `{W : Win32} `{J : Json} `{E : CacheEnv} `{P : Processes} `{H : !EntryHost} `{M : !MountHost}.
Context `{T : !Threads} `{R : !RulesFiles} `{A : !AbiHost}.

(** ** Parts of the state *)

Definition with_tls (f : ErrorTls -> ErrorTls) (s : AbiState) : AbiState := {|
  abiDisk := abiDisk s; mountTable := mountTable s; fileTable := fileTable s; imageTable := imageTable s; mountHeap := mountHeap s;
  fileHeap := fileHeap s; errorTls := f (errorTls s); delivered := delivered s |}.

Definition with_abi_disk (d : disk) (s : AbiState) : AbiState := {|
  abiDisk := d; mountTable := mountTable s; fileTable := fileTable s; imageTable := imageTable s; mountHeap := mountHeap s;
  fileHeap := fileHeap s; errorTls := errorTls s; delivered := delivered s |}.

Definition with_mounts (t : HandleTable nat) (heap : gmap nat LayerMountHolder) (s : AbiState) : AbiState := {|
  abiDisk := abiDisk s; mountTable := t; fileTable := fileTable s; imageTable := imageTable s; mountHeap := heap;
  fileHeap := fileHeap s; errorTls := errorTls s; delivered := delivered s |}.

Definition with_files (t : HandleTable nat) (heap : gmap nat FileHolder) (s : AbiState) : AbiState := {|
  abiDisk := abiDisk s; mountTable := mountTable s; fileTable := t; imageTable := imageTable s; mountHeap := mountHeap s;
  fileHeap := heap; errorTls := errorTls s; delivered := delivered s |}.

Definition with_images (t : HandleTable ImageHolder) (s : AbiState) : AbiState := {|
  abiDisk := abiDisk s; mountTable := mountTable s; fileTable := fileTable s; imageTable := t;
  mountHeap := mountHeap s; fileHeap := fileHeap s; errorTls := errorTls s; delivered := delivered s |}.

Definition with_core (c : MountState) (h : LayerMountHolder) : LayerMountHolder :=
  Holder (workDirectory h) c (coreConfig h) (hostAttached h) (liveChildren h) (eventCallback h).
Definition with_attached (b : bool) (h : LayerMountHolder) : LayerMountHolder :=
  Holder (workDirectory h) (core h) (coreConfig h) b (liveChildren h) (eventCallback h).
Definition with_children (n : Z) (h : LayerMountHolder) : LayerMountHolder :=
  Holder (workDirectory h) (core h) (coreConfig h) (hostAttached h) n (eventCallback h).
Definition with_callback (cb : option Z) (h : LayerMountHolder) : LayerMountHolder :=
  Holder (workDirectory h) (core h) (coreConfig h) (hostAttached h) (liveChildren h) cb.

Definition update_mount (id : nat) (f : LayerMountHolder -> LayerMountHolder) (s : AbiState) : AbiState :=
  with_mounts (mountTable s) (alter f id (mountHeap s)) s.

Definition update_file (id : nat) (f : FileHolder) (s : AbiState) : AbiState :=
  with_files (fileTable s) (<[id := f]> (fileHeap s)) s.

Definition set_error (hr : Z) (message : wstring) : eff AbiState unit := fun s => (with_tls (SetError hr message) s, tt).

Definition abi_io {B} (m : eff disk B) : eff AbiState B := fun s =>
  let (d, b) := m (abiDisk s) in (with_abi_disk d s, b).

(** ** Exports *)

(** The first check that refuses the arguments gives the HRESULT. *)
Fixpoint first_refusal (checks : list (bool * Z)) : option Z :=
  match checks with
  | [] => None
  | (refuses, hr) :: rest => if (refuses : bool) then Some hr else first_refusal rest
  end.

(** [LM_ABI_ENTRY], the argument checks, the body. *)
Definition export {B} (checks : list (bool * Z)) (body : abi_call B) : abi_call B := fun s =>
  let s := with_tls ClearFillFailure s in
  match first_refusal checks with
  | Some hr => (s, (hr, None))
  | None => body s
  end.

(** An exception that leaves the body of an export. *)
Definition throw_abi {B} (e : abi_exception) : abi_call B := fun s =>
  let (hr, t) := LM_ABI_END e (errorTls s) in (with_tls (fun _ => t) s, (hr, None)).

Definition is_null {B} (p : option B) : bool := match p with None => true | Some _ => false end.
Definition is_empty_text (p : option wstring) : bool := bool_decide (default [] p = []).
Definition text_of (p : option wstring) : wstring := default [] p.

(** [if (!NT_SUCCESS(status)) return HresultFromNtStatus(status); return S_OK;] *)
Definition hresult_of (status : NTSTATUS) : Z :=
  if negb (NT_SUCCESS status) then HresultFromNtStatus status else S_OK.

Definition caller_pid (originatorPid : Z) : Z := if originatorPid =? 0 then GetCurrentProcessId else originatorPid.

(** ** Handles *)

Definition resolve_mount (handle : Z) (s : AbiState) : option (nat * LayerMountHolder) :=
  id ← Resolve kMagicLayerMount handle (mountTable s);
  holder ← mountHeap s !! id;
  Some (id, holder).

Definition with_mount {B} (handle : Z) (body : nat -> LayerMountHolder -> abi_call B) : abi_call B := fun s =>
  match resolve_mount handle s with
  | None => (s, (E_HANDLE, None))
  | Some (id, holder) => body id holder s
  end.

(** The holder, its context and the mount of the context. *)
Definition ResolveFileHolder (handle : Z) (s : AbiState) : option (nat * FileHolder * LayerMountHolder) :=
  id ← Resolve kMagicFile handle (fileTable s);
  file ← fileHeap s !! id;
  holder ← mountHeap s !! parentOwner file;
  Some (id, file, holder).

(** ** Runs of the engine *)

(** The engine runs on the disk of the machine.  The events of the run go to
    the callback, and the failure of a fill to the error state. *)
Definition enter_core (c : MountState) (s : AbiState) : MountState :=
  with_engine c (with_fill_failure (with_events (with_disk (engine c) (abiDisk s)) []) None).

Definition leave_core (id : nat) (c : MountState) (s : AbiState) : AbiState :=
  let e := engine c in
  let callback := holder ← mountHeap s !! id; eventCallback holder in
  {| abiDisk := engineDisk e; mountTable := mountTable s; fileTable := fileTable s; imageTable := imageTable s;
     mountHeap := alter (with_core c) id (mountHeap s); fileHeap := fileHeap s;
     errorTls := match fillFailure e with
                 | Some (hr, message) => SetFillFailure hr message (errorTls s)
                 | None => errorTls s
                 end;
     delivered := delivered s ++ match callback with Some cb => pair cb <$> events e | None => [] end |}.

Definition run_core {B} (id : nat) (holder : LayerMountHolder) (m : eff MountState B) : eff AbiState B := fun s =>
  let (c, b) := m (enter_core (core holder) s) in (leave_core id c s, b).

Definition run_context {B} (id : nat) (file : FileHolder) (holder : LayerMountHolder) (m : ctx_eff B)
  : eff AbiState B := fun s =>
  let '((c, ctx), b) := m (enter_core (core holder) s, fileContext file) in
  (update_file id {| parentOwner := parentOwner file; fileContext := ctx |} (leave_core (parentOwner file) c s), b).

(** ** Exports of one call of the engine *)

(** A call by path. *)
Definition mount_status (handle : Z) (checks : list (bool * Z)) (m : LayerConfig -> eff MountState NTSTATUS)
  : abi_call unit :=
  export ((handle =? 0, E_HANDLE) :: checks)
    (with_mount handle (fun id holder =>
       (let! status := run_core id holder (m (layerConfig (coreConfig holder))) in
        eret (hresult_of status, None))%eff)).

(** A call on an open file: its result and its outputs. *)
Definition file_call {B} (handle : Z) (checks : list (bool * Z)) (unresolved : option B)
    (m : LayerConfig -> ctx_eff (Z * option B)) : abi_call B :=
  export ((handle =? 0, E_HANDLE) :: checks)
    (fun s => match ResolveFileHolder handle s with
              | None => (s, (E_HANDLE, unresolved))
              | Some (id, file, holder) => run_context id file holder (m (layerConfig (coreConfig holder))) s
              end).

Definition file_status (handle : Z) (checks : list (bool * Z)) (m : LayerConfig -> ctx_eff NTSTATUS) : abi_call unit :=
  file_call handle checks None (fun config => (let! status := m config in eret (hresult_of status, None))%eff).

(** ** The lifetime of a holder *)

Definition mount_referenced (id : nat) (s : AbiState) : bool :=
  existsb (fun slot => bool_decide (payload slot = Some id)) (slots (mountTable s)) ||
  existsb (fun kv => bool_decide (parentOwner (snd kv) = id)) (map_to_list (fileHeap s)).

(** The locks of a holder that goes. *)
Definition close_work_directory (work : OpenWorkDirectory) : eff AbiState unit :=
  abi_io (do! close_lock (upperLock work) in close_lock (workDirectoryLock work))%eff.

(** The last [shared_ptr] to a mount goes. *)
Definition release_mount (id : nat) : eff AbiState unit := fun s =>
  if mount_referenced id s then (s, tt)
  else match mountHeap s !! id with
  | None => (s, tt)
  | Some holder =>
      close_work_directory (workDirectory holder) (with_mounts (mountTable s) (delete id (mountHeap s)) s)
  end.
End State.
