(* ===== verification/AbiFile.v ===== *)
(** * The exports on files

    [AbiFile.cpp] and [FileHandleOpen.cpp]: the argument checks of each
    export, its engine call, and what it gives its caller. *)
From S2P Require Export Abi.
Open Scope Z_scope.

Definition LM_STREAM_NAME_MAX : Z := 296.

Record LM_FILE_INFO := {
  lmFileAttributes : Z;
  lmReparseTag : Z;
  lmAllocationSize : Z;
  lmFileSize : Z;
  lmCreationTime : Z;
  lmLastAccessTime : Z;
  lmLastWriteTime : Z;
  lmChangeTime : Z;
  lmIndexNumber : Z;
  lmHardLinks : Z;
  lmEaSize : Z
}.

(** [LM_STREAM_INFO]: the name as the fixed buffer holds it, to its NUL. *)
Record LM_STREAM_INFO := { lmStreamName : wstring; lmStreamSize : Z; lmStreamAllocation : Z }.

Section File.
Context `{W : Win32} `{J : Json} `{E : CacheEnv} `{P : Processes} `{H : !EntryHost} `{M : !MountHost}.
Context `{T : !Threads} `{A : !AbiHost} `{D : DescriptorCalls}.
(** Whether growing the free list of a table throws. *)
Context (pushFails : bool).

Definition ToPublicFileInfo (src : InternalFileInfo) : LM_FILE_INFO := {|
  lmFileAttributes := FileAttributes src; lmReparseTag := ReparseTag src;
  lmAllocationSize := AllocationSize src; lmFileSize := FileSize src;
  lmCreationTime := CreationTime src; lmLastAccessTime := LastAccessTime src;
  lmLastWriteTime := LastWriteTime src; lmChangeTime := ChangeTime src;
  lmIndexNumber := IndexNumber src; lmHardLinks := HardLinks src; lmEaSize := EaSize src |}.

Definition HresultFromMarkerWrite (status : NTSTATUS) (markerPath : MarkerPath) : Z :=
  match markerPath with MarkerRefused => E_INVALIDARG | MarkerAccepted => HresultFromNtStatus status end.

(** ** Opens *)

(** The engine call of [ReserveThenRun]: a context that it gives with a
    success becomes a file holder. *)
Definition open_engine_call (id : nat) (holder : LayerMountHolder)
    (m : eff MountState (NTSTATUS * option (FileContext * InternalFileInfo)))
  : eff (AbiState * option InternalFileInfo) (engine_result nat) := fun '(s, _) =>
  let '(s, (status, r)) := run_core id holder m s in
  match r with
  | None => ((s, None), EngineReturns status None)
  | Some (ctx, info) =>
      if negb (NT_SUCCESS status) then ((s, None), EngineReturns status None)
      else
        let file := fresh (dom (fileHeap s)) in
        ((update_file file {| parentOwner := id; fileContext := ctx |} s, Some info),
         EngineReturns status (Some file))
  end.

(** [CreateFileHandle] and [OpenFileHandle]: [ReserveThenRun] on the table of
    files and the children of the mount.  No other thread runs meanwhile. *)
Definition open_file_handle (id : nat) (holder : LayerMountHolder) (exhaustedMessage : wstring)
    (m : eff MountState (NTSTATUS * option (FileContext * InternalFileInfo)))
  : abi_call (Z * LM_FILE_INFO) := fun s =>
  let start := {| files := fileTable s; childCount := liveChildren holder; HandleTable.engine := (s, None) |} in
  let '(o, result) := ReserveThenRun (open_engine_call id holder m) pushFails (fun t => t) start in
  let '(ran, info) := HandleTable.engine o in
  let s := update_mount id (with_children (childCount o)) (with_files (files o) (fileHeap ran) ran) in
  match result with
  | AbiHandle encoded => (s, (S_OK, (fun info => (encoded, ToPublicFileInfo info)) <$> info))
  | AbiFailed status => (s, (HresultFromNtStatus status, None))
  | AbiUnexpected => (s, (E_UNEXPECTED, None))
  | AbiOutOfMemory => (with_tls (SetError E_OUTOFMEMORY exhaustedMessage) s, (E_OUTOFMEMORY, None))
  | AbiThrows => throw_abi UnknownException s
  end.

Definition LayerMountOpenFile (handle : Z) (relativePath : option wstring) (grantedAccess createOptions originatorPid : Z)
    (outFile outInfo : bool) : abi_call (Z * LM_FILE_INFO) :=
  export [(handle =? 0, E_HANDLE); (negb outFile, E_POINTER); (negb outInfo, E_POINTER);
          (is_null relativePath, E_INVALIDARG)]
    (with_mount handle (fun id holder =>
       open_file_handle id holder (L "LayerMountOpenFile: file handle table exhausted.")
         (MountOpen.Open (layerConfig (coreConfig holder)) (text_of relativePath) grantedAccess createOptions
            (caller_pid originatorPid)))).

(** A buffer of no bytes that is not null goes to the engine unchecked: the
    Win32 calls then read what lies behind it. *)
Definition descriptor_refused (buf : option (list Z)) : bool :=
  match buf with
  | None | Some [] => false
  | Some bytes => negb (default false (IsValidBoundedSecurityDescriptor (Some bytes)))
  end.

Definition LayerMountCreateFile (handle : Z) (relativePath : option wstring)
    (createOptions grantedAccess fileAttributes : Z) (securityDescriptor : option (list Z))
    (securityDescriptorBytes allocationSize originatorPid : Z) (outFile outInfo : bool)
  : abi_call (Z * LM_FILE_INFO) :=
  export [(handle =? 0, E_HANDLE); (negb outFile, E_POINTER); (negb outInfo, E_POINTER);
          (is_null relativePath, E_INVALIDARG);
          (is_null securityDescriptor && negb (securityDescriptorBytes =? 0), E_INVALIDARG);
          (descriptor_refused securityDescriptor, E_INVALIDARG)]
    (with_mount handle (fun id holder =>
       let request := {|
         requestPath := text_of relativePath; requestOptions := createOptions; requestAccess := grantedAccess;
         requestAttributes := fileAttributes; requestSecurity := descriptor_at <$> securityDescriptor;
         requestAllocation := allocationSize; requestPid := caller_pid originatorPid |} in
       open_file_handle id holder (L "LayerMountCreateFile: file handle table exhausted.")
         (Create (layerConfig (coreConfig holder)) request))).

(** ** Calls on an open file *)

(** A buffer is null or has room for [length_] bytes.  The outputs are
    [*bytesTransferred] and what the buffer holds. *)
Definition LayerMountReadFile (file : Z) (buffer : bool) (offset length_ : Z) (bytesTransferred : bool)
  : abi_call (Z * option (list Z)) :=
  file_call file [(negb bytesTransferred, E_POINTER); (negb buffer && negb (length_ =? 0), E_INVALIDARG)]
    (Some (0, None))
    (fun config => (let! (status, transferred, data) := Read offset length_ in
                    eret (hresult_of status, Some (transferred, data)))%eff).

(** The buffer holds the [length_] bytes of the write; [beyond] is the memory
    behind it. *)
Definition LayerMountWriteFile (file : Z) (buffer : option (list Z)) (beyond : list Z) (offset length_ : Z)
    (writeToEnd constrainedIo : bool) (bytesTransferred outInfo : bool) : abi_call (Z * option LM_FILE_INFO) :=
  file_call file [(negb bytesTransferred, E_POINTER); (is_null buffer && negb (length_ =? 0), E_INVALIDARG)]
    (Some (0, None))
    (fun config => (let! (status, transferred, info) :=
                      Write config (default [] buffer) beyond offset writeToEnd constrainedIo outInfo in
                    eret (hresult_of status,
                          Some (transferred, if negb (NT_SUCCESS status) then None else ToPublicFileInfo <$> info)))%eff).

(** The export of a call that gives a status and the information it wants. *)
Definition info_call (file : Z) (m : LayerConfig -> ctx_eff (NTSTATUS * option InternalFileInfo))
  : abi_call LM_FILE_INFO :=
  file_call file [] None
    (fun config => (let! (status, info) := m config in
                    eret (hresult_of status, if negb (NT_SUCCESS status) then None else ToPublicFileInfo <$> info))%eff).

Definition LayerMountOverwriteFile (file fileAttributes : Z) (replaceAttributes : bool) (allocationSize : Z)
    (outInfo : bool) : abi_call LM_FILE_INFO :=
  info_call file (fun config => Overwrite config fileAttributes replaceAttributes allocationSize outInfo).

Definition LayerMountFlushFile (file : Z) (outInfo : bool) : abi_call LM_FILE_INFO :=
  info_call file (fun config => Flush config outInfo).

(** [changeTime] goes into the request, and [SetInfo] ignores it. *)
Definition LayerMountSetFileInfo (file fileAttributes creationTime lastAccessTime lastWriteTime changeTime
    allocationSize fileSize : Z) (outInfo : bool) : abi_call LM_FILE_INFO :=
  info_call file (fun config => SetInfo config
    {| newAttributes := fileAttributes; newCreationTime := creationTime; newAccessTime := lastAccessTime;
       newWriteTime := lastWriteTime; newAllocation := allocationSize; newSize := fileSize |} outInfo).

(** [FillFileInfoFromHandle] fails on the invalid handle. *)
Definition LayerMountGetFileInfo (file : Z) (outInfo : bool) : abi_call LM_FILE_INFO :=
  file_call file [(negb outInfo, E_POINTER)] None
    (fun config => (let! c := the_ctx in
       do! on_mount (log_access (ctx_ownerPid c) (ctx_relativePath c) OpGetInfo) in
       let! ready := EnsureHandleReady in
       if negb (NT_SUCCESS ready) then eret (HresultFromNtStatus ready, None)
       else
         let! info := context_info config in
         match info with
         | Err status => eret (hresult_of status, None)
         | Ok info => eret (S_OK, Some (ToPublicFileInfo info))
         end)%eff).

(** ** Calls by path *)

(** [STATUS_BUFFER_OVERFLOW] means that the caller's buffer is short. *)
Definition hresult_of_read (status : NTSTATUS) : Z :=
  if bool_decide (status = STATUS_BUFFER_OVERFLOW) then hresult_from_win32 ERROR_MORE_DATA else hresult_of status.

(** The room in a buffer that is not null. *)
Definition room (buffer : bool) (bytes : Z) : Z := if buffer then bytes else 0.

(** [*requiredBytes] where it is set, and the bytes copied. *)
Definition LayerMountGetReparsePoint (handle : Z) (relativePath : option wstring) (buffer : bool) (bufferBytes : Z)
  : abi_call (option Z * list Z) :=
  export [(handle =? 0, E_HANDLE); (is_null relativePath, E_INVALIDARG)]
    (with_mount handle (fun id holder =>
       (let! (status, required, bytes) :=
          run_core id holder (GetReparsePoint (layerConfig (coreConfig holder)) (text_of relativePath)
                                (room buffer bufferBytes)) in
        eret (hresult_of_read status, Some (required, bytes)))%eff)).

(** The checks of the exports that take reparse data. *)
Definition reparse_checks (relativePath : option wstring) (buffer : option (list Z)) (bufferBytes : Z) : list (bool * Z) :=
  [(is_null relativePath, E_INVALIDARG); (is_null buffer, E_INVALIDARG); (bufferBytes =? 0, E_INVALIDARG)].

Definition LayerMountSetReparsePoint (handle : Z) (relativePath : option wstring) (buffer : option (list Z))
    (bufferBytes : Z) : abi_call unit :=
  mount_status handle (reparse_checks relativePath buffer bufferBytes)
    (fun config => MountFiles.SetReparsePoint config (text_of relativePath) (default [] buffer) GetCurrentProcessId).

Definition LayerMountDeleteReparsePoint (handle : Z) (relativePath : option wstring) (buffer : option (list Z))
    (bufferBytes : Z) : abi_call unit :=
  mount_status handle (reparse_checks relativePath buffer bufferBytes)
    (fun config => DeleteReparsePoint config (text_of relativePath) (default [] buffer) GetCurrentProcessId).

(** The name is cut to the fixed buffer, and ends with its NUL there. *)
Definition ToPublicStreamInfo (src : InternalStreamInfo) : LM_STREAM_INFO := {|
  lmStreamName := take (Z.to_nat (LM_STREAM_NAME_MAX - 1)) (streamInfoName src);
  lmStreamSize := streamSize src; lmStreamAllocation := streamAllocation src |}.

(** [outBuffer] has room for so many entries; [*outCount], and the entries
    that are filled. *)
Definition LayerMountEnumerateStreams (handle : Z) (relativePath : option wstring) (outBuffer : bool)
    (bufferCapacity : Z) (outCount : bool) : abi_call (Z * list LM_STREAM_INFO) :=
  export [(handle =? 0, E_HANDLE); (is_null relativePath, E_INVALIDARG); (negb outCount, E_POINTER)]
    (with_mount handle (fun id holder =>
       (let! (status, streams) :=
          run_core id holder (EnumerateStreams (layerConfig (coreConfig holder)) (text_of relativePath)) in
        eret (if negb (NT_SUCCESS status) then (HresultFromNtStatus status, Some (0, []))
              else
                let required := Z.of_nat (length streams) mod 2 ^ 32 in
                if negb outBuffer then (S_OK, Some (required, []))
                else if bufferCapacity <? required then (hresult_from_win32 ERROR_MORE_DATA, Some (required, []))
                else (S_OK, Some (required, ToPublicStreamInfo <$> take (Z.to_nat required) streams))))%eff)).

(** The information that a listing gives of an entry. *)
Definition merged_entry_info (findData : find_data) : LM_FILE_INFO :=
  let size := ComposeUInt64 (nFileSizeHigh findData) (nFileSizeLow findData) in
  let written := FileTimeToUInt64 (write (ftTimes findData)) in {|
  lmFileAttributes := dwFileAttributes findData;
  lmReparseTag := if has_attr (dwFileAttributes findData) FILE_ATTRIBUTE_REPARSE_POINT then dwReserved0 findData else 0;
  lmAllocationSize := AllocationSizeFor size; lmFileSize := size;
  lmCreationTime := FileTimeToUInt64 (creation (ftTimes findData));
  lmLastAccessTime := FileTimeToUInt64 (access (ftTimes findData));
  lmLastWriteTime := written; lmChangeTime := written;
  lmIndexNumber := 0; lmHardLinks := 0; lmEaSize := 0 |}.

(** The calls of the caller's callback, which has a state of its own, until
    one gives another result than [S_OK]. *)
Fixpoint enumerate_entries {C} (callback : wstring -> LM_FILE_INFO -> eff C Z) (l : list MergedEntry) : eff C Z :=
  match l with
  | [] => eret S_OK
  | entry :: rest =>
      (let! cbResult := callback (cFileName (findData entry)) (merged_entry_info (findData entry)) in
       if negb (cbResult =? S_OK) then eret cbResult else enumerate_entries callback rest)%eff
  end.

(** The output is the state of the callback after its calls. *)
Definition LayerMountMergeDirectory {C} (handle : Z) (dirRelativePath : option wstring)
    (callback : option (wstring -> LM_FILE_INFO -> eff C Z)) (userContext : C) : abi_call C :=
  export [(handle =? 0, E_HANDLE); (is_null dirRelativePath, E_INVALIDARG); (is_null callback, E_POINTER)]
    (with_mount handle (fun id holder =>
       (let! merged := run_core id holder
          (MergeDirectoryEntries (layerConfig (coreConfig holder)) (text_of dirRelativePath)) in
        if negb (NT_SUCCESS (mergedStatus merged)) then eret (HresultFromNtStatus (mergedStatus merged), None)
        else
          let (userContext, hr) := enumerate_entries (default (fun _ _ => eret S_OK) callback)
                                     (entries_in_order (entries merged)) userContext in
          eret (hr, Some userContext))%eff)).

(** [*outFileAttributes] and [*requiredBytes] where they are set, and the
    bytes copied. *)
Definition LayerMountGetSecurity (handle : Z) (relativePath : option wstring) (securityInformation : Z)
    (outFileAttributes securityDescriptor : bool) (securityDescriptorBytes : Z)
  : abi_call (option Z * option Z * list Z) :=
  export [(handle =? 0, E_HANDLE); (is_null relativePath, E_INVALIDARG)]
    (with_mount handle (fun id holder =>
       (let! (status, attrs, required, bytes) :=
          run_core id holder (GetSecurity (layerConfig (coreConfig holder)) (text_of relativePath) securityInformation
                                outFileAttributes (room securityDescriptor securityDescriptorBytes)) in
        eret (hresult_of_read status, Some (attrs, required, bytes)))%eff)).

(** The descriptor is the bytes that the caller states. *)
Definition LayerMountSetSecurity (handle : Z) (relativePath : option wstring) (securityInformation : Z)
    (modificationDescriptor : option (list Z)) : abi_call unit :=
  mount_status handle
    [(is_null relativePath, E_INVALIDARG); (is_null modificationDescriptor, E_INVALIDARG);
     (negb (default false (IsValidBoundedSecurityDescriptor modificationDescriptor)), E_INVALIDARG)]
    (fun config => SetSecurity config (text_of relativePath) securityInformation
                     (descriptor_at (default [] modificationDescriptor)) GetCurrentProcessId).

Definition path_check (relativePath : option wstring) : list (bool * Z) := [(is_null relativePath, E_INVALIDARG)].

Definition LayerMountDeleteFile (handle : Z) (relativePath : option wstring) : abi_call unit :=
  mount_status handle (path_check relativePath)
    (fun config => DeletePath config (text_of relativePath) GetCurrentProcessId).

Definition LayerMountCanDeleteFile (handle : Z) (relativePath : option wstring) : abi_call unit :=
  mount_status handle (path_check relativePath)
    (fun config => CanDelete config (text_of relativePath) GetCurrentProcessId).

Definition LayerMountCanDeleteOpenFile (file : Z) : abi_call unit :=
  file_status file [] (fun config => CanDeleteContext config).

Definition LayerMountDeleteOpenFile (file : Z) : abi_call unit :=
  file_status file [] (fun config => DeleteContext config).

Definition LayerMountRenameFile (handle : Z) (oldRelativePath newRelativePath : option wstring)
    (replaceIfExists : bool) : abi_call unit :=
  mount_status handle [(is_null oldRelativePath, E_INVALIDARG); (is_null newRelativePath, E_INVALIDARG)]
    (fun config => RenamePath config (text_of oldRelativePath) (text_of newRelativePath) replaceIfExists
                     GetCurrentProcessId).

Definition LayerMountUpdateOpenFilePath (file : Z) (newRelativePath : option wstring) : abi_call unit :=
  file_status file [(is_null newRelativePath, E_INVALIDARG)]
    (fun config => UpdateContextPath config (text_of newRelativePath)).

Definition LayerMountRenameOpenFile (file : Z) (newRelativePath : option wstring) (replaceIfExists : bool)
  : abi_call unit :=
  file_status file [(is_null newRelativePath, E_INVALIDARG)]
    (fun config => RenameContext config (text_of newRelativePath) replaceIfExists GetCurrentProcessId).

(** The export of a marker that a caller writes. *)
Definition marker_call (handle : Z) (relativePath : option wstring)
    (m : LayerConfig -> eff MountState (NTSTATUS * MarkerPath)) : abi_call unit :=
  export [(handle =? 0, E_HANDLE); (is_null relativePath, E_INVALIDARG)]
    (with_mount handle (fun id holder =>
       (let! (status, markerPath) := run_core id holder (m (layerConfig (coreConfig holder))) in
        eret (HresultFromMarkerWrite status markerPath, None))%eff)).

Definition LayerMountCreateWhiteout (handle : Z) (relativePath : option wstring) (isDirectory : bool) : abi_call unit :=
  marker_call handle relativePath (fun config =>
    CreateViewWhiteout config (text_of relativePath) (if isDirectory then WhiteoutDirectory else WhiteoutFile)).

Definition LayerMountSetOpaque (handle : Z) (dirRelativePath : option wstring) : abi_call unit :=
  marker_call handle dirRelativePath (fun config => SetViewOpaque config (text_of dirRelativePath)).

(** ** The end of an open file *)

(** The context is closed, and the child counted off, before the holder
    lets go of its mount. *)
Definition LayerMountCloseFile (file : Z) : abi_call unit :=
  export [(file =? 0, E_HANDLE)] (fun s =>
    let (t, freed) := Free kMagicFile pushFails file (fileTable s) in
    let s := with_files t (fileHeap s) s in
    match freed with
    | None => (s, (E_HANDLE, None))
    | Some id =>
        match fileHeap s !! id with
        | None => (s, (S_OK, None))
        | Some fileHolder =>
            let s := match mountHeap s !! parentOwner fileHolder with
                     | None => s
                     | Some holder => fst (run_context id fileHolder holder MountFiles.Close s)
                     end in
            let s := update_mount (parentOwner fileHolder)
                       (fun h => with_children ((liveChildren h - 1) mod 2 ^ 32) h) s in
            let s := with_files (fileTable s) (delete id (fileHeap s)) s in
            let (s, _) := release_mount (parentOwner fileHolder) s in
            (s, (S_OK, None))
        end
    end).

Definition LayerMountCleanupFile (file : Z) : abi_call unit := file_status file [] (fun _ => MountFiles.Cleanup).
End File.
