(* ===== verification/AbiCore.v ===== *)
(** * The exports on mounts

    [AbiCore.cpp]: the life of a mount, the versions and the error state.
    [AbiPath.cpp]: lookups, the volume and copy-ups by path.
    [AbiDiagnostics.cpp]: counters, the event callback and the process
    tracker. *)
From S2P Require Export AbiFile.
Open Scope Z_scope.

Definition ERROR_NO_UNICODE_TRANSLATION : Z := 1113.

(** [LM_CONFIG]; [lowerPaths] is an array of [lowerPathCount] pointers. *)
Record LM_CONFIG := {
  structSize : Z;
  abiVersion : Z;
  lmHostCapabilities : Z;
  lmAccessLogCapacity : Z;
  lmPathCacheCapacity : Z;
  lmEnableProcessTracking : bool;
  lmLowerPathCount : Z;
  lmUpperPath : option wstring;
  lmWorkDirPath : option wstring;
  lmProcessRulesPath : option wstring;
  lmLowerPaths : option (list (option wstring))
}.

(** The offset and the size of [lowerPaths], and the size of the struct. *)
Definition lowerPathsOffset : Z := 56.
Definition pointerSize : Z := 8.

Record LM_RESOLVED_PATH := {
  rpSource : Z;
  rpLowerIndex : Z;
  rpIsWhiteout : bool;
  rpAttributes : Z;
  rpFileSize : Z;
  rpAllocationSize : Z;
  rpRequired : Z;
  rpChars : Z;
  rpAbsolutePath : option wstring
}.

Record LM_VOLUME_INFO := {
  viTotalSize : Z;
  viFreeSize : Z;
  viVolumeLabel : wstring;
  viVolumeLabelLength : Z
}.

Record LM_STATS := {
  stCacheHits : Z;
  stCacheMisses : Z;
  stCopyUpCount : Z;
  stReadCount : Z;
  stWriteCount : Z;
  stActiveHandles : Z;
  stBytesRead : Z;
  stBytesWritten : Z;
  stCleanupMetadataFailureCount : Z
}.

Section Core.
Context `{W : Win32} `{J : Json} `{E : CacheEnv} `{P : Processes} `{H : !EntryHost} `{M : !MountHost}.
Context `{T : !Threads} `{R : !RulesFiles} `{A : !AbiHost}.
Context (pushFails : bool).

(** ** Create *)

Definition kDefaultCapacity : nat := Z.to_nat 10000.

Definition capacity_or_default (n : Z) : nat := if negb (n =? 0) then Z.to_nat n else kDefaultCapacity.

Definition TranslateConfig (src : LM_CONFIG) : OverlayConfig := {|
  layerConfig := {|
    upperPath := text_of (lmUpperPath src);
    lowerPaths := if 0 <? lmLowerPathCount src then text_of <$> default [] (lmLowerPaths src) else [];
    workDirPath := text_of (lmWorkDirPath src);
    hostCapabilities := lmHostCapabilities src |};
  processRulesPath := text_of (lmProcessRulesPath src);
  enableProcessTracking := lmEnableProcessTracking src;
  accessLogCapacity := capacity_or_default (lmAccessLogCapacity src);
  pathCacheCapacity := capacity_or_default (lmPathCacheCapacity src) |}.

(** The engine and its place in the table of mounts.  A holder that gets no
    handle goes, and closes its locks. *)
Definition allocate_mount (work : OpenWorkDirectory) (config : OverlayConfig) (c : MountState) : abi_call Z := fun s =>
  let id := fresh (dom (mountHeap s)) in
  let (t, encoded) := Allocate kMagicLayerMount (Some id) (mountTable s) in
  if encoded =? 0 then
    (do! (fun s => (with_mounts t (mountHeap s) s, tt)) in
     do! close_work_directory work in
     do! set_error E_OUTOFMEMORY (L "LayerMount handle table exhausted.") in
     eret (E_OUTOFMEMORY, None))%eff s
  else (with_mounts t (<[id := Holder work c config false 0 None]> (mountHeap s)) s, (S_OK, Some encoded)).

Definition create_mount (src : LM_CONFIG) : abi_call Z :=
  (let config := TranslateConfig src in
   let! (invalid, debug) := abi_io (Validate (layerConfig config)) in
   match invalid with
   | Some err => throw_abi (AbiException E_INVALIDARG err)
   | None =>
       let! (prepared, err) := abi_io (Prepare (layerConfig config)) in
       if FAILED prepared then throw_abi (AbiException prepared err)
       else
         let! (opened, workDirectory, err) := abi_io (WorkDirectory.Open (layerConfig config)) in
         if FAILED opened then throw_abi (AbiException opened err)
         else
           let work := default {| workDirectoryLock := None; upperLock := None |} workDirectory in
           let! made := eread (fun s => new_mount config (abiDisk s) debug) in
           match made with
           | MountMade c => allocate_mount work config c
           | MountThrowsRules =>
               do! close_work_directory work in
               throw_abi (SystemError true ERROR_INVALID_DATA
                            (system_error_what ERROR_INVALID_DATA "The process rules file did not load"))
           | MountThrowsJson => do! close_work_directory work in throw_abi (StdException json_error_what)
           end
   end)%eff.

(** The checks after those of the pointers. *)
Definition config_refusal (src : LM_CONFIG) : option Z :=
  first_refusal
    [(is_null (lmUpperPath src), E_INVALIDARG); (is_null (lmWorkDirPath src), E_INVALIDARG);
     ((0 <? lmLowerPathCount src) && is_null (lmLowerPaths src), E_INVALIDARG);
     (existsb is_null (default [] (lmLowerPaths src)), E_INVALIDARG)].

Definition LayerMountCreate (config : option LM_CONFIG) (outHandle : bool) : abi_call Z :=
  export [(negb outHandle, E_POINTER); (is_null config, E_POINTER)]
    (match config with
     | None => eret (E_POINTER, None)
     | Some src =>
         if negb (LM_STRUCT_SIZE_COVERS (structSize src) lowerPathsOffset pointerSize) then eret (E_INVALIDARG, None)
         else if negb (abiVersion src =? LM_ABI_VERSION) then
           (do! set_error E_INVALIDARG
                  (L "LayerMountCreate: unsupported abiVersion (rebuild against current LayerMount.h).") in
            eret (E_INVALIDARG, None))%eff
         else match config_refusal src with
              | Some hr => eret (hr, None)
              | None => create_mount src
              end
     end).

Definition LayerMountCreateTransient (workDir : option wstring) (capabilities : Z) (outHandle : bool) : abi_call Z :=
  export [(is_null workDir, E_INVALIDARG); (negb outHandle, E_POINTER)]
    (do! abi_io (create_directories (WithExtendedPrefix (text_of workDir))) in
     LayerMountCreate (Some {|
       structSize := lowerPathsOffset + pointerSize; abiVersion := LM_ABI_VERSION; lmHostCapabilities := capabilities;
       lmAccessLogCapacity := 0; lmPathCacheCapacity := 0; lmEnableProcessTracking := false; lmLowerPathCount := 0;
       lmUpperPath := workDir; lmWorkDirPath := Some (JoinDirPath (text_of workDir) kSidecarDirName);
       lmProcessRulesPath := None; lmLowerPaths := None |}) outHandle)%eff.

(** ** Destroy *)

Definition LayerMountDestroy (handle : Z) : abi_call unit :=
  export [(handle =? 0, E_HANDLE)]
    (with_mount handle (fun id holder =>
       if hostAttached holder then
         (do! set_error E_ILLEGAL_METHOD_CALL
                (L "LayerMountDestroy: instance is host-attached. The host adapter must unmount and clear the attached flag (LayerMountSetHostAttached(handle, FALSE)) before destroy.") in
          eret (E_ILLEGAL_METHOD_CALL, None))%eff
       else if negb (liveChildren holder =? 0) then
         (do! set_error E_ILLEGAL_METHOD_CALL
                (L "LayerMountDestroy: instance has live file handles. Close every LM_FILE_HANDLE obtained via LayerMountOpenFile / LayerMountCreateFile before destroying the overlay.") in
          eret (E_ILLEGAL_METHOD_CALL, None))%eff
       else fun s =>
         let (t, freed) := Free kMagicLayerMount pushFails handle (mountTable s) in
         let s := with_mounts t (mountHeap s) s in
         match freed with
         | None => (s, (E_HANDLE, None))
         | Some id => let (s, _) := release_mount id s in (s, (S_OK, None))
         end)).

Definition LayerMountSetHostAttached (handle : Z) (attached : bool) : abi_call unit :=
  export [(handle =? 0, E_HANDLE)]
    (with_mount handle (fun id _ s => (update_mount id (with_attached attached) s, (S_OK, None)))).

(** ** Versions and the error state *)

(** Each number is stored where the caller wants it. *)
Definition LayerMountGetVersion (major minor patch version : bool) : abi_call (list (option Z)) :=
  let '(major_, minor_, patch_) := LM_VER in
  let put (wanted : bool) (n : Z) := if wanted then Some n else None in
  export [] (eret (S_OK, Some [put major major_; put minor minor_; put patch patch_; put version LM_ABI_VERSION])).

(** [*requiredChars] where it is set, and what is stored; no guard. *)
Definition LayerMountGetLastErrorMessage (hr : Z) (buffer : option Z) (requiredChars : bool)
  : abi_call (option Z * option wstring) := fun s =>
  let '(result, required, stored) := Last hr buffer requiredChars (errorTls s) in (s, (result, Some (required, stored))).

Definition LayerMountGetLastFailureWasFill (wasFill : bool) : abi_call bool := fun s =>
  if negb wasFill then (s, (E_POINTER, None)) else (s, (S_OK, Some (lastFailureWasFill (errorTls s)))).

(** ** Paths *)

(** [LM_LAYER_NONE], [LM_LAYER_UPPER] and [LM_LAYER_LOWER] are 0, 1 and 2. *)
Definition ToPublicLayerSource (src : LayerSource) : Z :=
  match src with Upper => 1 | Lower => 2 | _ => 0 end.

(** The buffer of the caller holds so many characters. *)
Definition resolved_path (resolved : ResolvedPath) (sizes : ResolvedSizes) (buffer : option Z) : Z * LM_RESOLVED_PATH :=
  let requiredChars := Z.of_nat (length (absolutePath resolved)) + 1 in
  let (hr, stored) := emit_text (absolutePath resolved) buffer in
  (hr, {| rpSource := ToPublicLayerSource (source resolved);
          rpLowerIndex := if bool_decide (source resolved = Lower) then lowerIndex resolved else -1;
          rpIsWhiteout := isWhiteout resolved; rpAttributes := attributes resolved;
          rpFileSize := fileSize sizes; rpAllocationSize := allocationSize sizes;
          rpRequired := requiredChars;
          rpChars := if bool_decide (stored = None) then 0 else requiredChars;
          rpAbsolutePath := stored |}).

Definition LayerMountResolvePath (handle : Z) (relativePath : option wstring) (outResolved : bool) (buffer : option Z)
  : abi_call LM_RESOLVED_PATH :=
  export [(handle =? 0, E_HANDLE); (is_null relativePath, E_INVALIDARG); (negb outResolved, E_POINTER)]
    (with_mount handle (fun id holder =>
       (let! (status, resolved) := run_core id holder
          (resolve_caller_path (layerConfig (coreConfig holder)) (text_of relativePath)) in
        match resolved with
        | None => eret (hresult_of status, None)
        | Some resolved =>
            let! sizes := eread (fun s => SizesOf (abiDisk s) resolved) in
            let (hr, out) := resolved_path resolved sizes buffer in eret (hr, Some out)
        end)%eff)).

Definition kLabel : wstring := L "LayerMount".

Definition LayerMountGetVolumeInfo (handle : Z) (outInfo : bool) : abi_call LM_VOLUME_INFO :=
  export [(handle =? 0, E_HANDLE); (negb outInfo, E_POINTER)]
    (with_mount handle (fun id holder =>
       (let! (status, sizes) := eread (fun s => GetVolumeInfo (layerConfig (coreConfig holder)) (abiDisk s)) in
        eret match sizes with
             | Some (totalSize, freeSize) =>
                 (S_OK, Some {| viTotalSize := totalSize; viFreeSize := freeSize; viVolumeLabel := kLabel;
                                viVolumeLabelLength := Z.of_nat (length kLabel) * 2 |})
             | None => (hresult_of status, None)
             end)%eff)).

Definition LayerMountEnsureInUpperLayer (handle : Z) (relativePath : option wstring) : abi_call unit :=
  mount_status handle (path_check relativePath)
    (fun config => EnsurePathInUpperLayer config (text_of relativePath)).

(** ** Diagnostics *)

(** The counters of the cache and of the cleanup are fields that nothing
    adds to. *)
Definition LayerMountGetStats (handle : Z) (outStats : bool) : abi_call LM_STATS :=
  export [(handle =? 0, E_HANDLE); (negb outStats, E_POINTER)]
    (with_mount handle (fun _ holder =>
       let s := stats (core holder) in
       eret (S_OK, Some {| stCacheHits := 0; stCacheMisses := 0;
                           stCopyUpCount := copyUpCount (engine (core holder));
                           stReadCount := readCount s; stWriteCount := writeCount s;
                           stActiveHandles := activeHandles s; stBytesRead := bytesRead s;
                           stBytesWritten := bytesWritten s; stCleanupMetadataFailureCount := 0 |}))).

(** A null callback clears the slot. *)
Definition LayerMountSetEventCallback (handle : Z) (callback : option Z) : abi_call unit :=
  export [(handle =? 0, E_HANDLE)]
    (with_mount handle (fun id _ s => (update_mount id (with_callback callback) s, (S_OK, None)))).

Definition with_tracker (t : option ProcessTracker) (c : MountState) : MountState :=
  {| engine := engine c; tracker := t; stats := stats c; upperFinalPath := upperFinalPath c |}.

Definition set_tracker (id : nat) (t : option ProcessTracker) : eff AbiState unit := fun s =>
  (update_mount id (fun h => with_core (with_tracker t (core h)) h) s, tt).

(** No other thread switches the tracker meanwhile. *)
Definition LayerMountProcessTrackerEnable (handle : Z) (enabled : bool) : abi_call unit :=
  export [(handle =? 0, E_HANDLE)]
    (with_mount handle (fun id holder =>
       (let! (t, hr) := eread (fun s => SetProcessTrackerEnabled (coreConfig holder) (fun t => t) enabled (abiDisk s)
                                          (tracker (core holder))) in
        do! set_tracker id t in
        match hr with Some hr => eret (hr, None) | None => throw_abi (StdException json_error_what) end)%eff)).

(** The tracker that an export needs. *)
Definition with_tracker_of {B} (holder : LayerMountHolder) (message : wstring) (body : ProcessTracker -> abi_call B)
  : abi_call B :=
  match tracker (core holder) with
  | None => (do! set_error E_ILLEGAL_METHOD_CALL message in eret (E_ILLEGAL_METHOD_CALL, None))%eff
  | Some t => body t
  end.

Definition LayerMountProcessTrackerSetRules (handle : Z) (rulesPath : option wstring) : abi_call unit :=
  export [(handle =? 0, E_HANDLE); (is_empty_text rulesPath, E_INVALIDARG)]
    (with_mount handle (fun id holder =>
       with_tracker_of holder
         (L "LayerMountProcessTrackerSetRules: process tracker is not enabled. Call LayerMountProcessTrackerEnable(..., TRUE) first.")
         (fun t => (let! (t, loaded) := eread (fun s => LoadRules (rules_file (abiDisk s) (text_of rulesPath)) t) in
                    do! set_tracker id (Some t) in
                    match loaded with
                    | LoadThrows => throw_abi (StdException json_error_what)
                    | LoadReturns false =>
                        do! set_error E_FAIL
                              (L "LayerMountProcessTrackerSetRules: failed to load rules file (parse error or path not accessible).") in
                        eret (E_FAIL, None)
                    | LoadReturns true => eret (S_OK, None)
                    end)%eff))).

(** The text of a narrow export, or the HRESULT of the conversion. *)
Definition Utf8ToWide (utf8 : list Z) : res Z wstring :=
  if bool_decide (utf8 = []) then Ok []
  else match MultiByteToWideCharStrict utf8 with
       | Ok wide => Ok wide
       | Err e => Err (hresult_from_win32 (if negb (e =? 0) then e else ERROR_NO_UNICODE_TRANSLATION))
       end.

(** [*requiredChars], and what is stored. *)
Definition export_log (handle : Z) (buffer : option Z) (name : string) (write : disk -> ProcessTracker -> list Z)
  : abi_call (Z * option wstring) :=
  export [(handle =? 0, E_HANDLE)]
    (with_mount handle (fun _ holder =>
       with_tracker_of holder (L name ++ L ": process tracker is not enabled.")
         (fun t => (let! content := eread (fun s => Utf8ToWide (write (abiDisk s) t)) in
                    match content with
                    | Err hr =>
                        do! set_error hr (L name ++ L ": failed to convert tracker log from UTF-8 to UTF-16.") in
                        eret (hr, None)
                    | Ok content =>
                        let '(hr, required, stored) := EmitWString content buffer in eret (hr, Some (required, stored))
                    end)%eff))).

Definition LayerMountProcessTrackerExportJson (handle : Z) (buffer : option Z) : abi_call (Z * option wstring) :=
  export_log handle buffer "LayerMountProcessTrackerExportJson"
    (fun d t => json_dump (ExportLogAsJson (system_now d) t)).

Definition LayerMountProcessTrackerExportCsv (handle : Z) (buffer : option Z) : abi_call (Z * option wstring) :=
  export_log handle buffer "LayerMountProcessTrackerExportCsv" (fun _ t => ExportLogAsCsv t).
End Core.
