(* ===== verification/AbiImage.v ===== *)
(** * The exports on layer images

    [AbiImage.cpp]: the exports around the image manager of a mount.  An
    image handle keeps the path of its image. *)
From S2P Require Import ImageManager.
From S2P Require Export AbiCore.
Open Scope Z_scope.

Definition empty_metadata : LayerMetadata := {|
  ImageFormat.id := []; ImageFormat.parentId := []; ImageFormat.createdAt := []; ImageFormat.author := [];
  ImageFormat.description := []; ImageFormat.tags := []; ImageFormat.compression := Zstd; ImageFormat.fileCount := 0;
  ImageFormat.uncompressedSize := 0; ImageFormat.compressedSize := 0; ImageFormat.whiteouts := [];
  ImageFormat.labels := [] |}.

Definition with_author (text : wstring) (m : LayerMetadata) : LayerMetadata := {|
  ImageFormat.id := ImageFormat.id m; ImageFormat.parentId := ImageFormat.parentId m;
  ImageFormat.createdAt := ImageFormat.createdAt m; ImageFormat.author := text;
  ImageFormat.description := ImageFormat.description m; ImageFormat.tags := ImageFormat.tags m;
  ImageFormat.compression := ImageFormat.compression m; ImageFormat.fileCount := ImageFormat.fileCount m;
  ImageFormat.uncompressedSize := ImageFormat.uncompressedSize m;
  ImageFormat.compressedSize := ImageFormat.compressedSize m; ImageFormat.whiteouts := ImageFormat.whiteouts m;
  ImageFormat.labels := ImageFormat.labels m |}.

Definition with_description (text : wstring) (m : LayerMetadata) : LayerMetadata := {|
  ImageFormat.id := ImageFormat.id m; ImageFormat.parentId := ImageFormat.parentId m;
  ImageFormat.createdAt := ImageFormat.createdAt m; ImageFormat.author := ImageFormat.author m;
  ImageFormat.description := text; ImageFormat.tags := ImageFormat.tags m;
  ImageFormat.compression := ImageFormat.compression m; ImageFormat.fileCount := ImageFormat.fileCount m;
  ImageFormat.uncompressedSize := ImageFormat.uncompressedSize m;
  ImageFormat.compressedSize := ImageFormat.compressedSize m; ImageFormat.whiteouts := ImageFormat.whiteouts m;
  ImageFormat.labels := ImageFormat.labels m |}.

Definition empty_header : LayerImageHeader := default_header.
Definition empty_manifest : LayerManifest := {| ImageManager.schemaVersion := 1; ImageManager.layers := [] |}.

(** [LM_IMAGE_PACK_OPTIONS], with the offset of its last field. *)
Record LM_IMAGE_PACK_OPTIONS := {
  optionsSize : Z;
  optionsAuthor : option wstring;
  optionsDescription : option wstring
}.
Definition descriptionOffset : Z := 16.

(** A text field of a public struct: [*Chars], [*Required] and what is
    stored. *)
Abbreviation caller_text := (Z * Z * option wstring)%type.

Record LM_IMAGE_MANIFEST_ENTRY := { meImagePath : caller_text; meChecksumHex : wstring }.

(** [entries] are those that the call fills. *)
Record LM_IMAGE_MANIFEST := {
  imSchemaVersion : Z;
  imEntryCount : Z;
  imEntriesRequired : Z;
  imEntries : list LM_IMAGE_MANIFEST_ENTRY
}.

Record LM_IMAGE_METADATA := {
  mdId : caller_text;
  mdParentId : caller_text;
  mdCreatedAt : caller_text;
  mdAuthor : caller_text;
  mdDescription : caller_text;
  mdCompression : Z;
  mdFileCount : Z;
  mdUncompressedSize : Z;
  mdCompressedSize : Z
}.

(** The buffers of a caller for the text fields. *)
Record metadata_buffers := {
  idBuffer : option Z;
  parentIdBuffer : option Z;
  createdAtBuffer : option Z;
  authorBuffer : option Z;
  descriptionBuffer : option Z
}.

Definition kHexCapChars : Z := 65.

(** [LM_COMPRESSION_NONE] and [LM_COMPRESSION_ZSTD]. *)
Definition ToPublicCompression (ct : CompressionType) : Z :=
  match ct with Zstd => 1 | CompressionNone => 0 end.

Definition ReadPackOptions (options : option LM_IMAGE_PACK_OPTIONS) (metadata : LayerMetadata) : Z * LayerMetadata :=
  match options with
  | None => (S_OK, metadata)
  | Some options =>
      if negb (LM_STRUCT_SIZE_COVERS (optionsSize options) descriptionOffset pointerSize) then (E_INVALIDARG, metadata)
      else
        let metadata := match optionsAuthor options with Some text => with_author text metadata | None => metadata end in
        (S_OK, match optionsDescription options with Some text => with_description text metadata | None => metadata end)
  end.

(** The text in the fixed buffer, to the NUL that the call puts. *)
Definition fixed_checksum (src : wstring) : wstring :=
  let hexNeeded := Z.of_nat (length src) + 1 in
  if hexNeeded <=? kHexCapChars then src else take (Z.to_nat (kHexCapChars - 1)) src.

Definition public_metadata (loaded : LayerMetadata) (buffers : metadata_buffers) : LM_IMAGE_METADATA := {|
  mdId := FillCallerWString (ImageFormat.id loaded) (idBuffer buffers);
  mdParentId := FillCallerWString (ImageFormat.parentId loaded) (parentIdBuffer buffers);
  mdCreatedAt := FillCallerWString (ImageFormat.createdAt loaded) (createdAtBuffer buffers);
  mdAuthor := FillCallerWString (ImageFormat.author loaded) (authorBuffer buffers);
  mdDescription := FillCallerWString (ImageFormat.description loaded) (descriptionBuffer buffers);
  mdCompression := ToPublicCompression (ImageFormat.compression loaded);
  mdFileCount := ImageFormat.fileCount loaded;
  mdUncompressedSize := ImageFormat.uncompressedSize loaded;
  mdCompressedSize := ImageFormat.compressedSize loaded |}.

(** The buffers of the entries of the caller's array, [None] for a null array;
    the result and what is stored. *)
Definition public_manifest (loaded : LayerManifest) (entries : option (list (option Z))) (capacity : Z)
  : Z * LM_IMAGE_MANIFEST :=
  let required := Z.of_nat (length (ImageManager.layers loaded)) in
  let manifest count filled := {| imSchemaVersion := schemaVersion loaded; imEntryCount := count;
                                  imEntriesRequired := required; imEntries := filled |} in
  match entries with
  | None => (S_OK, manifest 0 [])
  | Some buffers =>
      if capacity =? 0 then (S_OK, manifest 0 [])
      else if capacity <? required then (hresult_from_win32 ERROR_MORE_DATA, manifest 0 [])
      else
        (S_OK, manifest (required mod 2 ^ 32)
                 (zip_with (fun src buffer =>
                    {| meImagePath := FillCallerWString (ImageManager.imagePath src) buffer;
                       meChecksumHex := fixed_checksum (checksumHex src) |}) (ImageManager.layers loaded) buffers))
  end.

Section Image.
Context `{W : Win32} `{J : Json} `{E : CacheEnv} `{P : Processes} `{H : !EntryHost} `{M : !MountHost}.
Context `{T : !Threads} `{R : !RulesFiles} `{A : !AbiHost} `{I : !ImageHost}.
(** Whether growing the free list of a table throws; the exception that leaves
    the image manager, which its model does not name; and what [CoCreateGuid]
    and [GetSystemTime] give. *)
Context (pushFails : bool) (thrown : abi_exception) (guid : option wstring) (now : SYSTEMTIME).

Definition ValidateMountHandle (encoded : Z) (s : AbiState) : Z :=
  match Resolve kMagicLayerMount encoded (mountTable s) with Some _ => S_OK | None => E_HANDLE end.

(** The end of a call of the manager.  A code of zero is a success, and leaves
    the output [unset]. *)
Definition after_image {B C} (r : img B) (unset : B) (k : B -> abi_call C) : abi_call C :=
  match r with
  | Ok b => k b
  | Err (Code e) => if negb (e =? ERROR_SUCCESS) then eret (HresultFromWin32Dword e, None) else k unset
  | Err _ => throw_abi thrown
  end.

(** [return HresultFromWin32Dword(...)]. *)
Definition image_status (m : eff disk (img unit)) : abi_call unit :=
  (let! r := abi_io m in after_image r tt (fun _ => eret (S_OK, None)))%eff.

Definition CompleteImagePack (manager : nat) (outputPath : wstring) (outImage : bool) (errorPrefix : wstring)
  : abi_call Z := fun s =>
  if negb outImage then (s, (S_OK, None))
  else
    let (t, encodedImg) := Allocate kMagicImage (Some {| managerOwner := manager; holderImagePath := outputPath |})
                             (imageTable s) in
    let s := with_images t s in
    if encodedImg =? 0 then
      (do! set_error E_OUTOFMEMORY (errorPrefix ++ L ": image handle table exhausted.") in
       eret (E_OUTOFMEMORY, None))%eff s
    else (s, (S_OK, Some encodedImg)).

(** The options, the mount, the pack, the handle. *)
Definition pack_call (mount : Z) (checks : list (bool * Z)) (outputPath : wstring)
    (options : option LM_IMAGE_PACK_OPTIONS) (outImage : bool) (errorPrefix : wstring)
    (pack : LayerMetadata -> eff disk (img LayerMetadata)) : abi_call Z :=
  export ((mount =? 0, E_HANDLE) :: checks)
    (let (optionsHr, metadata) := ReadPackOptions options empty_metadata in
     if FAILED optionsHr then eret (optionsHr, None)
     else with_mount mount (fun id _ =>
       (let! r := abi_io (pack metadata) in
        after_image r metadata (fun _ => CompleteImagePack id outputPath outImage errorPrefix))%eff)).

Definition LayerMountImagePack (mount : Z) (sourceDir outputPath : option wstring) (compressionLevel : Z)
    (options : option LM_IMAGE_PACK_OPTIONS) (outImage : bool) : abi_call Z :=
  pack_call mount [(is_empty_text sourceDir, E_INVALIDARG); (is_empty_text outputPath, E_INVALIDARG)]
    (text_of outputPath) options outImage (L "LayerMountImagePack")
    (CreateImage guid now (text_of sourceDir)
       {| ImageManager.outputPath := text_of outputPath; ImageManager.compressionLevel := compressionLevel |}).

Definition LayerMountImagePackDifferential (mount : Z) (sourceDir baseDir outputPath : option wstring)
    (compressionLevel : Z) (options : option LM_IMAGE_PACK_OPTIONS) (outImage : bool) : abi_call Z :=
  pack_call mount [(is_empty_text sourceDir, E_INVALIDARG); (is_empty_text baseDir, E_INVALIDARG);
                   (is_empty_text outputPath, E_INVALIDARG)]
    (text_of outputPath) options outImage (L "LayerMountImagePackDifferential")
    (CreateDifferentialImage guid now (text_of sourceDir) (text_of baseDir)
       {| ImageManager.outputPath := text_of outputPath; ImageManager.compressionLevel := compressionLevel |}).

(** [imagePaths] is an array of [imageCount] pointers. *)
Definition LayerMountImageCreateManifest (mount : Z) (outputPath : option wstring)
    (imagePaths : option (list (option wstring))) (imageCount : Z) : abi_call unit :=
  export [(mount =? 0, E_HANDLE); (is_empty_text outputPath, E_INVALIDARG);
          ((0 <? imageCount) && is_null imagePaths, E_POINTER)]
    (with_mount mount (fun _ _ =>
       let paths := if 0 <? imageCount then default [] imagePaths else [] in
       if existsb is_null paths then eret (E_INVALIDARG, None)
       else image_status (CreateManifest (text_of outputPath) (text_of <$> paths)))).

Definition LayerMountImageUnpack (mount : Z) (imagePath targetDir : option wstring) (verifyChecksum : bool)
  : abi_call unit :=
  export [(mount =? 0, E_HANDLE); (is_empty_text imagePath, E_INVALIDARG); (is_empty_text targetDir, E_INVALIDARG)]
    (with_mount mount (fun _ _ => image_status (ExtractImage (text_of imagePath) (text_of targetDir) verifyChecksum))).

Definition LayerMountImageValidate (mount : Z) (imagePath : option wstring) : abi_call unit :=
  export [(mount =? 0, E_HANDLE); (is_empty_text imagePath, E_INVALIDARG)]
    (with_mount mount (fun _ _ => image_status (eread (fun d => ValidateImage d (text_of imagePath))))).

Definition LayerMountImageGetManifest (mount : Z) (manifestPath : option wstring) (manifest : bool)
    (entries : option (list (option Z))) (capacity : Z) : abi_call LM_IMAGE_MANIFEST :=
  export [(mount =? 0, E_HANDLE); (is_empty_text manifestPath, E_INVALIDARG); (negb manifest, E_POINTER)]
    (let! validateHr := eread (ValidateMountHandle mount) in
     if FAILED validateHr then eret (validateHr, None)
     else
       let! loaded := eread (fun s => LoadManifest (abiDisk s) (text_of manifestPath)) in
       after_image loaded empty_manifest (fun loaded =>
         let (hr, out) := public_manifest loaded entries capacity in eret (hr, Some out)))%eff.

Definition LayerMountImageGetMetadata (mount : Z) (imagePath : option wstring) (metadata : bool)
    (buffers : metadata_buffers) : abi_call LM_IMAGE_METADATA :=
  export [(mount =? 0, E_HANDLE); (is_empty_text imagePath, E_INVALIDARG); (negb metadata, E_POINTER)]
    (with_mount mount (fun _ _ =>
       (let! loaded := eread (fun s => GetImageInfo (abiDisk s) (text_of imagePath)) in
        after_image loaded (empty_header, empty_metadata) (fun loaded =>
          eret (S_OK, Some (public_metadata (snd loaded) buffers))))%eff)).

Definition LayerMountImageClose (image : Z) : abi_call unit :=
  export [(image =? 0, E_HANDLE)]
    (fun s => let (t, freed) := Free kMagicImage pushFails image (imageTable s) in
              (with_images t s, (match freed with Some _ => S_OK | None => E_HANDLE end, None))).
End Image.
