(* ===== verification/AbiFacts.v ===== *)
(** * The life of mounts and files behind the C interface

    An invariant of [AbiState] over every sequence of exports: the heap of
    mounts is what the table of mounts names, the heap of files what the table
    of files names, each open file has a live mount, and a mount counts its
    open files.  So a file handle never outlives its mount, and a mount that
    [LayerMountDestroy] frees has no open file. *)
From S2P Require Export HandleSafety AbiImage.
Open Scope Z_scope.

(** ** The invariant *)
Section Links.
Context `{W : Win32}.
Implicit Types (s : AbiState).

(** The objects of a heap are those that the values of a table name, each by
    one value. *)
Definition exactly {V} (m : gmap Z nat) (heap : gmap nat V) : Prop :=
  (forall id, is_Some (heap !! id) <-> exists v, m !! v = Some id) /\
  (forall v v' id, m !! v = Some id -> m !! v' = Some id -> v = v').

(** What the invariant reads of a state: the tables, how many open files each
    mount counts, and the mount of each open file. *)
Record link_state := {
  linkMounts : HandleTable nat;
  linkFiles : HandleTable nat;
  linkCounts : gmap nat Z;
  linkParents : gmap nat nat
}.

Definition links_of s : link_state := {|
  linkMounts := mountTable s; linkFiles := fileTable s;
  linkCounts := liveChildren <$> mountHeap s; linkParents := parentOwner <$> fileHeap s |}.

(** The open files of a mount. *)
Definition children (parents : gmap nat nat) (id : nat) : Z := Z.of_nat (size (filter (fun kv => snd kv = id) parents)).

Definition link_ok (k : link_state) : Prop :=
  exists mounts files,
    table_holds kMagicLayerMount (linkMounts k) mounts /\ exactly mounts (linkCounts k) /\
    table_holds kMagicFile (linkFiles k) files /\ exactly files (linkParents k) /\
    (forall fid id, linkParents k !! fid = Some id -> is_Some (linkCounts k !! id)) /\
    (forall id n, linkCounts k !! id = Some n -> n = children (linkParents k) id).

Definition abi_ok s : Prop := link_ok (links_of s).

Definition same_links s s' : Prop := links_of s' = links_of s.

Lemma same_links_refl s : same_links s s.
Proof. done. Qed.

Lemma same_links_trans s1 s2 s3 : same_links s1 s2 -> same_links s2 s3 -> same_links s1 s3.
Proof. unfold same_links. congruence. Qed.

Lemma abi_ok_links s s' : same_links s s' -> abi_ok s -> abi_ok s'.
Proof. unfold same_links, abi_ok. by intros ->. Qed.

Lemma links_of_eq s s' :
  mountTable s' = mountTable s -> fileTable s' = fileTable s ->
  liveChildren <$> mountHeap s' = liveChildren <$> mountHeap s ->
  parentOwner <$> fileHeap s' = parentOwner <$> fileHeap s -> same_links s s'.
Proof. unfold same_links, links_of. by intros -> -> -> ->. Qed.

(** *** Maps of objects *)

Lemma exactly_insert {V} m (heap : gmap nat V) v id x :
  m !! v = None -> heap !! id = None -> exactly m heap -> exactly (<[v := id]> m) (<[id := x]> heap).
Proof.
  intros Hv Hid [H1 H2]. split.
  - intros i. rewrite lookup_insert_is_Some'. rewrite H1. split.
    + intros [-> |(v' & Hv')]; [by exists v; rewrite lookup_insert_eq|].
      exists v'. rewrite lookup_insert_ne; [done|congruence].
    + intros (v' & [[-> <-]|[_ Hv']]%lookup_insert_Some); [by left|right; by exists v'].
  - intros v1 v2 i [[<- <-]|[Hn1 Hv1]]%lookup_insert_Some [[E2 E]|[Hn2 Hv2]]%lookup_insert_Some; subst; try done.
    + exfalso. destruct (proj2 (H1 id)) as [? ?]; [by exists v2|congruence].
    + exfalso. destruct (proj2 (H1 i)) as [? ?]; [by exists v1|congruence].
    + by apply (H2 v1 v2 i).
Qed.

Lemma exactly_delete {V} m (heap : gmap nat V) v id :
  m !! v = Some id -> exactly m heap -> exactly (delete v m) (delete id heap).
Proof.
  intros Hv [H1 H2]. split.
  - intros i. rewrite lookup_delete_is_Some, H1. split.
    + intros [Hne (v' & Hv')]. exists v'. rewrite lookup_delete_ne; [done|congruence].
    + intros (v' & [Hn Hv']%lookup_delete_Some). split; [|by exists v']. intros ->. by apply Hn, (H2 v v' i).
  - intros v1 v2 i [_ Hv1]%lookup_delete_Some [_ Hv2]%lookup_delete_Some. by apply (H2 v1 v2 i).
Qed.

Lemma exactly_insert_old {V} m (heap : gmap nat V) id x :
  is_Some (heap !! id) -> exactly m heap -> exactly m (<[id := x]> heap).
Proof.
  intros Hid [H1 H2]. split; [|done]. intros i. rewrite <- H1, lookup_insert_is_Some'. naive_solver.
Qed.

Lemma children_insert (ps : gmap nat nat) fid id i :
  ps !! fid = None -> children (<[fid := id]> ps) i = children ps i + (if decide (id = i) then 1 else 0).
Proof.
  intros Hf. unfold children. rewrite map_filter_insert. cbn [snd].
  destruct (decide (id = i)) as [->|Hne].
  - rewrite map_size_insert_None; [lia|]. rewrite map_lookup_filter_None. by left.
  - rewrite map_filter_delete, delete_id; [lia|]. rewrite map_lookup_filter_None. by left.
Qed.

Lemma children_delete (ps : gmap nat nat) fid id i :
  ps !! fid = Some id -> children (delete fid ps) i = children ps i - (if decide (id = i) then 1 else 0).
Proof.
  intros Hf. rewrite <- (insert_delete_id ps fid id Hf) at 2. rewrite children_insert by (apply lookup_delete_eq). lia.
Qed.

(** *** The calls on the links *)

Lemma link_ok_insert_file k file id n v t :
  (forall files, table_holds kMagicFile (linkFiles k) files -> files !! v = None /\ table_holds kMagicFile t (<[v := file]> files)) ->
  linkParents k !! file = None -> linkCounts k !! id = Some n -> link_ok k ->
  link_ok {| linkMounts := linkMounts k; linkFiles := t; linkCounts := <[id := n + 1]> (linkCounts k);
             linkParents := <[file := id]> (linkParents k) |}.
Proof.
  intros Ht Hfile Hid (mounts & files & H1 & H2 & H3 & H4 & H5 & H6). destruct (Ht _ H3) as [Hv Ht'].
  exists mounts, (<[v := file]> files). cbn. split_and!; try done.
  - apply exactly_insert_old; [by exists n|done].
  - by apply exactly_insert.
  - intros f i [[<- <-]|[_ Hf]]%lookup_insert_Some; rewrite lookup_insert_is_Some'; [by left|right; by eapply H5].
  - intros i m Hi. rewrite children_insert by done. apply lookup_insert_Some in Hi as [[<- <-]|[Hne Hi]].
    + rewrite decide_True by done. by rewrite (H6 _ _ Hid).
    + rewrite decide_False by done. rewrite (H6 _ _ Hi). lia.
Qed.

Lemma link_ok_delete_file k file id n v t :
  (forall files, table_holds kMagicFile (linkFiles k) files -> files !! v = Some file /\ table_holds kMagicFile t (delete v files)) ->
  linkParents k !! file = Some id -> linkCounts k !! id = Some n -> link_ok k ->
  link_ok {| linkMounts := linkMounts k; linkFiles := t; linkCounts := <[id := n - 1]> (linkCounts k);
             linkParents := delete file (linkParents k) |}.
Proof.
  intros Ht Hfile Hid (mounts & files & H1 & H2 & H3 & H4 & H5 & H6). destruct (Ht _ H3) as [Hv Ht'].
  exists mounts, (delete v files). cbn. split_and!; try done.
  - apply exactly_insert_old; [by exists n|done].
  - by apply exactly_delete.
  - intros f i [_ Hf]%lookup_delete_Some. rewrite lookup_insert_is_Some'. right. by eapply H5.
  - intros i m Hi. rewrite (children_delete _ _ id) by done. apply lookup_insert_Some in Hi as [[<- <-]|[Hne Hi]].
    + rewrite decide_True by done. by rewrite (H6 _ _ Hid).
    + rewrite decide_False by done. rewrite (H6 _ _ Hi). lia.
Qed.

Lemma children_none (ps : gmap nat nat) id : children ps id = 0 <-> forall fid, ps !! fid <> Some id.
Proof.
  unfold children. split.
  - intros Hs fid Hf. assert (Hz : size (filter (fun kv => snd kv = id) ps) = 0%nat) by lia.
    apply map_size_empty_inv in Hz. assert (filter (fun kv => snd kv = id) ps !! fid = Some id) as E
      by (by apply map_lookup_filter_Some). by rewrite Hz in E.
  - intros Hf. assert (filter (fun kv => snd kv = id) ps = ∅) as ->; [|done].
    apply map_empty. intros fid. apply map_lookup_filter_None. right. intros i Hi Hs. cbn in Hs. subst. by apply (Hf fid).
Qed.

Lemma link_ok_insert_mount k id v t :
  (forall mounts, table_holds kMagicLayerMount (linkMounts k) mounts ->
     mounts !! v = None /\ table_holds kMagicLayerMount t (<[v := id]> mounts)) ->
  linkCounts k !! id = None -> link_ok k ->
  link_ok {| linkMounts := t; linkFiles := linkFiles k; linkCounts := <[id := 0]> (linkCounts k);
             linkParents := linkParents k |}.
Proof.
  intros Ht Hid (mounts & files & H1 & H2 & H3 & H4 & H5 & H6). destruct (Ht _ H1) as [Hv Ht'].
  exists (<[v := id]> mounts), files. cbn. split_and!; try done.
  - by apply exactly_insert.
  - intros f i Hf. rewrite lookup_insert_is_Some'. right. by eapply H5.
  - intros i m [[<- <-]|[Hne Hi]]%lookup_insert_Some; [|by apply H6]. symmetry. apply children_none.
    intros fid Hf. destruct (H5 _ _ Hf) as [? ?]. congruence.
Qed.

Lemma link_ok_delete_mount k id v t :
  (forall mounts, table_holds kMagicLayerMount (linkMounts k) mounts ->
     mounts !! v = Some id /\ table_holds kMagicLayerMount t (delete v mounts)) ->
  linkCounts k !! id = Some 0 -> link_ok k ->
  link_ok {| linkMounts := t; linkFiles := linkFiles k; linkCounts := delete id (linkCounts k);
             linkParents := linkParents k |}.
Proof.
  intros Ht Hid (mounts & files & H1 & H2 & H3 & H4 & H5 & H6). destruct (Ht _ H1) as [Hv Ht'].
  exists (delete v mounts), files. cbn. split_and!; try done.
  - by apply exactly_delete.
  - intros f i Hf. rewrite lookup_delete_is_Some. split; [|by eapply H5]. intros <-.
    pose proof (H6 _ _ Hid) as Hz. symmetry in Hz. by apply (proj1 (children_none _ _) Hz f).
  - intros i m [_ Hi]%lookup_delete_Some. by apply H6.
Qed.

(** ** Calls that keep the links *)

Definition links {A} (m : eff AbiState A) : Prop := forall s, same_links s (fst (m s)).

Lemma links_ok {A} (m : eff AbiState A) s : links m -> abi_ok s -> abi_ok (fst (m s)).
Proof. intros Hm. apply abi_ok_links, Hm. Qed.

Lemma links_ret {A} (a : A) : links (eret a).
Proof. by intros s. Qed.

Lemma links_read {A} (f : AbiState -> A) : links (eread f).
Proof. by intros s. Qed.

Lemma links_bind {A B} (m : eff AbiState A) (k : A -> eff AbiState B) :
  links m -> (forall a, links (k a)) -> links (ebind m k).
Proof.
  intros Hm Hk s. unfold ebind. specialize (Hm s). destruct (m s) as [s1 a]. cbn [fst] in Hm.
  eapply same_links_trans; [exact Hm|apply Hk].
Qed.

Lemma links_error hr message : links (set_error hr message).
Proof. by intros s. Qed.

Lemma links_io {A} (m : eff disk A) : links (abi_io m).
Proof. intros s. unfold abi_io. by destruct (m (abiDisk s)). Qed.

Lemma alter_children (f : LayerMountHolder -> LayerMountHolder) (id : nat) (heap : gmap nat LayerMountHolder) :
  (forall h, liveChildren (f h) = liveChildren h) -> liveChildren <$> alter f id heap = liveChildren <$> heap.
Proof.
  intros Hf. apply map_eq. intros i. rewrite !lookup_fmap, lookup_alter. case_decide as Hi; [subst|done].
  destruct (heap !! _) as [h|]; [|done]. cbn. by rewrite Hf.
Qed.

Lemma links_update_mount {A} id f (a : A) :
  (forall h, liveChildren (f h) = liveChildren h) -> links (fun s => (update_mount id f s, a)).
Proof. intros Hf s. apply links_of_eq; [done|done|by apply alter_children|done]. Qed.

Section Calls.
Context `{H : !EntryHost}.

Lemma links_throw {B} e : links (throw_abi (B := B) e).
Proof. intros s. unfold throw_abi. by destruct (LM_ABI_END e (errorTls s)). Qed.

Lemma links_export {B} checks (body : abi_call B) : links body -> links (export checks body).
Proof.
  intros Hb s. unfold export. destruct (first_refusal checks); [done|].
  eapply same_links_trans; [|apply Hb]. done.
Qed.

Lemma links_with_mount {B} handle (body : nat -> LayerMountHolder -> abi_call B) :
  (forall id holder, links (body id holder)) -> links (with_mount handle body).
Proof. intros Hb s. unfold with_mount. destruct (resolve_mount handle s) as [[id holder]|]; [apply Hb|done]. Qed.

Lemma leave_core_links id c s : same_links s (leave_core id c s).
Proof. apply links_of_eq; [done|done|by apply alter_children|done]. Qed.

Lemma links_run_core {B} id holder (m : eff MountState B) : links (run_core id holder m).
Proof. intros s. unfold run_core. destruct (m _). apply leave_core_links. Qed.

Lemma update_file_links id file s :
  (parentOwner <$> fileHeap s) !! id = Some (parentOwner file) -> same_links s (update_file id file s).
Proof. intros Hp. apply links_of_eq; [done..|]. cbn [update_file with_files fileHeap]. by rewrite fmap_insert, insert_id. Qed.

Lemma run_context_links {B} id file holder (m : ctx_eff B) s :
  fileHeap s !! id = Some file -> same_links s (fst (run_context id file holder m s)).
Proof.
  intros Hf. unfold run_context. destruct (m _) as [[c ctx] b]. cbn [fst].
  eapply same_links_trans; [apply leave_core_links|]. apply update_file_links. cbn [leave_core fileHeap parentOwner].
  by rewrite lookup_fmap, Hf.
Qed.

Lemma ResolveFileHolder_Some handle s id file holder :
  ResolveFileHolder handle s = Some (id, file, holder) ->
  Resolve kMagicFile handle (fileTable s) = Some id /\ fileHeap s !! id = Some file /\
  mountHeap s !! parentOwner file = Some holder.
Proof.
  unfold ResolveFileHolder. intros (id' & Hid & (file' & Hf & (h & Hh & [= -> -> ->])%bind_Some)%bind_Some)%bind_Some.
  done.
Qed.

Lemma links_file_call {B} handle checks (unresolved : option B) m : links (file_call handle checks unresolved m).
Proof.
  apply links_export. intros s. destruct (ResolveFileHolder handle s) as [[[id file] holder]|] eqn:E; [|done].
  apply ResolveFileHolder_Some in E as (_ & Hf & _). by apply run_context_links.
Qed.

Lemma links_mount_status handle checks m : links (mount_status handle checks m).
Proof.
  apply links_export, links_with_mount. intros id holder.
  apply links_bind; [apply links_run_core|]. intros ?. apply links_ret.
Qed.

Lemma links_close_work work : links (close_work_directory work).
Proof. apply links_io. Qed.
End Calls.
End Links.

Create HintDb links.
#[export] Hint Resolve links_ret links_read links_error links_io links_throw links_run_core links_file_call
  links_mount_status links_close_work : links.

(** One step through the structure of a call. *)
Ltac links_step :=
  intros;
  first [ progress eauto with links | apply links_bind | apply links_export | apply links_with_mount
        | apply links_update_mount; done | case_match ].
Ltac links_tac := repeat links_step.

(** ** The exports *)
Section Exports.
Context `{W : Win32} `{J : Json} `{E : CacheEnv} `{P : Processes} `{H : !EntryHost} `{M : !MountHost}.
Context `{T : !Threads} `{R : !RulesFiles} `{A : !AbiHost} `{D : DescriptorCalls} `{I : !ImageHost.ImageHost}.
Context (pushFails : bool).

(** The exports of [AbiFile.cpp], [AbiCore.cpp], [AbiPath.cpp],
    [AbiDiagnostics.cpp] and [AbiImage.cpp] that use handles, with their
    arguments. *)
Inductive abi_op :=
| OpOpenFile (handle : Z) (path : option wstring) (access options pid : Z) (outFile outInfo : bool)
| OpCreateFile (handle : Z) (path : option wstring) (options access attributes : Z) (sd : option (list Z))
    (sdBytes allocation pid : Z) (outFile outInfo : bool)
| OpCloseFile (file : Z)
| OpCleanupFile (file : Z)
| OpReadFile (file : Z) (buffer : bool) (offset length_ : Z) (transferred : bool)
| OpWriteFile (file : Z) (buffer : option (list Z)) (beyond : list Z) (offset length_ : Z)
    (toEnd constrained transferred outInfo : bool)
| OpOverwriteFile (file attributes : Z) (replace : bool) (allocation : Z) (outInfo : bool)
| OpFlushFile (file : Z) (outInfo : bool)
| OpSetFileInfo (file attributes created accessed written changed allocation size : Z) (outInfo : bool)
| OpGetFileInfo (file : Z) (outInfo : bool)
| OpGetReparsePoint (handle : Z) (path : option wstring) (buffer : bool) (bytes : Z)
| OpSetReparsePoint (handle : Z) (path : option wstring) (buffer : option (list Z)) (bytes : Z)
| OpDeleteReparsePoint (handle : Z) (path : option wstring) (buffer : option (list Z)) (bytes : Z)
| OpEnumerateStreams (handle : Z) (path : option wstring) (buffer : bool) (capacity : Z) (outCount : bool)
| OpMergeDirectory (handle : Z) (path : option wstring) (callback : option (wstring -> LM_FILE_INFO -> eff (list Z) Z))
    (context : list Z)
| OpGetSecurity (handle : Z) (path : option wstring) (info : Z) (outAttributes buffer : bool) (bytes : Z)
| OpSetSecurity (handle : Z) (path : option wstring) (info : Z) (sd : option (list Z))
| OpDeleteFile (handle : Z) (path : option wstring)
| OpCanDeleteFile (handle : Z) (path : option wstring)
| OpCanDeleteOpenFile (file : Z)
| OpDeleteOpenFile (file : Z)
| OpRenameFile (handle : Z) (old new : option wstring) (replace : bool)
| OpUpdateOpenFilePath (file : Z) (new : option wstring)
| OpRenameOpenFile (file : Z) (new : option wstring) (replace : bool)
| OpCreateWhiteout (handle : Z) (path : option wstring) (isDirectory : bool)
| OpSetOpaque (handle : Z) (path : option wstring)
| OpMountCreate (config : option LM_CONFIG) (outHandle : bool)
| OpMountCreateTransient (workDir : option wstring) (capabilities : Z) (outHandle : bool)
| OpMountDestroy (handle : Z)
| OpSetHostAttached (handle : Z) (attached : bool)
| OpResolvePath (handle : Z) (path : option wstring) (outResolved : bool) (buffer : option Z)
| OpGetVolumeInfo (handle : Z) (outInfo : bool)
| OpEnsureInUpperLayer (handle : Z) (path : option wstring)
| OpGetStats (handle : Z) (outStats : bool)
| OpSetEventCallback (handle : Z) (callback : option Z)
| OpTrackerEnable (handle : Z) (enabled : bool)
| OpTrackerSetRules (handle : Z) (rules : option wstring)
| OpTrackerExportJson (handle : Z) (buffer : option Z)
| OpTrackerExportCsv (handle : Z) (buffer : option Z)
| OpImagePack (thrown : abi_exception) (guid : option wstring) (now : ImageFormat.SYSTEMTIME) (mount : Z)
    (source output : option wstring) (level : Z) (options : option LM_IMAGE_PACK_OPTIONS) (outImage : bool)
| OpImagePackDifferential (thrown : abi_exception) (guid : option wstring) (now : ImageFormat.SYSTEMTIME) (mount : Z)
    (source base output : option wstring) (level : Z) (options : option LM_IMAGE_PACK_OPTIONS) (outImage : bool)
| OpImageCreateManifest (thrown : abi_exception) (mount : Z) (output : option wstring)
    (images : option (list (option wstring))) (count : Z)
| OpImageUnpack (thrown : abi_exception) (mount : Z) (image target : option wstring) (verify : bool)
| OpImageValidate (thrown : abi_exception) (mount : Z) (image : option wstring)
| OpImageGetManifest (thrown : abi_exception) (mount : Z) (path : option wstring) (manifest : bool)
    (entries : option (list (option Z))) (capacity : Z)
| OpImageGetMetadata (thrown : abi_exception) (mount : Z) (image : option wstring) (metadata : bool)
    (buffers : metadata_buffers)
| OpImageClose (image : Z).

(** The HRESULT of an export; its outputs do not come back into the state. *)
Definition hresult_only {B} (m : abi_call B) : eff AbiState Z := (let! (hr, _) := m in eret hr)%eff.

Definition run_abi_op (op : abi_op) : eff AbiState Z :=
  match op with
  | OpOpenFile h p a o pid f i => hresult_only (LayerMountOpenFile pushFails h p a o pid f i)
  | OpCreateFile h p o a attrs sd n alloc pid f i =>
      hresult_only (LayerMountCreateFile pushFails h p o a attrs sd n alloc pid f i)
  | OpCloseFile f => hresult_only (LayerMountCloseFile pushFails f)
  | OpCleanupFile f => hresult_only (LayerMountCleanupFile f)
  | OpReadFile f b off n t => hresult_only (LayerMountReadFile f b off n t)
  | OpWriteFile f b beyond off n e c t i => hresult_only (LayerMountWriteFile f b beyond off n e c t i)
  | OpOverwriteFile f a r alloc i => hresult_only (LayerMountOverwriteFile f a r alloc i)
  | OpFlushFile f i => hresult_only (LayerMountFlushFile f i)
  | OpSetFileInfo f a c1 c2 c3 c4 alloc n i => hresult_only (LayerMountSetFileInfo f a c1 c2 c3 c4 alloc n i)
  | OpGetFileInfo f i => hresult_only (LayerMountGetFileInfo f i)
  | OpGetReparsePoint h p b n => hresult_only (LayerMountGetReparsePoint h p b n)
  | OpSetReparsePoint h p b n => hresult_only (LayerMountSetReparsePoint h p b n)
  | OpDeleteReparsePoint h p b n => hresult_only (LayerMountDeleteReparsePoint h p b n)
  | OpEnumerateStreams h p b n c => hresult_only (LayerMountEnumerateStreams h p b n c)
  | OpMergeDirectory h p cb c => hresult_only (LayerMountMergeDirectory h p cb c)
  | OpGetSecurity h p info a b n => hresult_only (LayerMountGetSecurity h p info a b n)
  | OpSetSecurity h p info sd => hresult_only (LayerMountSetSecurity h p info sd)
  | OpDeleteFile h p => hresult_only (LayerMountDeleteFile h p)
  | OpCanDeleteFile h p => hresult_only (LayerMountCanDeleteFile h p)
  | OpCanDeleteOpenFile f => hresult_only (LayerMountCanDeleteOpenFile f)
  | OpDeleteOpenFile f => hresult_only (LayerMountDeleteOpenFile f)
  | OpRenameFile h old new r => hresult_only (LayerMountRenameFile h old new r)
  | OpUpdateOpenFilePath f new => hresult_only (LayerMountUpdateOpenFilePath f new)
  | OpRenameOpenFile f new r => hresult_only (LayerMountRenameOpenFile f new r)
  | OpCreateWhiteout h p d => hresult_only (LayerMountCreateWhiteout h p d)
  | OpSetOpaque h p => hresult_only (LayerMountSetOpaque h p)
  | OpMountCreate c o => hresult_only (LayerMountCreate c o)
  | OpMountCreateTransient w c o => hresult_only (LayerMountCreateTransient w c o)
  | OpMountDestroy h => hresult_only (LayerMountDestroy pushFails h)
  | OpSetHostAttached h b => hresult_only (LayerMountSetHostAttached h b)
  | OpResolvePath h p o b => hresult_only (LayerMountResolvePath h p o b)
  | OpGetVolumeInfo h o => hresult_only (LayerMountGetVolumeInfo h o)
  | OpEnsureInUpperLayer h p => hresult_only (LayerMountEnsureInUpperLayer h p)
  | OpGetStats h o => hresult_only (LayerMountGetStats h o)
  | OpSetEventCallback h cb => hresult_only (LayerMountSetEventCallback h cb)
  | OpTrackerEnable h b => hresult_only (LayerMountProcessTrackerEnable h b)
  | OpTrackerSetRules h p => hresult_only (LayerMountProcessTrackerSetRules h p)
  | OpTrackerExportJson h b => hresult_only (LayerMountProcessTrackerExportJson h b)
  | OpTrackerExportCsv h b => hresult_only (LayerMountProcessTrackerExportCsv h b)
  | OpImagePack e g now m src out l o i => hresult_only (LayerMountImagePack e g now m src out l o i)
  | OpImagePackDifferential e g now m src base out l o i =>
      hresult_only (LayerMountImagePackDifferential e g now m src base out l o i)
  | OpImageCreateManifest e m out images n => hresult_only (LayerMountImageCreateManifest e m out images n)
  | OpImageUnpack e m image target v => hresult_only (LayerMountImageUnpack e m image target v)
  | OpImageValidate e m image => hresult_only (LayerMountImageValidate e m image)
  | OpImageGetManifest e m p out entries n => hresult_only (LayerMountImageGetManifest e m p out entries n)
  | OpImageGetMetadata e m image out b => hresult_only (LayerMountImageGetMetadata e m image out b)
  | OpImageClose i => hresult_only (LayerMountImageClose pushFails i)
  end.

Lemma links_with_tracker_of {B} holder message (body : ProcessTracker -> abi_call B) :
  (forall t, links (body t)) -> links (with_tracker_of holder message body).
Proof. intros Hb. unfold with_tracker_of. destruct (tracker (core holder)); [apply Hb|]. links_tac. Qed.

Lemma links_set_tracker id t : links (set_tracker id t).
Proof. by apply links_update_mount. Qed.
#[local] Hint Resolve links_set_tracker : links.

Lemma links_after_image {B C} thrown (r : ImageHost.img B) unset (k : B -> abi_call C) :
  (forall b, links (k b)) -> links (after_image thrown r unset k).
Proof. intros Hk. unfold after_image. destruct r as [b|[e| |]]; [apply Hk|case_match; [links_tac|apply Hk]|links_tac..]. Qed.

Lemma links_image_status thrown m : links (image_status thrown m).
Proof. apply links_bind; [apply links_io|]. intros r. apply links_after_image. intros _. apply links_ret. Qed.

Lemma links_CompleteImagePack manager path outImage prefix : links (CompleteImagePack manager path outImage prefix).
Proof.
  intros s. unfold CompleteImagePack. destruct outImage; [|done]. cbn [negb].
  destruct (Allocate kMagicImage _ (imageTable s)) as [t v]. by destruct (v =? 0).
Qed.

Lemma links_pack_call thrown mount checks path options outImage prefix pack :
  links (pack_call thrown mount checks path options outImage prefix pack).
Proof.
  apply links_export. destruct (ReadPackOptions options empty_metadata) as [hr metadata]. case_match; [apply links_ret|].
  apply links_with_mount. intros id holder. apply links_bind; [apply links_io|]. intros r.
  apply links_after_image. intros _. apply links_CompleteImagePack.
Qed.

Lemma links_ImageClose image : links (LayerMountImageClose pushFails image).
Proof. apply links_export. intros s. by destruct (Free kMagicImage pushFails image (imageTable s)). Qed.
#[local] Hint Resolve links_image_status links_pack_call links_ImageClose : links.

(** The exports that make, open, close or free no mount and no file. *)
Definition lifecycle (op : abi_op) : bool :=
  match op with
  | OpOpenFile _ _ _ _ _ _ _ | OpCreateFile _ _ _ _ _ _ _ _ _ _ _ | OpCloseFile _
  | OpMountCreate _ _ | OpMountCreateTransient _ _ _ | OpMountDestroy _ => true
  | _ => false
  end.

Lemma links_run_abi_op op : lifecycle op = false -> links (run_abi_op op).
Proof.
  destruct op; try done; intros _; cbn [run_abi_op]; apply links_bind;
    try (intros [? ?]; apply links_ret);
    unfold LayerMountCleanupFile, LayerMountCanDeleteOpenFile, LayerMountDeleteOpenFile, LayerMountUpdateOpenFilePath,
      LayerMountRenameOpenFile, file_status, LayerMountOverwriteFile, LayerMountFlushFile, LayerMountSetFileInfo,
      info_call, LayerMountReadFile, LayerMountWriteFile, LayerMountGetFileInfo;
    try apply links_file_call; try apply links_mount_status;
    unfold LayerMountGetReparsePoint, LayerMountEnumerateStreams, LayerMountMergeDirectory, LayerMountGetSecurity,
      LayerMountCreateWhiteout, LayerMountSetOpaque, marker_call, LayerMountSetHostAttached, LayerMountResolvePath,
      LayerMountGetVolumeInfo, LayerMountGetStats, LayerMountSetEventCallback, LayerMountProcessTrackerEnable,
      LayerMountProcessTrackerSetRules, LayerMountProcessTrackerExportJson, LayerMountProcessTrackerExportCsv,
      export_log, LayerMountImagePack, LayerMountImagePackDifferential, LayerMountImageCreateManifest,
      LayerMountImageUnpack, LayerMountImageValidate, LayerMountImageGetManifest, LayerMountImageGetMetadata; links_tac;
    intros; first [apply links_with_tracker_of | apply links_after_image]; links_tac.
Qed.
End Exports.
