(* ===== verification/AbiLifetime.v ===== *)
(** * Mounts and files that open and close

    The exports of the C interface that make or free a mount or a file keep
    the invariant of [AbiFacts.v], so every sequence of exports does. *)
From S2P Require Export AbiFacts.
Open Scope Z_scope.

Lemma magic_mount_ok : 0 < kMagicLayerMount < 2 ^ 16.
Proof. unfold kMagicLayerMount. lia. Qed.

Section Lifetime.
Context `{W : Win32} `{J : Json} `{E : CacheEnv} `{P : Processes} `{H : !EntryHost} `{M : !MountHost}.
Context `{T : !Threads} `{R : !RulesFiles} `{A : !AbiHost} `{D : DescriptorCalls} `{I : !ImageHost.ImageHost}.
Context (pushFails : bool).
Implicit Types (s : AbiState).

(** ** The exports that open and close *)

(** A state with given links. *)
Lemma abi_ok_of k s : links_of s = k -> link_ok k -> abi_ok s.
Proof. by intros <-. Qed.

Lemma counts_alter (n : Z) id (heap : gmap nat LayerMountHolder) :
  liveChildren <$> alter (with_children n) id heap =
  match heap !! id with Some _ => <[id := n]> (liveChildren <$> heap) | None => liveChildren <$> heap end.
Proof.
  apply map_eq. intros i. rewrite lookup_fmap, lookup_alter. case_decide as Hi; subst.
  - destruct (heap !! i) as [h|] eqn:Em; cbn; [by rewrite lookup_insert_eq|by rewrite lookup_fmap, Em].
  - destruct (heap !! id); [by rewrite lookup_insert_ne, lookup_fmap by done|by rewrite lookup_fmap].
Qed.

Lemma resolve_mount_Some handle s id holder :
  resolve_mount handle s = Some (id, holder) ->
  Resolve kMagicLayerMount handle (mountTable s) = Some id /\ mountHeap s !! id = Some holder.
Proof. unfold resolve_mount. by intros (id' & Hid & (h & Hh & [= -> ->])%bind_Some)%bind_Some. Qed.

(** The engine call of an open adds at most the file that it gives. *)
Lemma open_engine_call_links id holder m s i :
  let '((s', i'), r) := open_engine_call id holder m (s, i) in
  (same_links s s' /\ forall status ctx, NT_SUCCESS status = true -> r <> EngineReturns status (Some ctx)) \/
  exists status file ctx s1, r = EngineReturns status (Some file) /\ NT_SUCCESS status = true /\ same_links s s1 /\
    fileHeap s1 !! file = None /\ is_Some i' /\ s' = update_file file {| parentOwner := id; fileContext := ctx |} s1.
Proof.
  unfold open_engine_call. pose proof (links_run_core id holder m s) as Hl.
  destruct (run_core id holder m s) as [s1 [status [[ctx info]|]]]; cbn [fst] in Hl; [|left; split; [done|]; by intros ??? [=]].
  destruct (NT_SUCCESS status) eqn:Hs; cbn [negb]; [|left; split; [done|]; by intros ??? [=]].
  right. exists status, (fresh (dom (fileHeap s1))), ctx, s1. split_and!; try done.
  apply not_elem_of_dom, is_fresh.
Qed.

Lemma links_children id s :
  same_links s (update_mount id (fun h => with_children (liveChildren h) h) s).
Proof. apply links_of_eq; [done..| |done]. by apply alter_children. Qed.

(** A table that holds what it held. *)
Lemma link_ok_same_tables k (tm tf : HandleTable nat) :
  (forall mounts, table_holds kMagicLayerMount (linkMounts k) mounts -> table_holds kMagicLayerMount tm mounts) ->
  (forall files, table_holds kMagicFile (linkFiles k) files -> table_holds kMagicFile tf files) -> link_ok k ->
  link_ok {| linkMounts := tm; linkFiles := tf; linkCounts := linkCounts k; linkParents := linkParents k |}.
Proof.
  intros Hm Hf (mounts & openFiles & H1 & H2 & H3 & H4 & H5 & H6). exists mounts, openFiles. cbn. split; [by apply Hm|].
  split; [done|]. split; [by apply Hf|]. done.
Qed.

(** What an open leaves: one more file behind a new handle, or the same
    objects behind the same handles. *)
Definition opened_links k (id fid : nat) (n v : Z) k' : Prop :=
  linkMounts k' = linkMounts k /\ linkCounts k' = <[id := n + 1]> (linkCounts k) /\
  linkParents k !! fid = None /\ linkParents k' = <[fid := id]> (linkParents k) /\
  forall fs, table_holds kMagicFile (linkFiles k) fs ->
    fs !! v = None /\ table_holds kMagicFile (linkFiles k') (<[v := fid]> fs).

Definition kept_links k k' : Prop :=
  linkMounts k' = linkMounts k /\ linkCounts k' = linkCounts k /\ linkParents k' = linkParents k /\
  forall fs, table_holds kMagicFile (linkFiles k) fs -> table_holds kMagicFile (linkFiles k') fs.

Lemma opened_links_ok k id fid n v k' :
  opened_links k id fid n v k' -> linkCounts k !! id = Some n -> link_ok k -> link_ok k'.
Proof.
  intros (Hm & Hc & Hf & Hp & Ht) Hn Hok. destruct k' as [ms fs cs ps]. cbn in *. subst.
  by apply (link_ok_insert_file k fid id n v fs).
Qed.

Lemma kept_links_ok k k' : kept_links k k' -> link_ok k -> link_ok k'.
Proof.
  intros (Hm & Hc & Hp & Ht) Hok. destruct k' as [ms fs cs ps]. cbn in *. subst.
  by apply (link_ok_same_tables k (linkMounts k) fs).
Qed.

(** The state that an open gives back. *)
Definition after_open id (o : open_state nat (AbiState * option InternalFileInfo)) : AbiState :=
  let ran := fst (HandleTable.engine o) in
  update_mount id (with_children (childCount o)) (with_files (files o) (fileHeap ran) ran).

Lemma after_open_links id o ran info n :
  HandleTable.engine o = (ran, info) -> (liveChildren <$> mountHeap ran) !! id = Some n ->
  links_of (after_open id o) =
    {| linkMounts := mountTable ran; linkFiles := files o;
       linkCounts := <[id := childCount o]> (liveChildren <$> mountHeap ran);
       linkParents := parentOwner <$> fileHeap ran |}.
Proof.
  intros Eo Hc. unfold links_of, after_open. rewrite Eo. cbn -[alter]. f_equal.
  rewrite counts_alter. rewrite lookup_fmap in Hc. by destruct (mountHeap ran !! id).
Qed.

Lemma after_open_cases id holder m s :
  mountHeap s !! id = Some holder -> abi_ok s ->
  let start := {| files := fileTable s; childCount := liveChildren holder; HandleTable.engine := (s, None) |} in
  let (o, r) := ReserveThenRun (open_engine_call id holder m) pushFails (fun t => t) start in
  match r with
  | AbiHandle v => v <> 0 /\ is_Some (snd (HandleTable.engine o)) /\
      exists fid, opened_links (links_of s) id fid (liveChildren holder) v (links_of (after_open id o))
  | _ => kept_links (links_of s) (links_of (after_open id o))
  end.
Proof.
  intros Hid (mounts & openFiles & Hok) start.
  pose proof (fun files => holds_ReserveThenRun (open_engine_call id holder m) pushFails start files) as Hrun.
  destruct (ReserveThenRun _ _ _ start) as [o r]. cbn [fst start files childCount HandleTable.engine] in *.
  pose proof (open_engine_call_links id holder m s None) as He.
  destruct (open_engine_call id holder m (s, None)) as [[s' i'] er] eqn:Ee.
  destruct (HandleTable.engine o) as [ran info] eqn:Eo.
  assert (Hc : (liveChildren <$> mountHeap s) !! id = Some (liveChildren holder)) by (by rewrite lookup_fmap, Hid).
  pose proof (Hrun _ (proj1 (proj2 (proj2 Hok)))) as Hone.
  (* Where no file is opened, only the table can differ, and it holds the same. *)
  assert (Hsame : same_links s ran -> childCount o = liveChildren holder ->
            (forall fs, table_holds kMagicFile (fileTable s) fs -> table_holds kMagicFile (files o) fs) ->
            kept_links (links_of s) (links_of (after_open id o))).
  { unfold same_links. intros [= L1 L2 L3 L4] Hn Hf. rewrite <- L3 in Hc. rewrite (after_open_links id o ran info _ Eo Hc).
    unfold kept_links. cbn. rewrite L1, L3, L4, Hn, insert_id by (by rewrite <- L3). done. }
  destruct r.
  all: try (destruct Hone as (Hn & _ & er' & [= -> -> <-] & Hno); apply Hsame; [|done|intros fs Hfs; apply (Hrun fs Hfs)];
    by destruct He as [[Hl _]|(? & ? & ? & ? & -> & Hst & _)]; [|destruct (Hno _ _ Hst eq_refl)]).
  - destruct Hone as ([= -> ->] & Hn & _). apply Hsame; [done|done|]. intros fs Hfs. apply (Hrun fs Hfs).
  - destruct Hone as (Hv & Hnew & status & file & [= -> -> ->] & Hst & Hn & Hf). split; [done|].
    destruct He as [[_ He]|(? & ? & ctx & s1 & [= <- <-] & _ & Hl & Hfresh & Hi & ->)]; [by destruct (He _ _ Hst eq_refl)|].
    split; [exact Hi|]. exists file. unfold same_links in Hl. injection Hl as L1 L2 L3 L4. rewrite <- L3 in Hc.
    rewrite (after_open_links id o _ _ _ Eo Hc). unfold opened_links. cbn. rewrite <- L1, <- L3, <- L4, Hn.
    split; [done|]. split; [done|]. split; [by rewrite lookup_fmap, Hfresh|]. split; [by rewrite fmap_insert|].
    intros fs Hfs. destruct (Hrun _ Hfs) as (_ & ? & ? & ? & [= <- <-] & _ & _ & ?). done.
Qed.

Lemma ReserveThenRun_failed {Ctx Eng} (call : eff Eng (engine_result Ctx)) others (s : open_state Ctx Eng) status :
  snd (ReserveThenRun call pushFails others s) = AbiFailed status -> NT_SUCCESS status = false.
Proof.
  unfold ReserveThenRun. destruct (Reserve _ _) as [t v]. destruct (v =? 0); [done|].
  destruct (call _) as [e [|status' ctx]]; [done|]. destruct (NT_SUCCESS status') eqn:Hs; cbn [negb].
  - by destruct ctx.
  - cbn [snd]. by intros [= <-].
Qed.

Lemma HresultFromNtStatus_failed status : NT_SUCCESS status = false -> HresultFromNtStatus status <> S_OK.
Proof.
  intros Hs Hh. assert (status <> STATUS_SUCCESS) as Hne by (by intros ->).
  pose proof (nt_bit_of_hresult status Hne) as Hb. by rewrite Hh in Hb.
Qed.

(** An open gives a handle exactly with [S_OK]. *)
Lemma open_file_handle_cases id holder message m s :
  mountHeap s !! id = Some holder -> abi_ok s ->
  let '(s', (hr, out)) := open_file_handle pushFails id holder message m s in
  match out with
  | Some (v, _) => hr = S_OK /\ v <> 0 /\
      exists fid, opened_links (links_of s) id fid (liveChildren holder) v (links_of s')
  | None => hr <> S_OK /\ kept_links (links_of s) (links_of s')
  end.
Proof.
  intros Hid Hok. pose proof (after_open_cases id holder m s Hid Hok) as Hcases. unfold open_file_handle. cbn zeta in *.
  set (start := {| files := fileTable s; childCount := liveChildren holder; HandleTable.engine := (s, None) |}) in *.
  pose proof (ReserveThenRun_failed (open_engine_call id holder m) (fun t => t) start) as Hfail.
  destruct (ReserveThenRun _ _ _ start) as [o r]. cbn [snd] in Hfail.
  unfold after_open in Hcases. destruct (HandleTable.engine o) as [ran info]. cbn [fst snd] in Hcases.
  destruct r as [|status| | |v].
  - split; [done|exact Hcases].
  - split; [by apply HresultFromNtStatus_failed, Hfail|exact Hcases].
  - split; [done|exact Hcases].
  - split; [done|exact Hcases].
  - destruct Hcases as (Hv & [i ->] & Hc). by split.
Qed.

Lemma open_file_handle_ok id holder message m s :
  mountHeap s !! id = Some holder -> abi_ok s -> abi_ok (fst (open_file_handle pushFails id holder message m s)).
Proof.
  intros Hid Hok. pose proof (open_file_handle_cases id holder message m s Hid Hok) as Hc.
  destruct (open_file_handle _ _ _ _ _ s) as [s' [hr [[v info]|]]]; cbn [fst].
  - destruct Hc as (_ & _ & fid & Hc). eapply opened_links_ok; [exact Hc| |exact Hok]. cbn. by rewrite lookup_fmap, Hid.
  - destruct Hc as [_ Hc]. by apply (kept_links_ok (links_of s)).
Qed.

(** A mount that a handle names is not freed. *)
Lemma release_mount_named s id handle :
  abi_ok s -> is_uint64 handle -> Resolve kMagicLayerMount handle (mountTable s) = Some id ->
  release_mount id s = (s, tt).
Proof.
  intros (mounts & openFiles & Hm & _) Hh Hr. cbn [links_of linkMounts] in Hm.
  rewrite (holds_Resolve _ _ _ _ Hm Hh) in Hr. unfold release_mount, mount_referenced.
  by rewrite (proj2 (holds_payload _ magic_mount_ok _ _ id Hm)) by (by exists handle).
Qed.

Lemma links_release s id : abi_ok s -> is_Some (mountHeap s !! id) -> release_mount id s = (s, tt).
Proof.
  intros Hok Hid. pose proof Hok as (mounts & openFiles & Hm & He & _).
  destruct (proj1 (proj1 He id)) as [v Hv]; [cbn; by rewrite lookup_fmap, fmap_is_Some|].
  cbn [links_of linkMounts] in Hm. assert (is_uint64 v) as Hu by (by eapply (holds_uint64 _ magic_mount_ok); [|by exists id]).
  apply (release_mount_named s id v); [done|done|]. by rewrite (holds_Resolve _ _ _ _ Hm Hu).
Qed.

Lemma exactly_size {V} m (heap : gmap nat V) : exactly m heap -> (size heap <= size m)%nat.
Proof.
  intros [He _]. rewrite <- size_dom, <- (length_map_to_list m), <- (length_fmap snd).
  apply submseteq_length, NoDup_submseteq; [apply NoDup_elements|]. intros id Hid%elem_of_elements%elem_of_dom.
  apply He in Hid as [v Hv]. apply list_elem_of_fmap. exists (v, id). split; [done|by apply elem_of_map_to_list].
Qed.

(** The open files that a mount counts fit the counter. *)
Lemma children_range k fid id n :
  link_ok k -> linkParents k !! fid = Some id -> linkCounts k !! id = Some n -> 0 <= n - 1 < 2 ^ 24.
Proof.
  intros (mounts & openFiles & _ & _ & Hf & He & _ & Hn) Hp Hc. rewrite (Hn _ _ Hc).
  pose proof (holds_size _ magic_file_ok _ _ Hf). pose proof (exactly_size _ _ He). unfold children.
  assert (filter (fun kv => snd kv = id) (linkParents k) !! fid = Some id) as Hl by (by apply map_lookup_filter_Some).
  assert (size (filter (fun kv => snd kv = id) (linkParents k)) <> 0%nat) by (intros Hz; apply map_size_empty_inv in Hz; by rewrite Hz in Hl).
  assert (size (filter (fun kv => snd kv = id) (linkParents k)) <= size (linkParents k))%nat
    by (apply map_subseteq_size, map_filter_subseteq). lia.
Qed.

(** The mount of an open file. *)
Lemma link_ok_parent k fid id :
  link_ok k -> linkParents k !! fid = Some id -> exists n, linkCounts k !! id = Some n.
Proof. intros (mounts & openFiles & _ & _ & _ & _ & Hp & _) Hf. by destruct (Hp _ _ Hf) as [n Hn]; exists n. Qed.

(** The table of files names the open files. *)
Lemma link_ok_file k v :
  link_ok k -> is_uint64 v ->
  exists openFiles, table_holds kMagicFile (linkFiles k) openFiles /\ Resolve kMagicFile v (linkFiles k) = openFiles !! v /\
    forall fid, openFiles !! v = Some fid -> is_Some (linkParents k !! fid).
Proof.
  intros (mounts & openFiles & _ & _ & Hf & He & _) Hv. exists openFiles. split; [done|].
  split; [by apply holds_Resolve|]. intros fid Hfid. apply He. by exists v.
Qed.

(** *** Handles of states with the invariant *)

Lemma abi_tables s :
  abi_ok s -> exists mounts files, table_holds kMagicLayerMount (mountTable s) mounts /\
    table_holds kMagicFile (fileTable s) files /\
    (forall v fid, files !! v = Some fid -> is_Some (fileHeap s !! fid)) /\
    (forall v id, mounts !! v = Some id -> is_Some (mountHeap s !! id)).
Proof.
  intros (mounts & openFiles & Hm & He & Hf & He' & _). exists mounts, openFiles. split; [done|]. split; [done|]. split.
  - intros v fid Hv. rewrite <- (fmap_is_Some parentOwner), <- lookup_fmap. apply He'. by exists v.
  - intros v id Hv. rewrite <- (fmap_is_Some liveChildren), <- lookup_fmap. apply He. by exists v.
Qed.

(** A handle of a file resolves to the file and the mount of the file. *)
Lemma abi_file_resolves s v fid :
  abi_ok s -> is_uint64 v -> Resolve kMagicFile v (fileTable s) = Some fid ->
  exists f holder, ResolveFileHolder v s = Some (fid, f, holder) /\ fileHeap s !! fid = Some f /\
    mountHeap s !! parentOwner f = Some holder.
Proof.
  intros Hok Hv Hr. destruct (link_ok_file _ _ Hok Hv) as (fs & _ & Hfs & Hheap). cbn [links_of linkFiles linkParents] in *.
  rewrite Hfs in Hr. destruct (Hheap _ Hr) as [id Hp]. rewrite lookup_fmap in Hp.
  destruct (fileHeap s !! fid) as [f|] eqn:Ef; [|done]. injection Hp as <-.
  destruct (link_ok_parent (links_of s) fid (parentOwner f) Hok) as [n Hn]; [cbn; by rewrite lookup_fmap, Ef|].
  cbn in Hn. rewrite lookup_fmap in Hn. destruct (mountHeap s !! parentOwner f) as [holder|] eqn:Em; [|done].
  exists f, holder. unfold ResolveFileHolder. rewrite Hfs, Hr. cbn. rewrite Ef. cbn. by rewrite Em.
Qed.

Lemma abi_mount_resolves s v id :
  abi_ok s -> is_uint64 v -> Resolve kMagicLayerMount v (mountTable s) = Some id ->
  exists holder, resolve_mount v s = Some (id, holder).
Proof.
  intros Hok Hv Hr. destruct (abi_tables _ Hok) as (ms & fs & Hm & _ & _ & Hms).
  pose proof Hr as Hr'. rewrite (holds_Resolve _ _ _ _ Hm Hv) in Hr. destruct (Hms _ _ Hr) as [holder Hh].
  exists holder. unfold resolve_mount. rewrite Hr'. cbn. by rewrite Hh.
Qed.

(** *** The end of a file *)

(** A file that leaves the heap, and the count of its mount. *)
Definition forget_file (fid : nat) (parent : nat) s : AbiState :=
  let s := update_mount parent (fun h => with_children ((liveChildren h - 1) mod 2 ^ 32) h) s in
  with_files (fileTable s) (delete fid (fileHeap s)) s.

(** The links of a state with another table of files. *)
Definition links_with_table s (t : HandleTable nat) : link_state := {|
  linkMounts := mountTable s; linkFiles := t;
  linkCounts := liveChildren <$> mountHeap s; linkParents := parentOwner <$> fileHeap s |}.

Lemma forget_file_ok told v fid parent s :
  (forall fs, table_holds kMagicFile told fs -> fs !! v = Some fid /\ table_holds kMagicFile (fileTable s) (delete v fs)) ->
  (parentOwner <$> fileHeap s) !! fid = Some parent -> link_ok (links_with_table s told) ->
  abi_ok (forget_file fid parent s).
Proof.
  intros Ht Hp Hok. destruct (link_ok_parent _ _ _ Hok Hp) as [n Hn]. cbn [links_with_table linkCounts] in Hn.
  pose proof (children_range _ _ _ _ Hok Hp Hn) as Hrange.
  eapply abi_ok_of; [|exact (link_ok_delete_file (links_with_table s told) fid parent n v (fileTable s) Ht Hp Hn Hok)].
  unfold links_of, forget_file. cbn -[alter Z.pow]. f_equal; [|by rewrite fmap_delete].
  rewrite lookup_fmap in Hn. destruct (mountHeap s !! parent) as [h|] eqn:Eh; [|done]. injection Hn as Hn.
  apply map_eq. intros i. rewrite lookup_fmap, lookup_alter. case_decide as Hi; subst.
  - rewrite lookup_insert_eq, Eh. cbn -[Z.pow]. by rewrite Z.mod_small by lia.
  - by rewrite lookup_insert_ne, lookup_fmap by done.
Qed.

(** The state of a close, from the table without the handle. *)
Definition closed_file (t : HandleTable nat) (fid : nat) (f : FileHolder) (holder : LayerMountHolder) s : AbiState :=
  forget_file fid (parentOwner f)
    (fst (run_context fid f holder MountFiles.Close (with_files t (fileHeap s) (with_tls ClearFillFailure s)))).

Lemma ran_links {B} t fid f holder (m : ctx_eff B) s :
  fileHeap s !! fid = Some f ->
  let s2 := fst (run_context fid f holder m (with_files t (fileHeap s) (with_tls ClearFillFailure s))) in
  fileTable s2 = t /\ links_with_table s2 (fileTable s) = links_of s.
Proof.
  intros Hf s2. assert (same_links (with_files t (fileHeap s) (with_tls ClearFillFailure s)) s2) as Hl by (by apply run_context_links).
  clearbody s2. unfold same_links, links_of, links_with_table in *. by injection Hl as -> -> -> ->.
Qed.

Lemma ResolveFileHolder_None s file :
  abi_ok s -> is_uint64 file -> ResolveFileHolder file s = None -> Resolve kMagicFile file (fileTable s) = None.
Proof.
  intros Hok Hf Hn. apply eq_None_not_Some. intros [fid Hr].
  destruct (abi_file_resolves _ _ _ Hok Hf Hr) as (f & holder & Hs & _). congruence.
Qed.

Lemma LayerMountCloseFile_runs file s :
  is_uint64 file -> abi_ok s ->
  match ResolveFileHolder file s with
  | Some (fid, f, holder) => exists t,
      LayerMountCloseFile pushFails file s = (closed_file t fid f holder s, (S_OK, None)) /\
      (forall fs, table_holds kMagicFile (fileTable s) fs -> fs !! file = Some fid /\ table_holds kMagicFile t (delete file fs)) /\
      abi_ok (closed_file t fid f holder s)
  | None => exists t,
      LayerMountCloseFile pushFails file s = (with_files t (fileHeap s) (with_tls ClearFillFailure s), (E_HANDLE, None)) /\
      (forall fs, table_holds kMagicFile (fileTable s) fs -> table_holds kMagicFile t fs)
  end.
Proof.
  intros Hfile Hok. unfold LayerMountCloseFile, export. cbn [first_refusal].
  destruct (Z.eqb_spec file 0) as [->|H0]; [exists (fileTable s); by destruct s|].
  assert (Hfree := fun fs Hfs => holds_Free _ magic_file_ok (fileTable s) fs pushFails file Hfs Hfile).
  destruct (abi_tables _ Hok) as (_ & fs & _ & Hfs & _). pose proof (Hfree _ Hfs) as Hone.
  change (fileTable (with_tls ClearFillFailure s)) with (fileTable s).
  change (fileHeap (with_tls ClearFillFailure s)) with (fileHeap s).
  destruct (Free kMagicFile pushFails file (fileTable s)) as [t freed]. destruct Hone as [-> Ht].
  rewrite <- (holds_Resolve _ _ _ _ Hfs Hfile). destruct (ResolveFileHolder file s) as [[[fid f] holder]|] eqn:Hr.
  2:{ exists t. pose proof (ResolveFileHolder_None _ _ Hok Hfile Hr) as Hn. split; [by rewrite Hn|]. intros fs' Hfs'.
      destruct (Hfree _ Hfs') as [_ Ht']. rewrite delete_id in Ht'; [done|]. by rewrite <- (holds_Resolve _ _ _ _ Hfs' Hfile). }
  exists t. apply ResolveFileHolder_Some in Hr as (Hr & Hf & Hm). rewrite Hr. cbn [fileHeap with_files mountHeap with_tls].
  rewrite Hf, Hm. fold (closed_file t fid f holder s).
  destruct (ran_links t fid f holder MountFiles.Close s Hf) as [Et Hold]. cbn zeta in Et, Hold.
  assert (forall fs, table_holds kMagicFile (fileTable s) fs -> fs !! file = Some fid /\ table_holds kMagicFile t (delete file fs)) as Hd.
  { intros fs' Hfs'. destruct (Hfree _ Hfs') as [_ Ht']. split; [|done]. by rewrite <- (holds_Resolve _ _ _ _ Hfs' Hfile). }
  assert (abi_ok (closed_file t fid f holder s)) as Hok3.
  { unfold closed_file. apply (forget_file_ok (fileTable s) file); rewrite ?Et, ?Hold; [done| |done].
    assert (linkParents (links_of s) !! fid = Some (parentOwner f)) as Hp by (cbn; by rewrite lookup_fmap, Hf). by rewrite <- Hold in Hp. }
  split; [|by split]. fold (forget_file fid (parentOwner f)
    (fst (run_context fid f holder MountFiles.Close (with_files t (fileHeap s) (with_tls ClearFillFailure s))))).
  fold (closed_file t fid f holder s). rewrite links_release; [done|exact Hok3|].
  assert (linkCounts (links_of s) !! parentOwner f = Some (liveChildren holder)) as Hn by (cbn; by rewrite lookup_fmap, Hm).
  rewrite <- Hold in Hn. cbn [links_with_table linkCounts] in Hn. rewrite lookup_fmap in Hn. unfold closed_file.
  destruct (run_context fid f holder MountFiles.Close _) as [s2 u]. cbn [fst] in *.
  cbn [forget_file update_mount with_mounts with_files mountHeap]. rewrite lookup_alter_eq.
  by destruct (mountHeap s2 !! parentOwner f).
Qed.

Lemma LayerMountCloseFile_ok file s :
  is_uint64 file -> abi_ok s -> abi_ok (fst (LayerMountCloseFile pushFails file s)).
Proof.
  intros Hfile Hok. pose proof (LayerMountCloseFile_runs file s Hfile Hok) as Hr.
  destruct (ResolveFileHolder file s) as [[[fid f] holder]|]; destruct Hr as (t & -> & Ht); [apply Ht|].
  apply (kept_links_ok (links_of s)); [|exact Hok]. unfold kept_links. by split_and!.
Qed.

(** *** The end of a mount *)

(** All but the error state of the thread. *)
Definition only_errors s s' : Prop :=
  abiDisk s' = abiDisk s /\ mountTable s' = mountTable s /\ fileTable s' = fileTable s /\
  imageTable s' = imageTable s /\ mountHeap s' = mountHeap s /\ fileHeap s' = fileHeap s /\ delivered s' = delivered s.

Lemma only_errors_ok s s' : only_errors s s' -> abi_ok s -> abi_ok s'.
Proof. intros (_ & Hm & Hf & _ & Hmh & Hfh & _). apply abi_ok_links, links_of_eq; congruence. Qed.

(** A mount that no handle names, and that has no open file, goes: its holder
    is deleted and its locks are closed. *)
Lemma release_mount_last s id holder :
  (forall slot, slot ∈ slots (mountTable s) -> payload slot <> Some id) ->
  (forall fid, (parentOwner <$> fileHeap s) !! fid <> Some id) ->
  mountHeap s !! id = Some holder ->
  release_mount id s =
    close_work_directory (workDirectory holder) (with_mounts (mountTable s) (delete id (mountHeap s)) s).
Proof.
  intros Ht Hf Hid. unfold release_mount. replace (mount_referenced id s) with false; [by rewrite Hid|].
  symmetry. apply orb_false_iff. split; apply not_true_iff_false; rewrite existsb_exists.
  - intros (slot & Hin%list_elem_of_In & Hp%bool_decide_eq_true). by apply (Ht slot).
  - intros ([fid file] & Hin%list_elem_of_In%elem_of_map_to_list & Hp%bool_decide_eq_true). apply (Hf fid).
    rewrite lookup_fmap, Hin. by cbn in *; rewrite Hp.
Qed.

(** The table of mounts without a handle does not name its mount. *)
Lemma freed_mount k (t : HandleTable nat) v id :
  link_ok k -> is_uint64 v ->
  (forall mounts, table_holds kMagicLayerMount (linkMounts k) mounts ->
     mounts !! v = Some id /\ table_holds kMagicLayerMount t (delete v mounts)) ->
  linkCounts k !! id = Some 0 ->
  (forall slot, slot ∈ slots t -> payload slot <> Some id) /\ (forall fid, linkParents k !! fid <> Some id).
Proof.
  intros (mounts & openFiles & Hm & He & _ & _ & _ & Hn) Hv Ht Hc. destruct (Ht _ Hm) as [Hid Hd]. split.
  - intros slot Hin Hp. assert (existsb (fun slot => bool_decide (payload slot = Some id)) (slots t) = true) as Hx.
    { apply existsb_exists. exists slot. by rewrite <- list_elem_of_In, bool_decide_eq_true. }
    apply (proj1 (holds_payload _ magic_mount_ok _ _ id Hd)) in Hx as [v' [Hne Hv']%lookup_delete_Some].
    apply Hne. by apply (proj2 He v v' id).
  - apply children_none. symmetry. by apply Hn.
Qed.

(** What [LayerMountDestroy] does with a mount that nothing holds. *)
Definition destroyed (t : HandleTable nat) id (holder : LayerMountHolder) s : AbiState :=
  fst (close_work_directory (workDirectory holder) (with_mounts t (delete id (mountHeap s)) s)).

Lemma LayerMountDestroy_runs handle s id holder :
  is_uint64 handle -> handle <> 0 -> abi_ok s -> resolve_mount handle s = Some (id, holder) ->
  hostAttached holder = false -> liveChildren holder = 0 ->
  let s0 := with_tls ClearFillFailure s in
  let t := fst (Free kMagicLayerMount pushFails handle (mountTable s)) in
  LayerMountDestroy pushFails handle s = (destroyed t id holder s0, (S_OK, None)) /\
  (forall mounts, table_holds kMagicLayerMount (mountTable s) mounts ->
     mounts !! handle = Some id /\ table_holds kMagicLayerMount t (delete handle mounts)).
Proof.
  intros Hh H0 Hok Hr Ha Hc s0 t. pose proof (resolve_mount_Some _ _ _ _ Hr) as [Hres Hid].
  assert (Hfree : forall mounts, table_holds kMagicLayerMount (mountTable s) mounts ->
            snd (Free kMagicLayerMount pushFails handle (mountTable s)) = mounts !! handle /\
            mounts !! handle = Some id /\ table_holds kMagicLayerMount t (delete handle mounts)).
  { intros mounts Hm. pose proof (holds_Free _ magic_mount_ok _ _ pushFails handle Hm Hh) as Hf. unfold t.
    destruct (Free _ _ _ _) as [t' freed]. cbn [fst snd]. rewrite (holds_Resolve _ _ _ _ Hm Hh) in Hres. by destruct Hf. }
  split; [|intros; by apply Hfree]. unfold LayerMountDestroy, export. cbn [first_refusal].
  rewrite (proj2 (Z.eqb_neq _ _) H0). fold s0. unfold with_mount. change (resolve_mount handle s0) with (resolve_mount handle s).
  rewrite Hr, Ha, Hc. cbn [negb Z.eqb]. change (mountTable s0) with (mountTable s).
  destruct (Hok) as (mounts & _ & Hm & _). destruct (Hfree _ Hm) as (Hs & Hv & _).
  pose proof (freed_mount (links_of s) t handle id Hok Hh (fun ms Hms => proj2 (Hfree ms Hms))) as [Hn1 Hn2].
  { cbn. by rewrite lookup_fmap, Hid, <- Hc. }
  unfold t in *. destruct (Free kMagicLayerMount pushFails handle (mountTable s)) as [t' freed]. cbn [fst snd] in *.
  rewrite Hs, Hv. rewrite (release_mount_last _ id holder) by done. unfold destroyed.
  by destruct (close_work_directory _ _).
Qed.

Lemma LayerMountDestroy_refuses handle s :
  match resolve_mount handle s with
  | None => exists s', LayerMountDestroy pushFails handle s = (s', (E_HANDLE, None)) /\ only_errors s s'
  | Some (id, holder) =>
      handle <> 0 -> hostAttached holder || negb (liveChildren holder =? 0) = true ->
      exists s', LayerMountDestroy pushFails handle s = (s', (E_ILLEGAL_METHOD_CALL, None)) /\ only_errors s s'
  end.
Proof.
  unfold LayerMountDestroy, export. cbn [first_refusal]. unfold with_mount.
  change (resolve_mount handle (with_tls ClearFillFailure s)) with (resolve_mount handle s).
  destruct (resolve_mount handle s) as [[id holder]|]; [|by destruct (handle =? 0); eexists].
  intros H0 Hheld. rewrite (proj2 (Z.eqb_neq _ _) H0).
  destruct (hostAttached holder); [by eexists|]. cbn [orb] in Hheld. rewrite Hheld. by eexists.
Qed.

Lemma LayerMountDestroy_ok handle s :
  is_uint64 handle -> abi_ok s -> abi_ok (fst (LayerMountDestroy pushFails handle s)).
Proof.
  intros Hh Hok. pose proof (LayerMountDestroy_refuses handle s) as Href.
  destruct (resolve_mount handle s) as [[id holder]|] eqn:Hr.
  2:{ destruct Href as (s' & -> & Hs). by apply (only_errors_ok s). }
  destruct (Z.eq_dec handle 0) as [->|H0]; [exact Hok|].
  destruct (hostAttached holder || negb (liveChildren holder =? 0)) eqn:Hheld.
  { destruct (Href H0 eq_refl) as (s' & -> & Hs). by apply (only_errors_ok s). }
  apply orb_false_iff in Hheld as [Ha Hc%negb_false_iff%Z.eqb_eq].
  destruct (LayerMountDestroy_runs handle s id holder Hh H0 Hok Hr Ha Hc) as [-> Ht]. cbn [fst].
  apply resolve_mount_Some in Hr as [_ Hid].
  eapply abi_ok_of; [|exact (link_ok_delete_mount (links_of s) id handle _ Ht ltac:(cbn; by rewrite lookup_fmap, Hid, <- Hc) Hok)].
  unfold destroyed. pose proof (links_close_work (workDirectory holder)
    (with_mounts (fst (Free kMagicLayerMount pushFails handle (mountTable s))) (delete id (mountHeap (with_tls ClearFillFailure s)))
       (with_tls ClearFillFailure s))) as Hl.
  unfold same_links in Hl. rewrite Hl. unfold links_of. cbn. by rewrite fmap_delete.
Qed.

(** *** New mounts *)

Definition keeps_abi {B} (m : eff AbiState B) : Prop := forall s, abi_ok s -> abi_ok (fst (m s)).

Lemma keeps_abi_links {B} (m : eff AbiState B) : links m -> keeps_abi m.
Proof. intros Hm s. by apply links_ok. Qed.

Lemma keeps_abi_bind {B C} (m : eff AbiState B) (k : B -> eff AbiState C) :
  keeps_abi m -> (forall b, keeps_abi (k b)) -> keeps_abi (ebind m k).
Proof. intros Hm Hk s Hs. unfold ebind. specialize (Hm s Hs). destruct (m s) as [s1 b]. by apply Hk. Qed.

Lemma keeps_abi_export {B} checks (body : abi_call B) : keeps_abi body -> keeps_abi (export checks body).
Proof. intros Hb s Hs. unfold export. destruct (first_refusal checks); [exact Hs|by apply Hb]. Qed.

Lemma keeps_abi_with_mount {B} handle (body : nat -> LayerMountHolder -> abi_call B) :
  (forall id holder s, mountHeap s !! id = Some holder -> abi_ok s -> abi_ok (fst (body id holder s))) ->
  keeps_abi (with_mount handle body).
Proof.
  intros Hb s Hs. unfold with_mount. destruct (resolve_mount handle s) as [[id holder]|] eqn:Hr; [|exact Hs].
  apply resolve_mount_Some in Hr as [_ Hid]. by apply Hb.
Qed.

Lemma allocate_mount_ok work config c : keeps_abi (allocate_mount work config c).
Proof.
  intros s Hok. unfold allocate_mount. set (id := fresh (dom (mountHeap s))).
  assert (Hal := fun mounts Hm => holds_Allocate _ magic_mount_ok (mountTable s) mounts id Hm).
  destruct (Allocate kMagicLayerMount (Some id) (mountTable s)) as [t v].
  destruct (Z.eqb_spec v 0) as [->|Hv].
  - eapply abi_ok_links; [|eapply abi_ok_of; [|eapply (link_ok_same_tables (links_of s) t (fileTable s)); [|done|exact Hok]]].
    + exact (links_bind (close_work_directory work) _ (links_close_work work) (fun _ => links_bind _ _ (links_error _ _) (fun _ => links_ret _))
               (with_mounts t (mountHeap s) s)).
    + done.
    + intros ms Hms. destruct (Hal ms Hms) as [[_ ?]|[? _]]; done.
  - cbn [fst]. eapply abi_ok_of; [|apply (link_ok_insert_mount (links_of s) id v t); [| |exact Hok]].
    + unfold links_of. cbn. f_equal. by rewrite fmap_insert.
    + intros ms Hms. destruct (Hal ms Hms) as [[? _]|(_ & ? & ?)]; done.
    + cbn. rewrite lookup_fmap. replace (mountHeap s !! id) with (@None LayerMountHolder); [done|].
      symmetry. apply not_elem_of_dom, is_fresh.
Qed.

Lemma create_mount_ok src : keeps_abi (create_mount src).
Proof.
  unfold create_mount. apply keeps_abi_bind; [apply keeps_abi_links, links_io|]. intros [[err|] debug]; [apply keeps_abi_links, links_throw|].
  apply keeps_abi_bind; [apply keeps_abi_links, links_io|]. intros [prepared err]. destruct (FAILED prepared); [apply keeps_abi_links, links_throw|].
  apply keeps_abi_bind; [apply keeps_abi_links, links_io|]. intros [[opened work] err']. destruct (FAILED opened); [apply keeps_abi_links, links_throw|].
  apply keeps_abi_bind; [apply keeps_abi_links, links_read|]. intros []; [apply allocate_mount_ok|apply keeps_abi_links; links_tac..].
Qed.

Lemma LayerMountCreate_ok config outHandle : keeps_abi (LayerMountCreate config outHandle).
Proof.
  apply keeps_abi_export. destruct config as [src|]; [|apply keeps_abi_links; links_tac].
  case_match; [apply keeps_abi_links, links_ret|]. case_match; [apply keeps_abi_links; links_tac|].
  case_match; [apply keeps_abi_links, links_ret|]. apply create_mount_ok.
Qed.

(** ** Any sequence of exports *)

(** A handle is a 64-bit word. *)
Definition abi_op_ok (op : abi_op) : Prop :=
  match op with OpCloseFile file => is_uint64 file | OpMountDestroy handle => is_uint64 handle | _ => True end.

Lemma run_abi_op_ok op : abi_op_ok op -> keeps_abi (run_abi_op pushFails op).
Proof.
  intros Hop. destruct (lifecycle op) eqn:Hl; [|by apply keeps_abi_links, links_run_abi_op].
  destruct op; try done; cbn [run_abi_op]; (apply keeps_abi_bind; [|intros [? ?]; apply keeps_abi_links, links_ret]).
  - apply keeps_abi_export, keeps_abi_with_mount. intros id holder s Hid Hs. by apply open_file_handle_ok.
  - apply keeps_abi_export, keeps_abi_with_mount. intros id holder s Hid Hs. by apply open_file_handle_ok.
  - intros s. by apply LayerMountCloseFile_ok.
  - apply LayerMountCreate_ok.
  - apply keeps_abi_export, keeps_abi_bind; [apply keeps_abi_links, links_io|]. intros _. apply LayerMountCreate_ok.
  - intros s. by apply LayerMountDestroy_ok.
Qed.

Definition run_abi (ops : list abi_op) (s : AbiState) : AbiState := foldl (fun s op => fst (run_abi_op pushFails op s)) s ops.

Lemma run_abi_ok ops s : Forall abi_op_ok ops -> abi_ok s -> abi_ok (run_abi ops s).
Proof. revert s. induction ops as [|op ops IH]; intros s Hops Hs; [done|]. inversion Hops; subst. cbn. apply IH; [done|]. by apply run_abi_op_ok. Qed.

(** [Handles]: the registry before the first call, with the error state of a
    new thread. *)
Definition Handles (d : disk) : AbiState := {|
  abiDisk := d; mountTable := new_table kMaxSlot; fileTable := new_table kMaxSlot;
  imageTable := new_table kMaxSlot; mountHeap := ∅; fileHeap := ∅;
  errorTls := no_error; delivered := [] |}.

Lemma exactly_empty {V} : exactly ∅ (∅ : gmap nat V).
Proof.
  split; [|by intros ??? ?%lookup_empty_Some]. intros id. rewrite lookup_empty. split; [by intros [? ?]|].
  intros [v Hv]. by rewrite lookup_empty in Hv.
Qed.

Lemma Handles_ok d : abi_ok (Handles d).
Proof.
  exists ∅, ∅. cbn. rewrite !fmap_empty. split; [by apply holds_new|]. split; [apply exactly_empty|].
  split; [by apply holds_new|]. split; [apply exactly_empty|].
  split; [by intros ?? ?%lookup_empty_Some|by intros ?? ?%lookup_empty_Some].
Qed.
End Lifetime.
