(* ===== verification/AbiContract.v ===== *)
(** * What the C interface promises of handles

    An open gives a handle of its own or changes no handle; a close ends one
    handle; a mount is destroyed only when it has no open file; and after any
    sequence of exports every open file has its mount.  First [AbiHost] and
    [RulesFiles] over [mem_win32], and the exports run on the overlay of
    [EngineFacts]. *)
From S2P Require Import ImageLaws.
From S2P Require Export MountFacts AbiLifetime.
Open Scope Z_scope.

(** ** The C interface on the concrete volume

    [AbiHost] and [RulesFiles] over [mem_win32], and the exports run on the
    overlay of [EngineFacts], from the creation of the mount on. *)

(** There is no rules file, and text is its code units. *)
#[export] Instance no_rules : RulesFiles (W := mem_win32) := {| rules_file := fun _ _ => None |}.

#[export] Instance mem_abi_host : AbiHost (W := mem_win32) (H := mem_entry_host) := {|
  descriptor_at := fun _ => tt;
  MultiByteToWideCharStrict := fun text => Ok text;
  system_error_what := fun code message => L message;
  json_error_what := L "json";
  LM_VER := (1, 2, 3);
  LM_ABI_VERSION := 4
|}.

#[export] Existing Instance ImageLaws.mem_image.
#[local] Existing Instance Fixture.no_json.

Module Called.
Definition start : AbiState (W := mem_win32) := Handles Engine.volume.

Definition config : LM_CONFIG := {|
  structSize := 64; abiVersion := 4; lmHostCapabilities := LM_CAP_ADS; lmAccessLogCapacity := 0;
  lmPathCacheCapacity := 0; lmEnableProcessTracking := false; lmLowerPathCount := 2;
  lmUpperPath := Some (L "C:\u"); lmWorkDirPath := Some (L "C:\w"); lmProcessRulesPath := None;
  lmLowerPaths := Some [Some (L "C:\a"); Some (L "C:\b")] |}.

(** The handles of the first mount and of the first file. *)
Definition mount1 : Z := Encode kMagicLayerMount 1 1.
Definition file1 : Z := Encode kMagicFile 1 1.

Definition create : abi_op := OpMountCreate (Some config) true.
Definition open : abi_op := OpOpenFile mount1 (Some (L "d\f.txt")) FILE_ALL_ACCESS 0 0 true true.

(** The HRESULT of each export of a sequence. *)
Fixpoint results (ops : list abi_op) (s : AbiState (W := mem_win32)) : list Z :=
  match ops with
  | [] => []
  | op :: rest => let (s, hr) := run_abi_op false op s in hr :: results rest s
  end.
End Called.
Import Called.

(** A mount is packed, the image validates, and its handle ends once. *)
Definition image1 : Z := Encode kMagicImage 1 1.
Definition now : ImageFormat.SYSTEMTIME := {|
  ImageFormat.wYear := 2024; ImageFormat.wMonth := 1; ImageFormat.wDay := 2;
  ImageFormat.wHour := 3; ImageFormat.wMinute := 4; ImageFormat.wSecond := 5 |}.
Definition pack : abi_op :=
  OpImagePack UnknownException None now mount1 (Some (L "C:\a")) (Some (L "C:\i.img")) 3 None true.

Example image_packed_and_closed :
  results [create; pack; OpImageClose image1; OpImageClose image1] start = [S_OK; S_OK; S_OK; E_HANDLE].
Proof. vm_compute. reflexivity. Qed.

(** A file is opened, written and closed through its handles; the mount goes
    after its file, once. *)
Example file_and_mount_end :
  results [create; open; OpMountDestroy mount1; OpWriteFile file1 (Some [5; 6]) [] 0 2 false false true true;
           OpCloseFile file1; OpCloseFile file1; OpMountDestroy mount1; OpMountDestroy mount1] start =
  [S_OK; S_OK; E_ILLEGAL_METHOD_CALL; S_OK; S_OK; E_HANDLE; S_OK; E_HANDLE].
Proof. vm_compute. reflexivity. Qed.

(** ** What the C interface promises of handles

    An open gives a handle of its own or changes no handle; a close ends one
    handle; a mount is destroyed only when it has no open file; and after any
    sequence of exports every open file has its mount. *)

Section Contract.
Context `{W : Win32} `{J : Json} `{E : CacheEnv} `{P : Processes} `{H : !EntryHost} `{M : !MountHost}.
Context `{T : !Threads} `{R : !RulesFiles} `{A : !AbiHost} `{D : DescriptorCalls} `{I : !ImageHost.ImageHost}.
Context (pushFails : bool).
Implicit Types (s : AbiState).

(** ** Handles of states with the invariant *)

(** The handle of each file resolves to what it did, but for that of [v]. *)
Definition other_files_kept (v : Z) s s' : Prop :=
  forall w, is_uint64 w -> w <> v -> Resolve kMagicFile w (fileTable s') = Resolve kMagicFile w (fileTable s).

Definition other_mounts_kept (v : Z) s s' : Prop :=
  forall w, is_uint64 w -> w <> v -> resolve_mount w s' = resolve_mount w s.

(** ** Opens *)

(** A new handle of the mount, or an error and the handles as they were. *)
Definition open_contract handle s (r : AbiState * (Z * option (Z * LM_FILE_INFO))) : Prop :=
  let '(s', (hr, out)) := r in
  match out with
  | Some (v, _) =>
      hr = S_OK /\ v <> 0 /\ is_uint64 v /\ Resolve kMagicFile v (fileTable s) = None /\ other_files_kept v s s' /\
      exists id holder fid f holder', resolve_mount handle s = Some (id, holder) /\
        ResolveFileHolder v s' = Some (fid, f, holder') /\ parentOwner f = id /\
        liveChildren holder' = liveChildren holder + 1
  | None =>
      hr <> S_OK /\ other_files_kept 0 s s' /\ liveChildren <$> mountHeap s' = liveChildren <$> mountHeap s
  end.

Lemma open_contract_met handle checks s (body : LayerMountHolder -> wstring) m :
  first_refusal checks <> Some S_OK -> abi_ok s ->
  open_contract handle s
    (export checks (with_mount handle (fun id holder => open_file_handle pushFails id holder (body holder) (m holder))) s).
Proof.
  intros Hchecks Hok. unfold export. destruct (first_refusal checks) as [hr|]; [by split; [congruence|]|].
  set (s0 := with_tls ClearFillFailure s). assert (abi_ok s0) as Hok0 by exact Hok.
  unfold with_mount. destruct (resolve_mount handle s0) as [[id holder]|] eqn:Hr; [|by split].
  pose proof (resolve_mount_Some _ _ _ _ Hr) as [_ Hid].
  pose proof (open_file_handle_cases pushFails id holder (body holder) (m holder) s0 Hid Hok0) as Hc.
  pose proof (open_file_handle_ok pushFails id holder (body holder) (m holder) s0 Hid Hok0) as Hok'.
  destruct (abi_tables _ Hok0) as (ms & fs & _ & Hfs & _).
  destruct (open_file_handle _ _ _ _ _ s0) as [s' [hr [[v info]|]]]; cbn [open_contract fst] in *.
  - destruct Hc as (-> & Hv & fid & _ & Hcount & _ & Hparent & Ht). destruct (Ht _ Hfs) as [Hnew Hfs'].
    cbn [links_of linkFiles linkCounts linkParents] in *.
    assert (is_uint64 v) as Hu by (apply (holds_uint64 _ magic_file_ok _ _ _ Hfs'); by rewrite lookup_insert_eq; eexists).
    split; [done|]. split; [done|]. split; [done|]. split; [by rewrite (holds_Resolve _ (fileTable s0) fs)|]. split.
    { intros w Hw Hne. rewrite (holds_Resolve _ _ _ _ Hfs' Hw), lookup_insert_ne by done. symmetry. exact (holds_Resolve _ _ _ _ Hfs Hw). }
    destruct (abi_file_resolves s' v fid Hok' Hu) as (f & holder' & Hres & Hf & Hh).
    { by rewrite (holds_Resolve _ _ _ _ Hfs' Hu), lookup_insert_eq. }
    assert (parentOwner f = id) as Hp.
    { assert ((parentOwner <$> fileHeap s') !! fid = Some id) as Hp by (by rewrite Hparent, lookup_insert_eq).
      rewrite lookup_fmap, Hf in Hp. by injection Hp. }
    exists id, holder, fid, f, holder'. split; [exact Hr|]. split; [done|]. split; [done|]. rewrite Hp in Hh.
    assert ((liveChildren <$> mountHeap s') !! id = Some (liveChildren holder + 1)) as Hn by (by rewrite Hcount, lookup_insert_eq).
    rewrite lookup_fmap, Hh in Hn. by injection Hn.
  - destruct Hc as (Hhr & _ & Hcount & _ & Ht). split; [done|]. split; [|exact Hcount].
    intros w Hw _. specialize (Ht _ Hfs). cbn [links_of linkFiles] in Ht. rewrite (holds_Resolve _ _ _ _ Ht Hw). symmetry. exact (holds_Resolve _ _ _ _ Hfs Hw).
Qed.

Lemma refusals_fail (checks : list (bool * Z)) :
  Forall (fun check => snd check <> S_OK) checks -> first_refusal checks <> Some S_OK.
Proof.
  induction 1 as [|[[] hr] rest Hhr _ IH]; cbn; [done| |exact IH]. by intros [= ->].
Qed.

(** C14: an open by path gives a handle exactly when it gives [S_OK]: a 64-bit
    value that named no file before, which now names a file of the mount of
    the handle, and the mount counts one file more; and an open that fails
    leaves the handles of files and the counts of the mounts as they were.  In
    both cases the other handles name the files that they named. *)
Theorem opens_give_one_handle handle path access options pid outFile outInfo createAccess attributes sd sdBytes allocation s :
  abi_ok s ->
  open_contract handle s (LayerMountOpenFile pushFails handle path access options pid outFile outInfo s) /\
  open_contract handle s (LayerMountCreateFile pushFails handle path options createAccess attributes sd sdBytes allocation
                            pid outFile outInfo s).
Proof.
  intros Hok. split; (apply open_contract_met; [|exact Hok]); apply refusals_fail; by repeat constructor.
Qed.

(** ** The end of a file *)

(** A handle that names no file ends nothing. *)
Definition close_contract file s (r : AbiState * (Z * option unit)) : Prop :=
  let '(s', (hr, _)) := r in
  match ResolveFileHolder file s with
  | None => hr = E_HANDLE /\ other_files_kept 0 s s' /\ mountHeap s' = mountHeap s /\ fileHeap s' = fileHeap s /\
      abiDisk s' = abiDisk s
  | Some (fid, f, holder) =>
      hr = S_OK /\ Resolve kMagicFile file (fileTable s') = None /\ other_files_kept file s s' /\
      parentOwner <$> fileHeap s' = delete fid (parentOwner <$> fileHeap s) /\
      liveChildren <$> mountHeap s' = <[parentOwner f := liveChildren holder - 1]> (liveChildren <$> mountHeap s) /\
      abiDisk s' = engineDisk (engine (fst (fst (MountFiles.Close (enter_core (core holder) s, fileContext f)))))
  end.

Lemma closed_file_state file t fid f holder s :
  abi_ok s -> ResolveFileHolder file s = Some (fid, f, holder) ->
  let s' := closed_file t fid f holder s in
  t = fileTable s' /\ parentOwner <$> fileHeap s' = delete fid (parentOwner <$> fileHeap s) /\
  liveChildren <$> mountHeap s' = <[parentOwner f := liveChildren holder - 1]> (liveChildren <$> mountHeap s) /\
  abiDisk s' = engineDisk (engine (fst (fst (MountFiles.Close (enter_core (core holder) s, fileContext f))))).
Proof.
  intros Hok (_ & Hf & Hm)%ResolveFileHolder_Some s'.
  destruct (ran_links t fid f holder MountFiles.Close s Hf) as [Et Hold]. cbn zeta in Et, Hold.
  assert (0 <= liveChildren holder - 1 < 2 ^ 24) as Hrange.
  { apply (children_range (links_of s) fid (parentOwner f)); [exact Hok|cbn; by rewrite lookup_fmap, Hf|cbn; by rewrite lookup_fmap, Hm]. }
  subst s'. unfold closed_file.
  assert (abiDisk (fst (run_context fid f holder MountFiles.Close (with_files t (fileHeap s) (with_tls ClearFillFailure s)))) =
          engineDisk (engine (fst (fst (MountFiles.Close (enter_core (core holder) s, fileContext f)))))) as Hd.
  { unfold run_context. change (enter_core (core holder) (with_files t (fileHeap s) (with_tls ClearFillFailure s)))
      with (enter_core (core holder) s). by destruct (MountFiles.Close _) as [[c ctx] u]. }
  destruct (run_context fid f holder MountFiles.Close _) as [s2 u]. cbn [fst] in *.
  unfold links_with_table, links_of in Hold. injection Hold as L1 L3 L4.
  unfold forget_file. cbn -[alter Z.pow]. split; [done|]. split; [by rewrite fmap_delete, L4|]. split; [|exact Hd].
  rewrite <- L3. assert ((liveChildren <$> mountHeap s2) !! parentOwner f = Some (liveChildren holder)) as Hn
    by (by rewrite L3, lookup_fmap, Hm).
  rewrite lookup_fmap in Hn. destruct (mountHeap s2 !! parentOwner f) as [h|] eqn:Eh; [|done]. injection Hn as Hn.
  apply map_eq. intros i. rewrite lookup_fmap, lookup_alter. case_decide as Hi; subst.
  - rewrite lookup_insert_eq, Eh. cbn -[Z.pow]. by rewrite Hn, Z.mod_small by lia.
  - by rewrite lookup_insert_ne, lookup_fmap by done.
Qed.

(** C15: a close of a handle that names an open file gives [S_OK]: the context
    of the file is closed by the engine, the handle names nothing any more,
    the file is gone, its mount counts one file less, and every other handle
    names the file that it named.  A close of any other value gives
    [E_HANDLE], and nothing changes but the error state. *)
Theorem close_ends_one_handle file s :
  is_uint64 file -> abi_ok s -> close_contract file s (LayerMountCloseFile pushFails file s).
Proof.
  intros Hfile Hok. destruct (abi_tables _ Hok) as (ms & fs & _ & Hfs & _). unfold close_contract.
  pose proof (LayerMountCloseFile_runs pushFails file s Hfile Hok) as Hruns.
  destruct (ResolveFileHolder file s) as [[[fid f] holder]|] eqn:Hr; destruct Hruns as (t & -> & Ht).
  - destruct Ht as [Ht Hok']. destruct (Ht _ Hfs) as [Hfid Ht'].
    destruct (closed_file_state file t fid f holder s Hok Hr) as (Et & Hp & Hc & Hd). rewrite Et in Ht'.
    split; [done|]. split; [by rewrite (holds_Resolve _ _ _ _ Ht' Hfile), lookup_delete_eq|]. split; [|done].
    intros w Hw Hne. rewrite (holds_Resolve _ _ _ _ Ht' Hw), lookup_delete_ne by done. symmetry. exact (holds_Resolve _ _ _ _ Hfs Hw).
  - split; [done|]. split; [|done]. intros w Hw _. change (Resolve kMagicFile w t = Resolve kMagicFile w (fileTable s)).
    rewrite (holds_Resolve _ _ _ _ (Ht _ Hfs) Hw). symmetry. exact (holds_Resolve _ _ _ _ Hfs Hw).
Qed.

(** ** The end of a mount *)

(** The locks of a work directory close on the disk. *)
Definition locks_closed (work : OpenWorkDirectory) (d : disk) : disk :=
  fst ((do! close_lock (upperLock work) in close_lock (workDirectoryLock work))%eff d).

Definition destroy_contract handle s (r : AbiState * (Z * option unit)) : Prop :=
  let '(s', (hr, _)) := r in
  match resolve_mount handle s with
  | None => hr = E_HANDLE /\ only_errors s s'
  | Some (id, holder) =>
      if hostAttached holder || negb (liveChildren holder =? 0) then hr = E_ILLEGAL_METHOD_CALL /\ only_errors s s'
      else
        hr = S_OK /\ resolve_mount handle s' = None /\ other_mounts_kept handle s s' /\
        mountHeap s' = delete id (mountHeap s) /\ fileHeap s' = fileHeap s /\ fileTable s' = fileTable s /\
        (forall fid f, fileHeap s !! fid = Some f -> parentOwner f <> id) /\
        abiDisk s' = locks_closed (workDirectory holder) (abiDisk s)
  end.

Lemma destroyed_state t id holder s :
  let s' := destroyed t id holder s in
  mountTable s' = t /\ mountHeap s' = delete id (mountHeap s) /\ fileHeap s' = fileHeap s /\ fileTable s' = fileTable s /\
  abiDisk s' = locks_closed (workDirectory holder) (abiDisk s).
Proof.
  unfold destroyed, close_work_directory, abi_io, locks_closed. cbn [with_mounts abiDisk].
  by destruct ((do! close_lock (upperLock (workDirectory holder)) in close_lock (workDirectoryLock (workDirectory holder)))%eff (abiDisk s)).
Qed.

(** No two handles name one mount. *)
Lemma abi_mounts_apart s ms v v' id :
  abi_ok s -> table_holds kMagicLayerMount (mountTable s) ms -> ms !! v = Some id -> ms !! v' = Some id -> v = v'.
Proof.
  intros (ms' & fs & Hms' & He & _) Hms Hv Hv'. cbn [links_of linkMounts] in *.
  assert (Hsame : forall w, is_Some (ms !! w) -> ms' !! w = ms !! w).
  { intros w Hw. pose proof (holds_uint64 _ magic_mount_ok _ _ _ Hms Hw) as Hu.
    rewrite <- (holds_Resolve _ _ _ _ Hms Hu). symmetry. by apply holds_Resolve. }
  apply (proj2 He v v' id); rewrite Hsame; by eauto.
Qed.

(** C9: a mount that is attached to a host, or that counts an open file, is
    not destroyed: the export gives [E_ILLEGAL_METHOD_CALL] and changes
    nothing but the error state.  Otherwise the export gives [S_OK], the
    handle names nothing any more, the holder is gone with its locks closed,
    no open file was one of the mount, and every other handle names what it
    named.  A value that names no mount gives [E_HANDLE]. *)
Theorem destroy_frees_only_idle_mounts handle s :
  is_uint64 handle -> abi_ok s -> destroy_contract handle s (LayerMountDestroy pushFails handle s).
Proof.
  intros Hh Hok. unfold destroy_contract. destruct (Z.eq_dec handle 0) as [->|H0]; [by cbn|].
  destruct (resolve_mount handle s) as [[id holder]|] eqn:Hr.
  { pose proof (LayerMountDestroy_refuses pushFails handle s) as Href. rewrite Hr in Href.
    destruct (hostAttached holder || negb (liveChildren holder =? 0)) eqn:Hheld.
    { by destruct (Href H0 eq_refl) as (s' & -> & Hs). }
    apply orb_false_iff in Hheld as [Ha Hc%negb_false_iff%Z.eqb_eq].
    destruct (LayerMountDestroy_runs pushFails handle s id holder Hh H0 Hok Hr Ha Hc) as [-> Ht].
    destruct (abi_tables _ Hok) as (ms & fs & Hms & _). destruct (Ht _ Hms) as [Hv Ht'].
    destruct (freed_mount (links_of s) _ handle id Hok Hh Ht) as [_ Hnone].
    { apply resolve_mount_Some in Hr as [_ Hid]. cbn. by rewrite lookup_fmap, Hid, <- Hc. }
    set (t := fst (Free kMagicLayerMount pushFails handle (mountTable s))) in *.
    destruct (destroyed_state t id holder (with_tls ClearFillFailure s)) as (Et & Hmh & Hfh & Hft & Hd). cbn zeta in *.
    rewrite <- Et in Ht'. split; [done|].
    assert (Hgone : resolve_mount handle (destroyed t id holder (with_tls ClearFillFailure s)) = None).
    { unfold resolve_mount. by rewrite (holds_Resolve _ _ _ _ Ht' Hh), lookup_delete_eq. }
    split; [exact Hgone|]. split; [|split_and!; try done].
    - intros w Hw Hne. unfold resolve_mount. rewrite (holds_Resolve _ _ _ _ Ht' Hw), lookup_delete_ne by done.
      rewrite (holds_Resolve _ _ _ _ Hms Hw). destruct (ms !! w) as [id'|] eqn:Ew; [|done]. cbn. rewrite Hmh.
      rewrite lookup_delete_ne; [done|]. intros <-. apply Hne.
      by apply (abi_mounts_apart s ms w handle id Hok Hms).
    - intros fid f Hf Hp. apply (Hnone fid). cbn. by rewrite lookup_fmap, Hf, <- Hp. }
  pose proof (LayerMountDestroy_refuses pushFails handle s) as Href. rewrite Hr in Href.
  by destruct Href as (s' & -> & Hs).
Qed.

(** ** Every sequence of exports *)

(** The handles and the objects of a state. *)
Definition handles_and_objects s : Prop :=
  (forall v, is_uint64 v ->
     match ResolveFileHolder v s with
     | Some (_, f, holder) => exists mount, is_uint64 mount /\ resolve_mount mount s = Some (parentOwner f, holder)
     | None => Resolve kMagicFile v (fileTable s) = None
     end) /\
  (forall v, is_uint64 v ->
     match resolve_mount v s with
     | Some (id, holder) => liveChildren holder = children (parentOwner <$> fileHeap s) id /\ 0 <= liveChildren holder < 2 ^ 24
     | None => Resolve kMagicLayerMount v (mountTable s) = None
     end) /\
  (forall fid, is_Some (fileHeap s !! fid) -> exists v, is_uint64 v /\ Resolve kMagicFile v (fileTable s) = Some fid) /\
  (forall id, is_Some (mountHeap s !! id) -> exists v, is_uint64 v /\ Resolve kMagicLayerMount v (mountTable s) = Some id).

Lemma heap_named {V} Magic (magic_ok : 0 < Magic < 2 ^ 16) (t : HandleTable nat) m (heap : gmap nat V) id :
  table_holds Magic t m -> exactly m heap -> is_Some (heap !! id) ->
  exists v, is_uint64 v /\ Resolve Magic v t = Some id.
Proof.
  intros Hm [He _] Hid. apply He in Hid as [v Hv]. exists v.
  assert (is_uint64 v) as Hu by (apply (holds_uint64 _ magic_ok _ _ _ Hm); by exists id).
  split; [done|]. by rewrite (holds_Resolve _ _ _ _ Hm Hu).
Qed.

Lemma children_bound k id : link_ok k -> children (linkParents k) id < 2 ^ 24.
Proof.
  intros (mounts & openFiles & _ & _ & Hf & He & _). pose proof (holds_size _ magic_file_ok _ _ Hf).
  pose proof (exactly_size _ _ He). unfold children.
  assert (size (filter (fun kv => snd kv = id) (linkParents k)) <= size (linkParents k))%nat
    by (apply map_subseteq_size, map_filter_subseteq). lia.
Qed.

Lemma abi_ok_objects s : abi_ok s -> handles_and_objects s.
Proof.
  intros Hok. pose proof Hok as (mounts & openFiles & Hm & He & Hf & He' & Hp & Hn). cbn [links_of linkMounts linkFiles linkCounts linkParents] in *.
  assert (Hnamed : forall id holder, mountHeap s !! id = Some holder ->
            exists v, is_uint64 v /\ Resolve kMagicLayerMount v (mountTable s) = Some id).
  { intros id holder Hid. apply (heap_named _ magic_mount_ok _ _ _ _ Hm He). by rewrite lookup_fmap, Hid. }
  split; [|split; [|split]].
  - intros v Hv. destruct (ResolveFileHolder v s) as [[[fid f] holder]|] eqn:Hr; [|by apply ResolveFileHolder_None].
    apply ResolveFileHolder_Some in Hr as (_ & _ & Hh). destruct (Hnamed _ _ Hh) as (w & Hw & Hres).
    exists w. split; [done|]. unfold resolve_mount. rewrite Hres. cbn. by rewrite Hh.
  - intros v Hv. destruct (resolve_mount v s) as [[id holder]|] eqn:Hr.
    + apply resolve_mount_Some in Hr as [_ Hh]. rewrite (Hn id (liveChildren holder)) by (by rewrite lookup_fmap, Hh).
      split; [done|]. split; [unfold children; lia|]. exact (children_bound _ id Hok).
    + apply eq_None_not_Some. intros [id Hres]. destruct (abi_mount_resolves _ _ _ Hok Hv Hres) as [? ?]. congruence.
  - intros fid [f Hfid]. apply (heap_named _ magic_file_ok _ _ _ _ Hf He'). by rewrite lookup_fmap, Hfid.
  - intros id [holder Hid]. by apply (Hnamed id holder).
Qed.

(** C6: from the empty registry, after any sequence of the exports on mounts
    and files, whatever their arguments and their results: a handle of a file
    names a file whose mount is alive and has a handle of its own; a mount
    counts exactly its open files, in 24 bits, so that the counter never
    wraps; and every file and every mount that is alive has a handle, so none
    is leaked. *)
Theorem exports_keep_handles_and_objects ops d :
  Forall abi_op_ok ops -> handles_and_objects (run_abi pushFails ops (Handles d)).
Proof. intros Hops. apply abi_ok_objects, run_abi_ok; [exact Hops|apply Handles_ok]. Qed.
End Contract.

(** ** Witnesses *)

Section Projections.
Context `{W : Win32} `{J : Json} `{E : CacheEnv} `{P : Processes} `{H : !EntryHost} `{M : !MountHost}.
Context `{T : !Threads} `{R : !RulesFiles} `{A : !AbiHost}.
Implicit Types (s : AbiState).

Lemma open_contract_handle handle s r v :
  fst <$> snd (snd r) = Some v -> open_contract handle s r ->
  fst (snd r) = S_OK /\ Resolve kMagicFile v (fileTable s) = None /\ is_Some (resolve_mount handle s).
Proof.
  destruct r as [s' [hr [[v' info]|]]]; [|done]. cbn. intros [= ->] (-> & _ & _ & Hn & _ & id & holder & _ & _ & _ & Hm & _).
  by eauto.
Qed.

Lemma close_contract_handle file s r :
  is_Some (ResolveFileHolder file s) -> close_contract file s r ->
  fst (snd r) = S_OK /\ Resolve kMagicFile file (fileTable (fst r)) = None.
Proof.
  destruct r as [s' [hr out]]. intros [[[fid f] holder] Hf]. cbn. rewrite Hf. by intros (-> & Hn & _).
Qed.

(** Whether something holds the mount of a handle. *)
Definition held handle s : option bool :=
  (fun r => hostAttached (snd r) || negb (liveChildren (snd r) =? 0)) <$> resolve_mount handle s.

Lemma destroy_contract_result handle s r b :
  held handle s = Some b -> destroy_contract handle s r -> fst (snd r) = if b then E_ILLEGAL_METHOD_CALL else S_OK.
Proof.
  unfold held, destroy_contract. destruct r as [s' [hr out]].
  destruct (resolve_mount handle s) as [[id holder]|]; [|done]. cbn. intros [= ->]. destruct b; by intros [-> _].
Qed.
End Projections.

#[local] Existing Instance Fixture.no_json.
Import Called.

(** A mount with an open file, and the same mount with the file closed. *)
Definition after (ops : list abi_op) : AbiState (W := mem_win32) := run_abi false ops start.

Lemma word_ok (v : Z) : (0 <=? v) && (v <? 2 ^ 64) = true -> is_uint64 v.
Proof. intros [H1%Z.leb_le H2%Z.ltb_lt]%andb_true_iff. by split. Qed.

Lemma after_ok ops : Forall abi_op_ok ops -> abi_ok (after ops).
Proof. intros Hops. apply run_abi_ok; [exact Hops|apply Handles_ok]. Qed.

Definition opened_call (s : AbiState (W := mem_win32)) : AbiState (W := mem_win32) * (Z * option (Z * LM_FILE_INFO)) :=
  LayerMountOpenFile false mount1 (Some (L "d\f.txt")) FILE_ALL_ACCESS 0 0 true true s.

Lemma opens_give_one_handle_witness :
  fst (snd (opened_call (after [create]))) = S_OK /\
  Resolve kMagicFile file1 (fileTable (after [create])) = None /\ is_Some (resolve_mount mount1 (after [create])).
Proof.
  apply (open_contract_handle mount1 (after [create]) (opened_call (after [create])) file1).
  - vm_compute. reflexivity.
  - exact (proj1 (opens_give_one_handle false mount1 (Some (L "d\f.txt")) FILE_ALL_ACCESS 0 0 true true 0 0 None 0 0
             (after [create]) (after_ok [create] ltac:(by repeat constructor)))).
Defined.

(** The file of the first mount ends. *)
Lemma close_ends_one_handle_witness :
  fst (snd (LayerMountCloseFile false file1 (after [create; open]))) = S_OK /\
  Resolve kMagicFile file1 (fileTable (fst (LayerMountCloseFile false file1 (after [create; open])))) = None.
Proof.
  apply (close_contract_handle file1 (after [create; open])).
  - apply (bool_decide_eq_true_1 (is_Some (ResolveFileHolder file1 (after [create; open])))). vm_compute. reflexivity.
  - apply (close_ends_one_handle false file1); [by apply word_ok|apply after_ok; by repeat constructor].
Defined.

(** The mount with an open file is not destroyed; without it, it is. *)
Lemma destroy_frees_only_idle_mounts_witness :
  fst (snd (LayerMountDestroy false mount1 (after [create; open]))) = E_ILLEGAL_METHOD_CALL /\
  fst (snd (LayerMountDestroy false mount1 (after [create; open; OpCloseFile file1]))) = S_OK.
Proof.
  split.
  - apply (destroy_contract_result mount1 (after [create; open]) _ true); [vm_compute; reflexivity|].
    apply (destroy_frees_only_idle_mounts false mount1); [by apply word_ok|apply after_ok; by repeat constructor].
  - apply (destroy_contract_result mount1 (after [create; open; OpCloseFile file1]) _ false); [vm_compute; reflexivity|].
    apply (destroy_frees_only_idle_mounts false mount1); [by apply word_ok|].
    apply after_ok. repeat constructor. by apply word_ok.
Defined.

(** A sequence that creates, opens twice, closes one, and fails to destroy. *)
Definition calls : list abi_op := [create; open; open; OpCloseFile file1; OpMountDestroy mount1].

Lemma exports_keep_handles_and_objects_witness :
  handles_and_objects (run_abi false calls (Handles Engine.volume)) /\
  (liveChildren <$> mountHeap (after calls)) !! fresh (∅ : gset nat) = Some 1.
Proof.
  split; [|vm_compute; reflexivity].
  apply exports_keep_handles_and_objects. repeat constructor; by apply word_ok.
Defined.

(** *** The error state *)

#[local] Instance mem_status_codes : StatusCodes (W := mem_win32) (H := mem_entry_host).
Proof.
  split; [| |reflexivity]; intros s; cbn; case_bool_decide; (lia || reflexivity).
Qed.

Lemma HResultToNtStatus_roundtrip_witness :
  LayerMountHResultToNtStatus (HresultFromNtStatus (H := mem_entry_host) STATUS_ACCESS_DENIED) true = (S_OK, Some 0xC0000001).
Proof. exact (proj1 (HResultToNtStatus_roundtrip (H := mem_entry_host) STATUS_ACCESS_DENIED)). Defined.

(** The export reads the message of a failure of its thread. *)
Example message_of_a_refused_destroy :
  (fun r => (fst r, fst <$> snd r)) (snd (LayerMountGetLastErrorMessage E_ILLEGAL_METHOD_CALL None true
    (after [create; open; OpMountDestroy mount1]))) = (S_OK, Some (Some 164)).
Proof. vm_compute. reflexivity. Qed.
