(* ===== verification/AbiVhd.v ===== *)
(** * The exports on virtual disks and on the registry

    [AbiVhd.cpp], and what the exports on disks and snapshots add to the state
    of the C interface: the table of disks with its holders ([HandleTypes.h]),
    the managers that a mount makes at first use ([LayerMount::Vhd] and [Vss]),
    the table of snapshots, and the COM scopes of the thread.

    A holder of a disk points to the manager of its mount and does not keep the
    mount alive: the mount can be destroyed before the disk's handle is closed,
    and the pointer then names nothing.  A call through such a pointer is noted
    in [freedManagerUsed]; the methods that are called so read no member of the
    manager, and run as written here. *)
From S2P Require Import Registry VhdManager VssManager.
From S2P Require Export AbiCore.
Open Scope Z_scope.

(** ** Public structs *)

Definition LM_VHD_KIND_FIXED : Z := 0.
Definition LM_VHD_KIND_DYNAMIC : Z := 1.
Definition LM_VHD_KIND_DIFFERENCING : Z := 2.
Definition LM_VHD_ATTACH_PROCESS_SCOPED : Z := 1.
Definition LM_VHD_LAYER_DIRECTORY : Z := 0.
Definition LM_VHD_LAYER_VHD : Z := 1.
Definition LM_VHD_LAYER_VSS : Z := 2.

Definition ERROR_FILE_INVALID : Z := 1006.
Definition ERROR_LOCK_VIOLATION : Z := 33.
Definition STG_E_PATHNOTFOUND : Z := 0x80030003.

(** With the offset of [_reserved0]. *)
Record LM_VHD_CONFIG := {
  vhdStructSize : Z;
  vhdKind : Z;
  vhdSizeBytes : Z;
  vhdConfigPath : option wstring;
  vhdParentPath : option wstring;
  vhdReadOnly : bool;
  vhdSuppressDriveLetter : bool;
  vhdLifetime : Z
}.
Definition reserved0Offset : Z := 44.

(** A text field: [*Chars], without the NUL, [*Required] and what is stored. *)
Abbreviation layer_text := (Z * Z * option wstring)%type.

Record LM_VHD_LAYER_INFO := {
  liId : wstring;
  liType : Z;
  liPath : layer_text;
  liParentId : layer_text;
  liMountStatus : layer_text;
  liVolumeGuid : layer_text;
  liCreatedAt : layer_text
}.

(** The buffers of the caller in one entry. *)
Record layer_buffers := {
  pathBuffer : option Z;
  parentBuffer : option Z;
  statusBuffer : option Z;
  guidBuffer : option Z;
  createdBuffer : option Z
}.

(** [id] holds 64 characters with the NUL. *)
Definition kIdCap : Z := 64.

Record LayerList := { layersWritten : Z; layersRequired : Z; layersFilled : list LM_VHD_LAYER_INFO }.
Definition no_layers : LayerList := {| layersWritten := 0; layersRequired := 0; layersFilled := [] |}.

(** ** The state *)

(** [manager] is the mount whose manager the pointer names, [None] when that
    mount is gone. *)
Record VhdHolder `{W : Win32} `{V : !VhdHost} := {
  manager : option nat;
  openDisk : option vhd_handle;
  holderPath : wstring;
  attachedPhysicalPath : wstring;
  holderOptions : AttachOptions
}.

(** [manager] of the source is never read. *)
Record VssSnapshotHolder := { snapshotHeld : SnapshotInfo }.

Record PrimitiveState `{W : Win32} `{V : !VhdHost} := {
  abi : AbiState;
  vhdTable : HandleTable nat;
  vhdHeap : gmap nat VhdHolder;
  (** The mounts whose manager of disks is made. *)
  vhdManagers : gset nat;
  vssTable : HandleTable VssSnapshotHolder;
  (** The snapshots of the mounts whose manager of snapshots is made. *)
  vssManagers : gmap nat VSSManager;
  comRefCount : Z;
  freedManagerUsed : bool
}.

Abbreviation prim_call B := (eff PrimitiveState (Z * option B)).

Section Primitives.
Context `{W : Win32} `{J : Json} `{E : CacheEnv} `{P : Processes} `{H : !EntryHost} `{M : !MountHost}.
Context `{T : !Threads} `{R : !RulesFiles} `{A : !AbiHost} `{I : !ImageHost} `{V : !VhdHost} `{X : !VssHost}.
Context `{N : !NamedMutexes}.
(** Whether growing the free list of a table throws; the exception of a call
    whose model does not name it. *)
Context (pushFails : bool) (thrown : abi_exception).
Implicit Types (s : PrimitiveState).

(** ** Parts of the state *)

Definition with_abi (a : AbiState) s : PrimitiveState := {|
  abi := a; vhdTable := vhdTable s; vhdHeap := vhdHeap s; vhdManagers := vhdManagers s; vssTable := vssTable s;
  vssManagers := vssManagers s; comRefCount := comRefCount s; freedManagerUsed := freedManagerUsed s |}.

Definition with_disks (t : HandleTable nat) (heap : gmap nat VhdHolder) s : PrimitiveState := {|
  abi := abi s; vhdTable := t; vhdHeap := heap; vhdManagers := vhdManagers s; vssTable := vssTable s;
  vssManagers := vssManagers s; comRefCount := comRefCount s; freedManagerUsed := freedManagerUsed s |}.

Definition with_vhd_managers (ids : gset nat) s : PrimitiveState := {|
  abi := abi s; vhdTable := vhdTable s; vhdHeap := vhdHeap s; vhdManagers := ids; vssTable := vssTable s;
  vssManagers := vssManagers s; comRefCount := comRefCount s; freedManagerUsed := freedManagerUsed s |}.

Definition with_snapshots (t : HandleTable VssSnapshotHolder) (ms : gmap nat VSSManager) s : PrimitiveState := {|
  abi := abi s; vhdTable := vhdTable s; vhdHeap := vhdHeap s; vhdManagers := vhdManagers s; vssTable := t;
  vssManagers := ms; comRefCount := comRefCount s; freedManagerUsed := freedManagerUsed s |}.

Definition with_com (n : Z) s : PrimitiveState := {|
  abi := abi s; vhdTable := vhdTable s; vhdHeap := vhdHeap s; vhdManagers := vhdManagers s; vssTable := vssTable s;
  vssManagers := vssManagers s; comRefCount := n; freedManagerUsed := freedManagerUsed s |}.

Definition with_freed_used (b : bool) s : PrimitiveState := {|
  abi := abi s; vhdTable := vhdTable s; vhdHeap := vhdHeap s; vhdManagers := vhdManagers s; vssTable := vssTable s;
  vssManagers := vssManagers s; comRefCount := comRefCount s; freedManagerUsed := b |}.

Definition update_disk (did : nat) (holder : VhdHolder) s : PrimitiveState :=
  with_disks (vhdTable s) (<[did := holder]> (vhdHeap s)) s.

(** A call of the rest of the interface, and one on the machine. *)
Definition on_abi {B} (m : eff AbiState B) : eff PrimitiveState B := fun s =>
  let (a, b) := m (abi s) in (with_abi a s, b).
Definition prim_io {B} (m : eff disk B) : eff PrimitiveState B := on_abi (abi_io m).
Definition prim_error (hr : Z) (message : wstring) : eff PrimitiveState unit := on_abi (set_error hr message).
Definition prim_throw {B} : prim_call B := on_abi (throw_abi thrown).

(** [LM_ABI_ENTRY], the argument checks, the body. *)
Definition prim_export {B} (checks : list (bool * Z)) (body : prim_call B) : prim_call B := fun s =>
  let s := with_abi (with_tls ClearFillFailure (abi s)) s in
  match first_refusal checks with
  | Some hr => (s, (hr, None))
  | None => body s
  end.

(** [unresolved] are the outputs that are set before the mount is looked up. *)
Definition prim_mount {B} (handle : Z) (unresolved : option B) (body : nat -> LayerMountHolder -> prim_call B)
  : prim_call B := fun s =>
  match resolve_mount handle (abi s) with
  | None => (s, (E_HANDLE, unresolved))
  | Some (id, holder) => body id holder s
  end.

(** [LayerMount::Vhd]: the manager is made at the first use.  Its directory is
    that of the work files. *)
Definition manager_directory (holder : LayerMountHolder) : wstring := workDirPath (layerConfig (coreConfig holder)).

Definition Vhd {B} (id : nat) (holder : LayerMountHolder) (body : prim_call B) : prim_call B := fun s =>
  if bool_decide (id ∈ vhdManagers s) then body s
  else
    (let! made := prim_io (NewVHDLayerManager (manager_directory holder)) in
     if made then fun s => body (with_vhd_managers ({[id]} ∪ vhdManagers s) s) else prim_throw)%eff s.

(** ** Disks *)

Definition ToManagerLifetime (lt : Z) : AttachLifetime :=
  if lt =? LM_VHD_ATTACH_PROCESS_SCOPED then ProcessScoped else Permanent.

Definition ToAttachOptions (config : LM_VHD_CONFIG) : AttachOptions := {|
  attachAccess := if vhdReadOnly config then ReadOnly else ReadWrite;
  attachLifetime := ToManagerLifetime (vhdLifetime config);
  attachDriveLetter := if vhdSuppressDriveLetter config then SuppressLetter else AssignLetter |}.

(** [EmitPhysicalPath]: the result, [*bufferRequired], and what is stored. *)
Definition EmitPhysicalPath (path : wstring) (buffer : option Z) : Z * option (Z * option wstring) :=
  let '(hr, required, stored) := EmitWString path buffer in (hr, Some (required, stored)).

(** A holder without an attach, and its handle. *)
Definition new_disk (id : nat) (config : LM_VHD_CONFIG) (exhausted : wstring) : prim_call Z := fun s =>
  let did := fresh (dom (vhdHeap s)) in
  let (t, encodedVhd) := Allocate kMagicVhd (Some did) (vhdTable s) in
  if encodedVhd =? 0 then
    (do! prim_error E_OUTOFMEMORY exhausted in eret (E_OUTOFMEMORY, None))%eff (with_disks t (vhdHeap s) s)
  else
    let holder := {| manager := Some id; openDisk := None; holderPath := text_of (vhdConfigPath config);
                     attachedPhysicalPath := []; holderOptions := ToAttachOptions config |} in
    (with_disks t (<[did := holder]> (vhdHeap s)) s, (S_OK, Some encodedVhd)).

(** The checks on the configuration that both exports share. *)
Definition config_checks (mount : Z) (config : option LM_VHD_CONFIG) (outVhd : bool) : list (bool * Z) :=
  [(mount =? 0, E_HANDLE); (is_null config, E_POINTER); (negb outVhd, E_POINTER)] ++
  match config with
  | None => []
  | Some config =>
      [(negb (LM_STRUCT_SIZE_COVERS (vhdStructSize config) reserved0Offset 4), E_INVALIDARG);
       (is_empty_text (vhdConfigPath config), E_INVALIDARG)]
  end.

Definition kind_checks (config : LM_VHD_CONFIG) : list (bool * Z) :=
  [((vhdKind config =? LM_VHD_KIND_DIFFERENCING) && is_empty_text (vhdParentPath config), E_INVALIDARG);
   (((vhdKind config =? LM_VHD_KIND_FIXED) || (vhdKind config =? LM_VHD_KIND_DYNAMIC)) && (vhdSizeBytes config =? 0),
    E_INVALIDARG)].

(** The new disk of a kind; [None] for a kind that there is not. *)
Definition create_of_kind (config : LM_VHD_CONFIG) : option (eff disk Z) :=
  let path := text_of (vhdConfigPath config) in
  if vhdKind config =? LM_VHD_KIND_FIXED then Some (CreateVHD path (vhdSizeBytes config) FixedAllocation)
  else if vhdKind config =? LM_VHD_KIND_DYNAMIC then Some (CreateVHD path (vhdSizeBytes config) DynamicAllocation)
  else if vhdKind config =? LM_VHD_KIND_DIFFERENCING then
    Some (CreateDifferencingVHD path (text_of (vhdParentPath config)))
  else None.

Definition LayerMountVhdCreate (mount : Z) (config : option LM_VHD_CONFIG) (outVhd : bool) : prim_call Z :=
  match config with
  | None => prim_export (config_checks mount None outVhd) (eret (E_POINTER, None))
  | Some config =>
      prim_export (config_checks mount (Some config) outVhd ++ kind_checks config)
        (prim_mount mount None (fun id holder => Vhd id holder
           (match create_of_kind config with
            | None => eret (E_INVALIDARG, None)
            | Some create =>
                let! dw := prim_io create in
                if negb (dw =? ERROR_SUCCESS) then eret (HresultFromWin32Dword dw, None)
                else new_disk id config (L "LayerMountVhdCreate: VHD handle table exhausted.")
            end)%eff))
  end.

Definition LayerMountVhdOpen (mount : Z) (config : option LM_VHD_CONFIG) (outVhd : bool) : prim_call Z :=
  match config with
  | None => prim_export (config_checks mount None outVhd) (eret (E_POINTER, None))
  | Some config =>
      prim_export (config_checks mount (Some config) outVhd)
        (prim_mount mount None (fun id holder =>
           (let! attrs := eread (fun s =>
              GetFileAttributesW (abiDisk (abi s)) (WithExtendedPrefix (text_of (vhdConfigPath config)))) in
            match attrs with
            | Err e => eret (hresult_from_win32 e, None)
            | Ok attrs =>
                if has_attr attrs FILE_ATTRIBUTE_DIRECTORY then eret (hresult_from_win32 ERROR_FILE_INVALID, None)
                else Vhd id holder (new_disk id config (L "LayerMountVhdOpen: VHD handle table exhausted."))
            end)%eff))
  end.

(** The holder that a value names. *)
Definition resolve_disk (vhd : Z) s : option (nat * VhdHolder) :=
  did ← Resolve kMagicVhd vhd (vhdTable s);
  holder ← vhdHeap s !! did;
  Some (did, holder).

Definition disk_export {B} (vhd : Z) (body : nat -> VhdHolder -> prim_call B) : prim_call B :=
  prim_export [(vhd =? 0, E_HANDLE)]
    (fun s => match resolve_disk vhd s with
              | None => (s, (E_HANDLE, None))
              | Some (did, holder) => body did holder s
              end).

(** A call through the pointer of a holder. *)
Definition through_manager {B} (holder : VhdHolder) (m : eff disk B) : eff PrimitiveState B := fun s =>
  prim_io m (with_freed_used (freedManagerUsed s || is_null (manager holder)) s).

Definition with_attach (open : option vhd_handle) (path : wstring) (holder : VhdHolder) : VhdHolder := {|
  manager := manager holder; openDisk := open; holderPath := holderPath holder; attachedPhysicalPath := path;
  holderOptions := holderOptions holder |}.

Definition set_disk (did : nat) (holder : VhdHolder) : eff PrimitiveState unit := fun s => (update_disk did holder s, tt).

(** [~VhdHandle], where a holder has one. *)
Definition close_open (open : option vhd_handle) : eff PrimitiveState unit :=
  match open with Some h => prim_io (close h) | None => eret tt end.

(** An attach of a holder that has one gives its path again. *)
Definition LayerMountVhdAttach (vhd : Z) (buffer : option Z) : prim_call (Z * option wstring) :=
  disk_export vhd (fun did holder =>
    if negb (bool_decide (attachedPhysicalPath holder = [])) then
      eret (EmitPhysicalPath (attachedPhysicalPath holder) buffer)
    else
      (let! attached := through_manager holder (AttachVHD (holderPath holder) (holderOptions holder)) in
       match attached with
       | Err dw => eret (HresultFromWin32Dword dw, None)
       | Ok attached =>
           do! set_disk did (with_attach (Some (attachedHandle attached)) (physicalPath attached) holder) in
           do! close_open (openDisk holder) in
           eret (EmitPhysicalPath (physicalPath attached) buffer)
       end)%eff).

Definition LayerMountVhdDetach (vhd : Z) : prim_call unit :=
  disk_export vhd (fun did holder =>
    (let! dw := through_manager holder
       (match openDisk holder with Some h => DetachHandle h | None => DetachVHD (holderPath holder) end) in
     let alreadyDetached := negb (is_null (openDisk holder)) && (dw =? ERROR_NOT_READY) in
     if negb (dw =? ERROR_SUCCESS) && negb alreadyDetached then eret (HresultFromWin32Dword dw, None)
     else
       do! set_disk did (with_attach None [] holder) in
       do! close_open (openDisk holder) in
       eret (S_OK, None))%eff).

Definition LayerMountVhdMerge (childVhd : Z) : prim_call unit :=
  disk_export childVhd (fun _ holder =>
    (let! dw := through_manager holder (MergeVHD (holderPath holder)) in eret (HresultFromWin32Dword dw, None))%eff).

(** [None] of the manager is an exception. *)
Definition LayerMountVhdImport (mount : Z) (directoryPath vhdPath : option wstring) (sizeBytes : Z) : prim_call unit :=
  prim_export [(mount =? 0, E_HANDLE); (is_empty_text directoryPath, E_INVALIDARG); (is_empty_text vhdPath, E_INVALIDARG)]
    (prim_mount mount None (fun id holder => Vhd id holder
       (let capacity := if sizeBytes =? 0 then None else Some sizeBytes in
        let! r := prim_io (ImportDirectory (manager_directory holder) (text_of directoryPath) (text_of vhdPath) capacity) in
        match r with None => prim_throw | Some dw => eret (HresultFromWin32Dword dw, None) end)%eff)).

Definition ExportFailureMessage (result : ExportResult) : wstring :=
  let entry := exportEntry result in
  let what := match exportStep result with
              | ExportCopy => L "copy '" ++ entry ++ L "' from the VHD"
              | ExportList => if bool_decide (entry = L "\") then L "list the root of the VHD volume"
                              else L "list '" ++ entry ++ L "' in the VHD"
              end in
  L "LayerMountVhdExport could not " ++ what ++ L ". The destination is incomplete.".

Definition LayerMountVhdExport (mount : Z) (vhdPath directoryPath : option wstring) : prim_call unit :=
  prim_export [(mount =? 0, E_HANDLE); (is_empty_text vhdPath, E_INVALIDARG); (is_empty_text directoryPath, E_INVALIDARG)]
    (prim_mount mount None (fun id holder => Vhd id holder
       (let! r := prim_io (ExportToDirectory (manager_directory holder) (text_of vhdPath) (text_of directoryPath)) in
        match r with
        | None => prim_throw
        | Some result =>
            let hr := HresultFromWin32Dword (exportError result) in
            do! (if bool_decide (exportEntry result = []) then eret tt else prim_error hr (ExportFailureMessage result)) in
            eret (hr, None)
        end)%eff)).

(** The holder goes with its handle. *)
Definition LayerMountVhdClose (vhd : Z) : prim_call unit :=
  prim_export [(vhd =? 0, E_HANDLE)]
    (fun s =>
       let (t, freed) := Free kMagicVhd pushFails vhd (vhdTable s) in
       match freed with
       | None => (with_disks t (vhdHeap s) s, (E_HANDLE, None))
       | Some did =>
           let open := holder ← vhdHeap s !! did; openDisk holder in
           (do! close_open open in eret (S_OK, None))%eff (with_disks t (delete did (vhdHeap s)) s)
       end).

(** [*requiredChars], and what is stored. *)
Definition LayerMountVhdGetVolumeGuid (vhd : Z) (buffer : option Z) : prim_call (Z * option wstring) :=
  disk_export vhd (fun _ holder =>
    match openDisk holder with
    | None =>
        (do! prim_error E_ILLEGAL_METHOD_CALL (L "LayerMountVhdGetVolumeGuid: must be called after LayerMountVhdAttach.") in
         eret (E_ILLEGAL_METHOD_CALL, None))%eff
    | Some h =>
        (let! (err, guid) := eread (fun s => GetVolumeGuidForVHD (abiDisk (abi s)) h) in
         if negb (err =? ERROR_SUCCESS) then eret (hresult_from_win32 err, None)
         else let '(hr, required, stored) := EmitWString guid buffer in eret (hr, Some (required, stored)))%eff
    end).

(** ** The registry *)

Definition kRegistryLockTimeoutMs : Z := 30000.

(** [currentPath] is what [std::filesystem::current_path] gives, [None] when it
    throws. *)
Definition ResolveManifestPath (currentPath : option wstring) (manifestDir : option wstring) : option wstring :=
  DefaultPath <$> (if is_empty_text manifestDir then currentPath else manifestDir).

Definition RegistryLockFailure (function : wstring) : eff PrimitiveState Z :=
  let hr := hresult_from_win32 ERROR_LOCK_VIOLATION in
  (do! prim_error hr (function ++ L ": could not get the cross-process layer registry lock within " ++
         L (pretty (kRegistryLockTimeoutMs / 1000)) ++
         L " seconds. Another VHD tool may be using the same registry. Retry after it releases.") in
   eret hr)%eff.

(** [LockedRegistry]: [body] runs under the lock, with the path and the layers,
    [None] when there is no file; the lock is released on each way out. *)
Definition LockedRegistry {B} (currentPath manifestDir : option wstring) (function : wstring) (unset : option B)
    (body : wstring -> option Manifest -> prim_call B) : prim_call B :=
  match ResolveManifestPath currentPath manifestDir with
  | None => prim_throw
  | Some path =>
      (let! lock := prim_io (AcquireManifestLock path kRegistryLockTimeoutMs) in
       if negb (Held lock) then
         let! hr := RegistryLockFailure function in
         do! prim_io (ReleaseManifestLock lock) in
         eret (hr, unset)
       else
         let! loaded := prim_io (Load path) in
         match loaded with
         | Err (Code loadErr) =>
             if loadErr =? ERROR_FILE_NOT_FOUND then
               let! r := body path None in do! prim_io (ReleaseManifestLock lock) in eret r
             else do! prim_io (ReleaseManifestLock lock) in eret (hresult_from_win32 loadErr, unset)
         | Err _ => do! prim_io (ReleaseManifestLock lock) in prim_throw
         | Ok manifest =>
             let! r := body path (Some manifest) in do! prim_io (ReleaseManifestLock lock) in eret r
         end)%eff
  end.

Definition EmitLayerInfoString (value : wstring) (buffer : option Z) : layer_text :=
  let need := Z.of_nat (length value) + 1 in
  match buffer with
  | None => (0, need, None)
  | Some chars => if chars <? need then (0, need, None) else (Z.of_nat (length value), need, Some (value ++ [0]))
  end.

Definition ToPublicLayerType (t : LayerType) : Z :=
  match t with LayerVhd => LM_VHD_LAYER_VHD | LayerVss => LM_VHD_LAYER_VSS | LayerDirectory => LM_VHD_LAYER_DIRECTORY end.

(** The [id] to the NUL that the call puts. *)
Definition public_layer (src : LayerEntry) (buffers : layer_buffers) : LM_VHD_LAYER_INFO := {|
  liId := take (Z.to_nat (kIdCap - 1)) (entryId src);
  liType := ToPublicLayerType (entryType src);
  liPath := EmitLayerInfoString (entryPath src) (pathBuffer buffers);
  liParentId := EmitLayerInfoString (entryParentId src) (parentBuffer buffers);
  liMountStatus := EmitLayerInfoString (mountStatus src) (statusBuffer buffers);
  liVolumeGuid := EmitLayerInfoString (volumeGuid src) (guidBuffer buffers);
  liCreatedAt := EmitLayerInfoString (entryCreatedAt src) (createdBuffer buffers) |}.

(** [entries] are the buffers of the caller's array, [None] for a null array. *)
Definition public_layers (layers : list LayerEntry) (entries : option (list layer_buffers)) (capacity : Z)
  : Z * option LayerList :=
  let count := Z.of_nat (length layers) in
  let sized := {| layersWritten := 0; layersRequired := count mod 2 ^ 32; layersFilled := [] |} in
  match entries with
  | None => (S_OK, Some sized)
  | Some buffers =>
      if capacity =? 0 then (S_OK, Some sized)
      else if capacity <? count then (hresult_from_win32 ERROR_MORE_DATA, Some sized)
      else (S_OK, Some {| layersWritten := count mod 2 ^ 32; layersRequired := count mod 2 ^ 32;
                          layersFilled := zip_with public_layer layers buffers |})
  end.

Definition LayerMountVhdListLayers (currentPath : option wstring) (mount : Z) (manifestDir : option wstring)
    (entries : option (list layer_buffers)) (entriesCapacity : Z) (entriesRequired : bool) : prim_call LayerList :=
  prim_export [(mount =? 0, E_HANDLE); (negb entriesRequired, E_POINTER)]
    (prim_mount mount (Some no_layers) (fun _ _ =>
       LockedRegistry currentPath manifestDir (L "LayerMountVhdListLayers") (Some no_layers) (fun _ manifest =>
         eret match manifest with
              | None => (S_OK, Some no_layers)
              | Some m => public_layers (ListLayers m) entries entriesCapacity
              end))).

(** [*outRemoved]. *)
Definition LayerMountVhdUnregisterLayer (currentPath : option wstring) (mount : Z) (layerId manifestDir : option wstring)
    (outRemoved : bool) : prim_call bool :=
  prim_export [(mount =? 0, E_HANDLE); (is_empty_text layerId, E_INVALIDARG); (negb outRemoved, E_POINTER)]
    (prim_mount mount (Some false) (fun _ _ =>
       LockedRegistry currentPath manifestDir (L "LayerMountVhdUnregisterLayer") (Some false) (fun path manifest =>
         match manifest with
         | None => eret (S_OK, Some false)
         | Some m =>
             let (m, removed) := RemoveLayer (text_of layerId) m in
             if removed then
               (let! saveErr := prim_io (Save m path) in
                eret (if negb (saveErr =? ERROR_SUCCESS) then (hresult_from_win32 saveErr, Some false) else (S_OK, Some true)))%eff
             else eret (S_OK, Some false)
         end))).

(** The JSON text of the metadata. *)
Definition metadata_text (entry : LayerEntry) : wstring :=
  Metadata.Utf8ToWide (json_dump (metadata_to_json (entryMetadata entry))).

(** [*requiredChars], and what is stored. *)
Definition LayerMountVhdGetLayerMetadataJson (currentPath : option wstring) (mount : Z)
    (manifestDir layerId : option wstring) (buffer : option Z) : prim_call (Z * option wstring) :=
  prim_export [(mount =? 0, E_HANDLE); (is_empty_text layerId, E_INVALIDARG)]
    (prim_mount mount None (fun _ _ =>
       LockedRegistry currentPath manifestDir (L "LayerMountVhdGetLayerMetadataJson") None (fun _ manifest =>
         match manifest ≫= GetLayer (text_of layerId) with
         | None => eret (STG_E_PATHNOTFOUND, None)
         | Some entry =>
             let '(hr, required, stored) := EmitWString (metadata_text entry) buffer in eret (hr, Some (required, stored))
         end))).

(** ** The end of a mount *)

(** The engine of a mount goes with its managers: the components of the
    snapshots are released, and the holders of its disks point to nothing. *)
Definition free_managers (id : nat) : eff PrimitiveState unit :=
  (let! snapshots := eread (fun s => default [] (vssManagers s !! id)) in
   do! prim_io (DestroyVSSManager snapshots) in
   fun s =>
     let dangle (holder : VhdHolder) :=
       if bool_decide (manager holder = Some id) then {|
         manager := None; openDisk := openDisk holder; holderPath := holderPath holder;
         attachedPhysicalPath := attachedPhysicalPath holder; holderOptions := holderOptions holder |}
       else holder in
     (with_snapshots (vssTable s) (delete id (vssManagers s))
        (with_vhd_managers (vhdManagers s ∖ {[id]}) (with_disks (vhdTable s) (dangle <$> vhdHeap s) s)), tt))%eff.

(** The mount that a destroy frees. *)
Definition freed_by_destroy (handle : Z) s : option nat :=
  '(id, _) ← resolve_mount handle (abi s);
  if bool_decide (mountHeap (fst (AbiCore.LayerMountDestroy pushFails handle (abi s))) !! id = None) then Some id else None.

(** The engine goes before the work directory of its holder. *)
Definition LayerMountDestroy (handle : Z) : prim_call unit := fun s =>
  (do! match freed_by_destroy handle s with Some id => free_managers id | None => eret tt end in
   on_abi (AbiCore.LayerMountDestroy pushFails handle))%eff s.
End Primitives.
