(* ===== verification/AbiVss.v ===== *)
(** * The exports on snapshots and on mount points

    [AbiVss.cpp]: each export of a snapshot opens a COM scope, which ends with
    it on every way out.  [AbiHostMountPoint.cpp]: the exports around the mount
    point of a host, which need no mount. *)
From S2P Require Import VssManager.
From S2P Require Export HostMountPoint AbiVhd.
Open Scope Z_scope.

Definition LM_VSS_ID_CHARS_REQUIRED : Z := 64.
Definition LM_VSS_DEVICE_PATH_CHARS_REQUIRED : Z := 260.

(** ** Times of snapshots *)

(** One [%nd] of [swscanf_s]: white space, a sign, digits, the sign and the
    digits at most [width]. *)
Fixpoint take_digits (width : nat) (s : wstring) : wstring * wstring :=
  match width, s with
  | S width, c :: s' =>
      if (48 <=? c) && (c <=? 57) then let (ds, rest) := take_digits width s' in (c :: ds, rest) else ([], s)
  | _, _ => ([], s)
  end.

Definition scan_int (width : nat) (s : wstring) : option (Z * wstring) :=
  let s := skip_spaces s in
  let '(negative, width, s) := match s with
                               | 45 :: s' => (true, (width - 1)%nat, s')
                               | 43 :: s' => (false, (width - 1)%nat, s')
                               | _ => (false, width, s)
                               end in
  match take_digits width s with
  | ([], _) => None
  | (ds, rest) => let v := digits_value 0 ds in Some (if negative : bool then - v else v, rest)
  end.

(** A literal character of the format. *)
Definition scan_char (c : Z) (s : wstring) : option wstring :=
  match s with c' :: s' => if c' =? c then Some s' else None | [] => None end.

(** The six numbers of ["%4d-%2d-%2dT%2d:%2d:%2dZ"]; [None] when fewer are
    read.  What follows the last is not looked at. *)
Definition scan_timestamp (s : wstring) : option SYSTEMTIME :=
  '(year, s) ← scan_int 4 s; s ← scan_char 45 s;
  '(month, s) ← scan_int 2 s; s ← scan_char 45 s;
  '(day, s) ← scan_int 2 s; s ← scan_char 84 s;
  '(hour, s) ← scan_int 2 s; s ← scan_char 58 s;
  '(minute, s) ← scan_int 2 s; s ← scan_char 58 s;
  '(second, _) ← scan_int 2 s;
  let word (n : Z) := n mod 2 ^ 16 in
  Some {| wYear := word year; wMonth := word month; wDay := word day; wHour := word hour; wMinute := word minute;
          wSecond := word second |}.

(** ** Public structs *)

(** The outputs of a create. *)
Record VssCreated := {
  createdSnapshot : option Z;
  createdIdRequired : Z;
  createdId : option wstring;
  createdDeviceRequired : Z;
  createdDevice : option wstring
}.

(** [id] holds 40 characters. *)
Definition vssIdCapChars : Z := 40.

Record LM_VSS_SNAPSHOT_INFO := {
  siId : wstring;
  siVssId : VSS_ID;
  siVolumePath : Z * Z * option wstring;
  siDevicePath : Z * Z * option wstring;
  siPersistent : bool;
  siCreatedAt : Z
}.

Record SnapshotList := { entriesWritten : Z; entriesRequired : Z; entriesFilled : list LM_VSS_SNAPSHOT_INFO }.

(** [reserved] is zero where the call stores it. *)
Abbreviation LM_MOUNT_POINT_PREP := MountPointPrep.

Section Snapshots.
Context `{W : Win32} `{J : Json} `{E : CacheEnv} `{P : Processes} `{H : !EntryHost} `{M : !MountHost}.
Context `{T : !Threads} `{R : !RulesFiles} `{A : !AbiHost} `{V : !VhdHost} `{X : !VssHost}.
(** Whether growing the free list of a table throws. *)
Context (pushFails : bool).
Implicit Types (s : PrimitiveState).

Definition ParseIso8601UtcToFiletime (iso : wstring) : Z :=
  match scan_timestamp (c_str iso) with
  | None => 0
  | Some st => match SystemTimeToFileTime st with None => 0 | Some ft => ft end
  end.

Definition GUID_NULL : VSS_ID := replicate 16 0.

Definition ParseVssIdToGuid (id : wstring) : VSS_ID := default GUID_NULL (UuidFromStringW (c_str id)).

(** The buffers of the volume and of the device. *)
Definition ToPublicSnapshotInfo (src : SnapshotInfo) (buffers : option Z * option Z) : LM_VSS_SNAPSHOT_INFO := {|
  siId := if Z.of_nat (length (snapshotId src)) + 1 <=? vssIdCapChars then snapshotId src
          else take (Z.to_nat (vssIdCapChars - 1)) (snapshotId src);
  siVssId := ParseVssIdToGuid (snapshotId src);
  siVolumePath := FillCallerWString (snapshotVolume src) (fst buffers);
  siDevicePath := FillCallerWString (devicePath src) (snd buffers);
  siPersistent := persistent src;
  siCreatedAt := ParseIso8601UtcToFiletime (snapshotCreatedAt src) |}.

(** ** COM *)

(** [GuardComScope]: the failure of a scope. *)
Definition GuardComScope (scope : ComScope) : eff PrimitiveState Z :=
  if ScopeOk scope then eret S_OK
  else
    (do! prim_error (initResult scope)
           (L "VSS shim: CoInitializeEx failed. The caller's thread is in a COM apartment mode incompatible with MTA (likely RPC_E_CHANGED_MODE). VSS operations require a thread that tolerates COINIT_MULTITHREADED.") in
     eret (initResult scope))%eff.

Definition open_scope : eff PrimitiveState ComScope := fun s =>
  let '(s, (n, scope)) := prim_io (OpenComScope (comRefCount s)) s in (with_com n s, scope).

Definition close_scope (scope : ComScope) : eff PrimitiveState unit := fun s =>
  let (s, n) := prim_io (CloseComScope scope (comRefCount s)) s in (with_com n s, tt).

(** The body runs in a scope. *)
Definition with_com_scope {B} (body : prim_call B) : prim_call B :=
  (let! scope := open_scope in
   let! hr := GuardComScope scope in
   let! r := (if FAILED hr then eret (hr, None) else body) in
   do! close_scope scope in
   eret r)%eff.

(** A call of the manager of a mount, which [LayerMount::Vss] makes at its first
    use. *)
Definition on_manager {B} (id : nat) (m : VSSManager -> eff disk (VSSManager * B)) : eff PrimitiveState B := fun s =>
  let '(s, (snapshots, b)) := prim_io (m (default [] (vssManagers s !! id))) s in
  (with_snapshots (vssTable s) (<[id := snapshots]> (vssManagers s)) s, b).

(** ** Snapshots *)

Definition is_sizing_probe (idBuffer : bool) (idChars : Z) (deviceBuffer : bool) (deviceChars : Z) : bool :=
  negb idBuffer && (idChars =? 0) && negb deviceBuffer && (deviceChars =? 0).

Definition buffers_too_small (idBuffer : bool) (idChars : Z) (deviceBuffer : bool) (deviceChars : Z) : bool :=
  negb idBuffer || (idChars <? LM_VSS_ID_CHARS_REQUIRED) || negb deviceBuffer ||
  (deviceChars <? LM_VSS_DEVICE_PATH_CHARS_REQUIRED).

Definition fixed_sizes (snapshot : option Z) : VssCreated := {|
  createdSnapshot := snapshot; createdIdRequired := LM_VSS_ID_CHARS_REQUIRED; createdId := None;
  createdDeviceRequired := LM_VSS_DEVICE_PATH_CHARS_REQUIRED; createdDevice := None |}.

(** Both texts for the caller; the second is left out when the first fails. *)
Definition emit_created (encodedSnap : Z) (id device : wstring) (idChars deviceChars : Z) : Z * option VssCreated :=
  let '(hrId, idRequired, idStored) := EmitWString id (Some idChars) in
  if FAILED hrId then
    (hrId, Some {| createdSnapshot := Some encodedSnap; createdIdRequired := idRequired; createdId := idStored;
                   createdDeviceRequired := LM_VSS_DEVICE_PATH_CHARS_REQUIRED; createdDevice := None |})
  else
    let '(hrDev, deviceRequired, deviceStored) := EmitWString device (Some deviceChars) in
    (if FAILED hrDev then hrDev else S_OK,
     Some {| createdSnapshot := Some encodedSnap; createdIdRequired := idRequired; createdId := idStored;
             createdDeviceRequired := deviceRequired; createdDevice := deviceStored |}).

(** A snapshot that gets no handle is deleted again. *)
Definition register_snapshot (id : nat) (info : SnapshotInfo) (idChars deviceChars : Z) : prim_call VssCreated := fun s =>
  let (t, encodedSnap) := Allocate kMagicVssSnapshot (Some {| snapshotHeld := info |}) (vssTable s) in
  let s := with_snapshots t (vssManagers s) s in
  if encodedSnap =? 0 then
    (do! on_manager id (DeleteSnapshot (snapshotId info)) in
     do! prim_error E_OUTOFMEMORY (L "LayerMountVssCreateSnapshot: VSS handle table exhausted.") in
     eret (E_OUTOFMEMORY, Some (fixed_sizes None)))%eff s
  else (s, emit_created encodedSnap (snapshotId info) (devicePath info) idChars deviceChars).

(** The info of a handle has no identity and no time. *)
Definition LayerMountVssCreateSnapshot (mount : Z) (volumePath : option wstring) (keep outSnapshot : bool)
    (idBuffer : bool) (idChars : Z) (deviceBuffer : bool) (deviceChars : Z) : prim_call VssCreated :=
  prim_export [(mount =? 0, E_HANDLE); (is_empty_text volumePath, E_INVALIDARG); (negb outSnapshot, E_POINTER)]
    (if is_sizing_probe idBuffer idChars deviceBuffer deviceChars then eret (S_OK, Some (fixed_sizes None))
     else if buffers_too_small idBuffer idChars deviceBuffer deviceChars then
       eret (hresult_from_win32 ERROR_MORE_DATA, Some (fixed_sizes None))
     else
       let! r := with_com_scope (prim_mount mount (Some (fixed_sizes None)) (fun id _ =>
         (let! (dw, newId, device) := on_manager id (CreateSnapshot (text_of volumePath) keep) in
          if negb (dw =? ERROR_SUCCESS) then eret (hresult_from_win32 dw, Some (fixed_sizes None))
          else
            register_snapshot id {| snapshotId := newId; vssId := GUID_NULL; snapshotVolume := text_of volumePath;
                                    devicePath := device; persistent := keep; snapshotCreatedAt := [] |}
              idChars deviceChars)%eff)) in
       eret match r with (hr, None) => (hr, Some (fixed_sizes None)) | _ => r end)%eff.

Definition LayerMountVssCloseSnapshot (snapshot : Z) : prim_call unit :=
  prim_export [(snapshot =? 0, E_HANDLE)]
    (fun s =>
       let (t, freed) := Free kMagicVssSnapshot pushFails snapshot (vssTable s) in
       (with_snapshots t (vssManagers s) s, (match freed with Some _ => S_OK | None => E_HANDLE end, None))).

(** An export of one call of the manager that gives a Win32 code. *)
Definition manager_export (mount : Z) (checks : list (bool * Z)) (m : VSSManager -> eff disk (VSSManager * Z))
  : prim_call unit :=
  prim_export ((mount =? 0, E_HANDLE) :: checks)
    (with_com_scope (prim_mount mount None (fun id _ =>
       (let! dw := on_manager id m in
        eret (if negb (dw =? ERROR_SUCCESS) then hresult_from_win32 dw else S_OK, None))%eff))).

Definition LayerMountVssDeleteSnapshot (mount : Z) (id : option wstring) : prim_call unit :=
  manager_export mount [(is_empty_text id, E_INVALIDARG)] (DeleteSnapshot (text_of id)).

Definition LayerMountVssCleanupSnapshots (mount : Z) : prim_call unit :=
  manager_export mount [] CleanupNonPersistent.

(** What is stored in the caller's array of entries, whose buffers these are. *)
Definition public_snapshots (snapshots : list SnapshotInfo) (entries : option (list (option Z * option Z)))
    (capacity : Z) : Z * option SnapshotList :=
  let count := Z.of_nat (length snapshots) in
  let sized := {| entriesWritten := 0; entriesRequired := count mod 2 ^ 32; entriesFilled := [] |} in
  match entries with
  | None => (S_OK, Some sized)
  | Some buffers =>
      if capacity =? 0 then (S_OK, Some sized)
      else if capacity <? count then (hresult_from_win32 ERROR_MORE_DATA, Some sized)
      else (S_OK, Some {| entriesWritten := count mod 2 ^ 32; entriesRequired := count mod 2 ^ 32;
                          entriesFilled := zip_with ToPublicSnapshotInfo snapshots buffers |})
  end.

Definition LayerMountVssListSnapshots (mount : Z) (entries : option (list (option Z * option Z))) (capacity : Z)
  : prim_call SnapshotList :=
  prim_export [(mount =? 0, E_HANDLE)]
    (with_com_scope (prim_mount mount None (fun id _ =>
       (let! (snapshots, dw) := on_manager id (fun manager => let! listed := ListSnapshots in eret (manager, listed)) in
        if negb (dw =? ERROR_SUCCESS) then eret (hresult_from_win32 dw, None)
        else eret (public_snapshots snapshots entries capacity))%eff))).

(** [*outReachable]. *)
Definition LayerMountVssValidateSnapshotPath (mount : Z) (id : option wstring) (outReachable : bool) : prim_call bool :=
  prim_export [(mount =? 0, E_HANDLE); (is_empty_text id, E_INVALIDARG); (negb outReachable, E_POINTER)]
    (with_com_scope (prim_mount mount None (fun owner _ =>
       (let! reachable := on_manager owner (fun manager =>
          let! r := eread (fun d => ValidateSnapshotPath d (text_of id) manager) in eret (manager, r)) in
        eret match reachable with
             | Err dw => (hresult_from_win32 dw, None)
             | Ok reachable => (S_OK, Some reachable)
             end)%eff))).
End Snapshots.

(** ** Mount points *)
Section MountPoints.
Context `{W : Win32} `{J : Json} `{E : CacheEnv} `{P : Processes} `{H : !EntryHost} `{M : !MountHost}.
Context `{T : !Threads} `{R : !RulesFiles} `{A : !AbiHost} `{I : !ImageHost} `{V : !VhdHost} `{Q : !MountPointHost}.
(** The exception of a call whose model does not name it. *)
Context (thrown : abi_exception).

Definition LayerMountPointIsDriveLetter (mountPoint : option wstring) (outIsDriveLetter : bool) : abi_call bool :=
  export [(negb outIsDriveLetter, E_POINTER)] (eret (S_OK, Some (IsDriveLetterMountPoint (text_of mountPoint)))).

(** The prep is stored before the status is looked at. *)
Definition LayerMountPointPrepareDirectory (mountPoint : option wstring) (outPrep : bool) : abi_call LM_MOUNT_POINT_PREP :=
  export [(negb outPrep, E_POINTER)]
    (let! status := abi_io (ValidateAndPrepareDirectoryMountPoint (text_of mountPoint)) in
     match status with
     | None => throw_abi thrown
     | Some status => eret (hresult_of status, Some empty_prep)
     end)%eff.

Definition LayerMountPointCaptureIdentity (mountPoint : option wstring) (prep : option LM_MOUNT_POINT_PREP)
  : abi_call LM_MOUNT_POINT_PREP :=
  export [(is_null prep, E_POINTER)]
    (let! captured := abi_io (CaptureMountPointIdentity (text_of mountPoint) (default empty_prep prep)) in
     eret (S_OK, Some captured))%eff.

Definition LayerMountPointReleaseIfSafe (mountPoint : option wstring) (prep : option LM_MOUNT_POINT_PREP) : abi_call unit :=
  export [(is_null prep, E_POINTER)]
    (let! win32Err := abi_io (RemoveOwnedMountPointDirectoryIfSafe (text_of mountPoint) (default empty_prep prep)) in
     eret (hresult_from_win32 win32Err, None))%eff.
End MountPoints.
