(* ===== verification/AbiPrimitives.v ===== *)
(** * What the exports on disks and snapshots promise

    The time of a snapshot survives its text; every export on snapshots leaves
    the COM of its thread as it found it; the open handles of virtual disks are
    those of the holders behind the handles of the interface; and a pointer to
    a manager outlives it only when a mount is destroyed before its disks are
    closed. *)
From S2P Require Import TrackerFacts AbiContract.
From S2P Require Export VssFacts AbiVss.
Open Scope Z_scope.

(** ** Times *)

(** A text of so many digits, with its value. *)
Definition reads_as (width : nat) (n : Z) (text : wstring) : bool :=
  (length text =? width)%nat && forallb (fun c => (48 <=? c) && (c <=? 57)) text && (digits_value 0 text =? n).

Lemma take_digits_all text rest :
  forallb (fun c => (48 <=? c) && (c <=? 57)) text = true -> take_digits (length text) (text ++ rest) = (text, rest).
Proof.
  induction text as [|c text IH]; cbn; [done|]. intros [Hc Ht]%andb_true_iff. rewrite Hc. by rewrite IH.
Qed.

(** The texts of a whole range, by evaluation. *)
Fixpoint all_from (P : Z -> bool) (lo : Z) (n : nat) : bool :=
  match n with O => true | S n => P lo && all_from P (lo + 1) n end.

Lemma checked_range (P : Z -> bool) lo n x : all_from P lo n = true -> lo <= x < lo + Z.of_nat n -> P x = true.
Proof.
  revert lo. induction n as [|n IH]; intros lo; [lia|]. intros [Hlo Hn]%andb_true_iff Hx.
  destruct (Z.eq_dec x lo) as [->|Hne]; [done|]. apply (IH (lo + 1)); [done|lia].
Qed.

Lemma padded_reads n : 0 <= n < 100 -> reads_as 2 n (padded 2 n) = true.
Proof. intros Hn. apply (checked_range (fun n => reads_as 2 n (padded 2 n)) 0 (Z.to_nat 100)); [vm_compute; reflexivity|lia]. Qed.

Lemma year_reads y : 1000 <= y < 10000 -> reads_as 4 y (L (pretty y)) = true.
Proof. intros Hy. apply (checked_range (fun y => reads_as 4 y (L (pretty y))) 1000 (Z.to_nat 9000)); [vm_compute; reflexivity|lia]. Qed.

Lemma scan_int_reads width n text rest :
  reads_as (S width) n text = true -> scan_int (S width) (text ++ rest) = Some (n, rest).
Proof.
  intros [[Hl%Nat.eqb_eq Hd]%andb_true_iff Hv%Z.eqb_eq]%andb_true_iff.
  pose proof (take_digits_all text rest Hd) as Ht. rewrite Hl in Ht. destruct text as [|c text]; [done|].
  assert (Hc : c = 48 \/ c = 49 \/ c = 50 \/ c = 51 \/ c = 52 \/ c = 53 \/ c = 54 \/ c = 55 \/ c = 56 \/ c = 57)
    by (cbn in Hd; lia).
  assert (Hs : scan_int (S width) ((c :: text) ++ rest) =
    match take_digits (S width) ((c :: text) ++ rest) with
    | ([], _) => None
    | (ds, rest) => Some (digits_value 0 ds, rest)
    end) by (destruct_or! Hc; subst c; reflexivity).
  by rewrite Hs, Ht, Hv.
Qed.

Lemma scan_padded n rest : 0 <= n < 100 -> scan_int 2 (padded 2 n ++ rest) = Some (n, rest).
Proof. intros Hn. apply (scan_int_reads 1), padded_reads, Hn. Qed.

Lemma scan_year y rest : 1000 <= y < 10000 -> scan_int 4 (L (pretty y) ++ rest) = Some (y, rest).
Proof. intros Hy. apply (scan_int_reads 3), year_reads, Hy. Qed.

Section Times.
Context `{W : Win32} `{X : !VssHost}.

(** The documented calendar: the fields of a time of the system are those of a
    date from 1601 to 30828, and up to the year 30827 the time of the fields is
    the time in whole seconds. *)
Class CalendarLaws : Prop := {
  calendar_fields ft st : FileTimeToSystemTime ft = Some st ->
    0 <= ft < 2 ^ 63 /\ 1601 <= wYear st <= 30828 /\ 1 <= wMonth st <= 12 /\ 1 <= wDay st <= 31 /\
    0 <= wHour st < 24 /\ 0 <= wMinute st < 60 /\ 0 <= wSecond st < 60;
  calendar_back ft st : FileTimeToSystemTime ft = Some st -> wYear st <= 30827 ->
    SystemTimeToFileTime st = Some (ft - ft mod ticks_per_second)
}.

Lemma scan_timestamp_iso st :
  1000 <= wYear st < 10000 -> 0 <= wMonth st < 100 -> 0 <= wDay st < 100 -> 0 <= wHour st < 100 ->
  0 <= wMinute st < 100 -> 0 <= wSecond st < 100 -> scan_timestamp (iso_time st) = Some st.
Proof.
  intros Hy Hm Hd Hh Hi Hs. unfold scan_timestamp, iso_time.
  rewrite scan_year by done. change (L "-") with [45]. change (L "T") with [84]. change (L ":") with [58].
  repeat (cbn [mbind option_bind app scan_char Z.eqb Pos.eqb]; rewrite scan_padded by done).
  cbn [mbind option_bind]. cbv zeta. rewrite !Z.mod_small by lia. by destruct st.
Qed.

(** A year of five digits is cut after four, and no dash follows. *)
Definition cut_year (y : Z) : bool :=
  match L (pretty y) with
  | [a; b; c; d; e] => reads_as 4 (digits_value 0 [a; b; c; d]) [a; b; c; d] && (48 <=? e) && (e <=? 57)
  | _ => false
  end.

Lemma scan_timestamp_long_year st : 10000 <= wYear st <= 30828 -> scan_timestamp (iso_time st) = None.
Proof.
  intros Hy. assert (Hc : cut_year (wYear st) = true).
  { apply (checked_range cut_year 10000 (Z.to_nat 20829)); [vm_compute; reflexivity|lia]. }
  unfold cut_year in Hc. unfold scan_timestamp, iso_time. destruct (L (pretty (wYear st))) as [|a [|b [|c [|d [|e [|]]]]]]; try done.
  apply andb_true_iff in Hc as [[Hr He]%andb_true_iff He']. change ([a; b; c; d; e]) with ([a; b; c; d] ++ [e]).
  rewrite <- app_assoc. rewrite (scan_int_reads 3 _ _ _ Hr). cbn [mbind option_bind app scan_char].
  by rewrite (proj2 (Z.eqb_neq e 45)) by lia.
Qed.

Lemma digits_no_nul n : 0 <= n -> Forall (fun c => c <> 0) (L (pretty n)).
Proof. intros Hn. eapply Forall_impl; [by apply pretty_digits|]. unfold is_digit. cbn. lia. Qed.

Lemma padded_no_nul width n : 0 <= n -> Forall (fun c => c <> 0) (padded width n).
Proof.
  intros Hn. apply Forall_app. split; [|by apply digits_no_nul]. by apply Forall_replicate.
Qed.

Lemma iso_time_c_str st :
  0 <= wYear st -> 0 <= wMonth st -> 0 <= wDay st -> 0 <= wHour st -> 0 <= wMinute st -> 0 <= wSecond st ->
  c_str (iso_time st) = iso_time st.
Proof.
  intros Hy Hm Hd Hh Hi Hs. unfold c_str. rewrite (proj2 (wfind_None _ _)); [done|]. intros H0.
  assert (Hall : Forall (fun c => c <> 0) (iso_time st)).
  { unfold iso_time. rewrite !Forall_app. split_and!; first [by apply digits_no_nul | by apply padded_no_nul | by (constructor; [|constructor])]. }
  rewrite Forall_forall in Hall. by apply (Hall 0).
Qed.

(** C37: the time of a snapshot, which the manager gives as a text and the
    interface reads back, is the time that the service gave, in whole seconds,
    up to the year 9999.  From the year 10000 on the interface gives 0, as it
    does for a time that the calendar refuses. *)
Theorem snapshot_time_reads_back `{CL : !CalendarLaws} ts :
  ParseIso8601UtcToFiletime (FormatVssTimestamp ts) =
    match FileTimeToSystemTime (ts mod 2 ^ 64) with
    | Some st => if wYear st <? 10000 then ts mod 2 ^ 64 - (ts mod 2 ^ 64) mod ticks_per_second else 0
    | None => 0
    end.
Proof.
  unfold FormatVssTimestamp. destruct (FileTimeToSystemTime (ts mod 2 ^ 64)) as [st|] eqn:Et; [|reflexivity].
  destruct (calendar_fields _ _ Et) as (Ht & Hy & Hm & Hd & Hh & Hi & Hs).
  unfold ParseIso8601UtcToFiletime. rewrite iso_time_c_str by lia. destruct (Z.ltb_spec (wYear st) 10000).
  - rewrite scan_timestamp_iso by lia. by rewrite (calendar_back _ _ Et) by lia.
  - by rewrite scan_timestamp_long_year by lia.
Qed.
End Times.

(** ** The handles of virtual disks *)
Section Disks.
Context `{W : Win32} `{J : Json} `{E : CacheEnv} `{P : Processes} `{H : !EntryHost} `{M : !MountHost}.
Context `{T : !Threads} `{R : !RulesFiles} `{A : !AbiHost} `{I : !ImageHost} `{V : !VhdHost} `{X : !VssHost}.
Context `{N : !NamedMutexes} `{HL : !HandleLaws}.
Context (pushFails : bool) (thrown : abi_exception).
Implicit Types (s : PrimitiveState).

(** A close takes its handle off in any place, and the release of a component
    of a snapshot opens and closes no disk. *)
Class HolderLaws : Prop := {
  close_any h l d : held d ≡ₚ h :: l -> held (fst (CloseVhdHandle h d)) ≡ₚ l;
  component_held b : preserves held (ReleaseBackup b)
}.
Context `{DL : !HolderLaws}.

(** The handles that the holders own. *)
Definition open_disks (heap : gmap nat VhdHolder) : list vhd_handle := omap (fun kv => openDisk (snd kv)) (map_to_list heap).

Lemma open_disks_delete heap did holder :
  heap !! did = Some holder -> open_disks heap ≡ₚ option_list (openDisk holder) ++ open_disks (delete did heap).
Proof.
  intros Hd. unfold open_disks. rewrite <- (map_to_list_delete heap did holder Hd). cbn. by destruct (openDisk holder).
Qed.

Lemma open_disks_insert heap did holder :
  open_disks (<[did := holder]> heap) ≡ₚ option_list (openDisk holder) ++ open_disks (delete did heap).
Proof.
  rewrite (open_disks_delete _ did holder) by (by rewrite lookup_insert_eq). by rewrite delete_insert_eq.
Qed.

Lemma open_disks_fmap (f : VhdHolder -> VhdHolder) heap :
  (forall holder, openDisk (f holder) = openDisk holder) -> open_disks (f <$> heap) = open_disks heap.
Proof.
  intros Hf. unfold open_disks. rewrite map_to_list_fmap. induction (map_to_list heap) as [|[k h] l IH]; [done|].
  cbn. rewrite Hf. by destruct (openDisk h); rewrite IH.
Qed.

(** The handles that are open are those of the holders and these others, and
    each holder is behind one handle of the interface.  [sound] asks in
    addition that every holder points to a manager, and that none was used
    after its end. *)
Record disks_ok (sound : bool) (others : list vhd_handle) s : Prop := {
  disks_named : exists disks, table_holds kMagicVhd (vhdTable s) disks /\ exactly disks (vhdHeap s);
  disks_open : held (abiDisk (abi s)) ≡ₚ open_disks (vhdHeap s) ++ others;
  disks_managed : sound = true -> map_Forall (fun _ holder => is_Some (manager holder)) (vhdHeap s) /\ freedManagerUsed s = false
}.

Context (sound : bool) (others : list vhd_handle).
Abbreviation ok := (disks_ok sound others).

(** A part that keeps the invariant. *)
Definition keeps {B} (m : eff PrimitiveState B) : Prop := forall s, ok s -> ok (fst (m s)).

Lemma disks_ret {B} (b : B) : keeps (eret b).
Proof. by intros s. Qed.

Lemma disks_read {B} (f : PrimitiveState -> B) : keeps (eread f).
Proof. by intros s. Qed.

Lemma disks_bind {B C} (m : eff PrimitiveState B) (k : B -> eff PrimitiveState C) :
  keeps m -> (forall b, keeps (k b)) -> keeps (ebind m k).
Proof. intros Hm Hk s Hs. unfold ebind. specialize (Hm s Hs). destruct (m s) as [s' b]. by apply Hk. Qed.

(** The rest of the interface, when it leaves the disks alone. *)
Lemma ok_abi a s : held (abiDisk a) = held (abiDisk (abi s)) -> ok s -> ok (with_abi a s).
Proof. intros Ha [Hn Ho Hm]. split; [done| |done]. cbn. by rewrite Ha. Qed.

Lemma keeps_abi {B} (m : eff AbiState B) : (forall a, held (abiDisk (fst (m a))) = held (abiDisk a)) -> keeps (on_abi m).
Proof. intros Hm s Hs. unfold on_abi. specialize (Hm (abi s)). destruct (m (abi s)) as [a b]. by apply ok_abi. Qed.

Lemma keeps_io {B} (m : eff disk B) : preserves held m -> keeps (prim_io m).
Proof.
  intros Hm. apply keeps_abi. intros a. unfold abi_io. specialize (Hm (abiDisk a)). by destruct (m (abiDisk a)).
Qed.

Lemma keeps_error hr message : keeps (prim_error hr message).
Proof. by apply keeps_abi. Qed.

Lemma keeps_throw {B} : keeps (prim_throw (B := B) thrown).
Proof. apply keeps_abi. intros a. unfold throw_abi. by destruct (LM_ABI_END thrown (errorTls a)). Qed.

Lemma keeps_export {B} checks (body : prim_call B) : keeps body -> keeps (prim_export checks body).
Proof.
  intros Hb s Hs. unfold prim_export.
  assert (Hs' : ok (with_abi (with_tls ClearFillFailure (abi s)) s)) by (by apply ok_abi).
  destruct (first_refusal checks); [done|]. by apply Hb.
Qed.

Lemma keeps_mount {B} mount unresolved (body : nat -> LayerMountHolder -> prim_call B) :
  (forall id holder, keeps (body id holder)) -> keeps (prim_mount mount unresolved body).
Proof. intros Hb s Hs. unfold prim_mount. destruct (resolve_mount mount (abi s)) as [[id holder]|]; [by apply Hb|done]. Qed.

Lemma keeps_Vhd {B} id holder (body : prim_call B) : keeps body -> keeps (Vhd thrown id holder body).
Proof using HL.
  intros Hb s Hs. unfold Vhd. case_bool_decide; [by apply Hb|]. unfold ebind.
  assert (Hq : preserves held (NewVHDLayerManager (manager_directory holder))).
  { unfold NewVHDLayerManager. apply preserves_bind; [apply directories_held|]. intros ?. apply preserves_ret. }
  pose proof (keeps_io _ Hq s Hs) as Hs1. destruct (prim_io _ s) as [s1 [|]]; [|by apply keeps_throw].
  apply Hb. by destruct Hs1.
Qed.

(** *** A holder *)

Lemma magic_vhd_ok : 0 < kMagicVhd < 2 ^ 16.
Proof. unfold kMagicVhd. lia. Qed.

Lemma keeps_new_disk id config exhausted : keeps (new_disk id config exhausted).
Proof.
  intros s [(disks & Ht & He) Ho Hm]. unfold new_disk. set (did := fresh (dom (vhdHeap s))).
  assert (Hd : vhdHeap s !! did = None) by (apply not_elem_of_dom, is_fresh).
  pose proof (holds_Allocate _ magic_vhd_ok _ _ did Ht) as Ha. destruct (Allocate kMagicVhd (Some did) (vhdTable s)) as [t v].
  destruct Ha as [[-> Ht']|(Hv & Hnew & Ht')].
  - apply disks_bind; [apply keeps_error|intros; apply disks_ret|]. split; [by exists disks|done|done].
  - rewrite (proj2 (Z.eqb_neq v 0)) by done. split; cbn.
    + eexists. split; [exact Ht'|]. by apply exactly_insert.
    + rewrite open_disks_insert, delete_id by done. exact Ho.
    + intros Hs. destruct (Hm Hs) as [Hall Hf]. split; [|done]. apply map_Forall_insert_2; [by eexists|done].
Qed.

(** What a call through the pointer of a holder leaves. *)
Lemma through_manager_ok {B} did holder (m : eff disk B) s :
  vhdHeap s !! did = Some holder -> preserves held m -> ok s ->
  let s' := fst (through_manager holder m s) in ok s' /\ vhdHeap s' = vhdHeap s.
Proof.
  intros Hd Hm Hok. cbv zeta. unfold through_manager.
  set (s1 := with_freed_used (freedManagerUsed s || is_null (manager holder)) s).
  assert (Hok1 : ok s1).
  { destruct Hok as [Hn Ho Hs]. split; [done|done|]. intros Hsound. destruct (Hs Hsound) as [Hall Hf]. split; [done|].
    cbn. rewrite Hf. destruct (Hall did holder Hd) as [id Hid]. by rewrite Hid. }
  split; [by apply keeps_io|]. unfold prim_io, on_abi. by destruct (abi_io m (abi s1)).
Qed.

(** A holder that changes its attach, whose former handle closes. *)
Lemma reattached_ok did holder (open : option vhd_handle) path s :
  vhdHeap s !! did = Some holder ->
  (exists disks, table_holds kMagicVhd (vhdTable s) disks /\ exactly disks (vhdHeap s)) ->
  held (abiDisk (abi s)) ≡ₚ option_list open ++ open_disks (vhdHeap s) ++ others ->
  (sound = true -> map_Forall (fun _ holder => is_Some (manager holder)) (vhdHeap s) /\ freedManagerUsed s = false) ->
  ok (fst ((do! set_disk did (with_attach open path holder) in close_open (openDisk holder))%eff s)).
Proof using DL.
  intros Hd (disks & Ht & He) Hh Hm. unfold ebind. cbn [set_disk]. set (s1 := update_disk did (with_attach open path holder) s).
  rewrite (open_disks_delete _ did holder Hd) in Hh.
  assert (Hn : exists disks, table_holds kMagicVhd (vhdTable s1) disks /\ exactly disks (vhdHeap s1)).
  { exists disks. split; [done|]. apply exactly_insert_old; [by exists holder|done]. }
  assert (Hg : sound = true -> map_Forall (fun _ holder => is_Some (manager holder)) (vhdHeap s1) /\ freedManagerUsed s1 = false).
  { intros Hs. destruct (Hm Hs) as [Hall Hf]. split; [|done]. apply map_Forall_insert_2; [exact (Hall did holder Hd)|done]. }
  assert (Hopen : option_list (openDisk holder) ++ open_disks (vhdHeap s1) ++ others ≡ₚ held (abiDisk (abi s))).
  { cbn [s1 update_disk with_disks vhdHeap]. rewrite Hh, open_disks_insert. cbn. rewrite <- !app_assoc.
    rewrite !(assoc_L (++)). do 2 f_equiv. apply Permutation_app_comm. }
  destruct (openDisk holder) as [h|]; cbn [close_open].
  - unfold prim_io, on_abi, abi_io, close. pose proof (close_any h _ _ (symmetry Hopen)) as Hc.
    change (abiDisk (abi s1)) with (abiDisk (abi s)). destruct (CloseVhdHandle h (abiDisk (abi s))) as [d u].
    split; [done|exact Hc|done].
  - split; [done| |done]. change (abiDisk (abi (fst (eret tt s1)))) with (abiDisk (abi s)). symmetry. exact Hopen.
Qed.

(** *** The exports *)

Lemma keeps_disk_export {B} vhd (body : nat -> VhdHolder -> prim_call B) :
  (forall did holder s, vhdHeap s !! did = Some holder -> ok s -> ok (fst (body did holder s))) ->
  keeps (disk_export vhd body).
Proof.
  intros Hb. apply keeps_export. intros s Hs. unfold resolve_disk.
  destruct (Resolve kMagicVhd vhd (vhdTable s)) as [did|]; [|done]. cbn.
  destruct (vhdHeap s !! did) as [holder|] eqn:Hd; [|done]. by apply Hb.
Qed.

Create HintDb disks.
#[local] Hint Resolve disks_ret disks_read keeps_error keeps_throw keeps_new_disk : disks.
#[local] Hint Extern 2 (keeps (ebind _ _)) => apply disks_bind; [|intros ?] : disks.
#[local] Hint Extern 2 (keeps (prim_io _)) => apply keeps_io : disks.
#[local] Hint Extern 2 (keeps (prim_export _ _)) => apply keeps_export : disks.
#[local] Hint Extern 2 (keeps (prim_mount _ _ _)) => apply keeps_mount; intros ? ? : disks.
#[local] Hint Extern 2 (keeps (Vhd _ _ _ _)) => apply keeps_Vhd : disks.
#[local] Hint Extern 3 (keeps (match ?x with _ => _ end)) => destruct x : disks.

Ltac by_parts := intros; eauto 60 with disks.

(** The operations that leave no handle, whatever the others are given. *)
Lemma quiet_operations p q :
  preserves held (CreateDifferencingVHD p q) /\ preserves held (DetachVHD p) /\ preserves held (MergeVHD p) /\
  (forall dir capacity, preserves held (ImportDirectory dir p q capacity)) /\
  (forall dir, preserves held (ExportToDirectory dir p q)).
Proof using HL.
  pose proof (fun dir => operations_quiet dir p q 0 FixedAllocation (transient ReadOnly)) as Hq.
  split_and!; intros; by apply Hq || apply (Hq []).
Qed.

Lemma create_of_kind_held config create : create_of_kind config = Some create -> preserves held create.
Proof using HL.
  unfold create_of_kind. destruct (_ =? _); [intros [= <-]; apply CreateVHD_quiet|].
  destruct (_ =? _); [intros [= <-]; apply CreateVHD_quiet|].
  destruct (_ =? _); [intros [= <-]; apply quiet_operations|done].
Qed.

Lemma keeps_create mount config out : keeps (LayerMountVhdCreate thrown mount config out).
Proof using HL.
  unfold LayerMountVhdCreate. destruct config as [config|]; [|by_parts].
  apply keeps_export, keeps_mount. intros id holder. apply keeps_Vhd.
  destruct (create_of_kind config) as [create|] eqn:Ec; [|by_parts]. apply create_of_kind_held in Ec. by_parts.
Qed.

Lemma keeps_open mount config out : keeps (LayerMountVhdOpen thrown mount config out).
Proof using HL. unfold LayerMountVhdOpen. destruct config as [config|]; by_parts. Qed.

Lemma keeps_import mount dir vhd size : keeps (LayerMountVhdImport thrown mount dir vhd size).
Proof using HL.
  unfold LayerMountVhdImport. apply keeps_export, keeps_mount. intros id holder. apply keeps_Vhd. cbv zeta.
  apply disks_bind; [apply keeps_io|by_parts].
  apply quiet_operations.
Qed.

Lemma keeps_export_disk mount vhd dir : keeps (LayerMountVhdExport thrown mount vhd dir).
Proof using HL.
  unfold LayerMountVhdExport. apply keeps_export, keeps_mount. intros id holder. apply keeps_Vhd.
  apply disks_bind; [apply keeps_io|cbv zeta; by_parts].
  apply quiet_operations.
Qed.

Lemma keeps_attach vhd buffer : keeps (LayerMountVhdAttach vhd buffer).
Proof using DL.
  apply keeps_disk_export. intros did holder s Hd Hs. destruct (negb _); [done|].
  unfold ebind at 1, through_manager. set (s1 := with_freed_used _ s).
  assert (Hm1 : sound = true -> map_Forall (fun _ holder => is_Some (manager holder)) (vhdHeap s1) /\ freedManagerUsed s1 = false).
  { intros Hsound. destruct (disks_managed _ _ _ Hs Hsound) as [Hall Hf]. split; [done|]. cbn. rewrite Hf.
    destruct (Hall did holder Hd) as [id Hid]. cbn in Hid. by rewrite Hid. }
  unfold prim_io, on_abi, abi_io. pose proof (AttachVHD_held (holderPath holder) (holderOptions holder) (abiDisk (abi s1))) as Ha.
  destruct (AttachVHD _ _ _) as [d [a|e]].
  - set (s2 := with_abi (with_abi_disk d (abi s1)) s1).
    assert (Hok : ok (fst ((do! set_disk did (with_attach (Some (attachedHandle a)) (physicalPath a) holder) in
                            close_open (openDisk holder))%eff s2))).
    { apply reattached_ok; [done|by destruct Hs| |done]. cbn. rewrite Ha. constructor. by destruct Hs. }
    unfold ebind in *. cbn [set_disk] in *. destruct (close_open (openDisk holder) _) as [s3 u]. exact Hok.
  - destruct Hs as [Hn Ho Hm]. split; [done| |done]. cbn. by rewrite Ha.
Qed.

Lemma keeps_detach vhd : keeps (LayerMountVhdDetach vhd).
Proof using DL.
  apply keeps_disk_export. intros did holder s Hd Hs.
  set (m := match openDisk holder with Some h => DetachHandle h | None => DetachVHD (holderPath holder) end).
  assert (Hm : preserves held m).
  { subst m. destruct (openDisk holder); [apply detach_handle_quiet|].
    apply (quiet_operations _ []). }
  unfold ebind at 1. destruct (through_manager_ok did holder m s Hd Hm Hs) as [Hs1 Hh].
  destruct (through_manager holder m s) as [s1 dw]. cbn [fst] in *. cbv zeta. destruct (negb _ && _); [done|].
  rewrite <- Hh in Hd. assert (Hok : ok (fst ((do! set_disk did (with_attach None [] holder) in close_open (openDisk holder))%eff s1))).
  { apply reattached_ok; [done|by destruct Hs1| |by destruct Hs1]. by destruct Hs1. }
  unfold ebind in *. cbn [set_disk] in *. by destruct (close_open (openDisk holder) _) as [s3 u].
Qed.

Lemma keeps_merge vhd : keeps (LayerMountVhdMerge vhd).
Proof using HL.
  apply keeps_disk_export. intros did holder s Hd Hs. unfold ebind.
  assert (Hm : preserves held (MergeVHD (holderPath holder)))
    by apply (quiet_operations _ []).
  destruct (through_manager_ok did holder _ s Hd Hm Hs) as [Hs1 _].
  by destruct (through_manager holder (MergeVHD (holderPath holder)) s).
Qed.

Lemma keeps_volume vhd buffer : keeps (LayerMountVhdGetVolumeGuid vhd buffer).
Proof.
  apply keeps_disk_export. intros did holder s _ Hs. destruct (openDisk holder) as [h|].
  - unfold ebind, eread. destruct (GetVolumeGuidForVHD _ h) as [err guid]. destruct (negb _); [done|].
    by destruct (EmitWString guid buffer) as [[hr required] stored].
  - unfold ebind. pose proof (keeps_error E_ILLEGAL_METHOD_CALL
      (L "LayerMountVhdGetVolumeGuid: must be called after LayerMountVhdAttach.") s Hs) as He. by destruct (prim_error _ _ s).
Qed.

Lemma keeps_close vhd : is_uint64 vhd -> keeps (LayerMountVhdClose pushFails vhd).
Proof using DL.
  intros Hv. apply keeps_export. intros s [(disks & Ht & He) Ho Hm].
  pose proof (holds_Free _ magic_vhd_ok _ _ pushFails _ Ht Hv) as Hf.
  destruct (Free kMagicVhd pushFails vhd (vhdTable s)) as [t freed]. destruct Hf as [-> Ht'].
  destruct (disks !! vhd) as [did|] eqn:Ed.
  - destruct (proj2 (proj1 He did)) as [holder Hd]; [by exists vhd|]. rewrite Hd. cbn [mbind option_bind].
    rewrite (open_disks_delete _ did holder Hd), <- app_assoc in Ho.
    set (s1 := with_disks t (delete did (vhdHeap s)) s).
    assert (Hn : exists disks, table_holds kMagicVhd (vhdTable s1) disks /\ exactly disks (vhdHeap s1)).
    { exists (delete vhd disks). split; [done|]. by apply exactly_delete. }
    assert (Hg : sound = true -> map_Forall (fun _ holder => is_Some (manager holder)) (vhdHeap s1) /\ freedManagerUsed s1 = false).
    { intros Hs. destruct (Hm Hs) as [Hall Hf]. split; [|done]. by apply map_Forall_delete. }
    destruct (openDisk holder) as [h|]; cbn [close_open].
    + unfold ebind, eret, prim_io, on_abi, abi_io, close. pose proof (close_any h _ _ Ho) as Hc.
      change (abiDisk (abi s1)) with (abiDisk (abi s)). destruct (CloseVhdHandle h (abiDisk (abi s))) as [d u]. by split.
    + split; [done|exact Ho|done].
  - split; [|done|done]. exists disks. split; [|done]. by rewrite delete_id in Ht'.
Qed.

(** *** The end of a mount *)

Lemma release_held_quiet held0 : preserves held (release_held held0).
Proof using DL. unfold release_held. destruct (held0 ≫= heldBackup); [apply component_held|apply preserves_ret]. Qed.

Lemma DestroyVSSManager_quiet snapshots : preserves held (DestroyVSSManager snapshots).
Proof using DL.
  induction snapshots as [|[k h] rest IH]; [apply preserves_ret|]. cbn [DestroyVSSManager].
  apply preserves_bind; [apply release_held_quiet|by intros ?].
Qed.

Lemma close_lock_quiet lock : preserves held (close_lock lock).
Proof using HL. unfold close_lock. destruct lock; [apply file_closed_held|apply preserves_ret]. Qed.

Lemma destroy_held handle a : held (abiDisk (fst (AbiCore.LayerMountDestroy pushFails handle a))) = held (abiDisk a).
Proof using HL.
  unfold AbiCore.LayerMountDestroy, export. destruct (first_refusal _); [done|]. unfold with_mount.
  destruct (resolve_mount handle _) as [[id holder]|]; [|done]. destruct (hostAttached holder); [done|].
  destruct (negb _); [done|]. destruct (Free kMagicLayerMount pushFails handle _) as [t [freed|]]; [|done].
  unfold release_mount. destruct (mount_referenced freed _); [done|]. destruct (mountHeap _ !! freed) as [h|]; [|done].
  unfold close_work_directory, abi_io.
  assert (Hq : preserves held (do! close_lock (upperLock (workDirectory h)) in close_lock (workDirectoryLock (workDirectory h)))%eff)
    by (apply preserves_bind; [apply close_lock_quiet|intros ?; apply close_lock_quiet]).
  specialize (Hq (abiDisk a)). cbn [with_mounts with_tls abiDisk fst]. by destruct (ebind _ _ (abiDisk a)) as [d u].
Qed.

Definition dangle (id : nat) (holder : VhdHolder) : VhdHolder :=
  if bool_decide (manager holder = Some id) then {|
    manager := None; openDisk := openDisk holder; holderPath := holderPath holder;
    attachedPhysicalPath := attachedPhysicalPath holder; holderOptions := holderOptions holder |}
  else holder.

(** The disks of the mount are closed before it. *)
Definition no_disks_of (id : nat) s : Prop := map_Forall (fun _ holder => manager holder <> Some id) (vhdHeap s).

Lemma free_managers_ok id s : (sound = true -> no_disks_of id s) -> ok s -> ok (fst (free_managers id s)).
Proof using DL.
  intros Hno Hs. unfold free_managers, eread. unfold ebind.
  pose proof (keeps_io _ (DestroyVSSManager_quiet (default [] (vssManagers s !! id))) s Hs) as Hs1.
  assert (Hheap : vhdHeap (fst (prim_io (DestroyVSSManager (default [] (vssManagers s !! id))) s)) = vhdHeap s)
    by (unfold prim_io, on_abi; by destruct (abi_io _ (abi s))).
  destruct (prim_io _ s) as [s1 u]. cbn [fst] in *. fold (dangle id). destruct Hs1 as [(disks & Ht & He) Ho Hm].
  split; cbn.
  - exists disks. split; [done|]. split; [|apply He]. intros did. rewrite lookup_fmap, fmap_is_Some. apply He.
  - rewrite open_disks_fmap; [done|]. intros holder. unfold dangle. by case_bool_decide.
  - intros Hsound. destruct (Hm Hsound) as [Hall Hf]. split; [|done]. specialize (Hno Hsound). unfold no_disks_of in Hno.
    rewrite <- Hheap in Hno. intros did holder'. rewrite lookup_fmap. intros (holder & Hd & ->)%fmap_Some.
    unfold dangle. rewrite bool_decide_false by (exact (Hno did holder Hd)). exact (Hall did holder Hd).
Qed.

Lemma destroy_ok handle s :
  (sound = true -> forall id, freed_by_destroy pushFails handle s = Some id -> no_disks_of id s) ->
  ok s -> ok (fst (LayerMountDestroy pushFails handle s)).
Proof using DL.
  intros Hno Hs. unfold LayerMountDestroy, ebind.
  set (free := match freed_by_destroy pushFails handle s with Some id => free_managers id | None => eret tt end).
  assert (Hs1 : ok (fst (free s))).
  { subst free. destruct (freed_by_destroy pushFails handle s) as [id|]; [|done]. apply free_managers_ok; [|done].
    intros Hsound. by apply Hno. }
  destruct (free s) as [s1 u]. apply keeps_abi; [apply destroy_held|done].
Qed.

(** *** Sequences *)

Inductive vhd_op :=
| OpVhdCreate (mount : Z) (config : option LM_VHD_CONFIG) (out : bool)
| OpVhdOpen (mount : Z) (config : option LM_VHD_CONFIG) (out : bool)
| OpVhdAttach (vhd : Z) (buffer : option Z)
| OpVhdDetach (vhd : Z)
| OpVhdMerge (vhd : Z)
| OpVhdImport (mount : Z) (dir vhd : option wstring) (size : Z)
| OpVhdExport (mount : Z) (vhd dir : option wstring)
| OpVhdClose (vhd : Z)
| OpVhdVolume (vhd : Z) (buffer : option Z)
| OpVhdMountDestroy (mount : Z).

Definition hr_of {B} (m : prim_call B) : eff PrimitiveState Z := (let! r := m in eret (fst r))%eff.

Definition run_vhd_op (op : vhd_op) : eff PrimitiveState Z :=
  match op with
  | OpVhdCreate mount config out => hr_of (LayerMountVhdCreate thrown mount config out)
  | OpVhdOpen mount config out => hr_of (LayerMountVhdOpen thrown mount config out)
  | OpVhdAttach vhd buffer => hr_of (LayerMountVhdAttach vhd buffer)
  | OpVhdDetach vhd => hr_of (LayerMountVhdDetach vhd)
  | OpVhdMerge vhd => hr_of (LayerMountVhdMerge vhd)
  | OpVhdImport mount dir vhd size => hr_of (LayerMountVhdImport thrown mount dir vhd size)
  | OpVhdExport mount vhd dir => hr_of (LayerMountVhdExport thrown mount vhd dir)
  | OpVhdClose vhd => hr_of (LayerMountVhdClose pushFails vhd)
  | OpVhdVolume vhd buffer => hr_of (LayerMountVhdGetVolumeGuid vhd buffer)
  | OpVhdMountDestroy mount => hr_of (LayerMountDestroy pushFails mount)
  end.

Definition vhd_op_ok (op : vhd_op) : Prop := match op with OpVhdClose vhd => is_uint64 vhd | _ => True end.

(** A caller that closes the disks of a mount before it destroys the mount. *)
Definition disks_closed_first (op : vhd_op) s : Prop :=
  match op with
  | OpVhdMountDestroy mount => forall id, freed_by_destroy pushFails mount s = Some id -> no_disks_of id s
  | _ => True
  end.
End Disks.

Section Sequences.
Context `{W : Win32} `{J : Json} `{E : CacheEnv} `{P : Processes} `{H : !EntryHost} `{M : !MountHost}.
Context `{T : !Threads} `{R : !RulesFiles} `{A : !AbiHost} `{I : !ImageHost} `{V : !VhdHost} `{X : !VssHost}.
Context `{N : !NamedMutexes} `{HL : !HandleLaws} `{DL : !HolderLaws}.
Context (pushFails : bool) (thrown : abi_exception).
Implicit Types (s : PrimitiveState).

(** One export on disks, the end of a mount, or another export: one that opens
    and closes no virtual disk, whatever else it does.  [sound] is for callers
    that close disks first. *)
Inductive vhd_step (sound : bool) : PrimitiveState -> PrimitiveState -> Prop :=
| StepVhd op s : vhd_op_ok op -> (sound = true -> disks_closed_first pushFails op s) ->
    vhd_step sound s (fst (run_vhd_op pushFails thrown op s))
| StepOther a s : held (abiDisk a) = held (abiDisk (abi s)) -> vhd_step sound s (with_abi a s).

Lemma hr_of_state {B} (m : prim_call B) s : fst (hr_of m s) = fst (m s).
Proof. unfold hr_of, ebind. by destruct (m s). Qed.

Lemma vhd_step_ok sound others s s' : vhd_step sound s s' -> disks_ok sound others s -> disks_ok sound others s'.
Proof using DL.
  intros [op s0 Hop Hfirst|a s0 Ha] Hs; [|by apply ok_abi].
  destruct op; cbn [run_vhd_op]; rewrite hr_of_state.
  - by apply keeps_create.
  - by apply keeps_open.
  - by apply keeps_attach.
  - by apply keeps_detach.
  - by apply keeps_merge.
  - by apply keeps_import.
  - by apply keeps_export_disk.
  - by apply keeps_close.
  - by apply keeps_volume.
  - by apply destroy_ok.
Qed.

(** A state without disks. *)
Definition no_disks s : Prop :=
  (exists max, 0 <= max /\ vhdTable s = new_table max) /\ vhdHeap s = ∅ /\ freedManagerUsed s = false.

Lemma vhd_steps_ok sound s s' :
  no_disks s -> rtc (vhd_step sound) s s' -> disks_ok sound (held (abiDisk (abi s))) s'.
Proof using DL.
  intros ((max & Hmax & Ht) & Hh & Hf) Hsteps.
  assert (Hs : disks_ok sound (held (abiDisk (abi s))) s).
  { split; [|by rewrite Hh|intros _; by rewrite Hh].
    exists ∅. rewrite Ht, Hh. split; [by apply holds_new|]. split.
    - intros id. rewrite lookup_empty. split; [by intros []|]. intros (v & Hv). by rewrite lookup_empty in Hv.
    - intros v v' id Hv. by rewrite lookup_empty in Hv. }
  revert Hs. generalize (held (abiDisk (abi s))). clear Hf Hh Ht. intros others.
  induction Hsteps as [|s1 s2 s3 Hstep _ IH]; [done|]. intros Hs. apply IH. by eapply vhd_step_ok.
Qed.

(** C17: whatever exports are called, in any order and with any arguments, the
    handles of virtual disks that the process has open are those that were open
    at the start and one for each attach that a holder keeps, and each holder is
    named by exactly one handle of the interface: no export loses a handle, and
    what a caller closes is closed. *)
Theorem open_disks_are_held s s' :
  no_disks s -> rtc (vhd_step false) s s' ->
  held (abiDisk (abi s')) ≡ₚ open_disks (vhdHeap s') ++ held (abiDisk (abi s)) /\
  (forall did, is_Some (vhdHeap s' !! did) <-> exists v, is_uint64 v /\ Resolve kMagicVhd v (vhdTable s') = Some did) /\
  (forall v v' did, is_uint64 v -> is_uint64 v' -> Resolve kMagicVhd v (vhdTable s') = Some did ->
     Resolve kMagicVhd v' (vhdTable s') = Some did -> v = v').
Proof using DL.
  intros H0 Hsteps. destruct (vhd_steps_ok false s s' H0 Hsteps) as [(disks & Ht & He) Ho _]. split; [done|]. split.
  - intros did. split; [by apply (heap_named _ magic_vhd_ok _ disks)|]. intros (v & Hv & Hr). apply He. exists v.
    by rewrite <- (holds_Resolve _ _ _ _ Ht Hv).
  - intros v v' did Hv Hv'. rewrite (holds_Resolve _ _ _ _ Ht Hv), (holds_Resolve _ _ _ _ Ht Hv'). apply He.
Qed.

(** As long as every mount is destroyed after the handles of its disks are
    closed, every holder points to a manager that is there and no export uses
    one that is gone.  [LayerMountDestroy] itself does not ask for that. *)
Theorem managers_outlive_their_disks s s' :
  no_disks s -> rtc (vhd_step true) s s' ->
  freedManagerUsed s' = false /\ forall did holder, vhdHeap s' !! did = Some holder -> is_Some (manager holder).
Proof using DL.
  intros H0 Hsteps. destruct (vhd_steps_ok true s s' H0 Hsteps) as [_ _ Hm]. destruct (Hm eq_refl) as [Hall Hf].
  by split.
Qed.
End Sequences.

(** ** COM *)
Section Com.
Context `{W : Win32} `{J : Json} `{E : CacheEnv} `{P : Processes} `{H : !EntryHost} `{M : !MountHost}.
Context `{T : !Threads} `{R : !RulesFiles} `{A : !AbiHost} `{V : !VhdHost} `{X : !VssHost}.
Context (pushFails : bool).
Implicit Types (s : PrimitiveState).

(** How often the thread has initialized COM: a success of [CoInitializeEx] adds
    one, [CoUninitialize] takes one off, and no call of the service changes
    it. *)
Class ComLaws := {
  inits : disk -> Z;
  initialized_inits d : let (d', hr) := CoInitializeEx d in inits d' = if FAILED hr then inits d else inits d + 1;
  uninitialized_inits d : inits (fst (CoUninitialize d)) = inits d - 1;
  component_inits : preserves inits CreateVssBackupComponents;
  initialize_inits b : preserves inits (InitializeForBackup b);
  context_inits b c : preserves inits (SetContext b c);
  state_inits b : preserves inits (SetBackupState b);
  writers_inits b : preserves inits (GatherWriterMetadata b);
  free_writers_inits b : preserves inits (FreeWriterMetadata b);
  set_inits b : preserves inits (StartSnapshotSet b);
  add_inits b v : preserves inits (AddToSnapshotSet b v);
  prepare_inits b : preserves inits (PrepareForBackup b);
  do_inits b : preserves inits (DoSnapshotSet b);
  properties_inits b id : preserves inits (GetSnapshotProperties b id);
  free_inits p : preserves inits (VssFreeSnapshotProperties p);
  delete_inits b id : preserves inits (DeleteSnapshots b id);
  abort_inits b : preserves inits (AbortBackup b);
  release_inits b : preserves inits (ReleaseBackup b);
  wait_inits a : preserves inits (AsyncWait a);
  status_inits a : preserves inits (AsyncQueryStatus a);
  release_async_inits a : preserves inits (ReleaseAsync a);
  query_inits b : preserves inits (Query b);
  next_inits e : preserves inits (EnumNext e);
  release_enum_inits e : preserves inits (ReleaseEnum e)
}.
Context `{CL : !ComLaws}.

Abbreviation quiet := (preserves inits).

Create HintDb com.
#[local] Hint Resolve preserves_ret preserves_read component_inits initialize_inits context_inits state_inits writers_inits
  free_writers_inits set_inits add_inits prepare_inits do_inits properties_inits free_inits delete_inits abort_inits
  release_inits wait_inits status_inits release_async_inits query_inits next_inits release_enum_inits : com.
#[local] Hint Extern 2 (quiet (ebind _ _)) => apply preserves_bind; [|intros ?] : com.
#[local] Hint Extern 3 (quiet (match ?x with _ => _ end)) => destruct x : com.

Ltac by_parts := intros; eauto 60 with com.

Lemma wait_quiet a : quiet (WaitForAsync a).
Proof using CL. unfold WaitForAsync. by_parts. Qed.
#[local] Hint Resolve wait_quiet : com.

Lemma shadow_quiet id : quiet (DeleteShadow id).
Proof using CL. unfold DeleteShadow. by_parts. Qed.
#[local] Hint Resolve shadow_quiet : com.

Lemma abandon_quiet {B} abort b code : quiet (abandon (B := B) abort b code).
Proof using CL. unfold abandon. by_parts. Qed.
#[local] Hint Resolve abandon_quiet : com.

Lemma or_abandon_quiet {B} abort b hr (k : eff disk (res Z B)) : quiet k -> quiet (or_abandon abort b hr k).
Proof using CL. unfold or_abandon. by_parts. Qed.
#[local] Hint Resolve or_abandon_quiet : com.

Lemma or_wait_quiet {B} abort b started (k : eff disk (res Z B)) : quiet k -> quiet (or_wait abort b started k).
Proof using CL. unfold or_wait. by_parts. Qed.
#[local] Hint Resolve or_wait_quiet : com.

Lemma gather_quiet {B} keep b (k : eff disk (res Z B)) : quiet k -> quiet (gather_writers keep b k).
Proof using CL. unfold gather_writers. by_parts. Qed.
#[local] Hint Resolve gather_quiet : com.

Lemma take_quiet v keep b : quiet (take_snapshot v keep b).
Proof using CL. unfold take_snapshot, prepare_writers. by_parts. Qed.
#[local] Hint Resolve take_quiet : com.

Lemma store_quiet v keep b id device m : quiet (store_snapshot v keep b id device m).
Proof using CL. unfold store_snapshot, release_held. by_parts. Qed.
#[local] Hint Resolve store_quiet : com.

Lemma elevated_quiet {B} (refuse : Z -> B) body : quiet body -> quiet (VhdManager.elevated refuse body).
Proof. intros Hb d. unfold VhdManager.elevated. by destruct (negb (CheckElevation d =? ERROR_SUCCESS)). Qed.

Lemma create_quiet v keep m : quiet (CreateSnapshot v keep m).
Proof using CL. apply elevated_quiet. by_parts. Qed.

Lemma delete_quiet id m : quiet (DeleteSnapshot id m).
Proof using CL. unfold DeleteSnapshot, release_held. destruct (match map_find m id with Some _ => _ | None => _ end); by_parts. Qed.
#[local] Hint Resolve delete_quiet : com.

Lemma cleanup_quiet m : quiet (CleanupNonPersistent m).
Proof using CL.
  assert (Hall : forall ids e m, quiet (delete_all ids e m)) by (induction ids; intros e m'; cbn [delete_all]; by_parts).
  apply Hall.
Qed.

Lemma enumeration_quiet e : quiet (run_loop list_fuel (list_step e) ([], S_OK) []).
Proof using CL. apply preserves_loop. unfold list_step. by_parts. Qed.
#[local] Hint Resolve enumeration_quiet : com.

Lemma list_quiet : quiet ListSnapshots.
Proof using CL. unfold ListSnapshots. by_parts. Qed.

(** ** Scopes *)

(** A part that leaves the scopes of the thread and COM as it found them. *)
Definition com_same s s' : Prop := comRefCount s' = comRefCount s /\ inits (abiDisk (abi s')) = inits (abiDisk (abi s)).

Definition com_as_found {B} (m : eff PrimitiveState B) : Prop := forall s, 0 <= comRefCount s -> com_same s (fst (m s)).

Lemma found_ret {B} (b : B) : com_as_found (eret b).
Proof. by intros s. Qed.

Lemma found_bind {B C} (m : eff PrimitiveState B) (k : B -> eff PrimitiveState C) :
  com_as_found m -> (forall b, com_as_found (k b)) -> com_as_found (ebind m k).
Proof.
  intros Hm Hk s Hs. unfold ebind. destruct (Hm s Hs) as [Hn Hd]. destruct (m s) as [s' b]. cbn [fst] in *.
  destruct (Hk b s') as [Hn' Hd']; [lia|]. split; congruence.
Qed.

Lemma found_io {B} (m : eff disk B) : quiet m -> com_as_found (prim_io m).
Proof.
  intros Hm s _. unfold prim_io, on_abi, abi_io. specialize (Hm (abiDisk (abi s))). by destruct (m (abiDisk (abi s))).
Qed.

Lemma found_error hr message : com_as_found (prim_error hr message).
Proof. by intros s. Qed.

Lemma found_export {B} checks (body : prim_call B) : com_as_found body -> com_as_found (prim_export checks body).
Proof. intros Hb s Hs. unfold prim_export. destruct (first_refusal checks); [done|]. exact (Hb (with_abi _ s) Hs). Qed.

Lemma found_mount {B} mount unresolved (body : nat -> LayerMountHolder -> prim_call B) :
  (forall id holder, com_as_found (body id holder)) -> com_as_found (prim_mount mount unresolved body).
Proof. intros Hb s Hs. unfold prim_mount. destruct (resolve_mount mount (abi s)) as [[id holder]|]; [by apply (Hb id holder s)|done]. Qed.

Lemma found_manager {B} id (m : VSSManager -> eff disk (VSSManager * B)) :
  (forall manager, quiet (m manager)) -> com_as_found (on_manager id m).
Proof.
  intros Hm s Hs. unfold on_manager. pose proof (found_io _ (Hm (default [] (vssManagers s !! id))) s Hs) as Hf.
  by destruct (prim_io _ s) as [s1 [snapshots b]].
Qed.

(** A scope that opened, or that failed to, and its end. *)
Lemma open_scope_cases s :
  0 <= comRefCount s ->
  let '(s', scope) := open_scope s in
  if ScopeOk scope then
    0 < comRefCount s' /\
    (forall s2, com_same s' s2 -> com_same s (fst (close_scope scope s2)))
  else
    FAILED (initResult scope) = true /\ com_same s s' /\
    forall s2, fst (close_scope scope s2) = with_com (comRefCount s2) (with_abi (with_abi_disk (abiDisk (abi s2)) (abi s2)) s2).
Proof using CL.
  intros Hn. unfold open_scope, OpenComScope. destruct (Z.ltb_spec 0 (comRefCount s)).
  - cbn. split; [lia|]. intros s2 [Hs2 Hd2]. unfold close_scope, CloseComScope. cbn in *. rewrite Hs2, (proj2 (Z.ltb_lt _ _)) by lia.
    split; cbn; [lia|done].
  - unfold prim_io, on_abi, abi_io, ebind. pose proof (initialized_inits (abiDisk (abi s))) as Hi.
    destruct (CoInitializeEx (abiDisk (abi s))) as [d hr]. cbn [eret]. unfold SUCCEEDED.
    destruct (FAILED hr) eqn:Ef; cbn [negb].
    + assert (Hne : (hr =? VssManager.S_FALSE) = false) by (destruct (Z.eqb_spec hr VssManager.S_FALSE) as [->|]; [by vm_compute in Ef|done]).
      assert (Hok : ScopeOk {| initResult := hr; ownsInit := false |} = false)
        by (unfold ScopeOk, SUCCEEDED; cbn [initResult]; by rewrite Ef, Hne).
      rewrite Hne, Hok. split_and!; [done|done|].
      intros s2. unfold close_scope, CloseComScope. cbn [ownsInit initResult negb]. by rewrite Hne.
    + assert (Hok : ScopeOk {| initResult := hr; ownsInit := true |} = true)
        by (unfold ScopeOk, SUCCEEDED; cbn [initResult]; by rewrite Ef).
      rewrite Hok. cbn. split; [lia|]. intros s2 [Hs2 Hd2]. cbn in Hs2, Hd2.
      unfold close_scope, CloseComScope. cbn [ownsInit negb]. rewrite Hs2. change (1 - 1 =? 0) with true.
      unfold prim_io, on_abi, abi_io, ebind.
      pose proof (uninitialized_inits (abiDisk (abi s2))) as Hu. destruct (CoUninitialize _) as [d2 u]. cbn in *.
      split; cbn; lia.
Qed.

Lemma found_scope {B} (body : prim_call B) : com_as_found body -> com_as_found (with_com_scope body).
Proof using CL.
  intros Hb s Hs. unfold with_com_scope. unfold ebind at 1. pose proof (open_scope_cases s Hs) as Ho.
  destruct (open_scope s) as [s1 scope]. unfold GuardComScope. destruct (ScopeOk scope).
  - destruct Ho as [Hn Hend]. unfold ebind at 1. cbn [eret]. change (FAILED S_OK) with false. cbn iota. unfold ebind.
    specialize (Hb s1 ltac:(lia)). destruct (body s1) as [s2 r]. specialize (Hend s2 Hb).
    by destruct (close_scope scope s2).
  - destruct Ho as (Hf & [Hn Hd] & Hend). unfold ebind, eret. pose proof (found_error (initResult scope)) as He.
    specialize (He (L "VSS shim: CoInitializeEx failed. The caller's thread is in a COM apartment mode incompatible with MTA (likely RPC_E_CHANGED_MODE). VSS operations require a thread that tolerates COINIT_MULTITHREADED.") s1).
    destruct (prim_error _ _ s1) as [s2 u]. rewrite Hf. specialize (Hend s2). destruct (close_scope scope s2) as [s3 u3].
    cbn [fst] in *. subst s3. destruct He as [He1 He2]; [lia|]. split; cbn in *; congruence.
Qed.

#[local] Hint Resolve found_ret found_error found_io found_scope : com.
#[local] Hint Extern 2 (com_as_found (ebind _ _)) => apply found_bind; [|intros ?] : com.
#[local] Hint Extern 2 (com_as_found (prim_mount _ _ _)) => apply found_mount; intros ? ? : com.
#[local] Hint Extern 2 (com_as_found (on_manager _ _)) => apply found_manager; intros ? : com.
#[local] Hint Extern 3 (com_as_found (match ?x with _ => _ end)) => destruct x : com.
#[local] Hint Resolve create_quiet cleanup_quiet list_quiet : com.

Lemma found_register id info idChars deviceChars : com_as_found (register_snapshot id info idChars deviceChars).
Proof using CL.
  intros s Hs. unfold register_snapshot. destruct (Allocate kMagicVssSnapshot _ (vssTable s)) as [t v]. cbn zeta.
  destruct (v =? 0); [|done].
  assert (Hr : com_as_found (do! on_manager id (DeleteSnapshot (snapshotId info)) in
     do! prim_error E_OUTOFMEMORY (L "LayerMountVssCreateSnapshot: VSS handle table exhausted.") in
     eret (E_OUTOFMEMORY, Some (fixed_sizes None)))%eff) by by_parts.
  exact (Hr (with_snapshots t (vssManagers s) s) Hs).
Qed.
#[local] Hint Resolve found_register : com.

(** C25: every export on snapshots, whether it succeeds, fails or is refused a
    scope, ends with the count of scopes and with the initializations of COM
    that it found on its thread. *)
Theorem exports_leave_com_as_found mount v keep out idBuffer idChars deviceBuffer deviceChars id entries capacity :
  com_as_found (LayerMountVssCreateSnapshot mount v keep out idBuffer idChars deviceBuffer deviceChars) /\
  com_as_found (LayerMountVssDeleteSnapshot mount id) /\
  com_as_found (LayerMountVssCleanupSnapshots mount) /\
  com_as_found (LayerMountVssListSnapshots mount entries capacity) /\
  com_as_found (LayerMountVssValidateSnapshotPath mount id out) /\
  com_as_found (LayerMountVssCloseSnapshot pushFails capacity).
Proof using CL.
  split_and!; unfold LayerMountVssCreateSnapshot, LayerMountVssDeleteSnapshot, LayerMountVssCleanupSnapshots, manager_export,
    LayerMountVssListSnapshots, LayerMountVssValidateSnapshotPath, LayerMountVssCloseSnapshot; apply found_export; try by_parts.
  intros s Hs. by destruct (Free kMagicVssSnapshot pushFails capacity (vssTable s)).
Qed.
End Com.

(** ** What the registry lists *)
Section Listing.
Context `{W : Win32} `{J : Json} `{E : CacheEnv} `{P : Processes} `{H : !EntryHost} `{M : !MountHost}.
Context `{T : !Threads} `{R : !RulesFiles} `{A : !AbiHost} `{I : !ImageHost} `{V : !VhdHost} `{X : !VssHost}.
Context `{N : !NamedMutexes}.
Context (thrown : abi_exception).

(** What a load makes of the status and of the volume of a layer. *)
Definition detached (kv : wstring * LayerEntry) : Prop := mountStatus (snd kv) = L "detached" /\ volumeGuid (snd kv) = [].

Lemma JsonToLayerEntry_detached item entry : JsonToLayerEntry item = Some entry -> forall k, detached (k, entry).
Proof.
  unfold JsonToLayerEntry. intros Hj k. repeat (apply bind_Some in Hj as (? & _ & Hj)). by injection Hj as <-.
Qed.

Lemma read_layers_detached items m m' :
  Forall detached m -> foldl add_item (Some m) items = Some m' -> Forall detached m'.
Proof.
  revert m. induction items as [|item items IH]; intros m Hm; cbn [foldl]; [by intros [= <-]|].
  unfold add_item at 2. cbn [mbind option_bind]. destruct (JsonToLayerEntry item) as [entry|] eqn:Ej; cbn [mbind option_bind].
  - apply IH. case_bool_decide; [done|]. rewrite Forall_forall in Hm |- *. unfold AddLayer.
    intros kv [->|Hkv]%map_set_elem; [by apply (JsonToLayerEntry_detached item)|by apply Hm].
  - intros Hf. exfalso. clear -Hf. induction items; [done|]. by apply IHitems.
Qed.

Lemma Load_detached path d d' m : Load path d = (d', Ok m) -> Forall detached m.
Proof.
  unfold Load. destruct (OpenSharedW d _ _ _ _) as [fh|]; [|done]. unfold ebind, eret.
  destruct (run_loop read_fuel (read_step fh) (Err 0) [] d) as [d1 body]. destruct (EntryHost.CloseHandle fh d1) as [d2 u].
  destruct body as [body|]; [|done]. intros [= _ Hm]. unfold ManifestOfText in Hm.
  destruct (json_parse body) as [root|]; [|done]. destruct (schema_version root) as [version|]; [|done].
  destruct (version <? 1); [done|]. destruct (read_layers _) as [m0|] eqn:Er; [|done]. injection Hm as ->.
  exact (read_layers_detached _ [] m (List.Forall_nil _) Er).
Qed.

(** What an entry of the caller's array says of the status and the volume. *)
Definition says_detached (entry : LM_VHD_LAYER_INFO) : Prop :=
  snd (fst (liMountStatus entry)) = 9 /\ snd (fst (liVolumeGuid entry)) = 1 /\
  forall text, snd (liMountStatus entry) = Some text -> text = L "detached" ++ [0].

Lemma public_layers_detached (layers : list LayerEntry) entries capacity out hr :
  Forall (fun entry => mountStatus entry = L "detached" /\ volumeGuid entry = []) layers ->
  public_layers layers entries capacity = (hr, Some out) -> Forall says_detached (layersFilled out).
Proof.
  intros Hl. unfold public_layers. destruct entries as [buffers|]; [|by intros [= _ <-]].
  destruct (capacity =? 0); [by intros [= _ <-]|]. destruct (capacity <? _); [by intros [= _ <-]|]. intros [= _ <-].
  cbn [layersFilled]. revert buffers. induction Hl as [|entry layers [Hs Hg] Hl IH]; intros [|b buffers]; cbn [zip_with]; [constructor..|].
  constructor; [|apply IH]. unfold says_detached, public_layer. cbn [liMountStatus liVolumeGuid]. rewrite Hs, Hg.
  unfold EmitLayerInfoString. destruct (statusBuffer b) as [n|], (guidBuffer b) as [n'|]; repeat case_match; split_and!;
    try done; cbn; intros text; by intros [= <-].
Qed.

(** Whatever the registry holds, each entry of a listing says that its layer is
    detached and has no volume: a load reads neither. *)
Theorem listed_layers_are_detached currentPath mount dir entries capacity required s s' hr out :
  LayerMountVhdListLayers thrown currentPath mount dir entries capacity required s = (s', (hr, Some out)) ->
  Forall says_detached (layersFilled out).
Proof.
  unfold LayerMountVhdListLayers, prim_export, prim_mount. destruct (first_refusal _); [done|].
  destruct (resolve_mount mount _) as [[id holder]|]; [|by intros [= _ _ <-]].
  unfold LockedRegistry. destruct (ResolveManifestPath currentPath dir) as [path|].
  2:{ unfold prim_throw, on_abi, throw_abi. by destruct (LM_ABI_END _ _). }
  unfold ebind at 1. destruct (prim_io (AcquireManifestLock path kRegistryLockTimeoutMs) _) as [s1 lock].
  destruct (Held lock); cbn [negb].
  2:{ unfold ebind, eret. destruct (RegistryLockFailure _ s1) as [s2 hr2]. destruct (prim_io _ s2). by intros [= _ _ <-]. }
  unfold ebind at 1. unfold prim_io at 1, on_abi, abi_io. destruct (Load path (abiDisk (abi s1))) as [d loaded] eqn:El.
  destruct loaded as [m|[e| |]].
  - unfold ebind, eret. destruct (prim_io (ReleaseManifestLock lock) _) as [s3 u]. intros [= _ Hp].
    eapply public_layers_detached; [|exact Hp]. unfold ListLayers. apply Forall_fmap.
    exact (Load_detached _ _ _ _ El).
  - destruct (e =? ERROR_FILE_NOT_FOUND); unfold ebind, eret; destruct (prim_io (ReleaseManifestLock lock) _) as [s3 u];
      by intros [= _ _ <-].
  - unfold ebind. destruct (prim_io (ReleaseManifestLock lock) _) as [s3 u]. unfold prim_throw, on_abi, throw_abi.
    by destruct (LM_ABI_END _ _).
  - unfold ebind. destruct (prim_io (ReleaseManifestLock lock) _) as [s3 u]. unfold prim_throw, on_abi, throw_abi.
    by destruct (LM_ABI_END _ _).
Qed.
End Listing.

(** ** The handle of a snapshot *)
Section Snapshot.
Context `{W : Win32} `{J : Json} `{E : CacheEnv} `{P : Processes} `{H : !EntryHost} `{M : !MountHost}.
Context `{T : !Threads} `{R : !RulesFiles} `{A : !AbiHost} `{V : !VhdHost} `{X : !VssHost}.
Implicit Types (s : PrimitiveState).

Lemma magic_vss_ok : 0 < kMagicVssSnapshot < 2 ^ 16.
Proof. unfold kMagicVssSnapshot. lia. Qed.

Lemma hresult_from_win32_fails e : e <> ERROR_SUCCESS -> hresult_from_win32 e <> S_OK.
Proof.
  intros He. unfold hresult_from_win32. rewrite (proj2 (Z.eqb_neq e 0)) by done. cbn [orb].
  destruct (2 ^ 31 <=? e); [done|]. intros Hz. assert (Ht : Z.testbit (Z.lor (Z.land e 0xFFFF) 0x80070000) 31 = false)
    by (rewrite Hz; apply Z.bits_0). rewrite Z.lor_spec in Ht. by rewrite orb_true_r in Ht.
Qed.

(** A part of the machine and of COM, which changes no table. *)
Definition same_snapshots s s' : Prop := vssTable s' = vssTable s.

Lemma manager_table {B} id (m : VSSManager -> eff disk (VSSManager * B)) s : same_snapshots s (fst (on_manager id m s)).
Proof.
  unfold on_manager, prim_io, on_abi. by destruct (abi_io _ (abi s)) as [a [snapshots b]].
Qed.

Lemma open_scope_table s : same_snapshots s (fst (open_scope s)).
Proof. unfold open_scope, prim_io, on_abi. by destruct (abi_io _ (abi s)) as [a [n scope]]. Qed.

Lemma close_scope_table scope s : same_snapshots s (fst (close_scope scope s)).
Proof. unfold close_scope, prim_io, on_abi. by destruct (abi_io _ (abi s)) as [a n]. Qed.

(** What the texts of a new snapshot need. *)
Definition texts_fit (info : SnapshotInfo) (idChars deviceChars : Z) : Prop :=
  Z.of_nat (length (snapshotId info)) < idChars /\ Z.of_nat (length (devicePath info)) < deviceChars.

Lemma EmitWString_room text chars :
  0 < chars ->
  EmitWString text (Some chars) =
    if bool_decide (Z.of_nat (length text) < chars) then (S_OK, Z.of_nat (length text) + 1, Some (text ++ [0]))
    else (hresult_from_win32 ERROR_MORE_DATA, Z.of_nat (length text) + 1, None).
Proof.
  intros Hc. unfold EmitWString, emit_text, caller_capacity. rewrite (proj2 (Z.eqb_neq _ _)) by lia.
  case_bool_decide; [rewrite (proj2 (Z.ltb_ge _ _)) by lia|rewrite (proj2 (Z.ltb_lt _ _)) by lia]; done.
Qed.

(** A new handle with the snapshot, and both texts exactly with [S_OK]; or no
    handle, and the handles as they were. *)
Definition snapshot_contract (volumePath : wstring) (keep : bool) (idChars deviceChars : Z) s s' (hr : Z)
    (out : option VssCreated) : Prop :=
  match out ≫= createdSnapshot with
  | Some v =>
      v <> 0 /\ is_uint64 v /\ Resolve kMagicVssSnapshot v (vssTable s) = None /\
      exists info created, out = Some created /\
        Resolve kMagicVssSnapshot v (vssTable s') = Some {| snapshotHeld := info |} /\
        snapshotVolume info = volumePath /\ persistent info = keep /\
        (hr = S_OK <-> texts_fit info idChars deviceChars) /\
        (hr = S_OK -> createdId created = Some (snapshotId info ++ [0]) /\ createdDevice created = Some (devicePath info ++ [0]))
  | None => hr <> S_OK
  end /\
  forall w, is_uint64 w -> out ≫= createdSnapshot <> Some w ->
    Resolve kMagicVssSnapshot w (vssTable s') = Resolve kMagicVssSnapshot w (vssTable s).

Lemma emit_created_meets v id device idChars deviceChars :
  0 < idChars -> 0 < deviceChars ->
  let (hr, out) := emit_created v id device idChars deviceChars in
  exists created, out = Some created /\ createdSnapshot created = Some v /\
    (hr = S_OK <-> Z.of_nat (length id) < idChars /\ Z.of_nat (length device) < deviceChars) /\
    (hr = S_OK -> createdId created = Some (id ++ [0]) /\ createdDevice created = Some (device ++ [0])).
Proof.
  intros Hi Hd. unfold emit_created. rewrite !EmitWString_room by done.
  destruct (bool_decide_reflect (Z.of_nat (length id) < idChars)) as [Hid|Hid].
  - change (FAILED S_OK) with false. cbn iota.
    destruct (bool_decide_reflect (Z.of_nat (length device) < deviceChars)) as [Hdev|Hdev].
    + change (FAILED S_OK) with false. eexists. split_and!; [reflexivity|done|by split|by intros _].
    + change (FAILED (hresult_from_win32 ERROR_MORE_DATA)) with true. eexists. split_and!; [reflexivity|done| |done].
      split; [done|]. by intros [_ ?].
  - change (FAILED (hresult_from_win32 ERROR_MORE_DATA)) with true. eexists. split_and!; [reflexivity|done| |done].
    split; [done|]. by intros [? _].
Qed.

Lemma register_meets id info idChars deviceChars snapshots s :
  table_holds kMagicVssSnapshot (vssTable s) snapshots -> 0 < idChars -> 0 < deviceChars ->
  let '(s', (hr, out)) := register_snapshot id info idChars deviceChars s in
  snapshot_contract (snapshotVolume info) (persistent info) idChars deviceChars s s' hr out.
Proof.
  intros Ht Hi Hd. unfold register_snapshot.
  pose proof (holds_Allocate _ magic_vss_ok _ _ {| snapshotHeld := info |} Ht) as Ha.
  destruct (Allocate kMagicVssSnapshot _ (vssTable s)) as [t v]. destruct Ha as [[-> Ht']|(Hv & Hnew & Ht')].
  - cbn [Z.eqb]. unfold ebind, eret.
    pose proof (manager_table id (DeleteSnapshot (snapshotId info)) (with_snapshots t (vssManagers s) s)) as Hm.
    destruct (on_manager id _ _) as [s1 b]. unfold prim_error, on_abi. cbn -[L]. split; [done|].
    intros w Hw _. unfold same_snapshots in Hm. cbn in Hm. unfold with_abi. cbn [vssTable]. rewrite Hm.
    by rewrite (holds_Resolve _ _ _ _ Ht' Hw), (holds_Resolve _ _ _ _ Ht Hw).
  - rewrite (proj2 (Z.eqb_neq v 0)) by done.
    pose proof (emit_created_meets v (snapshotId info) (devicePath info) idChars deviceChars Hi Hd) as He.
    destruct (emit_created _ _ _ _ _) as [hr out]. destruct He as (created & -> & Hc & Hr & Hs).
    assert (Hu : is_uint64 v) by (apply (holds_uint64 _ magic_vss_ok _ _ _ Ht'); rewrite lookup_insert_eq; by eexists).
    unfold snapshot_contract. cbn [mbind option_bind]. rewrite Hc. split.
    + split_and!; [done|done|by rewrite (holds_Resolve _ _ _ _ Ht Hu)|]. exists info, created. split_and!; try done.
      cbn. by rewrite (holds_Resolve _ _ _ _ Ht' Hu), lookup_insert_eq.
    + intros w Hw Hne. cbn. rewrite (holds_Resolve _ _ _ _ Ht' Hw), (holds_Resolve _ _ _ _ Ht Hw), lookup_insert_ne; [done|].
      congruence.
Qed.

(** The part of a create that a scope surrounds, from a table of snapshots. *)
Definition create_body (mount : Z) (volumePath : wstring) (keep : bool) (idChars deviceChars : Z) : prim_call VssCreated :=
  prim_mount mount (Some (fixed_sizes None)) (fun id _ =>
    (let! (dw, newId, device) := on_manager id (CreateSnapshot volumePath keep) in
     if negb (dw =? ERROR_SUCCESS) then eret (hresult_from_win32 dw, Some (fixed_sizes None))
     else
       register_snapshot id {| snapshotId := newId; vssId := GUID_NULL; snapshotVolume := volumePath;
                               devicePath := device; persistent := keep; snapshotCreatedAt := [] |}
         idChars deviceChars)%eff).

(** No handle, and the same handles. *)
Lemma contract_none v keep i c s s' hr out :
  same_snapshots s s' -> out ≫= createdSnapshot = None -> hr <> S_OK -> snapshot_contract v keep i c s s' hr out.
Proof. unfold same_snapshots, snapshot_contract. intros Hs -> Hhr. split; [done|]. intros w _ _. by rewrite Hs. Qed.

Lemma create_body_meets mount volumePath keep idChars deviceChars snapshots s :
  table_holds kMagicVssSnapshot (vssTable s) snapshots -> 0 < idChars -> 0 < deviceChars ->
  let '(s', (hr, out)) := create_body mount volumePath keep idChars deviceChars s in
  is_Some out /\ snapshot_contract volumePath keep idChars deviceChars s s' hr out.
Proof.
  intros Ht Hi Hd. unfold create_body, prim_mount. destruct (resolve_mount mount (abi s)) as [[id holder]|].
  2:{ split; [by eexists|]. by apply contract_none. }
  unfold ebind at 1. pose proof (manager_table id (CreateSnapshot volumePath keep) s) as Hm.
  destruct (on_manager id (CreateSnapshot volumePath keep) s) as [s1 [[dw newId] device]]. cbn [fst] in Hm.
  destruct (Z.eqb_spec dw ERROR_SUCCESS) as [->|Hdw]; cbn [negb].
  - rewrite <- Hm in Ht.
    set (info := {| snapshotId := newId; vssId := GUID_NULL; snapshotVolume := volumePath; devicePath := device;
                    persistent := keep; snapshotCreatedAt := [] |}).
    pose proof (register_meets id info idChars deviceChars snapshots s1 Ht Hi Hd) as Hr.
    assert (Ho : is_Some (snd (snd (register_snapshot id info idChars deviceChars s1)))).
    { unfold register_snapshot, emit_created. destruct (Allocate _ _ _) as [t v]. destruct (v =? 0).
      - unfold ebind, eret. destruct (on_manager _ _ _) as [s2 b]. destruct (prim_error _ _ s2). by eexists.
      - destruct (EmitWString _ _) as [[hr1 r1] st1]. destruct (FAILED hr1); [by eexists|].
        destruct (EmitWString _ _) as [[hr2 r2] st2]. by eexists. }
    destruct (register_snapshot _ _ _ _ s1) as [s2 [hr out]]. split; [exact Ho|]. unfold snapshot_contract in *.
    by rewrite Hm in Hr.
  - split; [by eexists|]. apply contract_none; [done|done|]. by apply hresult_from_win32_fails.
Qed.

Lemma scoped_meets mount volumePath keep idChars deviceChars snapshots s :
  table_holds kMagicVssSnapshot (vssTable s) snapshots -> 0 < idChars -> 0 < deviceChars ->
  let '(s', (hr, out)) := with_com_scope (create_body mount volumePath keep idChars deviceChars) s in
  snapshot_contract volumePath keep idChars deviceChars s s' hr out.
Proof.
  intros Ht Hi Hd. unfold with_com_scope. unfold ebind at 1. pose proof (open_scope_table s) as Ho.
  destruct (open_scope s) as [s1 scope]. cbn [fst] in Ho. unfold GuardComScope. destruct (ScopeOk scope) eqn:Eo.
  - unfold ebind at 1. cbn [eret]. change (FAILED S_OK) with false. cbn iota. unfold ebind. rewrite <- Ho in Ht.
    pose proof (create_body_meets mount volumePath keep idChars deviceChars snapshots s1 Ht Hi Hd) as Hb.
    destruct (create_body _ _ _ _ _ s1) as [s2 [hr out]]. destruct Hb as [_ Hb].
    pose proof (close_scope_table scope s2) as Hc. destruct (close_scope scope s2) as [s3 u]. cbn [fst] in Hc. cbn [eret].
    unfold snapshot_contract in *. rewrite Hc. by rewrite <- Ho.
  - assert (Hf : FAILED (initResult scope) = true).
    { unfold ScopeOk, SUCCEEDED in Eo. apply orb_false_iff in Eo as [Eo _]. by apply negb_false_iff in Eo. }
    unfold ebind, eret. assert (He : forall m, same_snapshots s1 (fst (prim_error (initResult scope) m s1))) by done.
    match goal with |- context [prim_error (initResult scope) ?m s1] => specialize (He m) end.
    destruct (prim_error _ _ s1) as [s2 u]. rewrite Hf.
    pose proof (close_scope_table scope s2) as Hc. destruct (close_scope scope s2) as [s3 u3]. cbn [fst] in *.
    apply contract_none; [by unfold same_snapshots in *; congruence|done|]. intros Hz. by rewrite Hz in Hf.
Qed.

(** C20: a caller that gives no room, or less than the fixed sizes, gets them and
    no snapshot is made: the call changes nothing but the mark of the error
    state.  Otherwise a create that gives a handle gives a new one, which names
    the snapshot of that volume and leaves every other handle, with both texts
    exactly when it gives [S_OK]; the one failure that keeps the snapshot is a
    text that is longer than the caller's room.  A create that gives no handle
    fails and leaves the handles as they were. *)
Theorem snapshot_is_made_with_room mount volumePath keep out idBuffer idChars deviceBuffer deviceChars snapshots s :
  table_holds kMagicVssSnapshot (vssTable s) snapshots -> mount <> 0 -> text_of volumePath <> [] -> out = true ->
  let '(s', (hr, r)) := LayerMountVssCreateSnapshot mount volumePath keep out idBuffer idChars deviceBuffer deviceChars s in
  if buffers_too_small idBuffer idChars deviceBuffer deviceChars then
    s' = with_abi (with_tls ClearFillFailure (abi s)) s /\ r = Some (fixed_sizes None) /\
    hr = (if is_sizing_probe idBuffer idChars deviceBuffer deviceChars then S_OK else hresult_from_win32 ERROR_MORE_DATA)
  else snapshot_contract (text_of volumePath) keep idChars deviceChars s s' hr r.
Proof.
  intros Ht Hmount Hvolume ->. unfold LayerMountVssCreateSnapshot, prim_export. cbn [first_refusal].
  rewrite (proj2 (Z.eqb_neq mount 0)) by done. unfold is_empty_text. rewrite bool_decide_false by done. cbn [negb].
  set (s0 := with_abi (with_tls ClearFillFailure (abi s)) s).
  destruct (is_sizing_probe idBuffer idChars deviceBuffer deviceChars) eqn:Ep.
  { assert (Hsmall : buffers_too_small idBuffer idChars deviceBuffer deviceChars = true).
    { unfold is_sizing_probe in Ep. unfold buffers_too_small. by destruct idBuffer. }
    by rewrite Hsmall. }
  destruct (buffers_too_small idBuffer idChars deviceBuffer deviceChars) eqn:Es; [done|].
  assert (Hi : 0 < idChars /\ 0 < deviceChars).
  { unfold buffers_too_small, LM_VSS_ID_CHARS_REQUIRED, LM_VSS_DEVICE_PATH_CHARS_REQUIRED in Es.
    apply orb_false_iff in Es as [[[_ Es]%orb_false_iff _]%orb_false_iff Es']. lia. }
  unfold ebind. fold (create_body mount (text_of volumePath) keep idChars deviceChars).
  pose proof (scoped_meets mount (text_of volumePath) keep idChars deviceChars snapshots s0 Ht (proj1 Hi) (proj2 Hi)) as Hm.
  destruct (with_com_scope _ s0) as [s1 [hr r]]. unfold eret. destruct r as [r|]; [exact Hm|].
  destruct Hm as [Hhr Hw]. split; [exact Hhr|exact Hw].
Qed.
End Snapshot.
