(* ===== verification/AbiHosts.v ===== *)
(** * The exports on disks and snapshots on a whole host

    A calendar, a shadow copy service and the open handles of virtual disks
    beside the concrete volume; the theorems of [AbiPrimitives.v] are applied
    there, and a mount is destroyed before its disks. *)
From S2P Require Import TrackerFacts AbiContract.
From S2P Require Export AbiPrimitives Ledger.
Open Scope Z_scope.

(** ** The concrete calendar *)
Section Calendar.

(** A day of an era of 400 years: its year and its day in that year, which
    starts in March. *)
Lemma doy_range doe : 0 <= doe < 146097 ->
  let yoe := (doe - doe / 1460 + doe / 36524 - doe / 146096) / 365 in
  0 <= yoe < 400 /\ 0 <= doe - (365 * yoe + yoe / 4 - yoe / 100) <= 365.
Proof.
  intros Hd. cbv zeta.
  assert (H1 : doe / 36524 = 0 \/ doe / 36524 = 1 \/ doe / 36524 = 2 \/ doe / 36524 = 3 \/ doe / 36524 = 4)
    by (Z.to_euclidean_division_equations; lia).
  assert (H2 : doe / 146096 = 0 \/ doe / 146096 = 1) by (Z.to_euclidean_division_equations; lia).
  set (yoe := (doe - doe / 1460 + doe / 36524 - doe / 146096) / 365) in *.
  assert (Hy : 0 <= yoe < 400) by (subst yoe; Z.to_euclidean_division_equations; lia).
  split; [exact Hy|].
  assert (H3 : yoe / 100 = 0 \/ yoe / 100 = 1 \/ yoe / 100 = 2 \/ yoe / 100 = 3)
    by (Z.to_euclidean_division_equations; lia).
  subst yoe.
  destruct_or! H1; rewrite H1 in *; destruct_or! H2; rewrite H2 in *; destruct_or! H3; rewrite H3;
    Z.to_euclidean_division_equations; lia.
Qed.

(** The month and the day of such a day, which gives the day back. *)
Definition month_of (doy : Z) : Z := let mp := (5 * doy + 2) / 153 in if mp <? 10 then mp + 3 else mp - 9.
Definition day_of (doy : Z) : Z := doy - (153 * ((5 * doy + 2) / 153) + 2) / 5 + 1.

Definition good_day (doy : Z) : bool :=
  (1 <=? month_of doy) && (month_of doy <=? 12) && (1 <=? day_of doy) && (day_of doy <=? 31) &&
  ((153 * ((month_of doy + 9) mod 12) + 2) / 5 + day_of doy - 1 =? doy) && eqb (month_of doy <=? 2) (306 <=? doy).

Lemma days_are_good doy : 0 <= doy <= 365 -> good_day doy = true.
Proof. intros Hd. apply (checked_range good_day 0 (Z.to_nat 366)); [vm_compute; reflexivity|lia]. Qed.

(** The date of a day of the calendar. *)
Lemma civil_date days : -134774 <= days < 2 ^ 63 / ticks_per_second / 86400 - 134773 ->
  let '(y, m, d) := civil_from_days days in
  1601 <= y <= 30828 /\ 1 <= m <= 12 /\ 1 <= d <= 31 /\ MemVss.days_from_civil (y, m, d) = days.
Proof.
  intros Hdays. change (2 ^ 63 / ticks_per_second / 86400 - 134773) with 10540426 in Hdays.
  unfold civil_from_days. set (z := days + 719468). set (era := z / 146097). set (doe := z - era * 146097).
  assert (Hdoe : 0 <= doe < 146097) by (subst doe era; Z.to_euclidean_division_equations; lia).
  pose proof (doy_range doe Hdoe) as [Hy Hdoy]. set (yoe := (doe - _ + _ - _) / 365) in *.
  set (doy := doe - (365 * yoe + yoe / 4 - yoe / 100)) in *.
  change (doy - (153 * ((5 * doy + 2) / 153) + 2) / 5 + 1) with (day_of doy).
  change (if (5 * doy + 2) / 153 <? 10 then (5 * doy + 2) / 153 + 3 else (5 * doy + 2) / 153 - 9) with (month_of doy).
  pose proof (days_are_good doy Hdoy) as Hg. unfold good_day in Hg.
  apply andb_true_iff in Hg as [[[[[Hm1 Hm2]%andb_true_iff Hd1]%andb_true_iff Hd2]%andb_true_iff Hback]%andb_true_iff Hjan%eqb_prop].
  apply Z.eqb_eq in Hback.
  assert (Hera : 4 <= era <= 77) by (subst era z; Z.to_euclidean_division_equations; lia).
  assert (Hz : z = era * 146097 + doe) by (subst doe; lia).
  assert (Hfirst : era = 4 -> 306 <= doe) by (intros He; lia).
  assert (Hlast : era = 77 -> doe <= 10424) by (intros He; lia).
  split_and!; try lia.
  - assert (yoe = 0 -> era = 4 -> 306 <= doy) by (intros H0 He; specialize (Hfirst He); subst doy; rewrite H0; change (365 * 0 + 0 / 4 - 0 / 100) with 0; lia).
    rewrite Hjan. destruct (Z.leb_spec 306 doy); lia.
  - assert (Hend : era = 77 -> yoe <= 27 \/ yoe = 28 /\ doy < 306).
    { intros He. specialize (Hlast He).
      assert (H1 : doe / 1460 <= 7) by (Z.to_euclidean_division_equations; lia).
      assert (H2 : doe / 36524 = 0) by (Z.to_euclidean_division_equations; lia).
      assert (H3 : doe / 146096 = 0) by (Z.to_euclidean_division_equations; lia).
      assert (H4 : yoe <= 28) by (subst yoe; rewrite H2, H3; Z.to_euclidean_division_equations; lia).
      destruct (Z.eq_dec yoe 28) as [H5|H5]; [right; split; [done|]|left; lia]. subst doy. rewrite H5. change (365 * 28 + 28 / 4 - 28 / 100) with 10227. lia. }
    rewrite Hjan. destruct (Z.leb_spec 306 doy); lia.
  - unfold MemVss.days_from_civil. set (j := if month_of doy <=? 2 then 1 else 0).
    replace (yoe + era * 400 + j - j) with (yoe + era * 400) by lia.
    assert (He : (yoe + era * 400) / 400 = era) by (Z.to_euclidean_division_equations; lia). rewrite He.
    replace (yoe + era * 400 - era * 400) with yoe by lia. subst doy. lia.
Qed.

(** The second of 1970 on, and the fields of a time. *)
Definition second_of (ft : Z) : Z := ft / ticks_per_second - 134774 * 86400.

Lemma system_time_date ft st :
  MemVss.system_time ft = Some st ->
  0 <= ft < 2 ^ 63 /\ exists y m d, 1601 <= y <= 30828 /\ 1 <= m <= 12 /\ 1 <= d <= 31 /\
    MemVss.days_from_civil (y, m, d) = second_of ft / 86400 /\
    st = {| wYear := y; wMonth := m; wDay := d; wHour := second_of ft mod 86400 / 3600;
            wMinute := (second_of ft mod 86400 / 60) mod 60; wSecond := second_of ft mod 86400 mod 60 |}.
Proof.
  unfold MemVss.system_time. destruct (Z.leb_spec 0 ft), (Z.ltb_spec ft (2 ^ 63)); try done. cbn [andb].
  intros [= <-]. split; [done|]. fold (second_of ft). unfold gmtime.
  assert (Hday : -134774 <= second_of ft / 86400 < 2 ^ 63 / ticks_per_second / 86400 - 134773)
    by (unfold second_of, ticks_per_second; Z.to_euclidean_division_equations; lia).
  pose proof (civil_date _ Hday) as Hc. destruct (civil_from_days (second_of ft / 86400)) as [[y m] d].
  exists y, m, d. by destruct Hc as (? & ? & ? & ?).
Qed.
End Calendar.

(** ** A whole host

    The shadow copy service beside the concrete volume, and the open handles of
    virtual disks beside both. *)
Section WholeHost.
Context `{W : Win32} (L : Type).

Definition ledger_mount_host `{H : !EntryHost} `{M : !MountHost} :
  @MountHost (ledger_win32 L) (ledger_entry_host L) :=
  @MountHost.Build_MountHost (ledger_win32 L) (ledger_entry_host L)
  (fun a0 a1 => @MountHost.GetFileInformationByHandle W H M (base L a0) a1)
  (fun a0 a1 => @MountHost.GetStandardAllocation W H M (base L a0) a1)
  ((fun f x => f (base L x)) <$> @MountHost.NtQueryObject W H M)
  (fun a0 => lifted L (@MountHost.FlushFileBuffers W H M a0))
  (fun a0 a1 => @MountHost.GetDiskFreeSpaceExW W H M (base L a0) a1)
  (fun a0 a1 => @MountHost.FindStreams W H M (base L a0) a1)
  (fun a0 a1 a2 a3 => lifted L (@MountHost.SetFileTimes W H M a0 a1 a2 a3))
  (fun a0 a1 => lifted L (@MountHost.SetFileAttributesW W H M a0 a1))
  (fun a0 a1 => lifted L (@MountHost.DeleteReparse W H M a0 a1))
  (@MountHost.security_parts W H M)
  (fun a0 a1 a2 => lifted L (@MountHost.SetObjectSecurity W H M a0 a1 a2))
  (fun a0 a1 a2 a3 => @MountHost.GetFileSecurityBytes W H M (base L a0) a1 a2 a3)
  (@MountHost.ConvertSddl W H M)
  (fun a0 a1 => @MountHost.GetVolumeSerial W H M (base L a0) a1)
  (fun a0 a1 => @MountHost.GetWideSerial W H M (base L a0) a1)
  (fun a0 a1 => @MountHost.GetFileSystemName W H M (base L a0) a1)
  (fun a0 => @MountHost.steady_now W H M (base L a0))
  (fun a0 => @MountHost.system_now W H M (base L a0)).

Definition ledger_abi_host `{H : !EntryHost} `{A : !AbiHost} : @AbiHost (ledger_win32 L) (ledger_entry_host L) :=
  @Abi.Build_AbiHost (ledger_win32 L) (ledger_entry_host L)
  (@Abi.descriptor_at W H A)
  (@Abi.MultiByteToWideCharStrict W H A)
  (@Abi.system_error_what W H A)
  (@Abi.json_error_what W H A)
  (@Abi.LM_VER W H A)
  (@Abi.LM_ABI_VERSION W H A).

Definition ledger_rules `{R : !RulesFiles} : @RulesFiles (ledger_win32 L) :=
  @Config.Build_RulesFiles (ledger_win32 L)
  (fun a0 a1 => @rules_file W R (base L a0) a1).

Definition ledger_vss `{X : !VssHost} : @VssHost (ledger_win32 L) :=
  @VssManager.Build_VssHost (ledger_win32 L)
  (lifted L (@CreateVssBackupComponents W X))
  (fun a0 => lifted L (@InitializeForBackup W X a0))
  (fun a0 a1 => lifted L (@SetContext W X a0 a1))
  (fun a0 => lifted L (@SetBackupState W X a0))
  (fun a0 => lifted L (@GatherWriterMetadata W X a0))
  (fun a0 => lifted L (@FreeWriterMetadata W X a0))
  (fun a0 => lifted L (@StartSnapshotSet W X a0))
  (fun a0 a1 => lifted L (@AddToSnapshotSet W X a0 a1))
  (fun a0 => lifted L (@PrepareForBackup W X a0))
  (fun a0 => lifted L (@DoSnapshotSet W X a0))
  (fun a0 a1 => lifted L (@GetSnapshotProperties W X a0 a1))
  (fun a0 => lifted L (@VssFreeSnapshotProperties W X a0))
  (fun a0 a1 => lifted L (@DeleteSnapshots W X a0 a1))
  (fun a0 => lifted L (@AbortBackup W X a0))
  (fun a0 => lifted L (@ReleaseBackup W X a0))
  (fun a0 => lifted L (@AsyncWait W X a0))
  (fun a0 => lifted L (@AsyncQueryStatus W X a0))
  (fun a0 => lifted L (@ReleaseAsync W X a0))
  (fun a0 => lifted L (@Query W X a0))
  (fun a0 => lifted L (@EnumNext W X a0))
  (fun a0 => lifted L (@ReleaseEnum W X a0))
  (@CLSIDFromString W X)
  (@UuidFromStringW W X)
  (fun a0 => @time_now W X (base L a0))
  (@FileTimeToSystemTime W X)
  (@SystemTimeToFileTime W X)
  (lifted L (@CoInitializeEx W X))
  (lifted L (@CoUninitialize W X)).
End WholeHost.

Abbreviation whole_win32 := (ledger_win32 (W := vss_win32) (list wstring)).

#[export] Instance whole_entry_host : EntryHost (W := whole_win32) := ledger_entry_host (W := vss_win32) (list wstring).
#[export] Instance whole_image_host : ImageHost (W := whole_win32) := ledger_image_host (W := vss_win32) (list wstring).
#[export] Instance whole_vhd : VhdHost (W := whole_win32) := ledger_vhd (W := vss_win32) (V := vss_vhd).
#[export] Instance whole_vss : VssHost (W := whole_win32) := ledger_vss (W := vss_win32) (list wstring).
#[export] Instance whole_mount_host : MountHost (W := whole_win32) :=
  ledger_mount_host (W := vss_win32) (list wstring) (M := ledger_mount_host (W := mem_win32) vss_service).
#[export] Instance whole_abi_host : AbiHost (W := whole_win32) :=
  ledger_abi_host (W := vss_win32) (list wstring) (A := ledger_abi_host (W := mem_win32) vss_service).
#[export] Instance whole_rules : RulesFiles (W := whole_win32) :=
  ledger_rules (W := vss_win32) (list wstring) (R := ledger_rules (W := mem_win32) vss_service).
#[export] Instance whole_threads : Threads (W := whole_win32) := {| wait_turn := fun _ => eret tt |}.

#[export] Instance whole_handle_laws : HandleLaws (W := whole_win32) := ledger_handle_laws (W := vss_win32) (V := vss_vhd).

#[export] Instance whole_holder_laws : HolderLaws (W := whole_win32).
Proof.
  split.
  - intros h l [d0 l0]. cbn. unfold noting_close. cbn. destruct (@CloseVhdHandle vss_win32 vss_vhd h d0) as [d u]. cbn. apply take_off_perm.
  - intros b. intros d. apply lifted_ledger.
Qed.

#[export] Instance whole_com_laws : ComLaws (W := whole_win32).
Proof.
  refine {| inits := fun d : @disk whole_win32 => threadInits (snd (fst d)) |}; try done; intros *; try (intros [[vol sv] l]); cbn;
    unfold on_service, on_ledger, lifted; cbn; try reflexivity.
  all: unfold MemVss.add_volume, MemVss.delete_shadow, MemVss.next; cbn; by first [case_bool_decide | destruct (listed sv)].
Qed.

#[export] Instance whole_calendar : CalendarLaws (W := whole_win32).
Proof.
  split; intros ft st; change (FileTimeToSystemTime ft) with (MemVss.system_time ft);
    intros (Hft & y & m & d & Hy & Hm & Hd & Hback & ->)%system_time_date;
    cbn [wYear wMonth wDay wHour wMinute wSecond].
  - split_and!; try lia; Z.to_euclidean_division_equations; lia.
  - intros _. change (SystemTimeToFileTime ?st) with (MemVss.file_time st). unfold MemVss.file_time.
    cbn [wYear wMonth wDay wHour wMinute wSecond]. rewrite Hback. f_equal.
    replace (ft - ft mod ticks_per_second) with (ft / ticks_per_second * ticks_per_second)
      by (unfold ticks_per_second; Z.to_euclidean_division_equations; lia).
    f_equal. replace (ft / ticks_per_second) with (second_of ft + 134774 * 86400) by (unfold second_of; lia).
    generalize (second_of ft). intros n. Z.to_euclidean_division_equations; lia.
Qed.

(** ** The theorems there *)
Module Session.
#[local] Existing Instance Fixture.no_json.

(** A mount of the overlay, beside the disks of [vhd_volume]. *)
Definition start : PrimitiveState (W := whole_win32) := {|
  abi := fst (LayerMountCreate (W := whole_win32) (Some Called.config) true
                (Handles (W := whole_win32) ((vhd_volume ++ Engine.volume, snd (vss_start S_FALSE)), [])));
  vhdTable := new_table kMaxSlot; vhdHeap := ∅; vhdManagers := ∅; vssTable := new_table kMaxSlot; vssManagers := ∅;
  comRefCount := 0; freedManagerUsed := false |}.

Definition mount1 : Z := Called.mount1.
Definition vhd1 : Z := Encode kMagicVhd 1 1.

Definition config : LM_VHD_CONFIG := {|
  vhdStructSize := 48; vhdKind := LM_VHD_KIND_FIXED; vhdSizeBytes := 0; vhdConfigPath := Some (L "C:\s\a");
  vhdParentPath := None; vhdReadOnly := false; vhdSuppressDriveLetter := true; vhdLifetime := 0 |}.

(** The state and the results after some exports. *)
Fixpoint run (ops : list vhd_op) (s : PrimitiveState (W := whole_win32)) : PrimitiveState (W := whole_win32) * list Z :=
  match ops with
  | [] => (s, [])
  | op :: rest =>
      let (s, hr) := run_vhd_op false UnknownException op s in let (s, hrs) := run rest s in (s, hr :: hrs)
  end.

Definition opened : list vhd_op := [OpVhdOpen mount1 (Some config) true; OpVhdAttach vhd1 (Some 64)].
End Session.
Import Session.

Lemma start_without_disks : no_disks start.
Proof. split; [exists kMaxSlot; split; [by vm_compute|done]|done]. Qed.

(** Exports that end no mount. *)
Definition spares_mounts (op : vhd_op) : bool := match op with OpVhdMountDestroy _ => false | _ => true end.

Lemma run_steps sound ops s :
  Forall vhd_op_ok ops -> sound = false \/ forallb spares_mounts ops = true ->
  rtc (vhd_step false UnknownException sound) s (fst (run ops s)).
Proof.
  intros Hops. revert s. induction Hops as [|op ops Hop _ IH]; intros s Hs; [done|]. cbn [run].
  assert (Hfirst : sound = true -> disks_closed_first false op s).
  { intros ->. destruct Hs as [|[Hs _]%andb_true_iff]; [done|]. by destruct op. }
  pose proof (StepVhd false UnknownException sound op s Hop Hfirst) as Hstep.
  destruct (run_vhd_op false UnknownException op s) as [s1 hr].
  assert (Hr : rtc (vhd_step false UnknownException sound) s1 (fst (run ops s1))).
  { apply IH. destruct Hs as [->|[_ Hs]%andb_true_iff]; [by left|by right]. }
  destruct (run ops s1) as [s2 hrs]. by eapply rtc_l.
Qed.

Lemma open_disks_are_held_witness :
  let s := fst (run opened start) in
  snd (run opened start) = [S_OK; S_OK] /\ [L "\\?\C:\s\a"] ≡ₚ open_disks (vhdHeap s) ++ [] /\
  Resolve kMagicVhd vhd1 (vhdTable s) = Some (fresh (∅ : gset nat)) /\ is_Some (vhdHeap s !! fresh (∅ : gset nat)).
Proof.
  pose proof (open_disks_are_held (W := whole_win32) false UnknownException start (fst (run opened start)) start_without_disks
    (run_steps false opened start ltac:(by repeat constructor) ltac:(by left))) as (Ho & Hn & _).
  cbv zeta. split; [vm_compute; reflexivity|].
  assert (Hl : held (abiDisk (abi (fst (run opened start)))) = [L "\\?\C:\s\a"]) by (vm_compute; reflexivity).
  rewrite Hl in Ho. split; [exact Ho|].
  assert (Hr : Resolve kMagicVhd vhd1 (vhdTable (fst (run opened start))) = Some (fresh (∅ : gset nat))) by (vm_compute; reflexivity).
  split; [exact Hr|]. apply Hn. exists vhd1. split; [by apply word_ok|exact Hr].
Defined.

Definition ended : list vhd_op := opened ++ [OpVhdClose vhd1].

(** The end of a mount when no disk is left. *)
Lemma run_destroy sound mount s :
  rtc (vhd_step false UnknownException sound) start s -> base.size (vhdHeap s) = 0%nat ->
  rtc (vhd_step false UnknownException sound) start (fst (run_vhd_op false UnknownException (OpVhdMountDestroy mount) s)).
Proof.
  intros Hs Hh. apply map_size_empty_iff in Hh. apply (rtc_r _ s); [done|]. apply StepVhd; [done|]. intros _ id _.
  unfold no_disks_of. rewrite Hh. apply map_Forall_empty.
Qed.

(** The disk is closed, then the mount ends. *)
Lemma managers_outlive_their_disks_witness :
  let s := fst (run_vhd_op false UnknownException (OpVhdMountDestroy mount1) (fst (run ended start))) in
  snd (run ended start) = [S_OK; S_OK; S_OK] /\ is_null (resolve_mount mount1 (abi s)) = true /\ freedManagerUsed s = false.
Proof.
  cbv zeta. split; [vm_compute; reflexivity|]. split; [vm_compute; reflexivity|].
  assert (Hh : base.size (vhdHeap (fst (run ended start))) = 0%nat) by (vm_compute; reflexivity).
  exact (proj1 (managers_outlive_their_disks (W := whole_win32) false UnknownException start _ start_without_disks
    (run_destroy true mount1 _ (run_steps true ended start ltac:(repeat constructor; by apply word_ok) ltac:(by right)) Hh))).
Defined.

(** A mount is destroyed with [S_OK] while a disk of it is open; the detach then
    goes through a pointer to nothing. *)
Example destroyed_before_its_disks :
  let '(s, hrs) := run (opened ++ [OpVhdMountDestroy mount1; OpVhdDetach vhd1]) start in
  hrs = [S_OK; S_OK; S_OK; S_OK] /\ freedManagerUsed s = true.
Proof. vm_compute. by split. Qed.

(** 2023-11-14, and a time of the year 10001. *)
Lemma snapshot_time_reads_back_witness :
  ParseIso8601UtcToFiletime (W := whole_win32) (FormatVssTimestamp (W := whole_win32) 133444736001234567) = 133444736000000000 /\
  ParseIso8601UtcToFiletime (W := whole_win32) (FormatVssTimestamp (W := whole_win32) 2651000000000000000) = 0.
Proof.
  split.
  - exact (snapshot_time_reads_back (W := whole_win32) 133444736001234567).
  - exact (snapshot_time_reads_back (W := whole_win32) 2651000000000000000).
Defined.

(** A snapshot that dies with its mount, with room for both texts. *)
Definition snapshot_call : PrimitiveState (W := whole_win32) * (Z * option VssCreated) :=
  LayerMountVssCreateSnapshot (W := whole_win32) mount1 (Some (L "C:\")) false true true 64 true 260 start.

Definition snapshot1 : Z := Encode kMagicVssSnapshot 1 1.

Lemma exports_leave_com_as_found_witness :
  fst (snd snapshot_call) = S_OK /\ comRefCount (fst snapshot_call) = 0 /\
  inits (abiDisk (abi (fst snapshot_call))) = inits (abiDisk (abi start)).
Proof.
  split; [vm_compute; reflexivity|].
  exact (proj1 (exports_leave_com_as_found (W := whole_win32) false mount1 (Some (L "C:\")) false true true 64 true 260 None None 0)
    start (Z.le_refl 0)).
Defined.

(** The snapshot of a contract that gives a handle. *)
Lemma contract_handle `{W : Win32} `{V : !VhdHost} volume keep idChars deviceChars (s s' : PrimitiveState) hr out v :
  snapshot_contract volume keep idChars deviceChars s s' hr out -> out ≫= createdSnapshot = Some v ->
  Resolve kMagicVssSnapshot v (vssTable s) = None /\
  exists info, Resolve kMagicVssSnapshot v (vssTable s') = Some {| snapshotHeld := info |} /\
    snapshotVolume info = volume /\ persistent info = keep /\
    (hr = S_OK -> out ≫= createdId = Some (snapshotId info ++ [0])).
Proof.
  unfold snapshot_contract. intros [Hc _] Ho. rewrite Ho in Hc. destruct Hc as (_ & _ & Hn & info & created & -> & Hr & Hv & Hk & _ & Ht).
  split; [done|]. exists info. split_and!; try done. cbn. intros Hhr. by apply Ht.
Qed.

Lemma snapshot_is_made_with_room_witness :
  fst (snd snapshot_call) = S_OK /\
  exists info, Resolve kMagicVssSnapshot snapshot1 (vssTable (fst snapshot_call)) = Some {| snapshotHeld := info |} /\
    snapshotVolume info = L "C:\" /\ persistent info = false /\
    (fst (snd snapshot_call) = S_OK -> snd (snd snapshot_call) ≫= createdId = Some (snapshotId info ++ [0])).
Proof.
  split; [vm_compute; reflexivity|].
  pose proof (snapshot_is_made_with_room (W := whole_win32) mount1 (Some (L "C:\")) false true true 64 true 260 ∅ start) as Hs.
  assert (Ho : snd (snd snapshot_call) ≫= createdSnapshot = Some snapshot1) by (vm_compute; reflexivity).
  revert Ho. unfold snapshot_call at 1 2 3 4. destruct (LayerMountVssCreateSnapshot _ _ _ _ _ _ _ _ start) as [s' [hr r]].
  intros Ho. apply (contract_handle _ _ 64 260 start); [|exact Ho]. apply Hs; [|done|done|done]. by apply holds_new.
Defined.
